(* ===== verification/_CoqProject ===== *)
-Q . S2P
Prelude.v
Monad.v
StdMap.v
Json.v
Blob.v
BlobAssembler.v
BlobPump.v
Protocol.v
ControlDomains.v
ControlRefinement.v
Senders.v
Consumer.v
Floats.v
FloatInts.v
TierPolicy.v
RateEstimator.v
SignalingClient.v
SessionState.v
SessionOps.v
SessionRate.v
SessionLife.v
SessionLemmas.v
SessionClose.v
SessionSafety.v
SessionGate.v
SessionTracks.v
SessionRateProofs.v
FrameHub.v
FrameHubProofs.v
MediaPlane.v
NetAddressing.v
Config.v
ConfigProofs.v
Capability.v
NetCapability.v
Terminal.v
TerminalProofs.v
Audio.v
Keymap.v
Screens.v
DesktopTables.v
Desktop.v
DesktopFrame.v
DesktopProofs.v
DesktopMonitors.v
DesktopClipboard.v
HelperLink.v
MutterDisplay.v
SessionHelper.v
SessionHelperProofs.v
CaptureOffer.v
CaptureFrames.v
CaptureFramesProofs.v
DesktopSound.v
MutterBackend.v
MutterBackendProofs.v
CursorImage.v
EisInput.v
X11Clipboard.v
X11ClipboardProofs.v
Edid.v
X11Backend.v
X11InputProofs.v
X11CaptureProofs.v
SnapshotStore.v
SnapshotStoreProofs.v
Tar.v
MemoryCensus.v
IntrospectServer.v
IntrospectServerProofs.v
IntrospectCapability.v
LogRing.v
