(* ===== verification/Prelude.v ===== *)
(** * Fjarr agent: a verification development

    Fjarr lets an operator see, hear and control a robot from a browser. Its agent is a C++ daemon on
    the robot: it keeps one connection to a signaling server, gives every operator a WebRTC session
    with media tracks and data channels, and routes what arrives to capabilities (remote desktop,
    terminal, audio, network tunnel, cameras). The development models the agent under agent/, its
    desktop modules and the helper programs that run in the desktop user's session. Paths below
    are relative to agent/; src/ is left out where the directory says enough (core/, media/,
    desktop/, capabilities/, introspect/).

    ** How the parts interact

    Everything but media runs on one GLib loop: a handler runs to its end before the next starts, so
    a handler is a computation over the shared state, and an interleaving is a sequence of handlers.
    A message comes over [SignalingClient] or a data channel, is decoded by [Protocol], reaches the
    session ([SessionOps]), passes the control gate ([ControlDomains]) and goes to a capability
    ([Capability] and the files of the single ones), which answers through its session context.
    Tracks go the other way: the capability registers them with the media plane ([MediaPlane]), which
    runs a producer while a session wants one and pushes its frames through [FrameHub] to the
    sessions' pipelines ([Consumer]). Bulk data (clipboards) goes in blobs: [BlobPump] cuts them,
    [BlobAssembler] puts them together. The desktop capability calls a backend through an interface;
    [MutterBackend] implements it with the help of a program in the desktop session, reached over a
    socket ([HelperLink] at the agent's end, [SessionHelper] at the other), [X11Backend] by talking to
    the X server itself.

    ** Conventions

    - A w-bit integer is a [Z] with the wrap-around written out ([u8], [u32], [u64], [s32] and the
      like); a [double] is a binary64 value of [SpecFloat] ([Floats]); bytes are [Byte.byte]; text is
      [string]. A [std::map] is an association list in key order ([StdMap]), because several loops
      depend on that order.
    - A handler that mutates shared state and may throw is a computation of [Monad]: an exception
      keeps the changes made before it. [respects R m] says that the states before and after [m] are
      related by [R], whether it throws or not; most invariants are proved with it.
    - What leaves a component (messages, calls of a device, callbacks) is an event of a history kept in
      order. What comes from outside is an input of a step function, and a run is a fold over any
      list of inputs; a theorem "in every run" is by induction over that list.
    - Threads: where the source takes a lock, a critical section is one step and the steps
      interleave in any order ([FrameHub], [CaptureFrames], [Audio]).
    - Third-party code is a parameter, with the laws that are used of it: JSON text ([JsonText],
      [JsonTextLaws]), toml++ ([TomlLib]), libxkbcommon ([Xkb]), [std::sort] ([StdSort]), the SCTP
      channel ([DataChannel], [BufferGrowth]), atoms of the X server ([Atoms]), the walk over a pipeline ([Walker]), text and sorting of the endpoint ([Endpoint]), SHA-256, GStreamer,
      PipeWire, libei, mutter and the kernel. Each law has a concrete instance in a witness.

    ** Files

    Shared: [Prelude] (exceptions, integers, lists, tactics), [Monad], [StdMap], [Json], [Floats], [FloatInts]
    (integers that binary64 adds and compares exactly).

    Transfer. [Blob], [BlobAssembler] (core/blob.cpp) and [BlobPump] (core/blob_pump.cpp): a frame
    parses back to what was encoded, the store is bounded whatever a peer sends, a blob that is queued
    arrives as the same bytes, the pump ends. [Protocol] (core/protocol.cpp): envelopes and signaling
    messages round-trip, what is refused and with which error. [Senders] (the sender classes of
    core/session.cpp): what is dropped and what is held back on a full channel.

    Sessions (core/session.cpp, core/session_manager.cpp). [SessionState] is the shared world,
    [SessionOps] the handlers, [SessionRate] the rate tick, [SessionLife] attach, timers, the manager and
    the [step] that composes them. [SessionLemmas] is the common ground of the proofs; [SessionClose]: a
    close releases input, detaches every capability once and tells the operator, in that order;
    [SessionSafety]: what no transition breaks; [SessionGate]: who gets input through;
    [SessionTracks]: a track selection is applied whole or not at all; [SessionRateProofs]: each
    sent track gets its share of the estimate. [ControlDomains] (core/control_domains.cpp) with
    [ControlRefinement]: the tables of claims implement one abstract lock per domain.
    [SignalingClient] (core/signaling_client.cpp, core/backoff.cpp): a started client has a connection
    or a reconnect on the way. [Config], [ConfigProofs] (core/config.cpp, daemon/main.cpp): the daemon
    starts with a valid configuration or reports an error.

    Media. [Consumer] (media/consumer.cpp), [TierPolicy], [RateEstimator], [FrameHub] with
    [FrameHubProofs], [MediaPlane] (the files of the same name under media/): a track sends only
    after an answer accepted it, every viewer gets a stream it can decode, keyframe requests are spaced
    but not lost, failing producers are retried with growing delays.

    Capabilities. [Capability] is what a plugin does from its callbacks. [NetAddressing] and
    [NetCapability]: which packets cross the tunnel. [Terminal], [TerminalProofs]: no shell outlives its
    session, its output is sent exactly. [Audio]: one operator has the speaker. [DesktopTables],
    [Keymap], [Screens] (the pure files under desktop/): key codes, typing text, naming and laying
    out monitors. [Desktop] (capabilities/desktop_capability.cpp) with [DesktopFrame] (what most
    handlers leave alone), [DesktopProofs] (whose keys are down), [DesktopMonitors] (virtual monitors),
    [DesktopClipboard] (writes are exact, a viewer sees none).

    Desktop modules. [HelperLink] (desktop/helper_protocol.cpp, modules/common/helper_listener.cpp): who
    may connect. [MutterDisplay], [SessionHelper], [SessionHelperProofs] (desktop-session/): nothing is
    captured for an agent that is gone. [CaptureOffer], [CaptureFrames], [CaptureFramesProofs]
    (modules/desktop-mutter/capture_memory.cpp): a buffer is never recorded into while its frame is
    read, and goes back when it is not. [DesktopSound] (modules/common/desktop_sound.cpp),
    [MutterBackend], [MutterBackendProofs] (modules/desktop-mutter/backend.cpp): every clipboard
    request is answered once, nothing is streamed without a helper. [CursorImage]
    (desktop/cursor_image.cpp), [EisInput] (modules/desktop-mutter/eis_input.cpp): text is typed whole or
    not at all. [X11Clipboard], [X11ClipboardProofs] (modules/desktop-x11/clipboard.cpp): what is copied is
    what is pasted. [Edid] (desktop/edid.cpp), [X11Backend] (modules/desktop-x11/backend.cpp) with
    [X11InputProofs] (nothing stays pressed, wherever the display dies; wheel clicks are counted
    exactly) and [X11CaptureProofs] (a capture follows its monitor).

    Introspection (introspect/). [SnapshotStore], [SnapshotStoreProofs] (SnapshotStore of introspector.cpp): the
    flight recorder is bounded and the last trigger lands. [Tar] (bundle.cpp): the names of an archive are
    read back. [MemoryCensus] (memory.cpp): a checkpoint is read back, leaks are counted however often they are
    read. [IntrospectServer], [IntrospectServerProofs] (server.cpp), which composes the three: an endpoint
    beyond the loopback is gated, event streams have no gaps, a reader that returns gets all that is held.
    [IntrospectCapability] (capabilities/introspect_capability.cpp): a subscriber is shown the newest snapshot.
    [LogRing] (core/log.cpp): the log ring is bounded and loses nothing else.

    ** Bounds and fuel

    Recursion that is not structural runs on fuel, and a lemma beside it says how much is enough.
    [BlobAssembler.evict] gets one unit per stored blob and drops one each time ([evict_spec]);
    [BlobPump.send_chunks] gets more than the bytes left ([send_chunks_spec]) and [pump_loop] at least one
    unit per queued transfer and per transfer the callbacks add ([pump_terminates]); running out is
    a result of its own ([OutOfFuel]), never a success. [X11ClipboardProofs.paste_is_copy] asks for as
    many chunks as the content's length needs. [SnapshotStore.evict] runs once for each closed ring too many,
    [Tar.names_loop] once more than the archive has bytes; the X11 wheel's loop takes its fuel as an input,
    since it may not end, and [X11InputProofs.wheel_exact] says how much is enough. The capture's copy and the cursor's bitmap are
    bounded by the sizes the source checks; the theorems on them are about those checks.

    Where the code misbehaves the model does too, and a closed theorem shows it on a concrete
    input; the properties are stated for what the code does.

    ** Not modelled

    GStreamer pipelines (producers, sources, encoder selection, the probe; the elements inside the
    consumer, the walk over its elements that a snapshot draws), PipeWire stream readers, the GLib
    loop and the system profile are clients of libraries whose behaviour they
    configure: the parts above see them as interfaces or as inputs. The camera and
    test capabilities, the small buffer probes, the module loader, the wiring of the daemon and
    the operator simulator have no state of their own worth a theorem. The signaling server and the
    command line tools (Rust), the web client and the dashboard (TypeScript) are other programs. *)

From Stdlib Require Import ZArith Lia Strings.Byte Ascii String.
From stdpp Require Import base list strings.

#[global] Set Default Goal Selector "!".

Declare Scope fjarr_scope.
Delimit Scope fjarr_scope with fjarr.
#[global] Open Scope fjarr_scope.
#[global] Open Scope Z_scope.

(** ** Exceptions

    [FjarrError] carries a stable code and a message (include/fjarr/errors.hpp); any other
    [std::exception] only has a [what()]. *)
Inductive exn :=
| FjarrError (code message : string)
| StdException (what : string).

#[global] Instance exn_eq_dec : EqDecision exn.
Proof. solve_decision. Defined.

Inductive result (A : Type) :=
| Ok (a : A)
| Throw (e : exn).
Arguments Ok {A} a.
Arguments Throw {A} e.

Definition rbind {A B} (r : result A) (f : A -> result B) : result B :=
  match r with Ok a => f a | Throw e => Throw e end.

Notation "'let*' x := r 'in' k" := (rbind r (fun x => k))
  (at level 10, x pattern, r at level 100, k at level 200) : fjarr_scope.
Notation "'let?' x := o 'in' k" := (match o with Some x => k | None => None end)
  (at level 10, x pattern, o at level 100, k at level 200) : fjarr_scope.

Definition is_ok {A} (r : result A) : bool := match r with Ok _ => true | Throw _ => false end.

(** ** Machine integers: a w-bit unsigned value is a [Z] reduced modulo 2^w *)
Definition u8 (z : Z) : Z := z mod 2 ^ 8.
Definition u16 (z : Z) : Z := z mod 2 ^ 16.
Definition u32 (z : Z) : Z := z mod 2 ^ 32.
Definition u64 (z : Z) : Z := z mod 2 ^ 64.
(** Two's complement conversion to [int] and [std::int64_t]. *)
Definition s32 (z : Z) : Z := (z + 2 ^ 31) mod 2 ^ 32 - 2 ^ 31.
Definition s64 (z : Z) : Z := (z + 2 ^ 63) mod 2 ^ 64 - 2 ^ 63.

Lemma u32_small z : 0 <= z < 2 ^ 32 -> u32 z = z.
Proof. apply Z.mod_small. Qed.
Lemma u64_small z : 0 <= z < 2 ^ 64 -> u64 z = z.
Proof. apply Z.mod_small. Qed.
Lemma u32_range z : 0 <= u32 z < 2 ^ 32.
Proof. apply Z.mod_pos_bound. lia. Qed.
Lemma u64_range z : 0 <= u64 z < 2 ^ 64.
Proof. apply Z.mod_pos_bound. lia. Qed.
Lemma s32_small z : - 2 ^ 31 <= z < 2 ^ 31 -> s32 z = z.
Proof. intros. unfold s32. rewrite Z.mod_small; lia. Qed.

(** Bit fields that do not overlap. *)
Lemma land_disjoint v w k : 0 <= v < 2 ^ k -> 0 <= k -> Z.land v (w * 2 ^ k) = 0.
Proof.
  intros Hv Hk. apply Z.bits_inj'. intros n Hn. rewrite Z.land_spec, Z.bits_0, Z.mul_pow2_bits by lia.
  destruct (Z.ltb_spec n k); [rewrite (Z.testbit_neg_r w) by lia; apply andb_false_r|].
  rewrite <- (Z.mod_small v (2 ^ k)) by lia. by rewrite Z.mod_pow2_bits_high by lia.
Qed.
Lemma lor_disjoint v w k : 0 <= v < 2 ^ k -> 0 <= k -> Z.lor v (w * 2 ^ k) = v + w * 2 ^ k.
Proof.
  intros Hv Hk. pose proof (land_disjoint v w k Hv Hk).
  by rewrite <- Z.lxor_lor, Z.add_nocarry_lxor.
Qed.
Lemma land_ones_range v k : 0 <= k -> 0 <= Z.land v (Z.ones k) < 2 ^ k.
Proof. intros Hk. rewrite Z.land_ones by done. apply Z.mod_pos_bound. lia. Qed.
Lemma lxor_range a b k : 0 <= a < 2 ^ k -> 0 <= b < 2 ^ k -> 0 <= k -> 0 <= Z.lxor a b < 2 ^ k.
Proof.
  intros Ha Hb Hk. assert (Z.lxor a b = Z.lxor a b mod 2 ^ k) as ->; [|apply Z.mod_pos_bound; lia].
  apply Z.bits_inj'. intros n Hn. destruct (Z.ltb_spec n k); [by rewrite Z.mod_pow2_bits_low by lia|].
  rewrite Z.mod_pow2_bits_high, Z.lxor_spec by lia.
  by rewrite <- (Z.mod_small a (2 ^ k)), <- (Z.mod_small b (2 ^ k)), !Z.mod_pow2_bits_high by lia.
Qed.

Create Rewrite HintDb width.
#[export] Hint Rewrite u32_small u64_small s32_small using lia : width.

(** ** Sizes as [Z] *)
Definition zlen {A} (l : list A) : Z := Z.of_nat (length l).

Lemma zlen_nil {A} : zlen (@nil A) = 0.
Proof. done. Qed.
Lemma zlen_cons {A} (x : A) l : zlen (x :: l) = 1 + zlen l.
Proof. unfold zlen. simpl length. lia. Qed.
Lemma zlen_app {A} (l k : list A) : zlen (l ++ k) = zlen l + zlen k.
Proof. unfold zlen. rewrite length_app. lia. Qed.
Lemma zlen_snoc {A} (l : list A) x : zlen (l ++ [x]) = zlen l + 1.
Proof. by rewrite zlen_app. Qed.
Lemma zlen_length {A} (l : list A) n : length l = n -> zlen l = Z.of_nat n.
Proof. by intros <-. Qed.
Lemma zlen_nonneg {A} (l : list A) : 0 <= zlen l.
Proof. unfold zlen. lia. Qed.
Lemma zlen_take {A} n (l : list A) : zlen (take n l) = Z.min (Z.of_nat n) (zlen l).
Proof. unfold zlen. rewrite length_take. lia. Qed.
Lemma zlen_drop {A} n (l : list A) : zlen (drop n l) = Z.max 0 (zlen l - Z.of_nat n).
Proof. unfold zlen. rewrite length_drop. lia. Qed.
Lemma zlen_0 {A} (l : list A) : zlen l = 0 -> l = [].
Proof. unfold zlen. destruct l; simpl; [done | lia]. Qed.

Create Rewrite HintDb zlen.
#[export] Hint Rewrite @zlen_nil @zlen_cons @zlen_app @zlen_take @zlen_drop : zlen.

(** ** Bytes *)
Definition byteZ (b : byte) : Z := Z.of_N (Byte.to_N b).
Definition Zbyte (z : Z) : byte :=
  match Byte.of_N (Z.to_N (u8 z)) with Some b => b | None => x00 end.

Lemma byteZ_range b : 0 <= byteZ b < 256.
Proof. unfold byteZ. pose proof (Byte.to_N_bounded b). lia. Qed.

Lemma byteZ_Zbyte z : byteZ (Zbyte z) = u8 z.
Proof.
  unfold Zbyte, byteZ. pose proof (Z.mod_pos_bound z (2 ^ 8) ltac:(lia)).
  destruct (Byte.of_N _) as [b|] eqn:E.
  - apply Byte.to_of_N in E. rewrite E. unfold u8 in *. lia.
  - apply Byte.of_N_None_iff in E. unfold u8 in *. lia.
Qed.

Lemma byteZ_inj a b : byteZ a = byteZ b -> a = b.
Proof.
  unfold byteZ. intros H%N2Z.inj.
  pose proof (Byte.of_to_N a) as Ha. pose proof (Byte.of_to_N b) as Hb.
  rewrite H in Ha. congruence.
Qed.

Lemma Zbyte_byteZ b : Zbyte (byteZ b) = b.
Proof.
  apply byteZ_inj. rewrite byteZ_Zbyte. unfold u8. apply Z.mod_small.
  pose proof (byteZ_range b). lia.
Qed.

#[global] Instance byte_eq_dec : EqDecision byte := Byte.byte_eq_dec.

(** ** Strings *)
Definition chars (s : string) : list ascii := String.list_ascii_of_string s.
Definition of_chars (l : list ascii) : string := String.string_of_list_ascii l.

Lemma chars_of_chars l : chars (of_chars l) = l.
Proof. apply String.list_ascii_of_string_of_list_ascii. Qed.
Lemma of_chars_chars s : of_chars (chars s) = s.
Proof. apply String.string_of_list_ascii_of_string. Qed.

(** The numeric value of a [char], as [unsigned char]. *)
Definition chr (c : ascii) : Z := Z.of_N (N_of_ascii c).
Definition ssize (s : string) : Z := zlen (chars s).

Lemma chr_range c : 0 <= chr c < 256.
Proof. unfold chr. pose proof (N_ascii_bounded c). lia. Qed.

(** [s.rfind(prefix, 0) == 0]: the string starts with [prefix]. *)
Fixpoint starts_with (p s : list ascii) : bool :=
  match p, s with
  | [], _ => true
  | a :: p', b :: s' => bool_decide (a = b) && starts_with p' s'
  | _ :: _, [] => false
  end.

Lemma starts_with_app p s : starts_with p (p ++ s) = true.
Proof. induction p; simpl; [done|]. by rewrite bool_decide_true. Qed.

Lemma starts_with_spec p s : starts_with p s = true <-> exists r, s = p ++ r.
Proof.
  split.
  - revert s; induction p as [|a p IH]; intros s; simpl; [by eexists|].
    destruct s as [|b s]; [done|]. intros [->%bool_decide_eq_true Hs]%andb_prop.
    destruct (IH _ Hs) as [r ->]. by eexists.
  - intros [r ->]. apply starts_with_app.
Qed.

(** ** Boolean reflection for the tests the code makes *)
Ltac case_bool :=
  match goal with
  | |- context [bool_decide ?P] => destruct (bool_decide_reflect P)
  | |- context [Z.ltb ?a ?b] => destruct (Z.ltb_spec a b)
  | |- context [Z.leb ?a ?b] => destruct (Z.leb_spec a b)
  | |- context [Z.eqb ?a ?b] => destruct (Z.eqb_spec a b)
  | |- context [String.eqb ?a ?b] => destruct (String.eqb_spec a b)
  | H : context [bool_decide ?P] |- _ => destruct (bool_decide_reflect P)
  | H : context [Z.ltb ?a ?b] |- _ => destruct (Z.ltb_spec a b)
  | H : context [Z.leb ?a ?b] |- _ => destruct (Z.leb_spec a b)
  | H : context [Z.eqb ?a ?b] |- _ => destruct (Z.eqb_spec a b)
  | H : context [String.eqb ?a ?b] |- _ => destruct (String.eqb_spec a b)
  end.
Ltac case_bools := repeat (case_bool; simpl in *; try discriminate; try lia).
