(* ===== verification/Monad.v ===== *)
(** * Monad: state and exceptions

    The handlers of the agent mutate shared objects and may throw in the middle: a computation
    takes the state and returns it with a result, and an exception keeps the changes made before
    it, as in the source. [respects R m] is the shape of most invariance arguments: whatever [m]
    does, and whether or not it throws, the states before and after are related by the preorder
    [R]. *)

From stdpp Require Import base list relations.
From S2P Require Import Prelude.

Definition Prog (S A : Type) : Type := S -> S * result A.

Section Monad.
Context {S : Type}.
Definition ret {A} (a : A) : Prog S A := fun s => (s, Ok a).
Definition bind {A B} (m : Prog S A) (f : A -> Prog S B) : Prog S B :=
  fun s => match m s with (s', Ok a) => f a s' | (s', Throw e) => (s', Throw e) end.
Definition throw {A} (e : exn) : Prog S A := fun s => (s, Throw e).
Definition catch {A} (m : Prog S A) (h : exn -> Prog S A) : Prog S A :=
  fun s => match m s with (s', Throw e) => h e s' | r => r end.
Definition get : Prog S S := fun s => (s, Ok s).
Definition modify (f : S -> S) : Prog S unit := fun s => (f s, Ok tt).
Definition lift {A} (r : result A) : Prog S A := fun s => (s, r).
Definition when (b : bool) (m : Prog S unit) : Prog S unit := if b then m else ret tt.
Fixpoint for_each {A} (l : list A) (f : A -> Prog S unit) : Prog S unit :=
  match l with [] => ret tt | a :: l' => bind (f a) (fun _ => for_each l' f) end.
Definition swallow (m : Prog S unit) : Prog S unit := catch m (fun _ => ret tt).
Lemma bind_ok {A B} (m : Prog S A) (f : A -> Prog S B) s s' a : m s = (s', Ok a) -> bind m f s = f a s'.
Proof. unfold bind. by intros ->. Qed.
End Monad.

Notation "'do' x <- m ; k" := (bind m (fun x => k)) (at level 100, x pattern, m at level 99, right associativity) : fjarr_scope.
Notation "m ;; k" := (bind m (fun _ => k)) (at level 100, right associativity) : fjarr_scope.

Section Respects.
Context {S : Type} (R : relation S) `{!PreOrder R}.

Definition respects {A} (m : Prog S A) : Prop := forall w, R w (m w).1.
Lemma respects_ret {A} (a : A) : respects (ret a).
Proof. intros w. done. Qed.
Lemma respects_throw {A} e : respects (@throw S A e).
Proof. intros w. done. Qed.
Lemma respects_lift {A} (r : result A) : respects (lift r).
Proof. intros w. done. Qed.
Lemma respects_get : respects get.
Proof. intros w. done. Qed.
Lemma respects_modify (f : S -> S) : (forall s, R s (f s)) -> respects (modify f).
Proof. intros Hf w. apply Hf. Qed.
Lemma respects_bind {A B} (m : Prog S A) (f : A -> Prog S B) : respects m -> (forall a, respects (f a)) -> respects (bind m f).
Proof.
  intros Hm Hf w. unfold bind. specialize (Hm w). destruct (m w) as [w1 [a|e]]; simpl in *; [|done]. etrans; [done | apply Hf].
Qed.
Lemma respects_catch {A} (m : Prog S A) h : respects m -> (forall e, respects (h e)) -> respects (catch m h).
Proof.
  intros Hm Hh w. unfold catch. specialize (Hm w). destruct (m w) as [w1 [a|e]]; simpl in *; [done|]. etrans; [done | apply Hh].
Qed.
Lemma respects_swallow m : respects m -> respects (swallow m).
Proof. intros Hm. apply respects_catch; [done|]. intros e. apply respects_ret. Qed.
Lemma respects_when b m : respects m -> respects (when b m).
Proof. intros Hm. destruct b; [done | apply respects_ret]. Qed.
Lemma respects_for_each {A} (l : list A) f : (forall a, In a l -> respects (f a)) -> respects (for_each l f).
Proof.
  induction l as [|a l IH]; intros Hf; simpl; [apply respects_ret|].
  apply respects_bind; [apply Hf; by left|]. intros _. apply IH. intros. apply Hf. by right.
Qed.
(** A loop that ends normally has run its body on each element. *)
Lemma for_each_visits {A} (l : list A) (f : A -> Prog S unit) : (forall a, respects (f a)) -> forall w w', for_each l f w = (w', Ok tt) ->
  forall a, In a l -> exists w1 w2, R w w1 /\ f a w1 = (w2, Ok tt) /\ R w2 w'.
Proof.
  intros Hf. induction l as [|b l IH]; intros w w' Hw a Ha; simpl in *; [done|]. unfold bind in Hw. destruct (f b w) as [w1 [[]|e]] eqn:Eb; [|done].
  destruct Ha as [<-|Ha].
  - exists w, w1. split_and!; [done | done|]. pose proof (respects_for_each l f (fun a _ => Hf a) w1) as Hl. by rewrite Hw in Hl.
  - destruct (IH w1 w' Hw a Ha) as (x & y & Hx & Hxy & Hy). exists x, y. split_and!; [|done|done].
    etrans; [|exact Hx]. pose proof (Hf b w) as Hb. by rewrite Eb in Hb.
Qed.
(** The same of the runs that end normally. *)
Definition respects_ok {A} (m : Prog S A) : Prop := forall w w' a, m w = (w', Ok a) -> R w w'.
Lemma ok_of_respects {A} (m : Prog S A) : respects m -> respects_ok m.
Proof. intros Hm w w' a Hw. specialize (Hm w). by rewrite Hw in Hm. Qed.
Lemma respects_ok_bind {A B} (m : Prog S A) (f : A -> Prog S B) : respects_ok m -> (forall a, respects_ok (f a)) -> respects_ok (bind m f).
Proof. intros Hm Hf w w' b. unfold bind. destruct (m w) as [w1 [a|e]] eqn:E; [|done]. intros Hb. etrans; [by eapply Hm | by eapply Hf]. Qed.
Lemma respects_ok_for_each {A} (l : list A) f : (forall a, respects_ok (f a)) -> respects_ok (for_each l f).
Proof. intros Hf. induction l as [|a l IH]; simpl; [apply ok_of_respects, respects_ret|]. apply respects_ok_bind; [done|]. by intros _. Qed.
(** A step that reads the state and goes on from it. *)
Lemma respects_reading {A B} (sel : S -> B) (k : B -> Prog S A) : (forall b, respects (k b)) -> respects (fun s => k (sel s) s).
Proof. intros Hk w. apply Hk. Qed.
End Respects.

(** ** What never throws *)
Section Normal.
Context {S : Type}.
Definition normal {A} (m : Prog S A) : Prop := forall w, exists w' a, m w = (w', Ok a).
Lemma normal_ret {A} (a : A) : normal (ret a).
Proof. intros w. by exists w, a. Qed.
Lemma normal_get : normal get.
Proof. intros w. by exists w, w. Qed.
Lemma normal_modify f : normal (modify f).
Proof. intros w. by exists (f w), tt. Qed.
Lemma normal_bind {A B} (m : Prog S A) (f : A -> Prog S B) : normal m -> (forall a, normal (f a)) -> normal (bind m f).
Proof. intros Hm Hf w. destruct (Hm w) as (w1 & a & E). rewrite (bind_ok _ _ _ _ _ E). apply Hf. Qed.
Lemma normal_when b m : normal m -> normal (when b m).
Proof. destruct b; [done|]. intros _. apply normal_ret. Qed.
Lemma normal_for_each {A} (l : list A) f : (forall a, normal (f a)) -> normal (for_each l f).
Proof. intros Hf. induction l as [|a l IH]; simpl; [apply normal_ret|]. apply normal_bind; [done|]. by intros _. Qed.
End Normal.
Ltac normal_step :=
  first
  [ apply normal_ret | apply normal_get | apply normal_modify | apply normal_when | apply normal_bind; [|intros ?] | apply normal_for_each; intros ?
  | match goal with |- normal (match ?x with _ => _ end) => destruct x end
  | match goal with |- normal (if ?x then _ else _) => destruct x end ].

(** One step down a handler; what is left is its primitive steps. *)
Ltac respects_step :=
  first
  [ apply respects_ret; apply _ | apply respects_throw; apply _ | apply respects_lift; apply _ | apply respects_get; apply _
  | apply respects_when; [apply _|] | apply respects_swallow; [apply _|]
  | apply respects_bind; [apply _| |intros ?]
  | apply respects_catch; [apply _| |intros ?]
  | apply respects_for_each; [apply _|intros ? _]
  | match goal with |- respects _ (match ?x with _ => _ end) => destruct x end
  | match goal with |- respects _ (if ?x then _ else _) => destruct x end ].
