(* ===== verification/StdMap.v ===== *)
(** * StdMap: [std::map], an association list kept in key order

    The agent's tables are [std::map]s, and several loops depend on their iteration order
    (which blob is evicted on a tie, which session hears a change first), so the model keeps
    the order. Keys are compared by an [OrdKey] instance; [std::string] compares its bytes as
    unsigned characters, as [String.compare] does. *)

From Stdlib Require Import ZArith Lia Ascii String Sorted.
From stdpp Require Import base list strings.
From S2P Require Import Prelude.

Class OrdKey (K : Type) := {
  kcmp : K -> K -> comparison;
  kcmp_eq : forall a b, kcmp a b = Eq <-> a = b;
  kcmp_opp : forall a b, kcmp b a = CompOpp (kcmp a b);
  kcmp_lt_trans : forall a b c, kcmp a b = Lt -> kcmp b c = Lt -> kcmp a c = Lt
}.

Lemma ascii_compare_eq a b : Ascii.compare a b = Eq <-> a = b.
Proof.
  split; [apply Ascii.compare_eq_iff | intros ->].
  unfold Ascii.compare. apply N.compare_refl.
Qed.

Lemma string_compare_refl s : String.compare s s = Eq.
Proof. induction s as [|a s IH]; simpl; [done|]. by rewrite (proj2 (ascii_compare_eq a a) eq_refl). Qed.

Lemma string_compare_lt_trans a b c :
  String.compare a b = Lt -> String.compare b c = Lt -> String.compare a c = Lt.
Proof.
  revert b c; induction a as [|x a IH]; intros [|y b] [|z c]; simpl; try done.
  unfold Ascii.compare.
  destruct (N.compare_spec (N_of_ascii x) (N_of_ascii y)) as [E|E|E]; try done;
    destruct (N.compare_spec (N_of_ascii y) (N_of_ascii z)) as [F|F|F]; try done; intros H1 H2;
    destruct (N.compare_spec (N_of_ascii x) (N_of_ascii z)) as [G|G|G]; try done; try lia.
  eapply IH; eauto.
Qed.

#[global] Program Instance string_ordkey : OrdKey string := {| kcmp := String.compare |}.
Next Obligation.
  intros a b. split; [apply String.compare_eq_iff | intros ->; apply string_compare_refl].
Qed.
Next Obligation. intros a b. rewrite String.compare_antisym. done. Qed.
Next Obligation. intros a b c. apply string_compare_lt_trans. Qed.

#[global] Program Instance Z_ordkey : OrdKey Z := {| kcmp := Z.compare |}.
Next Obligation. intros. apply Z.compare_eq_iff. Qed.
Next Obligation. intros. apply Z.compare_antisym. Qed.
Next Obligation. intros. rewrite Z.compare_lt_iff in *. lia. Qed.

(** [std::pair] and the hand-written [operator<] of [HubKey] are both lexicographic. *)
Definition pair_cmp {A B} `{OrdKey A} `{OrdKey B} (x y : A * B) : comparison :=
  match kcmp x.1 y.1 with Eq => kcmp x.2 y.2 | c => c end.

Lemma kcmp_refl {K} `{OrdKey K} (k : K) : kcmp k k = Eq.
Proof. by apply kcmp_eq. Qed.

#[global] Program Instance pair_ordkey {A B} `{OrdKey A} `{OrdKey B} : OrdKey (A * B) :=
  {| kcmp := pair_cmp |}.
Next Obligation.
  intros A B ?? [a b] [c d]. unfold pair_cmp; simpl. split.
  - destruct (kcmp a c) eqn:E; try done. apply kcmp_eq in E as ->. intros ->%kcmp_eq. done.
  - intros [= -> ->]. rewrite !kcmp_refl. done.
Qed.
Next Obligation.
  intros A B ?? [a b] [c d]. unfold pair_cmp; simpl. rewrite (kcmp_opp a c).
  destruct (kcmp a c); simpl; try done. apply kcmp_opp.
Qed.
Next Obligation.
  intros A B ?? [a b] [c d] [e f]. unfold pair_cmp; simpl.
  destruct (kcmp a c) eqn:E1; try done; destruct (kcmp c e) eqn:E2; try done; intros H1 H2.
  - apply kcmp_eq in E1 as ->. rewrite E2. eapply kcmp_lt_trans; eauto.
  - apply kcmp_eq in E1 as ->. by rewrite E2.
  - apply kcmp_eq in E2 as ->. by rewrite E1.
  - by rewrite (kcmp_lt_trans a c e).
Qed.

Section StdMap.
Context {K : Type} `{OrdKey K} {V : Type}.
Implicit Types (m : list (K * V)) (k : K) (v : V).

Definition keqb (a b : K) : bool := match kcmp a b with Eq => true | _ => false end.
Definition klt (a b : K) : Prop := kcmp a b = Lt.

(** [m.find(k)]. *)
Fixpoint sm_find k m : option V :=
  match m with
  | [] => None
  | (k', v) :: m' => if keqb k k' then Some v else sm_find k m'
  end.

(** [m[k] = v] and [m.emplace(k, v)] on an absent key. *)
Fixpoint sm_set k v m : list (K * V) :=
  match m with
  | [] => [(k, v)]
  | (k', v') :: m' =>
      match kcmp k k' with
      | Lt => (k, v) :: (k', v') :: m'
      | Eq => (k, v) :: m'
      | Gt => (k', v') :: sm_set k v m'
      end
  end.

(** [m.erase(k)]. *)
Fixpoint sm_erase k m : list (K * V) :=
  match m with
  | [] => []
  | (k', v) :: m' => if keqb k k' then sm_erase k m' else (k', v) :: sm_erase k m'
  end.

Definition sm_count k m : bool := match sm_find k m with Some _ => true | None => false end.
Definition sm_wf m : Prop := StronglySorted klt m.*1.
Definition sm_sum (f : V -> Z) m : Z := foldr (fun kv acc => f kv.2 + acc) 0 m.

Lemma keqb_spec a b : reflect (a = b) (keqb a b).
Proof.
  unfold keqb. destruct (kcmp a b) eqn:E; constructor; rewrite <- kcmp_eq; rewrite E; done.
Qed.
Lemma keqb_refl a : keqb a a = true.
Proof. destruct (keqb_spec a a); done. Qed.
Lemma keqb_ne a b : a <> b -> keqb a b = false.
Proof. destruct (keqb_spec a b); done. Qed.
Lemma klt_irrefl a : ~ klt a a.
Proof. unfold klt. by rewrite kcmp_refl. Qed.
Lemma klt_ne a b : klt a b -> a <> b.
Proof. intros ? ->. by eapply klt_irrefl. Qed.
Lemma kcmp_gt a b : kcmp a b = Gt -> klt b a.
Proof. unfold klt. intros E. by rewrite (kcmp_opp a b), E. Qed.

Lemma sm_find_set_eq k v m : sm_find k (sm_set k v m) = Some v.
Proof.
  induction m as [|[k' v'] m IH]; simpl; [by rewrite keqb_refl|].
  destruct (kcmp k k') eqn:E; simpl; rewrite ?keqb_refl; try done.
  rewrite keqb_ne; [done|]. intros ->. by rewrite kcmp_refl in E.
Qed.
Lemma sm_find_set_ne k k' v m : k' <> k -> sm_find k' (sm_set k v m) = sm_find k' m.
Proof.
  intros Hne. induction m as [|[k0 v0] m IH]; simpl; [by rewrite keqb_ne|].
  destruct (kcmp k k0) eqn:E; simpl.
  - apply kcmp_eq in E as ->. by rewrite keqb_ne.
  - by rewrite (keqb_ne k' k).
  - by rewrite IH.
Qed.
Lemma sm_find_erase_eq k m : sm_find k (sm_erase k m) = None.
Proof.
  induction m as [|[k' v] m IH]; simpl; [done|].
  destruct (keqb k k') eqn:E; simpl; [done | by rewrite E].
Qed.
Lemma sm_find_erase_ne k k' m : k' <> k -> sm_find k' (sm_erase k m) = sm_find k' m.
Proof.
  intros Hne. induction m as [|[k0 v] m IH]; simpl; [done|].
  destruct (keqb_spec k k0) as [->|]; simpl; [by rewrite (keqb_ne k' k0) | by rewrite IH].
Qed.

Lemma sm_find_In k v m : sm_find k m = Some v -> In (k, v) m.
Proof.
  induction m as [|[k' v'] m IH]; simpl; [done|].
  destruct (keqb_spec k k') as [->|]; [intros [= ->]; by left | eauto].
Qed.
Lemma sm_find_None k m : sm_find k m = None <-> ~ In k m.*1.
Proof.
  induction m as [|[k' v'] m IH]; simpl; [naive_solver|].
  destruct (keqb_spec k k') as [->|Hne]; [naive_solver|]. rewrite IH. naive_solver.
Qed.
Lemma sm_find_nil m : (forall k, sm_find k m = None) -> m = [].
Proof. destruct m as [|[k v] m]; [done|]. intros H0. specialize (H0 k). cbn in H0. by rewrite keqb_refl in H0. Qed.
Lemma sm_set_keys k v m k' : In k' (sm_set k v m).*1 <-> k' = k \/ In k' m.*1.
Proof.
  induction m as [|[k0 v0] m IH]; simpl; [naive_solver|].
  destruct (kcmp k k0) eqn:E; simpl; [apply kcmp_eq in E as ->; naive_solver | naive_solver |].
  rewrite IH. naive_solver.
Qed.
Lemma sm_set_In k v m kv : In kv (sm_set k v m) -> kv = (k, v) \/ In kv m.
Proof.
  induction m as [|[k0 v0] m IH]; simpl; [intros [<-|[]]; auto|]. destruct (kcmp k k0); simpl; intros [<-|Hin]; auto. destruct (IH Hin); auto.
Qed.
Lemma sm_erase_sublist k m : forall kv, In kv (sm_erase k m) -> In kv m /\ kv.1 <> k.
Proof.
  induction m as [|[k0 v0] m IH]; simpl; [done|]. intros kv.
  destruct (keqb_spec k k0) as [->|Hne]; simpl; [naive_solver|].
  intros [<-|Hin]; [simpl; naive_solver | naive_solver].
Qed.
Lemma sm_erase_keys k m k' : In k' (sm_erase k m).*1 -> In k' m.*1 /\ k' <> k.
Proof.
  rewrite !in_map_iff. intros ([k0 v0] & <- & Hin). apply sm_erase_sublist in Hin as [? ?].
  split; [|done]. by exists (k0, v0).
Qed.

Lemma sm_wf_nil : sm_wf [].
Proof. constructor. Qed.
Lemma sm_wf_nodup m : sm_wf m -> NoDup m.*1.
Proof.
  unfold sm_wf. induction 1 as [|k l Hl IH Hk]; constructor; [|done]. intros Hin. rewrite Forall_forall in Hk. by apply (klt_irrefl k), Hk.
Qed.
Lemma sm_wf_set k v m : sm_wf m -> sm_wf (sm_set k v m).
Proof.
  unfold sm_wf. induction m as [|[k0 v0] m IH]; simpl; [by repeat constructor|].
  intros [Hs Hf]%StronglySorted_inv. rewrite Forall_forall in Hf.
  destruct (kcmp k k0) eqn:E; simpl.
  - apply kcmp_eq in E as ->. constructor; [done | by rewrite Forall_forall].
  - constructor; [constructor; [done | by rewrite Forall_forall]|].
    constructor; [done|]. rewrite Forall_forall. intros x Hx.
    eapply kcmp_lt_trans; [exact E | by apply Hf].
  - constructor; [auto|]. rewrite Forall_forall. intros x Hx.
    rewrite list_elem_of_In, sm_set_keys in Hx. destruct Hx as [->|Hx]; [by apply kcmp_gt|].
    apply Hf. by rewrite list_elem_of_In.
Qed.
Lemma sm_wf_erase k m : sm_wf m -> sm_wf (sm_erase k m).
Proof.
  unfold sm_wf. induction m as [|[k0 v0] m IH]; simpl; [done|].
  intros [Hs Hf]%StronglySorted_inv. rewrite Forall_forall in Hf.
  destruct (keqb k k0); [auto|]. simpl. constructor; [auto|].
  rewrite Forall_forall. intros x Hx. apply Hf. rewrite list_elem_of_In in *.
  by apply sm_erase_keys in Hx as [? _].
Qed.
Lemma sm_wf_cons k v m : sm_wf ((k, v) :: m) -> sm_wf m /\ sm_find k m = None.
Proof.
  unfold sm_wf; simpl. intros [Hs Hf]%StronglySorted_inv. split; [done|].
  rewrite sm_find_None. rewrite Forall_forall in Hf. intros Hin.
  apply (klt_irrefl k), Hf. by rewrite list_elem_of_In.
Qed.
Lemma sm_In_find k v m : sm_wf m -> In (k, v) m -> sm_find k m = Some v.
Proof.
  induction m as [|[k0 v0] m IH]; simpl; [done|]. intros Hwf [[= -> ->]|Hin].
  - by rewrite keqb_refl.
  - apply sm_wf_cons in Hwf as [Hwf Hn]. destruct (keqb_spec k k0) as [->|]; [|auto].
    rewrite (IH Hwf Hin) in Hn. done.
Qed.

Lemma sm_wf_lt_notin k k0 v0 m : sm_wf ((k0, v0) :: m) -> kcmp k k0 = Lt -> sm_find k m = None.
Proof.
  intros Hwf E. rewrite sm_find_None. intros Hin. unfold sm_wf in Hwf; simpl in Hwf.
  apply StronglySorted_inv in Hwf as [_ Hall]. rewrite Forall_forall in Hall.
  specialize (Hall k). rewrite list_elem_of_In in Hall.
  apply (klt_irrefl k), (kcmp_lt_trans _ k0); [exact E | by apply Hall].
Qed.
Lemma sm_erase_absent k m : sm_find k m = None -> sm_erase k m = m.
Proof.
  induction m as [|[k0 v0] m IH]; simpl; [done|]. destruct (keqb k k0) eqn:E; [done|].
  intros Hn. by rewrite IH.
Qed.
Lemma sm_erase_set k v m : sm_erase k (sm_set k v m) = sm_erase k m.
Proof.
  induction m as [|[k0 v0] m IH]; simpl; [by rewrite keqb_refl|]. unfold keqb. destruct (kcmp k k0) eqn:E; simpl; unfold keqb; rewrite ?kcmp_refl, ?E; try done. by rewrite IH.
Qed.
Lemma sm_set_zlen k v m : zlen (sm_set k v m) <= zlen m + 1.
Proof.
  induction m as [|[k0 v0] m IH]; simpl; [done|]. destruct (kcmp k k0); rewrite ?zlen_cons; lia.
Qed.
Lemma sm_erase_zlen k m : zlen (sm_erase k m) <= zlen m.
Proof.
  induction m as [|[k0 v0] m IH]; simpl; [done|]. destruct (keqb k k0); rewrite ?zlen_cons; lia.
Qed.
Lemma sm_sum_erase f k v m : sm_wf m -> sm_find k m = Some v -> sm_sum f (sm_erase k m) = sm_sum f m - f v.
Proof.
  unfold sm_sum. induction m as [|[k0 v0] m IH]; simpl; [done|]. intros [Hwf Hn]%sm_wf_cons.
  destruct (keqb_spec k k0) as [->|Hne].
  - intros [= ->]. rewrite sm_erase_absent by done. lia.
  - intros Hf. simpl. rewrite IH by done. lia.
Qed.
Lemma sm_sum_set_new f k v m : sm_find k m = None -> sm_sum f (sm_set k v m) = sm_sum f m + f v.
Proof.
  unfold sm_sum. induction m as [|[k0 v0] m IH]; simpl; [lia|].
  destruct (keqb_spec k k0) as [->|Hne]; [done|]. intros Hn.
  destruct (kcmp k k0) eqn:E; simpl; [by apply kcmp_eq in E | lia | rewrite IH by done; lia].
Qed.
Lemma sm_sum_set_old f k v v0 m :
  sm_wf m -> sm_find k m = Some v0 -> sm_sum f (sm_set k v m) = sm_sum f m - f v0 + f v.
Proof.
  unfold sm_sum. induction m as [|[k1 v1] m IH]; simpl; [done|]. intros Hwf.
  pose proof (proj1 (sm_wf_cons _ _ _ Hwf)) as Hwf'.
  destruct (keqb_spec k k1) as [->|Hne].
  - intros [= ->]. rewrite kcmp_refl. simpl. lia.
  - intros Hf. destruct (kcmp k k1) eqn:E; simpl; [by apply kcmp_eq in E | | rewrite IH by done; lia].
    by rewrite (sm_wf_lt_notin _ _ _ _ Hwf E) in Hf.
Qed.
Lemma sm_set_set k v w m : sm_set k v (sm_set k w m) = sm_set k v m.
Proof.
  induction m as [|[k0 v0] m IH]; simpl; [by rewrite kcmp_refl|].
  destruct (kcmp k k0) eqn:E; simpl; rewrite ?kcmp_refl, ?E; try done. by rewrite IH.
Qed.
Lemma sm_set_id k v m : sm_wf m -> sm_find k m = Some v -> sm_set k v m = m.
Proof.
  induction m as [|[k0 v0] m IH]; simpl; [done|]. intros Hwf.
  pose proof (proj1 (sm_wf_cons _ _ _ Hwf)) as Hwf'.
  destruct (keqb_spec k k0) as [->|Hne]; [intros [= ->]; by rewrite kcmp_refl|].
  intros Hf. destruct (kcmp k k0) eqn:E; [by apply kcmp_eq in E | | by rewrite IH].
  by rewrite (sm_wf_lt_notin _ _ _ _ Hwf E) in Hf.
Qed.
Lemma sm_sum_nonneg f m : (forall k v, In (k, v) m -> 0 <= f v) -> 0 <= sm_sum f m.
Proof.
  unfold sm_sum. induction m as [|[k v] m IH]; simpl; [lia|]. intros Hf.
  pose proof (Hf k v ltac:(by left)). enough (0 <= foldr (fun kv acc => f kv.2 + acc) 0 m) by lia.
  apply IH. eauto.
Qed.
Lemma sm_sum_find_le f k v m :
  (forall k v, In (k, v) m -> 0 <= f v) -> sm_find k m = Some v -> f v <= sm_sum f m.
Proof.
  unfold sm_sum. induction m as [|[k0 v0] m IH]; simpl; [done|]. intros Hf Hfind.
  pose proof (sm_sum_nonneg f m ltac:(eauto)) as Hm. unfold sm_sum in Hm.
  pose proof (Hf k0 v0 ltac:(by left)).
  destruct (keqb k k0); [injection Hfind as ->; lia|].
  pose proof (IH ltac:(eauto) Hfind). lia.
Qed.

(** Erasing while iterating: [for (it...) if (drop(it)) it = erase(it); else ++it]. *)
(** Rewriting every value in place. *)
Lemma sm_find_map (f : V -> V) k m : sm_find k (map (fun kv => (kv.1, f kv.2)) m) = f <$> sm_find k m.
Proof. induction m as [|[k' v] m IH]; simpl; [done|]. by destruct (keqb k k'). Qed.
Lemma sm_wf_map (f : V -> V) m : sm_wf m -> sm_wf (map (fun kv => (kv.1, f kv.2)) m).
Proof. unfold sm_wf. rewrite <- list_fmap_compose. done. Qed.

Definition sm_filter (keep : K -> V -> bool) m : list (K * V) :=
  List.filter (fun kv => keep kv.1 kv.2) m.

Lemma sm_filter_In keep m kv : In kv (sm_filter keep m) <-> In kv m /\ keep kv.1 kv.2 = true.
Proof. apply filter_In. Qed.
Lemma sm_filter_find keep k m : sm_wf m ->
  sm_find k (sm_filter keep m) =
    match sm_find k m with Some v => if keep k v then Some v else None | None => None end.
Proof.
  unfold sm_filter. induction m as [|[k0 v0] m IH]; simpl; [done|]. intros [Hwf Hn]%sm_wf_cons.
  destruct (keqb_spec k k0) as [->|Hne].
  - destruct (keep k0 v0); simpl; [by rewrite keqb_refl|]. rewrite IH by done. by rewrite Hn.
  - destruct (keep k0 v0); simpl; [by rewrite keqb_ne, IH | by apply IH].
Qed.
Lemma sm_wf_filter keep m : sm_wf m -> sm_wf (sm_filter keep m).
Proof.
  unfold sm_wf, sm_filter. induction m as [|[k0 v0] m IH]; simpl; [done|].
  intros [Hs Hf]%StronglySorted_inv. destruct (keep k0 v0); simpl; [|auto].
  constructor; [auto|]. rewrite Forall_forall in *. intros x. rewrite list_elem_of_In, in_map_iff.
  intros ([k v] & <- & Hin%filter_In). apply Hf. rewrite list_elem_of_In, in_map_iff.
  exists (k, v). naive_solver.
Qed.
End StdMap.

Create HintDb stdmap.
#[export] Hint Resolve sm_wf_nil sm_wf_set sm_wf_erase sm_wf_filter : stdmap.
Create Rewrite HintDb stdmap.
#[export] Hint Rewrite @sm_find_set_eq @sm_find_erase_eq : stdmap.
