(* ===== verification/Json.v ===== *)
(** * Json: the values and accessors of nlohmann::json the agent uses

    A value keeps the library's split between signed and unsigned integers
    ([is_number_unsigned] tells them apart); an object is a [std::map] from key to value. The
    text parser and [dump()] are third-party code: the components that call them take them as
    arguments, with what they rely on as hypotheses. *)

From Stdlib Require Import ZArith Lia String SpecFloat.
From stdpp Require Import base list strings.
From S2P Require Import Prelude StdMap.

Inductive json :=
| JNull
| JBool (b : bool)
| JInt (z : Z)            (* number_integer: a negative literal, or a C++ signed integer *)
| JUint (z : Z)           (* number_unsigned: a non-negative literal, or a C++ unsigned integer *)
| JFloat (f : spec_float) (* number_float: binary64 *)
| JStr (s : string)
| JArr (l : list json)
| JObj (m : list (string * json)).

Definition is_object (j : json) : bool := match j with JObj _ => true | _ => false end.
Definition is_array (j : json) : bool := match j with JArr _ => true | _ => false end.
Definition is_string (j : json) : bool := match j with JStr _ => true | _ => false end.
Definition is_boolean (j : json) : bool := match j with JBool _ => true | _ => false end.
Definition is_null (j : json) : bool := match j with JNull => true | _ => false end.
Definition is_number_integer (j : json) : bool :=
  match j with JInt _ | JUint _ => true | _ => false end.
Definition is_number_unsigned (j : json) : bool := match j with JUint _ => true | _ => false end.
Definition is_number (j : json) : bool :=
  match j with JInt _ | JUint _ | JFloat _ => true | _ => false end.

(** [j.find(k)], [j.contains(k)]: false on anything but an object. *)
Definition jfind (k : string) (j : json) : option json :=
  match j with JObj m => sm_find k m | _ => None end.
Definition contains (j : json) (k : string) : bool :=
  match jfind k j with Some _ => true | None => false end.
(** [j[k]] after [contains]: the member, [null] when absent. *)
Definition at_key (j : json) (k : string) : json :=
  match jfind k j with Some v => v | None => JNull end.

Definition get_str (j : json) : option string := match j with JStr s => Some s | _ => None end.
Definition get_obj (j : json) : option json := match j with JObj m => Some (JObj m) | _ => None end.
Definition get_Z (j : json) : option Z := match j with JInt z | JUint z => Some z | _ => None end.
(** [get<int>()] of an integer value: the library's [static_cast] wraps at 32 bits. *)
Definition get_int (j : json) : option Z := s32 <$> get_Z j.

(** An object built from a brace list: each pair inserted in turn. *)
Definition jobj (l : list (string * json)) : json :=
  JObj (foldl (fun m kv => sm_set kv.1 kv.2 m) [] l).
(** [j[k] = v] on an object. *)
Definition jset (k : string) (v : json) (j : json) : json :=
  match j with JObj m => JObj (sm_set k v m) | _ => j end.

(** [j.value(k, def)]: [type_error] on a non-object or on a member of another type. *)
Definition type_error : exn := StdException "[json.exception.type_error]".
Definition value_str (j : json) (k : string) (def : string) : result string :=
  match j with
  | JObj m => match sm_find k m with
              | Some (JStr s) => Ok s
              | Some _ => Throw type_error
              | None => Ok def
              end
  | _ => Throw type_error
  end.
Definition value_json (j : json) (k : string) (def : json) : result json :=
  match j with
  | JObj m => Ok (match sm_find k m with Some v => v | None => def end)
  | _ => Throw type_error
  end.
Definition value_bool (j : json) (k : string) (def : bool) : result bool :=
  match j with
  | JObj m => match sm_find k m with
              | Some (JBool b) => Ok b
              | Some _ => Throw type_error
              | None => Ok def
              end
  | _ => Throw type_error
  end.
(** [value(k, int)] converts any number (and a boolean) with a [static_cast]; a float is
    truncated toward zero (outside [int], x86-64's conversion gives INT_MIN). *)
Definition trunc_float (f : spec_float) : option Z :=
  match f with
  | S754_zero _ => Some 0
  | S754_finite s m e => Some (cond_Zopp s (if 0 <=? e then Z.pos m * 2 ^ e else Z.pos m / 2 ^ (- e)))
  | _ => None
  end.
Definition value_int (j : json) (k : string) (def : Z) : result Z :=
  match j with
  | JObj m => match sm_find k m with
              | Some (JInt z) | Some (JUint z) => Ok (s32 z)
              | Some (JBool b) => Ok (if b then 1 else 0)
              | Some (JFloat f) => match trunc_float f with
                                   | Some z => Ok (if (- 2 ^ 31 <=? z) && (z <? 2 ^ 31) then z else - 2 ^ 31)
                                   | None => Ok (- 2 ^ 31)
                                   end
              | Some _ => Throw type_error
              | None => Ok def
              end
  | _ => Throw type_error
  end.
(** [value(k, double)] and [value(k, std::uint64_t)] take any number, not a boolean; the conversion
    to 64 bits wraps (a float is truncated first; x86-64 gives 2^63 for one that has no value). *)
Definition value_double (j : json) (k : string) (def : spec_float) : result spec_float :=
  match j with
  | JObj m => match sm_find k m with
              | Some (JInt z) | Some (JUint z) => Ok (binary_normalize 53 1024 z 0 false)
              | Some (JFloat f) => Ok f
              | Some _ => Throw type_error
              | None => Ok def
              end
  | _ => Throw type_error
  end.
Definition value_u64 (j : json) (k : string) (def : Z) : result Z :=
  match j with
  | JObj m => match sm_find k m with
              | Some (JInt z) | Some (JUint z) => Ok (u64 z)
              | Some (JFloat f) => Ok (match trunc_float f with Some z => u64 z | None => 2 ^ 63 end)
              | Some _ => Throw type_error
              | None => Ok def
              end
  | _ => Throw type_error
  end.

(** ** Laws *)
Lemma jfind_jset_eq k v m : jfind k (jset k v (JObj m)) = Some v.
Proof. apply sm_find_set_eq. Qed.
Lemma jfind_jset_ne k k' v j : k' <> k -> jfind k' (jset k v j) = jfind k' j.
Proof. destruct j; try done. intros. by apply sm_find_set_ne. Qed.
Lemma contains_jfind j k : contains j k = true <-> exists v, jfind k j = Some v.
Proof. unfold contains. destruct (jfind k j); naive_solver. Qed.
Lemma is_object_jset k v j : is_object (jset k v j) = is_object j.
Proof. by destruct j. Qed.
Lemma at_key_find j k v : jfind k j = Some v -> at_key j k = v.
Proof. unfold at_key. by intros ->. Qed.
Lemma value_str_find j k d s : jfind k j = Some (JStr s) -> value_str j k d = Ok s.
Proof. destruct j; simpl; try done. by intros ->. Qed.

(** ** Text: [json::parse] without exceptions and [dump()]

    What the agent relies on of the library: a dumped value parses back to itself, up to what
    the text cannot carry (a non-negative integer reads back as unsigned, a non-finite number
    is written as [null]). [dump()] throws on a string that is not UTF-8. *)
Definition finite_float (f : spec_float) : bool :=
  match f with S754_zero _ | S754_finite _ _ _ => true | _ => false end.
Fixpoint norm (j : json) : json :=
  match j with
  | JInt z => if 0 <=? z then JUint z else JInt z
  | JFloat f => if finite_float f then JFloat f else JNull
  | JArr l => JArr (map norm l)
  | JObj m => JObj (map (fun kv => (kv.1, norm kv.2)) m)
  | _ => j
  end.

Class JsonText := {
  json_parse : string -> option json; (* [None]: the discarded value of a failed parse *)
  json_dump : json -> result string;
}.
Class JsonTextLaws `{JsonText} := json_parse_dump : forall j s, json_dump j = Ok s -> json_parse s = Some (norm j).

Lemma jfind_norm k j : jfind k (norm j) = norm <$> jfind k j.
Proof. destruct j as [| |z| |f| | |m]; simpl; try done; [by destruct (0 <=? z) | by destruct (finite_float f) | apply sm_find_map]. Qed.
Lemma is_object_norm j : is_object (norm j) = is_object j.
Proof. destruct j as [| |z| |f| | |m]; simpl; try done; [by destruct (0 <=? z) | by destruct (finite_float f)]. Qed.

#[global] Instance spec_float_eq_dec : EqDecision spec_float.
Proof. solve_decision. Defined.

Lemma json_eq_dec_aux : forall a b : json, {a = b} + {a <> b}.
Proof.
  fix F 1. intros a b; destruct a as [|x|x|x|x|x|l|m], b as [|y|y|y|y|y|k|n]; try (right; discriminate);
    try (destruct (decide (x = y)) as [<-|Hn]; [by left | right; by intros [= ?]]).
  - by left.
  - destruct (List.list_eq_dec F l k) as [<-|Hn]; [by left | right; by intros [= ?]].
  - assert (forall p q : string * json, {p = q} + {p <> q}) as G.
    { intros [p1 p2] [q1 q2]. destruct (F p2 q2) as [<-|Hn]; [|right; by intros [= ? ?]].
      destruct (String.string_dec p1 q1) as [<-|Hn]; [by left | right; by intros [= ?]]. }
    destruct (List.list_eq_dec G m n) as [<-|Hn]; [by left | right; by intros [= ?]].
Defined.
#[global] Instance json_eq_dec : EqDecision json := json_eq_dec_aux.

(** A text codec that knows one value: an instance of the laws for the witnesses. *)
Definition one_value_text (j0 : json) (s0 : string) : JsonText := {|
  json_parse s := if String.eqb s s0 then Some (norm j0) else None;
  json_dump j := if bool_decide (norm j = norm j0) then Ok s0 else Throw type_error |}.
Lemma one_value_laws j0 s0 : @JsonTextLaws (one_value_text j0 s0).
Proof. intros j s. unfold json_dump, json_parse, one_value_text. case_bool; [|done]. intros [= <-]. by rewrite String.eqb_refl, e. Qed.
