(* ===== verification/Blob.v ===== *)
(** * Blob: the blob frame codec

    Models the codec of agent/src/core/blob.cpp and agent/include/fjarr/blob.hpp: UUID text to
    and from the 16 header bytes, one frame's encoder and parser, and the [blob] reference
    object. A buffer of [std::byte] (and the [std::string] a blob's bytes are kept in) is a [list byte];
    sizes and offsets are [Z] with the source's 64- and 32-bit wrap-around written out. *)

From Stdlib Require Import ZArith Lia Strings.Byte Ascii String.
From stdpp Require Import base list strings.
From S2P Require Import Prelude StdMap Json.

Definition VERSION : Z := 1.
Definition HEADER_BYTES : Z := 37.
Definition MAX_CHUNK_PAYLOAD : Z := 256 * 1024.
Definition DEFAULT_MAX_BLOB : Z := 16 * 1024 * 1024.
Definition PENDING_BYTES : Z := 8 * 1024 * 1024.
(** Time points and durations of [steady_clock] are nanoseconds. *)
Definition PENDING_TTL : Z := 30000 * 1000000.

Record BlobRef := { ref_id : string; ref_len : Z; ref_type : string }.

Record BlobChunk := {
  blob_id : string;
  offset : Z;
  blob_len : Z;
  payload : list byte
}.

(** ** UUID text and bytes *)
Definition hex_value (c : ascii) : Z :=
  let c := chr c in
  if (48 <=? c) && (c <=? 57) then c - 48
  else if (97 <=? c) && (c <=? 102) then c - 97 + 10
  else if (65 <=? c) && (c <=? 70) then c - 65 + 10
  else -1.

Definition dash_at (i : nat) : bool :=
  match i with 8 | 13 | 18 | 23 => true | _ => false end%nat.

(** The scan of [uuid_bytes]: [i] is the index of the first character of [rest], [out] what was
    decoded so far (its length is the source's [n]). *)
Fixpoint uuid_scan (i : nat) (rest : list ascii) (out : list byte) : option (list byte) :=
  match rest with
  | [] => Some out
  | c :: rest' =>
      if dash_at i then
        if bool_decide (c = "-"%char) then uuid_scan (S i) rest' out else None
      else
        match rest' with
        | [] => None (* [text[++i]] past the end: not reached with 36 characters *)
        | c2 :: rest'' =>
            let hi := hex_value c in
            let lo := hex_value c2 in
            if (hi <? 0) || (lo <? 0) || (16 <=? zlen out) then None
            else uuid_scan (S (S i)) rest'' (out ++ [Zbyte (Z.lor (Z.shiftl hi 4) lo)])
        end
  end.

Definition uuid_bytes (text : string) : option (list byte) :=
  if negb (ssize text =? 36) then None
  else let? out := uuid_scan 0 (chars text) [] in
       if zlen out =? 16 then Some out else None.

Definition hex_digit (n : Z) : ascii :=
  ascii_of_N (Z.to_N (if n <? 10 then 48 + n else 97 + (n - 10))).

Fixpoint uuid_text_from (i : nat) (bytes : list byte) : list ascii :=
  match bytes with
  | [] => []
  | b :: rest =>
      (match i with 4 | 6 | 8 | 10 => ["-"%char] | _ => [] end%nat)
        ++ [hex_digit (Z.shiftr (byteZ b) 4); hex_digit (Z.land (byteZ b) 15)]
        ++ uuid_text_from (S i) rest
  end.
Definition uuid_text (bytes : list byte) : string := of_chars (uuid_text_from 0 bytes).

(** ** The reference object *)
Definition to_json (r : BlobRef) : json :=
  jobj [("blob", JStr (ref_id r)); ("len", JUint (ref_len r)); ("type", JStr (ref_type r))].

Definition from_json (j : json) : option BlobRef :=
  if negb (is_object j) || negb (contains j "blob") || negb (is_string (at_key j "blob"))
     || negb (contains j "len") || negb (is_number_unsigned (at_key j "len"))
  then None
  else
    let? id := get_str (at_key j "blob") in
    let? len := get_Z (at_key j "len") in
    let type := match jfind "type" j with Some (JStr t) => t | _ => ""%string end in
    match uuid_bytes id with
    | None => None
    | Some _ => Some {| ref_id := id; ref_len := len; ref_type := type |}
    end.

(** ** Frames *)
(** [put_u64]/[put_u32]: the loop fills the field from its last byte. *)
Fixpoint put_be (n : nat) (v : Z) : list byte :=
  match n with
  | O => []
  | S n' => put_be n' (Z.shiftr v 8) ++ [Zbyte (Z.land v 255)]
  end.
Definition put_u64 (v : Z) : list byte := put_be 8 v.
Definition put_u32 (v : Z) : list byte := put_be 4 v.
Definition get_u64 (l : list byte) : Z :=
  foldl (fun v b => u64 (Z.lor (Z.shiftl v 8) (byteZ b))) 0 (take 8 l).
Definition get_u32 (l : list byte) : Z :=
  foldl (fun v b => u32 (Z.lor (Z.shiftl v 8) (byteZ b))) 0 (take 4 l).

Definition encode_chunk (id : string) (off len : Z) (data : list byte) : result (list byte) :=
  match uuid_bytes id with
  | None => Throw (FjarrError "payload-invalid" ("blob id is not a uuid: " ++ id))
  | Some idb =>
      if MAX_CHUNK_PAYLOAD <? zlen data then
        Throw (FjarrError "payload-invalid" "blob chunk above 256 KiB (docs/08)")
      else if len <? u64 (off + zlen data) then
        Throw (FjarrError "payload-invalid" "blob chunk overruns blob_len")
      else
        Ok ([Zbyte VERSION] ++ idb ++ put_u64 off ++ put_u64 len ++ put_u32 (u32 (zlen data)) ++ data)
  end.

Definition parse_chunk (frame : list byte) : option BlobChunk :=
  if zlen frame <? HEADER_BYTES then None
  else if negb (byteZ (default x00 (head frame)) =? VERSION) then None
  else
    let id := take 16 (drop 1 frame) in
    let off := get_u64 (drop 17 frame) in
    let len := get_u64 (drop 25 frame) in
    let payload_len := get_u32 (drop 33 frame) in
    if negb (payload_len =? zlen frame - HEADER_BYTES) then None
    else if MAX_CHUNK_PAYLOAD <? payload_len then None
    else if (len <? off) || (len - off <? payload_len) then None
    else Some {| blob_id := uuid_text id; offset := off; blob_len := len; payload := drop 37 frame |}.

(** ** Big-endian fields *)
Definition be_val (l : list byte) : Z := foldl (fun v b => v * 256 + byteZ b) 0 l.

Lemma lor_shift8 v b : 0 <= b < 256 -> Z.lor (Z.shiftl v 8) b = v * 256 + b.
Proof. intros Hb. rewrite Z.shiftl_mul_pow2, Z.lor_comm, (lor_disjoint b v 8); lia. Qed.

Lemma be_val_snoc l b : be_val (l ++ [b]) = be_val l * 256 + byteZ b.
Proof. unfold be_val. by rewrite foldl_app. Qed.

Lemma be_val_range l : 0 <= be_val l < 256 ^ zlen l.
Proof.
  induction l as [|b l IH] using rev_ind; [done|].
  rewrite be_val_snoc, zlen_snoc. pose proof (byteZ_range b).
  rewrite Z.pow_add_r by (try lia; apply zlen_nonneg). lia.
Qed.

Lemma length_put_be n v : length (put_be n v) = n.
Proof. revert v; induction n; intros; simpl; [done|]. rewrite length_app, IHn. simpl. lia. Qed.

Lemma be_val_put_be n v : 0 <= v -> be_val (put_be n v) = v mod 256 ^ Z.of_nat n.
Proof.
  revert v; induction n as [|n IH]; intros v Hv; [simpl; by rewrite Z.mod_1_r|].
  simpl put_be. rewrite be_val_snoc, byteZ_Zbyte. unfold u8.
  rewrite Z.shiftr_div_pow2 by lia. change (2 ^ 8) with 256. change 255 with (Z.ones 8).
  rewrite Z.land_ones by lia. change (2 ^ 8) with 256.
  rewrite IH by (apply Z.div_pos; lia). rewrite Z.mod_mod by lia.
  rewrite Nat2Z.inj_succ, Z.pow_succ_r, Z.rem_mul_r by lia. lia.
Qed.

Lemma put_be_be_val l : put_be (length l) (be_val l) = l.
Proof.
  induction l as [|b l IH] using rev_ind; [done|].
  rewrite length_app, Nat.add_1_r. simpl. rewrite be_val_snoc. pose proof (byteZ_range b).
  rewrite Z.shiftr_div_pow2 by lia. change (2 ^ 8) with 256. change 255 with (Z.ones 8).
  rewrite Z.land_ones by lia. change (2 ^ 8) with 256.
  rewrite Z.div_add_l, (Z.div_small (byteZ b)), Z.add_0_r, IH by lia.
  rewrite Z.add_comm, Z.mod_add, Z.mod_small, Zbyte_byteZ by lia. done.
Qed.

Lemma fold_be_wrap w l acc : 0 < w -> 0 <= acc < 2 ^ w ->
  foldl (fun v b => (Z.lor (Z.shiftl v 8) (byteZ b)) mod 2 ^ w) acc l
  = (acc * 256 ^ zlen l + be_val l) mod 2 ^ w.
Proof.
  intros Hw Hacc. induction l as [|b l IH] using rev_ind.
  - simpl. change (256 ^ zlen []) with 1. rewrite Z.mod_small; unfold be_val; simpl; lia.
  - rewrite foldl_app, IH. simpl. rewrite be_val_snoc, lor_shift8 by apply byteZ_range.
    rewrite zlen_snoc, Z.pow_add_r by (try lia; apply zlen_nonneg).
    rewrite <- Zplus_mod_idemp_l, Zmult_mod_idemp_l, Zplus_mod_idemp_l. f_equal. lia.
Qed.

Lemma get_u64_be l : (8 <= length l)%nat -> get_u64 l = be_val (take 8 l).
Proof.
  intros Hl. unfold get_u64, u64. rewrite fold_be_wrap by lia. rewrite Z.mul_0_l, Z.add_0_l.
  apply Z.mod_small. pose proof (be_val_range (take 8 l)) as Hr. rewrite zlen_take in Hr.
  unfold zlen in Hr. rewrite Z.min_l in Hr by lia. lia.
Qed.
Lemma get_u32_be l : (4 <= length l)%nat -> get_u32 l = be_val (take 4 l).
Proof.
  intros Hl. unfold get_u32, u32. rewrite fold_be_wrap by lia. rewrite Z.mul_0_l, Z.add_0_l.
  apply Z.mod_small. pose proof (be_val_range (take 4 l)) as Hr. rewrite zlen_take in Hr.
  unfold zlen in Hr. rewrite Z.min_l in Hr by lia. lia.
Qed.

Lemma get_put_u64 v l : 0 <= v < 2 ^ 64 -> get_u64 (put_u64 v ++ l) = v.
Proof.
  intros Hv. rewrite get_u64_be by (rewrite length_app; unfold put_u64; rewrite length_put_be; lia).
  unfold put_u64. rewrite take_app_length' by (by rewrite length_put_be).
  rewrite be_val_put_be by lia. apply Z.mod_small. done.
Qed.
Lemma get_put_u32 v l : 0 <= v < 2 ^ 32 -> get_u32 (put_u32 v ++ l) = v.
Proof.
  intros Hv. rewrite get_u32_be by (rewrite length_app; unfold put_u32; rewrite length_put_be; lia).
  unfold put_u32. rewrite take_app_length' by (by rewrite length_put_be).
  rewrite be_val_put_be by lia. apply Z.mod_small. done.
Qed.
Lemma put_get_u64 l : (8 <= length l)%nat -> put_u64 (get_u64 l) = take 8 l.
Proof.
  intros Hl. rewrite get_u64_be by done. unfold put_u64.
  rewrite <- (put_be_be_val (take 8 l)) at 2. rewrite length_take, Nat.min_l by done. done.
Qed.
Lemma put_get_u32 l : (4 <= length l)%nat -> put_u32 (get_u32 l) = take 4 l.
Proof.
  intros Hl. rewrite get_u32_be by done. unfold put_u32.
  rewrite <- (put_be_be_val (take 4 l)) at 2. rewrite length_take, Nat.min_l by done. done.
Qed.
Lemma get_u64_range l : 0 <= get_u64 l < 2 ^ 64.
Proof.
  unfold get_u64, u64. rewrite fold_be_wrap by lia. apply Z.mod_pos_bound. lia.
Qed.

(** ** UUIDs *)
(** What a case-insensitive reader makes of a UUID character. *)
Definition lower_hex (c : ascii) : ascii :=
  if (65 <=? chr c) && (chr c <=? 70) then ascii_of_N (Z.to_N (chr c + 32)) else c.
Definition lower (s : string) : string := of_chars (map lower_hex (chars s)).

Lemma small16 (P : Z -> Prop) :
  P 0 -> P 1 -> P 2 -> P 3 -> P 4 -> P 5 -> P 6 -> P 7 -> P 8 -> P 9 -> P 10 -> P 11 -> P 12 -> P 13 ->
  P 14 -> P 15 -> forall n, 0 <= n < 16 -> P n.
Proof.
  intros ????????????????  [|q|q] Hn; [done | | lia]. do 4 (destruct q as [q|q|]; try done); lia.
Qed.

Lemma hex_value_digit n : 0 <= n < 16 -> hex_value (hex_digit n) = n.
Proof. revert n. apply small16; reflexivity. Qed.

Lemma hex_value_range c : -1 <= hex_value c < 16.
Proof. unfold hex_value. pose proof (chr_range c). case_bools; lia. Qed.

Lemma hex_digit_value c : 0 <= hex_value c -> hex_digit (hex_value c) = lower_hex c.
Proof.
  destruct c as [[] [] [] [] [] [] [] []]; vm_compute; intros H; solve [done | by destruct (H eq_refl)].
Qed.

Lemma byte_nibbles b : Zbyte (Z.lor (Z.shiftl (Z.shiftr (byteZ b) 4) 4) (Z.land (byteZ b) 15)) = b.
Proof. destruct b; reflexivity. Qed.
Lemma nibble_hi_range b : 0 <= Z.shiftr (byteZ b) 4 < 16.
Proof. destruct b; by vm_compute. Qed.
Lemma nibble_lo_range b : 0 <= Z.land (byteZ b) 15 < 16.
Proof. destruct b; by vm_compute. Qed.

Lemma nibbles_byte hi lo : 0 <= hi < 16 -> 0 <= lo < 16 ->
  let b := Zbyte (Z.lor (Z.shiftl hi 4) lo) in Z.shiftr (byteZ b) 4 = hi /\ Z.land (byteZ b) 15 = lo.
Proof.
  intros Hhi Hlo. revert lo Hlo. pattern hi. revert hi Hhi.
  apply small16; intros lo Hlo; pattern lo; revert lo Hlo; apply small16; by vm_compute.
Qed.

Lemma uuid_scan_dash i rest out : dash_at i = true ->
  uuid_scan i ("-"%char :: rest) out = uuid_scan (S i) rest out.
Proof. intros H. simpl. by rewrite H. Qed.

Lemma uuid_scan_pair i b rest out : dash_at i = false -> zlen out < 16 ->
  uuid_scan i (hex_digit (Z.shiftr (byteZ b) 4) :: hex_digit (Z.land (byteZ b) 15) :: rest) out
  = uuid_scan (S (S i)) rest (out ++ [b]).
Proof.
  intros Hi Hout. cbn [uuid_scan]. rewrite Hi.
  rewrite !hex_value_digit by (apply nibble_hi_range || apply nibble_lo_range).
  rewrite byte_nibbles. pose proof (nibble_hi_range b). pose proof (nibble_lo_range b).
  repeat case_bool; simpl; try lia. done.
Qed.

Lemma list16 {A} (l : list A) : length l = 16%nat -> exists a0 a1 a2 a3 a4 a5 a6 a7 a8 a9 a10 a11 a12 a13 a14 a15,
  l = [a0; a1; a2; a3; a4; a5; a6; a7; a8; a9; a10; a11; a12; a13; a14; a15].
Proof.
  intros Hl. do 16 (destruct l as [|? l]; [done|]). destruct l; [|done]. by repeat eexists.
Qed.

Lemma uuid_scan_text l : length l = 16%nat -> uuid_scan 0 (uuid_text_from 0 l) [] = Some l.
Proof.
  intros (b0&b1&b2&b3&b4&b5&b6&b7&b8&b9&b10&b11&b12&b13&b14&b15&->)%list16.
  cbn [uuid_text_from app].
  repeat first [rewrite uuid_scan_pair by (reflexivity || (vm_compute; reflexivity))
               | rewrite uuid_scan_dash by reflexivity].
  reflexivity.
Qed.

Lemma uuid_text_size l : length l = 16%nat -> ssize (uuid_text l) = 36.
Proof.
  intros (b0&b1&b2&b3&b4&b5&b6&b7&b8&b9&b10&b11&b12&b13&b14&b15&->)%list16.
  unfold ssize, uuid_text. by rewrite chars_of_chars.
Qed.

Lemma uuid_bytes_text l : length l = 16%nat -> uuid_bytes (uuid_text l) = Some l.
Proof.
  intros Hl. unfold uuid_bytes. rewrite uuid_text_size by done. simpl.
  unfold uuid_text. rewrite chars_of_chars, uuid_scan_text by done.
  unfold zlen. by rewrite Hl.
Qed.

Lemma uuid_bytes_length t l : uuid_bytes t = Some l -> length l = 16%nat.
Proof.
  unfold uuid_bytes. destruct (_ =? 36); [|done]. simpl. destruct (uuid_scan _ _ _) as [o|]; [|done].
  destruct (Z.eqb_spec (zlen o) 16); [|done]. intros [= <-]. unfold zlen in *. lia.
Qed.

Lemma uuid_scan_pair_inv i c c2 rest out r : dash_at i = false ->
  uuid_scan i (c :: c2 :: rest) out = Some r ->
  exists b, uuid_scan (S (S i)) rest (out ++ [b]) = Some r
    /\ hex_digit (Z.shiftr (byteZ b) 4) = lower_hex c /\ hex_digit (Z.land (byteZ b) 15) = lower_hex c2.
Proof.
  intros Hi. cbn [uuid_scan]. rewrite Hi.
  pose proof (hex_value_range c). pose proof (hex_value_range c2).
  destruct (Z.ltb_spec (hex_value c) 0); [done|]. destruct (Z.ltb_spec (hex_value c2) 0); [done|].
  simpl. destruct (16 <=? zlen out); [done|]. intros Hs. eexists. split; [exact Hs|].
  destruct (nibbles_byte (hex_value c) (hex_value c2)) as [-> ->]; [lia..|].
  split; apply hex_digit_value; lia.
Qed.

Lemma uuid_scan_dash_inv i c rest out r : dash_at i = true ->
  uuid_scan i (c :: rest) out = Some r -> c = "-"%char /\ uuid_scan (S i) rest out = Some r.
Proof. intros Hi. cbn [uuid_scan]. rewrite Hi. by case_bool. Qed.

(** A UUID is decoded case-insensitively: printing the bytes gives its lower-case form. *)
Lemma uuid_text_bytes t l : uuid_bytes t = Some l -> uuid_text l = lower t.
Proof.
  unfold uuid_bytes, uuid_text, lower, ssize. destruct (Z.eqb_spec (zlen (chars t)) 36) as [Hlen|]; [|done].
  simpl. destruct (uuid_scan 0 (chars t) []) as [o|] eqn:Hs; [|done].
  destruct (zlen o =? 16); [|done]. intros [= <-]. f_equal. unfold zlen in Hlen.
  remember (chars t) as cs. clear Heqcs t. do 36 (destruct cs as [|? cs]; [simpl in Hlen; lia|]).
  destruct cs; [|simpl in Hlen; lia]. clear Hlen. cbn [map].
  repeat first
    [apply uuid_scan_pair_inv in Hs as (? & Hs & <- & <-); [|reflexivity]
    |apply uuid_scan_dash_inv in Hs as [-> Hs]; [|reflexivity]].
  simpl in Hs. injection Hs as <-. reflexivity.
Qed.

(** ** The codec *)
(** The bytes of a frame: version, id, offset, blob length, payload length, payload. *)
Definition raw_frame (idb : list byte) (off len : Z) (p : list byte) : list byte :=
  [Zbyte VERSION] ++ idb ++ put_u64 off ++ put_u64 len ++ put_u32 (u32 (zlen p)) ++ p.

Lemma encode_chunk_inv id off len data f : encode_chunk id off len data = Ok f ->
  exists idb, uuid_bytes id = Some idb /\ zlen data <= MAX_CHUNK_PAYLOAD /\ u64 (off + zlen data) <= len
    /\ f = raw_frame idb off len data.
Proof.
  unfold encode_chunk. destruct (uuid_bytes id) as [idb|]; [|done].
  destruct (Z.ltb_spec MAX_CHUNK_PAYLOAD (zlen data)); [done|].
  destruct (Z.ltb_spec len (u64 (off + zlen data))); [done|].
  intros [= <-]. by eexists.
Qed.

(** A frame's fields, read back at the offsets of the header layout. *)
Lemma frame_slices idb off len data :
  length idb = 16%nat -> 0 <= off < 2 ^ 64 -> 0 <= len < 2 ^ 64 -> zlen data <= MAX_CHUNK_PAYLOAD ->
  let f := raw_frame idb off len data in
  zlen f = HEADER_BYTES + zlen data /\ take 16 (drop 1 f) = idb /\ get_u64 (drop 17 f) = off
  /\ get_u64 (drop 25 f) = len /\ get_u32 (drop 33 f) = zlen data /\ drop 37 f = data.
Proof.
  intros Hid Hoff Hlen Hdata f. pose proof (zlen_nonneg data). unfold MAX_CHUNK_PAYLOAD in *.
  assert (length (put_u64 off) = 8%nat) by apply length_put_be.
  assert (length (put_u64 len) = 8%nat) by apply length_put_be.
  assert (length (put_u32 (u32 (zlen data))) = 4%nat) as H4 by apply length_put_be.
  assert (drop 1 f = idb ++ put_u64 off ++ put_u64 len ++ put_u32 (u32 (zlen data)) ++ data) as D1 by done.
  assert (drop 17 f = put_u64 off ++ put_u64 len ++ put_u32 (u32 (zlen data)) ++ data) as D17.
  { change 17%nat with (1 + 16)%nat. rewrite <- drop_drop, D1. apply drop_app_length'. done. }
  assert (drop 25 f = put_u64 len ++ put_u32 (u32 (zlen data)) ++ data) as D25.
  { change 25%nat with (17 + 8)%nat. rewrite <- drop_drop, D17. apply drop_app_length'. done. }
  assert (drop 33 f = put_u32 (u32 (zlen data)) ++ data) as D33.
  { change 33%nat with (25 + 8)%nat. rewrite <- drop_drop, D25. apply drop_app_length'. done. }
  split_and!.
  - unfold f, raw_frame, HEADER_BYTES. rewrite !zlen_app, (zlen_length _ _ Hid), (zlen_length _ _ H4), (zlen_length _ _ H0),
      (zlen_length _ _ H1). change (zlen [Zbyte VERSION]) with 1. lia.
  - rewrite D1. apply take_app_length'. done.
  - rewrite D17. apply get_put_u64. done.
  - rewrite D25. apply get_put_u64. done.
  - rewrite D33, get_put_u32; rewrite u32_small; lia.
  - change 37%nat with (33 + 4)%nat. rewrite <- drop_drop, D33. apply drop_app_length'. done.
Qed.

Lemma parse_raw_frame idb off len data : length idb = 16%nat -> 0 <= off -> off + zlen data <= len < 2 ^ 64 ->
  zlen data <= MAX_CHUNK_PAYLOAD ->
  parse_chunk (raw_frame idb off len data)
  = Some {| blob_id := uuid_text idb; offset := off; blob_len := len; payload := data |}.
Proof.
  intros H16 Hoff Hlen Hmax. pose proof (zlen_nonneg data).
  destruct (frame_slices idb off len data) as (Hz & H1 & H17 & H25 & H33 & H37); [done | lia | lia | done |].
  unfold parse_chunk. rewrite Hz, H1, H17, H25, H33, H37.
  change (byteZ (default x00 (head _))) with VERSION. unfold HEADER_BYTES.
  repeat (case_bool; simpl; try lia). done.
Qed.

(** A frame [encode_chunk] produced, whenever offset plus payload does not wrap the 64-bit
    sum, parses back to exactly the chunk it was given, the id in lower case. *)
Theorem parse_encode_chunk id off len data f :
  encode_chunk id off len data = Ok f ->
  0 <= off -> len < 2 ^ 64 -> off + zlen data < 2 ^ 64 ->
  parse_chunk f = Some {| blob_id := lower id; offset := off; blob_len := len; payload := data |}.
Proof.
  intros (idb & Hid & Hmax & Hfit & ->)%encode_chunk_inv Hoff Hlen Hsum.
  pose proof (zlen_nonneg data). rewrite u64_small in Hfit by lia.
  rewrite parse_raw_frame by (try lia; by eapply uuid_bytes_length). by rewrite (uuid_text_bytes _ _ Hid).
Qed.

(** Parsing accepts only frames the encoder makes: re-encoding the parsed chunk gives the
    same bytes, and the chunk lies inside its blob and under the payload limit. *)
Theorem encode_parse_chunk f c :
  parse_chunk f = Some c ->
  encode_chunk (blob_id c) (offset c) (blob_len c) (payload c) = Ok f
  /\ 0 <= offset c /\ offset c + zlen (payload c) <= blob_len c < 2 ^ 64
  /\ zlen (payload c) <= MAX_CHUNK_PAYLOAD.
Proof.
  unfold parse_chunk. destruct (Z.ltb_spec (zlen f) HEADER_BYTES) as [|Hz]; [done|].
  destruct (Z.eqb_spec (byteZ (default x00 (head f))) VERSION) as [Hv|]; [|done].
  destruct (Z.eqb_spec (get_u32 (drop 33 f)) (zlen f - HEADER_BYTES)) as [Hp|]; [|done]. simpl.
  destruct (Z.ltb_spec MAX_CHUNK_PAYLOAD (get_u32 (drop 33 f))) as [|Hmax]; [done|].
  pose proof (get_u64_range (drop 17 f)). pose proof (get_u64_range (drop 25 f)).
  destruct (Z.ltb_spec (get_u64 (drop 25 f)) (get_u64 (drop 17 f))) as [|Hol]; [done|]. simpl.
  destruct (Z.ltb_spec (get_u64 (drop 25 f) - get_u64 (drop 17 f)) (get_u32 (drop 33 f))) as [|Hfit]; [done|].
  intros [= <-]; simpl. unfold HEADER_BYTES, zlen in Hz.
  assert (zlen (drop 37 f) = get_u32 (drop 33 f)) as Hpl.
  { rewrite zlen_drop, Hp. unfold HEADER_BYTES, zlen. lia. }
  pose proof (zlen_nonneg (drop 37 f)). rewrite Hpl in *. split_and!; try lia.
  unfold encode_chunk. rewrite uuid_bytes_text by (rewrite length_take, length_drop; lia).
  rewrite Hpl, (u64_small (_ + _)), !(proj2 (Z.ltb_ge _ _)) by lia.
  f_equal. rewrite !put_get_u64 by (rewrite length_drop; lia).
  rewrite u32_small by (unfold MAX_CHUNK_PAYLOAD in *; lia). rewrite put_get_u32 by (rewrite length_drop; lia).
  change 37%nat with (33 + 4)%nat. rewrite <- drop_drop, take_drop.
  change 33%nat with (25 + 8)%nat. rewrite <- drop_drop, take_drop.
  change 25%nat with (17 + 8)%nat. rewrite <- drop_drop, take_drop.
  change 17%nat with (1 + 16)%nat. rewrite <- drop_drop, take_drop.
  destruct f as [|b f]; [simpl in Hz; lia|]. simpl. f_equal. simpl in Hv.
  rewrite <- Hv. apply Zbyte_byteZ.
Qed.

Lemma encode_parse_chunk_witness :
  let f := [Zbyte 1] ++ repeat x11 16 ++ put_u64 2 ++ put_u64 5 ++ put_u32 1 ++ [x41] in
  exists c, parse_chunk f = Some c /\ encode_chunk (blob_id c) (offset c) (blob_len c) (payload c) = Ok f.
Proof.
  eexists. split; [vm_compute; reflexivity|]. apply (encode_parse_chunk _ _). vm_compute. reflexivity.
Defined.

Lemma parse_encode_chunk_witness :
  exists f, encode_chunk "AAaaaaaa-1111-2222-3333-444444444444" 2 5 [x41; x42] = Ok f
    /\ parse_chunk f = Some {| blob_id := lower "AAaaaaaa-1111-2222-3333-444444444444";
                               offset := 2; blob_len := 5; payload := [x41; x42] |}.
Proof.
  eexists. split; [vm_compute; reflexivity|]. apply parse_encode_chunk; vm_compute; try reflexivity; done.
Defined.

(** The encoder's overrun test adds in 64 bits, so an offset near 2^64 wraps past it: the
    encoder accepts a chunk far outside its blob, and the parser refuses the frame. *)
Theorem encode_chunk_overrun_wraps id idb : uuid_bytes id = Some idb ->
  exists f, encode_chunk id (2 ^ 64 - 1) 0 [x41] = Ok f /\ parse_chunk f = None.
Proof.
  intros Hid. pose proof (uuid_bytes_length _ _ Hid) as H16.
  exists (raw_frame idb (2 ^ 64 - 1) 0 [x41]). unfold encode_chunk. rewrite Hid. split; [reflexivity|].
  destruct (frame_slices idb (2 ^ 64 - 1) 0 [x41]) as (Hz & _ & H17 & H25 & H33 & _); [done..|].
  unfold parse_chunk. rewrite Hz, H17, H25, H33. done.
Qed.

Lemma encode_chunk_overrun_wraps_witness :
  exists f, encode_chunk "00000000-0000-0000-0000-000000000000" (2 ^ 64 - 1) 0 [x41] = Ok f /\ parse_chunk f = None.
Proof. eapply encode_chunk_overrun_wraps. vm_compute. reflexivity. Defined.

(** A blob reference survives its JSON form: [from_json] gives back the [to_json] of any
    reference with a UUID id. *)
Theorem blobref_roundtrip r idb : uuid_bytes (ref_id r) = Some idb -> from_json (to_json r) = Some r.
Proof. destruct r as [id len ty]. simpl. intros Hid. unfold from_json. simpl. by rewrite Hid. Qed.

Lemma blobref_roundtrip_witness :
  let r := {| ref_id := "00000000-0000-0000-0000-00000000000a"; ref_len := 7; ref_type := "image/png" |} in
  from_json (to_json r) = Some r.
Proof. eapply blobref_roundtrip. vm_compute. reflexivity. Defined.
