(* ===== verification/BlobAssembler.v ===== *)
(** * BlobAssembler: the receive-side store that turns chunks into whole blobs

    Models [fjarr::blob::BlobAssembler] (agent/src/core/blob.cpp): a bounded table of blobs being
    received, fed with offset-ordered chunks; a gap discards a blob, the oldest other blobs are
    evicted over the byte limit, idle ones expire. [asm_inv] is the store's invariant,
    [covers] the abstract specification of what a stored blob's bytes are. *)

From Stdlib Require Import ZArith Lia Strings.Byte String.
From stdpp Require Import base list strings.
From S2P Require Import Prelude StdMap Blob.

(** ** The assembler *)
Record Entry := {
  e_data : list byte;
  e_len : Z;
  e_complete : bool;
  e_first : Z;
  e_last : Z
}.

Record BlobAssembler := {
  max_blob_ : Z;
  limit_ : Z;
  ttl_ : Z;
  entries_ : list (string * Entry);
  bytes_ : Z;     (* size_t *)
  dropped_ : Z    (* unsigned *)
}.

Definition new_assembler (max_blob pending_bytes ttl : Z) : BlobAssembler :=
  {| max_blob_ := max_blob; limit_ := pending_bytes; ttl_ := ttl;
     entries_ := []; bytes_ := 0; dropped_ := 0 |}.

Definition drop_one (a : BlobAssembler) : BlobAssembler :=
  {| a with dropped_ := u32 (dropped_ a + 1) |}.

(** [erase(it)]: the entry's bytes leave the account with it. *)
Definition erase (id : string) (a : BlobAssembler) : BlobAssembler :=
  match sm_find id (entries_ a) with
  | Some e => {| a with entries_ := sm_erase id (entries_ a); bytes_ := u64 (bytes_ a - zlen (e_data e)) |}
  | None => a
  end.

(** The scan for the oldest entry other than [keep], first in key order among equals. *)
Fixpoint oldest_other (keep : string) (m : list (string * Entry)) (best : option (string * Z)) : option string :=
  match m with
  | [] => fst <$> best
  | (k, e) :: m' =>
      oldest_other keep m'
        (if bool_decide (k = keep) then best
         else match best with
              | None => Some (k, e_first e)
              | Some (_, f) => if e_first e <? f then Some (k, e_first e) else best
              end)
  end.

(** The eviction loop; each turn erases one entry, so the table's size bounds it. *)
Fixpoint evict (fuel : nat) (keep : string) (a : BlobAssembler) : BlobAssembler :=
  match fuel with
  | O => a
  | S fuel' =>
      if (limit_ a <? bytes_ a) && (1 <? zlen (entries_ a)) then
        match oldest_other keep (entries_ a) None with
        | None => a
        | Some k => evict fuel' keep (erase k (drop_one a))
        end
      else a
  end.

Definition on_chunk (c : BlobChunk) (now : Z) (a : BlobAssembler) : BlobAssembler * option string :=
  if max_blob_ a <? blob_len c then (drop_one a, None)
  else
    let found := sm_find (blob_id c) (entries_ a) in
    match found, offset c =? 0 with
    | None, false => (drop_one a, None)
    | _, _ =>
        let e0 := match found with
                  | Some e => e
                  | None => {| e_data := []; e_len := blob_len c; e_complete := false; e_first := now; e_last := 0 |}
                  end in
        let a0 := {| a with entries_ := sm_set (blob_id c) e0 (entries_ a) |} in
        if e_complete e0 || negb (blob_len c =? e_len e0) || negb (offset c =? zlen (e_data e0))
        then (erase (blob_id c) (drop_one a0), None)
        else
          let data := e_data e0 ++ payload c in
          let e1 := {| e_data := data; e_len := e_len e0; e_complete := zlen data =? e_len e0;
                       e_first := e_first e0; e_last := now |} in
          let a1 := {| a0 with entries_ := sm_set (blob_id c) e1 (entries_ a0);
                               bytes_ := u64 (bytes_ a0 + zlen (payload c)) |} in
          let a2 := evict (length (entries_ a1)) (blob_id c) a1 in
          (a2, if e_complete e1 then Some (blob_id c) else None)
    end.

Definition complete (id : string) (a : BlobAssembler) : bool :=
  match sm_find id (entries_ a) with Some e => e_complete e | None => false end.

Definition take_blob (id : string) (a : BlobAssembler) : BlobAssembler * option (list byte) :=
  match sm_find id (entries_ a) with
  | Some e =>
      if e_complete e then
        ({| a with entries_ := sm_erase id (entries_ a); bytes_ := u64 (bytes_ a - zlen (e_data e)) |}, Some (e_data e))
      else (a, None)
  | None => (a, None)
  end.

Definition discard (id : string) (a : BlobAssembler) : BlobAssembler := erase id a.

(** [expire]: the iteration visits every key once, erasing the idle ones. *)
Definition idle (now : Z) (a : BlobAssembler) (e : Entry) : bool := ttl_ a <? now - e_last e.
Definition expire (now : Z) (a : BlobAssembler) : BlobAssembler :=
  foldl (fun acc (kv : string * Entry) => if idle now a kv.2 then erase kv.1 (drop_one acc) else acc) a (entries_ a).

(** ** The invariant *)
Definition data_sum (m : list (string * Entry)) : Z := sm_sum (fun e => zlen (e_data e)) m.

(** The configuration keeps every sum below the width of [size_t]. *)
Record asm_cfg (a : BlobAssembler) : Prop := {
  cfg_max : 0 <= max_blob_ a;
  cfg_limit : 0 <= limit_ a;
  cfg_width : Z.max (limit_ a) (max_blob_ a) + max_blob_ a < 2 ^ 64
}.

Definition entry_ok (max : Z) (e : Entry) : Prop :=
  zlen (e_data e) <= e_len e <= max /\ e_complete e = (zlen (e_data e) =? e_len e).

(** The part every internal step keeps: key order, exact accounting, sane entries. *)
Record asm_acct (a : BlobAssembler) : Prop := {
  acct_wf : sm_wf (entries_ a);
  acct_bytes : bytes_ a = data_sum (entries_ a);
  acct_width : bytes_ a < 2 ^ 64;
  acct_entries : forall k e, sm_find k (entries_ a) = Some e -> entry_ok (max_blob_ a) e
}.

Record asm_inv (a : BlobAssembler) : Prop := {
  inv_cfg : asm_cfg a;
  inv_acct : asm_acct a;
  inv_bound : bytes_ a <= Z.max (limit_ a) (max_blob_ a)
}.

(** What [parse_chunk] guarantees of a chunk. *)
Definition chunk_ok (c : BlobChunk) : Prop := 0 <= offset c /\ offset c + zlen (payload c) <= blob_len c.

Lemma data_sum_nonneg m : 0 <= data_sum m.
Proof. apply sm_sum_nonneg. intros. apply zlen_nonneg. Qed.

Lemma data_le_sum m k e : sm_find k m = Some e -> zlen (e_data e) <= data_sum m.
Proof. intros. apply (sm_sum_find_le (fun e => zlen (e_data e)) k); [intros; apply zlen_nonneg | done]. Qed.

Create HintDb asm.
#[export] Hint Resolve acct_wf acct_bytes acct_width acct_entries inv_cfg inv_acct inv_bound data_sum_nonneg : asm.

(** [a'] is [a] with some entries gone and everything else as it was. *)
Record shrinks (a a' : BlobAssembler) : Prop := {
  shr_max : max_blob_ a' = max_blob_ a;
  shr_limit : limit_ a' = limit_ a;
  shr_ttl : ttl_ a' = ttl_ a;
  shr_bytes : bytes_ a' <= bytes_ a;
  shr_find : forall k e, sm_find k (entries_ a') = Some e -> sm_find k (entries_ a) = Some e
}.

#[global] Instance shrinks_preorder : PreOrder shrinks.
Proof.
  split.
  - intros a. split; auto. lia.
  - intros a b c [] []. split; try congruence; [lia | auto].
Qed.

Lemma shrinks_cfg a a' : shrinks a a' -> asm_cfg a -> asm_cfg a'.
Proof. intros [Hm Hl _ _ _] [C1 C2 C3]. split; rewrite ?Hm, ?Hl; done. Qed.

Lemma drop_one_acct a : asm_acct a -> asm_acct (drop_one a).
Proof. intros []. by split. Qed.
Lemma drop_one_shrinks a : shrinks a (drop_one a).
Proof. split; simpl; auto. lia. Qed.

Lemma erase_acct id a : asm_acct a -> asm_acct (erase id a).
Proof.
  intros [Hwf Hb Hw He]. unfold erase. destruct (sm_find id (entries_ a)) as [e|] eqn:Hf; [|by split].
  pose proof (data_le_sum _ _ _ Hf). pose proof (zlen_nonneg (e_data e)).
  pose proof (data_sum_nonneg (entries_ a)).
  split; simpl.
  - auto with stdmap.
  - rewrite u64_small by lia. unfold data_sum. rewrite (sm_sum_erase _ _ e) by done. fold (data_sum (entries_ a)). lia.
  - rewrite u64_small by lia. lia.
  - intros k e'. destruct (decide (k = id)) as [->|Hne]; [by rewrite sm_find_erase_eq|].
    rewrite sm_find_erase_ne by done. apply He.
Qed.

Lemma erase_shrinks id a : asm_acct a -> shrinks a (erase id a).
Proof.
  intros [Hwf Hb Hw He]. unfold erase. destruct (sm_find id (entries_ a)) as [e|] eqn:Hf; [|done].
  pose proof (data_le_sum _ _ _ Hf). pose proof (zlen_nonneg (e_data e)).
  split; simpl; try done.
  - rewrite u64_small by lia. lia.
  - intros k e'. destruct (decide (k = id)) as [->|Hne]; [by rewrite sm_find_erase_eq|].
    by rewrite sm_find_erase_ne.
Qed.

Lemma erase_find_ne id k a : k <> id -> sm_find k (entries_ (erase id a)) = sm_find k (entries_ a).
Proof.
  intros Hne. unfold erase. destruct (sm_find id (entries_ a)) eqn:Hf; [|done]. simpl. by apply sm_find_erase_ne.
Qed.
Lemma erase_find_eq id a : sm_find id (entries_ (erase id a)) = None.
Proof. unfold erase. destruct (sm_find id (entries_ a)) eqn:Hf; [|done]. apply sm_find_erase_eq. Qed.

Lemma erase_length id e a : asm_acct a -> sm_find id (entries_ a) = Some e ->
  zlen (entries_ (erase id a)) = zlen (entries_ a) - 1.
Proof.
  intros Ha Hf. unfold erase. rewrite Hf. simpl.
  assert (forall m : list (string * Entry), zlen m = sm_sum (fun _ => 1) m) as Hsum.
  { induction m as [|x m IH]; [done|]. rewrite zlen_cons, IH. done. }
  rewrite !Hsum. apply (sm_sum_erase _ _ e); [|done]. auto with asm.
Qed.

(** ** Eviction *)
(** What the scan returns: the best so far or a key of the rest, never [keep], and no key of the
    rest other than [keep] is older. *)
Lemma oldest_other_spec keep m best : (forall k f, best = Some (k, f) -> k <> keep) ->
  match oldest_other keep m best with
  | None => best = None /\ forall k e, In (k, e) m -> k = keep
  | Some k => exists f, k <> keep /\ (best = Some (k, f) \/ exists e, In (k, e) m /\ e_first e = f)
      /\ (forall k' f', best = Some (k', f') -> f <= f')
      /\ (forall k' e', In (k', e') m -> k' <> keep -> f <= e_first e')
  end.
Proof.
  revert best. induction m as [|[k e] m IH]; intros best Hbest; simpl.
  - destruct best as [[k f]|]; simpl; [|done]. exists f. split_and!; naive_solver lia.
  - destruct (bool_decide_reflect (k = keep)) as [->|Hne].
    + specialize (IH best Hbest). destruct (oldest_other keep m best) as [k0|].
      * destruct IH as (f & ? & Hin & ? & ?). exists f. split_and!; [done | | done |].
        -- destruct Hin as [?|(e' & ? & ?)]; [by left | right; exists e'; auto].
        -- intros k' e' [[= <- <-]|]; [done | eauto].
      * destruct IH as [? ?]. split; [done|]. intros ? ? [[= <- <-]|]; eauto.
    + set (best' := match best with None => Some (k, e_first e) | Some (_, f) => if e_first e <? f then Some (k, e_first e) else best end).
      assert (forall k f, best' = Some (k, f) -> k <> keep) as Hbest'.
      { unfold best'. intros k1 f1. destruct best as [[kb fb]|]; [|naive_solver].
        destruct (_ <? _); naive_solver. }
      specialize (IH best' Hbest'). fold best'. destruct (oldest_other keep m best') as [k0|].
      * destruct IH as (f & ? & Hin & Hle & Hle').
        assert (f <= e_first e /\ forall k' f', best = Some (k', f') -> f <= f') as [H1 H2].
        { unfold best' in Hle. destruct best as [[kb fb]|].
          - destruct (Z.ltb_spec (e_first e) fb) as [?|?]; pose proof (Hle _ _ eq_refl); split; naive_solver lia.
          - pose proof (Hle _ _ eq_refl). naive_solver. }
        exists f. split_and!; [done | | done |].
        -- destruct Hin as [Hb|(e' & ? & ?)]; [|right; exists e'; auto].
           unfold best' in Hb. destruct best as [[kb fb]|]; [destruct (_ <? _)|]; naive_solver.
        -- intros k' e' [[= <- <-]|]; eauto.
      * destruct IH as [Hb _]. exfalso. unfold best' in Hb. destruct best as [[kb fb]|]; [destruct (_ <? _)|]; done.
Qed.

Lemma two_keys_other keep (m : list (string * Entry)) :
  sm_wf m -> 1 < zlen m -> exists k e, In (k, e) m /\ k <> keep.
Proof.
  intros Hwf Hz. destruct m as [|[k1 e1] [|[k2 e2] m]]; [done | done |].
  destruct (decide (k1 = keep)) as [->|]; [|exists k1, e1; simpl; auto].
  exists k2, e2. split; [simpl; auto|]. intros ->.
  apply sm_wf_cons in Hwf as [_ Hn]. simpl in Hn. by rewrite keqb_refl in Hn.
Qed.

Lemma evict_spec fuel keep a : asm_acct a -> zlen (entries_ a) <= Z.of_nat fuel ->
  let a' := evict fuel keep a in
  asm_acct a' /\ shrinks a a' /\ sm_find keep (entries_ a') = sm_find keep (entries_ a)
  /\ (bytes_ a' <= limit_ a' \/ zlen (entries_ a') <= 1).
Proof.
  revert a; induction fuel as [|fuel IH]; intros a Ha Hf; simpl.
  { split_and!; [done | done | done | right; lia]. }
  destruct (Z.ltb_spec (limit_ a) (bytes_ a)); simpl; [|split_and!; try done; by left].
  destruct (Z.ltb_spec 1 (zlen (entries_ a))); simpl; [|split_and!; try done; by right].
  pose proof (oldest_other_spec keep (entries_ a) None ltac:(done)) as Ho.
  destruct (oldest_other keep (entries_ a) None) as [k|].
  - destruct Ho as (f & Hne & [?|(e & Hin & _)] & _); [done|].
    apply sm_In_find in Hin; [|auto with asm].
    pose proof (drop_one_acct _ Ha) as Hd. pose proof (erase_acct k _ Hd) as He.
    destruct (IH (erase k (drop_one a)) He) as (I1 & I2 & I3 & I4).
    { rewrite (erase_length _ e) by done. simpl entries_. lia. }
    split_and!; [done | | | done].
    + etrans; [|exact I2]. etrans; [apply drop_one_shrinks | by apply erase_shrinks].
    + rewrite I3, erase_find_ne by done. done.
  - destruct Ho as [_ Hall]. destruct (two_keys_other keep (entries_ a)) as (k & e & Hin & Hne); auto with asm.
    exfalso. eauto.
Qed.

(** ** The operations keep the invariant *)
Definition fresh_entry (c : BlobChunk) (now : Z) : Entry :=
  {| e_data := []; e_len := blob_len c; e_complete := false; e_first := now; e_last := 0 |}.
Definition appended (c : BlobChunk) (now : Z) (e : Entry) : Entry :=
  {| e_data := e_data e ++ payload c; e_len := e_len e; e_complete := zlen (e_data e ++ payload c) =? e_len e;
     e_first := e_first e; e_last := now |}.
Definition appendable (c : BlobChunk) (e : Entry) : bool :=
  negb (e_complete e) && (blob_len c =? e_len e) && (offset c =? zlen (e_data e)).
Definition stored (id : string) (e : Entry) (n : Z) (a : BlobAssembler) : BlobAssembler :=
  {| a with entries_ := sm_set id e (entries_ a); bytes_ := u64 (bytes_ a + n) |}.

(** The entry an acceptable chunk is appended to. *)
Definition target (c : BlobChunk) (now : Z) (a : BlobAssembler) : option Entry :=
  match sm_find (blob_id c) (entries_ a) with
  | Some e => Some e
  | None => if offset c =? 0 then Some (fresh_entry c now) else None
  end.

(** [on_chunk] by cases: refused, discarded, or appended and the store trimmed. *)
Lemma on_chunk_eq c now a :
  on_chunk c now a =
    if max_blob_ a <? blob_len c then (drop_one a, None)
    else match target c now a with
         | None => (drop_one a, None)
         | Some e =>
             if appendable c e then
               (evict (length (sm_set (blob_id c) (appended c now e) (entries_ a))) (blob_id c)
                      (stored (blob_id c) (appended c now e) (zlen (payload c)) a),
                if e_complete (appended c now e) then Some (blob_id c) else None)
             else (erase (blob_id c) {| (drop_one a) with entries_ := sm_set (blob_id c) e (entries_ a) |}, None)
         end.
Proof.
  unfold on_chunk, target, appendable. destruct (max_blob_ a <? blob_len c); [done|].
  destruct (sm_find (blob_id c) (entries_ a)) as [e|] eqn:Hf.
  - destruct (e_complete e); simpl; [done|].
    destruct (blob_len c =? e_len e); simpl; [|done]. destruct (offset c =? zlen (e_data e)); simpl; [|done].
    rewrite sm_set_set. done.
  - destruct (Z.eqb_spec (offset c) 0) as [H0|]; [|done]. simpl. rewrite Z.eqb_refl, H0. simpl.
    rewrite sm_set_set. done.
Qed.

Lemma target_ok c now a e : asm_inv a -> chunk_ok c -> blob_len c <= max_blob_ a -> target c now a = Some e ->
  zlen (e_data e) <= e_len e <= max_blob_ a
  /\ data_sum (sm_set (blob_id c) (appended c now e) (entries_ a)) = data_sum (entries_ a) + zlen (payload c)
  /\ (appendable c e = true -> zlen (e_data e) + zlen (payload c) <= e_len e).
Proof.
  intros [[C1 C2 C3] [Hwf Hb Hw He] Hbd] [O1 O2] Hmax. unfold target, data_sum.
  pose proof (zlen_nonneg (payload c)).
  destruct (sm_find (blob_id c) (entries_ a)) as [e'|] eqn:Hf.
  - intros [= <-]. destruct (He _ _ Hf) as [Hl Hc]. split_and!; try lia.
    + rewrite (sm_sum_set_old _ _ _ e') by done. simpl. rewrite zlen_app. lia.
    + unfold appendable. case_bools.
  - destruct (Z.eqb_spec (offset c) 0); [|done]. intros [= <-]. simpl. change (zlen (@nil byte)) with 0.
    split_and!; try lia. rewrite sm_sum_set_new by done. simpl. done.
Qed.

Lemma stored_acct c now a e : asm_inv a -> chunk_ok c -> blob_len c <= max_blob_ a -> target c now a = Some e ->
  appendable c e = true -> asm_acct (stored (blob_id c) (appended c now e) (zlen (payload c)) a).
Proof.
  intros Hinv Hc Hmax Ht Happ. destruct (target_ok _ _ _ _ Hinv Hc Hmax Ht) as (Hl & Hsum & Hfit).
  specialize (Hfit Happ). destruct Hinv as [[C1 C2 C3] [Hwf Hb Hw He] Hbd].
  pose proof (zlen_nonneg (payload c)). pose proof (zlen_nonneg (e_data e)).
  pose proof (data_sum_nonneg (entries_ a)).
  split; simpl.
  - auto with stdmap.
  - rewrite Hsum, u64_small; lia.
  - apply u64_range.
  - intros k e'. destruct (decide (k = blob_id c)) as [->|Hne].
    + rewrite sm_find_set_eq. intros [= <-]. split; simpl; [rewrite zlen_app; lia | done].
    + rewrite sm_find_set_ne by done. apply He.
Qed.

(** When only one entry is left its bytes are the account, and one entry fits [max_blob_]. *)
Lemma single_bound a : asm_cfg a -> asm_acct a -> zlen (entries_ a) <= 1 -> bytes_ a <= max_blob_ a.
Proof.
  intros [C1 _ _] [Hwf Hb Hw He] Hz. rewrite Hb. destruct (entries_ a) as [|[k e] [|]] eqn:E; simpl in *.
  - unfold data_sum. simpl. lia.
  - destruct (He k e) as [? _]; [simpl; by rewrite keqb_refl|]. unfold data_sum. simpl. lia.
  - rewrite !zlen_cons in Hz. pose proof (zlen_nonneg l). lia.
Qed.

Lemma shrinks_inv a a' : asm_inv a -> asm_acct a' -> shrinks a a' -> asm_inv a'.
Proof.
  intros [Hc Ha Hb] Ha' Hs. split; [by eapply shrinks_cfg | done |].
  destruct Hs as [-> -> _ ? _]. lia.
Qed.

Lemma on_chunk_inv c now a : asm_inv a -> chunk_ok c -> asm_inv (on_chunk c now a).1.
Proof.
  intros Hinv Hc. rewrite on_chunk_eq.
  pose proof (shrinks_inv _ _ Hinv (drop_one_acct _ (inv_acct _ Hinv)) (drop_one_shrinks a)) as Hdrop.
  destruct (Z.ltb_spec (max_blob_ a) (blob_len c)); [done|].
  destruct (target c now a) as [e|] eqn:Ht; [|done].
  destruct (appendable c e) eqn:Happ; simpl.
  - pose proof (stored_acct _ _ _ _ Hinv Hc ltac:(done) Ht Happ) as Hst.
    match goal with |- asm_inv (evict ?n ?k ?s) => destruct (evict_spec n k s Hst) as (E1 & E2 & _ & E4); [done|] end.
    assert (asm_cfg (stored (blob_id c) (appended c now e) (zlen (payload c)) a)) as Hcfg.
    { destruct (inv_cfg _ Hinv). by split. }
    pose proof (shrinks_cfg _ _ E2 Hcfg) as Hcfg'. split; [done | done |].
    destruct E4 as [?|?]; [lia|]. pose proof (single_bound _ Hcfg' E1 ltac:(done)). lia.
  - unfold target in Ht. destruct (sm_find (blob_id c) (entries_ a)) as [e'|] eqn:Hf.
    + injection Ht as <-. rewrite sm_set_id by (auto with asm).
      eapply (shrinks_inv _ _ Hdrop); [apply erase_acct | apply erase_shrinks]; auto with asm.
    + destruct (Z.eqb_spec (offset c) 0) as [H0|]; [|done]. injection Ht as <-. exfalso.
      unfold appendable in Happ. simpl in Happ. rewrite Z.eqb_refl, H0 in Happ. done.
Qed.

Lemma erase_inv id a : asm_inv a -> asm_inv (erase id a).
Proof. intros H. eapply shrinks_inv; eauto using erase_acct, erase_shrinks with asm. Qed.

Lemma take_blob_erase id a e : sm_find id (entries_ a) = Some e -> e_complete e = true ->
  take_blob id a = (erase id a, Some (e_data e)).
Proof. intros Hf Hc. unfold take_blob, erase. by rewrite Hf, Hc. Qed.

Lemma take_blob_inv id a : asm_inv a -> asm_inv (take_blob id a).1.
Proof.
  intros H. destruct (sm_find id (entries_ a)) as [e|] eqn:Hf; [destruct (e_complete e) eqn:Hc|].
  - rewrite (take_blob_erase _ _ e) by done. by apply erase_inv.
  - unfold take_blob. by rewrite Hf, Hc.
  - unfold take_blob. by rewrite Hf.
Qed.

Lemma fold_erase_spec (drop : Entry -> bool) l a : asm_inv a ->
  let a' := foldl (fun acc (kv : string * Entry) => if drop kv.2 then erase kv.1 (drop_one acc) else acc) a l in
  asm_inv a' /\ shrinks a a'.
Proof.
  revert a; induction l as [|[k e] l IH]; intros a Ha; simpl; [done|].
  destruct (drop e); [|by apply IH].
  pose proof (shrinks_inv _ _ Ha (drop_one_acct _ (inv_acct _ Ha)) (drop_one_shrinks a)) as Hdrop.
  pose proof (erase_inv k _ Hdrop) as He. destruct (IH _ He) as [I1 I2]. split; [done|].
  etrans; [apply drop_one_shrinks|]. etrans; [|exact I2]. apply erase_shrinks. auto with asm.
Qed.

Lemma expire_inv now a : asm_inv a -> asm_inv (expire now a).
Proof. intros Ha. exact (proj1 (fold_erase_spec (idle now a) (entries_ a) a Ha)). Qed.

(** ** Runs *)
Inductive asm_op :=
| OpChunk (c : BlobChunk) (now : Z)
| OpTake (id : string)
| OpDiscard (id : string)
| OpExpire (now : Z).

Definition asm_step (a : BlobAssembler) (op : asm_op) : BlobAssembler :=
  match op with
  | OpChunk c now => (on_chunk c now a).1
  | OpTake id => (take_blob id a).1
  | OpDiscard id => discard id a
  | OpExpire now => expire now a
  end.
Definition asm_run (a : BlobAssembler) (ops : list asm_op) : BlobAssembler := foldl asm_step a ops.

Definition op_ok (op : asm_op) : Prop := match op with OpChunk c _ => chunk_ok c | _ => True end.

Lemma asm_step_inv a op : asm_inv a -> op_ok op -> asm_inv (asm_step a op).
Proof. destruct op; simpl; auto using on_chunk_inv, take_blob_inv, erase_inv, expire_inv. Qed.

Lemma asm_run_inv ops a : asm_inv a -> Forall op_ok ops -> asm_inv (asm_run a ops).
Proof.
  revert a; induction ops as [|op ops IH]; intros a Ha Hops; [done|].
  apply Forall_cons in Hops as [Hop Hops]. apply IH; [by apply asm_step_inv | done].
Qed.

Lemma new_assembler_inv max lim ttl : 0 <= max -> 0 <= lim -> Z.max lim max + max < 2 ^ 64 ->
  asm_inv (new_assembler max lim ttl).
Proof. intros. split; [by split | split; try done; auto with stdmap | simpl; lia]. Qed.

(** No operation changes the configuration. *)
Lemma asm_step_cfg a op : asm_inv a -> op_ok op ->
  max_blob_ (asm_step a op) = max_blob_ a /\ limit_ (asm_step a op) = limit_ a.
Proof.
  intros Ha Hop. destruct op as [c now|id|id|now]; simpl.
  - rewrite on_chunk_eq. case_bool; [done|]. destruct (target c now a) as [e|] eqn:Ht; [|done].
    destruct (appendable c e) eqn:Happ; simpl.
    + pose proof (stored_acct _ _ _ _ Ha Hop ltac:(done) Ht Happ) as Hst.
      match goal with |- context [evict ?n ?k ?s] => destruct (evict_spec n k s Hst) as (_ & [] & _); done end.
    + unfold erase. simpl. by rewrite sm_find_set_eq.
  - unfold take_blob. destruct (sm_find id (entries_ a)) as [e|]; [|done]. by destruct (e_complete e).
  - unfold discard, erase. by destruct (sm_find id (entries_ a)).
  - destruct (fold_erase_spec (idle now a) (entries_ a) a Ha) as [_ []]. done.
Qed.

Lemma asm_run_cfg ops a : asm_inv a -> Forall op_ok ops ->
  max_blob_ (asm_run a ops) = max_blob_ a /\ limit_ (asm_run a ops) = limit_ a.
Proof.
  revert a; induction ops as [|op ops IH]; intros a Ha Hops; [done|]. apply Forall_cons in Hops as [Hop Hops].
  destruct (IH (asm_step a op)) as [Em El]; [by apply asm_step_inv | done |].
  destruct (asm_step_cfg a op Ha Hop) as [Em' El']. simpl. unfold asm_run in *. by rewrite Em, El.
Qed.

(** Over every sequence of chunks the parser accepted, takes, discards and expiries, the byte
    account is exactly the sum of the stored blobs and never exceeds the larger of the pending
    limit and one maximal blob; no stored blob outgrows its announced length or [max_blob_]. *)
Theorem assembler_bounded max lim ttl ops :
  0 <= max -> 0 <= lim -> Z.max lim max + max < 2 ^ 64 -> Forall op_ok ops ->
  let a := asm_run (new_assembler max lim ttl) ops in
  bytes_ a = data_sum (entries_ a) /\ bytes_ a <= Z.max lim max
  /\ forall k e, sm_find k (entries_ a) = Some e ->
       zlen (e_data e) <= e_len e <= max /\ e_complete e = (zlen (e_data e) =? e_len e).
Proof.
  intros Hm Hl Hw Hops. pose proof (new_assembler_inv max lim ttl Hm Hl Hw) as H0.
  destruct (asm_run_cfg ops _ H0 Hops) as [Em El].
  pose proof (asm_run_inv ops _ H0 Hops) as [_ [_ Hb _ He] Hbd].
  rewrite Em in He, Hbd. rewrite El in Hbd. done.
Qed.

Lemma assembler_bounded_witness :
  let c := {| blob_id := "b"; offset := 0; blob_len := 2; payload := [x41] |} in
  let a := asm_run (new_assembler 10 10 5) [OpChunk c 1; OpExpire 9] in
  bytes_ a = data_sum (entries_ a) /\ bytes_ a <= Z.max 10 10
  /\ forall k e, sm_find k (entries_ a) = Some e ->
       zlen (e_data e) <= e_len e <= 10 /\ e_complete e = (zlen (e_data e) =? e_len e).
Proof.
  apply assembler_bounded; [lia | lia | lia |]. repeat constructor; vm_compute; done.
Defined.

(** ** What a stored blob's bytes are *)
(** [cs] are chunks of one blob of [len] bytes, each starting where the previous ended, and
    [data] is their payloads in order. *)
Inductive covers (len : Z) : list BlobChunk -> list byte -> Prop :=
| covers_nil : covers len [] []
| covers_snoc cs data c : covers len cs data -> offset c = zlen data -> blob_len c = len ->
    covers len (cs ++ [c]) (data ++ payload c).

(** The chunks a run received for one blob, less those refused for their announced length. *)
Definition chunk_for (max : Z) (id : string) (op : asm_op) : option BlobChunk :=
  match op with
  | OpChunk c _ => if bool_decide (blob_id c = id) && (blob_len c <=? max) then Some c else None
  | _ => None
  end.
Definition chunks_of (max : Z) (id : string) (ops : list asm_op) : list BlobChunk := omap (chunk_for max id) ops.

Definition provenance (ops : list asm_op) (a : BlobAssembler) : Prop :=
  forall k e, sm_find k (entries_ a) = Some e ->
    exists pre suf, chunks_of (max_blob_ a) k ops = pre ++ suf /\ covers (e_len e) suf (e_data e).

Lemma chunks_of_snoc max k ops op :
  chunks_of max k (ops ++ [op]) = chunks_of max k ops ++ match chunk_for max k op with Some c => [c] | None => [] end.
Proof. unfold chunks_of. rewrite omap_app. simpl. by destruct (chunk_for max k op). Qed.

(** A step that only removes entries, and removes the one it may have added a chunk for. *)
Lemma provenance_shrinks ops op a a' : max_blob_ a' = max_blob_ a ->
  (forall k e, sm_find k (entries_ a') = Some e -> sm_find k (entries_ a) = Some e /\ chunk_for (max_blob_ a) k op = None) ->
  provenance ops a -> provenance (ops ++ [op]) a'.
Proof.
  intros Hmax Hsub Hp k e Hf. destruct (Hsub _ _ Hf) as [Hf' Hnone].
  destruct (Hp k e Hf') as (pre & suf & Heq & Hc). exists pre, suf.
  by rewrite Hmax, chunks_of_snoc, Hnone, app_nil_r.
Qed.

Lemma chunk_for_chunk max k c now : chunk_for max k (OpChunk c now) = None <-> blob_id c <> k \/ max < blob_len c.
Proof. unfold chunk_for. case_bools; naive_solver lia. Qed.

(** The appended entry extends the cover its predecessor had. *)
Lemma target_covers ops c now a e : provenance ops a -> target c now a = Some e -> appendable c e = true ->
  exists pre suf, chunks_of (max_blob_ a) (blob_id c) ops = pre ++ suf
    /\ covers (e_len e) (suf ++ [c]) (e_data (appended c now e)).
Proof.
  intros Hp Ht Happ. unfold appendable in Happ. apply andb_prop in Happ as [[_ Hl%Z.eqb_eq]%andb_prop Ho%Z.eqb_eq].
  unfold target in Ht. destruct (sm_find (blob_id c) (entries_ a)) as [e'|] eqn:Hf.
  - injection Ht as ->. destruct (Hp _ _ Hf) as (pre & suf & Heq & Hc). exists pre, suf. split; [done|].
    by constructor.
  - destruct (Z.eqb_spec (offset c) 0) as [H0|]; [|done]. injection Ht as <-.
    exists (chunks_of (max_blob_ a) (blob_id c) ops), []. split; [by rewrite app_nil_r|].
    apply covers_snoc; [constructor | done | done].
Qed.

Lemma on_chunk_provenance ops c now a : asm_inv a -> chunk_ok c ->
  provenance ops a -> provenance (ops ++ [OpChunk c now]) (on_chunk c now a).1.
Proof.
  intros Hinv Hc Hp. rewrite on_chunk_eq. destruct (Z.ltb_spec (max_blob_ a) (blob_len c)) as [Hbig|Hfit].
  { apply (provenance_shrinks _ _ a); [done | | done]. intros k e Hf. split; [done|]. rewrite chunk_for_chunk. by right. }
  destruct (target c now a) as [e|] eqn:Ht.
  2: { apply (provenance_shrinks _ _ a); [done | | done]. intros k e Hf. split; [done|].
       rewrite chunk_for_chunk. left. intros <-. unfold target in Ht. simpl in Hf. by rewrite Hf in Ht. }
  destruct (appendable c e) eqn:Happ; simpl.
  - destruct (target_covers _ _ _ _ _ Hp Ht Happ) as (pre & suf & Heq & Hcov).
    pose proof (stored_acct _ _ _ _ Hinv Hc Hfit Ht Happ) as Hst.
    match goal with |- provenance _ (evict ?n ?k ?s) => destruct (evict_spec n k s Hst) as (_ & [Em _ _ _ Esub] & _); [done|] end.
    intros k e' Hf'. apply Esub in Hf'. simpl in Em, Hf'. rewrite Em, chunks_of_snoc.
    destruct (decide (k = blob_id c)) as [->|Hne].
    + rewrite sm_find_set_eq in Hf'. injection Hf' as <-. exists pre, (suf ++ [c]). split; [|done].
      unfold chunk_for. rewrite bool_decide_true, (proj2 (Z.leb_le _ _)) by done. simpl. by rewrite Heq, app_assoc.
    + rewrite sm_find_set_ne in Hf' by done. destruct (Hp _ _ Hf') as (pre' & suf' & Heq' & Hcov').
      exists pre', suf'. rewrite (proj2 (chunk_for_chunk _ _ _ _)) by naive_solver. by rewrite app_nil_r.
  - apply (provenance_shrinks _ _ a); [unfold erase; simpl; by rewrite sm_find_set_eq | | done].
    intros k e' Hf'. destruct (decide (k = blob_id c)) as [->|Hne]; [by rewrite erase_find_eq in Hf'|].
    rewrite erase_find_ne in Hf' by done. simpl in Hf'. rewrite sm_find_set_ne in Hf' by done.
    split; [done|]. rewrite chunk_for_chunk. naive_solver.
Qed.

Lemma asm_step_provenance ops a op : asm_inv a -> op_ok op -> provenance ops a -> provenance (ops ++ [op]) (asm_step a op).
Proof.
  intros Ha Hop Hp. destruct op as [c now|id|id|now]; [by apply on_chunk_provenance|..];
    (apply (provenance_shrinks _ _ a); [by apply asm_step_cfg | | done]; intros k e Hf; split; [|done]; simpl in Hf).
  - destruct (sm_find id (entries_ a)) as [e'|] eqn:Hi; [destruct (e_complete e') eqn:Hc|].
    + rewrite (take_blob_erase _ _ e') in Hf by done. eapply shr_find; [apply erase_shrinks; auto with asm | done].
    + unfold take_blob in Hf. by rewrite Hi, Hc in Hf.
    + unfold take_blob in Hf. by rewrite Hi in Hf.
  - eapply shr_find; [apply erase_shrinks; auto with asm | done].
  - eapply shr_find; [exact (proj2 (fold_erase_spec (idle now a) (entries_ a) a Ha)) | done].
Qed.

Lemma asm_run_provenance ops a0 : asm_inv a0 -> entries_ a0 = [] -> Forall op_ok ops -> provenance ops (asm_run a0 ops).
Proof.
  intros Ha0 Hempty. induction ops as [|op ops IH] using rev_ind; intros Hops.
  - intros k e Hf. simpl in Hf. by rewrite Hempty in Hf.
  - apply Forall_app in Hops as [Hops Hop]. apply Forall_cons in Hop as [Hop _]. unfold asm_run. rewrite foldl_app. simpl.
    apply asm_step_provenance; [by apply asm_run_inv | exact Hop | by apply IH].
Qed.

(** A blob handed out by [take] is whole and unmixed: its bytes are the payloads of the last
    consecutive chunks received for that id, from offset 0, all announcing the same length, and
    that length is reached exactly. *)
Theorem take_blob_integrity max lim ttl ops id data :
  0 <= max -> 0 <= lim -> Z.max lim max + max < 2 ^ 64 -> Forall op_ok ops ->
  (take_blob id (asm_run (new_assembler max lim ttl) ops)).2 = Some data ->
  exists pre suf, chunks_of max id ops = pre ++ suf /\ covers (zlen data) suf data.
Proof.
  intros Hm Hl Hw Hops. pose proof (new_assembler_inv max lim ttl Hm Hl Hw) as H0.
  pose proof (asm_run_inv ops _ H0 Hops) as Ha. destruct (asm_run_cfg ops _ H0 Hops) as [Em _].
  pose proof (asm_run_provenance ops _ H0 eq_refl Hops) as Hp. unfold take_blob.
  destruct (sm_find id _) as [e|] eqn:Hf; [|done]. destruct (e_complete e) eqn:Hc; [|done]. intros [= <-].
  destruct (Hp _ _ Hf) as (pre & suf & Heq & Hcov). rewrite Em in Heq. simpl in Heq. exists pre, suf. split; [done|].
  destruct (acct_entries _ (inv_acct _ Ha) _ _ Hf) as [_ Hcomp]. rewrite Hc in Hcomp.
  symmetry in Hcomp. apply Z.eqb_eq in Hcomp. by rewrite Hcomp.
Qed.

Lemma take_blob_integrity_witness :
  let c1 := {| blob_id := "b"; offset := 0; blob_len := 2; payload := [x41] |} in
  let c2 := {| blob_id := "b"; offset := 1; blob_len := 2; payload := [x42] |} in
  exists pre suf, chunks_of 10 "b" [OpChunk c1 1; OpChunk c2 2] = pre ++ suf /\ covers (zlen [x41; x42]) suf [x41; x42].
Proof.
  intros c1 c2. apply (take_blob_integrity 10 10 5 [OpChunk c1 1; OpChunk c2 2] "b" [x41; x42]); try lia.
  - repeat constructor; vm_compute; done.
  - vm_compute. reflexivity.
Defined.

(** ** A blob sent in order is completed *)
Lemma on_chunk_appends c now a e : asm_inv a -> chunk_ok c -> blob_len c <= max_blob_ a ->
  target c now a = Some e -> appendable c e = true ->
  sm_find (blob_id c) (entries_ (on_chunk c now a).1) = Some (appended c now e)
  /\ (on_chunk c now a).2 = (if e_complete (appended c now e) then Some (blob_id c) else None).
Proof.
  intros Hinv Hc Hfit Ht Happ. rewrite on_chunk_eq, Ht, Happ. destruct (Z.ltb_spec (max_blob_ a) (blob_len c)); [lia|].
  split; [|done]. pose proof (stored_acct _ _ _ _ Hinv Hc Hfit Ht Happ) as Hst.
  match goal with |- context [evict ?n ?k ?s] => destruct (evict_spec n k s Hst) as (_ & _ & Ef & _); [done|] end.
  simpl. rewrite Ef. simpl. apply sm_find_set_eq.
Qed.

(** The chunks of one blob cut into pieces, each with the time it arrives. *)
Fixpoint cut (id : string) (len off : Z) (ps : list (list byte * Z)) : list asm_op :=
  match ps with
  | [] => []
  | (p, now) :: ps' =>
      OpChunk {| blob_id := id; offset := off; blob_len := len; payload := p |} now :: cut id len (off + zlen p) ps'
  end.

Definition joined (ps : list (list byte * Z)) : list byte := mjoin ps.*1.

Lemma joined_cons p now ps : joined ((p, now) :: ps) = p ++ joined ps.
Proof. done. Qed.

Lemma cut_appends id len ps : forall a e, asm_inv a -> sm_find id (entries_ a) = Some e ->
  e_complete e = false -> e_len e = len -> len <= max_blob_ a -> zlen (e_data e) + zlen (joined ps) = len ->
  ps <> [] -> Forall (fun p => p.1 <> []) ps ->
  exists e', sm_find id (entries_ (asm_run a (cut id len (zlen (e_data e)) ps))) = Some e'
    /\ e_data e' = e_data e ++ joined ps /\ e_complete e' = true.
Proof.
  induction ps as [|[p now] ps IH]; intros a e Ha Hf Hcomp Hlen Hmax Hsum Hne Hps; [done|].
  apply Forall_cons in Hps as [Hp Hps]. simpl in Hp. rewrite joined_cons, zlen_app in Hsum.
  pose proof (zlen_nonneg p). pose proof (zlen_nonneg (joined ps)). pose proof (zlen_nonneg (e_data e)).
  set (c := {| blob_id := id; offset := zlen (e_data e); blob_len := len; payload := p |}).
  assert (chunk_ok c) as Hc by (unfold chunk_ok; simpl; lia).
  assert (target c now a = Some e) as Ht by (unfold target; simpl; by rewrite Hf).
  assert (appendable c e = true) as Happ.
  { unfold appendable. rewrite Hcomp. simpl. rewrite Hlen, !Z.eqb_refl. done. }
  destruct (on_chunk_appends c now a e Ha Hc Hmax Ht Happ) as [Hf' _].
  simpl. fold c. rewrite joined_cons, app_assoc.
  change (p :: ps.*1) with ([p] ++ ps.*1). change (asm_run a (OpChunk c now :: ?ops)) with (asm_run (on_chunk c now a).1 ops).
  destruct ps as [|q ps].
  - simpl. exists (appended c now e). split_and!; [done | simpl; by rewrite app_nil_r |]. simpl.
    apply Z.eqb_eq. rewrite zlen_app. change (zlen (joined [])) with 0 in Hsum. lia.
  - replace (zlen (e_data e) + zlen p) with (zlen (e_data (appended c now e))) by (simpl; by rewrite zlen_app).
    apply (IH _ (appended c now e)); try done.
    + by apply on_chunk_inv.
    + simpl. apply Z.eqb_neq. rewrite zlen_app.
      apply Forall_cons in Hps as [Hq _]. destruct q as [q nq]. simpl in Hq.
      rewrite joined_cons, zlen_app in Hsum. pose proof (zlen_nonneg (joined ps)).
      assert (zlen q <> 0) by (intros ?%zlen_0; done). pose proof (zlen_nonneg q). lia.
    + destruct (asm_step_cfg a (OpChunk c now) Ha Hc) as [Em _]. simpl in Em. by rewrite Em.
    + simpl. rewrite zlen_app. lia.
Qed.

Lemma cut_completes a id ps :
  asm_inv a -> sm_find id (entries_ a) = None -> zlen (joined ps) <= max_blob_ a ->
  Forall (fun p => p.1 <> []) ps \/ (exists now, ps = [([], now)]) -> ps <> [] ->
  (take_blob id (asm_run a (cut id (zlen (joined ps)) 0 ps))).2 = Some (joined ps).
Proof.
  intros Ha Hf Hmax Hps Hne. destruct ps as [|[p now] ps]; [done|]. clear Hne.
  rewrite joined_cons in *. rewrite zlen_app in Hmax. pose proof (zlen_nonneg p). pose proof (zlen_nonneg (joined ps)).
  set (c := {| blob_id := id; offset := 0; blob_len := zlen (p ++ joined ps); payload := p |}).
  assert (chunk_ok c) as Hc by (unfold chunk_ok; simpl; rewrite zlen_app; lia).
  assert (target c now a = Some (fresh_entry c now)) as Ht by (unfold target; simpl; by rewrite Hf).
  assert (appendable c (fresh_entry c now) = true) as Happ by (unfold appendable; simpl; by rewrite Z.eqb_refl).
  assert (blob_len c <= max_blob_ a) as Hfit by (simpl; rewrite zlen_app; lia).
  destruct (on_chunk_appends c now a _ Ha Hc Hfit Ht Happ) as [Hf' _].
  assert (exists e', sm_find id (entries_ (asm_run a (cut id (zlen (p ++ joined ps)) 0 ((p, now) :: ps)))) = Some e'
    /\ e_data e' = p ++ joined ps /\ e_complete e' = true) as (e' & Hf2 & Hd & Hcomp).
  { simpl cut. fold c. change (asm_run a (OpChunk c now :: ?ops)) with (asm_run (on_chunk c now a).1 ops).
    destruct ps as [|q ps].
    - exists (appended c now (fresh_entry c now)). split_and!; [done | simpl; by rewrite app_nil_r |].
      simpl. apply Z.eqb_eq. by rewrite app_nil_r.
    - destruct Hps as [Hps|[? ?]]; [|done]. apply Forall_cons in Hps as [Hp Hps].
      change (0 + zlen p) with (zlen (e_data (appended c now (fresh_entry c now)))).
      apply (cut_appends _ _ _ _ (appended c now (fresh_entry c now))); try done.
      + by apply on_chunk_inv.
      + simpl. apply Z.eqb_neq. rewrite zlen_app. apply Forall_cons in Hps as [Hq _]. destruct q as [q nq]. simpl in Hq.
        rewrite joined_cons, zlen_app. pose proof (zlen_nonneg (joined ps)).
        assert (zlen q <> 0) by (intros ?%zlen_0; done). pose proof (zlen_nonneg q). lia.
      + destruct (asm_step_cfg a (OpChunk c now) Ha Hc) as [Em _]. simpl in Em. rewrite Em, zlen_app. lia.
      + simpl. rewrite zlen_app. lia. }
  rewrite (take_blob_erase _ _ e') by done. simpl. by rewrite Hd.
Qed.

(** A blob within [max_blob_] whose chunks arrive in order is completed whatever else the
    store holds: [take] then returns its bytes. (One empty chunk completes the empty blob.) *)
Theorem assembler_completes a id ps :
  asm_inv a -> sm_find id (entries_ a) = None -> zlen (joined ps) <= max_blob_ a ->
  Forall (fun p => p.1 <> []) ps \/ (exists now, ps = [([], now)]) -> ps <> [] ->
  (take_blob id (asm_run a (cut id (zlen (joined ps)) 0 ps))).2 = Some (joined ps).
Proof. apply cut_completes. Qed.

Lemma assembler_completes_witness :
  (take_blob "b" (asm_run (new_assembler 10 10 5) (cut "b" 3 0 [([x41; x42], 1); ([x43], 2)]))).2 = Some [x41; x42; x43].
Proof.
  apply (assembler_completes (new_assembler 10 10 5) "b" [([x41; x42], 1); ([x43], 2)]); try done.
  - apply new_assembler_inv; lia.
  - left. repeat constructor; done.
Defined.
