(* ===== verification/BlobPump.v ===== *)
(** * BlobPump: the outbound blob pump

    Models [fjarr::core::BlobPump] (agent/src/core/blob_pump.cpp) against the [ChannelSender]
    interface of include/fjarr/capability.hpp. A transfer's [done] callback is a token; what the
    callback does to the pump it runs under (it may enqueue more transfers, which the same loop
    serves) is the client's, so it is an argument [on_done] of the definitions. The pump's
    outcome is the new pump, the sender, the events in order and the exception, if one left it. *)

From Stdlib Require Import ZArith Lia Strings.Byte String.
From stdpp Require Import base list strings.
From S2P Require Import Prelude StdMap Blob BlobAssembler.

(** The binary half of [ChannelSender]: [Ok (s, false)] is a refusal above the high-water mark. *)
Class ChannelSender (S : Type) := send_binary : list byte -> S -> result (S * bool).

Record BlobTransfer := {
  t_id : string;
  t_data : list byte;
  t_offset : Z;
  t_done : option nat;
  sent_empty : bool
}.

Record BlobPump := {
  chunk_ : Z;
  queue_ : list BlobTransfer;
  pumping_ : bool
}.

Definition new_pump (chunk_payload : Z) : BlobPump :=
  {| chunk_ := Z.min chunk_payload MAX_CHUNK_PAYLOAD; queue_ := []; pumping_ := false |}.

Definition enqueue (t : BlobTransfer) (p : BlobPump) : BlobPump := {| p with queue_ := queue_ p ++ [t] |}.

Inductive pump_event :=
| EvSent (frame : list byte)
| EvDone (token : nat) (ok : bool).

Inductive send_status := Finished | Stalled | Threw (e : exn) | OutOfFuel.
#[global] Instance send_status_eq_dec : EqDecision send_status.
Proof. solve_decision. Defined.

Section Pump.
Context {S : Type} `{ChannelSender S}.
Variable on_done : nat -> bool -> list BlobTransfer.

(** The inner loop: chunks from the transfer's offset until the blob ends or one is refused.
    Each turn sends at least one byte, so [length data + 1] turns are enough. *)
Fixpoint send_chunks (fuel : nat) (chunk : Z) (t : BlobTransfer) (s : S) : send_status * BlobTransfer * S * list pump_event :=
  let len := zlen (t_data t) in
  if t_offset t <? len then
    match fuel with
    | O => (OutOfFuel, t, s, [])
    | Datatypes.S fuel' =>
        let n := Z.min chunk (len - t_offset t) in
        match encode_chunk (t_id t) (t_offset t) len (take (Z.to_nat n) (drop (Z.to_nat (t_offset t)) (t_data t))) with
        | Throw e => (Threw e, t, s, [])
        | Ok frame =>
            match send_binary frame s with
            | Throw e => (Threw e, t, s, [])
            | Ok (s', false) => (Stalled, t, s', [])
            | Ok (s', true) =>
                let '(st, t', s'', evs) := send_chunks fuel' chunk {| t with t_offset := u64 (t_offset t + n) |} s' in
                (st, t', s'', EvSent frame :: evs)
            end
        end
    end
  else (Finished, t, s, []).

(** An empty blob is one chunk with no payload, sent once. *)
Definition send_empty (t : BlobTransfer) (s : S) : send_status * BlobTransfer * S * list pump_event :=
  if (zlen (t_data t) =? 0) && negb (sent_empty t) then
    match encode_chunk (t_id t) 0 0 [] with
    | Throw e => (Threw e, t, s, [])
    | Ok frame =>
        match send_binary frame s with
        | Throw e => (Threw e, t, s, [])
        | Ok (s', false) => (Stalled, t, s', [])
        | Ok (s', true) => (Finished, {| t with sent_empty := true |}, s', [EvSent frame])
        end
    end
  else (Finished, t, s, []).

Definition send_transfer (chunk : Z) (t : BlobTransfer) (s : S) : send_status * BlobTransfer * S * list pump_event :=
  match send_empty t s with
  | (Finished, t1, s1, ev1) =>
      let '(st, t2, s2, ev2) := send_chunks (Datatypes.S (length (t_data t1))) chunk t1 s1 in (st, t2, s2, ev1 ++ ev2)
  | r => r
  end.

Definition set_front (t : BlobTransfer) (p : BlobPump) : BlobPump :=
  {| p with queue_ := match queue_ p with [] => [] | _ :: q => t :: q end |}.

(** The outer loop, one queued transfer per turn; a finished one leaves the queue before its
    [done(true)] runs, and what that enqueues is served by the same loop. *)
Fixpoint pump_loop (fuel : nat) (p : BlobPump) (s : S) : send_status * BlobPump * S * list pump_event :=
  match queue_ p with
  | [] => (Finished, p, s, [])
  | t :: q =>
      match fuel with
      | O => (OutOfFuel, p, s, [])
      | Datatypes.S fuel' =>
          match send_transfer (chunk_ p) t s with
          | (Finished, t', s', ev) =>
              let added := match t_done t' with Some d => on_done d true | None => [] end in
              let evd := match t_done t' with Some d => [EvDone d true] | None => [] end in
              let '(st, p', s'', ev') := pump_loop fuel' {| p with queue_ := q ++ added |} s' in
              (st, p', s'', ev ++ evd ++ ev')
          | (st, t', s', ev) => (st, set_front t' p, s', ev)
          end
      end
  end.

(** [pump(sender)]: [None] is a channel not open yet. An exception leaves [pumping_] set. *)
Definition pump (fuel : nat) (sender : option S) (p : BlobPump) : send_status * BlobPump * option S * list pump_event :=
  match sender with
  | None => (Finished, p, None, [])
  | Some s =>
      if pumping_ p then (Finished, p, Some s, [])
      else
        let '(st, p', s', ev) := pump_loop fuel {| p with pumping_ := true |} s in
        match st with
        | Threw e => (Threw e, p', Some s', ev)
        | _ => (st, {| p' with pumping_ := false |}, Some s', ev)
        end
  end.
End Pump.

Definition done_events (ok : bool) (l : list BlobTransfer) : list pump_event :=
  omap (fun t => (fun d => EvDone d ok) <$> t_done t) l.

(** [cancel(id)]: the first transfer with that id leaves the queue, done(false). *)
Fixpoint remove_first (id : string) (q : list BlobTransfer) : option (BlobTransfer * list BlobTransfer) :=
  match q with
  | [] => None
  | t :: q' => if bool_decide (t_id t = id) then Some (t, q')
               else match remove_first id q' with Some (d, r) => Some (d, t :: r) | None => None end
  end.
Definition cancel (id : string) (p : BlobPump) : BlobPump * bool * list pump_event :=
  match remove_first id (queue_ p) with
  | None => (p, false, [])
  | Some (dropped, q) => ({| p with queue_ := q |}, true, done_events false [dropped])
  end.

(** [fail_all]: everything leaves the queue, each with done(false) in order. *)
Definition fail_all (p : BlobPump) : BlobPump * list pump_event :=
  ({| p with queue_ := [] |}, done_events false (queue_ p)).

Definition queued_bytes (p : BlobPump) : Z :=
  foldl (fun n t => u64 (n + u64 (zlen (t_data t) - t_offset t))) 0 (queue_ p).

(** ** What a transfer still has to send *)
(** A byte sequence chopped into pieces of [n]; [fuel] at least its length. *)
Fixpoint chop (fuel n : nat) (l : list byte) : list (list byte) :=
  match fuel, l with
  | O, _ | _, [] => []
  | Datatypes.S fuel', _ => take n l :: chop fuel' n (drop n l)
  end.

Fixpoint frames_from (idb : list byte) (len off : Z) (ps : list (list byte)) : list (list byte) :=
  match ps with [] => [] | p :: ps' => raw_frame idb off len p :: frames_from idb len (off + zlen p) ps' end.

(** The frames a transfer has not sent yet. *)
Definition pending (chunk : Z) (t : BlobTransfer) : list (list byte) :=
  match uuid_bytes (t_id t) with
  | None => []
  | Some idb =>
      if zlen (t_data t) =? 0 then (if sent_empty t then [] else [raw_frame idb 0 0 []])
      else frames_from idb (zlen (t_data t)) (t_offset t)
             (chop (length (t_data t)) (Z.to_nat chunk) (drop (Z.to_nat (t_offset t)) (t_data t)))
  end.
Definition pending_all (chunk : Z) (q : list BlobTransfer) : list (list byte) := mjoin (pending chunk <$> q).

Definition sent (evs : list pump_event) : list (list byte) :=
  omap (fun e => match e with EvSent f => Some f | _ => None end) evs.

Definition dones (evs : list pump_event) : list (nat * bool) :=
  omap (fun e => match e with EvDone d ok => Some (d, ok) | _ => None end) evs.

Record transfer_ok (t : BlobTransfer) : Prop := {
  tr_id : is_Some (uuid_bytes (t_id t));
  tr_off : 0 <= t_offset t <= zlen (t_data t);
  tr_len : zlen (t_data t) < 2 ^ 64
}.

Definition chunk_size_ok (chunk : Z) : Prop := 1 <= chunk <= MAX_CHUNK_PAYLOAD.

Lemma chop_fuel n l f f' : (1 <= n)%nat -> (length l <= f)%nat -> (length l <= f')%nat -> chop f n l = chop f' n l.
Proof.
  intros Hn. revert l f'. induction f as [|f IH]; intros l f' Hl Hl'.
  - destruct l; [|simpl in Hl; lia]. by destruct f'.
  - destruct l as [|b l]; [by destruct f'|]. destruct f' as [|f']; [simpl in Hl'; lia|].
    cbn [chop]. f_equal. apply IH; rewrite length_drop; simpl in *; lia.
Qed.

Lemma chop_unfold n l f : (1 <= n)%nat -> (length l <= f)%nat -> l <> [] ->
  chop f n l = take n l :: chop f n (drop n l).
Proof.
  intros Hn Hl Hne. destruct l as [|b l]; [done|]. destruct f as [|f]; [simpl in Hl; lia|].
  change (chop (S f) n (b :: l)) with (take n (b :: l) :: chop f n (drop n (b :: l))). f_equal.
  apply chop_fuel; rewrite ?length_drop; simpl in *; lia.
Qed.

Lemma chop_join n l f : (1 <= n)%nat -> (length l <= f)%nat -> mjoin (chop f n l) = l.
Proof.
  intros Hn. revert l. induction f as [|f IH]; intros l Hl; [destruct l; [done | simpl in Hl; lia]|].
  destruct l as [|b l]; [done|]. cbn [chop]. simpl mjoin.
  rewrite IH by (rewrite length_drop; simpl in *; lia). by rewrite take_drop.
Qed.

Lemma chop_nonempty n l f : (1 <= n)%nat -> Forall (fun p => p <> []) (chop f n l).
Proof.
  intros Hn. revert l. induction f as [|f IH]; intros l; [done|]. destruct l as [|b l]; [done|].
  cbn [chop]. constructor; [destruct n; [lia|done] | apply IH].
Qed.

Lemma chop_size n l f : Forall (fun p => zlen p <= Z.of_nat n) (chop f n l).
Proof.
  revert l. induction f as [|f IH]; intros l; [done|]. destruct l as [|b l]; [done|].
  cbn [chop]. constructor; [rewrite zlen_take; lia | apply IH].
Qed.

Section PumpSpec.
Context {S : Type} `{ChannelSender S}.
Variable on_done : nat -> bool -> list BlobTransfer.
Variable chunk : Z.
Hypothesis chunk_ok_ : chunk_size_ok chunk.

Lemma next_piece t : transfer_ok t -> t_offset t < zlen (t_data t) ->
  let n := Z.min chunk (zlen (t_data t) - t_offset t) in
  let p := take (Z.to_nat n) (drop (Z.to_nat (t_offset t)) (t_data t)) in
  let t' := {| t with t_offset := u64 (t_offset t + n) |} in
  exists idb, uuid_bytes (t_id t) = Some idb
    /\ encode_chunk (t_id t) (t_offset t) (zlen (t_data t)) p = Ok (raw_frame idb (t_offset t) (zlen (t_data t)) p)
    /\ zlen p = n /\ 1 <= n /\ transfer_ok t' /\ t_offset t' = t_offset t + n
    /\ pending chunk t = raw_frame idb (t_offset t) (zlen (t_data t)) p :: pending chunk t'.
Proof.
  intros [[idb Hid] Hoff Hlen] Hlt n p t'. destruct chunk_ok_ as [Hc1 Hc2].
  assert (n = Z.min chunk (zlen (t_data t) - t_offset t)) as Hn by done.
  assert (zlen p = n) as Hp. { unfold p. rewrite zlen_take, zlen_drop. lia. }
  assert (u64 (t_offset t + n) = t_offset t + n) as Hu by (apply u64_small; lia).
  exists idb. split_and!; try done; try lia.
  - unfold encode_chunk. rewrite Hid, Hp, Hu. rewrite !(proj2 (Z.ltb_ge _ _)) by lia. unfold raw_frame. by rewrite Hp.
  - split; simpl; [by eexists | rewrite Hu; lia | done].
  - unfold pending. simpl. rewrite Hid, Hu. rewrite (proj2 (Z.eqb_neq _ _)) by lia.
    rewrite chop_unfold; [|lia | rewrite length_drop; unfold zlen in *; lia|].
    2: { intros Hnil%(f_equal zlen). rewrite zlen_drop in Hnil. change (zlen []) with 0 in Hnil. lia. }
    assert (take (Z.to_nat chunk) (drop (Z.to_nat (t_offset t)) (t_data t)) = p) as Htake.
    { unfold p, n. destruct (Z.le_gt_cases chunk (zlen (t_data t) - t_offset t)); [by rewrite Z.min_l|].
      rewrite Z.min_r by lia. rewrite !take_ge; [done | rewrite length_drop; unfold zlen in *; lia..]. }
    cbn [frames_from]. rewrite Htake, Hp. f_equal. rewrite drop_drop. f_equal.
    destruct (Z.le_gt_cases chunk (zlen (t_data t) - t_offset t)).
    + f_equal. f_equal. unfold n. lia.
    + rewrite !drop_ge; [done | unfold n, zlen in *; lia..].
Qed.

(** The exceptions that can leave a transfer are the sender's own, on a frame of bounded size. *)
Definition sender_threw (st : send_status) : Prop :=
  forall e, st = Threw e -> exists f s0, send_binary f s0 = Throw e /\ zlen f <= HEADER_BYTES + chunk.

Lemma raw_frame_size idb off len p : length idb = 16%nat -> zlen (raw_frame idb off len p) = HEADER_BYTES + zlen p.
Proof.
  intros Hid. unfold raw_frame, put_u64, put_u32, HEADER_BYTES. rewrite !zlen_app.
  rewrite (zlen_length idb 16), !(zlen_length (put_be _ _) _ (length_put_be _ _)) by done.
  change (zlen [Zbyte VERSION]) with 1. lia.
Qed.

Lemma send_chunks_spec fuel t s st t' s' ev :
  transfer_ok t -> zlen (t_data t) - t_offset t < Z.of_nat fuel ->
  send_chunks fuel chunk t s = (st, t', s', ev) ->
  transfer_ok t' /\ t' = {| t with t_offset := t_offset t' |} /\ st <> OutOfFuel /\ sender_threw st
  /\ (st = Finished -> t_offset t' = zlen (t_data t)) /\ (zlen (t_data t) <> 0 -> sent ev ++ pending chunk t' = pending chunk t)
  /\ (zlen (t_data t) = 0 -> ev = []) /\ dones ev = [].
Proof.
  revert t s st t' s' ev. induction fuel as [|fuel IH]; intros t s st t' s' ev Ht Hf; cbn [send_chunks].
  { destruct Ht. lia. }
  destruct (Z.ltb_spec (t_offset t) (zlen (t_data t))) as [Hlt|Hge].
  2: { intros [= <- <- <- <-]. destruct t, Ht. simpl in *. split_and!; try done. lia. }
  destruct (next_piece t Ht Hlt) as (idb & Hid & Henc & Hp & Hn & Ht1 & Hoff1 & Hpend). rewrite Henc.
  destruct (send_binary _ s) as [[s1 [|]]|e] eqn:Hsend.
  - destruct (send_chunks fuel chunk _ s1) as [[[st2 t2] s2] ev2] eqn:Hrec. intros [= <- <- <- <-].
    eapply IH in Hrec; [|exact Ht1 | rewrite Hoff1; simpl in *; lia].
    destruct Hrec as (R1 & R2 & R3 & R4 & R5 & R6 & R7 & R8). simpl in R2, R5, R6, R7.
    split_and!; try done.
    + intros Hne. simpl. rewrite R6 by done. done.
    + destruct Ht. intros. lia.
  - intros [= <- <- <- <-]. by destruct t; simpl in *; split_and!.
  - intros [= <- <- <- <-]. destruct t. simpl in *. split_and!; try done.
    intros e' [= <-]. eexists _, s. split; [exact Hsend|].
    rewrite raw_frame_size by (by eapply uuid_bytes_length). destruct chunk_ok_. lia.
Qed.

Lemma pending_finished t : transfer_ok t -> t_offset t = zlen (t_data t) -> (zlen (t_data t) = 0 -> sent_empty t = true) ->
  pending chunk t = [].
Proof.
  intros [[idb Hid] _ _] Hoff He. unfold pending. rewrite Hid. destruct (Z.eqb_spec (zlen (t_data t)) 0); [by rewrite He|].
  rewrite drop_ge by (rewrite Hoff; unfold zlen; lia). by destruct (length (t_data t)).
Qed.

Lemma send_transfer_spec t s st t' s' ev : transfer_ok t -> send_transfer chunk t s = (st, t', s', ev) ->
  transfer_ok t' /\ t_done t' = t_done t /\ st <> OutOfFuel /\ sender_threw st
  /\ sent ev ++ pending chunk t' = pending chunk t /\ (st = Finished -> pending chunk t' = []) /\ dones ev = [].
Proof.
  intros Ht. unfold send_transfer, send_empty. destruct Ht as [[idb Hid] Hoff Hlen] eqn:Et. clear Et.
  destruct (Z.eqb_spec (zlen (t_data t)) 0) as [H0|H0]; [destruct (sent_empty t) eqn:Hse|]; cbn [negb andb].
  - destruct (send_chunks _ _ _ _) as [[[st2 t2] s2] ev2] eqn:Hs. intros [= <- <- <- <-].
    apply send_chunks_spec in Hs as (R1 & R2 & R3 & R4 & R5 & R6 & R7 & R8); [|by split | unfold zlen; lia].
    rewrite R7 in * by done. rewrite R2 in *. simpl in *. split_and!; try done.
    + unfold pending. simpl. by rewrite Hid, H0.
    + intros Hst. apply pending_finished; [done | auto | done].
  - unfold encode_chunk. rewrite Hid. change (zlen []) with 0.
    rewrite (proj2 (Z.ltb_ge MAX_CHUNK_PAYLOAD 0)), (u64_small (0 + 0)), (proj2 (Z.ltb_ge 0 (0 + 0))) by (done || lia).
    change ([Zbyte VERSION] ++ idb ++ put_u64 0 ++ put_u64 0 ++ put_u32 (u32 0) ++ []) with (raw_frame idb 0 0 []).
    destruct (send_binary _ s) as [[s1 [|]]|e] eqn:Hsend.
    + destruct (send_chunks _ _ _ _) as [[[st2 t2] s2] ev2] eqn:Hs. intros [= <- <- <- <-].
      apply send_chunks_spec in Hs as (R1 & R2 & R3 & R4 & R5 & R6 & R7 & R8); [|by split | simpl; unfold zlen; lia].
      simpl in *. rewrite R7 in * by done. rewrite R2 in *. simpl in *. split_and!; try done.
      * unfold pending. simpl. by rewrite Hid, H0, Hse.
      * intros Hst. apply pending_finished; [done | simpl; auto | done].
    + intros [= <- <- <- <-]. split_and!; done.
    + intros [= <- <- <- <-]. split_and!; try done.
      intros e' [= <-]. eexists _, s. split; [exact Hsend|].
      rewrite raw_frame_size by (by eapply uuid_bytes_length). destruct chunk_ok_. change (zlen []) with 0. lia.
  - destruct (send_chunks _ _ _ _) as [[[st2 t2] s2] ev2] eqn:Hs. intros [= <- <- <- <-].
    apply send_chunks_spec in Hs as (R1 & R2 & R3 & R4 & R5 & R6 & R7 & R8); [|by split | unfold zlen; lia].
    simpl. split_and!; try done.
    + by rewrite R2.
    + by apply R6.
    + intros Hst. apply pending_finished; [done | rewrite R2; simpl; auto | rewrite R2; done].
Qed.

(** The transfers the callbacks of a run enqueued. *)
Definition added (ev : list pump_event) : list BlobTransfer := mjoin ((fun d => on_done d.1 d.2) <$> dones ev).

Hypothesis added_ok : forall d ok, Forall transfer_ok (on_done d ok).

Lemma pending_all_app q q' : pending_all chunk (q ++ q') = pending_all chunk q ++ pending_all chunk q'.
Proof. unfold pending_all. by rewrite fmap_app, join_app. Qed.
Lemma dones_app e e' : dones (e ++ e') = dones e ++ dones e'.
Proof. apply omap_app. Qed.
Lemma sent_app e e' : sent (e ++ e') = sent e ++ sent e'.
Proof. apply omap_app. Qed.

Lemma pump_loop_spec fuel p s st p' s' ev : chunk_ p = chunk -> Forall transfer_ok (queue_ p) ->
  pump_loop on_done fuel p s = (st, p', s', ev) ->
  chunk_ p' = chunk /\ pumping_ p' = pumping_ p /\ Forall transfer_ok (queue_ p') /\ sender_threw st
  /\ sent ev ++ pending_all chunk (queue_ p') = pending_all chunk (queue_ p ++ added ev)
  /\ (st = Finished -> queue_ p' = [])
  /\ ((forall d ok, on_done d ok = []) -> (length (queue_ p) <= fuel)%nat -> st <> OutOfFuel).
Proof.
  revert p s st p' s' ev. induction fuel as [|fuel IH]; intros p s st p' s' ev Hc Hq; simpl.
  - destruct (queue_ p) as [|t q] eqn:Eq; intros [= <- <- <- <-]; rewrite Eq, app_nil_r; split_and!; try done.
    simpl. lia.
  - destruct (queue_ p) as [|t q] eqn:Eq.
    { intros [= <- <- <- <-]. rewrite Eq. split_and!; done. }
    apply Forall_cons in Hq as [Ht Hq]. rewrite Hc.
    destruct (send_transfer chunk t s) as [[[st1 t1] s1] ev1] eqn:Hs.
    apply send_transfer_spec in Hs as (R1 & R2 & R3 & R4 & R5 & R6 & R7); [|done].
    destruct (decide (st1 = Finished)) as [->|Hnf].
    + destruct (pump_loop on_done fuel _ s1) as [[[st2 p2] s2] ev2] eqn:Hrec. intros [= <- <- <- <-].
      apply IH in Hrec as (I1 & I2 & I3 & I4 & I5 & I6 & I7); [| done |].
      2: { simpl. apply Forall_app. split; [done|]. destruct (t_done t1); [apply added_ok | done]. }
      simpl in *. split_and!; try done.
      * rewrite R6, app_nil_r in R5 by done. change (t :: q ++ ?x) with ([t] ++ q ++ x).
        unfold added. rewrite !dones_app, R7. rewrite !sent_app, <- !app_assoc, I5, !pending_all_app.
        change (pending_all chunk [t]) with (pending chunk t ++ []). rewrite app_nil_r, <- R5. f_equal.
        unfold added. destruct (t_done t1) as [d|]; simpl; by rewrite ?pending_all_app, <- ?app_assoc, ?app_nil_r.
      * intros Hnone Hlen. apply I7; [done|]. destruct (t_done t1) as [d|]; rewrite ?Hnone, app_nil_r; lia.
    + assert (chunk_ (set_front t1 p) = chunk /\ pumping_ (set_front t1 p) = pumping_ p
        /\ Forall transfer_ok (queue_ (set_front t1 p)) /\ sender_threw st1
        /\ sent ev1 ++ pending_all chunk (queue_ (set_front t1 p)) = pending_all chunk ((t :: q) ++ added ev1))
        as (C1 & C2 & C3 & C4 & C5).
      { unfold set_front. simpl. rewrite Eq. split_and!; try done; [by constructor|].
        unfold added. rewrite R7. simpl. rewrite app_nil_r. change (t1 :: q) with ([t1] ++ q).
        change (t :: q) with ([t] ++ q). rewrite !pending_all_app.
        change (pending_all chunk [t1]) with (pending chunk t1 ++ []).
        change (pending_all chunk [t]) with (pending chunk t ++ []).
        by rewrite !app_nil_r, app_assoc, R5. }
      destruct st1; try done; intros [= <- <- <- <-]; split_and!; done.
Qed.
End PumpSpec.

(** ** The pump *)
(** Whatever the sender accepts or refuses, and however often the pump stalls and is called
    again, the frames handed to it are the queue's frames in order with none lost, repeated or
    skipped: what was sent, followed by what the queue still has to send, is what the queue had
    to send before (and what its callbacks enqueued meanwhile). When the loop ends by itself,
    the queue is empty. *)
Theorem pump_sends_in_order {S} `{ChannelSender S} on_done fuel (s : S) p st p' s' ev :
  chunk_size_ok (chunk_ p) -> Forall transfer_ok (queue_ p) -> (forall d ok, Forall transfer_ok (on_done d ok)) ->
  pumping_ p = false -> pump on_done fuel (Some s) p = (st, p', s', ev) ->
  sent ev ++ pending_all (chunk_ p) (queue_ p') = pending_all (chunk_ p) (queue_ p ++ added on_done ev)
  /\ (st = Finished -> queue_ p' = []).
Proof.
  intros Hc Hq Hadd Hp. unfold pump. rewrite Hp.
  destruct (pump_loop on_done fuel _ s) as [[[st1 p1] s1] ev1] eqn:Hl.
  apply (pump_loop_spec on_done (chunk_ p) Hc Hadd) in Hl as (_ & _ & _ & _ & Heq & Hfin & _); [|done|done].
  destruct st1; intros [= <- <- <- <-]; simpl in *; split; auto; done.
Qed.

(** A sender for the witnesses: takes [n] frames, then refuses. *)
#[local] Instance countdown : ChannelSender nat := fun _ n => match n with O => Ok (O, false) | S n' => Ok (n', true) end.

Definition demo_transfer (n : nat) : BlobTransfer :=
  {| t_id := "00000000-0000-0000-0000-00000000000a"; t_data := repeat x41 n; t_offset := 0; t_done := Some 7%nat; sent_empty := false |}.
Definition demo_pump : BlobPump := {| chunk_ := 2; queue_ := [demo_transfer 3; demo_transfer 0]; pumping_ := false |}.

Lemma demo_transfer_ok n : zlen (repeat x41 n) < 2 ^ 64 -> transfer_ok (demo_transfer n).
Proof. intros Hn. split; simpl; [vm_compute; by eexists | pose proof (zlen_nonneg (repeat x41 n)); lia | done]. Qed.

Lemma pump_sends_in_order_witness :
  exists st p' s' ev, pump (fun _ _ => []) 5 (Some 1%nat) demo_pump = (st, p', s', ev)
    /\ sent ev ++ pending_all 2 (queue_ p') = pending_all 2 (queue_ demo_pump ++ added (fun _ _ => []) ev)
    /\ (st = Finished -> queue_ p' = []).
Proof.
  do 4 eexists. split; [vm_compute; reflexivity|].
  eapply (pump_sends_in_order (fun _ _ => []) 5 1%nat demo_pump); try done.
  repeat constructor; by apply demo_transfer_ok.
Defined.

Lemma pump_ends {S} `{ChannelSender S} on_done fuel (s : S) p :
  chunk_size_ok (chunk_ p) -> Forall transfer_ok (queue_ p) -> (forall d ok, on_done d ok = []) ->
  (length (queue_ p) <= fuel)%nat ->
  let st := (pump on_done fuel (Some s) p).1.1.1 in
  st <> OutOfFuel /\ forall e, st = Threw e ->
    exists f s0, send_binary f s0 = Throw e /\ zlen f <= HEADER_BYTES + chunk_ p.
Proof.
  intros Hc Hq Hnone Hfuel. unfold pump. destruct (pumping_ p); [done|].
  destruct (pump_loop on_done fuel _ s) as [[[st1 p1] s1] ev1] eqn:Hl.
  apply (pump_loop_spec on_done (chunk_ p) Hc) in Hl as (_ & _ & _ & Hthrew & _ & _ & Hfuel'); [| |done|done].
  - destruct st1; simpl; split; auto; done.
  - intros. by rewrite Hnone.
Qed.



(** ** From one end to the other *)
(** A receiver: each frame is parsed and, when it parses, handed to the assembler. *)
Definition receive (now : Z) (a : BlobAssembler) (frames : list (list byte)) : BlobAssembler :=
  foldl (fun a f => match parse_chunk f with Some c => (on_chunk c now a).1 | None => a end) a frames.

Lemma receive_cut idb len ps now : forall a off, length idb = 16%nat -> 0 <= off -> off + zlen (mjoin ps) = len -> len < 2 ^ 64 ->
  Forall (fun p => zlen p <= MAX_CHUNK_PAYLOAD) ps ->
  receive now a (frames_from idb len off ps) = asm_run a (cut (uuid_text idb) len off ((fun p => (p, now)) <$> ps)).
Proof.
  induction ps as [|p ps IH]; intros a off Hid Hoff Hsum Hlen Hps; [done|].
  apply Forall_cons in Hps as [Hp Hps]. cbn [frames_from fmap list_fmap cut]. unfold receive, asm_run. cbn [foldl].
  simpl mjoin in Hsum. rewrite zlen_app in Hsum. pose proof (zlen_nonneg (mjoin ps)). pose proof (zlen_nonneg p).
  rewrite parse_raw_frame by (done || lia). simpl asm_step.
  apply IH; [done | lia | lia | done | done].
Qed.


