(* ===== verification/ControlDomains.v ===== *)
(** * ControlDomains: who holds each control domain, and when that ends (core/control_domains.cpp)

    Time points are nanoseconds of the steady clock, [since_ms] unix milliseconds; both are
    arguments, as in the source. The session manager carries out what an operation returns: a
    [Change] whose [c_release] names an operator makes it release that operator's input. *)

From Stdlib Require Import ZArith Lia String.
From stdpp Require Import base list strings.
From S2P Require Import Prelude StdMap Json Protocol.

Definition DESKTOP_IDLE : Z := 5 * 10 ^ 9.
Definition STALE : Z := 30 * 10 ^ 9.

Record Holder := { h_op : OperatorInfo; since_ms : Z; last_input : Z; last_heartbeat : Z }.
Record Change := { c_domain : string; c_release : option string; why : string }.
Inductive Outcome := Allowed | Held.
Record ControlDomains := { held_ : list (string * Holder); idle_previous_ : list (string * string) }.

Definition known (domain : string) : bool := String.eqb domain "desktop" || String.eqb domain "motion".

Definition claim (domain : string) (op : OperatorInfo) (now now_ms : Z) (w : string) (d : ControlDomains) : ControlDomains * Change :=
  let r0 := match sm_find domain (held_ d) with
            | Some h => if negb (String.eqb (op_id (h_op h)) (op_id op)) then Some (op_id (h_op h)) else None
            | None => None
            end in
  let '(r1, idle) := match sm_find domain (idle_previous_ d) with
                     | Some prev => (match r0 with
                                     | None => if negb (String.eqb prev (op_id op)) then Some prev else None
                                     | Some _ => r0
                                     end, sm_erase domain (idle_previous_ d))
                     | None => (r0, idle_previous_ d)
                     end in
  ({| held_ := sm_set domain {| h_op := op; since_ms := now_ms; last_input := now; last_heartbeat := now |} (held_ d);
      idle_previous_ := idle |},
   {| c_domain := domain; c_release := r1; why := w |}).

Definition input (domain : string) (op : OperatorInfo) (now now_ms : Z) (d : ControlDomains) : ControlDomains * (Outcome * option Change) :=
  match sm_find domain (held_ d) with
  | None => let '(d', c) := claim domain op now now_ms "claim" d in (d', (Allowed, Some c))
  | Some h =>
    if negb (String.eqb (op_id (h_op h)) (op_id op)) then (d, (Held, None))
    else ({| d with held_ := sm_set domain {| h with last_input := now |} (held_ d) |}, (Allowed, None))
  end.

Definition take_control (domain : string) (op : OperatorInfo) (now now_ms : Z) (d : ControlDomains) : ControlDomains * option Change :=
  match sm_find domain (held_ d) with
  | Some h =>
    if String.eqb (op_id (h_op h)) (op_id op) then
      ({| d with held_ := sm_set domain {| h with last_input := now |} (held_ d) |}, None)
    else let '(d', c) := claim domain op now now_ms "take" d in (d', Some c)
  | None => let '(d', c) := claim domain op now now_ms "take" d in (d', Some c)
  end.

Definition release (domain : string) (operator_id : string) (d : ControlDomains) : ControlDomains * option Change :=
  match sm_find domain (held_ d) with
  | Some h =>
    if negb (String.eqb (op_id (h_op h)) operator_id) then (d, None)
    else ({| d with held_ := sm_erase domain (held_ d) |}, Some {| c_domain := domain; c_release := Some operator_id; why := "release" |})
  | None => (d, None)
  end.

Definition gone (domain : string) (operator_id : string) (d : ControlDomains) : ControlDomains * option Change :=
  let idle := match sm_find domain (idle_previous_ d) with
              | Some prev => if String.eqb prev operator_id then sm_erase domain (idle_previous_ d) else idle_previous_ d
              | None => idle_previous_ d
              end in
  let d1 := {| d with idle_previous_ := idle |} in
  match sm_find domain (held_ d) with
  | Some h =>
    if negb (String.eqb (op_id (h_op h)) operator_id) then (d1, None)
    else ({| d1 with held_ := sm_erase domain (held_ d) |}, Some {| c_domain := domain; c_release := None; why := "gone" |})
  | None => (d1, None)
  end.

Definition heartbeat (operator_id : string) (now : Z) (d : ControlDomains) : ControlDomains :=
  {| d with held_ := map (fun kv => (kv.1, if String.eqb (op_id (h_op kv.2)) operator_id
                                           then {| (kv.2) with last_heartbeat := now |} else kv.2)) (held_ d) |}.

Definition is_stale (now : Z) (h : Holder) : bool := STALE <? now - last_heartbeat h.
Definition is_idle (domain : string) (now : Z) (h : Holder) : bool :=
  String.eqb domain "desktop" && (DESKTOP_IDLE <? now - last_input h).

(** The loop over [held_]: what stays, the idle map and the changes so far. *)
Fixpoint expire_loop (now : Z) (l : list (string * Holder)) (idle : list (string * string)) (out : list Change)
  : list (string * Holder) * list (string * string) * list Change :=
  match l with
  | [] => ([], idle, out)
  | (domain, h) :: l' =>
    if is_stale now h then
      expire_loop now l' idle (out ++ [{| c_domain := domain; c_release := Some (op_id (h_op h)); why := "stale" |}])
    else if is_idle domain now h then
      expire_loop now l' (sm_set domain (op_id (h_op h)) idle) (out ++ [{| c_domain := domain; c_release := None; why := "idle" |}])
    else let '(kept, idle', out') := expire_loop now l' idle out in ((domain, h) :: kept, idle', out')
  end.
Definition expire (now : Z) (d : ControlDomains) : ControlDomains * list Change :=
  let '(kept, idle, out) := expire_loop now (held_ d) (idle_previous_ d) [] in
  ({| held_ := kept; idle_previous_ := idle |}, out).

Definition holder (domain : string) (d : ControlDomains) : option Holder := sm_find domain (held_ d).
Definition any_held (d : ControlDomains) : bool := match held_ d with [] => false | _ => true end.
Definition no_domains : ControlDomains := {| held_ := []; idle_previous_ := [] |}.

(** ** Expiry *)
Lemma expire_loop_kept now l : forall idle out, (expire_loop now l idle out).1.1 = sm_filter (fun k h => negb (is_stale now h || is_idle k now h)) l.
Proof.
  induction l as [|[k h] l IH]; intros idle out; simpl; [done|]. destruct (is_stale now h), (is_idle k now h); simpl; rewrite ?IH; try done.
  rewrite <- (IH idle out). by destruct (expire_loop now l idle out) as [[? ?] ?].
Qed.

Lemma expire_loop_idle now l k : forall idle out, sm_wf l ->
  sm_find k (expire_loop now l idle out).1.2 = match sm_find k l with
    | Some h => if negb (is_stale now h) && is_idle k now h then Some (op_id (h_op h)) else sm_find k idle
    | None => sm_find k idle
    end.
Proof.
  induction l as [|[k' h] l IH]; intros idle out Hwf; [done|]. apply sm_wf_cons in Hwf as [Hwf Hnone].
  cbn [expire_loop sm_find]. destruct (keqb_spec k k') as [<-|Hk].
  - destruct (is_stale now h); simpl; [by rewrite IH, Hnone by done|]. destruct (is_idle k now h); simpl.
    + by rewrite IH, Hnone, sm_find_set_eq by done.
    + pose proof (IH idle out Hwf) as E. rewrite Hnone in E. by destruct (expire_loop now l idle out) as [[? ?] ?].
  - destruct (is_stale now h); simpl; [by rewrite IH by done|]. destruct (is_idle k' now h); simpl.
    + rewrite IH by done. by rewrite sm_find_set_ne by done.
    + pose proof (IH idle out Hwf) as E. by destruct (expire_loop now l idle out) as [[? ?] ?].
Qed.

Lemma expire_loop_out now l : forall idle out, exists more, (expire_loop now l idle out).2 = out ++ more
  /\ forall k h, In (k, h) l -> is_stale now h = true -> In {| c_domain := k; c_release := Some (op_id (h_op h)); why := "stale" |} more.
Proof.
  induction l as [|[k h] l IH]; intros idle out; cbn [expire_loop].
  - exists []. by rewrite app_nil_r.
  - destruct (is_stale now h) eqn:Es; [|destruct (is_idle k now h)].
    + edestruct IH as (more & -> & Hm). eexists. rewrite <- app_assoc. split; [done|].
      intros k' h' [[= -> ->]|Hin] Hst; simpl; [by left|right; by apply Hm].
    + edestruct IH as (more & -> & Hm). eexists. rewrite <- app_assoc. split; [done|].
      intros k' h' [[= -> ->]|Hin] Hst; simpl; [congruence|right; by apply Hm].
    + destruct (IH idle out) as (more & E & Hm). destruct (expire_loop now l idle out) as [[? ?] ?]. simpl in *.
      exists more. split; [done|]. intros k' h' [[= -> ->]|Hin] Hst; [congruence|by apply Hm].
Qed.

Definition domains_wf (d : ControlDomains) : Prop := sm_wf (held_ d).

Lemma expire_held now d k : domains_wf d -> sm_find k (held_ (expire now d).1) =
  match sm_find k (held_ d) with Some h => if is_stale now h || is_idle k now h then None else Some h | None => None end.
Proof.
  intros Hwf. unfold expire. pose proof (expire_loop_kept now (held_ d) (idle_previous_ d) []) as E.
  destruct (expire_loop _ _ _ _) as [[kept idle] out]. simpl in *. subst kept. rewrite sm_filter_find by done.
  destruct (sm_find k (held_ d)); [|done]. by destruct (is_stale _ _ || is_idle _ _ _).
Qed.
Lemma expire_idle now d k : domains_wf d -> sm_find k (idle_previous_ (expire now d).1) =
  match sm_find k (held_ d) with
  | Some h => if negb (is_stale now h) && is_idle k now h then Some (op_id (h_op h)) else sm_find k (idle_previous_ d)
  | None => sm_find k (idle_previous_ d)
  end.
Proof.
  intros Hwf. unfold expire. pose proof (expire_loop_idle now (held_ d) k (idle_previous_ d) [] Hwf) as E.
  by destruct (expire_loop _ _ _ _) as [[kept idle] out].
Qed.
Lemma expire_stale_change now d k h : sm_find k (held_ d) = Some h -> is_stale now h = true ->
  In {| c_domain := k; c_release := Some (op_id (h_op h)); why := "stale" |} (expire now d).2.
Proof.
  intros Hf Hs. unfold expire. destruct (expire_loop_out now (held_ d) (idle_previous_ d) []) as (more & E & Hm).
  destruct (expire_loop _ _ _ _) as [[kept idle] out]. simpl in *. subst out. apply Hm; [|done]. by apply sm_find_In.
Qed.

(** ** Sequences of operations, and the input that is still to be released *)
Inductive Op :=
| OInput (domain : string) (op : OperatorInfo) (now ms : Z)
| OTake (domain : string) (op : OperatorInfo) (now ms : Z)
| ORelease (domain operator_id : string)
| OGone (domain operator_id : string)
| OHeartbeat (operator_id : string) (now : Z)
| OExpire (now : Z).

(** [pressed]: per domain, the operator whose accepted input has not been released since. The
    manager releases what a change names before anything else happens in the domain, and every
    session of a [gone] operator has released its own input. *)
Definition pressed := list (string * string).
Definition released (d : string) (r : option string) (g : pressed) : pressed :=
  match r with
  | Some op => if bool_decide (sm_find d g = Some op) then sm_erase d g else g
  | None => g
  end.
Definition apply_change (g : pressed) (c : Change) : pressed := released (c_domain c) (c_release c) g.
Definition apply_opt (g : pressed) (c : option Change) : pressed := match c with Some c => apply_change g c | None => g end.

Definition step (s : ControlDomains * pressed) (o : Op) : ControlDomains * pressed :=
  let '(d, g) := s in
  match o with
  | OInput dom op now ms =>
    let '(d', (oc, ch)) := input dom op now ms d in
    (d', match oc with Allowed => sm_set dom (op_id op) (apply_opt g ch) | Held => apply_opt g ch end)
  | OTake dom op now ms => let '(d', ch) := take_control dom op now ms d in (d', apply_opt g ch)
  | ORelease dom id => let '(d', ch) := release dom id d in (d', apply_opt g ch)
  | OGone dom id => let '(d', ch) := gone dom id d in (d', released dom (Some id) (apply_opt g ch))
  | OHeartbeat id now => (heartbeat id now d, g)
  | OExpire now => let '(d', chs) := expire now d in (d', foldl apply_change g chs)
  end.
Definition run (ops : list Op) : ControlDomains * pressed := foldl step (no_domains, []) ops.

(** Unreleased input is always accounted for: its operator holds the domain, or was the last
    holder of a domain that went idle. *)
Definition accounted (d : ControlDomains) (g : pressed) : Prop :=
  forall k p, sm_find k g = Some p ->
    (exists h, sm_find k (held_ d) = Some h /\ op_id (h_op h) = p)
    \/ (sm_find k (held_ d) = None /\ sm_find k (idle_previous_ d) = Some p).

Lemma released_find d r g k p : sm_find k (released d r g) = Some p -> sm_find k g = Some p /\ (k = d -> r <> Some p).
Proof.
  unfold released. destruct r as [op|]; [|by intros ->]. case_bool_decide as Hd.
  - destruct (decide (k = d)) as [->|Hk]; [by rewrite sm_find_erase_eq|]. rewrite sm_find_erase_ne by done. intros ->. by split.
  - intros Hf. split; [done|]. intros -> [= ->]. done.
Qed.

Lemma claim_spec dom op now ms w d d' c : claim dom op now ms w d = (d', c) ->
  held_ d' = sm_set dom {| h_op := op; since_ms := ms; last_input := now; last_heartbeat := now |} (held_ d)
  /\ (forall k, k <> dom -> sm_find k (idle_previous_ d') = sm_find k (idle_previous_ d))
  /\ sm_find dom (idle_previous_ d') = None /\ c_domain c = dom
  /\ (forall h, sm_find dom (held_ d) = Some h -> op_id (h_op h) <> op_id op -> c_release c = Some (op_id (h_op h)))
  /\ (forall p, sm_find dom (held_ d) = None -> sm_find dom (idle_previous_ d) = Some p -> p <> op_id op -> c_release c = Some p).
Proof.
  unfold claim. destruct (sm_find dom (idle_previous_ d)) as [prev|] eqn:Hi; intros [= <- <-]; simpl.
  - rewrite sm_find_erase_eq. split_and!; try done.
    + intros k Hk. by rewrite sm_find_erase_ne.
    + intros h -> Hne. by rewrite (proj2 (String.eqb_neq _ _)).
    + intros p -> [= ->] Hne. by rewrite (proj2 (String.eqb_neq _ _)).
  - split_and!; try done. intros h -> Hne. by rewrite (proj2 (String.eqb_neq _ _)).
Qed.

Lemma claim_accounted dom op now ms w d d' c g : claim dom op now ms w d = (d', c) -> accounted d g ->
  accounted d' (apply_change g c) /\ forall p, sm_find dom (apply_change g c) = Some p -> p = op_id op.
Proof.
  intros (Hh & Hi & Hi0 & Hcd & Hr1 & Hr2)%claim_spec Hacc.
  assert (forall p, sm_find dom (apply_change g c) = Some p -> p = op_id op) as Hmine.
  { intros p [Hf Hr]%released_find. specialize (Hr (eq_sym Hcd)). destruct (decide (p = op_id op)); [done|]. exfalso.
    destruct (Hacc _ _ Hf) as [(h & Hfh & <-)|[Hfh Hfi]]; [by apply Hr, Hr1 | by apply Hr, Hr2]. }
  split; [|done]. intros k p Hf. destruct (decide (k = dom)) as [->|Hk].
  - left. rewrite Hh, sm_find_set_eq. eexists. split; [done|]. simpl. symmetry. by apply Hmine.
  - apply released_find in Hf as [Hf _]. rewrite Hh, sm_find_set_ne, Hi by done. by apply Hacc.
Qed.

(** Refreshing a holder's clocks changes neither who holds nor who was idle. *)
Lemma refresh_accounted dom h h' d g : sm_find dom (held_ d) = Some h -> h_op h' = h_op h -> accounted d g ->
  accounted {| d with held_ := sm_set dom h' (held_ d) |} g.
Proof.
  intros Hf Ho Hacc k p Hp. specialize (Hacc k p Hp). simpl. destruct (decide (k = dom)) as [->|Hk].
  - rewrite sm_find_set_eq. left. exists h'. rewrite Hf in Hacc. split; [done|]. destruct Hacc as [(h0 & [= <-] & <-)|[? _]]; [by rewrite Ho|done].
  - by rewrite sm_find_set_ne.
Qed.

Lemma input_accounted dom op now ms d d' oc ch g : input dom op now ms d = (d', (oc, ch)) -> accounted d g ->
  accounted d' (apply_opt g ch) /\ (oc = Held -> d' = d) /\
  (oc = Allowed -> (exists h, sm_find dom (held_ d') = Some h /\ op_id (h_op h) = op_id op)
                   /\ forall p, sm_find dom (apply_opt g ch) = Some p -> p = op_id op).
Proof.
  unfold input. intros Hin Hacc. destruct (sm_find dom (held_ d)) as [h|] eqn:Hf.
  - destruct (String.eqb_spec (op_id (h_op h)) (op_id op)) as [E|E]; injection Hin as <- <- <-; [|done].
    split_and!; [by eapply refresh_accounted | done | intros _; split].
    + exists {| h with last_input := now |}. simpl. by rewrite sm_find_set_eq.
    + intros p Hp. destruct (Hacc _ _ Hp) as [(h0 & Hh & <-)|[? _]]; congruence.
  - destruct (claim dom op now ms "claim" d) as [d1 c] eqn:Hc. injection Hin as <- <- <-.
    pose proof (claim_accounted _ _ _ _ _ _ _ _ _ Hc Hacc) as [? ?]. split_and!; [done | done |]. intros _. split; [|done].
    apply claim_spec in Hc as (-> & _). rewrite sm_find_set_eq. by eexists.
Qed.

Lemma accounted_lower d g g' : (forall k p, sm_find k g' = Some p -> sm_find k g = Some p) -> accounted d g -> accounted d g'.
Proof. intros Hs Hacc k p Hp. by apply Hacc, Hs. Qed.

(** Dropping a holder whose own input is released with it. *)
Lemma drop_accounted dom id h d g : sm_find dom (held_ d) = Some h -> op_id (h_op h) = id -> accounted d g ->
  sm_find dom g <> Some id -> accounted {| d with held_ := sm_erase dom (held_ d) |} g.
Proof.
  intros Hf Ho Hacc Hr k p Hp. destruct (decide (k = dom)) as [->|Hk]; simpl.
  - destruct (Hacc _ _ Hp) as [(h0 & Hh & <-)|[? _]]; congruence.
  - rewrite sm_find_erase_ne by done. by apply Hacc.
Qed.
Lemma released_not d id g : sm_find d (released d (Some id) g) <> Some id.
Proof. intros [_ Hr]%released_find. by apply Hr. Qed.
Lemma released_accounted d k r g : accounted d g -> accounted d (released k r g).
Proof. intros Ha. eapply accounted_lower; [|exact Ha]. by intros ? ? [? _]%released_find. Qed.

Lemma foldl_changes_find chs : forall g k p, sm_find k (foldl apply_change g chs) = Some p ->
  sm_find k g = Some p /\ forall c, In c chs -> c_domain c = k -> c_release c <> Some p.
Proof.
  induction chs as [|c chs IH]; intros g k p Hf; simpl in *; [done|]. apply IH in Hf as [Hf Hc].
  apply released_find in Hf as [Hf Hr]. split; [done|]. intros c' [<-|Hin] Hd; [by apply Hr | by apply Hc].
Qed.

Lemma expire_accounted now d g : domains_wf d -> accounted d g ->
  accounted (expire now d).1 (foldl apply_change g (expire now d).2).
Proof.
  intros Hwf Hacc k p [Hp Hc]%foldl_changes_find. rewrite expire_held, expire_idle by done.
  destruct (Hacc k p Hp) as [(h & Hf & <-)|[Hf Hi]]; rewrite Hf; [|by right].
  destruct (is_stale now h) eqn:Es.
  - exfalso. by apply (Hc _ (expire_stale_change _ _ _ _ Hf Es)).
  - simpl. destruct (is_idle k now h); [by right | left; by eexists].
Qed.

Lemma heartbeat_find id now d k : sm_find k (held_ (heartbeat id now d)) =
  (fun h => if String.eqb (op_id (h_op h)) id then {| h with last_heartbeat := now |} else h) <$> sm_find k (held_ d).
Proof. apply (sm_find_map (fun h => if String.eqb (op_id (h_op h)) id then {| h with last_heartbeat := now |} else h)). Qed.

Lemma heartbeat_wf id now d : domains_wf d -> domains_wf (heartbeat id now d).
Proof. apply (sm_wf_map (fun h => if String.eqb (op_id (h_op h)) id then {| h with last_heartbeat := now |} else h)). Qed.

Lemma claim_wf dom op now ms w d d' c : claim dom op now ms w d = (d', c) -> domains_wf d -> domains_wf d'.
Proof. intros (Hh & _)%claim_spec Hwf. unfold domains_wf. rewrite Hh. by apply sm_wf_set. Qed.

Lemma step_wf s o : domains_wf s.1 -> domains_wf (step s o).1.
Proof.
  destruct s as [d g]. intros Hwf. simpl in Hwf. destruct o as [dom op now ms|dom op now ms|dom id|dom id|id now|now]; simpl.
  - unfold input. destruct (sm_find dom (held_ d)); [destruct (String.eqb _ _); simpl; [by apply sm_wf_set | done]|].
    destruct (claim _ _ _ _ _ _) eqn:Hc. by eapply claim_wf.
  - unfold take_control. destruct (sm_find dom (held_ d)); [destruct (String.eqb _ _); [by apply sm_wf_set|]|];
      destruct (claim _ _ _ _ _ _) eqn:Hc; by eapply claim_wf.
  - unfold release. destruct (sm_find dom (held_ d)); [destruct (String.eqb _ _)|]; try done. by apply sm_wf_erase.
  - unfold gone. destruct (sm_find dom (held_ d)); [destruct (String.eqb _ _)|]; try done. by apply sm_wf_erase.
  - by apply heartbeat_wf.
  - unfold expire. pose proof (expire_loop_kept now (held_ d) (idle_previous_ d) []) as E.
    destruct (expire_loop _ _ _ _) as [[kept idle] out]. simpl in *. subst kept. by apply sm_wf_filter.
Qed.

Lemma step_accounted s o : domains_wf s.1 -> accounted s.1 s.2 -> accounted (step s o).1 (step s o).2.
Proof.
  destruct s as [d g]. simpl. intros Hwf Hacc. destruct o as [dom op now ms|dom op now ms|dom id|dom id|id now|now]; simpl.
  - destruct (input dom op now ms d) as [d' [oc ch]] eqn:Hin.
    destruct (input_accounted _ _ _ _ _ _ _ _ _ Hin Hacc) as (Ha & Hheld & Hall). destruct oc; simpl; [|done].
    destruct Hall as [(h & Hh & Hop) _]; [done|]. intros k p Hp. destruct (decide (k = dom)) as [->|Hk].
    + rewrite sm_find_set_eq in Hp. injection Hp as <-. left. by eexists.
    + rewrite sm_find_set_ne in Hp by done. by apply Ha.
  - unfold take_control. destruct (sm_find dom (held_ d)) as [h|] eqn:Hf; [destruct (String.eqb _ _)|];
      try (destruct (claim _ _ _ _ _ _) eqn:Hc; simpl; by eapply claim_accounted). simpl. by eapply refresh_accounted.
  - unfold release. destruct (sm_find dom (held_ d)) as [h|] eqn:Hf; [|done].
    destruct (String.eqb_spec (op_id (h_op h)) id) as [E|E]; simpl; [|done].
    eapply drop_accounted; [done | done | by apply released_accounted | apply released_not].
  - unfold gone. set (d1 := {| d with idle_previous_ := _ |}).
    assert (accounted d1 (released dom (Some id) g)) as H1.
    { intros k p [Hp Hr]%released_find. destruct (Hacc k p Hp) as [?|[Hn Hi]]; [by left|]. right. split; [done|]. simpl.
      destruct (sm_find dom (idle_previous_ d)) as [prev|] eqn:Hd; [|done]. destruct (String.eqb_spec prev id) as [<-|]; [|done].
      destruct (decide (k = dom)) as [->|Hk]; [exfalso; apply Hr; congruence|]. by rewrite sm_find_erase_ne. }
    destruct (sm_find dom (held_ d)) as [h|] eqn:Hf; [|done]. destruct (String.eqb_spec (op_id (h_op h)) id) as [E|E]; simpl; [|done].
    eapply (drop_accounted dom id h d1); [done | done | exact H1 | apply released_not].
  - intros k p Hp. rewrite heartbeat_find. destruct (Hacc k p Hp) as [(h & -> & <-)|[-> ?]]; [left|by right].
    simpl. eexists. split; [done|]. by case_match.
  - pose proof (expire_accounted now d g Hwf Hacc). by destruct (expire now d).
Qed.

Lemma run_inv ops : domains_wf (run ops).1 /\ accounted (run ops).1 (run ops).2.
Proof.
  unfold run. enough (forall s, domains_wf s.1 /\ accounted s.1 s.2 -> domains_wf (foldl step s ops).1
    /\ accounted (foldl step s ops).1 (foldl step s ops).2) as Hgen by (apply Hgen; split; [apply sm_wf_nil|done]).
  induction ops as [|o ops IH]; intros s [Hw Ha]; simpl; [done|]. apply IH. split; [by apply step_wf | by apply step_accounted].
Qed.

(** ** What the domains promise *)
(** C26: input is exclusive. After any sequence of operations, an input in a domain either is
    refused (and changes nothing), because another operator holds the domain, or is accepted, and
    then its operator holds the domain and, once the returned change is carried out, no other
    operator has input left to release there. *)
Theorem control_exclusive ops dom op now ms d' oc ch :
  input dom op now ms (run ops).1 = (d', (oc, ch)) ->
  match oc with
  | Held => d' = (run ops).1 /\ exists h, holder dom d' = Some h /\ op_id (h_op h) <> op_id op
  | Allowed => (exists h, holder dom d' = Some h /\ op_id (h_op h) = op_id op)
               /\ forall p, sm_find dom (apply_opt (run ops).2 ch) = Some p -> p = op_id op
  end.
Proof.
  intros Hin. destruct (run_inv ops) as [_ Hacc]. destruct (input_accounted _ _ _ _ _ _ _ _ _ Hin Hacc) as (_ & Hheld & Hall).
  destruct oc; [by apply Hall|]. split; [by apply Hheld|]. rewrite Hheld by done. unfold input, holder in *.
  destruct (sm_find dom _) as [h|]; [|by destruct (claim _ _ _ _ _ _)].
  destruct (String.eqb_spec (op_id (h_op h)) (op_id op)); [done|]. by eexists.
Qed.

Definition alice : OperatorInfo := {| op_id := "alice"; op_label := "Alice" |}.
Definition bob : OperatorInfo := {| op_id := "bob"; op_label := "Bob" |}.
Lemma control_exclusive_witness :
  exists d' ch, input "desktop" bob (9 * 10 ^ 9) 0 (run [OInput "desktop" alice 0 0; OHeartbeat "alice" (8 * 10 ^ 9); OExpire (8 * 10 ^ 9)]).1
    = (d', (Allowed, ch)) /\ ch = Some {| c_domain := "desktop"; c_release := Some "alice"; why := "claim" |}
  /\ (exists h, holder "desktop" d' = Some h /\ op_id (h_op h) = op_id bob)
  /\ forall p, sm_find "desktop" (apply_opt [("desktop", "alice")] ch) = Some p -> p = op_id bob.
Proof.
  do 2 eexists. split; [vm_compute; reflexivity|]. split; [reflexivity|].
  exact (control_exclusive [OInput "desktop" alice 0 0; OHeartbeat "alice" (8 * 10 ^ 9); OExpire (8 * 10 ^ 9)] "desktop" bob
    (9 * 10 ^ 9) 0 _ Allowed _ eq_refl).
Defined.

(** [expire] ends exactly the claims docs/10 says it does: a holder keeps its domain if and
    only if its last heartbeat is at most 30 s old and, on the desktop, its last input at most
    5 s; and every claim it ends for staleness names its operator for release at once. *)
Theorem expire_exact ops now dom h :
  (holder dom (expire now (run ops).1).1 = Some h <->
   holder dom (run ops).1 = Some h /\ now - last_heartbeat h <= STALE /\ (dom = "desktop" -> now - last_input h <= DESKTOP_IDLE))
  /\ (holder dom (run ops).1 = Some h -> STALE < now - last_heartbeat h ->
      exists c, In c (expire now (run ops).1).2 /\ c_domain c = dom /\ c_release c = Some (op_id (h_op h))).
Proof.
  destruct (run_inv ops) as [Hwf _]. split.
  - unfold holder. rewrite expire_held by done. destruct (sm_find dom _) as [h'|]; [|naive_solver].
    unfold is_stale, is_idle. destruct (String.eqb_spec dom "desktop"); repeat case_bool; simpl; split; intros Hx; try naive_solver lia.
  - intros Hh Hs. eexists. split; [apply expire_stale_change; [done|]; by apply Z.ltb_lt | done].
Qed.

(** Nobody is locked out: whoever holds a domain, once its holder's heartbeat is more than
    30 s old the next [expire] followed by an input of any operator is accepted. *)
Theorem stale_holder_yields ops now dom h op ms :
  holder dom (run ops).1 = Some h -> STALE < now - last_heartbeat h ->
  let '(_, (oc, ch)) := input dom op now ms (expire now (run ops).1).1 in oc = Allowed /\ exists c, ch = Some c.
Proof.
  intros Hh Hs. destruct (run_inv ops) as [Hwf _]. unfold input. rewrite expire_held by done. unfold holder in Hh. rewrite Hh.
  unfold is_stale. rewrite (proj2 (Z.ltb_lt _ _) Hs). simpl. destruct (claim _ _ _ _ _ _). split; [done|by eexists].
Qed.
Lemma stale_holder_yields_witness :
  let d := (run [OInput "motion" alice 0 0]).1 in
  let '(_, (oc, ch)) := input "motion" bob (31 * 10 ^ 9) 0 (expire (31 * 10 ^ 9) d).1 in oc = Allowed /\ exists c, ch = Some c.
Proof.
  apply (stale_holder_yields [OInput "motion" alice 0 0] (31 * 10 ^ 9) "motion" {| h_op := alice; since_ms := 0; last_input := 0; last_heartbeat := 0 |} bob 0);
    [reflexivity | vm_compute; reflexivity].
Defined.
