(* ===== verification/ControlRefinement.v ===== *)
(** * ControlRefinement: the control domains as independent locks

    What docs/10 promises of control is a lock per domain: free, held, or free with an operator
    whose keys may still be down. [ControlDomains] keeps all of them in two maps with clocks. Seen
    from one domain every operation is a step of that domain's lock, with the answer and the
    releases the lock prescribes; what happens in other domains is not seen at all. *)

From Stdlib Require Import ZArith Lia String.
From stdpp Require Import base list strings.
From S2P Require Import Prelude StdMap Json Protocol ControlDomains.

(** ** The lock *)
Inductive Lock := Free | Left_idle (last : string) | Taken (who : string).
(** The lock passes to [o]: what must be released is the input of whoever had it, if another. *)
Definition other (o last : string) : option string := if String.eqb last o then None else Some last.
(** [lock_step dom l op l' ans rel]: on the lock of [dom], [op] may lead from [l] to [l'], answering
    [ans] to an input and reporting one entry of [rel] per change of the domain. *)
Inductive lock_step (dom : string) : Lock -> Op -> Lock -> option Outcome -> list (option string) -> Prop :=
| LClaim o now ms : lock_step dom Free (OInput dom o now ms) (Taken (op_id o)) (Some Allowed) [None]
| LReclaim o now ms l : lock_step dom (Left_idle l) (OInput dom o now ms) (Taken (op_id o)) (Some Allowed) [other (op_id o) l]
| LInput o now ms : lock_step dom (Taken (op_id o)) (OInput dom o now ms) (Taken (op_id o)) (Some Allowed) []
| LRefused o now ms h : h <> op_id o -> lock_step dom (Taken h) (OInput dom o now ms) (Taken h) (Some Held) []
| LTake o now ms : lock_step dom Free (OTake dom o now ms) (Taken (op_id o)) None [None]
| LTakeIdle o now ms l : lock_step dom (Left_idle l) (OTake dom o now ms) (Taken (op_id o)) None [other (op_id o) l]
| LTakeOver o now ms h : h <> op_id o -> lock_step dom (Taken h) (OTake dom o now ms) (Taken (op_id o)) None [Some h]
| LTakeOwn o now ms : lock_step dom (Taken (op_id o)) (OTake dom o now ms) (Taken (op_id o)) None []
| LRelease h : lock_step dom (Taken h) (ORelease dom h) Free None [Some h]
| LReleaseNot l h : l <> Taken h -> lock_step dom l (ORelease dom h) l None []
| LGone h : lock_step dom (Taken h) (OGone dom h) Free None [None]
| LGoneIdle h : lock_step dom (Left_idle h) (OGone dom h) Free None []
| LGoneNot l h : l <> Taken h -> l <> Left_idle h -> lock_step dom l (OGone dom h) l None []
| LStale h now : lock_step dom (Taken h) (OExpire now) Free None [Some h]
| LIdle h now : dom = "desktop" -> lock_step dom (Taken h) (OExpire now) (Left_idle h) None [None]
| LNothing l now : lock_step dom l (OExpire now) l None []
| LBeat l id now : lock_step dom l (OHeartbeat id now) l None []
| LElsewhere l o : (forall d op now ms, o = OInput d op now ms \/ o = OTake d op now ms -> d <> dom) ->
    (forall d id, o = ORelease d id \/ o = OGone d id -> d <> dom) -> (forall now, o <> OExpire now) -> lock_step dom l o l None [].

(** ** The implementation, seen from one domain *)
Definition lock_of (dom : string) (d : ControlDomains) : Lock :=
  match sm_find dom (held_ d), sm_find dom (idle_previous_ d) with
  | Some h, _ => Taken (op_id (h_op h))
  | None, Some p => Left_idle p
  | None, None => Free
  end.
(** One operation with everything it returns. *)
Definition perform (d : ControlDomains) (o : Op) : ControlDomains * option (string * Outcome) * list Change :=
  match o with
  | OInput dom op now ms => let '(d', (oc, ch)) := input dom op now ms d in (d', Some (dom, oc), option_list ch)
  | OTake dom op now ms => let '(d', ch) := take_control dom op now ms d in (d', None, option_list ch)
  | ORelease dom id => let '(d', ch) := release dom id d in (d', None, option_list ch)
  | OGone dom id => let '(d', ch) := gone dom id d in (d', None, option_list ch)
  | OHeartbeat id now => (heartbeat id now d, None, [])
  | OExpire now => let '(d', chs) := expire now d in (d', None, chs)
  end.
Definition answer_in (dom : string) (a : option (string * Outcome)) : option Outcome :=
  match a with Some (k, oc) => if String.eqb k dom then Some oc else None | None => None end.
Definition releases_in (dom : string) (l : list Change) : list (option string) := c_release <$> List.filter (fun c => String.eqb (c_domain c) dom) l.
Definition performed (ops : list Op) (d : ControlDomains) : ControlDomains := foldl (fun d o => (perform d o).1.1) d ops.

(** A held domain has no idle predecessor left. *)
Definition settled (d : ControlDomains) : Prop := domains_wf d /\ forall k h, sm_find k (held_ d) = Some h -> sm_find k (idle_previous_ d) = None.

Lemma step_performs d g o : (step (d, g) o).1 = (perform d o).1.1.
Proof. destruct o; simpl; by repeat case_match. Qed.

(** What [claim] does to the lock of its own domain and to the others. *)
Lemma claim_lock dom op now ms w d : settled d -> let '(d', c) := claim dom op now ms w d in
  settled d' /\ lock_of dom d' = Taken (op_id op) /\ (forall k, k <> dom -> lock_of k d' = lock_of k d) /\ c_domain c = dom
  /\ c_release c = match lock_of dom d with Free => None | Left_idle l => other (op_id op) l | Taken h => other (op_id op) h end.
Proof.
  intros [Hwf Hs]. destruct (claim dom op now ms w d) as [d' c] eqn:Ec. pose proof (claim_spec _ _ _ _ _ _ _ _ Ec) as (Hh & Hi & Hn & Hd & _).
  pose proof (claim_wf _ _ _ _ _ _ _ _ Ec Hwf) as Hwf'. split_and!; try done.
  - split; [done|]. intros k h. destruct (decide (k = dom)) as [->|Hk]; [done|]. rewrite Hh, sm_find_set_ne, Hi by done. apply Hs.
  - unfold lock_of. by rewrite Hh, sm_find_set_eq.
  - intros k Hk. unfold lock_of. by rewrite Hh, sm_find_set_ne, Hi by done.
  - specialize (Hs dom). unfold claim, lock_of, other in *. destruct (sm_find dom (held_ d)) as [h|].
    + rewrite (Hs h eq_refl) in Ec. injection Ec as <- <-. cbn. by destruct (String.eqb _ _).
    + destruct (sm_find dom (idle_previous_ d)); injection Ec as <- <-; cbn; [by destruct (String.eqb _ _) | done].
Qed.

(** What [expire] reports of one domain. *)
Lemma expire_loop_in now k l : forall idle out, sm_wf l -> releases_in k (expire_loop now l idle out).2 = releases_in k out ++
  match sm_find k l with
  | Some h => if is_stale now h then [Some (op_id (h_op h))] else if is_idle k now h then [None] else []
  | None => []
  end.
Proof.
  unfold releases_in. induction l as [|[k' h] l IH]; intros idle out Hwf; [by rewrite app_nil_r|]. apply sm_wf_cons in Hwf as [Hwf Hnone].
  assert (forall idle out c, c_domain c = k' -> c_release <$> List.filter (fun c => String.eqb (c_domain c) k) (expire_loop now l idle (out ++ [c])).2
    = (c_release <$> List.filter (fun c => String.eqb (c_domain c) k) out) ++ (if String.eqb k' k then [c_release c] else []) ++
      match sm_find k l with Some h => if is_stale now h then [Some (op_id (h_op h))] else if is_idle k now h then [None] else [] | None => [] end) as Hout.
  { intros idle0 out0 c Hc. rewrite IH, List.filter_app, fmap_app, <- app_assoc by done. cbn. rewrite Hc. by destruct (String.eqb k' k). }
  cbn [expire_loop sm_find]. destruct (keqb_spec k k') as [<-|Hk].
  - rewrite Hnone, String.eqb_refl in Hout. destruct (is_stale now h); [by rewrite Hout|]. destruct (is_idle k now h); [by rewrite Hout|].
    pose proof (IH idle out Hwf) as E. rewrite Hnone in E. by destruct (expire_loop now l idle out) as [[? ?] ?].
  - rewrite (proj2 (String.eqb_neq k' k)) in Hout by congruence. destruct (is_stale now h); [by rewrite Hout|]. destruct (is_idle k' now h); [by rewrite Hout|].
    pose proof (IH idle out Hwf) as E. by destruct (expire_loop now l idle out) as [[? ?] ?].
Qed.
Lemma expire_in now k d : domains_wf d -> releases_in k (expire now d).2 = match sm_find k (held_ d) with
  | Some h => if is_stale now h then [Some (op_id (h_op h))] else if is_idle k now h then [None] else []
  | None => []
  end.
Proof. intros Hwf. unfold expire. pose proof (expire_loop_in now k (held_ d) (idle_previous_ d) [] Hwf) as E. by destruct (expire_loop _ _ _ _) as [[? ?] ?]. Qed.
Lemma expire_settled now d : settled d -> settled (expire now d).1.
Proof.
  intros [Hwf Hs]. split; [apply (step_wf (d, []) (OExpire now)) in Hwf; cbn in Hwf; by destruct (expire now d)|].
  intros k h. rewrite expire_held, expire_idle by done. specialize (Hs k). destruct (sm_find k (held_ d)) as [h'|]; [|done]. rewrite (Hs h' eq_refl).
  by destruct (is_stale now h'), (is_idle k now h').
Qed.
Lemma refresh_lock dom h now d k : sm_find dom (held_ d) = Some h -> lock_of k {| d with held_ := sm_set dom {| h with last_input := now |} (held_ d) |} = lock_of k d.
Proof. intros Hf. unfold lock_of. cbn. destruct (decide (k = dom)) as [->|]; [by rewrite sm_find_set_eq, Hf | by rewrite sm_find_set_ne]. Qed.
Lemma refresh_settled dom h now d : sm_find dom (held_ d) = Some h -> settled d -> settled {| d with held_ := sm_set dom {| h with last_input := now |} (held_ d) |}.
Proof.
  intros Hf [Hwf Hs]. split; [by apply sm_wf_set|]. cbn. intros k x. destruct (decide (k = dom)) as [->|]; [intros _; by apply (Hs dom h) | rewrite sm_find_set_ne by done; apply Hs].
Qed.
Lemma drop_settled dom d : settled d -> settled {| d with held_ := sm_erase dom (held_ d) |}.
Proof. intros [Hwf Hs]. split; [by apply sm_wf_erase|]. cbn. intros k x. destruct (decide (k = dom)) as [->|]; [by rewrite sm_find_erase_eq | rewrite sm_find_erase_ne by done; apply Hs]. Qed.
Lemma idle_settled (f : list (string * string) -> list (string * string)) d : (forall m k, sm_find k m = None -> sm_find k (f m) = None) -> settled d ->
  settled {| d with idle_previous_ := f (idle_previous_ d) |}.
Proof. intros Hf [Hwf Hs]. split; [done|]. cbn. intros k h Hk. by eapply Hf, Hs. Qed.

(** ** Each operation is a step of each lock *)
Definition refines (d : ControlDomains) (o : Op) : Prop :=
  let '(d', a, chs) := perform d o in settled d' /\ forall dom, lock_step dom (lock_of dom d) o (lock_of dom d') (answer_in dom a) (releases_in dom chs).
Lemma one_change dom c : releases_in dom [c] = if String.eqb (c_domain c) dom then [c_release c] else [].
Proof. unfold releases_in. cbn. by destruct (String.eqb _ _). Qed.
Ltac other_domain := apply LElsewhere; [intros ? ? ? ? [[=]|[=]]; congruence | intros ? ? [[=]|[=]]; congruence | done].
(** Takes over a free, idle or held domain by [claim]. *)
Lemma claim_refines k op now ms w d (o : Op) a : settled d ->
  o = OInput k op now ms /\ a = Some (k, Allowed) /\ (forall h, lock_of k d <> Taken h) \/ o = OTake k op now ms /\ a = None /\ lock_of k d <> Taken (op_id op) ->
  let '(d', c) := claim k op now ms w d in settled d' /\ forall dom, lock_step dom (lock_of dom d) o (lock_of dom d') (answer_in dom a) (releases_in dom [c]).
Proof.
  intros Hs Ho. pose proof (claim_lock k op now ms w d Hs) as Hc. destruct (claim k op now ms w d) as [d' c]. destruct Hc as (Hs' & Hl & Hother & Hd & Hr).
  split; [done|]. intros dom. rewrite one_change, Hd. destruct (String.eqb_spec k dom) as [<-|Hne].
  - rewrite Hl, Hr. destruct Ho as [(-> & -> & Hf)|(-> & -> & Hf)]; cbn [answer_in]; rewrite ?String.eqb_refl; destruct (lock_of k d) as [|l|h]; try by constructor.
    + by destruct (Hf h).
    + assert (h <> op_id op) by congruence. unfold other. rewrite (proj2 (String.eqb_neq _ _)) by done. by constructor.
  - rewrite (Hother dom) by congruence. destruct Ho as [(-> & -> & _)|(-> & -> & _)]; cbn [answer_in]; rewrite ?(proj2 (String.eqb_neq _ _)) by done; other_domain.
Qed.
Lemma input_refines k op now ms d : settled d -> refines d (OInput k op now ms).
Proof.
  intros Hs. unfold refines, perform, input. destruct (sm_find k (held_ d)) as [h|] eqn:Ef.
  - assert (lock_of k d = Taken (op_id (h_op h))) as Hl by (unfold lock_of; by rewrite Ef).
    destruct (String.eqb_spec (op_id (h_op h)) (op_id op)) as [E|E]; cbn [negb].
    + split; [by apply refresh_settled|]. intros dom. rewrite (refresh_lock k h now d dom Ef). cbn. destruct (String.eqb_spec k dom) as [<-|]; [|other_domain].
      rewrite Hl, E. apply LInput.
    + split; [done|]. intros dom. cbn. destruct (String.eqb_spec k dom) as [<-|]; [|other_domain]. rewrite Hl. by apply LRefused.
  - pose proof (claim_refines k op now ms "claim" d (OInput k op now ms) (Some (k, Allowed)) Hs) as Hc. destruct (claim k op now ms "claim" d) as [d' c].
    apply Hc. left. split_and!; [done | done|]. intros h. unfold lock_of. rewrite Ef. by destruct (sm_find k (idle_previous_ d)).
Qed.
Lemma take_refines k op now ms d : settled d -> refines d (OTake k op now ms).
Proof.
  intros Hs. unfold refines, perform, take_control. pose proof (claim_refines k op now ms "take" d (OTake k op now ms) None Hs) as Hc.
  destruct (sm_find k (held_ d)) as [h|] eqn:Ef; [destruct (String.eqb_spec (op_id (h_op h)) (op_id op)) as [E|E]|].
  - split; [by apply refresh_settled|]. intros dom. rewrite (refresh_lock k h now d dom Ef). cbn. destruct (decide (k = dom)) as [<-|]; [|other_domain].
    unfold lock_of. rewrite Ef, E. apply LTakeOwn.
  - destruct (claim k op now ms "take" d). apply Hc. right. split_and!; [done | done|]. unfold lock_of. rewrite Ef. by intros [=].
  - destruct (claim k op now ms "take" d). apply Hc. right. split_and!; [done | done|]. unfold lock_of. rewrite Ef. by destruct (sm_find k (idle_previous_ d)).
Qed.
Lemma release_refines k id d : settled d -> refines d (ORelease k id).
Proof.
  intros Hs. unfold refines, perform, release.
  assert (lock_of k d <> Taken id -> settled d /\ forall dom, lock_step dom (lock_of dom d) (ORelease k id) (lock_of dom d) None []) as Hnot.
  { intros Hl. split; [done|]. intros dom. destruct (decide (k = dom)) as [<-|]; [by apply LReleaseNot | other_domain]. }
  destruct (sm_find k (held_ d)) as [h|] eqn:Ef; [destruct (String.eqb_spec (op_id (h_op h)) id) as [<-|E]|].
  - split; [by apply drop_settled|]. intros dom. cbn [option_list option_rect answer_in negb]. rewrite one_change. cbn. destruct (String.eqb_spec k dom) as [<-|].
    + unfold lock_of. cbn. rewrite Ef, sm_find_erase_eq, (proj2 Hs k h Ef). apply LRelease.
    + unfold lock_of at 2. cbn. rewrite sm_find_erase_ne by congruence. other_domain.
  - apply Hnot. unfold lock_of. rewrite Ef. by intros [=].
  - apply Hnot. unfold lock_of. rewrite Ef. by destruct (sm_find k (idle_previous_ d)).
Qed.
Lemma gone_refines k id d : settled d -> refines d (OGone k id).
Proof.
  intros Hs. unfold refines, perform, gone. set (f := fun m : list (string * string) => match sm_find k m with Some prev => if String.eqb prev id then sm_erase k m else m | None => m end).
  assert (forall m j, j <> k -> sm_find j (f m) = sm_find j m) as Hne by (intros m j ?; unfold f; repeat case_match; try done; by rewrite sm_find_erase_ne).
  assert (settled {| d with idle_previous_ := f (idle_previous_ d) |}) as Hs1.
  { apply idle_settled; [|done]. intros m j Hj. destruct (decide (j = k)) as [->|]; [|by rewrite Hne]. unfold f. by rewrite Hj. }
  assert (lock_of k d <> Taken id -> forall dom, lock_step dom (lock_of dom d) (OGone k id) (lock_of dom {| d with idle_previous_ := f (idle_previous_ d) |}) None []) as Hnot.
  { intros Hl dom. destruct (decide (dom = k)) as [->|Hk].
    - unfold lock_of in *. cbn. unfold f. destruct (sm_find k (held_ d)) as [h|]; [by apply LGoneNot|]. destruct (sm_find k (idle_previous_ d)) as [p|] eqn:Ei; [|rewrite Ei; by apply LGoneNot].
      destruct (String.eqb_spec p id) as [->|]; [rewrite sm_find_erase_eq; apply LGoneIdle | rewrite Ei; apply LGoneNot; [done | by intros [=]]].
    - unfold lock_of at 2. cbn. rewrite Hne by done. other_domain. }
  fold (f (idle_previous_ d)). destruct (sm_find k (held_ d)) as [h|] eqn:Ef; [destruct (String.eqb_spec (op_id (h_op h)) id) as [<-|E]|]; cbn [negb].
  - split; [apply (drop_settled k) in Hs1; exact Hs1|]. intros dom. cbn [option_list option_rect answer_in negb]. rewrite one_change. cbn. destruct (String.eqb_spec k dom) as [<-|].
    + unfold lock_of. cbn. rewrite Ef, sm_find_erase_eq. unfold f. rewrite (proj2 Hs k h Ef). rewrite (proj2 Hs k h Ef). apply LGone.
    + unfold lock_of at 2. cbn. rewrite sm_find_erase_ne, Hne by congruence. other_domain.
  - split; [done|]. apply Hnot. unfold lock_of. rewrite Ef. by intros [=].
  - split; [done|]. apply Hnot. unfold lock_of. rewrite Ef. by destruct (sm_find k (idle_previous_ d)).
Qed.
Lemma heartbeat_refines id now d : settled d -> refines d (OHeartbeat id now).
Proof.
  intros [Hwf Hs]. unfold refines, perform. split; [split; [by apply heartbeat_wf|]|].
  - intros k h. rewrite heartbeat_find. destruct (sm_find k (held_ d)) as [h'|] eqn:Ef; [|done]. intros _. by apply (Hs k h').
  - intros dom. replace (lock_of dom (heartbeat id now d)) with (lock_of dom d); [apply LBeat|]. unfold lock_of. rewrite heartbeat_find.
    destruct (sm_find dom (held_ d)) as [h|]; cbn; [by destruct (String.eqb _ _) | done].
Qed.
Lemma expire_refines now d : settled d -> refines d (OExpire now).
Proof.
  intros Hs. unfold refines, perform. pose proof (expire_settled now d Hs) as Hs'. destruct Hs as [Hwf Hs].
  pose proof (fun k => expire_held now d k Hwf) as Hh. pose proof (fun k => expire_idle now d k Hwf) as Hi. pose proof (fun k => expire_in now k d Hwf) as Hr.
  destruct (expire now d) as [d' chs]. cbn [fst snd] in *. split; [done|]. intros dom. specialize (Hh dom). specialize (Hi dom). specialize (Hr dom). cbn [answer_in].
  rewrite Hr. unfold lock_of. rewrite Hh, Hi. destruct (sm_find dom (held_ d)) as [h|] eqn:Ef; [|apply LNothing]. rewrite (Hs dom h Ef).
  destruct (is_stale now h); cbn [negb andb orb]; [apply LStale|]. destruct (is_idle dom now h) eqn:Ei; [|apply LNothing]. apply LIdle.
  unfold is_idle in Ei. destruct (String.eqb_spec dom "desktop"); done.
Qed.
Lemma perform_refines d o : settled d -> refines d o.
Proof.
  destruct o; [apply input_refines | apply take_refines | apply release_refines | apply gone_refines | apply heartbeat_refines | apply expire_refines].
Qed.

(** C27: The control domains implement independent locks. After any sequence of operations the next
    one is, for every domain, a step of that domain's lock, from the state the lock had to the state
    it has afterwards: the answer to an input, who is to be released and when a domain becomes free,
    idle or taken are the lock's, and an operation in another domain neither changes nor answers
    anything here. The lock starts free. *)
Theorem domains_refine_locks (ops : list Op) (o : Op) (dom : string) : let d := performed ops no_domains in
  lock_of dom no_domains = Free
  /\ lock_step dom (lock_of dom d) o (lock_of dom (perform d o).1.1) (answer_in dom (perform d o).1.2) (releases_in dom (perform d o).2).
Proof.
  intros d. split; [done|]. assert (settled d) as Hd.
  { unfold d, performed. assert (settled no_domains) as H0 by (split; [apply sm_wf_nil | done]). revert H0. generalize no_domains.
    induction ops as [|o' ops IH]; intros d0 H0; [done|]. apply IH. pose proof (perform_refines d0 o' H0) as Hr. unfold refines in Hr. cbn [foldl]; destruct (perform d0 o') as [[? ?] ?]; apply Hr. }
  pose proof (perform_refines d o Hd) as Hr. unfold refines in Hr. destruct (perform d o) as [[d' a] chs]. by apply Hr.
Qed.
