(* ===== verification/Senders.v ===== *)
(** * Senders: the sending side of a session's DataChannels (core/session.cpp, ControlSender to DeniedSender)

    One constructor per sender class. The channel itself is webrtcbin's: [DataChannel] gives
    what the senders use of it. [dc] is [None] where the source's pointer is null. *)

From Stdlib Require Import ZArith Lia Strings.Byte Ascii String.
From stdpp Require Import base list strings.
From S2P Require Import Prelude StdMap Json Blob BlobAssembler BlobPump Protocol.

Definition REALTIME_DROP_THRESHOLD : Z := 64 * 1024.
Definition HIGH_WATER : Z := 4 * 1024 * 1024.
Definition LOW_WATER : Z := 1 * 1024 * 1024.
Definition SCTP_MAX_MESSAGE : Z := 65536.

Class DataChannel (D : Type) := {
  dc_buffered : D -> Z;
  dc_send_text : string -> D -> D; (* a failed send is only logged *)
  dc_send_data : list byte -> D -> D * bool;
}.

Section Senders.
Context `{JsonText} {D : Type} `{DataChannel D}.

Inductive Sender :=
| ControlSender (dc : option D)
| RealtimeSender (dc : option D) (dropped : Z)
| BulkSender (dc : option D)
| StreamSender (dc : option D) (refused : Z)
| DeniedSender (why : string).

(** [send]: the sender after the call and the text handed to the channel, if any. *)
Definition send (s : Sender) (msg : Envelope) : result (Sender * option string) :=
  match s with
  | ControlSender None => Throw (FjarrError internal "control channel not open")
  | ControlSender (Some dc) =>
    let* text := serialize_envelope msg in Ok (ControlSender (Some (dc_send_text text dc)), Some text)
  | RealtimeSender None n => Ok (s, None)
  | RealtimeSender (Some dc) n =>
    if REALTIME_DROP_THRESHOLD <? dc_buffered dc then Ok (RealtimeSender (Some dc) (n + 1), None)
    else let* text := serialize_envelope msg in Ok (RealtimeSender (Some (dc_send_text text dc)) n, Some text)
  | BulkSender _ => Throw (FjarrError "payload-invalid" "envelopes do not ride bulk channels (docs/08)")
  | StreamSender _ _ => Throw (FjarrError "payload-invalid" "envelopes do not ride stream channels (docs/08)")
  | DeniedSender w => Throw (FjarrError capability_denied w)
  end.

Definition too_long : exn := FjarrError "payload-invalid" "frame exceeds the SCTP max-message-size; chunk it (docs/08)".

Definition sender_send_binary (frame : list byte) (s : Sender) : result (Sender * bool) :=
  match s with
  | BulkSender (Some dc) =>
    if SCTP_MAX_MESSAGE <? zlen frame then Throw too_long
    else if HIGH_WATER <=? dc_buffered dc then Ok (s, false)
    else let '(dc', ok) := dc_send_data frame dc in Ok (BulkSender (Some dc'), ok)
  | StreamSender (Some dc) n =>
    if SCTP_MAX_MESSAGE <? zlen frame then Throw too_long
    else if HIGH_WATER <=? dc_buffered dc then Ok (StreamSender (Some dc) (n + 1), false)
    else let '(dc', ok) := dc_send_data frame dc in Ok (StreamSender (Some dc') n, ok)
  | _ => Ok (s, false)
  end.

Definition buffered_amount (s : Sender) : Z :=
  match s with
  | ControlSender (Some dc) | RealtimeSender (Some dc) _ | BulkSender (Some dc) | StreamSender (Some dc) _ => dc_buffered dc
  | _ => 0
  end.

#[global] Instance sender_channel : ChannelSender Sender := sender_send_binary.
End Senders.
Arguments Sender D : clear implicits.

(** The chunk size a session's pump uses: one frame is exactly one SCTP message. *)
Definition SESSION_CHUNK : Z := SCTP_MAX_MESSAGE - HEADER_BYTES.

Section SenderProps.
Context {D : Type} `{DataChannel D}.

(** A channel never lets more than one message past the high-water mark. *)
Class BufferGrowth := buffer_growth : forall f (dc : D), dc_buffered (dc_send_data f dc).1 <= dc_buffered dc + zlen f.

Lemma send_binary_threw frame (s : Sender D) e : send_binary frame s = Throw e -> SCTP_MAX_MESSAGE < zlen frame.
Proof.
  unfold send_binary, sender_channel, sender_send_binary. destruct s as [?|? ?|[dc|]|[dc|] ?|?]; try done;
    destruct (Z.ltb_spec SCTP_MAX_MESSAGE (zlen frame)); try done; destruct (_ <=? _); try done; by destruct (dc_send_data frame dc).
Qed.

(** A session's blob pump never throws: with chunks of [SCTP_MAX_MESSAGE - HEADER_BYTES]
    bytes no frame exceeds the message size the senders refuse, so on any of the session's
    senders the pump ends by itself or stalls, whatever the channel accepts. *)
Theorem session_pump_never_throws on_done fuel (s : Sender D) p :
  chunk_ p = SESSION_CHUNK -> Forall transfer_ok (queue_ p) -> (forall d ok, on_done d ok = []) ->
  (length (queue_ p) <= fuel)%nat ->
  let st := (pump on_done fuel (Some s) p).1.1.1 in st = Finished \/ st = Stalled.
Proof.
  intros Hc Hq Hnone Hfuel. destruct (pump_ends on_done fuel s p) as [Hf Ht]; try done; [rewrite Hc; by vm_compute|].
  simpl. destruct ((pump on_done fuel (Some s) p).1.1.1) as [| |e|] eqn:E; auto; [|done].
  destruct (Ht e eq_refl) as (f & s0 & Hthrow & Hlen). apply send_binary_threw in Hthrow. rewrite Hc in Hlen. unfold SESSION_CHUNK in Hlen. lia.
Qed.

(** Backpressure bounds what a bulk or stream channel buffers: if it held less than the
    high-water mark plus one message before a send, it does after. *)
Theorem sender_backpressure `{!BufferGrowth} frame (s s' : Sender D) ok :
  buffered_amount s < HIGH_WATER + SCTP_MAX_MESSAGE -> send_binary frame s = Ok (s', ok) ->
  buffered_amount s' < HIGH_WATER + SCTP_MAX_MESSAGE.
Proof.
  intros Hb. unfold send_binary, sender_channel, sender_send_binary. destruct s as [?|? ?|[dc|]|[dc|] ?|?]; try (by intros [= <- _]);
    destruct (Z.ltb_spec SCTP_MAX_MESSAGE (zlen frame)); try done; destruct (Z.leb_spec HIGH_WATER (dc_buffered dc)); try (by intros [= <- _]);
    pose proof (buffer_growth frame dc); destruct (dc_send_data frame dc); intros [= <- _]; simpl in *; lia.
Qed.
End SenderProps.

(** A channel for the witnesses: it counts what it buffers and takes everything. *)
#[local] Instance counting_dc : DataChannel Z := {|
  dc_buffered n := n; dc_send_text t n := n + ssize t; dc_send_data f n := (n + zlen f, true) |}.
Lemma counting_growth : BufferGrowth (D := Z).
Proof. intros f dc. simpl. lia. Qed.

Definition session_pump : BlobPump := {| chunk_ := SESSION_CHUNK; queue_ := [demo_transfer 3; demo_transfer 0]; pumping_ := false |}.
Lemma session_pump_never_throws_witness :
  let st := (pump (fun _ _ => []) 2 (Some (BulkSender (Some 0))) session_pump).1.1.1 in st = Finished \/ st = Stalled.
Proof. apply session_pump_never_throws; try done. repeat constructor; by apply demo_transfer_ok. Defined.

Lemma sender_backpressure_witness :
  exists s' ok, send_binary (repeat x41 10) (BulkSender (Some 100)) = Ok (s', ok) /\ buffered_amount s' < HIGH_WATER + SCTP_MAX_MESSAGE.
Proof.
  do 2 eexists. split; [vm_compute; reflexivity|].
  apply (@sender_backpressure Z _ counting_growth (repeat x41 10) (BulkSender (Some 100)) _ true); [vm_compute; reflexivity | vm_compute; reflexivity].
Defined.
