(* ===== verification/Consumer.v ===== *)
(** * Consumer: one session's pipeline as the session sees it (media/consumer.cpp)

    The track table, the negotiation state and the ICE queue of [ConsumerPipeline]. What
    GStreamer answers (a sink pad, whether a branch links, the m-sections of an SDP) is an
    argument of the operation that asks; what the pipeline does to webrtcbin is in the state
    ([valve_drop], [ice_sent], [offers]). The RTP payloading, statistics and the uplink's
    decoding are GStreamer's. *)

From Stdlib Require Import ZArith Lia String.
From stdpp Require Import base list strings pretty.
From S2P Require Import Prelude StdMap Json Protocol.

#[global] Instance TrackKind_eq_dec : EqDecision TrackKind.
Proof. solve_decision. Defined.

(** include/fjarr/session_context.hpp; [spec_source] names the [VideoSource] object, if any. *)
Record TrackSpec := {
  spec_id : string; spec_label : string; spec_kind : TrackKind; spec_source : option nat; spec_monitor : option MonitorInfo
}.

(** [has_branch]: the appsrc, queue, valve and payloader elements (and the hub sink) exist. *)
Record ConsumerTrack := {
  ct_id : string; ct_cap : string; ct_kind : TrackKind; ct_label : string; ct_monitor : option MonitorInfo;
  ct_pt : Z; ct_ssrc : Z; ct_mid : string; mline : Z;
  enabled : bool; negotiated : bool; rejected : bool;
  tier : string; demanded_tier : string; pooled : bool;
  next_seqnum : option Z; has_branch : bool; valve_drop : bool
}.

Record Consumer := {
  c_tracks : list (string * ConsumerTrack);
  next_pt : Z;
  offer_in_flight : bool;
  remote_described : bool;
  offered_sendonly : list Z;
  ice_queue : list (Z * string);
  ice_sent : list (Z * string);   (* add-ice-candidate calls, in order *)
  offers : nat;                   (* create-offer calls *)
  stopped : bool
}.
Definition new_consumer : Consumer :=
  {| c_tracks := []; next_pt := 96; offer_in_flight := false; remote_described := false; offered_sendonly := [];
     ice_queue := []; ice_sent := []; offers := 0; stopped := false |}.

(** What GStreamer answers while a track is added: the requested pad's m-line, the SSRC drawn,
    whether the branch's elements linked. *)
Record AddEnv := { new_pad : option Z; new_ssrc : Z; branch_links : bool }.

Definition track (id : string) (c : Consumer) : option ConsumerTrack := sm_find id (c_tracks c).
Definition sink_for (id : string) (c : Consumer) : bool := match track id c with Some t => has_branch t | None => false end.

(** [build_branch] on a track record: a closed valve. *)
Definition build_branch (t : ConsumerTrack) : ConsumerTrack := {| t with has_branch := true; valve_drop := true |}.

Fixpoint find_pooled (k : TrackKind) (l : list (string * ConsumerTrack)) : option (string * ConsumerTrack) :=
  match l with
  | [] => None
  | (id, t) :: l' => if pooled t && bool_decide (ct_kind t = k) then Some (id, t) else find_pooled k l'
  end.

(** The consumer, whether the track is there, and what [on_error] is told. *)
Definition add_track (spec : TrackSpec) (cap : string) (env : AddEnv) (c : Consumer) : Consumer * bool * option string :=
  match track (spec_id spec) c with
  | Some _ => (c, true, None)
  | None =>
    match find_pooled (spec_kind spec) (c_tracks c) with
    | Some (id, t) =>
      let c1 := {| c with c_tracks := sm_erase id (c_tracks c) |} in
      let t1 := {| t with ct_id := spec_id spec; ct_label := spec_label spec; ct_monitor := spec_monitor spec; ct_cap := cap;
                          pooled := false; enabled := false; negotiated := false; rejected := false |} in
      if branch_links env then ({| c1 with c_tracks := sm_set (spec_id spec) (build_branch t1) (c_tracks c1) |}, true, None)
      else (c1, false, Some "cannot link track branch")
    | None =>
      let c1 := {| c with next_pt := next_pt c + 1 |} in
      match new_pad env with
      | None => (c1, false, Some "webrtcbin refused a sink pad")
      | Some m =>
        let t := {| ct_id := spec_id spec; ct_cap := cap; ct_kind := spec_kind spec; ct_label := spec_label spec; ct_monitor := spec_monitor spec;
                    ct_pt := next_pt c; ct_ssrc := new_ssrc env; ct_mid := ""; mline := m;
                    enabled := false; negotiated := false; rejected := false; tier := "active"; demanded_tier := "active"; pooled := false;
                    next_seqnum := None; has_branch := false; valve_drop := true |} in
        if branch_links env then ({| c1 with c_tracks := sm_set (spec_id spec) (build_branch t) (c_tracks c1) |}, true, None)
        else (c1, false, Some "cannot link track branch")
      end
    end
  end.

(** An uplink takes the next payload type, also when webrtcbin refuses the transceiver. *)
Definition add_inbound_audio (transceiver : bool) (c : Consumer) : Consumer * bool :=
  ({| c with next_pt := next_pt c + 1 |}, transceiver).

(** The pool's name for a track's m-line, "_pool:" and [std::to_string]. *)
Definition pool_id (m : Z) : string := "_pool:" +:+ pretty m.

(** [seqnum] is the payloader's last sequence number. *)
Definition teardown_branch (seqnum : Z) (t : ConsumerTrack) : ConsumerTrack :=
  if has_branch t then {| t with next_seqnum := Some (Z.land (seqnum + 1) 0xffff); has_branch := false |} else t.

Definition remove_track (id : string) (seqnum : Z) (c : Consumer) : Consumer :=
  match track id c with
  | None => c
  | Some t =>
    let t1 := teardown_branch seqnum {| t with valve_drop := true; enabled := false; pooled := true |} in
    let p := pool_id (mline t) in
    {| c with c_tracks := sm_set p {| t1 with ct_id := p |} (sm_erase id (c_tracks c)) |}
  end.

Definition apply_valve (t : ConsumerTrack) : ConsumerTrack :=
  if has_branch t then {| t with valve_drop := negb (enabled t && negotiated t) |} else t.

Definition set_enabled (id : string) (e : bool) (c : Consumer) : Consumer :=
  match track id c with
  | None => c
  | Some t => if has_branch t then {| c with c_tracks := sm_set id (apply_valve {| t with enabled := e |}) (c_tracks c) |} else c
  end.

(** [manifest]: the tracks that are not pooled, sorted by m-line. *)
Fixpoint insert_mline (t : ConsumerTrack) (l : list ConsumerTrack) : list ConsumerTrack :=
  match l with
  | [] => [t]
  | u :: l' => if mline t <? mline u then t :: l else u :: insert_mline t l'
  end.
Definition manifest_entry (t : ConsumerTrack) : ManifestEntry :=
  {| track_id := ct_id t; me_cap := ct_cap t; me_kind := ct_kind t; label := ct_label t;
     codec := match ct_kind t with Video => "H264" | Audio => "OPUS" end; pt := ct_pt t; mid := ct_mid t; monitor := ct_monitor t |}.
Definition ordered (c : Consumer) : list ConsumerTrack :=
  foldr insert_mline [] (filter (fun t => pooled t = false) (c_tracks c).*2).
Definition manifest (c : Consumer) : list ManifestEntry := map manifest_entry (ordered c).

(** ** Offers and answers *)
Definition create_offer (c : Consumer) : Consumer :=
  if offer_in_flight c || stopped c then c else {| c with offer_in_flight := true; offers := S (offers c) |}.

(** The create-offer promise: [None] when it failed, else per m-section whether the offer sends on
    it and its mid. *)
Definition set_mid (mids : list (option string)) (t : ConsumerTrack) : ConsumerTrack :=
  match mids !! Z.to_nat (mline t) with Some (Some m) => {| t with ct_mid := m |} | _ => t end.
Fixpoint sending_lines (i : Z) (l : list bool) : list Z :=
  match l with [] => [] | b :: l' => (if b then [i] else []) ++ sending_lines (i + 1) l' end.
Definition offer_created (sections : option (list (bool * option string))) (c : Consumer) : Consumer * option string :=
  match sections with
  | None => ({| c with offer_in_flight := false |}, Some "create-offer failed")
  | Some l =>
    ({| c with offered_sendonly := sending_lines 0 l.*1;
               c_tracks := map (fun kv => (kv.1, set_mid l.*2 kv.2)) (c_tracks c) |}, None)
  end.
Definition local_description_set (c : Consumer) : Consumer := {| c with remote_described := false |}.

(** Did the peer accept what an m-section sends: a live port or a place in the BUNDLE group, and a
    direction that receives. *)
Record AnswerMedia := { a_port : Z; a_mid : option string; recvonly : bool; sendrecv : bool }.
Definition accepts (bundled : list string) (m : AnswerMedia) : bool :=
  let live := negb (a_port m =? 0) || match a_mid m with Some i => bool_decide (i ∈ bundled) | None => false end in
  live && (recvonly m || sendrecv m).

Definition add_ice_candidate (m : Z) (cand : string) (c : Consumer) : Consumer :=
  if String.eqb cand "" then c
  else if negb (remote_described c) then {| c with ice_queue := ice_queue c ++ [(m, cand)] |}
  else {| c with ice_sent := ice_sent c ++ [(m, cand)] |}.

(** The loop over the tracks once the answer is applied: the new record and whether a keyframe
    is requested for it. *)
Definition settle (sendonly : list Z) (accepted : list bool) (t : ConsumerTrack) : ConsumerTrack * bool :=
  if pooled t || negb (bool_decide (mline t ∈ sendonly)) then (t, false)
  else
    let ok := default false (accepted !! Z.to_nat (mline t)) in
    let opens := ok && negb (negotiated t) && enabled t in
    (apply_valve {| t with negotiated := ok; rejected := negb ok |}, opens).

(** The set-remote-description promise has settled; [final_mids] is what the transceivers say.
    The session hears the milestone first; keyframe requests are the second component. *)
Definition answer_applied (accepted : list bool) (final_mids : list (option string)) (c : Consumer) : Consumer * list string :=
  let c1 := {| c with offer_in_flight := false; remote_described := true |} in
  let settled := map (fun kv => (kv.1, settle (offered_sendonly c1) accepted kv.2)) (c_tracks c1) in
  let keyframes := map fst (List.filter (fun kv => snd (snd kv)) settled) in
  let c2 := {| c1 with c_tracks := map (fun kv => (kv.1, kv.2.1)) settled; offered_sendonly := [] |} in
  let c3 := {| (foldl (fun c mc => add_ice_candidate mc.1 mc.2 c) c2 (ice_queue c2)) with ice_queue := [] |} in
  ({| c3 with c_tracks := map (fun kv => (kv.1, set_mid final_mids kv.2)) (c_tracks c3) |}, keyframes).

Definition stop (c : Consumer) : Consumer :=
  if stopped c then c else {| c with stopped := true; c_tracks := [] |}.

(** ** Sequences of operations *)
Inductive COp :=
| CAdd (spec : TrackSpec) (cap : string) (env : AddEnv)
| CUplink (transceiver : bool)
| CRemove (id : string) (seqnum : Z)
| CEnable (id : string) (e : bool)
| CCreateOffer
| COfferCreated (sections : option (list (bool * option string)))
| CLocalSet
| CAnswer (accepted : list bool) (mids : list (option string))
| CIce (m : Z) (cand : string)
| CStop.
Definition cstep (c : Consumer) (o : COp) : Consumer :=
  match o with
  | CAdd spec cap env => (add_track spec cap env c).1.1
  | CUplink b => (add_inbound_audio b c).1
  | CRemove id n => remove_track id n c
  | CEnable id e => set_enabled id e c
  | CCreateOffer => create_offer c
  | COfferCreated s => (offer_created s c).1
  | CLocalSet => local_description_set c
  | CAnswer a m => (answer_applied a m c).1
  | CIce m cand => add_ice_candidate m cand c
  | CStop => stop c
  end.
(** What webrtcbin and the sessions guarantee: a requested pad has an m-line of its own, and a
    track's id is never one of the pool's. *)
Definition not_pool_id (id : string) : Prop := forall m, id <> pool_id m.
Definition cop_ok (c : Consumer) (o : COp) : Prop :=
  match o with
  | CAdd spec _ env => not_pool_id (spec_id spec)
      /\ (forall m, new_pad env = Some m -> 0 <= m /\ forall kv, In kv (c_tracks c) -> mline kv.2 <> m)
  | CRemove id _ => not_pool_id id
  | _ => True
  end.
Inductive creach : list COp -> Consumer -> Prop :=
| creach_new : creach [] new_consumer
| creach_step ops c o : creach ops c -> cop_ok c o -> creach (ops ++ [o]) (cstep c o).

(** ** The invariant *)
Definition track_ok (id : string) (t : ConsumerTrack) : Prop :=
  ct_id t = id
  /\ (valve_drop t = false -> has_branch t = true /\ enabled t = true /\ negotiated t = true)
  /\ (pooled t = true -> has_branch t = false /\ valve_drop t = true /\ id = pool_id (mline t))
  /\ (pooled t = false -> has_branch t = true /\ not_pool_id id)
  /\ (negotiated t && rejected t = false).
Record consumer_inv (c : Consumer) : Prop := {
  ci_wf : sm_wf (c_tracks c);
  ci_ok : forall id t, track id c = Some t -> track_ok id t;
  ci_mline : forall id1 id2 t1 t2, track id1 c = Some t1 -> track id2 c = Some t2 -> mline t1 = mline t2 -> id1 = id2
}.

(** Rewriting tracks in place, m-lines and ids untouched. *)
Lemma consumer_inv_map (f : ConsumerTrack -> ConsumerTrack) c c' :
  c_tracks c' = map (fun kv => (kv.1, f kv.2)) (c_tracks c) -> consumer_inv c ->
  (forall id t, track id c = Some t -> track_ok id t -> track_ok id (f t) /\ mline (f t) = mline t) -> consumer_inv c'.
Proof.
  intros Hc [Hwf Hok Hm] Hf. unfold track in *. split; unfold track; rewrite ?Hc; [by apply sm_wf_map| |].
  - intros id t. rewrite sm_find_map. intros (t0 & E & ->)%fmap_Some. symmetry in E. by apply Hf; auto.
  - intros id1 id2 t1 t2. rewrite !sm_find_map. intros (u1 & E1 & ->)%fmap_Some (u2 & E2 & ->)%fmap_Some.
    destruct (Hf _ _ E1 (Hok _ _ E1)) as [_ ->]. destruct (Hf _ _ E2 (Hok _ _ E2)) as [_ ->]. by apply Hm.
Qed.

(** Replacing, adding or dropping one track. *)
Lemma consumer_inv_set id t c c' : c_tracks c' = sm_set id t (c_tracks c) -> consumer_inv c -> track_ok id t ->
  (forall id' t', id' <> id -> track id' c = Some t' -> mline t' <> mline t) -> consumer_inv c'.
Proof.
  intros Hc [Hwf Hok Hm] Ht Hf. unfold track in *. split; unfold track; rewrite ?Hc; [by apply sm_wf_set| |].
  - intros id' t'. destruct (decide (id' = id)) as [->|Hi]; [rewrite sm_find_set_eq; by intros [= <-]|].
    rewrite sm_find_set_ne by done. apply Hok.
  - intros id1 id2 t1 t2. destruct (decide (id1 = id)) as [->|H1], (decide (id2 = id)) as [->|H2];
      rewrite ?sm_find_set_eq, ?sm_find_set_ne by done; [done | | |]; intros E1 E2 E; simplify_eq.
    + by destruct (Hf _ _ H2 E2).
    + by destruct (Hf _ _ H1 E1).
    + by eapply Hm.
Qed.
Lemma consumer_inv_erase id c c' : c_tracks c' = sm_erase id (c_tracks c) -> consumer_inv c -> consumer_inv c'.
Proof.
  intros Hc [Hwf Hok Hm]. unfold track in *. 
  assert (forall k t, sm_find k (sm_erase id (c_tracks c)) = Some t -> sm_find k (c_tracks c) = Some t) as Hsub.
  { intros k t. destruct (decide (k = id)) as [->|]; [by rewrite sm_find_erase_eq | by rewrite sm_find_erase_ne]. }
  split; unfold track; rewrite ?Hc; [by apply sm_wf_erase | naive_solver | naive_solver].
Qed.

Lemma find_pooled_spec k l id t : find_pooled k l = Some (id, t) -> In (id, t) l /\ pooled t = true /\ ct_kind t = k.
Proof.
  induction l as [|[i u] l IH]; simpl; [done|]. destruct (pooled u) eqn:Ep; simpl; [|naive_solver].
  case_bool_decide; [intros [= -> ->]; auto | naive_solver].
Qed.

Lemma add_track_inv spec cap env c : cop_ok c (CAdd spec cap env) -> consumer_inv c -> consumer_inv (add_track spec cap env c).1.1.
Proof.
  intros [Hid Hpad] Hc. unfold add_track. destruct (track (spec_id spec) c) eqn:Ht; [done|].
  destruct (find_pooled (spec_kind spec) (c_tracks c)) as [[pid t]|] eqn:Hp.
  - apply find_pooled_spec in Hp as (Hin & Hpool & _). apply sm_In_find in Hin; [|apply Hc].
    assert (consumer_inv {| c with c_tracks := sm_erase pid (c_tracks c) |}) as He by (by eapply consumer_inv_erase).
    destruct (branch_links env); [|done]. eapply consumer_inv_set; [reflexivity | exact He | |].
    + unfold track_ok. simpl. split_and!; try done; by intros.
    + intros id' t' Hne Hf E. simpl in *. assert (id' <> pid) as Hnp.
      { intros ->. unfold track in Hf. simpl in Hf. by rewrite sm_find_erase_eq in Hf. }
      unfold track in Hf. simpl in Hf. rewrite sm_find_erase_ne in Hf by done. by apply Hnp, (ci_mline _ Hc _ _ t' t).
  - destruct (new_pad env) as [m|] eqn:Em; [|by destruct Hc; split].
    destruct (Hpad m eq_refl) as [_ Hfresh]. destruct (branch_links env); [|by destruct Hc; split].
    eapply (consumer_inv_set _ _ c); [reflexivity | done | |].
    + unfold track_ok. simpl. split_and!; try done; by intros.
    + intros id' t' _ Hf%sm_find_In. apply (Hfresh _ Hf).
Qed.

(** A live branch's valve follows [enabled] and [negotiated]. *)
Lemma track_ok_valve id t : has_branch t = true -> ct_id t = id -> not_pool_id id -> pooled t = false ->
  negotiated t && rejected t = false -> track_ok id (apply_valve t) /\ mline (apply_valve t) = mline t.
Proof.
  intros Hb Hid Hni Hp Hr. unfold apply_valve. rewrite Hb. split; [|done]. unfold track_ok. simpl. split_and!; try done; [|congruence].
  rewrite negb_false_iff. intros [? ?]%andb_prop. done.
Qed.
Lemma set_mid_ok mids id t : track_ok id t -> track_ok id (set_mid mids t) /\ mline (set_mid mids t) = mline t.
Proof. unfold set_mid. by destruct (mids !! _) as [[m|]|]. Qed.
Lemma settle_ok sendonly acc id t : track_ok id t -> track_ok id (settle sendonly acc t).1 /\ mline (settle sendonly acc t).1 = mline t.
Proof.
  intros Ht. unfold settle. destruct (pooled t) eqn:Hp; cbn [orb]; [done|]. case_bool_decide; cbn [negb fst]; [|done].
  destruct Ht as (Hid & Hv & Hpl & Hnp & Hnr). destruct (Hnp Hp) as [Hb Hni].
  match goal with |- track_ok _ (apply_valve ?u) /\ _ => apply (track_ok_valve id u Hb Hid Hni eq_refl) end. apply andb_negb_r.
Qed.

Lemma fold_ice l c : c_tracks (foldl (fun c mc => add_ice_candidate mc.1 mc.2 c) c l) = c_tracks c
  /\ (remote_described c = true -> Forall (fun mc => mc.2 <> "") l ->
      ice_sent (foldl (fun c mc => add_ice_candidate mc.1 mc.2 c) c l) = ice_sent c ++ l
      /\ remote_described (foldl (fun c mc => add_ice_candidate mc.1 mc.2 c) c l) = true).
Proof.
  revert c. induction l as [|[m cand] l IH]; intros c; simpl; [by rewrite app_nil_r|].
  destruct (IH (add_ice_candidate m cand c)) as [-> Hs]. split.
  - unfold add_ice_candidate. destruct (String.eqb _ _), (remote_described c); done.
  - intros Hr Hf. apply Forall_cons in Hf as [Hc Hf]. simpl in Hc.
    assert (add_ice_candidate m cand c = {| c with ice_sent := ice_sent c ++ [(m, cand)] |}) as E.
    { unfold add_ice_candidate. rewrite Hr. by rewrite (proj2 (String.eqb_neq _ _)). }
    rewrite E in *. destruct (Hs Hr Hf) as [-> ->]. simpl. by rewrite <- app_assoc.
Qed.

Lemma answer_applied_inv acc mids c : consumer_inv c -> consumer_inv (answer_applied acc mids c).1.
Proof.
  intros Hc. unfold answer_applied. cbn [fst].
  set (f := fun t => set_mid mids (settle (offered_sendonly c) acc t).1).
  apply (consumer_inv_map f c); [|done|].
  - cbn [c_tracks]. rewrite (proj1 (fold_ice _ _)). simpl. rewrite !map_map. done.
  - intros id t Ht Hok. destruct (settle_ok (offered_sendonly c) acc id t Hok) as [H1 H2].
    destruct (set_mid_ok mids id _ H1) as [H3 H4]. unfold f. rewrite H4, H2. done.
Qed.

Lemma remove_track_inv id n c : not_pool_id id -> consumer_inv c -> consumer_inv (remove_track id n c).
Proof.
  intros Hid Hc. unfold remove_track. destruct (track id c) as [t|] eqn:Ht; [|done].
  pose proof (ci_ok _ Hc _ _ Ht) as (Hi & Hv & Hpl & Hnp & Hnr).
  assert (pooled t = false) as Hp. { destruct (pooled t); [|done]. destruct Hpl as (_ & _ & ->); [done|]. by destruct (Hid (mline t)). }
  destruct (Hnp Hp) as [Hb _].
  assert (consumer_inv {| c with c_tracks := sm_erase id (c_tracks c) |}) as He by (by eapply consumer_inv_erase).
  eapply (consumer_inv_set _ _ {| c with c_tracks := sm_erase id (c_tracks c) |}); [reflexivity | exact He | |].
  - unfold track_ok, teardown_branch. simpl. rewrite Hb. simpl. split_and!; done.
  - intros id' t' Hne Hf. unfold teardown_branch. simpl. rewrite Hb. simpl. unfold track in Hf. simpl in Hf. intros E.
    assert (id' <> id) as Hx by (intros ->; by rewrite sm_find_erase_eq in Hf).
    rewrite sm_find_erase_ne in Hf by done. by apply Hx, (ci_mline _ Hc _ _ t' t).
Qed.

Lemma set_enabled_inv id e c : consumer_inv c -> consumer_inv (set_enabled id e c).
Proof.
  intros Hc. unfold set_enabled. destruct (track id c) as [t|] eqn:Ht; [|done]. destruct (has_branch t) eqn:Hb; [|done].
  pose proof (ci_ok _ Hc _ _ Ht) as Hok. assert (pooled t = false) as Hp.
  { destruct Hok as (_ & _ & Hpl & _). destruct (pooled t); [|done]. by destruct Hpl as (? & _); [|congruence]. }
  eapply consumer_inv_set; [reflexivity | done | |].
  - destruct Hok as (Hid & Hv & Hpl & Hnp & Hnr). destruct (Hnp Hp) as [_ Hni]. by apply track_ok_valve.
  - intros id' t' Hne Hf. simpl. intros E. by apply Hne, (ci_mline _ Hc _ _ t' t).
Qed.

Lemma cstep_inv c o : cop_ok c o -> consumer_inv c -> consumer_inv (cstep c o).
Proof.
  intros Ho Hc. destruct o; simpl in *.
  - by apply add_track_inv.
  - by destruct Hc; split.
  - by apply remove_track_inv.
  - by apply set_enabled_inv.
  - unfold create_offer. destruct (_ || _); [done|]. by destruct Hc; split.
  - unfold offer_created. destruct sections as [l|]; simpl; [|by destruct Hc; split].
    eapply (consumer_inv_map (set_mid l.*2) c); [done | done |]. intros id t _ Ht. by apply set_mid_ok.
  - by destruct Hc; split.
  - by apply answer_applied_inv.
  - unfold add_ice_candidate. destruct (String.eqb _ _); [done|]. destruct (negb _); by destruct Hc; split.
  - unfold stop. destruct (stopped c); [done|]. split; [apply sm_wf_nil | done | done].
Qed.
Lemma creach_inv ops c : creach ops c -> consumer_inv c.
Proof. induction 1; [split; [apply sm_wf_nil | done | done] | by apply cstep_inv]. Qed.


(** The manifest's order *)
Lemma insert_mline_perm t l : insert_mline t l ≡ₚ t :: l.
Proof. induction l as [|u l IH]; simpl; [done|]. destruct (_ <? _); [done|]. rewrite IH. apply Permutation_swap. Qed.
Lemma insert_mline_sorted t l : Sorted.StronglySorted (fun a b => mline a < mline b) l -> (forall u, In u l -> mline u <> mline t) ->
  Sorted.StronglySorted (fun a b => mline a < mline b) (insert_mline t l).
Proof.
  induction 1 as [|u l Hs IH Hu]; intros Hne; simpl; [repeat constructor|]. destruct (Z.ltb_spec (mline t) (mline u)).
  - constructor; [by constructor|]. constructor; [done|]. eapply Forall_impl; [exact Hu|]. simpl. lia.
  - constructor; [apply IH; intros; apply Hne; by right|]. rewrite insert_mline_perm. constructor; [|done].
    specialize (Hne u (or_introl eq_refl)). lia.
Qed.

Lemma ordered_perm c : ordered c ≡ₚ filter (fun t => pooled t = false) (c_tracks c).*2.
Proof. unfold ordered. induction (filter _ _) as [|t l IH]; simpl; [done|]. by rewrite insert_mline_perm, IH. Qed.

Lemma tracks_mline_nodup c : consumer_inv c -> NoDup (mline <$> (c_tracks c).*2).
Proof.
  intros [Hwf _ Hm]. unfold track in Hm. revert Hwf Hm. generalize (c_tracks c). intros l.
  induction l as [|[id t] l IH]; intros Hwf Hm; simpl; [constructor|]. pose proof (sm_wf_cons _ _ _ Hwf) as [Hwf' Hn].
  apply NoDup_cons. split.
  - rewrite list_elem_of_fmap. intros (u & E & ([id' u'] & -> & Hin)%list_elem_of_fmap). simpl in E.
    apply list_elem_of_In, sm_In_find in Hin; [|done].
    assert (id' <> id) as Hne by (intros ->; congruence).
    apply Hne. apply (Hm id' id u' t); simpl; [by rewrite keqb_ne | by rewrite keqb_refl | done].
  - apply IH; [done|]. intros id1 id2 t1 t2 E1 E2. apply Hm; simpl; [rewrite keqb_ne|rewrite keqb_ne]; try done; intros ->; congruence.
Qed.

(** The manifest an offer carries lists each live track exactly once, never a pooled one, in
    the order of its m-line, whatever was added, removed and re-added before. *)
Theorem manifest_exact ops c : creach ops c ->
  Sorted.StronglySorted (fun a b => mline a < mline b) (ordered c)
  /\ forall t, In t (ordered c) <-> track (ct_id t) c = Some t /\ pooled t = false.
Proof.
  intros Hr%creach_inv. split.
  - pose proof (tracks_mline_nodup c Hr) as Hnd. unfold ordered. revert Hnd.
    assert (forall l, NoDup (mline <$> l) -> Sorted.StronglySorted (fun a b => mline a < mline b) (foldr insert_mline [] l)
              /\ foldr insert_mline [] l ≡ₚ l) as Hgen.
    { induction l as [|t l IH]; intros Hnd; [by repeat constructor|]. simpl in *. apply NoDup_cons in Hnd as [Hn Hnd].
      destruct (IH Hnd) as [Hs Hp]. split; [|by rewrite insert_mline_perm, Hp]. apply insert_mline_sorted; [done|].
      intros u Hu E. apply Hn. rewrite list_elem_of_fmap. exists u. split; [done|]. rewrite <- Hp. by apply list_elem_of_In. }
    intros Hnd. apply Hgen. eapply sublist_NoDup; [exact Hnd|]. apply fmap_sublist, sublist_filter.
  - intros t. rewrite <- list_elem_of_In, ordered_perm, list_elem_of_filter, list_elem_of_fmap. split.
    + intros [Hp ([id t'] & -> & Hin)]. apply list_elem_of_In, sm_In_find in Hin; [|apply Hr]. simpl in *.
      destruct (ci_ok _ Hr _ _ Hin) as (-> & _). by split.
    + intros [Hf Hp]. split; [done|]. exists (ct_id t, t). split; [done|]. by apply list_elem_of_In, sm_find_In.
Qed.

Definition candidates (ops : list COp) : list (Z * string) :=
  flat_map (fun o => match o with CIce m cand => if String.eqb cand "" then [] else [(m, cand)] | _ => [] end) ops.

(** Operations that leave the ICE state alone. *)
Lemma cstep_ice c o : match o with CIce _ _ | CLocalSet | CAnswer _ _ => True
  | _ => ice_sent (cstep c o) = ice_sent c /\ ice_queue (cstep c o) = ice_queue c /\ remote_described (cstep c o) = remote_described c end.
Proof.
  destruct o; simpl; try done.
  - unfold add_track. destruct (track _ c); [done|]. destruct (find_pooled _ _) as [[? ?]|]; [by destruct (branch_links env)|].
    destruct (new_pad env); [by destruct (branch_links env) | done].
  - unfold remove_track. by destruct (track id c).
  - unfold set_enabled. destruct (track id c) as [t|]; [|done]. by destruct (has_branch t).
  - unfold create_offer. by destruct (_ || _).
  - unfold offer_created. by destruct sections.
  - unfold stop. by destruct (stopped c).
Qed.

Lemma creach_ice ops c : creach ops c ->
  ice_sent c ++ ice_queue c = candidates ops /\ (remote_described c = true -> ice_queue c = []) /\ Forall (fun mc => mc.2 <> "") (ice_queue c).
Proof.
  induction 1 as [|ops c o Hr (Heq & Hq & Hf) Hok]; [by repeat split|].
  unfold candidates. rewrite flat_map_app. fold (candidates ops). rewrite <- Heq.
  pose proof (cstep_ice c o) as Hx. destruct o; cbn [flat_map app]; rewrite ?app_nil_r; try (destruct Hx as (-> & -> & ->); by split_and!); clear Hx; simpl.
  - by repeat split.
  - destruct (fold_ice (ice_queue c) {| c with offer_in_flight := false; remote_described := true; offered_sendonly := [];
      c_tracks := map (fun kv => (kv.1, kv.2.1)) (map (fun kv => (kv.1, settle (offered_sendonly c) accepted kv.2)) (c_tracks c)) |}) as [_ Hs].
    destruct (Hs eq_refl Hf) as [-> _]. simpl. by rewrite ?app_nil_r.
  - unfold add_ice_candidate. destruct (String.eqb_spec cand "") as [|Hne]; [by rewrite !app_nil_r|].
    destruct (remote_described c) eqn:Hd; simpl; rewrite ?app_nil_r.
    + rewrite Hq by done. rewrite !app_nil_r. by repeat split.
    + split_and!; [by rewrite app_assoc | done |]. apply Forall_app. split; [done | by constructor].
Qed.

(** Every ICE candidate the peer sends reaches webrtcbin exactly once and in order, held back
    while no answer is applied: what was added, followed by what is queued, is what arrived (the
    empty end-of-candidates marker apart), and nothing is queued once the answer is applied. *)
Theorem ice_in_order ops c : creach ops c ->
  ice_sent c ++ ice_queue c = candidates ops /\ (remote_described c = true -> ice_sent c = candidates ops).
Proof.
  intros (Heq & Hq & _)%creach_ice. split; [done|]. intros Hd. rewrite <- Heq, Hq by done. by rewrite app_nil_r.
Qed.

(** A run for the witnesses: one track, offered, accepted and enabled. *)
Definition demo_spec : TrackSpec := {| spec_id := "cam-front"; spec_label := "Front"; spec_kind := Video; spec_source := Some 1%nat; spec_monitor := None |}.
Definition demo_ops : list COp :=
  [CAdd demo_spec "fjarr.camera" {| new_pad := Some 0; new_ssrc := 7; branch_links := true |}; CCreateOffer;
   COfferCreated (Some [(true, Some "video0")]); CLocalSet; CIce 0 "cand"; CEnable "cam-front" true; CAnswer [true] []].
Lemma not_pool_demo : not_pool_id "cam-front".
Proof. by intros m [=]. Qed.
Fixpoint run_ok (c : Consumer) (ops : list COp) : Prop :=
  match ops with [] => True | o :: ops' => cop_ok c o /\ run_ok (cstep c o) ops' end.
Lemma creach_run ops : run_ok new_consumer ops -> creach ops (foldl cstep new_consumer ops).
Proof.
  enough (forall pre c, creach pre c -> run_ok c ops -> creach (pre ++ ops) (foldl cstep c ops)) as Hgen by apply (Hgen [] _ creach_new).
  induction ops as [|o ops IH]; intros pre c Hr; simpl; [by rewrite app_nil_r|]. intros [Ho Hok].
  rewrite (app_assoc pre [o] ops : pre ++ o :: ops = _). apply IH; [by constructor | done].
Qed.
Lemma demo_reach : creach demo_ops (foldl cstep new_consumer demo_ops).
Proof.
  apply creach_run. simpl. split_and!; try done; first [apply not_pool_demo | by intros m [= <-]].
Qed.

Lemma manifest_exact_witness :
  let c := foldl cstep new_consumer demo_ops in
  Sorted.StronglySorted (fun a b => mline a < mline b) (ordered c)
  /\ forall t, In t (ordered c) <-> track (ct_id t) c = Some t /\ pooled t = false.
Proof. apply (manifest_exact demo_ops), demo_reach. Defined.
Lemma ice_in_order_witness :
  let c := foldl cstep new_consumer demo_ops in
  ice_sent c ++ ice_queue c = [(0, "cand")] /\ (remote_described c = true -> ice_sent c = [(0, "cand")]).
Proof. apply (ice_in_order demo_ops), demo_reach. Defined.
