(* ===== verification/Floats.v ===== *)
(** * Floats: the C++ [double] as binary64 (SpecFloat, round to nearest even)

    Operations are the Standard Library's; [std::min] and [std::max] keep their own argument on a
    NaN, which the order lemmas below account for. *)

From Stdlib Require Import ZArith Lia SpecFloat.
From stdpp Require Import base tactics list.
From S2P Require Import Prelude.

Declare Scope dbl_scope.
Delimit Scope dbl_scope with dbl.

Abbreviation dbl := spec_float.
Definition dadd : dbl -> dbl -> dbl := SFadd 53 1024.
Definition dsub : dbl -> dbl -> dbl := SFsub 53 1024.
Definition dmul : dbl -> dbl -> dbl := SFmul 53 1024.
Definition ddiv : dbl -> dbl -> dbl := SFdiv 53 1024.
Definition dltb : dbl -> dbl -> bool := SFltb.
Definition dleb : dbl -> dbl -> bool := SFleb.
(** [static_cast<double>] of an integer, and a decimal literal [n / d]. *)
Definition of_Z (z : Z) : dbl := binary_normalize 53 1024 z 0 false.
Definition lit (n d : Z) : dbl := ddiv (of_Z n) (of_Z d).

Infix "+" := dadd : dbl_scope.
Infix "-" := dsub : dbl_scope.
Infix "*" := dmul : dbl_scope.
Infix "/" := ddiv : dbl_scope.
Infix "<?" := dltb : dbl_scope.
Infix "<=?" := dleb : dbl_scope.

Definition dmin (a b : dbl) : dbl := if (b <? a)%dbl then b else a.
Definition dmax (a b : dbl) : dbl := if (a <? b)%dbl then b else a.

#[global] Arguments dadd : simpl never.
#[global] Arguments dsub : simpl never.
#[global] Arguments dmul : simpl never.
#[global] Arguments ddiv : simpl never.
#[global] Arguments dltb : simpl never.
#[global] Arguments dleb : simpl never.

(** ** The order *)
Definition is_nan (a : dbl) : bool := match a with S754_nan => true | _ => false end.

(** A key whose lexicographic order is the comparison's: sign, then magnitude class, exponent, mantissa. *)
Definition fkey (a : dbl) : Z * (Z * Z) :=
  match a with
  | S754_nan => (0, (0, 0))
  | S754_infinity true => (-2, (0, 0))
  | S754_finite true m e => (-1, (- e, - Z.pos m))
  | S754_zero _ => (0, (0, 0))
  | S754_finite false m e => (1, (e, Z.pos m))
  | S754_infinity false => (2, (0, 0))
  end%Z.
Definition lex (x y : Z * (Z * Z)) : comparison :=
  match Z.compare x.1 y.1 with
  | Eq => match Z.compare x.2.1 y.2.1 with Eq => Z.compare x.2.2 y.2.2 | c => c end
  | c => c
  end.

Lemma SFcompare_key a b : is_nan a = false -> is_nan b = false -> SFcompare a b = Some (lex (fkey a) (fkey b)).
Proof.
  destruct a as [sa|sa| |sa ma ea], b as [sb|sb| |sb mb eb]; try done; try (by destruct sa); try (by destruct sb); try (by destruct sa, sb).
  intros _ _. destruct sa, sb; simpl; try done; unfold lex; simpl.
  destruct (Z.compare_spec ea eb), (Z.compare_spec (- ea) (- eb)); try lia; done.
Qed.

Lemma lex_refl x : lex x x = Eq.
Proof. unfold lex. by rewrite !Z.compare_refl. Qed.
Definition key_lt (x y : Z * (Z * Z)) : Prop :=
  x.1 < y.1 \/ x.1 = y.1 /\ (x.2.1 < y.2.1 \/ x.2.1 = y.2.1 /\ x.2.2 < y.2.2).
Lemma lex_spec x y : CompareSpec (x = y) (key_lt x y) (key_lt y x) (lex x y).
Proof.
  destruct x as [x1 [x2 x3]], y as [y1 [y2 y3]]. unfold lex, key_lt. simpl.
  destruct (Z.compare_spec x1 y1); [|constructor; lia|constructor; lia].
  destruct (Z.compare_spec x2 y2); [|constructor; lia|constructor; lia].
  destruct (Z.compare_spec x3 y3); constructor; [congruence|lia|lia].
Qed.

Lemma dltb_spec a b : is_nan a = false -> is_nan b = false -> dltb a b = true <-> key_lt (fkey a) (fkey b).
Proof.
  intros Ha Hb. unfold dltb, SFltb. rewrite SFcompare_key by done. destruct (lex_spec (fkey a) (fkey b)) as [E|E|E]; try (by split).
  - split; [done|]. rewrite E. unfold key_lt. lia.
  - split; [done|]. unfold key_lt in *. lia.
Qed.
Lemma dleb_spec a b : is_nan a = false -> is_nan b = false -> dleb a b = true <-> ~ key_lt (fkey b) (fkey a).
Proof.
  intros Ha Hb. unfold dleb, SFleb. rewrite SFcompare_key by done. destruct (lex_spec (fkey a) (fkey b)) as [E|E|E]; (split; [intros Hx|done]).
  - rewrite E. unfold key_lt. lia.
  - unfold key_lt in *. lia.
  - done.
Qed.
Lemma dltb_nan_l b : dltb S754_nan b = false.
Proof. done. Qed.
Lemma dltb_nan_r a : dltb a S754_nan = false.
Proof. by destruct a as [|[]| |[]]. Qed.

(** Comparisons reduced to the keys' linear arithmetic. *)
Ltac dbl_order :=
  repeat match goal with
  | H : dltb ?a ?b = true |- _ => apply dltb_spec in H; [|assumption|assumption]
  | H : dleb ?a ?b = true |- _ => apply dleb_spec in H; [|assumption|assumption]
  | H : dltb ?a ?b = false |- _ => apply not_true_iff_false in H; rewrite dltb_spec in H by assumption
  | |- dleb ?a ?b = true => apply dleb_spec; [assumption|assumption|]
  | |- dltb ?a ?b = true => apply dltb_spec; [assumption|assumption|]
  end; unfold key_lt in *; lia.

Lemma dmin_nan a b : is_nan a = false -> is_nan (dmin a b) = false.
Proof. unfold dmin. intros Ha. destruct (dltb b a) eqn:E; [|done]. destruct b; try done. Qed.
Lemma dmin_le_l a b : is_nan a = false -> dleb (dmin a b) a = true.
Proof.
  unfold dmin. intros Ha. destruct (dltb b a) eqn:E; [|dbl_order].
  assert (is_nan b = false) by (by destruct b). dbl_order.
Qed.
Lemma dmin_le_r a b : is_nan a = false -> is_nan b = false -> dleb (dmin a b) b = true.
Proof. unfold dmin. intros Ha Hb. destruct (dltb b a) eqn:E; dbl_order. Qed.

Definition dclamp (lo hi v : dbl) : dbl := dmin (dmax v lo) hi.
Lemma dclamp_range lo hi v : is_nan lo = false -> is_nan hi = false -> is_nan v = false -> dleb lo hi = true ->
  is_nan (dclamp lo hi v) = false /\ dleb lo (dclamp lo hi v) = true /\ dleb (dclamp lo hi v) hi = true.
Proof.
  intros Hlo Hhi Hv Hle. unfold dclamp, dmax, dmin.
  destruct (dltb v lo) eqn:E1; [destruct (dltb hi lo) eqn:E2 | destruct (dltb hi v) eqn:E2]; split_and!; try done; dbl_order.
Qed.
(** Clamping what is at most [x] stays at most [x] or the lower limit. *)
Lemma dclamp_le lo hi v x : is_nan lo = false -> is_nan hi = false -> is_nan v = false -> is_nan x = false ->
  dleb lo x = true -> dleb v x = true -> dleb (dclamp lo hi v) x = true.
Proof.
  intros Hlo Hhi Hv Hx H1 H2. unfold dclamp, dmax, dmin.
  destruct (dltb v lo) eqn:E1; [destruct (dltb hi lo) eqn:E2 | destruct (dltb hi v) eqn:E2]; dbl_order.
Qed.

(** ** Where a NaN can come from *)
Lemma shr_1_nonneg r : 0 <= shr_m r -> 0 <= shr_m (shr_1 r).
Proof. destruct r as [[|[p|p|]|[p|p|]] ? ?]; simpl; lia. Qed.
Lemma shr_nonneg r e n : 0 <= shr_m r -> 0 <= shr_m (shr r e n).1.
Proof.
  intros Hr. destruct n as [|p|p]; simpl; try done. revert r Hr. induction p as [p IH|p IH|]; intros r Hr; simpl.
  - by apply IH, IH, shr_1_nonneg.
  - by apply IH, IH.
  - by apply shr_1_nonneg.
Qed.
Lemma shr_fexp_nonneg m e l : 0 <= m -> 0 <= shr_m (shr_fexp 53 1024 m e l).1.
Proof. intros Hm. unfold shr_fexp. apply shr_nonneg. by destruct l as [|[]]. Qed.
Lemma round_aux_num s m e l : 0 <= m -> is_nan (binary_round_aux 53 1024 s m e l) = false.
Proof.
  intros Hm. unfold binary_round_aux. destruct (shr_fexp 53 1024 m e l) as [r1 e1] eqn:E1.
  assert (0 <= shr_m r1) as H1 by (change r1 with ((r1, e1).1); rewrite <- E1; by apply shr_fexp_nonneg).
  assert (0 <= round_nearest_even (shr_m r1) (loc_of_shr_record r1)) as H2.
  { unfold round_nearest_even. destruct (loc_of_shr_record r1) as [|[]]; try lia. destruct (Z.even _); lia. }
  destruct (shr_fexp 53 1024 _ e1 loc_Exact) as [r2 e2] eqn:E2.
  assert (0 <= shr_m r2) as H3 by (change r2 with ((r2, e2).1); rewrite <- E2; by apply shr_fexp_nonneg).
  destruct (shr_m r2) as [|p|p]; [done | by destruct (e2 <=? _) | lia].
Qed.
Lemma normalize_num m e s : is_nan (binary_normalize 53 1024 m e s) = false.
Proof.
  unfold binary_normalize. destruct m as [|p|p]; [done| |]; unfold binary_round; destruct (shl_align p e _); by apply round_aux_num.
Qed.

Definition is_finite (a : dbl) : bool := match a with S754_zero _ | S754_finite _ _ _ => true | _ => false end.
Lemma dmul_num a b : is_nan a = false -> is_nan b = false -> is_finite a = true -> a <> S754_zero true -> a <> S754_zero false ->
  is_nan (dmul a b) = false.
Proof. destruct a as [[]|?| |? ? ?], b; try done. intros. by apply round_aux_num. Qed.
Lemma dmul_num_fin a b : is_finite a = true -> is_finite b = true -> is_nan (dmul a b) = false.
Proof. destruct a, b; try done. intros. by apply round_aux_num. Qed.
Lemma dadd_num a b : is_finite a = true -> is_nan b = false -> is_nan (dadd a b) = false.
Proof. destruct a as [sa|?| |? ? ?], b as [sb|?| |? ? ?]; try done; intros; [by destruct sa, sb | apply normalize_num]. Qed.
Lemma dsub_num a b : is_finite a = true -> is_nan b = false -> is_nan (dsub a b) = false.
Proof. destruct a as [sa|?| |? ? ?], b as [sb|?| |? ? ?]; try done; intros; [by destruct sa, sb | apply normalize_num]. Qed.
Lemma ddiv_num a s m e : is_nan a = false -> is_nan (ddiv a (S754_finite s m e)) = false.
Proof.
  destruct a as [?|?| |? ma ea]; try done. intros _. unfold ddiv, SFdiv.
  destruct (SFdiv_core_binary _ _ _ _ _ _) as [[mz ez] lz] eqn:E. apply round_aux_num.
  unfold SFdiv_core_binary in E. destruct (Z.div_eucl _ _) as [q r] eqn:Eq. injection E as <- <- <-.
  match type of Eq with Z.div_eucl ?x ?y = _ => assert (q = x / y) as -> by (unfold Z.div; by rewrite Eq); apply Z.div_pos; [|lia] end.
  destruct (_ - _)%Z eqn:?; try lia. apply Z.shiftl_nonneg. lia.
Qed.
