(* ===== verification/FloatInts.v ===== *)
(** * FloatInts: whole numbers in binary64

    Below 2^53 an integer has one normal representation, sums and differences of integers are exact, and
    the comparisons are the integers'. *)

From Stdlib Require Import ZArith Lia SpecFloat.
From stdpp Require Import base tactics list.
From S2P Require Import Prelude Floats.

(** ** Shifts *)
Definition dig (z : Z) : Z := Z.log2 z + 1.
Lemma digits2_log2 p : Z.pos (digits2_pos p) = dig (Z.pos p).
Proof.
  unfold dig. induction p as [p IH|p IH|]; [| |done]; cbn [digits2_pos]; rewrite Pos2Z.inj_succ, IH.
  - replace (Z.pos p~1) with (2 * Z.pos p + 1) by lia. rewrite Z.log2_succ_double by lia. lia.
  - replace (Z.pos p~0) with (2 * Z.pos p) by lia. rewrite Z.log2_double by lia. lia.
Qed.
Lemma dig_shift z k : 0 < z -> 0 <= k -> dig (z * 2 ^ k) = dig z + k.
Proof. intros Hz Hk. unfold dig. rewrite Z.log2_mul_pow2 by lia. lia. Qed.
Lemma dig_small z : 0 < z < 2 ^ 53 -> 1 <= dig z <= 53.
Proof. intros [H1 H2]. unfold dig. apply Z.log2_lt_pow2 in H2; [|done]. pose proof (Z.log2_nonneg z). lia. Qed.
Lemma shl_align_spec m e e' : Z.pos (shl_align m e e').1 = Z.pos m * 2 ^ Z.max 0 (e - e') /\ (shl_align m e e').2 = Z.min e e'.
Proof.
  unfold shl_align. destruct (e' - e) as [|d|d] eqn:E; cbn [fst snd].
  - rewrite Z.max_l by lia. lia.
  - rewrite Z.max_l by lia. lia.
  - rewrite Z.max_r by lia. replace (e - e') with (Z.pos d) by lia. split; [|lia]. clear. revert m. induction d as [|d IH] using Pos.peano_ind; intros m; [cbn; lia|].
    rewrite Pos.iter_succ, Pos2Z.inj_succ, Z.pow_succ_r by lia. replace (Z.pos (Pos.iter xO m d)~0) with (2 * Z.pos (Pos.iter xO m d)) by lia. rewrite IH. lia.
Qed.
Lemma iter_pos_iter {A} (f : A -> A) n x : SpecFloat.iter_pos f n x = Pos.iter f x n.
Proof. revert x. induction n as [n IH|n IH|]; intros x; cbn [SpecFloat.iter_pos]; [| |done]; rewrite !IH; cbn [Pos.iter]; [|done]. by rewrite !Pos.iter_swap. Qed.
Lemma shr_exact M j : 0 < M -> SpecFloat.iter_pos shr_1 j {| shr_m := M * 2 ^ Z.pos j; shr_r := false; shr_s := false |} = {| shr_m := M; shr_r := false; shr_s := false |}.
Proof.
  intros HM. rewrite iter_pos_iter. revert M HM. induction j as [|j IH] using Pos.peano_ind; intros M HM; [cbn [Pos.iter]; rewrite Z.pow_1_r, Z.mul_comm; by destruct M|].
  rewrite Pos2Z.inj_succ, Z.pow_succ_r by lia. rewrite Pos.iter_succ. replace (M * (2 * 2 ^ Z.pos j)) with ((M * 2) * 2 ^ Z.pos j) by lia. rewrite IH by lia. rewrite Z.mul_comm. by destruct M.
Qed.

(** ** The representation *)
Definition pos_of (z : Z) : positive := Z.to_pos z.
Definition canon (s : bool) (z : Z) : dbl := S754_finite s (pos_of (z * 2 ^ (53 - dig z))) (dig z - 53).
Lemma round_aux_canon s p j : 0 < p < 2 ^ 53 -> dig p - 53 <= 0 -> 0 <= j ->
  binary_round_aux 53 1024 s (p * 2 ^ (53 - dig p) * 2 ^ j) (dig p - 53 - j) loc_Exact = canon s p.
Proof.
  intros Hp Hd Hj. pose proof (dig_small p Hp) as HD. set (M := p * 2 ^ (53 - dig p)). assert (0 < 2 ^ (53 - dig p)) as H53 by (apply Z.pow_pos_nonneg; lia). assert (0 < 2 ^ j) by (apply Z.pow_pos_nonneg; lia).
  assert (0 < M) as HM by (subst M; nia). assert (dig M = 53) as DM by (subst M; rewrite dig_shift; lia).
  assert (forall z, 0 < z -> Zdigits2 z = dig z) as Hz by (intros [|z|z] Hz; [lia | by apply digits2_log2 | lia]).
  assert (shr_fexp 53 1024 (M * 2 ^ j) (dig p - 53 - j) loc_Exact = ({| shr_m := M; shr_r := false; shr_s := false |}, dig p - 53)) as E1.
  { unfold shr_fexp, shr_record_of_loc. rewrite Hz by nia. rewrite dig_shift, DM by lia. unfold fexp, emin. rewrite Z.max_l by lia. replace (53 + j + (dig p - 53 - j) - 53 - (dig p - 53 - j)) with j by lia. unfold shr. destruct j as [|j|j]; [f_equal; [f_equal; lia | lia] | rewrite shr_exact by done; f_equal; lia | lia]. }
  assert (shr_fexp 53 1024 M (dig p - 53) loc_Exact = ({| shr_m := M; shr_r := false; shr_s := false |}, dig p - 53)) as E2.
  { unfold shr_fexp, shr_record_of_loc. rewrite Hz, DM by done. unfold fexp, emin. rewrite Z.max_l by lia. replace (53 + (dig p - 53) - 53 - (dig p - 53)) with 0 by lia. done. }
  unfold binary_round_aux. rewrite E1. cbn [shr_m loc_of_shr_record round_nearest_even]. rewrite E2. cbn [shr_m]. unfold canon. fold M. destruct M as [|q|q]; try lia. rewrite (proj2 (Z.leb_le _ _)) by lia. done.
Qed.
(** An integer scaled up by 2^k with the exponent -k is the integer. *)
Lemma normalize_pos s p k : 0 < Z.pos p < 2 ^ 53 -> 0 <= k -> binary_round 53 1024 s (pos_of (Z.pos p * 2 ^ k)) (- k) = canon s (Z.pos p).
Proof.
  intros Hp Hk. pose proof (dig_small _ Hp) as HD. assert (0 < 2 ^ k) by (apply Z.pow_pos_nonneg; lia). unfold binary_round.
  assert (Z.pos (pos_of (Z.pos p * 2 ^ k)) = Z.pos p * 2 ^ k) as Em by (unfold pos_of; rewrite Z2Pos.id; lia).
  rewrite digits2_log2, Em, dig_shift by lia. unfold fexp, emin. rewrite Z.max_l by lia. replace (dig (Z.pos p) + k + - k - 53) with (dig (Z.pos p) - 53) by lia.
  pose proof (shl_align_spec (pos_of (Z.pos p * 2 ^ k)) (- k) (dig (Z.pos p) - 53)) as [E1 E2]. destruct (shl_align _ _ _) as [mz ez]. cbn [fst snd] in E1, E2. rewrite E1, Em, E2.
  destruct (Z.le_gt_cases 0 (dig (Z.pos p) - 53 + k)).
  - rewrite Z.max_l, Z.min_l by lia. rewrite <- (round_aux_canon s (Z.pos p) (dig (Z.pos p) - 53 + k)) by lia. f_equal; [|lia]. rewrite Z.mul_1_r, <- !Z.mul_assoc, <- !Z.pow_add_r by lia. do 2 f_equal. lia.
  - rewrite Z.max_r, Z.min_r by lia. rewrite <- (round_aux_canon s (Z.pos p) 0) by lia. f_equal; [|lia]. rewrite Z.mul_1_r, <- !Z.mul_assoc, <- !Z.pow_add_r by lia. do 2 f_equal. lia.
Qed.
Definition small (z : Z) : Prop := Z.abs z < 2 ^ 53.
Definition whole (z : Z) : dbl := if z =? 0 then S754_zero false else canon (z <? 0) (Z.abs z).
Lemma normalize_whole z k : small z -> 0 <= k -> binary_normalize 53 1024 (z * 2 ^ k) (- k) false = whole z.
Proof.
  intros Hz Hk. unfold small in Hz. assert (0 < 2 ^ k) by (apply Z.pow_pos_nonneg; lia). unfold binary_normalize, whole. destruct z as [|p|p]; [done| |].
  - pose proof (normalize_pos false p k) as Hn. unfold pos_of in Hn. destruct (Z.pos p * 2 ^ k) as [|q|q] eqn:E; [lia| |lia]. cbn in Hn. rewrite Hn by lia. done.
  - pose proof (normalize_pos true p k) as Hn. unfold pos_of in Hn. destruct (Z.pos p * 2 ^ k) as [|q|q] eqn:E; [lia| |lia]. replace (Z.neg p * 2 ^ k) with (Z.neg q) by lia. cbn in Hn. rewrite Hn by lia. done.
Qed.
Lemma of_Z_whole z : small z -> of_Z z = whole z.
Proof. intros Hz. unfold of_Z. rewrite <- (normalize_whole z 0) by done. by rewrite Z.mul_1_r. Qed.

(** ** Arithmetic *)
Lemma aligned s z e : 0 < z < 2 ^ 53 -> e <= dig z - 53 ->
  cond_Zopp s (Z.pos (shl_align (pos_of (z * 2 ^ (53 - dig z))) (dig z - 53) e).1) = (if s then - z else z) * 2 ^ (- e).
Proof.
  intros Hz He. pose proof (dig_small z Hz). assert (0 < 2 ^ (53 - dig z)) by (apply Z.pow_pos_nonneg; lia). destruct (shl_align_spec (pos_of (z * 2 ^ (53 - dig z))) (dig z - 53) e) as [-> _].
  unfold pos_of. rewrite Z2Pos.id by nia. rewrite Z.max_r by lia. rewrite <- Z.mul_assoc, <- Z.pow_add_r by lia. replace (53 - dig z + (dig z - 53 - e)) with (- e) by lia. destruct s; cbn [cond_Zopp]; lia.
Qed.
Lemma signed a : (if a <? 0 then - Z.abs a else Z.abs a) = a.
Proof. destruct (Z.ltb_spec a 0); lia. Qed.
Lemma of_Z_add a b : small a -> small b -> small (a + b) -> dadd (of_Z a) (of_Z b) = of_Z (a + b).
Proof.
  intros Ha Hb Hab. rewrite !of_Z_whole by done. unfold dadd. unfold whole at 1 2. destruct (Z.eqb_spec a 0) as [->|Ea], (Z.eqb_spec b 0) as [->|Eb]; [done | | |].
  - unfold canon. rewrite Z.add_0_l. unfold whole. by rewrite (proj2 (Z.eqb_neq _ _) Eb).
  - unfold canon. rewrite Z.add_0_r. unfold whole. by rewrite (proj2 (Z.eqb_neq _ _) Ea).
  - unfold canon, small in *. cbn [SFadd]. pose proof (dig_small (Z.abs a)). pose proof (dig_small (Z.abs b)). rewrite !aligned by lia. rewrite !signed, <- Z.mul_add_distr_r.
    rewrite <- (normalize_whole (a + b) (- Z.min (dig (Z.abs a) - 53) (dig (Z.abs b) - 53))) by (unfold small; lia). by rewrite Z.opp_involutive.
Qed.
Lemma of_Z_sub a b : small a -> small b -> small (a - b) -> dsub (of_Z a) (of_Z b) = of_Z (a - b).
Proof.
  intros Ha Hb Hab. rewrite !of_Z_whole by done. unfold dsub. unfold whole at 1 2. destruct (Z.eqb_spec a 0) as [->|Ea], (Z.eqb_spec b 0) as [->|Eb]; [done | | |].
  - unfold canon. cbn [SFsub]. unfold whole, canon. rewrite (proj2 (Z.eqb_neq (0 - b) 0)) by lia. rewrite Z.sub_0_l, Z.abs_opp. f_equal. destruct (Z.ltb_spec b 0), (Z.ltb_spec (- b) 0); done || lia.
  - unfold canon. rewrite Z.sub_0_r. unfold whole. by rewrite (proj2 (Z.eqb_neq _ _) Ea).
  - unfold canon, small in *. cbn [SFsub]. pose proof (dig_small (Z.abs a)). pose proof (dig_small (Z.abs b)). rewrite !aligned by lia. rewrite !signed, <- Z.mul_sub_distr_r.
    rewrite <- (normalize_whole (a - b) (- Z.min (dig (Z.abs a) - 53) (dig (Z.abs b) - 53))) by (unfold small; lia). by rewrite Z.opp_involutive.
Qed.
Lemma of_Z_abs a : small a -> SFabs (of_Z a) = of_Z (Z.abs a).
Proof. intros Ha. rewrite !of_Z_whole by (unfold small in *; lia). unfold whole. destruct (Z.eqb_spec a 0) as [->|E]; [done|]. rewrite (proj2 (Z.eqb_neq (Z.abs a) 0)) by lia. rewrite (proj2 (Z.ltb_ge (Z.abs a) 0)) by lia. cbn. unfold canon. by rewrite Z.abs_idemp. Qed.
Lemma canon_compare a b : 0 < a < 2 ^ 53 -> 0 < b < 2 ^ 53 -> SFcompare (canon false a) (canon false b) = Some (a ?= b).
Proof.
  intros Ha Hb. pose proof (dig_small a Ha). pose proof (dig_small b Hb). unfold canon. cbn [SFcompare]. f_equal. unfold dig in *. destruct (Z.compare_spec (Z.log2 a + 1 - 53) (Z.log2 b + 1 - 53)) as [E|E|E].
  - assert (0 < 2 ^ (53 - (Z.log2 b + 1))) as HP by (apply Z.pow_pos_nonneg; lia). replace (Z.log2 a) with (Z.log2 b) by lia. set (P := 2 ^ _) in *. change (Pos.compare_cont Eq ?x ?y) with (Pos.compare x y). unfold pos_of. change (Pos.compare ?x ?y) with (Z.pos x ?= Z.pos y); rewrite !Z2Pos.id by nia. symmetry. apply Zmult_compare_compat_r. lia.
  - symmetry. apply Z.compare_lt_iff. apply Z.log2_lt_cancel. lia.
  - symmetry. apply Z.compare_gt_iff. apply Z.log2_lt_cancel. lia.
Qed.
Lemma of_Z_leb a b : 0 < a < 2 ^ 53 -> 0 <= b < 2 ^ 53 -> dleb (of_Z a) (of_Z b) = (a <=? b).
Proof.
  intros Ha Hb. rewrite !of_Z_whole by (unfold small; lia). unfold whole. rewrite (proj2 (Z.eqb_neq a 0)), (proj2 (Z.ltb_ge a 0)), (proj2 (Z.ltb_ge b 0)), !Z.abs_eq by lia. unfold dleb, SFleb. destruct (Z.eqb_spec b 0) as [->|Eb]; [cbn; lia|].
  rewrite canon_compare by lia. unfold Z.leb. by destruct (a ?= b).
Qed.
Lemma of_Z_neg a : small a -> dltb (of_Z a) (of_Z 0) = (a <? 0).
Proof. intros Ha. rewrite of_Z_whole by done. unfold whole. destruct (Z.eqb_spec a 0) as [->|E]; [done|]. unfold canon. by destruct (Z.ltb_spec a 0). Qed.
