(* ===== verification/TierPolicy.v ===== *)
(** * TierPolicy: one viewer's tier on one track (media/tier_policy.cpp) *)

From Stdlib Require Import ZArith Lia String.
From stdpp Require Import base tactics list strings.
From S2P Require Import Prelude Floats.

(** Nanoseconds of the steady clock. *)
Definition DEMOTE_AFTER : Z := 2000 * 10 ^ 6.
Definition PROMOTE_AFTER : Z := 5000 * 10 ^ 6.
Definition PROMOTE_MARGIN : dbl := Eval vm_compute in lit 12 10.
Definition TESTED_RATIO : dbl := Eval vm_compute in lit 9 10.

Inductive Evidence := none | untested | tested.
#[global] Instance Evidence_eq_dec : EqDecision Evidence.
Proof. solve_decision. Defined.

Record TierPolicy := {
  demanded_ : string; effective_ : string; overridden_ : bool;
  below_since_ : option Z; above_since_ : option Z
}.
Definition new_policy : TierPolicy :=
  {| demanded_ := "active"; effective_ := "active"; overridden_ := false; below_since_ := None; above_since_ := None |}.

Definition set_demanded (t : string) (p : TierPolicy) : TierPolicy :=
  let p := {| p with demanded_ := t |} in
  let p := if negb (String.eqb t "active") then {| p with overridden_ := false; below_since_ := None; above_since_ := None |} else p in
  {| p with effective_ := if overridden_ p then "thumbnail" else t |}.

Definition update (allotment_bps active_low_bps : dbl) (lower_possible : bool) (ev : Evidence) (now : Z) (p : TierPolicy)
  : TierPolicy * option string :=
  if negb (String.eqb (demanded_ p) "active") then (p, None)
  else if bool_decide (ev = none) then (p, None)
  else
    let estimate_tested := bool_decide (ev = tested) in
    if negb (overridden_ p) then
      if negb lower_possible || negb estimate_tested || (active_low_bps <=? allotment_bps)%dbl then ({| p with below_since_ := None |}, None)
      else
        let since := default now (below_since_ p) in
        let p := {| p with below_since_ := Some since |} in
        if now - since <? DEMOTE_AFTER then (p, None)
        else ({| p with below_since_ := None; overridden_ := true; effective_ := "thumbnail" |}, Some "thumbnail"%string)
    else if (allotment_bps <? PROMOTE_MARGIN * active_low_bps)%dbl then ({| p with above_since_ := None |}, None)
    else
      let since := default now (above_since_ p) in
      let p := {| p with above_since_ := Some since |} in
      if now - since <? PROMOTE_AFTER then (p, None)
      else ({| p with above_since_ := None; overridden_ := false; effective_ := "active" |}, Some "active"%string).

(** ** Runs of ticks and demands *)
Record Tick := { tk_allot : dbl; tk_low : dbl; tk_lower : bool; tk_ev : Evidence; tk_now : Z }.
Inductive POp := PDemand (t : string) | PTick (k : Tick).
Definition pstep (p : TierPolicy) (o : POp) : TierPolicy :=
  match o with
  | PDemand t => set_demanded t p
  | PTick k => (update (tk_allot k) (tk_low k) (tk_lower k) (tk_ev k) (tk_now k) p).1
  end.
Definition prun (ops : list POp) : TierPolicy := foldl pstep new_policy ops.

(** A tick that counts against the viewer, and one that counts for it. *)
Definition bad_tick (k : Tick) : bool := tk_lower k && bool_decide (tk_ev k = tested) && negb (tk_low k <=? tk_allot k)%dbl.
Definition good_tick (k : Tick) : bool := negb (bool_decide (tk_ev k = none)) && negb (tk_allot k <? PROMOTE_MARGIN * tk_low k)%dbl.
Definition counts (good : bool) (k : Tick) : bool := if good then good_tick k else bad_tick k.
(** A tick without feedback, and repeating the same demand, say nothing about the link. *)
Definition silent (o : POp) : bool :=
  match o with PTick k => bool_decide (tk_ev k = none) | PDemand t => String.eqb t "active" end.

(** [streak good ops t]: the run ends in ticks of one kind, the first of them at [t], with only
    silent steps between and after them. *)
Inductive streak (good : bool) : list POp -> Z -> Prop :=
| streak_first k ops : counts good k = true -> streak good (ops ++ [PTick k]) (tk_now k)
| streak_more k ops t : counts good k = true -> streak good ops t -> streak good (ops ++ [PTick k]) t
| streak_silent o ops t : silent o = true -> streak good ops t -> streak good (ops ++ [o]) t.

Record policy_inv (ops : list POp) (p : TierPolicy) : Prop := {
  pi_effective : effective_ p = if overridden_ p then "thumbnail"%string else demanded_ p;
  pi_override : overridden_ p = true -> demanded_ p = "active"%string;
  pi_below : forall t, below_since_ p = Some t -> demanded_ p = "active"%string /\ overridden_ p = false /\ streak false ops t;
  pi_above : forall t, above_since_ p = Some t -> overridden_ p = true /\ streak true ops t
}.

Lemma streak_default good ops k o : counts good k = true -> (forall t, o = Some t -> streak good ops t) ->
  streak good (ops ++ [PTick k]) (default (tk_now k) o).
Proof. intros Hk Ho. destruct o as [t|]; simpl; [by apply streak_more, Ho | by apply streak_first]. Qed.

(** What one tick does, by the kind of tick it is. *)
Lemma update_cases k p : let u := update (tk_allot k) (tk_low k) (tk_lower k) (tk_ev k) (tk_now k) p in
  (demanded_ p <> "active"%string \/ tk_ev k = none) /\ u = (p, None)
  \/ (demanded_ p = "active"%string /\ tk_ev k <> none) /\ overridden_ p = false /\ bad_tick k = false /\ u = ({| p with below_since_ := None |}, None)
  \/ (demanded_ p = "active"%string /\ tk_ev k <> none) /\ overridden_ p = false /\ bad_tick k = true /\
     (let since := default (tk_now k) (below_since_ p) in
      (tk_now k - since < DEMOTE_AFTER /\ u = ({| p with below_since_ := Some since |}, None))
      \/ (DEMOTE_AFTER <= tk_now k - since /\ u = ({| p with below_since_ := None; overridden_ := true; effective_ := "thumbnail" |}, Some "thumbnail"%string)))
  \/ (demanded_ p = "active"%string /\ tk_ev k <> none) /\ overridden_ p = true /\ good_tick k = false /\ u = ({| p with above_since_ := None |}, None)
  \/ (demanded_ p = "active"%string /\ tk_ev k <> none) /\ overridden_ p = true /\ good_tick k = true /\
     (let since := default (tk_now k) (above_since_ p) in
      (tk_now k - since < PROMOTE_AFTER /\ u = ({| p with above_since_ := Some since |}, None))
      \/ (PROMOTE_AFTER <= tk_now k - since /\ u = ({| p with above_since_ := None; overridden_ := false; effective_ := "active" |}, Some "active"%string))).
Proof.
  destruct k as [a l lo ev now], p as [d e o b ab]. unfold update, bad_tick, good_tick. simpl.
  destruct (String.eqb_spec d "active"); simpl; [|left; auto].
  destruct (bool_decide_reflect (ev = none)); [left; auto|]. right. simpl.
  destruct o; simpl.
  - right. right. destruct (a <? PROMOTE_MARGIN * l)%dbl; simpl; [left; by split_and!|]. right. split_and!; [done..|].
    destruct (Z.ltb_spec (now - default now ab) PROMOTE_AFTER); [left | right]; by split.
  - destruct lo, (bool_decide_reflect (ev = tested)), (l <=? a)%dbl; simpl; try (left; by split_and!).
    right. left. split_and!; [done..|].
    destruct (Z.ltb_spec (now - default now b) DEMOTE_AFTER); [left | right]; by split.
Qed.

Lemma pstep_inv ops p o : policy_inv ops p -> policy_inv (ops ++ [o]) (pstep p o).
Proof.
  intros [He Ho Hb Ha]. destruct o as [t|k]; simpl.
  - unfold set_demanded. destruct (String.eqb_spec t "active") as [->|Hne]; simpl; [|by split].
    split; simpl; [done | done | |]; intros t Ht; [destruct (Hb t Ht) as (_ & ? & ?)|destruct (Ha t Ht)]; split_and!; try done; by apply streak_silent.
  - assert (bad_tick k = true -> streak false (ops ++ [PTick k]) (default (tk_now k) (below_since_ p))) as Hbad.
    { intros Hk. apply (streak_default false); [done|]. intros t Ht. by apply Hb. }
    assert (good_tick k = true -> streak true (ops ++ [PTick k]) (default (tk_now k) (above_since_ p))) as Hgood.
    { intros Hk. apply (streak_default true); [done|]. intros t Ht. by apply Ha. }
    destruct (update_cases k p) as [[Hs ->]|[([Hdem Hev] & Hov & Hk & ->)|[([Hdem Hev] & Hov & Hk & [[Ht ->]|[Ht ->]])|[([Hdem Hev] & Hov & Hk & ->)|([Hdem Hev] & Hov & Hk & [[Ht ->]|[Ht ->]])]]]];
      split; simpl; try done; try congruence.
    all: try (intros t Hx; by destruct (Ha t Hx); congruence).
    all: try (intros t Hx; by destruct (Hb t Hx) as (_ & ? & _); congruence).
    + intros t Hx. destruct (Hb t Hx) as (Hd & ? & ?). destruct Hs as [?|Hs]; [done|]. split_and!; try done.
      apply streak_silent; [|done]. simpl. by rewrite bool_decide_true.
    + intros t Hx. destruct (Ha t Hx) as (Hov & ?). destruct Hs as [Hs|Hs]; [by destruct (Hs (Ho Hov))|]. split_and!; try done.
      apply streak_silent; [|done]. simpl. by rewrite bool_decide_true.
    + intros t [= <-]. split_and!; auto.
    + intros t [= <-]. split_and!; auto.
Qed.
Lemma prun_inv ops : policy_inv ops (prun ops).
Proof.
  induction ops as [|o ops IH] using rev_ind; [by split|]. unfold prun. rewrite foldl_app. by apply pstep_inv.
Qed.

(** ** Hysteresis *)
(** A viewer's tier changes only on sustained evidence. Whatever the sequence of demands and
    ticks, a tick that lowers the tier closes an unbroken streak of ticks at least 2 s long in
    which the peer pushed against an estimate below the active band, a tick that restores it a
    streak at least 5 s long above 1.2 times the band's floor; and the tier sent is always the
    demand, or the thumbnail while an active demand is held down. *)
Theorem tier_hysteresis ops k p' t :
  update (tk_allot k) (tk_low k) (tk_lower k) (tk_ev k) (tk_now k) (prun ops) = (p', Some t) ->
  (t = "thumbnail"%string /\ exists t0, streak false (ops ++ [PTick k]) t0 /\ DEMOTE_AFTER <= tk_now k - t0)
  \/ (t = "active"%string /\ exists t0, streak true (ops ++ [PTick k]) t0 /\ PROMOTE_AFTER <= tk_now k - t0).
Proof.
  intros Hu. pose proof (prun_inv ops) as [_ _ Hb Ha].
  destruct (update_cases k (prun ops)) as [[Hs E]|[([Hdem Hev] & Hov & Hk & E)|[([Hdem Hev] & Hov & Hk & [[Ht E]|[Ht E]])|[([Hdem Hev] & Hov & Hk & E)|([Hdem Hev] & Hov & Hk & [[Ht E]|[Ht E]])]]]];
    rewrite E in Hu; try done; injection Hu as <- <-; [left | right]; (split; [done|]); eexists; (split; [|exact Ht]).
  - apply (streak_default false); [done|]. intros t Hx. by apply Hb.
  - apply (streak_default true); [done|]. intros t Hx. by apply Ha.
Qed.

Definition tick_at (a l : Z) (ms : Z) : Tick := {| tk_allot := of_Z a; tk_low := of_Z l; tk_lower := true; tk_ev := tested; tk_now := ms * 10 ^ 6 |}.
Lemma tier_hysteresis_witness :
  exists p' t, update (of_Z 100) (of_Z 800) true tested (2100 * 10 ^ 6) (prun [PTick (tick_at 100 800 0); PTick (tick_at 90 800 1000)]) = (p', Some t)
  /\ ((t = "thumbnail"%string /\ exists t0, streak false ([PTick (tick_at 100 800 0); PTick (tick_at 90 800 1000)] ++ [PTick (tick_at 100 800 2100)]) t0
       /\ DEMOTE_AFTER <= 2100 * 10 ^ 6 - t0)
     \/ (t = "active"%string /\ exists t0, streak true ([PTick (tick_at 100 800 0); PTick (tick_at 90 800 1000)] ++ [PTick (tick_at 100 800 2100)]) t0
       /\ PROMOTE_AFTER <= 2100 * 10 ^ 6 - t0)).
Proof.
  do 2 eexists. split; [vm_compute; reflexivity|].
  eapply (tier_hysteresis [PTick (tick_at 100 800 0); PTick (tick_at 90 800 1000)] (tick_at 100 800 2100)).
  vm_compute. reflexivity.
Defined.

(** Ticks that count against the viewer keep the clock of the first of them. *)
Lemma bad_run ks : forall p t0, demanded_ p = "active"%string -> overridden_ p = false -> below_since_ p = Some t0 ->
  Forall (fun k => (bad_tick k = true \/ tk_ev k = none) /\ tk_now k - t0 < DEMOTE_AFTER) ks ->
  let q := foldl pstep p (map PTick ks) in demanded_ q = "active"%string /\ overridden_ q = false /\ below_since_ q = Some t0.
Proof.
  induction ks as [|k ks IH]; intros p t0 Hd Hov Hb Hks; simpl; [done|]. apply Forall_cons in Hks as [[Hk Ht] Hks].
  destruct (update_cases k p) as [[Hs ->]|[([_ Hev] & _ & Hk' & ->)|[(_ & _ & Hk' & [[_ ->]|[Ht' ->]])|[(_ & Hov' & _)|(_ & Hov' & _)]]]]; try congruence.
  - by apply IH.
  - destruct Hk; congruence.
  - apply IH; simpl; try done. by rewrite Hb.
  - rewrite Hb in Ht'. simpl in Ht'. lia.
Qed.

(** And it does change: once the ticks with feedback have all counted against an active viewer
    for 2 s, whatever silent ticks lie between, the next such tick lowers its tier. *)
Theorem demote_prompt p k0 ks k : demanded_ p = "active"%string -> overridden_ p = false -> below_since_ p = None ->
  bad_tick k0 = true -> Forall (fun j => (bad_tick j = true \/ tk_ev j = none) /\ tk_now j - tk_now k0 < DEMOTE_AFTER) ks ->
  bad_tick k = true -> DEMOTE_AFTER <= tk_now k - tk_now k0 ->
  (update (tk_allot k) (tk_low k) (tk_lower k) (tk_ev k) (tk_now k) (foldl pstep p (map PTick (k0 :: ks)))).2 = Some "thumbnail"%string.
Proof.
  intros Hd Hov Hb Hk0 Hks Hk Ht. simpl foldl.
  assert (tk_ev k <> none) as Hev.
  { intros E. unfold bad_tick in Hk. rewrite E in Hk. rewrite (bool_decide_false (none = tested)) in Hk by done. by rewrite andb_false_r in Hk. }
  assert (pstep p (PTick k0) = {| p with below_since_ := Some (tk_now k0) |}) as E0.
  { simpl. destruct (update_cases k0 p) as [[[?|He] _]|[(_ & _ & ? & _)|[(_ & _ & _ & [[_ ->]|[Ht0 _]])|[(_ & ? & _)|(_ & ? & _)]]]]; try congruence.
    - unfold bad_tick in Hk0. rewrite He in Hk0. rewrite (bool_decide_false (none = tested)) in Hk0 by done. by rewrite andb_false_r in Hk0.
    - by rewrite Hb.
    - rewrite Hb in Ht0. simpl in Ht0. unfold DEMOTE_AFTER in Ht0. lia. }
  simpl in E0. rewrite E0.
  destruct (bad_run ks {| p with below_since_ := Some (tk_now k0) |} (tk_now k0) Hd Hov eq_refl Hks) as (Hd' & Hov' & Hb').
  destruct (update_cases k (foldl pstep {| p with below_since_ := Some (tk_now k0) |} (map PTick ks)))
    as [[[?|?] _]|[(_ & _ & ? & _)|[(_ & _ & _ & [[Ht' _]|[_ ->]])|[(_ & ? & _)|(_ & ? & _)]]]]; try congruence; [|done].
  rewrite Hb' in Ht'. simpl in Ht'. lia.
Qed.

Lemma demote_prompt_witness :
  (update (of_Z 100) (of_Z 800) true tested (2100 * 10 ^ 6) (foldl pstep new_policy (map PTick [tick_at 100 800 0; tick_at 90 800 1000]))).2
  = Some "thumbnail"%string.
Proof.
  apply (demote_prompt new_policy (tick_at 100 800 0) [tick_at 90 800 1000] (tick_at 100 800 2100)); try done.
  constructor; [|constructor]. split; [left; reflexivity | reflexivity].
Defined.
