(* ===== verification/RateEstimator.v ===== *)
(** * RateEstimator: one peer's congestion estimate (media/rate_estimator.cpp)

    Bitrates are binary64 values as in the source; time points are nanoseconds. *)

From Stdlib Require Import ZArith Lia String SpecFloat Sorted.
From stdpp Require Import base tactics list strings.
From S2P Require Import Prelude Floats.

Record TwccSample := {
  bitrate_sent : dbl; bitrate_recv : dbl; s_loss_pct : dbl;
  avg_delta_of_delta_ns : Z; packets : Z; packets_recv : Z
}.
Record RateLimits := { floor_bps : dbl; ceiling_bps : dbl }.

Definition LOSS_HIGH_PCT : dbl := Eval vm_compute in of_Z 10.
Definition LOSS_LOW_PCT : dbl := Eval vm_compute in of_Z 2.
Definition COLLAPSE_RATIO : dbl := Eval vm_compute in lit 7 10.
Definition COLLAPSE_WINDOWS : Z := 3.
Definition CARRIED_RATIO : dbl := Eval vm_compute in lit 8 10.
Definition UNCAPPED_RATIO : dbl := Eval vm_compute in lit 9 10.
Definition OVERUSE_NS : Z := 3000000.
Definition OVERUSE_WINDOWS : Z := 3.
Definition MIN_WINDOW_PACKETS : dbl := Eval vm_compute in of_Z 10.
Definition GROW_PER_S : dbl := Eval vm_compute in lit 5 100.
Definition RECOVER_PER_S : dbl := Eval vm_compute in lit 30 100.
Definition OVERUSE_FACTOR : dbl := Eval vm_compute in lit 85 100.
Definition LOSS_CUT_HOLD : Z := 1000 * 10 ^ 6.
Definition d0 : dbl := Eval vm_compute in of_Z 0.
Definition d1 : dbl := Eval vm_compute in of_Z 1.
Definition d1_5 : dbl := Eval vm_compute in lit 15 10.
Definition d100 : dbl := Eval vm_compute in of_Z 100.
Definition d200 : dbl := Eval vm_compute in of_Z 200.
Definition d1e9 : dbl := Eval vm_compute in of_Z (10 ^ 9).

Inductive RState := Hold | Increase | Decrease.
Record Window := { w_at : Z; w_packets : dbl; w_lost : dbl; w_acked : dbl }.
Record RateEstimator := {
  limits_ : RateLimits; estimate_ : dbl; last_good_ : dbl; last_ : Z; last_loss_cut_ : Z; loss_cut_seen_ : bool;
  windows_ : list Window; loss_pct_ : dbl; ratio_ : dbl; overuse_streak_ : Z; collapse_streak_ : Z; state_ : RState; decreases_ : Z
}.

Definition clamp (l : RateLimits) (v : dbl) : dbl := dclamp (floor_bps l) (ceiling_bps l) v.

Definition new_estimator (l : RateLimits) (initial_bps : dbl) (now : Z) : RateEstimator :=
  let e := clamp l initial_bps in
  {| limits_ := l; estimate_ := e; last_good_ := e; last_ := now; last_loss_cut_ := 0; loss_cut_seen_ := false;
     windows_ := []; loss_pct_ := d0; ratio_ := d1; overuse_streak_ := 0; collapse_streak_ := 0; state_ := Hold; decreases_ := 0 |}.

Definition set_limits (l : RateLimits) (r : RateEstimator) : RateEstimator :=
  {| r with limits_ := l; estimate_ := clamp l (estimate_ r); last_good_ := clamp l (last_good_ r) |}.

Fixpoint pop_old (now : Z) (l : list Window) : list Window :=
  match l with [] => [] | w :: l' => if 10 ^ 9 <? now - w_at w then pop_old now l' else l end.

(** The measurements of one window: the rolling second, the loss, the carried ratios, the streaks. *)
Definition measure (s : TwccSample) (now : Z) (r : RateEstimator) : RateEstimator * dbl * bool :=
  let sent := of_Z (packets s) in
  let acked := if 0 <=? packets_recv s then of_Z (packets_recv s)
               else if (d0 <? bitrate_sent s)%dbl then (sent * bitrate_recv s / bitrate_sent s)%dbl else sent in
  let ws := pop_old now (windows_ r ++ [{| w_at := now; w_packets := sent; w_lost := (sent * s_loss_pct s / d100)%dbl; w_acked := acked |}]) in
  let pk := foldl (fun a w => (a + w_packets w)%dbl) d0 ws in
  let lost := foldl (fun a w => (a + w_lost w)%dbl) d0 ws in
  let acked_sum := foldl (fun a w => (a + w_acked w)%dbl) d0 ws in
  let loss := if (MIN_WINDOW_PACKETS <=? pk)%dbl then (d100 * lost / pk)%dbl else d0 in
  let rr := if (MIN_WINDOW_PACKETS <=? pk)%dbl then dmin d1 (acked_sum / pk)%dbl else d1 in
  let ratio := if (d0 <? bitrate_sent s)%dbl then dmin d1 (bitrate_recv s / bitrate_sent s)%dbl else rr in
  let overuse := OVERUSE_NS <? avg_delta_of_delta_ns s in
  ({| r with windows_ := ws; loss_pct_ := loss; ratio_ := rr;
             overuse_streak_ := if overuse then overuse_streak_ r + 1 else 0;
             collapse_streak_ := if (ratio <? COLLAPSE_RATIO)%dbl then collapse_streak_ r + 1 else 0 |}, ratio, overuse).

(** Which rule the window triggers. *)
Inductive Rule := ROveruse | RLoss | RGrow | RHold.
Definition rule (now : Z) (ratio : dbl) (overuse : bool) (r : RateEstimator) : Rule :=
  if OVERUSE_WINDOWS <=? overuse_streak_ r then ROveruse
  else if (LOSS_HIGH_PCT <? loss_pct_ r)%dbl && (COLLAPSE_WINDOWS <=? collapse_streak_ r)
          && (negb (loss_cut_seen_ r) || (LOSS_CUT_HOLD <=? now - last_loss_cut_ r)) then RLoss
  else if negb overuse && ((loss_pct_ r <? LOSS_LOW_PCT)%dbl || ((loss_pct_ r <? LOSS_HIGH_PCT)%dbl && (CARRIED_RATIO <=? ratio)%dbl)) then RGrow
  else RHold.

Definition apply_rule (ru : Rule) (s : TwccSample) (now : Z) (dt ratio : dbl) (r : RateEstimator) : RateEstimator :=
  let recv := bitrate_recv s in
  match ru with
  | ROveruse =>
    let base := if (d0 <? recv)%dbl then recv else estimate_ r in
    {| r with estimate_ := clamp (limits_ r) (dmin (estimate_ r) (OVERUSE_FACTOR * base)%dbl); overuse_streak_ := 0; state_ := Decrease |}
  | RLoss =>
    let cut := (estimate_ r * (d1 - loss_pct_ r / d200))%dbl in
    let cut := if (d0 <? recv)%dbl then dmin cut recv else cut in
    {| r with estimate_ := clamp (limits_ r) cut; last_loss_cut_ := now; loss_cut_seen_ := true; state_ := Decrease |}
  | RGrow =>
    let rate := if (estimate_ r <? last_good_ r)%dbl then RECOVER_PER_S else GROW_PER_S in
    let grown := (estimate_ r * (d1 + rate * dt))%dbl in
    let grown := if (d0 <? recv)%dbl && (ratio <? UNCAPPED_RATIO)%dbl then dmin grown (dmax (estimate_ r) (d1_5 * recv)%dbl) else grown in
    let e := clamp (limits_ r) grown in
    {| r with estimate_ := e; state_ := if (estimate_ r <? e)%dbl then Increase else Hold |}
  | RHold => {| r with state_ := Hold |}
  end.

Definition note_level (before : dbl) (r : RateEstimator) : RateEstimator :=
  match state_ r with
  | Decrease => if (estimate_ r <? before)%dbl then {| r with last_good_ := dmax (last_good_ r) before; decreases_ := decreases_ r + 1 |} else r
  | _ => if (last_good_ r <=? estimate_ r)%dbl then {| r with last_good_ := estimate_ r |} else r
  end.

Definition elapsed (now last : Z) : dbl := dmin d1 (dmax d0 (of_Z (now - last) / d1e9)%dbl).

Definition update (s : TwccSample) (now : Z) (r : RateEstimator) : RateEstimator :=
  let dt := elapsed now (last_ r) in
  let r := {| r with last_ := now |} in
  if packets s <=? 0 then {| r with state_ := Hold |}
  else
    let '(r1, ratio, overuse) := measure s now r in
    note_level (estimate_ r1) (apply_rule (rule now ratio overuse r1) s now dt ratio r1).

Definition state_name (r : RateEstimator) : string :=
  match state_ r with Increase => "increase" | Decrease => "decrease" | Hold => "hold" end.

(** ** The limits *)
(** What a configuration gives: two positive numbers in order. *)
Definition positive (a : dbl) : Prop := match a with S754_finite false _ _ => True | _ => False end.
Record limits_ok (l : RateLimits) : Prop := {
  lo_floor : positive (floor_bps l); lo_ceil : positive (ceiling_bps l); lo_le : dleb (floor_bps l) (ceiling_bps l) = true
}.
Definition within (l : RateLimits) (v : dbl) : Prop :=
  is_nan v = false /\ dleb (floor_bps l) v = true /\ dleb v (ceiling_bps l) = true.

Lemma positive_num a : positive a -> is_nan a = false.
Proof. by destruct a. Qed.
Lemma positive_gt0 a : positive a -> (d0 <? a)%dbl = true.
Proof. by destruct a as [| | |[] ? ?]. Qed.
Lemma clamp_within l v : limits_ok l -> is_nan v = false -> within l (clamp l v).
Proof. intros [Hf%positive_num Hc%positive_num Hle] Hv. by apply dclamp_range. Qed.
Lemma within_positive l v : limits_ok l -> within l v -> positive v.
Proof.
  intros [Hf Hc _] (Hn & H1 & H2). destruct (floor_bps l) as [| | |[] mf ef] eqn:Ef; try done. destruct (ceiling_bps l) as [| | |[] mc ec] eqn:Ec; try done.
  apply dleb_spec in H1; [|done|done]. apply dleb_spec in H2; [|done|done]. unfold key_lt in *.
  destruct v as [|[]| |[] m e]; simpl in *; try done; lia.
Qed.

Lemma elapsed_num now last : is_nan (elapsed now last) = false.
Proof. by apply dmin_nan. Qed.
Lemma loss_factor_num x : is_nan x = false -> is_nan (d1 - x / d200)%dbl = false.
Proof. intros Hx. apply dsub_num; [done|]. by apply ddiv_num. Qed.
Lemma grow_factor_num rate dt : positive rate -> is_nan dt = false -> is_nan (d1 + rate * dt)%dbl = false.
Proof. intros Hr Hd. apply dadd_num; [done|]. destruct rate as [| | |[] ? ?]; try done. by apply dmul_num. Qed.
Lemma scaled_num e x : positive e -> is_nan x = false -> is_nan (e * x)%dbl = false.
Proof. destruct e as [| | |[] ? ?]; try done. intros _ Hx. by apply dmul_num. Qed.

Lemma rule_loss_num now ratio ov r : rule now ratio ov r = RLoss -> is_nan (loss_pct_ r) = false.
Proof.
  unfold rule. destruct (_ <=? overuse_streak_ r); [done|]. destruct (LOSS_HIGH_PCT <? loss_pct_ r)%dbl eqn:E; simpl.
  - intros _. destruct (loss_pct_ r); try done.
  - destruct (negb ov && _); done.
Qed.

Lemma apply_rule_within s now dt ratio ov r : limits_ok (limits_ r) -> within (limits_ r) (estimate_ r) -> is_nan dt = false ->
  let r' := apply_rule (rule now ratio ov r) s now dt ratio r in limits_ r' = limits_ r /\ within (limits_ r) (estimate_ r').
Proof.
  intros Hl Hw Hdt. pose proof (within_positive _ _ Hl Hw) as Hpos. destruct (rule now ratio ov r) eqn:Er; simpl; (split; [done|]).
  - apply clamp_within; [done|]. apply dmin_nan, Hw.
  - apply clamp_within; [done|]. pose proof (scaled_num _ _ Hpos (loss_factor_num _ (rule_loss_num _ _ _ _ Er))).
    destruct (d0 <? bitrate_recv s)%dbl; [by apply dmin_nan | done].
  - apply clamp_within; [done|]. set (rate := if (estimate_ r <? last_good_ r)%dbl then _ else _).
    assert (positive rate) as Hr by (subst rate; by destruct (estimate_ r <? last_good_ r)%dbl).
    pose proof (scaled_num _ _ Hpos (grow_factor_num rate dt Hr Hdt)). destruct (_ && _); [by apply dmin_nan | done].
  - done.
Qed.
Lemma measure_keeps s now r : let '(r1, _, _) := measure s now r in
  limits_ r1 = limits_ r /\ estimate_ r1 = estimate_ r /\ last_good_ r1 = last_good_ r /\ last_loss_cut_ r1 = last_loss_cut_ r
  /\ loss_cut_seen_ r1 = loss_cut_seen_ r.
Proof. done. Qed.
Lemma note_level_keeps b r : limits_ (note_level b r) = limits_ r /\ estimate_ (note_level b r) = estimate_ r
  /\ last_loss_cut_ (note_level b r) = last_loss_cut_ r /\ loss_cut_seen_ (note_level b r) = loss_cut_seen_ r.
Proof. unfold note_level. destruct (state_ r); destruct (_ <=? _)%dbl || destruct (_ <? _)%dbl; done. Qed.

Lemma update_within s now r : limits_ok (limits_ r) -> within (limits_ r) (estimate_ r) ->
  limits_ (update s now r) = limits_ r /\ within (limits_ r) (estimate_ (update s now r)).
Proof.
  intros Hl Hw. unfold update. destruct (packets s <=? 0); [done|].
  destruct (measure s now _) as [[r1 ratio] ov] eqn:Em. pose proof (measure_keeps s now {| r with last_ := now |}) as Hk.
  rewrite Em in Hk. destruct Hk as (Hk1 & Hk2 & _). simpl in Hk1, Hk2.
  destruct (note_level_keeps (estimate_ r1) (apply_rule (rule now ratio ov r1) s now (elapsed now (last_ r)) ratio r1)) as (-> & -> & _).
  rewrite <- Hk1. apply apply_rule_within; rewrite ?Hk1, ?Hk2; try done. apply elapsed_num.
Qed.

(** A peer's session: feedback windows and changes of the limits. *)
Inductive EOp := EUpdate (s : TwccSample) (now : Z) | ELimits (l : RateLimits).
Definition estep (r : RateEstimator) (o : EOp) : RateEstimator :=
  match o with EUpdate s now => update s now r | ELimits l => set_limits l r end.
Definition eop_ok (o : EOp) : Prop := match o with ELimits l => limits_ok l | EUpdate _ _ => True end.

(** Whatever a peer's feedback says (not-a-number, infinite and negative values included), the
    estimate is never NaN and stays between the limits in force, through any sequence of windows
    and changes of the limits. *)
Theorem estimate_within_limits ops l initial now : limits_ok l -> is_nan initial = false -> Forall eop_ok ops ->
  let r := foldl estep (new_estimator l initial now) ops in within (limits_ r) (estimate_ r).
Proof.
  intros Hl Hi Hops. simpl.
  assert (forall r, limits_ok (limits_ r) /\ within (limits_ r) (estimate_ r) ->
    limits_ok (limits_ (foldl estep r ops)) /\ within (limits_ (foldl estep r ops)) (estimate_ (foldl estep r ops))) as Hgen.
  { induction Hops as [|o ops Ho Hops IH]; intros r [Hr1 Hr2]; simpl; [done|]. apply IH. destruct o as [s t|l']; simpl.
    - destruct (update_within s t r Hr1 Hr2) as [-> ?]. done.
    - split; [done|]. apply clamp_within; [done | apply Hr2]. }
  apply Hgen. split; [done|]. by apply clamp_within.
Qed.

Definition demo_limits : RateLimits := Eval vm_compute in {| floor_bps := of_Z 250000; ceiling_bps := of_Z 4800000 |}.
Definition bad_window : TwccSample :=
  {| bitrate_sent := of_Z 2000000; bitrate_recv := S754_nan; s_loss_pct := S754_infinity false; avg_delta_of_delta_ns := 5000000; packets := 50; packets_recv := -1 |}.
Lemma estimate_within_limits_witness :
  let r := foldl estep (new_estimator demo_limits (of_Z 1000000) 0) [EUpdate bad_window 1; EUpdate bad_window 2; EUpdate bad_window 3] in
  within (limits_ r) (estimate_ r).
Proof. apply estimate_within_limits; [by split | done | repeat constructor]. Defined.

(** ** Cuts *)
(** The rule a window triggers in a given state. *)
Definition rule_of (s : TwccSample) (now : Z) (r : RateEstimator) : Rule :=
  if packets s <=? 0 then RHold else let '(r1, ratio, ov) := measure s now {| r with last_ := now |} in rule now ratio ov r1.

Lemma update_estimate s now r : 0 < packets s -> exists r1 ratio, estimate_ r1 = estimate_ r /\ limits_ r1 = limits_ r
  /\ last_loss_cut_ r1 = last_loss_cut_ r /\ loss_cut_seen_ r1 = loss_cut_seen_ r
  /\ rule_of s now r = rule now ratio (OVERUSE_NS <? avg_delta_of_delta_ns s) r1
  /\ overuse_streak_ r1 = (if OVERUSE_NS <? avg_delta_of_delta_ns s then overuse_streak_ r + 1 else 0)
  /\ update s now r = note_level (estimate_ r) (apply_rule (rule_of s now r) s now (elapsed now (last_ r)) ratio r1).
Proof.
  intros Hp. exists (measure s now {| r with last_ := now |}).1.1, (measure s now {| r with last_ := now |}).1.2.
  unfold update, rule_of. rewrite (proj2 (Z.leb_gt _ _)) by lia. by split_and!.
Qed.

(** A cut follows what was delivered and never raises the rate by itself: a window that
    triggers the delay rule leaves the estimate at most where it was, and a window that triggers
    either rule while the peer reports a received bitrate leaves it at most at that bitrate (0.85
    of it under the delay rule), or at the floor. *)
Theorem cut_follows_delivery s now r : limits_ok (limits_ r) -> within (limits_ r) (estimate_ r) -> 0 < packets s ->
  (rule_of s now r = ROveruse -> dleb (estimate_ (update s now r)) (estimate_ r) = true)
  /\ (forall cap, positive (bitrate_recv s) ->
      (rule_of s now r = ROveruse /\ cap = (OVERUSE_FACTOR * bitrate_recv s)%dbl \/ rule_of s now r = RLoss /\ cap = bitrate_recv s) ->
      dleb (estimate_ (update s now r)) (dmax (floor_bps (limits_ r)) cap) = true).
Proof.
  intros Hl Hw Hp. destruct (update_estimate s now r Hp) as (r1 & ratio & He & Hlim & _ & _ & Hrule & _ & ->).
  pose proof (within_positive _ _ Hl Hw) as Hpos. pose proof (positive_num _ Hpos) as Hn.
  destruct Hw as (_ & Hfl & Hce). pose proof (positive_num _ (lo_floor _ Hl)) as Hfn. pose proof (positive_num _ (lo_ceil _ Hl)) as Hcn.
  destruct (note_level_keeps (estimate_ r) (apply_rule (rule_of s now r) s now (elapsed now (last_ r)) ratio r1)) as (_ & -> & _).
  assert (forall cap v, is_nan cap = false -> is_nan v = false -> dleb v cap = true ->
    dleb (clamp (limits_ r) v) (dmax (floor_bps (limits_ r)) cap) = true) as Hclamp.
  { intros cap v Hc Hv Hle. apply dclamp_le; try done.
    - unfold dmax. by destruct (_ <? _)%dbl.
    - unfold dmax. destruct (floor_bps (limits_ r) <? cap)%dbl eqn:E; dbl_order.
    - unfold dmax. destruct (floor_bps (limits_ r) <? cap)%dbl eqn:E; dbl_order. }
  split.
  - intros ->. simpl. rewrite Hlim, He. apply dclamp_le; try done; [by apply dmin_nan | by apply dmin_le_l].
  - intros cap Hrecv [[-> ->]|[Hr ->]]; simpl.
    + rewrite Hlim, He. rewrite (positive_gt0 _ Hrecv).
      pose proof (scaled_num OVERUSE_FACTOR (bitrate_recv s) I (positive_num _ Hrecv)).
      apply Hclamp; [done | by apply dmin_nan | apply dmin_le_r; done].
    + rewrite Hr. simpl. rewrite Hlim, He. rewrite (positive_gt0 _ Hrecv).
      rewrite Hrule in Hr. pose proof (scaled_num _ _ Hpos (loss_factor_num _ (rule_loss_num _ _ _ _ Hr))).
      pose proof (positive_num _ Hrecv). apply Hclamp; [done | by apply dmin_nan | apply dmin_le_r; done].
Qed.

Definition shaped_window : TwccSample :=
  {| bitrate_sent := of_Z 3800000; bitrate_recv := of_Z 1400000; s_loss_pct := of_Z 40; avg_delta_of_delta_ns := 0; packets := 100; packets_recv := 37 |}.
Definition shaped : RateEstimator := Eval vm_compute in foldl estep (new_estimator demo_limits (of_Z 3800000) 0) [EUpdate shaped_window 1; EUpdate shaped_window 2].
Lemma cut_follows_delivery_witness :
  rule_of shaped_window 3 shaped = RLoss /\
  ((rule_of shaped_window 3 shaped = ROveruse -> dleb (estimate_ (update shaped_window 3 shaped)) (estimate_ shaped) = true)
  /\ (forall cap, positive (bitrate_recv shaped_window) ->
      (rule_of shaped_window 3 shaped = ROveruse /\ cap = (OVERUSE_FACTOR * bitrate_recv shaped_window)%dbl
       \/ rule_of shaped_window 3 shaped = RLoss /\ cap = bitrate_recv shaped_window) ->
      dleb (estimate_ (update shaped_window 3 shaped)) (dmax (floor_bps (limits_ shaped)) cap) = true)).
Proof.
  split; [vm_compute; reflexivity|].
  apply (cut_follows_delivery shaped_window 3 shaped); [split; vm_compute; done | split_and!; vm_compute; reflexivity | vm_compute; reflexivity].
Defined.

(** The times at which the loss rule cut. *)
Fixpoint loss_cuts (r : RateEstimator) (ops : list EOp) : list Z :=
  match ops with
  | [] => []
  | o :: ops' =>
    (match o with EUpdate s now => match rule_of s now r with RLoss => [now] | _ => [] end | ELimits _ => [] end) ++ loss_cuts (estep r o) ops'
  end.

Lemma update_cut_state s now r : last_loss_cut_ (update s now r) = (match rule_of s now r with RLoss => now | _ => last_loss_cut_ r end)
  /\ loss_cut_seen_ (update s now r) = (match rule_of s now r with RLoss => true | _ => loss_cut_seen_ r end).
Proof.
  destruct (Z.leb_spec (packets s) 0) as [Hp|Hp].
  - unfold update, rule_of. by rewrite (proj2 (Z.leb_le _ _) Hp).
  - destruct (update_estimate s now r Hp) as (r1 & ratio & _ & _ & E1 & E2 & _ & _ & ->).
    destruct (note_level_keeps (estimate_ r) (apply_rule (rule_of s now r) s now (elapsed now (last_ r)) ratio r1)) as (_ & _ & -> & ->).
    by destruct (rule_of s now r).
Qed.
Lemma rule_of_loss s now r : rule_of s now r = RLoss -> loss_cut_seen_ r = true -> LOSS_CUT_HOLD <= now - last_loss_cut_ r.
Proof.
  destruct (Z.leb_spec (packets s) 0) as [Hp|Hp]; [unfold rule_of; by rewrite (proj2 (Z.leb_le _ _) Hp)|].
  destruct (update_estimate s now r Hp) as (r1 & ratio & _ & _ & E1 & E2 & -> & _ & _). unfold rule. rewrite E1, E2.
  destruct (_ <=? overuse_streak_ r1); [done|]. intros Hr Hs. rewrite Hs in Hr. simpl in Hr.
  destruct (Z.leb_spec LOSS_CUT_HOLD (now - last_loss_cut_ r)); [done|]. rewrite andb_false_r in Hr. by destruct (_ && _) in Hr.
Qed.

(** The loss rule cuts at most once per second: in any sequence of windows each loss cut comes
    at least [LOSS_CUT_HOLD] after the one before it, so its effect is seen first. *)
Theorem loss_cuts_spaced ops l initial now :
  Sorted.Sorted (fun a b => a + LOSS_CUT_HOLD <= b) (loss_cuts (new_estimator l initial now) ops).
Proof.
  assert (forall r, Sorted.Sorted (fun a b => a + LOSS_CUT_HOLD <= b) (loss_cuts r ops)
    /\ (loss_cut_seen_ r = true -> Sorted.HdRel (fun a b => a + LOSS_CUT_HOLD <= b) (last_loss_cut_ r) (loss_cuts r ops))) as Hgen; [|apply Hgen].
  induction ops as [|o ops IH]; intros r; simpl; [by repeat constructor|]. destruct o as [s t|l']; simpl.
  - destruct (IH (update s t r)) as [Hs Hh]. destruct (update_cut_state s t r) as [E1 E2]. rewrite E1, E2 in Hh.
    destruct (rule_of s t r) eqn:Er; simpl; try done. split; [constructor; [done | by apply Hh]|].
    intros Hseen. constructor. pose proof (rule_of_loss _ _ _ Er Hseen). lia.
  - destruct (IH (set_limits l' r)) as [Hs Hh]. done.
Qed.
