(* ===== verification/SignalingClient.v ===== *)
(** * SignalingClient: the agent's one connection to its server (core/signaling_client.cpp, core/backoff.cpp)

    libsoup's socket is the environment: its connection results, state changes and messages are
    the inputs of the step function; what the client does to it and to its hooks is the output. *)

From Stdlib Require Import ZArith Lia Ascii String.
From stdpp Require Import base tactics list strings.
From S2P Require Import Prelude StdMap Json Protocol Floats.

(** ** Backoff *)
Record BackoffPolicy := { initial : Z; max_delay : Z; factor : dbl; jitter : dbl; stable_reset : Z }.
(** 0.5 s doubling to 30 s, 20 % jitter, reset after 30 s of connection; delays in ms, the reset in ns. *)
Definition default_policy : BackoffPolicy :=
  Eval vm_compute in {| initial := 500; max_delay := 30000; factor := of_Z 2; jitter := lit 2 10; stable_reset := 30000 * 10 ^ 6 |}.
Record Backoff := { policy_ : BackoffPolicy; attempts_ : Z; connected_at_ : Z; connected_ : bool }.
Definition new_backoff (p : BackoffPolicy) : Backoff := {| policy_ := p; attempts_ := 0; connected_at_ := 0; connected_ := false |}.

(** [static_cast<long>] of a non-negative value in range. *)
Definition to_long (f : dbl) : Z := match trunc_float f with Some z => z | None => - 2 ^ 63 end.
Definition one : dbl := Eval vm_compute in of_Z 1.
Definition two : dbl := Eval vm_compute in of_Z 2.
Definition zero : dbl := Eval vm_compute in of_Z 0.

(** [pow] is libm's; [r] the draw of [random_()]. *)
Definition next (pow : dbl -> Z -> dbl) (r : dbl) (b : Backoff) : Backoff * Z :=
  let base := (of_Z (initial (policy_ b)) * pow (factor (policy_ b)) (attempts_ b))%dbl in
  let capped := dmin base (of_Z (max_delay (policy_ b))) in
  let j := (one + (r * two - one) * jitter (policy_ b))%dbl in
  ({| b with attempts_ := attempts_ b + 1 |}, to_long (dmax zero (capped * j)%dbl)).
Definition mark_connected (now : Z) (b : Backoff) : Backoff := {| b with connected_ := true; connected_at_ := now |}.
Definition mark_disconnected (now : Z) (b : Backoff) : Backoff :=
  let b1 := if connected_ b && (stable_reset (policy_ b) <=? now - connected_at_ b) then {| b with attempts_ := 0 |} else b in
  {| b1 with connected_ := false |}.
Definition reset (b : Backoff) : Backoff := {| b with attempts_ := 0; connected_ := false |}.

(** ** The client *)
Inductive WsState := WsOpen | WsClosing | WsClosed.
#[global] Instance WsState_eq_dec : EqDecision WsState.
Proof. solve_decision. Defined.
Record SignalingConfig := { url : string; url_valid : bool; robot_id : string; dev_token : string; capability_names : list string; fjarr_version : string; arch : string }.

Record SignalingClient := {
  config_ : SignalingConfig; backoff_ : Backoff; reconnect_timer_ : bool; ready_ : bool; stopped_ : bool;
  conn : option WsState;   (* [impl_->conn] *)
  connecting : nat         (* connect_async calls that have not called back *)
}.

(** What reaches the socket and the hooks. *)
Inductive Out :=
| OConnect | OHello (j : json) | OSend (j : json) | OCloseSocket (reason : string) | OCancel
| OReady | OMessage (m : SignalingMessage) | OClosed (reason : string) | OError (code message : string).

(** The clock, the random draw and the event id of the step. *)
Record Tick := { now : Z; now_ms : Z; draw : dbl; fresh : string }.

Section Client.
Context `{JsonText}.
Variable pow : dbl -> Z -> dbl.

Definition schedule_reconnect (t : Tick) (c : SignalingClient) : SignalingClient :=
  if stopped_ c then c
  else {| c with backoff_ := (next pow (draw t) (mark_disconnected (now t) (backoff_ c))).1; reconnect_timer_ := true |}.

Definition connect (t : Tick) (c : SignalingClient) : SignalingClient * list Out :=
  if stopped_ c then (c, [])
  else if negb (url_valid (config_ c)) then (schedule_reconnect t c, [])
  else ({| c with connecting := S (connecting c) |}, [OConnect]).

Definition start (t : Tick) (c : SignalingClient) : SignalingClient * list Out := connect t {| c with stopped_ := false |}.

Definition begin_close (reason : string) (c : SignalingClient) : SignalingClient * list Out :=
  let c1 := {| c with stopped_ := true; reconnect_timer_ := false |} in
  match conn c with
  | Some WsOpen => ({| c1 with conn := Some WsClosing |}, [OCloseSocket reason])
  | _ => (c1, [])
  end.
Definition closed (c : SignalingClient) : bool := match conn c with None | Some WsClosed => true | _ => false end.

Definition stop (c : SignalingClient) : SignalingClient * list Out :=
  ({| c with stopped_ := true; reconnect_timer_ := false; conn := None; ready_ := false |},
   OCancel :: match conn c with Some WsOpen => [OCloseSocket "agent-shutdown"] | _ => [] end).

Definition hello (t : Tick) (c : SignalingClient) : json :=
  let cfg := config_ c in
  jset "proto_versions" (JArr [JInt PROTO_VERSION])
    (jset "agent_info" (jobj [("fjarr", JStr (fjarr_version cfg)); ("os", JStr "linux"); ("arch", JStr (arch cfg));
                              ("capabilities", JArr (map JStr (capability_names cfg)))])
      (jset "auth" (jobj [("scheme", JStr "dev-token"); ("robot_id", JStr (robot_id cfg)); ("dev_token", JStr (dev_token cfg))])
        (jset "role" (JStr "agent") (signaling_base (fresh t) (now_ms t) "hello")))).

(** The connect_async callback: [ok] says whether a connection came back. *)
Definition on_connected (t : Tick) (ok : bool) (c : SignalingClient) : SignalingClient * list Out :=
  let c1 := {| c with connecting := pred (connecting c) |} in
  if ok then ({| c1 with conn := Some WsOpen |}, [OHello (hello t c1)])
  else (schedule_reconnect t c1, []).

Definition send (message : json) (c : SignalingClient) : SignalingClient * list Out :=
  match conn c with Some WsOpen => (c, [OSend message]) | _ => (c, []) end.

Definition on_text (t : Tick) (text : string) (c : SignalingClient) : SignalingClient * list Out :=
  match parse_signaling text with
  | (None, higher) =>
    if higher then
      send (jset "message" (JStr "unsupported protocol major") (jset "code" (JStr "payload-invalid") (signaling_base (fresh t) (now_ms t) "error"))) c
    else (c, [])
  | (Some m, _) =>
    if String.eqb (m_type m) "hello-ack" then
      ({| c with ready_ := true; backoff_ := mark_connected (now t) (backoff_ c) |}, [OReady])
    else if String.eqb (m_type m) "error" && negb (ready_ c) then
      match value_str (body m) "code" "", value_str (body m) "message" "" with
      | Ok code, Ok msg => (c, [OError code msg])
      | _, _ => (c, []) (* would unwind into libsoup: excluded by the message's validation *)
      end
    else (c, [OMessage m]) (* an exception of the handler is logged *)
  end.

Definition on_closed (t : Tick) (reason : string) (c : SignalingClient) : SignalingClient * list Out :=
  let was_ready := ready_ c in
  let c1 := {| c with ready_ := false; conn := None |} in
  (schedule_reconnect t c1, if was_ready then [OClosed reason] else []).

(** ** Steps: an input is possible only in the states that can produce it *)
Inductive In :=
| IStart | IStop | IBeginClose (reason : string) | IConnected (ok : bool) | ITimer | IText (text : string)
| ISocketClosing | ISocketClosed (reason : string) | ISend (j : json).
Definition possible (i : In) (c : SignalingClient) : bool :=
  match i with
  | IConnected _ => (0 <? Z.of_nat (connecting c))
  | ITimer => reconnect_timer_ c
  | IText _ => match conn c with Some _ => true | None => false end
  | ISocketClosing => bool_decide (conn c = Some WsOpen)
  | ISocketClosed _ => match conn c with Some _ => true | None => false end
  | _ => true
  end.
Definition step (t : Tick) (i : In) (c : SignalingClient) : SignalingClient * list Out :=
  match i with
  | IStart => start t c
  | IStop => stop c
  | IBeginClose r => begin_close r c
  | IConnected ok => on_connected t ok c
  | ITimer => connect t {| c with reconnect_timer_ := false |}
  | IText text => on_text t text c
  | ISocketClosing => ({| c with conn := Some WsClosing |}, [])
  | ISocketClosed r => on_closed t r c
  | ISend j => send j c
  end.

Definition new_client (cfg : SignalingConfig) : SignalingClient :=
  {| config_ := cfg; backoff_ := new_backoff default_policy; reconnect_timer_ := false; ready_ := false; stopped_ := true; conn := None; connecting := 0 |}.
Inductive reaches : SignalingClient -> list Out -> Prop :=
| reaches_new cfg : reaches (new_client cfg) []
| reaches_step c out t i : reaches c out -> possible i c = true -> reaches (step t i c).1 (out ++ (step t i c).2).

(** ** What the client promises *)
Definition trying (c : SignalingClient) : Prop := conn c <> None \/ (0 < connecting c)%nat \/ reconnect_timer_ c = true.
Definition live (c : SignalingClient) : Prop := (stopped_ c = false -> trying c) /\ (ready_ c = true -> conn c <> None).

Lemma schedule_live t c : (ready_ c = true -> conn c <> None) -> live (schedule_reconnect t c).
Proof. intros Hr. unfold schedule_reconnect. destruct (stopped_ c) eqn:E; split; simpl; try congruence; try done. intros _. by right; right. Qed.
Lemma connect_live t c : (ready_ c = true -> conn c <> None) -> live (connect t c).1.
Proof.
  intros Hr. unfold connect. destruct (stopped_ c) eqn:E; [split; simpl; [congruence | done]|].
  destruct (negb _); [by apply schedule_live|]. split; simpl; [|done]. intros _. right. left. simpl. lia.
Qed.

Lemma step_live t i c : possible i c = true -> live c -> live (step t i c).1.
Proof.
  intros Hp [Ht Hr]. destruct i; simpl in *.
  - by apply connect_live.
  - by split.
  - unfold begin_close. destruct (conn c) as [[]|] eqn:E; split; simpl; rewrite ?E; done.
  - unfold on_connected. destruct ok; [split; simpl; [by left | done]|]. by apply schedule_live.
  - by apply connect_live.
  - unfold on_text. destruct (parse_signaling text) as [[m|] higher]; [|destruct higher; [unfold send; destruct (conn c) as [[]|] eqn:E|]; simpl; by split; rewrite ?E].
    destruct (String.eqb (m_type m) "hello-ack"); [split; simpl; [done|]; by destruct (conn c)|].
    destruct (_ && _); [destruct (value_str _ "code" _); [destruct (value_str _ "message" _)|]|]; by split.
  - split; simpl; [by left | done].
  - by apply schedule_live.
  - unfold send. destruct (conn c) as [[]|] eqn:E; simpl; split; rewrite ?E; done.
Qed.

(** C39: the client never gives up and never believes in a connection it does not have: in every
    reachable state, unless it was told to stop it has a socket, an attempt in progress or a
    reconnect timer, and it is online only while it has a socket. *)
Theorem client_keeps_trying c out : reaches c out ->
  (stopped_ c = false -> conn c <> None \/ (0 < connecting c)%nat \/ reconnect_timer_ c = true) /\ (ready_ c = true -> conn c <> None).
Proof.
  intros Hr. change (live c). induction Hr; [by split|]. by apply step_live.
Qed.

(** Online periods: [OReady] opens one, [OClosed] ends it. *)
Fixpoint online (b : bool) (out : list Out) : option bool :=
  match out with
  | [] => Some b
  | OReady :: out' => online true out'
  | OClosed _ :: out' => if b then online false out' else None
  | _ :: out' => online b out'
  end.
Lemma online_app b l k : online b (l ++ k) = match online b l with Some b' => online b' k | None => None end.
Proof. revert b. induction l as [|o l IH]; intros b; simpl; [done|]. destruct o; try done. by destruct b. Qed.

Lemma schedule_ready t c : ready_ (schedule_reconnect t c) = ready_ c.
Proof. unfold schedule_reconnect. by destruct (stopped_ c). Qed.
Lemma connect_ready t c : ready_ (connect t c).1 = ready_ c /\ forall b, online b (connect t c).2 = Some b.
Proof. unfold connect. destruct (stopped_ c); [done|]. destruct (negb _); [simpl; by rewrite schedule_ready | done]. Qed.

(** One step keeps the outputs and [ready_] in agreement. *)
Lemma step_online t i c b : (ready_ c = true -> b = true) -> exists b', online b (step t i c).2 = Some b' /\ (ready_ (step t i c).1 = true -> b' = true).
Proof.
  intros Hb. destruct i; simpl.
  - destruct (connect_ready t {| c with stopped_ := false |}) as [E1 E2]. unfold start. rewrite E1, E2. by eexists.
  - exists b. split; [|done]. by destruct (conn c) as [[]|].
  - unfold begin_close. destruct (conn c) as [[]|]; by eexists.
  - unfold on_connected. destruct ok; simpl; [by eexists|]. rewrite schedule_ready. by eexists.
  - destruct (connect_ready t {| c with reconnect_timer_ := false |}) as [E1 E2]. rewrite E1, E2. by eexists.
  - unfold on_text. destruct (parse_signaling text) as [[m|] higher].
    + destruct (String.eqb (m_type m) "hello-ack"); [by eexists|].
      destruct (_ && _); [destruct (value_str _ "code" _); [destruct (value_str _ "message" _)|]|]; by eexists.
    + destruct higher; [unfold send; destruct (conn c) as [[]|]|]; by eexists.
  - by eexists.
  - rewrite schedule_ready. simpl. destruct (ready_ c); simpl; [rewrite Hb by done|]; by eexists.
  - unfold send. destruct (conn c) as [[]|]; by eexists.
Qed.

(** The sessions hear of a lost connection only when there was one: on every run each
    [on_closed] is preceded by an [on_ready] of its own, with no other [on_closed] between. *)
Theorem closed_after_ready c out : reaches c out -> exists b, online false out = Some b /\ (ready_ c = true -> b = true).
Proof.
  induction 1 as [cfg|c out t i Hr (b & Ho & Hb) Hp]; [by eexists|].
  rewrite online_app, Ho. by apply step_online.
Qed.

(** A validated message never makes the client read a field of the wrong type: the error
    branch's two reads return strings. *)
Theorem error_fields_readable text m h : parse_signaling text = (Some m, h) -> m_type m = "error" ->
  exists code msg, value_str (body m) "code" "" = Ok code /\ value_str (body m) "message" "" = Ok msg.
Proof.
  intros Hp Ht. unfold parse_signaling in Hp. destruct (json_parse text) as [j|]; [|done].
  destruct (is_object j); [|done]. simpl in Hp. destruct (_ || _); [done|]. destruct (negb _); [done|]. destruct (_ || _); [done|].
  destruct (signaling_checks _ _ j) eqn:Hc; [|done]. simpl in Hp. injection Hp as <- _. simpl in *. rewrite Ht in Hc.
  simpl in Hc. apply andb_prop in Hc as [H1 H2]. unfold is_str, contains, at_key in H1, H2.
  destruct (jfind "code" j) as [[| | | | |code| |]|] eqn:E1; try done. destruct (jfind "message" j) as [[| | | | |msg| |]|] eqn:E2; try done.
  exists code, msg. split; by apply value_str_find.
Qed.
End Client.

(** ** Backoff *)
Inductive BOp := BConnected (t : Z) | BLost (t : Z) | BNext (r : dbl).
Definition bstep (pow : dbl -> Z -> dbl) (b : Backoff) (o : BOp) : Backoff :=
  match o with BConnected t => mark_connected t b | BLost t => mark_disconnected t b | BNext r => (next pow r b).1 end.
Fixpoint nexts (ops : list BOp) : Z := match ops with [] => 0 | BNext _ :: ops' => 1 + nexts ops' | _ :: ops' => nexts ops' end.
(** Every connection in the sequence is lost before it counts as stable. *)
Fixpoint flapping (stable : Z) (since : option Z) (ops : list BOp) : bool :=
  match ops with
  | [] => true
  | BConnected t :: ops' => flapping stable (Some t) ops'
  | BLost t :: ops' => (match since with Some s => t - s <? stable | None => true end) && flapping stable None ops'
  | BNext _ :: ops' => flapping stable since ops'
  end.

(** The attempt counter, and with it the delay's exponent, is reset only by a connection that
    lasted: through any sequence of connections, losses and attempts in which no connection lived
    [stable_reset] (30 s), the counter is the number of attempts made, so a flapping link backs
    off; and one that did live that long starts again from zero. *)
Theorem backoff_flap_resistant pow p ops :
  (flapping (stable_reset p) None ops = true -> attempts_ (foldl (bstep pow) (new_backoff p) ops) = nexts ops)
  /\ (forall b t0 t, policy_ b = p -> stable_reset p <= t - t0 -> attempts_ (mark_disconnected t (mark_connected t0 b)) = 0).
Proof.
  split.
  - enough (forall b, policy_ b = p -> flapping (stable_reset p) (if connected_ b then Some (connected_at_ b) else None) ops = true ->
      attempts_ (foldl (bstep pow) b ops) = attempts_ b + nexts ops) as Hgen by (intros Hf; by apply (Hgen (new_backoff p))).
    induction ops as [|o ops IH]; intros b Hp Hf; simpl in *; [lia|]. destruct o as [t|t|r]; simpl in *.
    + by rewrite IH.
    + apply andb_prop in Hf as [Ht Hf]. rewrite IH; simpl.
      * unfold mark_disconnected. destruct (connected_ b); simpl; [|done]. rewrite Hp, (proj2 (Z.leb_gt _ _)) by lia. done.
      * unfold mark_disconnected. simpl. by destruct (_ && _).
      * done.
    + rewrite IH; simpl; [lia | done | done].
  - intros b t0 t <- Ht. unfold mark_disconnected, mark_connected. simpl. by rewrite (proj2 (Z.leb_le _ _) Ht).
Qed.

(** ** A run: start, connect, go online, lose the socket *)
Definition demo_config : SignalingConfig :=
  {| url := "ws://server"; url_valid := true; robot_id := "r1"; dev_token := "t"; capability_names := []; fjarr_version := "0"; arch := "amd64" |}.
Definition ack : json := jobj [("v", JUint 1); ("type", JStr "hello-ack"); ("event_id", JStr "e"); ("ts", JUint 1); ("proto_version", JUint 1)].
Definition demo_text : JsonText := one_value_text ack "ack".
Definition demo_tick : Tick := {| now := 5; now_ms := 5; draw := one; fresh := "id" |}.
Definition demo_run : list In := [IStart; IConnected true; IText "ack"; ISocketClosed "socket-closed:1006"].
Definition run (T : JsonText) (ins : list In) : SignalingClient * list Out :=
  foldl (fun s i => let r := @step T (fun _ _ => two) demo_tick i s.1 in (r.1, s.2 ++ r.2)) (new_client demo_config, []) ins.
Fixpoint run_ok (T : JsonText) (c : SignalingClient) (ins : list In) : bool :=
  match ins with [] => true | i :: ins' => possible i c && run_ok T (@step T (fun _ _ => two) demo_tick i c).1 ins' end.
Lemma run_reaches T ins c out : @reaches T (fun _ _ => two) c out -> run_ok T c ins = true ->
  let r := foldl (fun s i => let r := @step T (fun _ _ => two) demo_tick i s.1 in (r.1, s.2 ++ r.2)) (c, out) ins in @reaches T (fun _ _ => two) r.1 r.2.
Proof.
  revert c out. induction ins as [|i ins IH]; intros c out Hr Hok; simpl in *; [done|].
  apply andb_prop in Hok as [Hp Hok]. apply IH; [by apply reaches_step | done].
Qed.
Lemma demo_reaches : @reaches demo_text (fun _ _ => two) (run demo_text demo_run).1 (run demo_text demo_run).2.
Proof. apply run_reaches; [apply reaches_new | vm_compute; reflexivity]. Qed.

Lemma client_keeps_trying_witness : let c := (run demo_text demo_run).1 in
  (stopped_ c = false -> conn c <> None \/ (0 < connecting c)%nat \/ reconnect_timer_ c = true) /\ (ready_ c = true -> conn c <> None).
Proof. apply (@client_keeps_trying demo_text (fun _ _ => two) _ (run demo_text demo_run).2 demo_reaches). Defined.
Lemma closed_after_ready_witness :
  exists b, online false (run demo_text demo_run).2 = Some b /\ (ready_ (run demo_text demo_run).1 = true -> b = true).
Proof. apply (@closed_after_ready demo_text (fun _ _ => two) _ _ demo_reaches). Defined.

Definition refusal : json :=
  jobj [("v", JUint 1); ("type", JStr "error"); ("event_id", JStr "e"); ("ts", JUint 1); ("code", JStr "auth-failed"); ("message", JStr "no")].
Lemma error_fields_readable_witness :
  exists m h code msg, @parse_signaling (one_value_text refusal "x") "x" = (Some m, h) /\ value_str (body m) "code" "" = Ok code /\ value_str (body m) "message" "" = Ok msg.
Proof.
  do 2 eexists. edestruct (@error_fields_readable (one_value_text refusal "x") "x") as (code & msg & H1 & H2); [vm_compute; reflexivity | reflexivity |].
  exists code, msg. split; [vm_compute; reflexivity | by split].
Defined.
