(* ===== verification/SessionState.v ===== *)
(** * SessionState: the shared state of the sessions and the effects they have

    The [SessionManager] owns the sessions; a session's handlers reach the other sessions
    through it (a claim releases another operator's input and tells everyone), so one [World]
    holds them all, with the control domains, the plane's registrations and a trace of what left
    the core. Handlers are computations in a state and exception monad: an exception keeps the
    changes made before it, as in the source. Logging and pipeline snapshots are diagnostics and
    have no counterpart. *)

From Stdlib Require Import ZArith Lia Strings.Byte Ascii String.
From stdpp Require Import base list strings.
From S2P Require Import Prelude Floats RateEstimator TierPolicy Monad StdMap Json Blob BlobAssembler BlobPump Protocol ControlDomains Senders Consumer.

Inductive SState := Requested | Building | Offered | Connected | Closing | Closed.
#[global] Instance SState_eq_dec : EqDecision SState.
Proof. solve_decision. Defined.
Inductive DetachReason := DClosed | DPeerGone | DHeartbeat | DError.
#[global] Instance DetachReason_eq_dec : EqDecision DetachReason.
Proof. solve_decision. Defined.
Inductive BulkFraming := FRaw | FBlob.

(** [AttachedCapability]: the parts of its manifest the core reads, and the granted parameters. *)
Record Attached := {
  a_name : string; a_channels : list (ChannelClass * BulkFraming); input_bearing : bool;
  control_domain : string; control_inputs : list string; a_params : json
}.
(** A message held until its channel opens, or delivered. *)
Inductive Body := Text (s : string) | Data (b : list byte).
Record Deadman := { dm_id : nat; dm_cap : string; dm_alive : bool; dm_armed : bool; dm_expired : bool }.

(** A [TwccSample] as it is constructed: no feedback yet. *)
Definition no_twcc : TwccSample := {| bitrate_sent := d0; bitrate_recv := d0; s_loss_pct := d0; avg_delta_of_delta_ns := 0; packets := 0; packets_recv := -1 |}.

Record Session {D : Type} := {
  s_op : OperatorInfo; s_turn : option TurnCredentials; s_state : SState; generation_ : Z;
  caps_ : list Attached; contexts_ : list string; attaching_ : bool; attaching_cap_ : string;
  consumer_ : option Consumer;
  pending_tracks_ : list (string * TrackSpec); pending_inbound_ : list (string * string);
  tracks_ : list (string * (string * TrackSpec)); subscribed_tier_ : list (string * string);
  tier_policy_ : list (string * TierPolicy);
  estimator_ : option RateEstimator; last_twcc_ : TwccSample; (* the window read at the previous tick *)
  manifest_version_ : Z; renegotiation_pending_ : bool; answered_once_ : bool;
  last_milestone_ : string; connection_state_ : string; control_open_ : bool;
  watchdog_ : bool; liveness_ : bool; stats_timer_ : bool; rate_timer_ : bool; silence_timer_ : bool; close_timer_ : bool;
  closing_reason_ : string; closing_retry_ : bool; silent_pings_ : bool; silent_media_ : bool;
  channels_ : list (string * unit); early_inbound_ : list (string * list Body);
  senders_ : list (string * Sender D); blob_pumps_ : list (string * BlobPump);
  deadmans_ : list Deadman; early_outbound_ : list Envelope;
  dropped_envelopes_ : Z; dropped_binary_ : Z; dropped_control_ : Z; closed_sent_ : bool
}.
Arguments Session D : clear implicits.

Definition new_session {D} (op : OperatorInfo) (turn : option TurnCredentials) : Session D := {|
  s_op := op; s_turn := turn; s_state := Requested; generation_ := 1; caps_ := []; contexts_ := []; attaching_ := false; attaching_cap_ := "";
  consumer_ := None; pending_tracks_ := []; pending_inbound_ := []; tracks_ := []; subscribed_tier_ := []; tier_policy_ := []; estimator_ := None; last_twcc_ := no_twcc;
  manifest_version_ := 0; renegotiation_pending_ := false; answered_once_ := false; last_milestone_ := "attached"; connection_state_ := "new";
  control_open_ := false; watchdog_ := false; liveness_ := false; stats_timer_ := false; rate_timer_ := false; silence_timer_ := false;
  close_timer_ := false; closing_reason_ := ""; closing_retry_ := false; silent_pings_ := false; silent_media_ := false;
  channels_ := []; early_inbound_ := []; senders_ := []; blob_pumps_ := []; deadmans_ := []; early_outbound_ := [];
  dropped_envelopes_ := 0; dropped_binary_ := 0; dropped_control_ := 0; closed_sent_ := false |}.

Definition closing {D} (s : Session D) : bool := bool_decide (s_state s = Closing) || bool_decide (s_state s = Closed).

(** What leaves the core, in order. *)
Inductive Event :=
| EvSignal (j : json)                                             (* send_signal *)
| EvEmit (sid type reason : string)                               (* the audit hook *)
| EvText (sid label text : string)                                (* handed to a DataChannel *)
| EvFrame (sid label : string) (ok : bool) (frame : list byte)
| EvAttach (sid cap : string)                                     (* session_attached *)
| EvMessage (sid cap : string) (env : Envelope)                   (* on_message *)
| EvBinary (sid cap : string) (bytes : list byte)                 (* on_binary *)
| EvChunk (sid cap : string) (c : BlobChunk)                      (* on_blob_chunk *)
| EvRelease (sid cap : string)                                    (* release_all_input *)
| EvDetach (sid cap : string) (r : DetachReason) (detail : string) (* session_detached *)
| EvDeadman (sid : string) (n : nat)                              (* a deadman's on_expiry *)
| EvBlobDone (sid : string) (token : nat) (ok : bool)
| EvSubscribe (sid track tier : string) | EvUnsubscribe (sid track tier : string)
| EvAllot (sid track tier : string) (bps : dbl)                   (* report_allotment *)
| EvForget (sid track : string)                                   (* forget_allotment *)
| EvPreference (sid track : string) (sharp : bool)
| EvKeyframe (track tier : string)
| EvResync (sid track tier : string).

(** The plane's registered tracks and their reference counts (media_plane.cpp, [Registered::refs]). *)
Definition Registry := list (string * Z).
Definition register_track (id : string) (r : Registry) : Registry :=
  match sm_find id r with Some n => sm_set id (n + 1) r | None => sm_set id 1 r end.
Definition unregister_track (id : string) (r : Registry) : Registry :=
  match sm_find id r with
  | None => r
  | Some n => if n - 1 <=? 0 then sm_erase id r else sm_set id (n - 1) r
  end.

(** [on_closed] of a session, and the first pump of a queued blob. *)
Inductive Task := TClosed (sid : string) | TPump (sid : string) (gen : Z) (label : string).

Record World {D : Type} := {
  sessions : list (string * Session D);
  control : ControlDomains;
  control_ticking : bool;
  registry : Registry;
  trace : list Event;
  posted : list Task  (* tasks on the loop, oldest first *)
}.
Arguments World D : clear implicits.

(** ** The monad *)
Definition M (D A : Type) : Type := Prog (World D) A.
Section Steps.
Context {D : Type}.
Definition world : M D (World D) := get.
Definition emit (e : Event) : M D unit := modify (fun w => {| w with trace := trace w ++ [e] |}).
Definition upd (sid : string) (f : Session D -> Session D) : M D unit :=
  modify (fun w => match sm_find sid (sessions w) with
                   | Some s => {| w with sessions := sm_set sid (f s) (sessions w) |}
                   | None => w
                   end).
(** The session object; a handler of a session the store does not have does nothing. *)
Definition with_session (sid : string) (k : Session D -> M D unit) : M D unit :=
  fun w => match sm_find sid (sessions w) with Some s => k s w | None => (w, Ok tt) end.
End Steps.
