(* ===== verification/SessionOps.v ===== *)
(** * SessionOps: the session's handlers (core/session.cpp)

    Capabilities are plugins: a callback into one is an event of the trace, and what the plugin
    does with its [SessionContext] before it returns or throws is a script the environment
    chooses ([behave]). A script ends at its first call that throws, unless the plugin catches,
    which is the script without that call: every call that throws does so before it changes
    anything. *)

From Stdlib Require Import ZArith Lia Strings.Byte Ascii String.
From stdpp Require Import base list strings.
From S2P Require Import Prelude Floats RateEstimator TierPolicy Monad StdMap Json Blob BlobAssembler BlobPump Protocol ControlDomains Senders Consumer SessionState.

Definition MAX_EARLY_OUTBOUND : Z := 64.

(** What a plugin is called with, and what it may do. *)
Inductive Callback :=
| CbAttached (sid cap : string) | CbMessage (sid cap : string) (env : Envelope) | CbBinary (sid cap : string) (bytes : list byte)
| CbChunk (sid cap : string) (c : BlobChunk) | CbRelease (sid cap : string) | CbDetached (sid cap : string) | CbDeadman (sid : string) (n : nat).
Inductive CtxCall :=
| CAddTrack (spec : TrackSpec) | CAddInbound (slot : string) (has_pcm : bool)
| CAccept (req : Envelope) | CFeedback (req : Envelope) (pl : json) | CResult (req : Envelope) (pl : json)
| CFail (req : Envelope) (code message : string) (data : json) | CEvent (type : string) (pl : json)
| CSessionEvent (type reason : string) | CUpdateTracks (full : list TrackSpec)
| CSendBlob (bytes : list byte) (media : string) (done : option nat) | CCancelBlob (id : string)
| CArmDeadman (n : nat) | CFeedDeadman (n : nat) | CDropDeadman (n : nat)
| CRealtime (env : Envelope) | CSendBinary (cls : ChannelClass) (bytes : list byte) | CClose (reason : string).

(** The environment of one loop turn: clocks, ids, plugins, sources, GStreamer's answers. *)
Class Ambient := {
  now : Z; now_ms : Z; now_ms2 : Z;
  fresh : nat -> string;
  behave : nat -> Callback -> list CtxCall * option exn;
  known_capability : string -> bool;
  available : TrackSpec -> bool;
  add_env : string -> AddEnv;
  inbound_ok : string -> bool;
  seqnum_of : string -> Z;
  build_ok : bool;
  blob_done : nat -> bool -> list BlobTransfer;
  pump_fuel : nat;
  (* the media plane's answers, the feedback window and the configured rates *)
  plane_band : string -> string -> Z * Z;
  plane_thumbnail : string -> bool;
  twcc_sample : string -> TwccSample;
  active_kbps : Z; active_floor_kbps : Z
}.

Section Ops.
Context `{JT : JsonText} {D : Type} `{DC : DataChannel D} `{AM : Ambient}.
Abbreviation M := (M D).
Abbreviation Session := (Session D).

Definition set_state (sid : string) (st : SState) : M unit := upd sid (fun s => {| s with s_state := st |}).
Definition send_signal (j : json) : M unit := emit (EvSignal j).
Definition fresh_id (w : World D) : string := fresh (length (trace w)).
Definition signal (type : string) (fields : list (string * json)) : M unit :=
  do w <- world;
  send_signal (foldl (fun j kv => jset kv.1 kv.2 j) (signaling_base (fresh_id w) now_ms type) fields).

Definition detach_reason_for (reason : string) : DetachReason :=
  if String.eqb reason "peer-gone" || String.eqb reason "operator-disconnected" then DPeerGone
  else if String.eqb reason "heartbeat" then DHeartbeat
  else if String.eqb reason "operator-closed" || String.eqb reason "agent-shutdown" || String.eqb reason "ice-restart" || String.eqb reason "media-restart"
  then DClosed
  else DError.

Definition attached (cap : string) (s : Session) : option Attached := find (fun c => String.eqb (a_name c) cap) (caps_ s).
Definition granted_params (cap : string) (s : Session) : json := match attached cap s with Some c => a_params c | None => JObj [] end.

(** ** Offers and milestones *)
Definition request_offer (sid : string) : M unit :=
  with_session sid (fun s =>
    match consumer_ s with
    | None => ret tt
    | Some c =>
      if closing s then ret tt
      else if offer_in_flight c then upd sid (fun s => {| s with renegotiation_pending_ := true |})
      else upd sid (fun s => {| s with consumer_ := Some (create_offer c) |})
    end).

Definition local_milestone (name : string) : bool :=
  String.eqb name "local-description-set" || String.eqb name "ice-gathering-complete" || String.eqb name "first-frame-sent".
Definition negotiating (s : Session) : bool := bool_decide (s_state s = Building) || bool_decide (s_state s = Offered).
Definition milestone (sid name : string) : M unit :=
  when (negb (local_milestone name))
    (upd sid (fun s => {| s with last_milestone_ := name; watchdog_ := watchdog_ s || negotiating s |})) ;;
  with_session sid (fun s =>
    when (String.eqb name "remote-description-set" && renegotiation_pending_ s
          && match consumer_ s with Some c => negb (offer_in_flight c) | None => false end && negb (closing s))
      (upd sid (fun s => {| s with renegotiation_pending_ := false |}) ;; request_offer sid)).

(** ** Sending *)
Definition send_control (sid : string) (env : Envelope) : M unit :=
  with_session sid (fun s =>
    match sm_find "fjarr:control" (senders_ s) with
    | None =>
      if negb (control_open_ s) && negb (closing s) && (zlen (early_outbound_ s) <? MAX_EARLY_OUTBOUND)
      then upd sid (fun s => {| s with early_outbound_ := early_outbound_ s ++ [env] |})
      else upd sid (fun s => {| s with dropped_envelopes_ := dropped_envelopes_ s + 1 |})
    | Some snd =>
      match send snd env with
      | Ok (snd', text) =>
        upd sid (fun s => {| s with senders_ := sm_set "fjarr:control" snd' (senders_ s) |}) ;;
        match text with Some t => emit (EvText sid "fjarr:control" t) | None => ret tt end
      | Throw (FjarrError _ _) => upd sid (fun s => {| s with dropped_envelopes_ := dropped_envelopes_ s + 1 |})
      | Throw e => throw e
      end
    end).
Definition send_made (sid cap type kind : string) (pl : json) (id : string) : M unit :=
  do w <- world; send_control sid (make_envelope (fresh_id w) cap type kind pl id).
Definition reply (sid : string) (req : Envelope) (pl : json) : M unit := send_made sid (cap req) (type_ req) "result" pl (event_id req).
Definition error_json (code message : string) (data : json) : json :=
  let e := jobj [("code", JStr code); ("message", JStr message)] in if is_null data then e else jset "data" data e.
Definition reply_error (sid : string) (req : Envelope) (code message : string) (data : json) : M unit :=
  let msg := of_chars (take 256 (chars message)) in
  reply sid req (jobj [("ok", JBool false); ("error", error_json code msg data)]).

(** [sender(cls, cap)] and a send on it: a channel that is not open refuses. *)
Definition channel_label (cls : ChannelClass) (cap : string) : string :=
  match cls with ChControl => "fjarr:control" | ChRealtime => "fjarr:realtime" | ChBulk => "fjarr:bulk:" +:+ cap | ChStream => "fjarr:stream:" +:+ cap end.
Definition sender (label : string) (s : Session) : Sender D :=
  match sm_find label (senders_ s) with
  | Some snd => snd
  | None => DeniedSender (label +:+ " is not open (declare the channel in the manifest, and wait for the session to connect)")
  end.
Definition store_sender (sid label : string) (snd : Sender D) : M unit :=
  upd sid (fun s => {| s with senders_ := match sm_find label (senders_ s) with Some _ => sm_set label snd (senders_ s) | None => senders_ s end |}).
Definition send_on (sid label : string) (env : Envelope) : M unit :=
  with_session sid (fun s =>
    do (snd', text) <- lift (send (sender label s) env);
    store_sender sid label snd' ;;
    match text with Some t => emit (EvText sid label t) | None => ret tt end).
Definition send_frame (sid label : string) (bytes : list byte) : M unit :=
  with_session sid (fun s =>
    do (snd', ok) <- lift (send_binary bytes (sender label s));
    store_sender sid label snd' ;; emit (EvFrame sid label ok bytes)).

(** ** Blobs *)
Definition pump_out (sid label : string) (ev : pump_event) : Event :=
  match ev with EvSent f => EvFrame sid label true f | EvDone tok ok => EvBlobDone sid tok ok end.
Definition pump_blobs (sid label : string) : M unit :=
  with_session sid (fun s =>
    match sm_find label (blob_pumps_ s) with
    | None => ret tt
    | Some p =>
      let '(st, p', snd', evs) := pump blob_done (length (queue_ p) + pump_fuel) (sm_find label (senders_ s)) p in
      upd sid (fun s => {| s with blob_pumps_ := sm_set label p' (blob_pumps_ s) |}) ;;
      match snd' with Some x => store_sender sid label x | None => ret tt end ;;
      for_each evs (fun ev => emit (pump_out sid label ev)) ;;
      match st with Threw e => throw e | _ => ret tt end
    end).
Definition send_blob (sid cap : string) (bytes : list byte) (media : string) (done : option nat) : M unit :=
  with_session sid (fun s =>
    let declared := match attached cap s with Some c => existsb (fun d => bool_decide (d.1 = ChBulk)) (a_channels c) | None => false end in
    if negb declared then throw (FjarrError payload_invalid (cap +:+ " declares no bulk channel; blobs need one (docs/08#blob-frames)"))
    else if closing s then throw (FjarrError payload_invalid "session is closing")
    else
      do w <- world;
      let label := channel_label ChBulk cap in
      let p := match sm_find label (blob_pumps_ s) with Some p => p | None => new_pump SESSION_CHUNK end in
      let t := {| t_id := fresh_id w; t_data := bytes; t_offset := 0; t_done := done; sent_empty := false |} in
      upd sid (fun s => {| s with blob_pumps_ := sm_set label (enqueue t p) (blob_pumps_ s) |}) ;;
      modify (fun w => {| w with posted := posted w ++ [TPump sid (generation_ s) label] |})).
(** The first pump that knows the blob drops it. *)
Fixpoint cancel_in (id : string) (pumps : list (string * BlobPump)) : list (string * BlobPump) * list pump_event :=
  match pumps with
  | [] => ([], [])
  | (l, p) :: rest =>
    match cancel id p with
    | (p', true, evs) => ((l, p') :: rest, evs)
    | (_, false, _) => let '(rest', evs) := cancel_in id rest in ((l, p) :: rest', evs)
    end
  end.
Definition cancel_blob (sid id : string) : M unit :=
  with_session sid (fun s =>
    let '(pumps, evs) := cancel_in id (blob_pumps_ s) in
    upd sid (fun s => {| s with blob_pumps_ := pumps |}) ;;
    for_each evs (fun ev => emit (pump_out sid "" ev))).

(** ** The context a plugin holds *)
Definition need_request (req : Envelope) (what : string) (m : M unit) : M unit :=
  if negb (String.eqb (kind req) "request") then throw (FjarrError "payload-invalid" (what +:+ "() on a non-request envelope")) else m.
Definition set_deadman (sid : string) (n : nat) (f : Deadman -> Deadman) : M unit :=
  upd sid (fun s => {| s with deadmans_ := map (fun d => if Nat.eqb (dm_id d) n then f d else d) (deadmans_ s) |}).
Definition add_pending (sid cap : string) (what : string) (f : Session -> Session) : M unit :=
  with_session sid (fun s =>
    if negb (attaching_ s) || negb (String.eqb (attaching_cap_ s) cap)
    then throw (FjarrError "payload-invalid" what) else upd sid f).

Section Scripts.
(** [close] and [update_tracks], which a script may call; both return at once on a session that
    is closing, so the callbacks [close] itself makes get [no_close] and [no_update]. *)
Variable do_close : string -> string -> M unit.
Variable do_update : string -> string -> list TrackSpec -> M unit.

Definition ctx_call (sid cp : string) (c : CtxCall) : M unit :=
  match c with
  | CAddTrack spec =>
    add_pending sid cp "add_track is only valid inside session_attached; use update_tracks"
      (fun s => {| s with pending_tracks_ := pending_tracks_ s ++ [(cp, spec)] |})
  | CAddInbound slot has_pcm =>
    if has_pcm then add_pending sid cp "add_inbound_audio is only valid inside session_attached"
                      (fun s => {| s with pending_inbound_ := pending_inbound_ s ++ [(cp, slot)] |})
    else add_pending sid cp "add_inbound_audio is only valid inside session_attached" (fun s => s) ;;
         throw (FjarrError "payload-invalid" "add_inbound_audio needs on_pcm")
  | CAccept req => need_request req "accept" (send_made sid (cap req) (type_ req) "accept" (JObj []) (event_id req))
  | CFeedback req pl => need_request req "feedback" (send_made sid (cap req) (type_ req) "feedback" pl (event_id req))
  | CResult req pl =>
    need_request req "result"
      (if negb (is_object pl) || negb (contains pl "ok") then throw (FjarrError "payload-invalid" "result payload needs `ok`")
       else send_made sid (cap req) (type_ req) "result" pl (event_id req))
  | CFail req code message data =>
    need_request req "fail"
      (send_made sid (cap req) (type_ req) "result" (jobj [("ok", JBool false); ("error", error_json code message data)]) (event_id req))
  | CEvent type pl => send_made sid cp type "event" pl ""
  | CSessionEvent type reason => with_session sid (fun _ => emit (EvEmit sid type reason))
  | CUpdateTracks full => do_update sid cp full
  | CSendBlob bytes media done => send_blob sid cp bytes media done
  | CCancelBlob id => cancel_blob sid id
  | CArmDeadman n =>
    upd sid (fun s => {| s with deadmans_ := deadmans_ s ++ [{| dm_id := n; dm_cap := cp; dm_alive := true; dm_armed := true; dm_expired := false |}] |})
  | CFeedDeadman n => set_deadman sid n (fun d => if dm_alive d then {| d with dm_armed := true; dm_expired := false |} else d)
  | CDropDeadman n => set_deadman sid n (fun d => {| d with dm_alive := false; dm_armed := false |})
  | CRealtime env => send_on sid (channel_label ChRealtime cp) env
  | CSendBinary cls bytes => send_frame sid (channel_label cls cp) bytes
  | CClose reason => do_close sid reason
  end.
(** One callback: the event, the script, the exception. *)
Definition call_cap (sid cp : string) (ev : Event) (cb : Callback) : M unit :=
  emit ev ;;
  do w <- world;
  let '(script, thrown) := behave (length (trace w)) cb in
  for_each script (ctx_call sid cp) ;;
  match thrown with Some e => throw e | None => ret tt end.
End Scripts.
Definition no_close (sid reason : string) : M unit := ret tt.
Definition no_update (sid cp : string) (full : list TrackSpec) : M unit := ret tt.
Definition call_closing := call_cap no_close no_update.

(** ** Tracks and demand *)
Definition upd_consumer (sid : string) (f : Consumer -> Consumer) : M unit :=
  upd sid (fun s => match consumer_ s with Some c => {| s with consumer_ := Some (f c) |} | None => s end).
Definition set_tiers (id t d : string) (c : Consumer) : Consumer :=
  match track id c with Some ct => {| c with c_tracks := sm_set id {| ct with tier := t; demanded_tier := d |} (c_tracks c) |} | None => c end.
Definition policy_of (id : string) (s : Session) : TierPolicy := default new_policy (sm_find id (tier_policy_ s)).

Definition apply_demand (sid id : string) (en : bool) (demanded : string) : M unit :=
  with_session sid (fun s =>
    match consumer_ s with
    | None => ret tt
    | Some c =>
      match track id c with
      | None => ret tt
      | Some ct =>
        let policy := set_demanded demanded (policy_of id s) in
        upd sid (fun s => {| s with tier_policy_ := sm_set id policy (tier_policy_ s) |}) ;;
        upd_consumer sid (set_tiers id (tier ct) demanded) ;;
        let t := effective_ policy in
        if negb en then
          upd_consumer sid (set_enabled id false) ;;
          match sm_find id (subscribed_tier_ s) with
          | Some old => emit (EvUnsubscribe sid id old) ;; upd sid (fun s => {| s with subscribed_tier_ := sm_erase id (subscribed_tier_ s) |})
          | None => ret tt
          end ;;
          emit (EvForget sid id)
        else
          let moved := match sm_find id (subscribed_tier_ s) with Some old => negb (String.eqb old t) | None => false end in
          match sm_find id (subscribed_tier_ s) with
          | Some old =>
            when moved (emit (EvUnsubscribe sid id old) ;; emit (EvForget sid id) ;;
                        upd sid (fun s => {| s with subscribed_tier_ := sm_erase id (subscribed_tier_ s) |}))
          | None => ret tt
          end ;;
          upd_consumer sid (set_tiers id t demanded) ;;
          when (negb (silent_media_ s)) (upd_consumer sid (set_enabled id true)) ;;
          when (match sm_find id (subscribed_tier_ s) with Some _ => moved | None => true end)
            (emit (EvSubscribe sid id t) ;; upd sid (fun s => {| s with subscribed_tier_ := sm_set id t (subscribed_tier_ s) |}))
      end
    end).

Definition unsubscribe_all (sid : string) : M unit :=
  with_session sid (fun s =>
    match consumer_ s with
    | None => ret tt
    | Some c => for_each (subscribed_tier_ s) (fun kv =>
        when (sink_for kv.1 c) (emit (EvUnsubscribe sid kv.1 kv.2) ;; emit (EvForget sid kv.1)))
    end) ;;
  upd sid (fun s => {| s with subscribed_tier_ := []; rate_timer_ := false |}).

(** ** Closing *)
Definition plane_unregister (id : string) : M unit := modify (fun w => {| w with registry := unregister_track id (registry w) |}).
Definition finish_close (sid reason : string) : M unit :=
  with_session sid (fun s =>
    if bool_decide (s_state s = Closed) then ret tt
    else
      upd sid (fun s => {| s with close_timer_ := false |}) ;;
      unsubscribe_all sid ;;
      upd sid (fun s => {| s with senders_ := []; blob_pumps_ := []; channels_ := []; consumer_ := None |}) ;;
      for_each (tracks_ s) (fun kv => plane_unregister kv.1) ;;
      upd sid (fun s => {| s with tracks_ := []; generation_ := generation_ s + 1; contexts_ := []; s_state := Closed |}) ;;
      emit (EvEmit sid "ended" reason) ;;
      modify (fun w => {| w with posted := posted w ++ [TClosed sid] |})).

Definition fail_pumps (sid : string) : M unit :=
  with_session sid (fun s =>
    upd sid (fun s => {| s with blob_pumps_ := map (fun kv => (kv.1, (fail_all kv.2).1)) (blob_pumps_ s) |}) ;;
    for_each (blob_pumps_ s) (fun kv => for_each (fail_all kv.2).2 (fun ev => emit (pump_out sid kv.1 ev)))).

(** [Deadman::expire], for one of the session's deadmans. *)
Definition expire_deadman (call : string -> string -> Event -> Callback -> M unit) (sid : string) (d : Deadman) : M unit :=
  when (dm_alive d)
    (set_deadman sid (dm_id d) (fun d => {| d with dm_armed := false |}) ;;
     when (negb (dm_expired d))
       (set_deadman sid (dm_id d) (fun d => {| d with dm_expired := true |}) ;;
        call sid (dm_cap d) (EvDeadman sid (dm_id d)) (CbDeadman sid (dm_id d)))).

Definition release_caps (call : string -> string -> Event -> Callback -> M unit) (sid : string) (keep : Attached -> bool) : M unit :=
  with_session sid (fun s =>
    for_each (List.filter keep (caps_ s)) (fun c => swallow (call sid (a_name c) (EvRelease sid (a_name c)) (CbRelease sid (a_name c))))).

Definition close (sid reason : string) (retry from_server : bool) : M unit :=
  with_session sid (fun s =>
    if closing s then ret tt
    else
      fail_pumps sid ;;
      upd sid (fun s => {| s with s_state := Closing; watchdog_ := false; liveness_ := false; stats_timer_ := false; silence_timer_ := false |}) ;;
      release_caps call_closing sid input_bearing ;;
      with_session sid (fun s => for_each (deadmans_ s) (expire_deadman call_closing sid)) ;;
      upd sid (fun s => {| s with deadmans_ := [] |}) ;;
      with_session sid (fun s => for_each (caps_ s) (fun c =>
        swallow (call_closing sid (a_name c) (EvDetach sid (a_name c) (detach_reason_for reason) reason) (CbDetached sid (a_name c))))) ;;
      with_session sid (fun s => when (negb from_server && negb (closed_sent_ s))
        (signal "session-close" (("session_id", JStr sid) :: ("reason", JStr reason) :: if retry then [("retry", JBool true)] else []) ;;
         upd sid (fun s => {| s with closed_sent_ := true |}))) ;;
      unsubscribe_all sid ;;
      with_session sid (fun s => for_each (tracks_ s) (fun kv => upd_consumer sid (set_enabled kv.1 false))) ;;
      upd sid (fun s => {| s with closing_reason_ := reason; closing_retry_ := retry |}) ;;
      with_session sid (fun s =>
        if from_server || negb (match consumer_ s with Some _ => true | None => false end) then finish_close sid reason
        else upd sid (fun s => {| s with close_timer_ := true |}))).
Definition flush_close (sid : string) : M unit :=
  with_session sid (fun s => when (bool_decide (s_state s = Closing))
    (upd sid (fun s => {| s with close_timer_ := false |}) ;; finish_close sid (closing_reason_ s))).

(** ** Adding tracks *)
(** [consumer_->add_track]; its [on_error] hook closes the session on the spot. *)
Definition consumer_add (sid cp : string) (spec : TrackSpec) : M bool :=
  fun w => match sm_find sid (sessions w) with
  | None => (w, Ok false)
  | Some s =>
    match consumer_ s with
    | None => (w, Ok false)
    | Some c =>
      let '(c', ok, err) := add_track spec cp (add_env (spec_id spec)) c in
      (upd sid (fun s => {| s with consumer_ := Some c' |}) ;;
       match err with Some _ => close sid "media-error" false false | None => ret tt end ;; ret ok) w
    end
  end.
(** Register with the plane, offer if the source is there, keep the track if the pipeline took it. *)
Definition offer_track (sid cp : string) (spec : TrackSpec) : M bool :=
  modify (fun w => {| w with registry := register_track (spec_id spec) (registry w) |}) ;;
  if negb (available spec) then plane_unregister (spec_id spec) ;; ret false
  else
    do ok <- consumer_add sid cp spec;
    when ok (upd sid (fun s => {| s with tracks_ := sm_set (spec_id spec) (cp, spec) (tracks_ s) |})) ;; ret ok.
Fixpoint offer_new (sid cp : string) (l : list TrackSpec) : M bool :=
  match l with
  | [] => ret false
  | spec :: l' =>
    do w <- world;
    let have := match sm_find sid (sessions w) with Some s => sm_count (spec_id spec) (tracks_ s) | None => true end in
    do added <- (if have then ret false else offer_track sid cp spec);
    do more <- offer_new sid cp l';
    ret (added || more)
  end.
Definition drop_track (sid id : string) : M unit :=
  apply_demand sid id false "active" ;;
  upd_consumer sid (remove_track id (seqnum_of id)) ;;
  upd sid (fun s => {| s with tracks_ := sm_erase id (tracks_ s) |}) ;;
  plane_unregister id.

Definition update_tracks (sid cp : string) (full : list TrackSpec) : M unit :=
  with_session sid (fun s =>
    if negb (match consumer_ s with Some _ => true | None => false end) || closing s then ret tt
    else
      let wanted := map spec_id full in
      let removed := map fst (List.filter (fun kv => String.eqb kv.2.1 cp && negb (existsb (String.eqb kv.1) wanted)) (tracks_ s)) in
      for_each removed (drop_track sid) ;;
      do added <- offer_new sid cp full;
      when (negb (match removed with [] => true | _ => false end) || added) (request_offer sid)).

Definition call_plugin := call_cap (fun sid reason => close sid reason false false) update_tracks.

(** ** Control domains, the session's side *)
Definition view_only (c : Attached) : bool := match jfind "view_only" (a_params c) with Some (JBool b) => b | _ => false end.
Definition domains (s : Session) : list (string * unit) :=
  foldl (fun m c => if String.eqb (control_domain c) "" then m else sm_set (control_domain c) tt m) [] (caps_ s).
Definition in_domain (d : string) (s : Session) : bool := sm_count d (domains s).
Definition can_claim (d : string) (s : Session) : bool := existsb (fun c => String.eqb (control_domain c) d && negb (view_only c)) (caps_ s).
Definition release_domain_input (sid d : string) : M unit :=
  release_caps call_plugin sid (fun c => String.eqb (control_domain c) d && input_bearing c).

(** ** Control domains, the manager's side (core/session_manager.cpp) *)
Definition held_data (d : string) (cd : ControlDomains) : json :=
  match holder d cd with
  | None => jobj [("domain", JStr d); ("holder", JNull)]
  | Some h => jobj [("domain", JStr d); ("holder", jobj [("id", JStr (op_id (h_op h))); ("label", JStr (op_label (h_op h)))]); ("since", JInt (since_ms h))]
  end.
Definition control_state (s : Session) (cd : ControlDomains) : json :=
  let entry d :=
    let e := jobj [("holder", JNull); ("you", JBool false); ("view_only", JBool (negb (can_claim d s)))] in
    match holder d cd with
    | None => e
    | Some h => jset "you" (JBool (String.eqb (op_id (h_op h)) (op_id (s_op s)))) (jset "since" (JInt (since_ms h))
                  (jset "holder" (jobj [("id", JStr (op_id (h_op h))); ("label", JStr (op_label (h_op h)))]) e))
    end in
  jobj [("domains", JObj (map (fun kv => (kv.1, entry kv.1)) (domains s)))].
Definition send_control_state (sid : string) : M unit :=
  with_session sid (fun s =>
    match domains s with
    | [] => ret tt
    | _ => do w <- world; send_made sid "fjarr.core" "control-state" "event" (control_state s (control w)) ""
    end).

Definition session_ids (keep : Session -> bool) (w : World D) : list string := map fst (List.filter (fun kv => keep kv.2) (sessions w)).
Definition apply (c : Change) : M unit :=
  match c_release c with
  | Some op =>
    do w <- world;
    for_each (session_ids (fun s => String.eqb (op_id (s_op s)) op && in_domain (c_domain c) s) w) (fun sid => release_domain_input sid (c_domain c))
  | None => ret tt
  end ;;
  (do w <- world; for_each (session_ids (in_domain (c_domain c)) w) send_control_state) ;;
  modify (fun w => {| w with control_ticking := control_ticking w || any_held (control w) |}).
Definition control_tick (t : Z) : M unit :=
  do w <- world;
  let '(cd, changes) := expire t (control w) in
  modify (fun w => {| w with control := cd |}) ;;
  for_each changes apply.
(** The timer armed by [apply]. *)
Definition control_timer (t : Z) : M unit :=
  control_tick t ;; modify (fun w => {| w with control_ticking := any_held (control w) |}).

(** [Some] data when another operator holds the domain. *)
Definition control_input (sid d : string) : M (option json) :=
  control_tick now ;;
  fun w => match sm_find sid (sessions w) with
  | None => (w, Ok None)
  | Some s =>
    let '(cd, (oc, ch)) := input d (s_op s) now now_ms (control w) in
    (modify (fun w => {| w with control := cd |}) ;;
     match oc with
     | Held => ret (Some (held_data d cd))
     | Allowed => match ch with Some c => apply c | None => ret tt end ;; ret None
     end) w
  end.
(** [Some (code, message)] when the request is refused. *)
Definition control_request (sid type d : string) : M (option (string * string)) :=
  fun w => match sm_find sid (sessions w) with
  | None => (w, Ok None)
  | Some s =>
    (if String.eqb type "release-control" then
       let '(cd, ch) := release d (op_id (s_op s)) (control w) in
       modify (fun w => {| w with control := cd |}) ;;
       match ch with Some c => apply c | None => ret tt end ;; ret None
     else if negb (in_domain d s) then ret (Some (capability_denied, "no capability in the " +:+ d +:+ " domain is granted"))
     else if negb (can_claim d s) then ret (Some (capability_denied, "this grant is view-only"))
     else
       control_tick now ;;
       do w <- world;
       let '(cd, ch) := take_control d (s_op s) now now_ms (control w) in
       modify (fun w => {| w with control := cd |}) ;;
       match ch with Some c => apply c | None => ret tt end ;; ret None) w
  end.
Definition on_ping (sid : string) : M unit :=
  with_session sid (fun s => modify (fun w => {| w with control := heartbeat (op_id (s_op s)) now (control w) |})).

(** ** Routing *)
Definition control_gate (sid : string) (c : Attached) (env : option Envelope) : M bool :=
  if String.eqb (control_domain c) "" then ret true
  else if negb (match control_inputs c with [] => true | _ => false end)
          && match env with None => true | Some e => negb (existsb (String.eqb (type_ e)) (control_inputs c)) end then ret true
  else
    let request := match env with Some e => String.eqb (kind e) "request" | None => false end in
    let refuse code message data :=
      upd sid (fun s => {| s with dropped_control_ := dropped_control_ s + 1 |}) ;;
      match env with Some e => when request (reply_error sid e code message data) | None => ret tt end ;; ret false in
    if view_only c then refuse capability_denied "this grant is view-only" JNull
    else
      do held <- control_input sid (control_domain c);
      match held with
      | None => ret true
      | Some data =>
        let label := match jfind "label" (at_key data "holder") with Some (JStr l) => l | _ => "" end in
        refuse control_held (control_domain c +:+ " is held by " +:+ label) data
      end.

Definition handle_core (sid : string) (env : Envelope) : M unit :=
  if negb (String.eqb (kind env) "request") then ret tt
  else if String.eqb (type_ env) "ping" || String.eqb (type_ env) "time-sync" then
    upd sid (fun s => {| s with liveness_ := true |}) ;;
    on_ping sid ;;
    with_session sid (fun s =>
      if silent_pings_ s then ret tt
      else
        let t0 := match jfind "t0" (e_payload env) with
                  | Some (JInt z) | Some (JUint z) => s64 z
                  | Some (JFloat f) => match trunc_float f with Some z => if (- 2 ^ 63 <=? z) && (z <? 2 ^ 63) then z else - 2 ^ 63 | None => - 2 ^ 63 end
                  | _ => 0
                  end in
        send_made sid "fjarr.core" (if String.eqb (type_ env) "ping" then "pong" else "time-sync") "result"
          (jobj [("ok", JBool true); ("t0", JInt t0); ("t1", JInt now_ms); ("t2", JInt now_ms2)]) (event_id env))
  else if String.eqb (type_ env) "take-control" || String.eqb (type_ env) "release-control" then
    match at_key (e_payload env) "domain" with
    | JStr d =>
      if negb (known d) then reply_error sid env payload_invalid "domain must be 'desktop' or 'motion'" JNull
      else
        do err <- control_request sid (type_ env) d;
        match err with
        | Some (code, message) => reply_error sid env code message JNull
        | None => reply sid env (jobj [("ok", JBool true)])
        end
    | _ => reply_error sid env payload_invalid "domain must be 'desktop' or 'motion'" JNull
    end
  else ret tt.

(** [select-tracks]: everything is checked before anything is applied. *)
Definition check_track (s : Session) (owner : string) (t : json) : option string :=
  if negb (is_object t) || negb (contains t "track_id") || negb (is_string (at_key t "track_id")) then Some "tracks[] entries need a string track_id"%string
  else
    let id := str_at t "track_id" in
    if String.eqb id "" || match sm_find id (tracks_ s) with Some (o, _) => negb (String.eqb o owner) | None => true end
    then Some ("unknown track " +:+ id)
    else if contains t "tier" && negb (is_string (at_key t "tier")) then Some "tier must be a string"%string
    else if negb (contains t "enabled") || negb (is_boolean (at_key t "enabled")) then Some "enabled must be a boolean"%string
    else if match at_key t "enabled" with JBool b => b | _ => false end
            && match consumer_ s with Some c => match track id c with Some ct => rejected ct | None => false end | None => false end
    then Some ("track " +:+ id +:+ " was rejected by this peer's answer")
    else
      let tr := match at_key t "tier" with JStr x => x | _ => "active" end in
      if negb (String.eqb tr "active") && negb (String.eqb tr "thumbnail") then Some "tier must be active|thumbnail"%string else None.
Fixpoint check_tracks (s : Session) (owner : string) (l : list json) : option string :=
  match l with [] => None | t :: l' => match check_track s owner t with Some e => Some e | None => check_tracks s owner l' end end.
Definition select_track (sid : string) (t : json) : M unit :=
  let id := str_at t "track_id" in
  apply_demand sid id (match at_key t "enabled" with JBool b => b | _ => false end) (match at_key t "tier" with JStr x => x | _ => "active" end) ;;
  with_session sid (fun s =>
    when (contains t "preference" && match consumer_ s with Some c => sink_for id c | None => false end)
      (do p <- lift (value_str t "preference" "motion"); emit (EvPreference sid id (String.eqb p "sharpness")))).
Definition handle_select_tracks (sid : string) (env : Envelope) (owner : string) : M unit :=
  let tracks := match jfind "tracks" (e_payload env) with Some v => v | None => JArr [] end in
  match tracks with
  | JArr l =>
    with_session sid (fun s =>
      match check_tracks s owner l with
      | Some e => reply_error sid env payload_invalid e JNull
      | None => for_each l (select_track sid) ;; reply sid env (jobj [("ok", JBool true)])
      end)
  | _ => reply_error sid env payload_invalid "tracks must be an array" JNull
  end.

Definition exn_what (e : exn) : string := match e with FjarrError code message => code +:+ ": " +:+ message | StdException w => w end.
Definition route (sid : string) (env : Envelope) : M unit :=
  if String.eqb (cap env) "fjarr.core" then handle_core sid env
  else
    with_session sid (fun s =>
      let request := String.eqb (kind env) "request" in
      match attached (cap env) s with
      | None =>
        when request
          (if known_capability (cap env) then reply_error sid env capability_denied "capability not granted to this session" JNull
           else reply_error sid env capability_unknown "capability not attached to this session" JNull)
      | Some c =>
        if String.eqb (type_ env) "select-tracks" && request then handle_select_tracks sid env (a_name c)
        else
          do pass <- control_gate sid c (Some env);
          if negb pass then ret tt
          else
            catch (call_plugin sid (a_name c) (EvMessage sid (a_name c) env) (CbMessage sid (a_name c) env))
              (fun e => match e with
                        | FjarrError code message => when request (reply_error sid env code message JNull)
                        | StdException w => when request (reply_error sid env internal w JNull)
                        end)
      end).

Definition drop_envelope (sid : string) : M unit := upd sid (fun s => {| s with dropped_envelopes_ := dropped_envelopes_ s + 1 |}).
Definition drop_binary (sid : string) : M unit := upd sid (fun s => {| s with dropped_binary_ := dropped_binary_ s + 1 |}).
Definition on_channel_text (sid text : string) : M unit :=
  with_session sid (fun s =>
    if closing s || (MAX_ENVELOPE_BYTES <? ssize text) then drop_envelope sid
    else
      match parse_envelope text with
      | None => drop_envelope sid
      | Some env =>
        catch (route sid env)
          (fun e => drop_envelope sid ;; when (String.eqb (kind env) "request") (reply_error sid env payload_invalid (exn_what e) JNull))
      end).

Definition framing_of (c : Attached) (cls : ChannelClass) : BulkFraming :=
  match cls with
  | ChStream => FRaw
  | _ => foldl (fun f d => if bool_decide (d.1 = cls) then d.2 else f) FRaw (a_channels c)
  end.
Definition on_channel_data (sid label : string) (bytes : list byte) : M unit :=
  with_session sid (fun s =>
    if closing s then drop_binary sid
    else
      match parse_binary_label label with
      | None => drop_binary sid
      | Some (name, cls) =>
        match attached name s with
        | None => drop_binary sid
        | Some c =>
          if negb (existsb (String.eqb name) (contexts_ s)) then drop_binary sid
          else
            do pass <- control_gate sid c None;
            if negb pass then drop_binary sid
            else
              swallow
                match framing_of c cls with
                | FRaw => call_plugin sid name (EvBinary sid name bytes) (CbBinary sid name bytes)
                | FBlob =>
                  match parse_chunk bytes with
                  | None => drop_binary sid
                  | Some ch => call_plugin sid name (EvChunk sid name ch) (CbChunk sid name ch)
                  end
                end
        end
      end).
Definition deliver (sid label : string) (b : Body) : M unit :=
  match b with Text t => on_channel_text sid t | Data d => on_channel_data sid label d end.
Definition deliver_inbound (sid label : string) (b : Body) : M unit :=
  with_session sid (fun s =>
    if negb (sm_count label (channels_ s)) then
      upd sid (fun s => {| s with early_inbound_ := sm_set label (default [] (sm_find label (early_inbound_ s)) ++ [b]) (early_inbound_ s) |})
    else deliver sid label b).
End Ops.
