(* ===== verification/SessionRate.v ===== *)
(** * SessionRate: one peer's rate control (core/session.cpp, rate_tick)

    Every 200 ms a connected session reads the transport's feedback, updates its congestion
    estimate, shares it over the tracks it sends in proportion to what their tiers aim for, reports
    each share to the media plane and lets the tier policy of each track decide. The bands are the
    plane's, the window rtpsession's; the diagnostics are left out. *)

From Stdlib Require Import ZArith Lia Strings.Byte Ascii String SpecFloat.
From stdpp Require Import base list strings.
From S2P Require Import Prelude Floats RateEstimator TierPolicy Monad StdMap Json Blob BlobAssembler BlobPump Protocol ControlDomains Senders Consumer SessionState SessionOps.

Definition kilo : dbl := Eval vm_compute in of_Z 1000.
Definition d1_2 : dbl := Eval vm_compute in lit 12 10.
Definition deqb (a b : dbl) : bool := SFeqb a b.
Definition bps_of (kbps : Z) : dbl := (of_Z kbps * kilo)%dbl.
(** rtpsession keeps the last window until the next feedback arrives. *)
Definition same_window (a b : TwccSample) : bool :=
  (packets a =? packets b) && (packets_recv a =? packets_recv b) && deqb (bitrate_sent a) (bitrate_sent b)
  && deqb (bitrate_recv a) (bitrate_recv b) && (avg_delta_of_delta_ns a =? avg_delta_of_delta_ns b).

Section Rate.
Context `{JT : JsonText} {D : Type} `{DC : DataChannel D} `{AM : Ambient}.
Abbreviation M := (M D).
Abbreviation Session := (Session D).

Definition target_of (ct : ConsumerTrack) : dbl := bps_of (plane_band (ct_id ct) (tier ct)).2.
(** The tracks this peer is sent, in the order of their ids. *)
Definition sending (s : Session) (c : Consumer) : list string :=
  List.filter (fun id => match track id c with Some ct => enabled ct && sm_count id (subscribed_tier_ s) | None => false end) (map fst (tracks_ s)).
Definition sum_targets (c : Consumer) (ids : list string) : dbl :=
  foldl (fun sum id => match track id c with Some ct => (sum + target_of ct)%dbl | None => sum end) d0 ids.
Definition rate_limits (sum : dbl) : RateLimits :=
  {| floor_bps := bps_of active_floor_kbps; ceiling_bps := (dmax sum (bps_of active_kbps) * d1_2)%dbl |}.
Definition limited (sum : dbl) (s : Session) : RateEstimator :=
  match estimator_ s with
  | None => new_estimator (rate_limits sum) (dmax sum (floor_bps (rate_limits sum))) now
  | Some e => set_limits (rate_limits sum) e
  end.
(** A window seen before is no new feedback. *)
Definition window (sid : string) (s : Session) : TwccSample :=
  let twcc := twcc_sample sid in if same_window twcc (last_twcc_ s) then {| twcc with packets := 0 |} else twcc.
Definition evidence (twcc : TwccSample) (estimate : dbl) : Evidence :=
  if packets twcc =? 0 then none else if (TESTED_RATIO * estimate <=? bitrate_sent twcc)%dbl then tested else untested.
(** A demoted viewer is judged on what the active tier would need. *)
Definition judged (estimate sum share : dbl) (ct : ConsumerTrack) : dbl :=
  let high := bps_of (plane_band (ct_id ct) "active").2 in
  if String.eqb (tier ct) "active" then share else (estimate * high / (sum - target_of ct + high))%dbl.

Definition rate_track (sid : string) (estimate sum : dbl) (ev : Evidence) (id : string) : M unit :=
  with_session sid (fun s =>
    match consumer_ s with
    | None => ret tt
    | Some c =>
      match track id c with
      | None => ret tt
      | Some ct =>
        let share := (estimate * target_of ct / sum)%dbl in
        emit (EvAllot sid id (tier ct) share) ;;
        let '(policy, changed) := TierPolicy.update (judged estimate sum share ct) (bps_of (plane_band id "active").1) (plane_thumbnail id) ev now (policy_of id s) in
        upd sid (fun s => {| s with tier_policy_ := sm_set id policy (tier_policy_ s) |}) ;;
        when (match changed with Some _ => true | None => false end) (apply_demand sid id true (demanded_tier ct))
      end
    end).
Definition rate_tick (sid : string) : M unit :=
  with_session sid (fun s =>
    match consumer_ s with
    | None => ret tt
    | Some c =>
      when (bool_decide (s_state s = Connected)) (
        let ids := sending s c in
        let sum := sum_targets c ids in
        let twcc := window sid s in
        let est := RateEstimator.update twcc now (limited sum s) in
        upd sid (fun s => {| s with estimator_ := Some est; last_twcc_ := twcc_sample sid |}) ;;
        when (negb (match ids with [] => true | _ => false end) && negb (sum <=? d0)%dbl)
          (for_each ids (rate_track sid (estimate_ est) sum (evidence twcc (estimate_ est)))))
    end).
End Rate.
