(* ===== verification/SessionLife.v ===== *)
(** * SessionLife: a session from request to end, and the manager (core/session.cpp, core/session_manager.cpp)

    [attach] and the hooks of the consumer pipeline, channel openings, the timers, and the
    manager's own operations; [step] composes them into the transitions the core loop makes. *)

From Stdlib Require Import ZArith Lia Strings.Byte Ascii String.
From stdpp Require Import base list strings.
From S2P Require Import Prelude Floats RateEstimator TierPolicy Monad StdMap Json Blob BlobAssembler BlobPump Protocol ControlDomains Senders Consumer SessionState SessionOps SessionRate.

Section Life.
Context `{JT : JsonText} {D : Type} `{DC : DataChannel D} `{AM : Ambient}.
Abbreviation M := (M D).
Abbreviation Session := (Session D).

Definition maybe_connected (sid : string) : M unit :=
  with_session sid (fun s =>
    if negb (negotiating s) then ret tt
    else if negb (String.eqb (connection_state_ s) "connected") || negb (control_open_ s) then ret tt
    else
      upd sid (fun s => {| s with watchdog_ := false; s_state := Connected; liveness_ := true; stats_timer_ := true; rate_timer_ := true |}) ;;
      send_control_state sid ;;
      emit (EvEmit sid "started" "")).

(** ** Channels *)
Definition open_sender (label : string) (dc : D) : option (Sender D) :=
  if String.eqb label "fjarr:control" then Some (ControlSender (Some dc))
  else if String.eqb label "fjarr:realtime" then Some (RealtimeSender (Some dc) 0)
  else if starts_with BULK (chars label) then Some (BulkSender (Some dc))
  else if starts_with STREAM (chars label) then Some (StreamSender (Some dc) 0)
  else None.
Definition on_channel_open (sid label : string) (dc : D) : M unit :=
  upd sid (fun s => {| s with channels_ := sm_set label tt (channels_ s) |}) ;;
  match open_sender label dc with
  | Some snd => upd sid (fun s => {| s with senders_ := sm_set label snd (senders_ s) |})
  | None => ret tt
  end ;;
  if String.eqb label "fjarr:control" then
    (with_session sid (fun s =>
       upd sid (fun s => {| s with control_open_ := true; early_outbound_ := [] |}) ;;
       for_each (early_outbound_ s) (send_control sid)) ;;
     milestone sid "control-open" ;;
     maybe_connected sid)
  else if negb (String.eqb label "fjarr:realtime") && starts_with BULK (chars label) then pump_blobs sid label
  else ret tt ;;
  with_session sid (fun s =>
    match sm_find label (early_inbound_ s) with
    | None => ret tt
    | Some held =>
      upd sid (fun s => {| s with early_inbound_ := sm_erase label (early_inbound_ s) |}) ;;
      for_each held (deliver sid label)
    end).
(** The channel's buffered amount fell below the low-water mark; [dc] is its state now. *)
Definition on_drain (sid label : string) (dc : D) : M unit :=
  with_session sid (fun s =>
    if closing s then ret tt
    else
      upd sid (fun s => {| s with senders_ := match sm_find label (senders_ s) with
                                              | Some (BulkSender _) => sm_set label (BulkSender (Some dc)) (senders_ s)
                                              | _ => senders_ s
                                              end |}) ;;
      pump_blobs sid label).

(** ** Attaching *)
Definition attach_cap (sid : string) (c : Attached) : M unit :=
  upd sid (fun s => {| s with attaching_ := true; attaching_cap_ := a_name c |}) ;;
  swallow (call_plugin sid (a_name c) (EvAttach sid (a_name c)) (CbAttached sid (a_name c))) ;;
  upd sid (fun s => {| s with attaching_ := false; contexts_ := contexts_ s ++ [a_name c] |}).
Definition attach (sid : string) (caps : list Attached) : M unit :=
  upd sid (fun s => {| s with caps_ := caps; s_state := Building |}) ;;
  milestone sid "attached" ;;
  for_each caps (attach_cap sid) ;;
  upd sid (fun s => {| s with consumer_ := Some new_consumer |}) ;;
  if negb build_ok then
    signal "session-reject" [("session_id", JStr sid); ("reason", JStr "media-error")] ;;
    upd sid (fun s => {| s with closed_sent_ := true |}) ;;
    close sid "media-error" false false
  else
    milestone sid "channels-created" ;;
    with_session sid (fun s => for_each (pending_tracks_ s) (fun ct => offer_track sid ct.1 ct.2 ;; ret tt)) ;;
    upd sid (fun s => {| s with pending_tracks_ := [] |}) ;;
    with_session sid (fun s => for_each (pending_inbound_ s) (fun ci =>
      upd_consumer sid (fun c => (add_inbound_audio (inbound_ok ci.2) c).1))) ;;
    upd sid (fun s => {| s with pending_inbound_ := [] |}) ;;
    signal "session-accept" [("session_id", JStr sid)] ;;
    milestone sid "caps-fixed" ;;
    request_offer sid.

(** ** The pipeline's hooks, guarded by the generation *)
Inductive Hook :=
| HOffer (sdp : string) | HIce (mline : Z) (cand : string) | HConnectionState (st : string) | HIceState (st : string)
| HChannelOpen (label : string) (dc : D) | HMilestone (m : string) | HError | HKeyframe (track : string)
| HOfferCreated (sections : option (list (bool * option string))) | HAnswerApplied (accepted : list bool) (mids : list (option string)).
Definition send_offer (sid sdp : string) : M unit :=
  upd sid (fun s => {| s with manifest_version_ := u32 (manifest_version_ s + 1) |}) ;;
  with_session sid (fun s =>
    signal "offer" [("session_id", JStr sid); ("sdp", JStr sdp);
                    ("tracks", manifest_to_json (match consumer_ s with Some c => manifest c | None => [] end));
                    ("manifest_version", JUint (manifest_version_ s))]) ;;
  upd sid (fun s => if bool_decide (s_state s = Building) then {| s with s_state := Offered |} else s).
Definition keyframe (sid track : string) : M unit :=
  with_session sid (fun s => match sm_find track (subscribed_tier_ s) with Some t => emit (EvKeyframe track t) | None => ret tt end).
Definition hook (sid : string) (h : Hook) : M unit :=
  match h with
  | HOffer sdp => upd_consumer sid local_description_set ;; send_offer sid sdp
  | HIce m cand => signal "ice" [("session_id", JStr sid); ("candidate", JStr cand); ("sdp_mline_index", JUint m)]
  | HConnectionState st =>
    upd sid (fun s => {| s with connection_state_ := st |}) ;;
    if String.eqb st "connected" then maybe_connected sid
    else when (String.eqb st "failed") (close sid "ice-failed" false false)
  | HIceState st => with_session sid (fun s => when (String.eqb st "failed" && negb (closing s)) (close sid "ice-failed" false false))
  | HChannelOpen label dc => on_channel_open sid label dc
  | HMilestone m => milestone sid m
  | HError => close sid "media-error" false false
  | HKeyframe track => keyframe sid track
  | HOfferCreated sections =>
    with_session sid (fun s =>
      match consumer_ s with
      | None => ret tt
      | Some c =>
        upd sid (fun s => {| s with consumer_ := Some (offer_created sections c).1 |}) ;;
        match sections with None => close sid "media-error" false false | Some _ => milestone sid "offer-created" end
      end)
  | HAnswerApplied accepted mids =>
    with_session sid (fun s =>
      match consumer_ s with
      | None => ret tt
      | Some c =>
        let '(c', keyframes) := answer_applied accepted mids c in
        upd sid (fun s => {| s with consumer_ := Some c' |}) ;;
        milestone sid "remote-description-set" ;;
        for_each keyframes (keyframe sid)
      end)
  end.
(** A hook posted in generation [g] runs only on that session, and never on a closed one. *)
Definition guarded (sid : string) (g : Z) (m : M unit) : M unit :=
  with_session sid (fun s => when (Z.eqb (generation_ s) g && negb (bool_decide (s_state s = Closed))) m).

(** ** Signaling for a session *)
Definition on_signal_session (sid : string) (msg : SignalingMessage) (answer_ok : bool) : M unit :=
  let t := m_type msg in
  if String.eqb t "answer" then
    with_session sid (fun s => match consumer_ s with
      | None => ret tt
      | Some _ =>
        do sdp <- lift (value_str (body msg) "sdp" "");
        (if answer_ok then milestone sid "answer-received" else close sid "media-error" false false) ;;
        upd sid (fun s => {| s with answered_once_ := true |})
      end)
  else if String.eqb t "ice" then
    with_session sid (fun s => match consumer_ s with
      | None => ret tt
      | Some _ =>
        do m <- lift (value_int (body msg) "sdp_mline_index" 0);
        do cand <- lift (value_str (body msg) "candidate" "");
        upd_consumer sid (add_ice_candidate (u32 m) cand)
      end)
  else if String.eqb t "ice-restart" then close sid "ice-restart" true false
  else if String.eqb t "session-close" then
    do reason <- lift (value_str (body msg) "reason" "operator-closed");
    close sid reason false true
  else when (String.eqb t "peer-gone") (close sid "peer-gone" false true).

(** ** Timers *)
Inductive Timer := TWatchdog | TLiveness | TRate | TClose | TSilence | TDeadman (n : nat).
Definition timer_armed (t : Timer) (s : Session) : bool :=
  match t with
  | TWatchdog => watchdog_ s | TLiveness => liveness_ s | TRate => rate_timer_ s | TClose => close_timer_ s | TSilence => silence_timer_ s
  | TDeadman n => existsb (fun d => Nat.eqb (dm_id d) n && dm_armed d && dm_alive d) (deadmans_ s)
  end.
Definition fire (sid : string) (t : Timer) : M unit :=
  match t with
  | TWatchdog =>
    upd sid (fun s => {| s with watchdog_ := false |}) ;;
    with_session sid (fun s => when (negotiating s) (close sid ("negotiation-timeout:" +:+ last_milestone_ s) false false))
  | TLiveness =>
    upd sid (fun s => {| s with liveness_ := false |}) ;;
    with_session sid (fun s => when (bool_decide (s_state s = Connected)) (close sid "heartbeat" false false))
  | TRate => rate_tick sid
  | TClose =>
    upd sid (fun s => {| s with close_timer_ := false |}) ;;
    with_session sid (fun s => finish_close sid (closing_reason_ s))
  | TSilence =>
    with_session sid (fun s =>
      let was := silent_media_ s in
      upd sid (fun s => {| s with silence_timer_ := false; silent_pings_ := false; silent_media_ := false |}) ;;
      when was (for_each (subscribed_tier_ s) (fun kv => upd_consumer sid (set_enabled kv.1 true) ;; emit (EvResync sid kv.1 kv.2))))
  | TDeadman n =>
    with_session sid (fun s => for_each (List.filter (fun d => Nat.eqb (dm_id d) n) (deadmans_ s)) (expire_deadman call_plugin sid))
  end.
Definition test_silence (sid : string) (hooks pings media : bool) : M unit :=
  if negb hooks then throw (FjarrError "capability-denied" "test hooks are disabled (fjarr.test test_hooks = false)")
  else
    upd sid (fun s => {| s with silent_pings_ := pings; silent_media_ := media |}) ;;
    with_session sid (fun s => when media (for_each (tracks_ s) (fun kv => upd_consumer sid (set_enabled kv.1 false)))) ;;
    upd sid (fun s => {| s with silence_timer_ := true |}).

(** ** The manager *)
Definition reject (sid reason : string) : M unit := signal "session-reject" [("session_id", JStr sid); ("reason", JStr reason)].
(** [lookup]: an enabled capability's manifest as registered, without the grant's parameters. *)
Fixpoint resolve (lookup : string -> option (bool * Attached)) (grants : list CapabilityGrant) : option (list Attached) :=
  match grants with
  | [] => Some []
  | g :: rest =>
    match lookup (g_name g) with
    | Some (true, a) => let? caps := resolve lookup rest in Some ({| a with a_params := params g |} :: caps)
    | _ => None
    end
  end.
Definition on_session_request (lookup : string -> option (bool * Attached)) (msg : SignalingMessage) : M unit :=
  let sid := session_id msg in
  do cj <- lift (value_json (body msg) "capabilities" (JArr []));
  do oj <- lift (value_json (body msg) "operator" JNull);
  let turn := if contains (body msg) "turn" then parse_turn (at_key (body msg) "turn") else None in
  match parse_capabilities cj, parse_operator oj with
  | Some grants, Some op =>
    do w <- world;
    if sm_count sid (sessions w) then reject sid "session-unknown"
    else
      match resolve lookup grants with
      | None => reject sid "capability-denied"
      | Some caps =>
        modify (fun w => {| w with sessions := sm_set sid (new_session op turn) (sessions w) |}) ;;
        attach sid caps
      end
  | _, _ => reject sid "payload-invalid"
  end.
Definition on_signal (msg : SignalingMessage) (answer_ok : bool) : M unit :=
  do w <- world;
  if sm_count (session_id msg) (sessions w) then on_signal_session (session_id msg) msg answer_ok
  else when (negb (String.eqb (m_type msg) "peer-gone") && negb (String.eqb (m_type msg) "session-close"))
         (signal "error" [("code", JStr "session-unknown"); ("message", JStr "unknown session"); ("caused_by", JStr (m_event_id msg))]).
Definition close_all (reason : string) (retry : bool) : M unit :=
  do w <- world;
  for_each (sessions w).*1 (fun sid => close sid reason retry (String.eqb reason "peer-gone")) ;;
  for_each (sessions w).*1 flush_close.
Definition drop_orphaned_claims (keep : string) : M unit :=
  for_each ["desktop"%string; "motion"%string] (fun d =>
    do w <- world;
    match holder d (control w) with
    | None => ret tt
    | Some h =>
      let who := op_id (h_op h) in
      let live := String.eqb who keep
        || existsb (fun kv => String.eqb (op_id (s_op kv.2)) who && in_domain d kv.2 && negb (bool_decide (s_state kv.2 = Closed))) (sessions w) in
      when (negb live)
        (let '(cd, ch) := gone d who (control w) in
         modify (fun w => {| w with control := cd |}) ;;
         match ch with Some c => apply c | None => ret tt end)
    end).
Definition run_task (t : Task) : M unit :=
  match t with
  | TClosed sid =>
    do w <- world;
    let keep := match sm_find sid (sessions w) with Some s => if closing_retry_ s then op_id (s_op s) else "" | None => "" end in
    modify (fun w => {| w with sessions := sm_erase sid (sessions w) |}) ;;
    drop_orphaned_claims keep
  | TPump sid g label => with_session sid (fun s => when (Z.eqb (generation_ s) g) (pump_blobs sid label))
  end.
Definition pop_task : M unit :=
  do w <- world;
  match posted w with
  | [] => ret tt
  | t :: rest => modify (fun w => {| w with posted := rest |}) ;; run_task t
  end.

(** ** The transitions of the core loop *)
Inductive Input :=
| IRequest (lookup : string -> option (bool * Attached)) (msg : SignalingMessage)
| ISignal (msg : SignalingMessage) (answer_ok : bool)
| IHook (sid : string) (g : Z) (h : Hook)
| IInbound (sid : string) (g : Z) (label : string) (b : Body)
| IDrain (sid : string) (g : Z) (label : string) (dc : D)
| ITimer (sid : string) (t : Timer)
| IControlTimer (t : Z)
| ITask
| IContext (sid cap : string) (c : CtxCall)   (* a plugin acts from its own loop callback *)
| ISilence (sid : string) (hooks pings media : bool)
| ICloseAll (reason : string) (retry : bool).
Definition step (i : Input) : M unit :=
  match i with
  | IRequest lookup msg => on_session_request lookup msg
  | ISignal msg ok => on_signal msg ok
  | IHook sid g h => guarded sid g (hook sid h)
  | IInbound sid g label b => with_session sid (fun s => when (Z.eqb (generation_ s) g) (deliver_inbound sid label b))
  | IDrain sid g label dc => with_session sid (fun s => when (Z.eqb (generation_ s) g) (on_drain sid label dc))
  | ITimer sid t => with_session sid (fun s => when (timer_armed t s) (fire sid t))
  | IControlTimer t => do w <- world; when (control_ticking w) (control_timer t)
  | ITask => pop_task
  | IContext sid cp c =>
    with_session sid (fun s => when (existsb (String.eqb cp) (contexts_ s))
      (ctx_call (fun sid reason => close sid reason false false) update_tracks sid cp c))
  | ISilence sid hooks pings media => test_silence sid hooks pings media
  | ICloseAll reason retry => close_all reason retry
  end.
Definition new_world : World D := {| sessions := []; control := no_domains; control_ticking := false; registry := []; trace := []; posted := [] |}.
End Life.
Arguments Hook D : clear implicits.
Arguments Input D : clear implicits.
