(* ===== verification/SessionLemmas.v ===== *)
(** * SessionLemmas: how handlers change the world

    [quiet] is the relation of the operations that only send,
    count or keep book: they leave every session's core, the control domains and the core events
    of the trace as they were. *)

From Stdlib Require Import ZArith Lia Strings.Byte Ascii String.
From stdpp Require Import base list strings relations.
From S2P Require Import Prelude Floats RateEstimator TierPolicy Monad StdMap Json Blob BlobAssembler BlobPump Protocol ControlDomains Senders Consumer SessionState SessionOps SessionRate SessionLife.

Create HintDb quiet.

Section With.
Context {D : Type} (R : relation (World D)) `{!PreOrder R}.
Lemma respects_world : respects R world.
Proof. apply respects_get; apply _. Qed.
Lemma respects_with sid k : (forall s, respects R (k s)) -> respects R (with_session sid k).
Proof. intros Hk w. unfold with_session. destruct (sm_find sid (sessions w)); [apply Hk | done]. Qed.
End With.
#[export] Hint Resolve respects_ret respects_throw respects_lift respects_world : quiet.

(** ** The quiet relation *)
Definition some_consumer {D} (s : Session D) : bool := match consumer_ s with Some _ => true | None => false end.
Definition core {D} (s : Session D) : SState * list Attached * bool * OperatorInfo * Z * list string * bool * bool * string :=
  (s_state s, caps_ s, closed_sent_ s, s_op s, generation_ s, contexts_ s, some_consumer s, attaching_ s, attaching_cap_ s).
Definition core_event (e : Event) : bool :=
  match e with
  | EvSignal _ | EvAttach _ _ | EvMessage _ _ _ | EvBinary _ _ _ | EvChunk _ _ _ | EvRelease _ _ | EvDetach _ _ _ _ => true
  | _ => false
  end.
Definition core_trace {D} (w : World D) : list Event := List.filter core_event (trace w).
Record quiet {D} (w w' : World D) : Prop := {
  q_core : forall k, core <$> sm_find k (sessions w) = core <$> sm_find k (sessions w');
  q_control : control w = control w';
  q_trace : core_trace w = core_trace w'
}.
#[global] Instance quiet_preorder D : PreOrder (@quiet D).
Proof.
  split; [done|]. intros a b c [H1 H2 H3] [H4 H5 H6]. split; [|congruence|congruence]. intros k. by rewrite H1.
Qed.

Section Quiet.
Context `{JT : JsonText} {D : Type} `{DC : DataChannel D} `{AM : Ambient}.
Abbreviation quietly m := (respects (@quiet D) m).

Lemma quiet_upd sid f : (forall s : Session D, core (f s) = core s) -> quietly (upd sid f).
Proof.
  intros Hf w. unfold upd, modify. simpl. destruct (sm_find sid (sessions w)) as [s|] eqn:E; [|done]. split; simpl; [|done|done].
  intros k. destruct (decide (k = sid)) as [->|]; [by rewrite sm_find_set_eq, E; simpl; rewrite Hf | by rewrite sm_find_set_ne].
Qed.
Lemma quiet_emit e : core_event e = false -> quietly (emit e).
Proof.
  intros He w. split; [done | done |]. unfold core_trace, emit, modify. simpl. rewrite List.filter_app. simpl. by rewrite He, app_nil_r.
Qed.
Lemma quiet_modify (f : World D -> World D) : (forall w, sessions (f w) = sessions w /\ control (f w) = control w /\ trace (f w) = trace w) -> quietly (modify f).
Proof.
  intros Hf w. destruct (Hf w) as (Es & Ec & Et). split; simpl; [by rewrite Es | done |]. unfold core_trace. by rewrite Et.
Qed.
End Quiet.

(** Walks a handler down to its primitive steps. *)
Ltac session_step :=
  first [apply respects_world; apply _ | respects_step | apply respects_with; [apply _|intros ?]].
Ltac quietly :=
  repeat first
  [ solve [auto with quiet]
  | apply quiet_upd; intros; reflexivity
  | apply quiet_emit; reflexivity
  | apply quiet_modify; intros; split_and!; reflexivity
  | session_step ].

Section QuietOps.
Context `{JT : JsonText} {D : Type} `{DC : DataChannel D} `{AM : Ambient}.
Abbreviation quietly m := (respects (@quiet D) m).

Lemma send_control_quiet sid env : quietly (send_control sid env).
Proof. unfold send_control. quietly. Qed.
Hint Resolve send_control_quiet : quiet.
Lemma send_made_quiet sid c t k pl id : quietly (send_made sid c t k pl id).
Proof. unfold send_made. quietly. Qed.
Hint Resolve send_made_quiet : quiet.
Lemma reply_quiet sid req pl : quietly (reply sid req pl).
Proof. unfold reply. quietly. Qed.
Hint Resolve reply_quiet : quiet.
Lemma reply_error_quiet sid req c m d : quietly (reply_error sid req c m d).
Proof. unfold reply_error. quietly. Qed.
Hint Resolve reply_error_quiet : quiet.
Lemma store_sender_quiet sid l s : quietly (store_sender sid l s).
Proof. unfold store_sender. quietly. Qed.
Hint Resolve store_sender_quiet : quiet.
Lemma send_on_quiet sid l env : quietly (send_on sid l env).
Proof. unfold send_on. quietly. Qed.
Lemma send_frame_quiet sid l b : quietly (send_frame sid l b).
Proof. unfold send_frame. quietly. Qed.
Hint Resolve send_on_quiet send_frame_quiet : quiet.
Lemma pump_out_quiet sid l ev : quietly (emit (pump_out sid l ev)).
Proof. apply quiet_emit. by destruct ev. Qed.
Hint Resolve pump_out_quiet : quiet.
Lemma pump_blobs_quiet sid l : quietly (pump_blobs sid l).
Proof. unfold pump_blobs. quietly. Qed.
Lemma send_blob_quiet sid c b m d : quietly (send_blob sid c b m d).
Proof. unfold send_blob. quietly. Qed.
Lemma cancel_blob_quiet sid id : quietly (cancel_blob sid id).
Proof. unfold cancel_blob. quietly. Qed.
Hint Resolve pump_blobs_quiet send_blob_quiet cancel_blob_quiet : quiet.
Lemma add_pending_quiet sid c t f : (forall s : Session D, core (f s) = core s) -> quietly (add_pending sid c t f).
Proof. intros Hf. unfold add_pending. quietly. by apply quiet_upd. Qed.
Lemma ctx_call_quiet dc du sid cp c : (forall sid r, quietly (dc sid r)) -> (forall sid cp l, quietly (du sid cp l)) -> quietly (ctx_call dc du sid cp c).
Proof.
  intros Hc Hu. destruct c; simpl; unfold need_request, set_deadman; quietly; try (by apply add_pending_quiet).
Qed.
Hint Resolve ctx_call_quiet : quiet.
Lemma upd_consumer_quiet sid f : quietly (upd_consumer sid f).
Proof.
  unfold upd_consumer. apply quiet_upd. intros s. destruct (consumer_ s) eqn:E; [|done]. unfold core, some_consumer. simpl. by rewrite E.
Qed.
Hint Resolve upd_consumer_quiet : quiet.
Lemma apply_demand_quiet sid id en d : quietly (apply_demand sid id en d).
Proof. unfold apply_demand. quietly. Qed.
Lemma unsubscribe_all_quiet sid : quietly (unsubscribe_all sid).
Proof. unfold unsubscribe_all. quietly. Qed.
Lemma fail_pumps_quiet sid : quietly (fail_pumps sid).
Proof. unfold fail_pumps. quietly. Qed.
Hint Resolve apply_demand_quiet unsubscribe_all_quiet fail_pumps_quiet : quiet.

(** A callback on a closing session: its own event, then nothing but quiet steps. *)
Lemma call_closing_spec sid cp ev cb w : exists w', (call_closing sid cp ev cb w).1 = w' /\ quiet (emit ev w).1 w'.
Proof.
  eexists. split; [done|]. unfold call_closing, call_cap. unfold bind at 1. simpl (emit ev w). cbn [emit modify fst].
  set (w1 := {| w with trace := trace w ++ [ev] |}).
  assert (quietly (do w <- world; let '(script, thrown) := behave (length (trace w)) cb in
    for_each script (ctx_call no_close no_update sid cp) ;; match thrown with Some e => throw e | None => ret tt end)) as Hq; [|apply Hq].
  quietly. apply ctx_call_quiet; intros; apply respects_ret; apply _.
Qed.
Lemma call_closing_quiet sid cp ev cb : core_event ev = false -> quietly (call_closing sid cp ev cb).
Proof. intros He w. destruct (call_closing_spec sid cp ev cb w) as (w' & -> & Hq). etrans; [by apply quiet_emit | done]. Qed.
Lemma expire_deadman_quiet sid d : quietly (expire_deadman call_closing sid d).
Proof. unfold expire_deadman, set_deadman. quietly. apply ctx_call_quiet; intros; apply respects_ret; apply _. Qed.
Hint Resolve expire_deadman_quiet : quiet.
End QuietOps.
#[export] Hint Resolve send_control_quiet send_made_quiet reply_quiet reply_error_quiet store_sender_quiet send_on_quiet send_frame_quiet
  pump_out_quiet pump_blobs_quiet send_blob_quiet cancel_blob_quiet upd_consumer_quiet apply_demand_quiet unsubscribe_all_quiet fail_pumps_quiet
  expire_deadman_quiet : quiet.
