(* ===== verification/SessionClose.v ===== *)
(** * SessionClose: what closing a session does, in order

    The order docs/15 asks for (input released before anything else, then the capabilities, then
    the operator), completeness, and how far a misbehaving plugin can disturb it. *)

From Stdlib Require Import ZArith Lia Strings.Byte Ascii String.
From stdpp Require Import base list strings relations.
From S2P Require Import Prelude Floats RateEstimator TierPolicy Monad StdMap Json Blob BlobAssembler BlobPump Protocol ControlDomains Senders Consumer SessionState SessionOps SessionRate SessionLife SessionLemmas.

Section Close.
Context `{JT : JsonText} {D : Type} `{DC : DataChannel D} `{AM : Ambient}.

Lemma with_some sid (k : Session D -> M D unit) w s : sm_find sid (sessions w) = Some s -> with_session sid k w = k s w.
Proof. unfold with_session. by intros ->. Qed.
Lemma swallow_ok (m : M D unit) w : swallow m w = ((m w).1, Ok tt).
Proof. unfold swallow, catch. destruct (m w) as [w1 [[]|e]]; done. Qed.
Lemma upd_some sid f w (s : Session D) : sm_find sid (sessions w) = Some s ->
  upd sid f w = ({| w with sessions := sm_set sid (f s) (sessions w) |}, Ok tt).
Proof. unfold upd, modify. by intros ->. Qed.

(** What [m] leaves: it returns, with [w'] after. *)
Definition returns (m : M D unit) (w w' : World D) : Prop := m w = (w', Ok tt).
Lemma returns_quiet (m : M D unit) w : respects quiet m -> (m w).2 = Ok tt -> exists w', returns m w w' /\ quiet w w'.
Proof. intros Hq Hok. exists (m w).1. split; [|apply Hq]. unfold returns. rewrite <- Hok. by destruct (m w). Qed.

Lemma quiet_find w w' sid (s : Session D) : quiet w w' -> sm_find sid (sessions w) = Some s ->
  exists s', sm_find sid (sessions w') = Some s' /\ core s' = core s.
Proof. intros [Hc _ _] Hs. specialize (Hc sid). rewrite Hs in Hc. simpl in Hc. destruct (sm_find sid (sessions w')) as [s'|]; [|done]. exists s'. split; [done|]. simpl in Hc. congruence. Qed.

(** One event, then quiet steps. *)
Definition emits (w w' : World D) (es : list Event) : Prop :=
  (forall k, core <$> sm_find k (sessions w) = core <$> sm_find k (sessions w')) /\ control w = control w' /\ core_trace w' = core_trace w ++ es.
Lemma emits_quiet w w' : quiet w w' -> emits w w' [].
Proof. intros [H1 H2 H3]. by split_and!; [| |rewrite app_nil_r]. Qed.
Lemma emits_trans w1 w2 w3 es1 es2 : emits w1 w2 es1 -> emits w2 w3 es2 -> emits w1 w3 (es1 ++ es2).
Proof.
  intros (A1 & A2 & A3) (B1 & B2 & B3). split_and!; [|congruence|by rewrite B3, A3, app_assoc]. intros k. by rewrite A1.
Qed.
Lemma emits_event ev w w' : core_event ev = true -> quiet (emit ev w).1 w' -> emits w w' [ev].
Proof.
  intros He [Hq1 Hq2 Hq3]. split_and!; [done | done |]. rewrite <- Hq3. unfold core_trace, emit, modify. simpl. rewrite List.filter_app. simpl. by rewrite He.
Qed.

(** The callback loops of [close]: every callback is made once, in order, whatever it throws. *)
Lemma callback_loop sid (ev : Attached -> Event) (cb : Attached -> Callback) l w : (forall c, core_event (ev c) = true) ->
  exists w', returns (for_each l (fun c => swallow (call_closing sid (a_name c) (ev c) (cb c)))) w w' /\ emits w w' (map ev l).
Proof.
  intros He. revert w. induction l as [|c l IH]; intros w; simpl.
  - exists w. split; [done|]. split_and!; [done | done | by rewrite app_nil_r].
  - destruct (call_closing_spec sid (a_name c) (ev c) (cb c) w) as (w1 & E1 & Hq).
    destruct (IH w1) as (w2 & E2 & Hem). exists w2. split.
    + unfold returns. erewrite bind_ok; [exact E2|]. rewrite swallow_ok. by rewrite E1.
    + apply (emits_trans _ w1 _ [ev c]); [by apply emits_event | done].
Qed.

Definition session_close_json (id sid reason : string) (retry : bool) : json :=
  foldl (fun j kv => jset kv.1 kv.2 j) (signaling_base id now_ms "session-close")
    (("session_id", JStr sid) :: ("reason", JStr reason) :: if retry then [("retry", JBool true)] else []).

(** Plugins whose [on_expiry] returns. *)
Definition expiry_returns : Prop := forall sid d w, (expire_deadman call_closing sid d w).2 = Ok tt.

Lemma deadman_loop sid ds w : expiry_returns -> exists w', returns (for_each ds (expire_deadman call_closing sid)) w w' /\ quiet w w'.
Proof.
  intros Hx. apply returns_quiet; [apply respects_for_each; [apply _ | auto with quiet]|].
  revert w. induction ds as [|d ds IH]; intros w; simpl; [done|]. unfold bind.
  destruct (expire_deadman call_closing sid d w) as [w1 r] eqn:E. pose proof (Hx sid d w) as Hr. rewrite E in Hr. simpl in Hr. subst r. apply IH.
Qed.

(** Loops of steps that cannot throw. *)
Lemma for_each_ok {A} (l : list A) (f : A -> M D unit) w : (forall a w, (f a w).2 = Ok tt) -> (for_each l f w).2 = Ok tt.
Proof.
  intros Hf. revert w. induction l as [|a l IH]; intros w; simpl; [done|]. unfold bind.
  specialize (Hf a w) as Hfa. destruct (f a w) as [w1 r]. simpl in Hfa. subst r. apply IH.
Qed.
Lemma upd_ok sid f (w : World D) : (upd sid f w).2 = Ok tt.
Proof. done. Qed.
Lemma fail_pumps_ok sid (w : World D) : (fail_pumps sid w).2 = Ok tt.
Proof.
  unfold fail_pumps, with_session. destruct (sm_find sid (sessions w)) as [s|]; [|done]. unfold bind. simpl.
  apply for_each_ok. intros [l p] w1. apply for_each_ok. done.
Qed.
Lemma when_ok b (m : M D unit) w : (forall w, (m w).2 = Ok tt) -> (when b m w).2 = Ok tt.
Proof. intros Hm. destruct b; [apply Hm | done]. Qed.
Lemma unsubscribe_all_ok sid (w : World D) : (unsubscribe_all sid w).2 = Ok tt.
Proof.
  unfold unsubscribe_all, bind. match goal with |- context [with_session sid ?k w] => assert ((with_session sid k w).2 = Ok tt) as E end.
  { unfold with_session. destruct (sm_find sid (sessions w)) as [s|]; [|done]. destruct (consumer_ s); [|done].
    apply for_each_ok. intros [id t] w1. by apply when_ok. }
  destruct (with_session sid _ w) as [w1 r]. simpl in E. by subst r.
Qed.

(** The session's core at one point, and everything else's. *)
Definition here (w : World D) (sid : string) K : Prop := exists s, sm_find sid (sessions w) = Some s /\ core s = K.
Definition others (w w' : World D) (sid : string) : Prop :=
  (forall k, k <> sid -> core <$> sm_find k (sessions w) = core <$> sm_find k (sessions w')) /\ control w = control w'.
Lemma emits_here w w' es sid K : emits w w' es -> here w sid K -> here w' sid K.
Proof.
  intros (Hc & _ & _) (s & Hs & HK). specialize (Hc sid). rewrite Hs in Hc. destruct (sm_find sid (sessions w')) as [s'|] eqn:E; [|done].
  exists s'. split; [done|]. simpl in Hc. congruence.
Qed.
Lemma emits_others w w' es sid : emits w w' es -> others w w' sid.
Proof. intros (Hc & Hd & _). split; [intros; apply Hc | done]. Qed.
Lemma others_trans w1 w2 w3 sid : others w1 w2 sid -> others w2 w3 sid -> others w1 w3 sid.
Proof. intros [A1 A2] [B1 B2]. split; [|congruence]. intros k Hk. by rewrite A1, B1. Qed.
Lemma upd_here sid f w (s : Session D) : sm_find sid (sessions w) = Some s ->
  exists w', returns (upd sid f) w w' /\ sm_find sid (sessions w') = Some (f s) /\ others w w' sid /\ core_trace w' = core_trace w /\ trace w' = trace w.
Proof.
  intros Hs. eexists. split; [by apply upd_some|]. simpl. split; [by rewrite sm_find_set_eq|]. split; [split; [|done] | done].
  intros k Hk. simpl. by rewrite sm_find_set_ne.
Qed.

(** Straight-line code: [m] returns, then the rest runs from where it left. *)
Lemma returns_bind m k (w w1 w2 : World D) : returns m w w1 -> returns k w1 w2 -> returns (m ;; k) w w2.
Proof. intros Hm Hk. unfold returns. by rewrite (bind_ok _ _ _ _ _ Hm). Qed.

Lemma finish_close_spec sid reason w st caps cs op g ctx cons a b : here w sid (st, caps, cs, op, g, ctx, cons, a, b) -> st <> Closed ->
  exists w', returns (finish_close sid reason) w w' /\ here w' sid (Closed, caps, cs, op, g + 1, [], false, a, b)
    /\ others w w' sid /\ core_trace w' = core_trace w.
Proof.
  intros (s & Hs & HK) Hst. injection HK as E1 E2 E3 E4 E5 E6 E7 E8 E9.
  unfold finish_close, returns. rewrite (with_some _ _ _ _ Hs). rewrite bool_decide_false by congruence.
  destruct (upd_here sid (fun s => {| s with close_timer_ := false |}) w s Hs) as (w1 & R1 & H1 & O1 & T1 & _).
  destruct (returns_quiet (unsubscribe_all sid) w1 (unsubscribe_all_quiet sid) (unsubscribe_all_ok sid w1)) as (w2 & R2 & Q2).
  destruct (quiet_find _ _ _ _ Q2 H1) as (s2 & H2 & K2).
  destruct (upd_here sid (fun s => {| s with senders_ := []; blob_pumps_ := []; channels_ := []; consumer_ := None |}) w2 s2 H2) as (w3 & R3 & H3 & O3 & T3 & _).
  destruct (returns_quiet (for_each (tracks_ s) (fun kv => plane_unregister kv.1)) w3) as (w4 & R4 & Q4).
  { apply respects_for_each; [apply _|]. intros kv _. by apply quiet_modify. }
  { by apply for_each_ok. }
  destruct (quiet_find _ _ _ _ Q4 H3) as (s4 & H4 & K4).
  destruct (upd_here sid (fun s => {| s with tracks_ := []; generation_ := generation_ s + 1; contexts_ := []; s_state := Closed |}) w4 s4 H4) as (w5 & R5 & H5 & O5 & T5 & _).
  eexists. split; [do 5 (erewrite bind_ok; [|eassumption]); reflexivity|]. simpl.
  injection K2 as A1 A2 A3 A4 A5 A6 A7 A8 A9. injection K4 as B1 B2 B3 B4 B5 B6 B7 B8 B9. simpl in *.
  split; [|split].
  - eexists. split; [exact H5|]. unfold core. simpl. unfold some_consumer in *. simpl in *. congruence.
  - apply (others_trans _ w1); [done|]. apply (others_trans _ w2); [by eapply emits_others, emits_quiet|]. apply (others_trans _ w3); [done|].
    apply (others_trans _ w4); [by eapply emits_others, emits_quiet|]. done.
  - transitivity (core_trace w5); [unfold core_trace; simpl; rewrite List.filter_app; simpl; apply app_nil_r|].
    pose proof (q_trace _ _ Q2). pose proof (q_trace _ _ Q4). congruence.
Qed.

Lemma with_here sid (k : Session D -> M D unit) w K (P : World D -> Prop) : here w sid K ->
  (forall s, sm_find sid (sessions w) = Some s -> core s = K -> exists w', returns (k s) w w' /\ P w') -> exists w', returns (with_session sid k) w w' /\ P w'.
Proof. intros (s & Hs & HK) Hk. unfold returns. rewrite (with_some _ _ _ _ Hs). by apply Hk. Qed.
Lemma quiet_run (m : M D unit) w : respects quiet m -> (forall w, (m w).2 = Ok tt) -> exists w', returns m w w' /\ emits w w' [].
Proof. intros Hq Hok. destruct (returns_quiet m w Hq (Hok w)) as (w' & Hr & Hw). exists w'. split; [done | by apply emits_quiet]. Qed.

(** Up to the point where the operator is told. *)
Lemma close_detach sid reason w caps cs op g ctx cons a b st : here w sid (st, caps, cs, op, g, ctx, cons, a, b) -> expiry_returns ->
  exists w', returns
    (fail_pumps sid ;;
     upd sid (fun s => {| s with s_state := Closing; watchdog_ := false; liveness_ := false; stats_timer_ := false; silence_timer_ := false |}) ;;
     release_caps call_closing sid input_bearing ;;
     with_session sid (fun s => for_each (deadmans_ s) (expire_deadman call_closing sid)) ;;
     upd sid (fun s => {| s with deadmans_ := [] |}) ;;
     with_session sid (fun s => for_each (caps_ s) (fun c =>
       swallow (call_closing sid (a_name c) (EvDetach sid (a_name c) (detach_reason_for reason) reason) (CbDetached sid (a_name c)))))) w w'
  /\ here w' sid (Closing, caps, cs, op, g, ctx, cons, a, b) /\ others w w' sid
  /\ core_trace w' = core_trace w ++ map (fun c => EvRelease sid (a_name c)) (List.filter input_bearing caps)
       ++ map (fun c => EvDetach sid (a_name c) (detach_reason_for reason) reason) caps.
Proof.
  intros Hw Hx.
  destruct (quiet_run (fail_pumps sid) w (fail_pumps_quiet sid) (fail_pumps_ok sid)) as (w1 & R1 & E1).
  pose proof (emits_here _ _ _ _ _ E1 Hw) as (s1 & F1 & K1).
  destruct (upd_here sid (fun s => {| s with s_state := Closing; watchdog_ := false; liveness_ := false; stats_timer_ := false; silence_timer_ := false |}) w1 s1 F1)
    as (w2 & R2 & F2 & O2 & T2 & _). injection K1 as C1 C2 C3 C4 C5 C6 C7 C8 C9.
  destruct (callback_loop sid (fun c => EvRelease sid (a_name c)) (fun c => CbRelease sid (a_name c)) (List.filter input_bearing caps) w2) as (w3 & R3 & E3); [done|].
  assert (here w2 sid (Closing, caps, cs, op, g, ctx, cons, a, b)) as Hw2.
  { eexists. split; [exact F2|]. unfold core, some_consumer in *. simpl. congruence. }
  pose proof (emits_here _ _ _ _ _ E3 Hw2) as (s3 & F3 & K3).
  destruct (deadman_loop sid (deadmans_ s3) w3 Hx) as (w4 & R4 & Q4). pose proof (emits_quiet _ _ Q4) as E4.
  destruct (quiet_run (upd sid (fun s => {| s with deadmans_ := [] |})) w4) as (w5 & R5 & E5); [by apply quiet_upd | done |].
  pose proof (emits_here _ _ _ _ _ E5 (emits_here _ _ _ _ _ E4 (emits_here _ _ _ _ _ E3 Hw2))) as (s5 & F5 & K5).
  destruct (callback_loop sid (fun c => EvDetach sid (a_name c) (detach_reason_for reason) reason) (fun c => CbDetached sid (a_name c)) caps w5) as (w6 & R6 & E6); [done|].
  exists w6. split; [|split; [|split]].
  - eapply returns_bind; [exact R1|]. eapply returns_bind; [exact R2|]. eapply returns_bind.
    { unfold returns, release_caps. rewrite (with_some _ _ _ _ F2). simpl. rewrite C2. exact R3. }
    eapply returns_bind; [unfold returns; rewrite (with_some _ _ _ _ F3); exact R4|]. eapply returns_bind; [exact R5|].
    unfold returns. rewrite (with_some _ _ _ _ F5). injection K5 as _ -> _. exact R6.
  - eapply emits_here; [exact E6|]. by exists s5.
  - apply (others_trans _ w1); [by eapply emits_others|]. apply (others_trans _ w2); [done|]. apply (others_trans _ w3); [by eapply emits_others|].
    apply (others_trans _ w4); [by eapply emits_others|]. apply (others_trans _ w5); by eapply emits_others.
  - destruct E1 as (_ & _ & T1), E3 as (_ & _ & T3), E4 as (_ & _ & T4), E5 as (_ & _ & T5), E6 as (_ & _ & T6).
    by rewrite T6, T5, T4, T3, T2, T1, !app_nil_r, <- app_assoc.
Qed.

(** After it: the media stops, and the pipeline goes now or after the flush window. *)
Lemma close_finish sid reason retry fs w caps cs op g ctx cons a b : here w sid (Closing, caps, cs, op, g, ctx, cons, a, b) ->
  exists w', returns
    (unsubscribe_all sid ;;
     with_session sid (fun s => for_each (tracks_ s) (fun kv => upd_consumer sid (set_enabled kv.1 false))) ;;
     upd sid (fun s => {| s with closing_reason_ := reason; closing_retry_ := retry |}) ;;
     with_session sid (fun s =>
       if fs || negb (match consumer_ s with Some _ => true | None => false end) then finish_close sid reason
       else upd sid (fun s => {| s with close_timer_ := true |}))) w w'
  /\ others w w' sid /\ core_trace w' = core_trace w
  /\ exists s', sm_find sid (sessions w') = Some s' /\ closed_sent_ s' = cs
     /\ (if fs || negb cons then s_state s' = Closed else s_state s' = Closing /\ close_timer_ s' = true /\ closing_reason_ s' = reason).
Proof.
  intros Hw. destruct (quiet_run (unsubscribe_all sid) w (unsubscribe_all_quiet sid) (unsubscribe_all_ok sid)) as (w1 & R1 & E1).
  pose proof (emits_here _ _ _ _ _ E1 Hw) as (s1 & F1 & K1).
  destruct (quiet_run (for_each (tracks_ s1) (fun kv => upd_consumer sid (set_enabled kv.1 false))) w1) as (w2 & R2 & E2).
  { apply respects_for_each; [apply _ | auto with quiet]. }
  { intros. by apply for_each_ok. }
  pose proof (emits_here _ _ _ _ _ E2 (ex_intro _ s1 (conj F1 K1))) as (s2 & F2 & K2).
  destruct (upd_here sid (fun s => {| s with closing_reason_ := reason; closing_retry_ := retry |}) w2 s2 F2) as (w3 & R3 & F3 & O3 & T3 & _).
  assert (here w3 sid (Closing, caps, cs, op, g, ctx, cons, a, b)) as Hw3 by (eexists; split; [exact F3|]; by rewrite <- K2).
  assert (others w w3 sid) as O.
  { apply (others_trans _ w1); [by eapply emits_others|]. apply (others_trans _ w2); [by eapply emits_others | done]. }
  assert (core_trace w3 = core_trace w) as T by (destruct E1 as (_ & _ & T1), E2 as (_ & _ & T2); by rewrite T3, T2, T1, !app_nil_r).
  injection K2 as C1 C2 C3 C4 C5 C6 C7 C8 C9.
  assert (exists w', returns (if fs || negb cons then finish_close sid reason else upd sid (fun s => {| s with close_timer_ := true |})) w3 w'
    /\ others w3 w' sid /\ core_trace w' = core_trace w3 /\ exists s', sm_find sid (sessions w') = Some s' /\ closed_sent_ s' = cs
     /\ (if fs || negb cons then s_state s' = Closed else s_state s' = Closing /\ close_timer_ s' = true /\ closing_reason_ s' = reason)) as (w' & R' & O' & T' & S').
  { destruct (fs || negb cons).
    - destruct (finish_close_spec sid reason w3 _ _ _ _ _ _ _ _ _ Hw3) as (w4 & R4 & (s4 & F4 & K4) & O4 & T4); [done|].
      exists w4. split; [done|]. split; [done|]. split; [done|]. exists s4. injection K4 as X1 _ X3. by split_and!.
    - destruct (upd_here sid (fun s => {| s with close_timer_ := true |}) w3 _ F3) as (w4 & R4 & F4 & O4 & T4 & _).
      exists w4. split; [done|]. split; [done|]. split; [done|]. eexists. split; [exact F4|]. by split_and!. }
  exists w'. split.
  - eapply returns_bind; [exact R1|]. eapply returns_bind; [unfold returns; rewrite (with_some _ _ _ _ F1); exact R2|].
    eapply returns_bind; [exact R3|]. unfold returns. rewrite (with_some _ _ _ _ F3). cbn [consumer_].
    unfold some_consumer in C7. rewrite C7. exact R'.
  - split; [by apply (others_trans _ w3)|]. split; [congruence | done].
Qed.

Definition releases (sid : string) (caps : list Attached) : list Event := map (fun c => EvRelease sid (a_name c)) (List.filter input_bearing caps).
Definition detaches (sid reason : string) (caps : list Attached) : list Event :=
  map (fun c => EvDetach sid (a_name c) (detach_reason_for reason) reason) caps.

Lemma bind_prefix6 (m1 m2 m3 m4 m5 m6 k : M D unit) w w1 :
  (m1 ;; m2 ;; m3 ;; m4 ;; m5 ;; m6) w = (w1, Ok tt) -> (m1 ;; m2 ;; m3 ;; m4 ;; m5 ;; m6 ;; k) w = k w1.
Proof. unfold bind. by repeat (case_match; simplify_eq); intros; simplify_eq. Qed.

(** Everything [close] does to a session that is not closing yet. *)
Lemma close_spec sid reason retry fs w s : sm_find sid (sessions w) = Some s -> closing s = false -> expiry_returns ->
  exists w' sig, returns (close sid reason retry fs) w w'
  /\ core_trace w' = core_trace w ++ releases sid (caps_ s) ++ detaches sid reason (caps_ s) ++ sig
  /\ (if fs || closed_sent_ s then sig = [] else exists id, sig = [EvSignal (session_close_json id sid reason retry)])
  /\ others w w' sid
  /\ exists s', sm_find sid (sessions w') = Some s' /\ closed_sent_ s' = closed_sent_ s || negb fs
     /\ (if fs || negb (some_consumer s) then s_state s' = Closed else s_state s' = Closing /\ close_timer_ s' = true /\ closing_reason_ s' = reason).
Proof.
  intros Hs Hc Hx. destruct (core s) as [[[[[[[[st caps] cs] op] g] ctx] cons] a] b] eqn:HK.
  pose proof (ex_intro (fun s' => sm_find sid (sessions w) = Some s' /\ core s' = _) s (conj Hs HK)) as Hw.
  destruct (close_detach sid reason w _ _ _ _ _ _ _ _ _ Hw Hx) as (w1 & R1 & H1 & O1 & T1).
  injection HK as K1 K2 K3 K4 K5 K6 K7 K8 K9. rewrite K2, K3, K7. unfold releases, detaches.
  destruct H1 as (s1 & F1 & HK1).
  assert (exists w2 sig, returns (with_session sid (fun s => when (negb fs && negb (closed_sent_ s))
        (signal "session-close" (("session_id", JStr sid) :: ("reason", JStr reason) :: if retry then [("retry", JBool true)] else []) ;;
         upd sid (fun s => {| s with closed_sent_ := true |})))) w1 w2
      /\ here w2 sid (Closing, caps, cs || negb fs, op, g, ctx, cons, a, b) /\ others w1 w2 sid /\ core_trace w2 = core_trace w1 ++ sig
      /\ (if fs || cs then sig = [] else exists id, sig = [EvSignal (session_close_json id sid reason retry)])) as (w2 & sig & R2 & H2 & O2 & T2 & S2).
  { assert (closed_sent_ s1 = cs) as C3 by (by injection HK1).
    destruct (fs || cs) eqn:Efc.
    { exists w1, []. assert (negb fs && negb (closed_sent_ s1) = false) as Ew by (rewrite C3; by destruct fs, cs).
      split; [unfold returns; rewrite (with_some _ _ _ _ F1), Ew; done|].
      split; [exists s1; split; [done|]; rewrite HK1; by destruct fs, cs|]. split; [done|]. split; [by rewrite app_nil_r | done]. }
    apply orb_false_iff in Efc as [-> ->]. simpl.
    pose (w' := {| w1 with trace := trace w1 ++ [EvSignal (session_close_json (fresh_id w1) sid reason retry)] |}).
    destruct (upd_here sid (fun s => {| s with closed_sent_ := true |}) w' s1 F1) as (w2 & R2 & F2 & O2 & T2 & _).
    exists w2, [EvSignal (session_close_json (fresh_id w1) sid reason retry)]. split.
    { unfold returns. rewrite (with_some _ _ _ _ F1), C3. exact R2. }
    split; [eexists; split; [exact F2|]; injection HK1 as ? ? ? ? ? ? ? ? ?; unfold core, some_consumer in *; simpl; congruence|].
    split; [done|]. split; [|by eexists]. rewrite T2. unfold core_trace, w'. simpl. by rewrite List.filter_app. }
  destruct (close_finish sid reason retry fs w2 _ _ _ _ _ _ _ _ H2) as (w3 & R3 & O3 & T3 & s3 & F3 & C3 & S3).
  exists w3, sig. split; [|split; [|split; [done|split]]].
  - unfold returns, close. rewrite (with_some _ _ _ _ Hs), Hc. revert R1. unfold returns. intros R1.
    etrans; [apply (bind_prefix6 _ _ _ _ _ _ _ _ _ R1)|]. by apply (returns_bind _ _ _ _ _ R2).
  - by rewrite T3, T2, T1, <- !app_assoc.
  - apply (others_trans _ w1); [done|]. by apply (others_trans _ w2).
  - exists s3. by split.
Qed.

(** A close on a session that is closing, from wherever, changes nothing. *)
Lemma close_again sid reason retry fs w s : sm_find sid (sessions w) = Some s -> closing s = true -> returns (close sid reason retry fs) w w.
Proof. intros Hs Hc. unfold returns, close. by rewrite (with_some _ _ _ _ Hs), Hc. Qed.

Lemma flush_close_spec sid w s : sm_find sid (sessions w) = Some s -> closing s = true ->
  exists w' s', returns (flush_close sid) w w' /\ core_trace w' = core_trace w /\ others w w' sid
    /\ sm_find sid (sessions w') = Some s' /\ s_state s' = Closed /\ closed_sent_ s' = closed_sent_ s.
Proof.
  intros Hs Hc. unfold flush_close, returns. rewrite (with_some _ _ _ _ Hs). destruct (decide (s_state s = Closing)) as [E|E].
  - rewrite bool_decide_true by done. cbn [when].
    destruct (upd_here sid (fun s => {| s with close_timer_ := false |}) w s Hs) as (w1 & R1 & F1 & O1 & T1 & _).
    destruct (core {| s with close_timer_ := false |}) as [[[[[[[[st caps] cs] op] g] ctx] cons] a] b] eqn:HK.
    destruct (finish_close_spec sid (closing_reason_ s) w1 st caps cs op g ctx cons a b) as (w2 & R2 & (s2 & F2 & K2) & O2 & T2).
    { eexists. split; [exact F1 | exact HK]. }
    { injection HK as K _. simpl in K. congruence. }
    exists w2, s2. split; [by apply (returns_bind _ _ _ _ _ R1)|]. split; [congruence|]. split; [by apply (others_trans _ w1)|].
    split; [done|]. injection K2 as ? _ ? _. injection HK as _ _ ? _. simpl in *. split; congruence.
  - rewrite bool_decide_false by done. exists w, s. unfold closing in Hc. rewrite bool_decide_false in Hc by done. simpl in Hc. apply bool_decide_eq_true in Hc.
    by split_and!.
Qed.

(** C2: closing a session runs to its end and in the order docs/15 asks for, whatever the
    plugins' release and detach callbacks do or throw (deadman expiries are assumed to return):
    first every input-bearing capability releases its input, then every capability is detached,
    once each and in attach order, then the operator is told, unless the close came from the
    server or it was told before. The session is then Closed, or Closing with the flush timer
    armed; a second close, whatever its reason, changes nothing; the flush makes it Closed
    without another callback or message. Other sessions and the control claims are untouched. *)
Theorem close_completes sid reason retry fs w s : sm_find sid (sessions w) = Some s -> closing s = false -> expiry_returns ->
  exists w1 w2 s1 s2 sig,
    returns (close sid reason retry fs) w w1 /\ sm_find sid (sessions w1) = Some s1
    /\ core_trace w1 = core_trace w ++ releases sid (caps_ s) ++ detaches sid reason (caps_ s) ++ sig
    /\ (if fs || closed_sent_ s then sig = [] else exists id, sig = [EvSignal (session_close_json id sid reason retry)])
    /\ (s_state s1 = Closed \/ s_state s1 = Closing /\ close_timer_ s1 = true)
    /\ (forall reason' retry' fs', returns (close sid reason' retry' fs') w1 w1)
    /\ returns (flush_close sid) w1 w2 /\ sm_find sid (sessions w2) = Some s2 /\ s_state s2 = Closed /\ core_trace w2 = core_trace w1
    /\ others w w1 sid /\ others w w2 sid.
Proof.
  intros Hs Hc Hx. destruct (close_spec sid reason retry fs w s Hs Hc Hx) as (w1 & sig & R1 & T1 & S1 & O1 & s1 & F1 & C1 & St1).
  assert (s_state s1 = Closed \/ s_state s1 = Closing /\ close_timer_ s1 = true) as Hst by (destruct (fs || negb (some_consumer s)); naive_solver).
  assert (closing s1 = true) as Hc1.
  { unfold closing. by destruct Hst as [->|[-> _]]. }
  destruct (flush_close_spec sid w1 s1 F1 Hc1) as (w2 & s2 & R2 & T2 & O2 & F2 & St2 & _).
  exists w1, w2, s1, s2, sig. split_and!; try done.
  all: first [by apply O1 | apply (others_trans _ w1); done | intros; by apply (close_again _ _ _ _ _ s1)].
Qed.
End Close.

(** ** A world to run things in *)
Module Demo.
#[export] Instance one_dc : DataChannel unit := {| dc_buffered _ := 0; dc_send_text _ d := d; dc_send_data _ d := (d, true) |}.
#[export] Instance no_text : JsonText := one_value_text JNull "null".
Definition ambient (b : nat -> Callback -> list CtxCall * option exn) : Ambient := {|
  now := 1000; now_ms := 5; now_ms2 := 6; fresh := fun _ => "id"%string; behave := b; known_capability _ := true; available _ := true;
  add_env _ := {| new_pad := Some 0; new_ssrc := 7; branch_links := true |}; inbound_ok _ := true; seqnum_of _ := 1; build_ok := true;
  blob_done _ _ := []; pump_fuel := 10; plane_band _ t := if String.eqb t "active" then (500, 4000) else (100, 300); plane_thumbnail _ := true;
  twcc_sample _ := no_twcc; active_kbps := 4000; active_floor_kbps := 250 |}.
Definition plugin (name domain : string) (ib : bool) : Attached :=
  {| a_name := name; a_channels := []; input_bearing := ib; control_domain := domain; control_inputs := []; a_params := JObj [] |}.
Definition alice : OperatorInfo := {| op_id := "alice"; op_label := "Alice" |}.
Definition live : Session unit :=
  {| (@new_session unit alice None) with s_state := Connected; caps_ := [plugin "acme.arm" "motion" true; plugin "acme.view" "" false];
     contexts_ := ["acme.arm"; "acme.view"]%string; consumer_ := Some new_consumer;
     deadmans_ := [{| dm_id := 0; dm_cap := "acme.arm"; dm_alive := true; dm_armed := true; dm_expired := false |}] |}.
Definition world_of (s : Session unit) : World unit := {| (@new_world unit) with sessions := [("s1"%string, s)] |}.
End Demo.

Section Witness.
Import Demo.
#[local] Instance idle : Ambient := ambient (fun _ _ => ([], None)).
Lemma idle_expiry_returns : expiry_returns (D := unit).
Proof. intros sid d w. unfold expire_deadman. destruct (dm_alive d); [|done]. destruct (dm_expired d); done. Qed.
Lemma close_completes_witness : exists w1 w2 s1 s2 sig,
  returns (close "s1" "peer-gone" false false) (world_of live) w1 /\ sm_find "s1" (sessions w1) = Some s1
  /\ core_trace w1 = [EvRelease "s1" "acme.arm"; EvDetach "s1" "acme.arm" DPeerGone "peer-gone"; EvDetach "s1" "acme.view" DPeerGone "peer-gone"] ++ sig
  /\ returns (flush_close "s1") w1 w2 /\ sm_find "s1" (sessions w2) = Some s2 /\ s_state s2 = Closed.
Proof.
  edestruct (close_completes (D := unit) "s1" "peer-gone" false false (world_of live) live) as (w1 & w2 & s1 & s2 & sig & R1 & F1 & T1 & _ & _ & _ & R2 & F2 & S2 & _);
    [reflexivity | reflexivity | exact idle_expiry_returns |].
  exists w1, w2, s1, s2, sig. split; [exact R1|]. split; [exact F1|]. split; [exact T1|]. split; [exact R2|]. split; [exact F2 | exact S2].
Defined.
End Witness.

Section Stranded.
Import Demo.
Definition throwing_expiry : Ambient := ambient (fun _ cb => match cb with CbDeadman _ _ => ([], Some (StdException "gone")) | _ => ([], None) end).
#[local] Existing Instance throwing_expiry.
(** A deadman's [on_expiry] is the one callback [close] does not shield: when it throws, the
    close stops there. The input was released, but no capability is detached, the operator is
    not told, the pipeline stays and no timer is armed to finish; the session is Closing, so
    every later close returns at once and only a flush (agent shutdown) ends it. *)
Theorem expiry_throw_strands : exists w' s', close "s1" "heartbeat" false false (world_of live) = (w', Throw (StdException "gone"))
  /\ sm_find "s1" (sessions w') = Some s' /\ s_state s' = Closing /\ some_consumer s' = true
  /\ closed_sent_ s' = false /\ core_trace w' = [EvRelease "s1" "acme.arm"]
  /\ (forall t, t <> TDeadman 0 -> timer_armed t s' = false) /\ timer_armed (TDeadman 0) s' = false
  /\ forall reason retry fs, close "s1" reason retry fs w' = (w', Ok tt).
Proof.
  do 2 eexists. split; [vm_compute; reflexivity|]. split; [reflexivity|]. split_and!; try reflexivity.
  intros [| | | | |n] Hn; try reflexivity. simpl. rewrite andb_false_r. done.
Qed.
End Stranded.
