(* ===== verification/SessionSafety.v ===== *)
(** * SessionSafety: what no transition of the core loop breaks

    [forward]: sessions only move forward through their states, keep their operator, and a
    session that is closing gets no more input and no second detach. Every handler respects it,
    so does every [step]. Then the control gate: who gets input through. *)

From Stdlib Require Import ZArith Lia Strings.Byte Ascii String.
From stdpp Require Import base list strings relations.
From S2P Require Import Prelude Floats RateEstimator TierPolicy Monad StdMap Json Blob BlobAssembler BlobPump Protocol ControlDomains Senders Consumer SessionState SessionOps SessionRate SessionLife SessionLemmas SessionClose.

Definition rank (s : SState) : nat :=
  match s with Requested => 0 | Building => 1 | Offered => 2 | Connected => 3 | Closing => 4 | Closed => 5 end.
(** Callbacks that bring a plugin something of the session [sid], or end it. *)
Definition plugin_input (sid : string) (e : Event) : bool :=
  match e with EvMessage i _ _ | EvBinary i _ _ | EvChunk i _ _ | EvDetach i _ _ _ => String.eqb i sid | _ => false end.
Definition ahead {D} (s s' : Session D) : Prop :=
  (rank (s_state s) <= rank (s_state s'))%nat /\ s_op s' = s_op s /\ (closed_sent_ s = true -> closed_sent_ s' = true).

Lemma ahead_closing {D} (s s' : Session D) : ahead s s' -> closing s = true -> closing s' = true.
Proof. intros (Hr & _). unfold closing. destruct (s_state s), (s_state s'); simpl in *; try done; lia. Qed.
#[global] Instance ahead_preorder D : PreOrder (@ahead D).
Proof. split; [done|]. intros a b c (H1 & H2 & H3) (H4 & H5 & H6). split; [lia|]. split; [congruence | auto]. Qed.
#[global] Instance result_option_ahead D : PreOrder (option_relation (@ahead D) (fun _ => False) (fun _ : Session D => False)).
Proof.
  split; [by intros [s|]; simpl|]. intros [a|] [b|] [c|]; simpl; try done. apply transitivity.
Qed.

Section Forward.
Context {D : Type}.
(** [ex]: a session whose events are not looked at. *)
Record forward (ex : option string) (w w' : World D) : Prop := {
  fw_sess : forall sid, option_relation ahead (fun _ => False) (fun _ => False) (sm_find sid (sessions w)) (sm_find sid (sessions w'));
  fw_trace : exists new, trace w' = trace w ++ new /\ forall sid, Some sid <> ex ->
    (forall s, sm_find sid (sessions w) = Some s -> closing s = true) -> Forall (fun e => plugin_input sid e = false) new
}.
#[global] Instance forward_preorder ex : PreOrder (forward ex).
Proof.
  split.
  - intros w. split; [done|]. exists []. by rewrite app_nil_r.
  - intros w1 w2 w3 [A1 (n1 & T1 & A2)] [B1 (n2 & T2 & B2)]. split; [intros sid; etrans; [apply A1 | apply B1]|].
    exists (n1 ++ n2). rewrite T2, T1, <- app_assoc. split; [done|]. intros sid Hx Hs. apply Forall_app. split; [by eapply A2|].
    apply B2; [done|]. intros s2 Hs2. specialize (A1 sid). rewrite Hs2 in A1. destruct (sm_find sid (sessions w1)) as [s|] eqn:E; [|done]. simpl in A1.
    by eapply ahead_closing, Hs.
Qed.
Lemma forward_weaken ex w w' : forward None w w' -> forward ex w w'.
Proof. intros [H1 (n & T & H2)]. split; [done|]. exists n. split; [done|]. intros sid _. by apply H2. Qed.
(** A session that is not closing may be given anything. *)
Lemma forward_exempt ex sid s w w' : sm_find sid (sessions w) = Some s -> closing s = false -> forward (Some sid) w w' -> forward ex w w'.
Proof.
  intros Hs Hc [H1 (n & T & H2)]. apply forward_weaken. split; [done|]. exists n. split; [done|]. intros sid' _ Hs'. destruct (decide (sid' = sid)) as [->|Hne].
  - specialize (Hs' _ Hs). congruence.
  - apply H2; [congruence | done].
Qed.
Lemma forward_upd_at ex sid f w : (forall s : Session D, sm_find sid (sessions w) = Some s -> ahead s (f s)) -> forward ex w (upd sid f w).1.
Proof.
  intros Hf. unfold upd, modify. simpl. destruct (sm_find sid (sessions w)) as [s|] eqn:E; [|done]. split; simpl.
  - intros k. destruct (decide (k = sid)) as [->|]; [rewrite sm_find_set_eq, E; simpl; by apply Hf | by rewrite sm_find_set_ne].
  - exists []. by rewrite app_nil_r.
Qed.
Lemma forward_upd ex sid f : (forall s : Session D, ahead s (f s)) -> respects (forward ex) (upd sid f).
Proof. intros Hf w. by apply forward_upd_at. Qed.
Lemma forward_emit ex e : (forall sid, Some sid <> ex -> plugin_input sid e = false) -> respects (forward ex) (emit e).
Proof.
  intros He w. split; [done|]. exists [e]. split; [done|]. intros sid Hx _. repeat constructor. by apply He.
Qed.
Lemma forward_modify ex (f : World D -> World D) : (forall w, sessions (f w) = sessions w /\ trace (f w) = trace w) -> respects (forward ex) (modify f).
Proof.
  intros Hf w. destruct (Hf w) as (Es & Et). split; simpl; [by rewrite Es|]. exists []. by rewrite app_nil_r.
Qed.
Lemma respects_with_at (R : relation (World D)) `{!PreOrder R} sid k :
  (forall s w, sm_find sid (sessions w) = Some s -> R w (k s w).1) -> respects R (with_session sid k).
Proof. intros Hk w. unfold with_session. destruct (sm_find sid (sessions w)) as [s|] eqn:E; [by apply Hk | done]. Qed.
End Forward.

Create HintDb forward.
(** As [quietly], for [forward]. *)
Ltac forwardly :=
  repeat first
  [ solve [auto with forward]
  | apply forward_upd; intros; repeat split; simpl; auto; reflexivity
  | apply forward_emit; reflexivity
  | apply forward_modify; intros; split_and!; reflexivity
  | session_step ].

Section ForwardOps.
Context `{JT : JsonText} {D : Type} `{DC : DataChannel D} `{AM : Ambient}.
Abbreviation fwd ex m := (respects (@forward D ex) m).

Lemma send_control_fwd ex sid env : fwd ex (send_control sid env).
Proof. unfold send_control. forwardly. Qed.
Hint Resolve send_control_fwd : forward.
Lemma send_made_fwd ex sid c t k pl id : fwd ex (send_made sid c t k pl id).
Proof. unfold send_made. forwardly. Qed.
Hint Resolve send_made_fwd : forward.
Lemma reply_error_fwd ex sid req c m d : fwd ex (reply_error sid req c m d).
Proof. unfold reply_error, reply. forwardly. Qed.
Lemma reply_fwd ex sid req pl : fwd ex (reply sid req pl).
Proof. unfold reply. forwardly. Qed.
Lemma store_sender_fwd ex sid l s : fwd ex (store_sender sid l s).
Proof. unfold store_sender. forwardly. Qed.
Hint Resolve reply_error_fwd reply_fwd store_sender_fwd : forward.
Lemma send_on_fwd ex sid l env : fwd ex (send_on sid l env).
Proof. unfold send_on. forwardly. Qed.
Lemma send_frame_fwd ex sid l b : fwd ex (send_frame sid l b).
Proof. unfold send_frame. forwardly. Qed.
Lemma pump_out_fwd ex sid l ev : fwd ex (emit (pump_out sid l ev)).
Proof. apply forward_emit. by destruct ev. Qed.
Hint Resolve send_on_fwd send_frame_fwd pump_out_fwd : forward.
Lemma pump_blobs_fwd ex sid l : fwd ex (pump_blobs sid l).
Proof. unfold pump_blobs. forwardly. Qed.
Lemma send_blob_fwd ex sid c b m d : fwd ex (send_blob sid c b m d).
Proof. unfold send_blob. forwardly. Qed.
Lemma cancel_blob_fwd ex sid id : fwd ex (cancel_blob sid id).
Proof. unfold cancel_blob. forwardly. Qed.
Lemma signal_fwd ex t l : fwd ex (signal t l).
Proof. unfold signal, send_signal. forwardly. Qed.
Hint Resolve pump_blobs_fwd send_blob_fwd cancel_blob_fwd signal_fwd : forward.
Lemma upd_consumer_fwd ex sid f : fwd ex (upd_consumer sid f).
Proof. unfold upd_consumer. apply forward_upd. intros s. by destruct (consumer_ s). Qed.
Lemma set_deadman_fwd ex sid n f : fwd ex (set_deadman sid n f).
Proof. unfold set_deadman. forwardly. Qed.
Hint Resolve upd_consumer_fwd set_deadman_fwd : forward.
Lemma ctx_call_fwd ex dc du sid cp c : (forall sid r, fwd ex (dc sid r)) -> (forall sid cp l, fwd ex (du sid cp l)) -> fwd ex (ctx_call dc du sid cp c).
Proof. intros Hc Hu. destruct c; simpl; unfold need_request, add_pending; forwardly. Qed.
Lemma apply_demand_fwd ex sid id en d : fwd ex (apply_demand sid id en d).
Proof. unfold apply_demand. forwardly. Qed.
Lemma unsubscribe_all_fwd ex sid : fwd ex (unsubscribe_all sid).
Proof. unfold unsubscribe_all. forwardly. Qed.
Lemma fail_pumps_fwd ex sid : fwd ex (fail_pumps sid).
Proof. unfold fail_pumps. forwardly. Qed.
Lemma request_offer_fwd ex sid : fwd ex (request_offer sid).
Proof. unfold request_offer. forwardly. Qed.
Hint Resolve apply_demand_fwd unsubscribe_all_fwd fail_pumps_fwd request_offer_fwd : forward.
Lemma milestone_fwd ex sid m : fwd ex (milestone sid m).
Proof. unfold milestone. forwardly. Qed.
Hint Resolve milestone_fwd : forward.
Lemma closed_is_ahead (s : Session D) : ahead s {| s with tracks_ := []; generation_ := generation_ s + 1; contexts_ := []; s_state := Closed |}.
Proof. split; [simpl; destruct (s_state s); simpl; lia | done]. Qed.
Lemma finish_close_fwd ex sid r : fwd ex (finish_close sid r).
Proof. unfold finish_close, plane_unregister. forwardly. apply forward_upd. apply closed_is_ahead. Qed.
Hint Resolve finish_close_fwd : forward.
Lemma call_cap_fwd ex dc du sid cp ev cb : (forall sid r, fwd ex (dc sid r)) -> (forall sid cp l, fwd ex (du sid cp l)) ->
  (forall k, Some k <> ex -> plugin_input k ev = false) -> fwd ex (call_cap dc du sid cp ev cb).
Proof. intros Hc Hu He. unfold call_cap. forwardly; [by apply forward_emit | by apply ctx_call_fwd]. Qed.
Lemma call_closing_fwd ex sid cp ev cb : (forall k, Some k <> ex -> plugin_input k ev = false) -> fwd ex (call_closing sid cp ev cb).
Proof. intros He. apply call_cap_fwd; [intros; apply respects_ret; apply _ | intros; apply respects_ret; apply _ | done]. Qed.
Lemma expire_deadman_fwd ex call sid d : (forall sid cp n cb, fwd ex (call sid cp (EvDeadman sid n) cb)) -> fwd ex (expire_deadman call sid d).
Proof. intros Hc. unfold expire_deadman. forwardly. Qed.
Lemma release_caps_fwd ex call sid keep : (forall sid cp cp' cb, fwd ex (call sid cp (EvRelease sid cp') cb)) -> fwd ex (release_caps call sid keep).
Proof. intros Hc. unfold release_caps. forwardly. Qed.
Hint Resolve expire_deadman_fwd release_caps_fwd : forward.

(** The body of [close]: its events are the session's own, and it was not closing. *)
Lemma event_other sid c r d k : Some k <> Some sid -> plugin_input k (EvDetach sid c r d) = false.
Proof. intros Hk. simpl. apply String.eqb_neq. congruence. Qed.
Hint Resolve event_other call_closing_fwd : forward.
Hint Extern 1 (plugin_input _ _ = false) => reflexivity : forward.
Lemma close_fwd ex sid reason retry fs : fwd ex (close sid reason retry fs).
Proof.
  unfold close. apply respects_with_at; [apply _|]. intros s w Hs. destruct (closing s) eqn:Hc; [done|].
  apply (forward_exempt ex sid s _ _ Hs Hc).
  unfold bind at 1. destruct (fail_pumps sid w) as [w1 r1] eqn:E1. pose proof (fail_pumps_ok sid w) as Ok1. rewrite E1 in Ok1. simpl in Ok1. subst r1.
  pose proof (fail_pumps_quiet sid w) as Q1. pose proof (fail_pumps_fwd (Some sid) sid w) as F1. rewrite E1 in Q1, F1. simpl in Q1, F1.
  destruct (quiet_find _ _ _ _ Q1 Hs) as (s1 & Hs1 & K1). transitivity w1; [done|].
  unfold bind at 1. match goal with |- context [upd sid ?f w1] => pose proof (forward_upd_at (Some sid) sid f w1) as F2; destruct (upd sid f w1) as [w2 r2] eqn:E2 end.
  assert (r2 = Ok tt) as -> by (unfold upd, modify in E2; by injection E2). simpl in F2. transitivity w2.
  { apply F2. intros s' Hs'. rewrite Hs1 in Hs'. injection Hs' as <-. injection K1 as K _ _ _ _ _ _ _ _. split; [|done]. simpl.
    rewrite K. unfold closing in Hc. destruct (s_state s); simpl in *; [lia | lia | lia | lia | lia | done]. }
  clear. match goal with |- forward _ w2 (?m w2).1 => assert (fwd (Some sid) m) as Hm; [|apply Hm] end.
  forwardly.
Qed.
Hint Resolve close_fwd : forward.
Lemma flush_close_fwd ex sid : fwd ex (flush_close sid).
Proof. unfold flush_close. forwardly. Qed.
Lemma consumer_add_fwd ex sid cp spec : fwd ex (consumer_add sid cp spec).
Proof.
  intros w. unfold consumer_add. destruct (sm_find sid (sessions w)) as [s|]; [|done]. destruct (consumer_ s) as [c|]; [|done].
  destruct (add_track spec cp (add_env (spec_id spec)) c) as [[c' ok] err].
  match goal with |- forward _ w (?m w).1 => assert (fwd ex m) as Hm; [|apply Hm] end. forwardly.
Qed.
Hint Resolve flush_close_fwd consumer_add_fwd : forward.
Lemma offer_track_fwd ex sid cp spec : fwd ex (offer_track sid cp spec).
Proof. unfold offer_track, plane_unregister. forwardly. Qed.
Hint Resolve offer_track_fwd : forward.
Lemma offer_new_fwd ex sid cp l : fwd ex (offer_new sid cp l).
Proof. induction l as [|spec l IH]; simpl; forwardly. Qed.
Lemma drop_track_fwd ex sid id : fwd ex (drop_track sid id).
Proof. unfold drop_track, plane_unregister. forwardly. Qed.
Hint Resolve offer_new_fwd drop_track_fwd : forward.
Lemma update_tracks_fwd ex sid cp full : fwd ex (update_tracks sid cp full).
Proof. unfold update_tracks. forwardly. Qed.
Hint Resolve update_tracks_fwd : forward.
Lemma call_plugin_fwd ex sid cp ev cb : (forall k, Some k <> ex -> plugin_input k ev = false) -> fwd ex (call_plugin sid cp ev cb).
Proof. intros He. apply call_cap_fwd; [intros; apply close_fwd | intros; apply update_tracks_fwd | done]. Qed.
Lemma release_domain_input_fwd ex sid d : fwd ex (release_domain_input sid d).
Proof. unfold release_domain_input. apply release_caps_fwd. intros. by apply call_plugin_fwd. Qed.
Lemma send_control_state_fwd ex sid : fwd ex (send_control_state sid).
Proof. unfold send_control_state. forwardly. Qed.
Hint Resolve release_domain_input_fwd send_control_state_fwd : forward.
Lemma apply_fwd ex c : fwd ex (apply c).
Proof. unfold apply. forwardly. Qed.
Hint Resolve apply_fwd : forward.
Lemma control_tick_fwd ex t : fwd ex (control_tick t).
Proof. unfold control_tick. forwardly. Qed.
Hint Resolve control_tick_fwd : forward.
Lemma control_input_fwd ex sid d : fwd ex (control_input sid d).
Proof.
  unfold control_input. apply respects_bind; [apply _ | auto with forward|]. intros _ w. destruct (sm_find sid (sessions w)) as [s|]; [|done].
  destruct (input _ _ _ _ _) as [cd [oc ch]]. match goal with |- forward _ w (?m w).1 => assert (fwd ex m) as Hm; [|apply Hm] end. forwardly.
Qed.
Lemma control_request_fwd ex sid t d : fwd ex (control_request sid t d).
Proof.
  intros w. unfold control_request. destruct (sm_find sid (sessions w)) as [s|]; [|done].
  match goal with |- forward _ w (?m w).1 => assert (fwd ex m) as Hm; [|apply Hm] end. forwardly.
Qed.
Hint Resolve control_input_fwd control_request_fwd : forward.
Lemma control_gate_fwd ex sid c env : fwd ex (control_gate sid c env).
Proof. unfold control_gate. forwardly. Qed.
Lemma handle_core_fwd ex sid env : fwd ex (handle_core sid env).
Proof. unfold handle_core, on_ping. forwardly. Qed.
Lemma handle_select_tracks_fwd ex sid env o : fwd ex (handle_select_tracks sid env o).
Proof. unfold handle_select_tracks, select_track. forwardly. Qed.
Hint Resolve control_gate_fwd handle_core_fwd handle_select_tracks_fwd : forward.

(** ** Input is delivered only to a session that is not closing *)
(** A plugin's [release_all_input] releases: it neither closes the session nor changes its tracks. *)
Definition ends_session (c : CtxCall) : bool := match c with CClose _ | CUpdateTracks _ => true | _ => false end.
Definition releases_only : Prop := forall n sid cp, List.existsb ends_session (behave n (CbRelease sid cp)).1 = false.

Definition steady (w w' : World D) : Prop := forall sid, s_state <$> sm_find sid (sessions w) = s_state <$> sm_find sid (sessions w').
#[local] Instance steady_preorder : PreOrder steady.
Proof. split; [done|]. intros a b c H1 H2 sid. by rewrite H1. Qed.
Lemma quiet_steady {A} (m : M D A) : respects quiet m -> respects steady m.
Proof.
  intros Hq w sid. specialize (Hq w). apply q_core with (k := sid) in Hq.
  destruct (sm_find sid (sessions w)) as [s|], (sm_find sid (sessions (m w).1)) as [s'|]; simpl in *; try done. by injection Hq as -> _.
Qed.
Lemma steady_modify (f : World D -> World D) : (forall w, sessions (f w) = sessions w) -> respects steady (modify f).
Proof. intros Hf w sid. simpl. by rewrite Hf. Qed.
Lemma script_steady sid cp l : List.existsb ends_session l = false ->
  respects steady (for_each l (ctx_call (fun sid reason => close sid reason false false) update_tracks sid cp)).
Proof.
  intros Hl. apply respects_for_each; [apply _|]. intros c Hc. apply quiet_steady.
  assert (ends_session c = false) as He.
  { destruct (ends_session c) eqn:E; [|done]. rewrite (proj2 (existsb_exists _ _)) in Hl; [done | by exists c]. }
  destruct c; try done; simpl; unfold need_request, add_pending, set_deadman; quietly.
Qed.
Lemma apply_steady c : releases_only -> respects steady (apply c).
Proof.
  intros Hr. unfold apply. apply respects_bind; [apply _| |intros _; apply respects_bind; [apply _| |intros _]].
  - destruct (c_release c) as [op|]; [|apply respects_ret; apply _]. apply respects_bind; [apply _ | apply respects_world; apply _|]. intros w.
    apply respects_for_each; [apply _|]. intros sid _. unfold release_domain_input, release_caps. apply respects_with; [apply _|]. intros s.
    apply respects_for_each; [apply _|]. intros a _. apply respects_swallow; [apply _|]. unfold call_plugin, call_cap.
    apply respects_bind; [apply _ | by apply steady_modify|]. intros _. apply respects_bind; [apply _ | apply respects_world; apply _|]. intros w1.
    pose proof (Hr (length (trace w1)) sid (a_name a)) as Hs. destruct (behave _ _) as [script thrown].
    apply respects_bind; [apply _ | by apply script_steady|]. intros _. destruct thrown; [apply respects_throw | apply respects_ret]; apply _.
  - apply quiet_steady. unfold send_control_state. quietly.
  - by apply steady_modify.
Qed.
Lemma control_gate_steady sid c env : releases_only -> respects steady (control_gate sid c env).
Proof.
  intros Hr. unfold control_gate. destruct (String.eqb _ _); [apply respects_ret; apply _|]. destruct (_ && _); [apply respects_ret; apply _|].
  destruct (view_only c); [apply quiet_steady; quietly|]. apply respects_bind; [apply _| |].
  - unfold control_input, control_tick. apply respects_bind; [apply _| |].
    + apply respects_bind; [apply _ | apply respects_world; apply _|]. intros w. destruct (expire now (control w)) as [cd changes].
      apply respects_bind; [apply _ | by apply steady_modify|]. intros _. apply respects_for_each; [apply _|]. intros; by apply apply_steady.
    + intros _ w. destruct (sm_find sid (sessions w)) as [s|]; [|done]. destruct (input _ _ _ _ _) as [cd [oc ch]].
      match goal with |- steady w (?m w).1 => assert (respects steady m) as Hm; [|apply Hm] end.
      apply respects_bind; [apply _ | by apply steady_modify|]. intros _. destruct oc; [|apply respects_ret; apply _].
      apply respects_bind; [apply _| |intros _; apply respects_ret; apply _]. destruct ch; [by apply apply_steady | apply respects_ret; apply _].
  - intros [data|]; [|apply respects_ret; apply _]. apply quiet_steady. quietly.
Qed.
(** After the gate the session still is not closing, so what follows may address it. *)
Lemma gated_fwd ex sid c env (k : bool -> M D unit) w s : releases_only -> sm_find sid (sessions w) = Some s -> closing s = false ->
  (forall b, fwd (Some sid) (k b)) -> forward ex w ((do pass <- control_gate sid c env; k pass) w).1.
Proof.
  intros Hr Hs Hc Hk. unfold bind. pose proof (control_gate_fwd ex sid c env w) as F. pose proof (control_gate_steady sid c env Hr w sid) as St.
  destruct (control_gate sid c env w) as [w1 [b|e]]; simpl in *; [|done]. etrans; [done|].
  rewrite Hs in St. destruct (sm_find sid (sessions w1)) as [s1|] eqn:Hs1; [|done]. apply (forward_exempt ex sid s1 _ _ Hs1); [|apply Hk].
  simpl in St. injection St as St. unfold closing in *. by rewrite <- St.
Qed.
Lemma event_input sid c env k : Some k <> Some sid -> plugin_input k (EvMessage sid c env) = false.
Proof. intros Hk. simpl. apply String.eqb_neq. congruence. Qed.
Lemma event_binary sid c b k : Some k <> Some sid -> plugin_input k (EvBinary sid c b) = false.
Proof. intros Hk. simpl. apply String.eqb_neq. congruence. Qed.
Lemma event_chunk sid c b k : Some k <> Some sid -> plugin_input k (EvChunk sid c b) = false.
Proof. intros Hk. simpl. apply String.eqb_neq. congruence. Qed.
Hint Resolve event_input event_binary event_chunk call_plugin_fwd : forward.
Lemma route_fwd ex sid env w s : releases_only -> sm_find sid (sessions w) = Some s -> closing s = false -> forward ex w (route sid env w).1.
Proof.
  intros Hr Hs Hc. unfold route. destruct (String.eqb (cap env) "fjarr.core"); [apply handle_core_fwd|].
  rewrite (with_some _ _ _ _ Hs). destruct (attached (cap env) s) as [c|].
  - destruct (_ && _); [apply handle_select_tracks_fwd|]. apply (gated_fwd _ _ _ _ _ _ _ Hr Hs Hc). intros b. forwardly.
  - match goal with |- forward _ w (?m w).1 => assert (fwd ex m) as Hm; [|apply Hm] end. forwardly.
Qed.
Lemma on_channel_text_fwd ex sid t : releases_only -> fwd ex (on_channel_text sid t).
Proof.
  intros Hr. unfold on_channel_text, drop_envelope. apply respects_with_at; [apply _|]. intros s w Hs.
  destruct (closing s) eqn:Hc; simpl; [by apply forward_upd|]. destruct (_ <? _); [by apply forward_upd|].
  destruct (parse_envelope t) as [env|]; [|by apply forward_upd]. unfold catch. pose proof (route_fwd ex sid env w s Hr Hs Hc) as F.
  destruct (route sid env w) as [w1 [[]|e]]; simpl in *; [done|]. etrans; [done|].
  match goal with |- forward _ w1 (?m w1).1 => assert (fwd ex m) as Hm; [|apply Hm] end. forwardly.
Qed.
Lemma on_channel_data_fwd ex sid l b : releases_only -> fwd ex (on_channel_data sid l b).
Proof.
  intros Hr. unfold on_channel_data, drop_binary. apply respects_with_at; [apply _|]. intros s w Hs.
  destruct (closing s) eqn:Hc; simpl; [by apply forward_upd|]. destruct (parse_binary_label l) as [[name cls]|]; [|by apply forward_upd].
  destruct (attached name s) as [c|]; [|by apply forward_upd]. destruct (negb _); [by apply forward_upd|].
  apply (gated_fwd _ _ _ _ _ _ _ Hr Hs Hc). intros p. forwardly.
Qed.
Lemma deliver_fwd ex sid l b : releases_only -> fwd ex (deliver sid l b).
Proof. intros Hr. destruct b; [by apply on_channel_text_fwd | by apply on_channel_data_fwd]. Qed.
Lemma deliver_inbound_fwd ex sid l b : releases_only -> fwd ex (deliver_inbound sid l b).
Proof. intros Hr. unfold deliver_inbound. forwardly. by apply deliver_fwd. Qed.

(** ** The life of a session *)
Lemma maybe_connected_fwd ex sid : fwd ex (maybe_connected sid).
Proof.
  unfold maybe_connected. apply respects_with_at; [apply _|]. intros s w Hs. destruct (negotiating s) eqn:Hn; [|done]. simpl. destruct (_ || _); [done|].
  unfold bind at 1. match goal with |- context [upd sid ?f w] => pose proof (forward_upd_at ex sid f w) as F; destruct (upd sid f w) as [w1 r] eqn:E end.
  assert (r = Ok tt) as -> by (unfold upd, modify in E; by injection E). simpl in F. transitivity w1.
  - apply F. intros s' Hs'. rewrite Hs in Hs'. injection Hs' as <-. split; [|done]. simpl. unfold negotiating in Hn. destruct (s_state s); simpl in *; try done; lia.
  - match goal with |- forward _ w1 (?m w1).1 => assert (fwd ex m) as Hm; [|apply Hm] end. forwardly.
Qed.
Hint Resolve maybe_connected_fwd : forward.
Lemma on_channel_open_fwd ex sid l dc : releases_only -> fwd ex (on_channel_open sid l dc).
Proof. intros Hr. unfold on_channel_open. pose proof (fun ex sid l b => deliver_fwd ex sid l b Hr). forwardly. Qed.
Lemma on_drain_fwd ex sid l dc : fwd ex (on_drain sid l dc).
Proof. unfold on_drain. forwardly. Qed.
Lemma keyframe_fwd ex sid t : fwd ex (keyframe sid t).
Proof. unfold keyframe. forwardly. Qed.
Lemma send_offer_fwd ex sid sdp : fwd ex (send_offer sid sdp).
Proof.
  unfold send_offer. forwardly. apply forward_upd. intros s. case_bool_decide as E; [|done]. split; [|done]. simpl. rewrite E. simpl. lia.
Qed.
Hint Resolve on_channel_open_fwd on_drain_fwd keyframe_fwd send_offer_fwd : forward.
Lemma hook_fwd ex sid h : releases_only -> fwd ex (hook sid h).
Proof. intros Hr. destruct h; simpl; forwardly. Qed.
Lemma on_signal_session_fwd ex sid msg ok : fwd ex (on_signal_session sid msg ok).
Proof. unfold on_signal_session. forwardly. Qed.
Lemma fire_fwd ex sid t : fwd ex (fire sid t).
Proof. destruct t; simpl; forwardly. Qed.
Lemma test_silence_fwd ex sid h p m : fwd ex (test_silence sid h p m).
Proof. unfold test_silence. forwardly. Qed.
Hint Resolve hook_fwd on_signal_session_fwd fire_fwd test_silence_fwd : forward.
Lemma attach_cap_fwd ex sid c : fwd ex (attach_cap sid c).
Proof. unfold attach_cap. forwardly. Qed.
Hint Resolve attach_cap_fwd : forward.
Lemma attach_fwd ex sid caps w s : sm_find sid (sessions w) = Some s -> s_state s = Requested -> forward ex w (attach sid caps w).1.
Proof.
  intros Hs Hst. unfold attach. unfold bind at 1.
  match goal with |- context [upd sid ?f w] => pose proof (forward_upd_at ex sid f w) as F; destruct (upd sid f w) as [w1 r] eqn:E end.
  assert (r = Ok tt) as -> by (unfold upd, modify in E; by injection E). simpl in F. transitivity w1.
  - apply F. intros s' Hs'. rewrite Hs in Hs'. injection Hs' as <-. split; [|done]. simpl. rewrite Hst. simpl. lia.
  - match goal with |- forward _ w1 (?m w1).1 => assert (fwd ex m) as Hm; [|apply Hm] end. forwardly.
Qed.
Lemma drop_orphaned_claims_fwd ex k : fwd ex (drop_orphaned_claims k).
Proof. unfold drop_orphaned_claims. forwardly. Qed.
Lemma close_all_fwd ex r b : fwd ex (close_all r b).
Proof. unfold close_all. forwardly. Qed.
Lemma on_signal_fwd ex msg ok : fwd ex (on_signal msg ok).
Proof. unfold on_signal. forwardly. Qed.
Hint Resolve drop_orphaned_claims_fwd close_all_fwd on_signal_fwd deliver_inbound_fwd : forward.

(** What a transition may do to the sessions there are; [ex] may go away. *)
Definition moves_on (gone : string -> Prop) (w w' : World D) : Prop :=
  exists new, trace w' = trace w ++ new /\ forall sid s, sm_find sid (sessions w) = Some s ->
    (closing s = true -> Forall (fun e => plugin_input sid e = false) new)
    /\ match sm_find sid (sessions w') with Some s' => ahead s s' | None => gone sid end.
(** [w1] differs from [w] only in sessions that were not there or that may go. *)
Lemma forward_moves_on (gone : string -> Prop) w w1 w' : trace w1 = trace w -> (forall sid s, sm_find sid (sessions w) = Some s ->
    sm_find sid (sessions w1) = Some s \/ sm_find sid (sessions w1) = None /\ gone sid) -> forward None w1 w' -> moves_on gone w w'.
Proof.
  intros Ht Hs [H1 (new & T & H2)]. exists new. split; [congruence|]. intros sid s Hf. specialize (H1 sid). destruct (Hs sid s Hf) as [Hf1|[Hf1 Hgo]]; rewrite Hf1 in H1.
  - split; [intros Hc; apply H2; [done | intros; congruence]|]. by destruct (sm_find sid (sessions w')).
  - split; [intros Hc; apply H2; [done | intros; congruence]|]. by destruct (sm_find sid (sessions w')).
Qed.
Lemma fwd_moves_on (m : M D unit) w : fwd None m -> moves_on (fun _ => False) w (m w).1.
Proof. intros Hm. apply (forward_moves_on _ w w); [done | auto | apply Hm]. Qed.
Lemma on_session_request_moves lookup msg w : moves_on (fun _ => False) w (on_session_request lookup msg w).1.
Proof.
  unfold on_session_request, bind, lift. destruct (value_json _ "capabilities" _) as [cj|]; [|by apply (fwd_moves_on (ret tt)), respects_ret; apply _].
  destruct (value_json _ "operator" _) as [oj|]; [|by apply (fwd_moves_on (ret tt)), respects_ret; apply _].
  destruct (parse_capabilities cj) as [grants|], (parse_operator oj) as [op|]; try (apply fwd_moves_on; apply signal_fwd).
  unfold world, get. destruct (sm_count (session_id msg) (sessions w)) eqn:Hc; [apply fwd_moves_on; apply signal_fwd|].
  destruct (resolve lookup grants) as [caps|]; [|apply fwd_moves_on; apply signal_fwd]. unfold modify.
  set (turn := if contains _ "turn" then _ else _). set (w1 := {| w with sessions := _ |}). apply (forward_moves_on _ w w1); [done| |].
  - intros sid s Hs. left. simpl. rewrite sm_find_set_ne; [done|]. intros ->. unfold sm_count in Hc. by rewrite Hs in Hc.
  - eapply attach_fwd; [simpl; apply sm_find_set_eq | done].
Qed.
Lemma pop_task_moves w : moves_on (fun sid => match posted w with TClosed k :: _ => k = sid | _ => False end) w (pop_task w).1.
Proof.
  unfold pop_task, bind, world, get. destruct (posted w) as [|t rest] eqn:Hp; [by apply (fwd_moves_on (ret tt)), respects_ret; apply _|].
  destruct t as [k|k g l]; simpl.
  - eapply (forward_moves_on _ w); [| |apply drop_orphaned_claims_fwd]; simpl; [done|]. intros sid s Hs. destruct (decide (sid = k)) as [->|Hne].
    + right. split; [by rewrite sm_find_erase_eq | done].
    + left. by rewrite sm_find_erase_ne.
  - apply (forward_moves_on _ w {| w with posted := rest |}); [done | auto |]. 
    match goal with |- forward _ ?w1 (?m ?w1).1 => assert (fwd None m) as Hm; [|apply Hm] end. forwardly.
Qed.

(** C1: in every transition of the core loop, every session that was there keeps its operator,
    stays at its state or moves on (Requested, Building, Offered, Connected, Closing, Closed),
    never forgets that its end was announced, and is removed only by its own [on_closed] task.
    A session that was closing gets no message, binary frame or blob chunk delivered to its
    plugins and is not detached a second time. Plugins' [release_all_input] is assumed to
    release only; every other callback may do anything a [SessionContext] allows, or throw. *)
Theorem step_moves_sessions_on i w : releases_only ->
  moves_on (fun sid => i = ITask /\ match posted w with TClosed k :: _ => k = sid | _ => False end) w (step i w).1.
Proof.
  intros Hr.
  assert (forall m : M D unit, fwd None m -> moves_on (fun sid => i = ITask /\ match posted w with TClosed k :: _ => k = sid | _ => False end) w (m w).1) as Hf.
  { intros m Hm. apply (forward_moves_on _ w w); [done | auto | apply Hm]. }
  assert (forall w', moves_on (fun _ => False) w w' -> moves_on (fun sid => i = ITask /\ match posted w with TClosed k :: _ => k = sid | _ => False end) w w') as Hw.
  { intros w' (new & T & H). exists new. split; [done|]. intros sid s Hs. destruct (H sid s Hs) as [H1 H2]. split; [done|]. by destruct (sm_find sid (sessions w')). }
  destruct i; simpl.
  - apply Hw, on_session_request_moves.
  - apply Hf. forwardly.
  - apply Hf. unfold guarded. forwardly.
  - apply Hf. forwardly.
  - apply Hf. forwardly.
  - apply Hf. forwardly.
  - apply Hf. unfold control_timer. forwardly.
  - destruct (pop_task_moves w) as (new & T & H). exists new. split; [done|]. intros sid s Hs. destruct (H sid s Hs) as [H1 H2]. split; [done|]. by destruct (sm_find sid (sessions (pop_task w).1)).
  - apply Hf. forwardly. apply ctx_call_fwd; intros; auto with forward.
  - apply Hf. forwardly.
  - apply Hf. forwardly.
Qed.
End ForwardOps.

Section Witness.
Import Demo.
(** A plugin that answers a message by closing its session. *)
#[local] Instance closes : Ambient := ambient (fun _ cb => match cb with CbMessage _ _ _ => ([CClose "done"], None) | _ => ([], None) end).
Definition closing_world : World unit := (close "s1" "heartbeat" false false (world_of live)).1.
Lemma step_moves_sessions_on_witness : exists new,
  trace (step (IInbound "s1" 1 "fjarr:bulk:acme.arm" (Data [])) closing_world).1 = trace closing_world ++ new
  /\ Forall (fun e => plugin_input "s1" e = false) new.
Proof.
  destruct (step_moves_sessions_on (IInbound "s1" 1 "fjarr:bulk:acme.arm" (Data [])) closing_world) as (new & T & H).
  { intros n sid cp. reflexivity. }
  exists new. split; [exact T|]. 
  destruct (sm_find "s1" (sessions closing_world)) as [s|] eqn:Hs; [|vm_compute in Hs; discriminate Hs].
  pose proof (H "s1"%string s Hs) as H1. apply proj1 in H1. refine (H1 _). clear -Hs. revert Hs. vm_compute. intros [= <-]. reflexivity.
Defined.
End Witness.
