(* ===== verification/SessionGate.v ===== *)
(** * SessionGate: who gets input through to a plugin

    A capability in a control domain takes input only from the operator that holds the domain
    (docs/15); the gate claims a free domain on the first input and refuses everyone else. *)

From Stdlib Require Import ZArith Lia Strings.Byte Ascii String.
From stdpp Require Import base list strings relations.
From S2P Require Import Prelude Floats RateEstimator TierPolicy Monad StdMap Json Blob BlobAssembler BlobPump Protocol ControlDomains Senders Consumer SessionState SessionOps SessionRate SessionLife SessionLemmas SessionClose SessionSafety.

Create HintDb claims.
Section Claims.
Context `{JT : JsonText} {D : Type} `{DC : DataChannel D} `{AM : Ambient}.

(** Nothing a plugin can do moves a claim. *)
Definition same_claims (w w' : World D) : Prop := control w = control w'.
#[global] Instance same_claims_preorder : PreOrder same_claims.
Proof. split; [done|]. intros a b c. apply eq_trans. Qed.
Abbreviation keeps m := (respects same_claims m).

Lemma quiet_keeps {A} (m : M D A) : respects quiet m -> keeps m.
Proof. intros Hq w. apply q_control, Hq. Qed.
Lemma upd_keeps sid f : keeps (upd sid f).
Proof. intros w. unfold upd, modify, same_claims. simpl. by destruct (sm_find sid (sessions w)). Qed.
Lemma emit_keeps e : keeps (emit e).
Proof. done. Qed.
End Claims.
#[export] Hint Resolve upd_keeps emit_keeps : claims.

Ltac keeping :=
  repeat first
  [ solve [auto with claims]
  | solve [apply quiet_keeps; auto with quiet]
  | solve [intros ?; reflexivity]
  | session_step ].

Section Gate.
Context `{JT : JsonText} {D : Type} `{DC : DataChannel D} `{AM : Ambient}.
Abbreviation keeps m := (respects (@same_claims D) m).

Lemma finish_close_keeps sid r : keeps (finish_close sid r).
Proof. unfold finish_close, plane_unregister. keeping. Qed.
Hint Resolve finish_close_keeps : claims.
Lemma call_closing_keeps sid cp ev cb : keeps (call_closing sid cp ev cb).
Proof. unfold call_closing, call_cap. keeping. apply quiet_keeps, ctx_call_quiet; intros; apply respects_ret; apply _. Qed.
Hint Resolve call_closing_keeps : claims.
Lemma signal_keeps t l : keeps (signal t l).
Proof. unfold signal, send_signal. keeping. Qed.
Hint Resolve signal_keeps : claims.
Lemma close_keeps sid r b fs : keeps (close sid r b fs).
Proof. unfold close, release_caps. keeping. Qed.
Hint Resolve close_keeps : claims.
Lemma consumer_add_keeps sid cp spec : keeps (consumer_add sid cp spec).
Proof.
  intros w. unfold consumer_add. destruct (sm_find sid (sessions w)) as [s|]; [|done]. destruct (consumer_ s) as [c|]; [|done].
  destruct (add_track spec cp (add_env (spec_id spec)) c) as [[c' ok] err].
  match goal with |- same_claims w (?m w).1 => assert (keeps m) as Hm; [|apply Hm] end. keeping.
Qed.
Hint Resolve consumer_add_keeps : claims.
Lemma offer_new_keeps sid cp l : keeps (offer_new sid cp l).
Proof. induction l as [|spec l IH]; simpl; unfold offer_track, plane_unregister; keeping. Qed.
Hint Resolve offer_new_keeps : claims.
Lemma update_tracks_keeps sid cp full : keeps (update_tracks sid cp full).
Proof. unfold update_tracks, drop_track, plane_unregister, request_offer. keeping. Qed.
Hint Resolve update_tracks_keeps : claims.
Lemma ctx_call_keeps sid cp c : keeps (ctx_call (fun sid reason => close sid reason false false) update_tracks sid cp c).
Proof.
  destruct c; simpl; unfold need_request, add_pending, set_deadman; keeping.
Qed.
Hint Resolve ctx_call_keeps : claims.
Lemma call_plugin_keeps sid cp ev cb : keeps (call_plugin sid cp ev cb).
Proof. unfold call_plugin, call_cap. keeping. Qed.
Hint Resolve call_plugin_keeps : claims.
Lemma apply_keeps c : keeps (apply c).
Proof. unfold apply, release_domain_input, release_caps, send_control_state. keeping. Qed.
Hint Resolve apply_keeps : claims.

(** What the gate looks at: binary input when no types are named, or a named type. *)
Definition gated (c : Attached) (env : option Envelope) : bool :=
  negb (String.eqb (control_domain c) "")
  && (match control_inputs c with [] => true | _ => false end
      || match env with Some e => existsb (String.eqb (type_ e)) (control_inputs c) | None => false end).

Lemma input_spec dom op n ms d d' oc ch : input dom op n ms d = (d', (oc, ch)) ->
  match oc with
  | Allowed => exists h, holder dom d' = Some h /\ op_id (h_op h) = op_id op
  | Held => d' = d /\ exists h, holder dom d = Some h /\ op_id (h_op h) <> op_id op
  end.
Proof.
  unfold input, holder. destruct (sm_find dom (held_ d)) as [h|] eqn:E.
  - destruct (String.eqb_spec (op_id (h_op h)) (op_id op)) as [Eo|Eo]; simpl; intros [= <- <- _]; [|eauto].
    simpl. rewrite sm_find_set_eq. by eexists.
  - destruct (claim _ _ _ _ _ _) as [d1 c] eqn:Ec. intros [= <- <- _]. apply claim_spec in Ec as (-> & _). rewrite sm_find_set_eq. by eexists.
Qed.
Lemma control_input_spec sid d w w' r s : sm_find sid (sessions w) = Some s -> control_input sid d w = (w', Ok r) ->
  exists h, holder d (control w') = Some h /\ match r with None => op_id (h_op h) = op_id (s_op s) | Some _ => op_id (h_op h) <> op_id (s_op s) end.
Proof.
  intros Hs. unfold control_input, bind at 1. pose proof (control_tick_fwd None now w) as F. destruct (control_tick now w) as [w1 [[]|e]]; [|done].
  simpl in F. pose proof (fw_sess _ _ _ F sid) as A. rewrite Hs in A. destruct (sm_find sid (sessions w1)) as [s1|] eqn:Hs1; [|done].
  destruct A as (_ & Ho & _). destruct (input d (s_op s1) now now_ms (control w1)) as [cd [oc ch]] eqn:Ei. apply input_spec in Ei. rewrite Ho in Ei.
  unfold bind at 1. simpl. destruct oc.
  - set (w2 := {| w1 with control := cd |}). assert (keeps (match ch with Some c => apply c | None => ret tt end)) as Hk by keeping.
    unfold bind. specialize (Hk w2). destruct (_ w2) as [w3 [[]|e]]; [|done]. intros [= <- <-]. unfold same_claims in Hk. simpl in Hk. by rewrite <- Hk.
  - intros [= <- <-]. simpl. by destruct Ei as [-> ?].
Qed.

(** C3: for a capability in a control domain, what counts as input passes the gate only when the
    grant is not view-only and its operator holds the domain after the gate; it is stopped only
    when the grant is view-only or another operator holds the domain. Everything that is not
    input passes and claims nothing. *)
Theorem gate_admits_holder_only sid c env w w' pass s : sm_find sid (sessions w) = Some s -> control_gate sid c env w = (w', Ok pass) ->
  if negb (gated c env) then pass = true /\ w' = w
  else if pass then view_only c = false /\ exists h, holder (control_domain c) (control w') = Some h /\ op_id (h_op h) = op_id (s_op s)
  else view_only c = true /\ control w' = control w
       \/ exists h, holder (control_domain c) (control w') = Some h /\ op_id (h_op h) <> op_id (s_op s).
Proof.
  intros Hs. unfold control_gate, gated. destruct (String.eqb (control_domain c) ""); simpl; [by intros [= <- <-]|].
  assert (negb (match control_inputs c with [] => true | _ => false end)
          && match env with None => true | Some e => negb (existsb (String.eqb (type_ e)) (control_inputs c)) end
    = negb (match control_inputs c with [] => true | _ => false end
      || match env with Some e => existsb (String.eqb (type_ e)) (control_inputs c) | None => false end)) as ->.
  { destruct (control_inputs c); [done|]. by destruct env. }
  destruct (negb _); [by intros [= <- <-]|].
  assert (forall code m data w0 w1 p, (upd sid (fun s => {| s with dropped_control_ := dropped_control_ s + 1 |}) ;;
      match env with Some e => when (match env with Some e => String.eqb (kind e) "request" | None => false end) (reply_error sid e code m data) | None => ret tt end ;; ret false) w0
      = (w1, Ok p) -> p = false /\ control w0 = control w1) as Hrefuse.
  { intros code m data w0 w1 p E. assert (w1 = ((upd sid (fun s => {| s with dropped_control_ := dropped_control_ s + 1 |}) ;;
      match env with Some e => when (match env with Some e => String.eqb (kind e) "request" | None => false end) (reply_error sid e code m data) | None => ret tt end ;; ret false) w0).1) as ->
      by (by rewrite E).
    split; [|match goal with |- _ = control (?m w0).1 => assert (keeps m) as Hm; [keeping | apply Hm] end].
    revert E. clear. unfold bind, ret. repeat case_match; intros; simplify_eq; done. }
  destruct (view_only c).
  - intros E. apply Hrefuse in E as [-> E]. by left.
  - unfold bind at 1. destruct (control_input sid (control_domain c) w) as [w1 [r|e]] eqn:Ei; [|done]. apply (control_input_spec _ _ _ _ _ s Hs) in Ei.
    destruct r as [data|]; [|by intros [= <- <-]]. intros E. apply Hrefuse in E as [-> E]. right. by rewrite <- E.
Qed.
End Gate.

Section Witness.
Import Demo.
#[local] Instance idle : Ambient := ambient (fun _ _ => ([], None)).
(** A free domain is claimed by the first input. *)
Lemma gate_admits_holder_only_witness : exists h, holder "motion" (control (control_gate "s1" (plugin "acme.arm" "motion" true) None (world_of live)).1) = Some h
  /\ op_id (h_op h) = "alice"%string.
Proof.
  exact (proj2 (gate_admits_holder_only "s1" (plugin "acme.arm" "motion" true) None (world_of live)
    (control_gate "s1" (plugin "acme.arm" "motion" true) None (world_of live)).1 true live eq_refl ltac:(vm_compute; reflexivity))).
Defined.
End Witness.
