(* ===== verification/SessionTracks.v ===== *)
(** * SessionTracks: what a select-tracks request does to a session's subscriptions

    All or nothing over the whole list, and the last entry for a track decides. *)

From Stdlib Require Import ZArith Lia Strings.Byte Ascii String.
From stdpp Require Import base list strings relations.
From S2P Require Import Prelude Floats RateEstimator TierPolicy Monad StdMap Json Blob BlobAssembler BlobPump Protocol ControlDomains Senders Consumer SessionState SessionOps SessionRate SessionLife SessionLemmas SessionClose.

Section Tracks.
Context `{JT : JsonText} {D : Type} `{DC : DataChannel D} `{AM : Ambient}.

(** What the pipeline has a branch record for. *)
Definition has_track (id : string) (s : Session D) : bool :=
  match consumer_ s with Some c => match track id c with Some _ => true | None => false end | None => false end.

Lemma track_set_tiers id k t d c : match track k (set_tiers id t d c) with Some _ => true | None => false end = match track k c with Some _ => true | None => false end.
Proof.
  unfold set_tiers. destruct (track id c) as [ct|] eqn:E; [|done]. unfold track in *. simpl.
  destruct (decide (k = id)) as [->|]; [by rewrite sm_find_set_eq, E | by rewrite sm_find_set_ne].
Qed.
Lemma track_set_enabled id k b c : match track k (set_enabled id b c) with Some _ => true | None => false end = match track k c with Some _ => true | None => false end.
Proof.
  unfold set_enabled. destruct (track id c) as [ct|] eqn:E; [|done]. destruct (has_branch ct); [|done]. unfold track in *. simpl.
  destruct (decide (k = id)) as [->|]; [by rewrite sm_find_set_eq, E | by rewrite sm_find_set_ne].
Qed.

(** One step at a time, with the session it leaves. *)
Definition leaves (sid : string) (m : M D unit) (w : World D) (P : Session D -> Prop) : Prop :=
  exists w' s', returns m w w' /\ sm_find sid (sessions w') = Some s' /\ P s'.
Lemma leaves_upd sid f w s (P : Session D -> Prop) : sm_find sid (sessions w) = Some s -> P (f s) -> leaves sid (upd sid f) w P.
Proof. intros Hs HP. destruct (upd_here sid f w s Hs) as (w' & R & F & _). by exists w', (f s). Qed.
Lemma leaves_emit sid e w s (P : Session D -> Prop) : sm_find sid (sessions w) = Some s -> P s -> leaves sid (emit e) w P.
Proof. intros Hs HP. eexists _, s. by split; [reflexivity|]. Qed.
Lemma leaves_ret sid w s (P : Session D -> Prop) : sm_find sid (sessions w) = Some s -> P s -> leaves sid (ret tt) w P.
Proof. intros Hs HP. exists w, s. by split; [reflexivity|]. Qed.
Lemma leaves_bind sid (m k : M D unit) w (Q P : Session D -> Prop) :
  leaves sid m w Q -> (forall w1 s1, sm_find sid (sessions w1) = Some s1 -> Q s1 -> leaves sid k w1 P) -> leaves sid (m ;; k) w P.
Proof.
  intros (w1 & s1 & R1 & F1 & HQ) Hk. destruct (Hk w1 s1 F1 HQ) as (w2 & s2 & R2 & F2 & HP). exists w2, s2. split; [|done]. by eapply returns_bind.
Qed.

(** The part of a session a selection may touch. *)
Record picked (s s' : Session D) (policy : list (string * TierPolicy)) (subs : list (string * string)) : Prop := {
  pk_policy : tier_policy_ s' = policy;
  pk_subs : subscribed_tier_ s' = subs;
  pk_tracks : tracks_ s' = tracks_ s;
  pk_has : forall k, has_track k s' = has_track k s
}.
Lemma picked_consumer s s' policy subs f : picked s s' policy subs ->
  (forall k c, match track k (f c) with Some _ => true | None => false end = match track k c with Some _ => true | None => false end) ->
  picked s (match consumer_ s' with Some c => {| s' with consumer_ := Some (f c) |} | None => s' end) policy subs.
Proof.
  intros [H1 H2 H3 H4] Hf. destruct (consumer_ s') as [c|] eqn:E; [|done]. split; simpl; [done..|]. intros k. rewrite <- H4. unfold has_track. simpl. by rewrite E, Hf.
Qed.

Lemma apply_demand_leaves sid id en d w s : sm_find sid (sessions w) = Some s -> has_track id s = true ->
  let p := set_demanded d (policy_of id s) in
  leaves sid (apply_demand sid id en d) w (fun s' => exists subs, picked s s' (sm_set id p (tier_policy_ s)) subs /\
    forall k, sm_find k subs = if String.eqb k id then if en then Some (effective_ p) else None else sm_find k (subscribed_tier_ s)).
Proof.
  intros Hs Ht p. unfold leaves, apply_demand, returns. rewrite (with_some _ _ _ _ Hs). unfold has_track in Ht.
  destruct (consumer_ s) as [c|] eqn:Ec; [|done]. destruct (track id c) as [ct|] eqn:Et; [|done]. fold p. clearbody p. set (ps := sm_set id p (tier_policy_ s)).
  eapply (leaves_bind _ _ _ _ (fun s' => picked s s' ps (subscribed_tier_ s))); [by eapply leaves_upd|]. intros w1 s1 F1 P1.
  eapply (leaves_bind _ _ _ _ (fun s' => picked s s' ps (subscribed_tier_ s))).
  { eapply leaves_upd; [exact F1|]. apply picked_consumer; [done|]. intros; apply track_set_tiers. }
  clear w1 s1 F1 P1. intros w1 s1 F1 P1. destruct en; simpl.
  - pose (subs := match sm_find id (subscribed_tier_ s) with
                  | Some old => if negb (String.eqb old (effective_ p)) then sm_erase id (subscribed_tier_ s) else subscribed_tier_ s
                  | None => subscribed_tier_ s end).
    eapply (leaves_bind _ _ _ _ (fun s' => picked s s' ps subs)).
    { unfold subs. destruct (sm_find id (subscribed_tier_ s)) as [old|]; [|by eapply leaves_ret]. destruct (negb _); simpl; [|by eapply leaves_ret].
      eapply (leaves_bind _ _ _ _ (fun s' => picked s s' ps (subscribed_tier_ s))); [by eapply leaves_emit|]. intros w2 s2 F2 P2.
      eapply (leaves_bind _ _ _ _ (fun s' => picked s s' ps (subscribed_tier_ s))); [by eapply leaves_emit|]. intros w3 s3 F3 P3.
      eapply leaves_upd; [exact F3|]. destruct P3 as [A B C E]. split; simpl; [done | by rewrite B | done | done]. }
    clear w1 s1 F1 P1. intros w1 s1 F1 P1.
    eapply (leaves_bind _ _ _ _ (fun s' => picked s s' ps subs)).
    { eapply leaves_upd; [exact F1|]. apply picked_consumer; [done|]. intros; apply track_set_tiers. }
    clear w1 s1 F1 P1. intros w1 s1 F1 P1.
    eapply (leaves_bind _ _ _ _ (fun s' => picked s s' ps subs)).
    { destruct (negb (silent_media_ s)); simpl; [|by eapply leaves_ret]. eapply leaves_upd; [exact F1|]. apply picked_consumer; [done|]. intros; apply track_set_enabled. }
    clear w1 s1 F1 P1. intros w1 s1 F1 P1.
    assert (leaves sid (emit (EvSubscribe sid id (effective_ p)) ;; upd sid (fun s => {| s with subscribed_tier_ := sm_set id (effective_ p) (subscribed_tier_ s) |})) w1
      (fun s' => picked s s' ps (sm_set id (effective_ p) subs))) as Hsub.
    { eapply (leaves_bind _ _ _ _ (fun s' => picked s s' ps subs)); [by eapply leaves_emit|]. intros w2 s2 F2 P2.
      eapply leaves_upd; [exact F2|]. destruct P2 as [A B C E]. split; simpl; [done | by rewrite B | done | done]. }
    assert (forall k, sm_find k (sm_set id (effective_ p) subs) = if String.eqb k id then Some (effective_ p) else sm_find k (subscribed_tier_ s)) as Hset.
    { intros k. destruct (String.eqb_spec k id) as [->|Hk]; [apply sm_find_set_eq|]. rewrite sm_find_set_ne by done. unfold subs.
      destruct (sm_find id (subscribed_tier_ s)) as [old|]; [|done]. destruct (negb _); [|done]. by rewrite sm_find_erase_ne. }
    destruct (sm_find id (subscribed_tier_ s)) as [old|] eqn:Eo; [destruct (String.eqb_spec old (effective_ p)) as [->|Hne]|]; simpl.
    + exists w1, s1. split; [done|]. split; [done|]. exists subs. split; [done|]. intros k. unfold subs. rewrite ?Eo, ?String.eqb_refl. simpl.
      destruct (String.eqb_spec k id) as [->|]; done.
    + destruct Hsub as (w2 & s2 & R2 & F2 & P2). exists w2, s2. split; [done|]. split; [done|]. by eexists.
    + destruct Hsub as (w2 & s2 & R2 & F2 & P2). exists w2, s2. split; [done|]. split; [done|]. by eexists.
  - eapply (leaves_bind _ _ _ _ (fun s' => picked s s' ps (subscribed_tier_ s))).
    { eapply leaves_upd; [exact F1|]. apply picked_consumer; [done|]. intros; apply track_set_enabled. }
    clear w1 s1 F1 P1. intros w1 s1 F1 P1.
    eapply (leaves_bind _ _ _ _ (fun s' => picked s s' ps (sm_erase id (subscribed_tier_ s)))).
    { destruct (sm_find id (subscribed_tier_ s)) as [old|] eqn:Eo; [|eapply leaves_ret; [done|]; by rewrite sm_erase_absent].
      eapply (leaves_bind _ _ _ _ (fun s' => picked s s' ps (subscribed_tier_ s))); [by eapply leaves_emit|]. intros w2 s2 F2 P2.
      eapply leaves_upd; [exact F2|]. destruct P2 as [A B C E]. split; simpl; [done | by rewrite B | done | done]. }
    clear w1 s1 F1 P1. intros w1 s1 F1 P1. eapply leaves_emit; [exact F1|]. eexists. split; [exact P1|].
    intros k. destruct (String.eqb_spec k id) as [->|Hk]; [apply sm_find_erase_eq | by apply sm_find_erase_ne].
Qed.

(** ** The whole request *)
Definition entry_id (t : json) : string := str_at t "track_id".
Definition entry_on (t : json) : bool := match at_key t "enabled" with JBool b => b | _ => false end.
Definition entry_tier (t : json) : string := match at_key t "tier" with JStr x => x | _ => "active" end.
Fixpoint last_entry (id : string) (l : list json) : option json :=
  match l with
  | [] => None
  | t :: l' => match last_entry id l' with Some x => Some x | None => if String.eqb (entry_id t) id then Some t else None end
  end.
(** [preference] absent or a string. *)
Definition preference_ok (t : json) : bool := match jfind "preference" t with Some (JStr _) | None => true | _ => false end.
(** What the list [l] makes of the session [s]. *)
Definition selected (s s' : Session D) (l : list json) : Prop :=
  tracks_ s' = tracks_ s /\ (forall k, has_track k s' = has_track k s) /\
  forall k, match last_entry k l with
            | None => sm_find k (subscribed_tier_ s') = sm_find k (subscribed_tier_ s) /\ policy_of k s' = policy_of k s
            | Some t => sm_find k (subscribed_tier_ s') = (if entry_on t then Some (effective_ (policy_of k s')) else None)
                        /\ demanded_ (policy_of k s') = entry_tier t
            end.

Lemma picked_policy s s' id p subs k : picked s s' (sm_set id p (tier_policy_ s)) subs -> policy_of k s' = if String.eqb k id then p else policy_of k s.
Proof.
  intros [H _ _ _]. unfold policy_of. rewrite H. destruct (String.eqb_spec k id) as [->|Hk]; [by rewrite sm_find_set_eq | by rewrite sm_find_set_ne].
Qed.
Lemma demanded_set d p : demanded_ (set_demanded d p) = d.
Proof. unfold set_demanded. simpl. by destruct (negb _). Qed.

Lemma select_track_leaves sid t w s : sm_find sid (sessions w) = Some s -> has_track (entry_id t) s = true -> preference_ok t = true ->
  leaves sid (select_track sid t) w (fun s' => selected s s' [t]).
Proof.
  intros Hs Ht Hp. unfold select_track. fold (entry_id t) (entry_on t) (entry_tier t).
  eapply (leaves_bind _ _ _ _ (fun s' => selected s s' [t])).
  - destruct (apply_demand_leaves sid (entry_id t) (entry_on t) (entry_tier t) w s Hs Ht) as (w1 & s1 & R1 & F1 & subs & P1 & Hsubs).
    exists w1, s1. split; [done|]. split; [done|]. pose proof (fun k => picked_policy _ _ _ _ _ k P1) as Hpol. destruct P1 as [_ A B C].
    split; [done|]. split; [done|]. intros k. specialize (Hsubs k). specialize (Hpol k). rewrite <- A in Hsubs. simpl. rewrite String.eqb_sym in Hsubs, Hpol.
    destruct (String.eqb (entry_id t) k); [|done]. rewrite Hpol. split; [done | apply demanded_set].
  - intros w1 s1 F1 P1. unfold leaves, returns. rewrite (with_some _ _ _ _ F1). destruct (contains t "preference") eqn:Ec; simpl; [|by exists w1, s1].
    destruct (match consumer_ s1 with Some c => sink_for (entry_id t) c | None => false end); simpl; [|by exists w1, s1].
    assert (exists p, value_str t "preference" "motion" = Ok p) as (p & Ep).
    { unfold value_str, preference_ok, contains in *. destruct t as [| | | | | | |m]; try done. simpl in *. clear -Hp Ec.
      destruct (sm_find "preference" m) as [[]|]; try done; by eexists. }
    rewrite Ep. unfold bind, lift. by eexists _, s1.
Qed.
Lemma selected_trans s1 s2 s3 t l : selected s1 s2 [t] -> selected s2 s3 l -> selected s1 s3 (t :: l).
Proof.
  intros (A1 & A2 & A3) (B1 & B2 & B3). split; [congruence|]. split; [intros k; by rewrite B2|]. intros k. specialize (A3 k). specialize (B3 k). simpl in *.
  destruct (last_entry k l) as [x|]; [done|]. destruct B3 as [B3 B4]. destruct (String.eqb (entry_id t) k); destruct A3 as [A3 A4].
  - by rewrite B3, B4, A3.
  - by rewrite B3, B4, A3.
Qed.
Lemma select_loop_leaves sid l : forall w s, sm_find sid (sessions w) = Some s -> Forall (fun t => has_track (entry_id t) s = true) l -> Forall (fun t => preference_ok t = true) l ->
  leaves sid (for_each l (select_track sid)) w (fun s' => selected s s' l).
Proof.
  induction l as [|t l IH]; intros w s Hs Ht Hp; simpl.
  - eapply leaves_ret; [done|]. by split_and!.
  - inversion_clear Ht as [|? ? Ht0 Ht1]. inversion_clear Hp as [|? ? Hp0 Hp1].
    eapply leaves_bind; [by apply (select_track_leaves sid t w s)|]. intros w1 s1 F1 P1.
    destruct (IH w1 s1 F1) as (w2 & s2 & R2 & F2 & P2); [|done|].
    + destruct P1 as (_ & P1 & _). eapply Forall_impl; [exact Ht1|]. intros x. simpl. by rewrite P1.
    + exists w2, s2. split; [done|]. split; [done|]. exact (selected_trans _ _ _ _ _ P1 P2).
Qed.

(** Replies leave the tracks alone. *)
Definition media (s : Session D) := (tracks_ s, subscribed_tier_ s, tier_policy_ s, consumer_ s).
Definition same_media (w w' : World D) : Prop := (forall k, media <$> sm_find k (sessions w) = media <$> sm_find k (sessions w')) /\ registry w = registry w'.
#[local] Instance same_media_preorder : PreOrder same_media.
Proof. split; [done|]. intros a b c [H1 H2] [H3 H4]. split; [intros k; by rewrite H1 | congruence]. Qed.
Lemma media_upd sid f : (forall s : Session D, media (f s) = media s) -> respects same_media (upd sid f).
Proof.
  intros Hf w. unfold upd, modify. simpl. destruct (sm_find sid (sessions w)) as [s|] eqn:E; [|done]. split; [|done].
  intros k. simpl. destruct (decide (k = sid)) as [->|]; [by rewrite sm_find_set_eq, E; simpl; rewrite Hf | by rewrite sm_find_set_ne].
Qed.
Lemma reply_media sid req pl : respects same_media (reply sid req pl).
Proof.
  unfold reply, send_made. apply respects_bind; [apply _ | apply respects_world; apply _|]. intros w. unfold send_control. apply respects_with; [apply _|]. intros s.
  destruct (sm_find _ _) as [snd|]; [|destruct (_ && _); by apply media_upd].
  destruct (send snd _) as [[snd' text]|[c m|m]]; [|by apply media_upd | apply respects_throw; apply _].
  apply respects_bind; [apply _ | by apply media_upd|]. intros _. destruct text; [|apply respects_ret; apply _]. by intros w1.
Qed.
Lemma same_media_find w w' sid s : same_media w w' -> sm_find sid (sessions w) = Some s -> exists s', sm_find sid (sessions w') = Some s' /\ media s' = media s.
Proof.
  intros [H _] Hs. specialize (H sid). rewrite Hs in H. destruct (sm_find sid (sessions w')) as [s'|]; [|done]. exists s'. split; [done|]. simpl in H. congruence.
Qed.

Lemma check_track_owned (s : Session D) owner t : check_track s owner t = None -> exists spec, sm_find (entry_id t) (tracks_ s) = Some (owner, spec).
Proof.
  unfold check_track, entry_id. destruct (_ || _); [done|]. destruct (String.eqb (str_at t "track_id") ""); [done|]. simpl.
  destruct (sm_find _ (tracks_ s)) as [[o spec]|]; [|done]. destruct (String.eqb_spec o owner) as [->|]; [by eexists | done].
Qed.
Lemma check_tracks_owned (s : Session D) owner l : check_tracks s owner l = None -> Forall (fun t => exists spec, sm_find (entry_id t) (tracks_ s) = Some (owner, spec)) l.
Proof.
  induction l as [|t l IH]; simpl; [done|]. destruct (check_track s owner t) eqn:E; [done|]. intros Hl. constructor; [by eapply check_track_owned | by apply IH].
Qed.

(** C33: a select-tracks request is applied whole or not at all, as docs/08 asks, as long as every
    [preference] in it is a string. When one entry is bad the tracks, the demanded tiers and the
    subscriptions are what they were. Otherwise, for every track named, the last entry decides:
    its tier is the one demanded, and the session is subscribed to the effective tier when it is
    enabled and not at all when not; tracks that are not named keep theirs. *)
Theorem select_tracks_all_or_nothing sid env owner w s l : sm_find sid (sessions w) = Some s -> jfind "tracks" (e_payload env) = Some (JArr l) ->
  (forall id x, sm_find id (tracks_ s) = Some x -> has_track id s = true) -> Forall (fun t => preference_ok t = true) l ->
  exists s', sm_find sid (sessions (handle_select_tracks sid env owner w).1) = Some s' /\
    match check_tracks s owner l with
    | Some _ => media s' = media s
    | None => selected s s' l
    end.
Proof.
  intros Hs Hl Hinv Hp. unfold handle_select_tracks. rewrite Hl, (with_some _ _ _ _ Hs). destruct (check_tracks s owner l) as [e|] eqn:Ec.
  - unfold reply_error. eapply same_media_find; [apply reply_media | done].
  - destruct (select_loop_leaves sid l w s Hs) as (w1 & s1 & R1 & F1 & P1); [|done|].
    { eapply Forall_impl; [by apply check_tracks_owned|]. intros t (spec & Hf). by eapply Hinv. }
    rewrite (bind_ok _ _ _ _ _ R1). destruct (same_media_find _ _ _ _ (reply_media sid env (jobj [("ok", JBool true)]) w1) F1) as (s2 & F2 & M2).
    exists s2. split; [done|]. injection M2 as M1 M2 M3 M4. destruct P1 as (A & B & C). split; [congruence|]. split.
    + intros k. rewrite <- B. unfold has_track. by rewrite M4.
    + intros k. specialize (C k). unfold policy_of in *. by rewrite M2, M3.
Qed.
End Tracks.

Module Select.
Import Demo.
#[export] Instance idle : Ambient := ambient (fun _ _ => ([], None)).
Definition spec (id : string) : TrackSpec := {| (demo_spec) with spec_id := id |}.
(** A connected session that is sent two tracks. *)
Definition two_tracks : World unit :=
  ((offer_track "s1" "acme.view" (spec "a") ;; offer_track "s1" "acme.view" (spec "b")) (world_of live)).1.
Definition session : Session unit := Eval vm_compute in match sm_find "s1" (sessions two_tracks) with Some s => s | None => live end.
Definition entry (id : string) (extra : list (string * json)) : json := jobj ([("track_id", JStr id); ("enabled", JBool true)] ++ extra).
Definition request (l : list json) : Envelope :=
  {| cap := "acme.view"; type_ := "select-tracks"; event_id := "e1"; kind := "request"; e_payload := jobj [("tracks", JArr l)] |}.

Lemma select_tracks_all_or_nothing_witness :
  exists s', sm_find "s1" (sessions (handle_select_tracks "s1" (request [entry "a" []]) "acme.view" two_tracks).1) = Some s' /\ selected session s' [entry "a" []].
Proof.
  destruct (select_tracks_all_or_nothing "s1" (request [entry "a" []]) "acme.view" two_tracks session [entry "a" []]) as (s' & H1 & H2);
    [vm_compute; reflexivity | reflexivity | | repeat constructor |].
  - intros id x Hx. apply sm_find_In in Hx. repeat destruct Hx as [[= <- <-]|Hx]; [reflexivity | reflexivity | destruct Hx].
  - exists s'. split; [exact H1 | exact H2].
Defined.

(** The check before the apply does not look at [preference]: one that is not a string is
    only found while applying. Of two good entries the first, whose preference is a number, is
    already subscribed when the exception comes, and the second is never reached; the operator
    is told the request was invalid. *)
Theorem select_tracks_preference_half_applied :
  let l := [entry "a" [("preference", JInt 1)]; entry "b" []] in
  check_tracks session "acme.view" l = None
  /\ exists w' s', handle_select_tracks "s1" (request l) "acme.view" two_tracks = (w', Throw type_error) /\ sm_find "s1" (sessions w') = Some s'
     /\ sm_find "a" (subscribed_tier_ session) = None /\ sm_find "a" (subscribed_tier_ s') = Some "active"%string /\ sm_find "b" (subscribed_tier_ s') = None.
Proof. split; [vm_compute; reflexivity|]. do 2 eexists. split; [vm_compute; reflexivity|]. split; [reflexivity|]. split; [reflexivity|]. split; reflexivity. Qed.
End Select.
