(* ===== verification/SessionRateProofs.v ===== *)
(** * SessionRateProofs: what one rate tick does to a peer

    A handler that reads and writes one session is a function from the session to the session it
    leaves and the events it adds; [acts] relates the two, and the tick is computed from its parts.
    Then: every track the peer is sent gets one share of an estimate within the limits, in the tier
    it is sent in, and afterwards the peer is still subscribed to every track it was, in the tier
    its policy says. *)

From Stdlib Require Import ZArith Lia Strings.Byte Ascii String.
From stdpp Require Import base list strings relations.
From S2P Require Import Prelude Floats RateEstimator TierPolicy Monad StdMap Json Blob BlobAssembler BlobPump Protocol ControlDomains Senders Consumer SessionState SessionOps SessionRate SessionLife SessionLemmas SessionClose SessionTracks.

(** The shares reported to the media plane. *)
Definition is_allot (e : Event) : bool := match e with EvAllot _ _ _ _ => true | _ => false end.

Section Acts.
Context {D : Type}.
Definition acts (sid : string) (m : M D unit) (f : Session D -> Session D * list Event) : Prop :=
  forall w s, sm_find sid (sessions w) = Some s ->
  exists w', m w = (w', Ok tt) /\ sm_find sid (sessions w') = Some (f s).1 /\ trace w' = trace w ++ (f s).2.
Definition andthen (f g : Session D -> Session D * list Event) (s : Session D) : Session D * list Event :=
  let '(s1, e1) := f s in let '(s2, e2) := g s1 in (s2, e1 ++ e2).
Definition nothing (s : Session D) : Session D * list Event := (s, []).

Lemma acts_upd sid f : acts sid (upd sid f) (fun s => (f s, [])).
Proof.
  intros w s Hs. eexists. split; [reflexivity|]. unfold upd, modify. cbn. rewrite Hs. cbn. rewrite sm_find_set_eq, app_nil_r. done.
Qed.
Lemma acts_emit sid e : acts sid (emit e) (fun s => (s, [e])).
Proof. intros w s Hs. eexists. split; [reflexivity|]. done. Qed.
Lemma acts_ret sid : acts sid (ret tt) nothing.
Proof. intros w s Hs. eexists. split; [reflexivity|]. cbn. by rewrite app_nil_r. Qed.
Lemma acts_bind sid m k f g : acts sid m f -> acts sid k g -> acts sid (m ;; k) (andthen f g).
Proof.
  intros Hm Hk w s Hs. destruct (Hm w s Hs) as (w1 & E1 & F1 & T1). destruct (Hk w1 _ F1) as (w2 & E2 & F2 & T2). exists w2.
  unfold bind, andthen. rewrite E1, E2. destruct (f s) as [s1 e1]. cbn [fst snd] in *. destruct (g s1) as [s2 e2]. cbn [fst snd] in *. split_and!; [done | done|]. by rewrite T2, T1, app_assoc.
Qed.
Lemma acts_when sid b m f : acts sid m f -> acts sid (when b m) (fun s => if b then f s else (s, [])).
Proof. destruct b; [done | intros _; apply acts_ret]. Qed.
Lemma acts_with sid k (f : Session D -> Session D -> Session D * list Event) : (forall s, acts sid (k s) (f s)) -> acts sid (with_session sid k) (fun s => f s s).
Proof. intros Hk w s Hs. unfold with_session. rewrite Hs. by apply Hk. Qed.
Lemma acts_for_each {A} sid (k : A -> M D unit) f l : (forall x, acts sid (k x) (f x)) -> acts sid (for_each l k) (foldr (fun x g => andthen (f x) g) nothing l).
Proof. intros Hk. induction l as [|x l IH]; cbn [for_each foldr]; [apply acts_ret | by apply acts_bind]. Qed.
End Acts.

Section RateProofs.
Context `{JT : JsonText} {D : Type} `{DC : DataChannel D} `{AM : Ambient}.
Abbreviation Act := (Session D -> Session D * list Event).

(** [apply_demand] for a track that is to be sent. *)
Definition demand (sid id demanded : string) : Act := fun s =>
  match consumer_ s with
  | None => (s, [])
  | Some c =>
    match track id c with
    | None => (s, [])
    | Some ct =>
      let policy := set_demanded demanded (policy_of id s) in
      let t := effective_ policy in
      let c2 := set_tiers id t demanded (set_tiers id (tier ct) demanded c) in
      let s' := {| s with tier_policy_ := sm_set id policy (tier_policy_ s); consumer_ := Some (if silent_media_ s then c2 else set_enabled id true c2) |} in
      match sm_find id (subscribed_tier_ s) with
      | Some old => if String.eqb old t then (s', [])
                    else ({| s' with subscribed_tier_ := sm_set id t (sm_erase id (subscribed_tier_ s)) |}, [EvUnsubscribe sid id old; EvForget sid id; EvSubscribe sid id t])
      | None => ({| s' with subscribed_tier_ := sm_set id t (subscribed_tier_ s) |}, [EvSubscribe sid id t])
      end
    end
  end.
Lemma acts_ext sid m (f g : Act) : acts sid m f -> (forall s, f s = g s) -> acts sid m g.
Proof. intros Hm E w s Hs. rewrite <- E. by apply Hm. Qed.
(** Running a program a step at a time. *)
Definition ends (sid : string) (s' : Session D) (t : list Event) (r : World D * result unit) : Prop :=
  exists w', r = (w', Ok tt) /\ sm_find sid (sessions w') = Some s' /\ trace w' = t.
Lemma run_bind sid (m k : M D unit) f w s s' t : acts sid m f -> sm_find sid (sessions w) = Some s ->
  (forall w1, sm_find sid (sessions w1) = Some (f s).1 -> trace w1 = trace w ++ (f s).2 -> ends sid s' t (k w1)) -> ends sid s' t ((m ;; k) w).
Proof. intros Hm Hs Hk. destruct (Hm w s Hs) as (w1 & E & F & T). unfold bind. rewrite E. by apply Hk. Qed.
Lemma run_last sid (m : M D unit) f w s : acts sid m f -> sm_find sid (sessions w) = Some s -> ends sid (f s).1 (trace w ++ (f s).2) (m w).
Proof. intros Hm Hs. destruct (Hm w s Hs) as (w1 & E & F & T). by exists w1. Qed.
Definition on_consumer (f : Consumer -> Consumer) (s : Session D) : Session D :=
  match consumer_ s with Some c => {| s with consumer_ := Some (f c) |} | None => s end.
Lemma acts_consumer sid f : acts sid (upd_consumer sid f) (fun s => (on_consumer f s, [])).
Proof. apply acts_upd. Qed.
Lemma on_consumer_some f s c : consumer_ s = Some c -> on_consumer f s = {| s with consumer_ := Some (f c) |}.
Proof. unfold on_consumer. by intros ->. Qed.
(** A consumer of a session known to have one is written out. *)
Ltac act_of :=
  lazymatch goal with
  | |- acts _ (upd_consumer _ _) _ => apply acts_consumer
  | |- acts _ (upd _ _) _ => apply acts_upd
  | |- acts _ (emit _) _ => apply acts_emit
  | |- acts _ (ret _) _ => apply acts_ret
  | |- acts _ (bind _ _) _ => eapply acts_bind; [act_of | act_of]
  end.
Ltac run_step :=
  lazymatch goal with
  | H : sm_find ?sid (sessions ?w) = Some _ |- ends ?sid _ _ (_ ?w) =>
    eapply run_bind; [act_of | exact H|]; clear H; cbn beta; let w1 := fresh "w" in let F := fresh "F" in let T := fresh "T" in intros w1 F T;
             cbn [fst snd] in F, T; unfold andthen, nothing in F, T; try (erewrite on_consumer_some in F by (cbn; eassumption || reflexivity)); cbn in F; cbn in T; rewrite ?app_nil_r in T
  end.
Lemma ends_eq sid s1 s2 t1 t2 r : ends sid s1 t1 r -> s1 = s2 -> t1 = t2 -> ends sid s2 t2 r.
Proof. by intros H <- <-. Qed.
Ltac run_end :=
  lazymatch goal with
  | H : sm_find ?sid (sessions ?w) = Some _ |- ends ?sid _ _ (_ ?w) =>
    eapply ends_eq; [eapply run_last; [act_of | exact H] | cbn; try reflexivity | cbn; repeat match goal with T : trace ?w = _ |- context [trace ?w] => rewrite T end; rewrite <- ?app_assoc; cbn; try reflexivity]
  end.
Lemma demand_acts sid id d : acts sid (apply_demand sid id true d) (demand sid id d).
Proof.
  intros w s Hs. change (ends sid (demand sid id d s).1 (trace w ++ (demand sid id d s).2) (apply_demand sid id true d w)).
  unfold apply_demand. rewrite (with_some _ _ _ _ Hs). unfold demand.
  destruct (consumer_ s) as [c|] eqn:Ec; [|by apply (run_last _ _ _ _ _ (acts_ret sid))].
  destruct (track id c) as [ct|] eqn:Et; [|by apply (run_last _ _ _ _ _ (acts_ret sid))]. cbn [negb].
  generalize (set_demanded d (policy_of id s)). intros p.
  run_step. run_step. destruct (silent_media_ s) eqn:Em;
    (destruct (sm_find id (subscribed_tier_ s)) as [old|] eqn:Eo; [destruct (String.eqb_spec old (effective_ p)) as [->|Hne]|]); cbn [negb when];
    repeat run_step; run_end.
Qed.

(** One track's turn. *)
Definition turn (sid : string) (estimate sum : dbl) (ev : Evidence) (id : string) : Act := fun s =>
  match consumer_ s with
  | None => (s, [])
  | Some c =>
    match track id c with
    | None => (s, [])
    | Some ct =>
      let share := (estimate * target_of ct / sum)%dbl in
      let '(policy, changed) := TierPolicy.update (judged estimate sum share ct) (bps_of (plane_band id "active").1) (plane_thumbnail id) ev now (policy_of id s) in
      let s' := {| s with tier_policy_ := sm_set id policy (tier_policy_ s) |} in
      let '(s2, evs) := match changed with Some _ => demand sid id (demanded_tier ct) s' | None => (s', []) end in
      (s2, EvAllot sid id (tier ct) share :: evs)
    end
  end.
Lemma let_pair {A B} (p : A * list B) e : (let '(a, b) := p in (a, e :: b)) = (p.1, e :: p.2).
Proof. by destruct p. Qed.
Lemma turn_acts sid est sum ev id : acts sid (rate_track sid est sum ev id) (turn sid est sum ev id).
Proof.
  intros w s Hs. change (ends sid (turn sid est sum ev id s).1 (trace w ++ (turn sid est sum ev id s).2) (rate_track sid est sum ev id w)).
  unfold rate_track. rewrite (with_some _ _ _ _ Hs). unfold turn. destruct (consumer_ s) as [c|] eqn:Ec; [|by apply (run_last _ _ _ _ _ (acts_ret sid))].
  destruct (track id c) as [ct|] eqn:Et; [|by apply (run_last _ _ _ _ _ (acts_ret sid))]. destruct (TierPolicy.update _ _ _ _ _ _) as [policy changed].
  run_step. run_step. rewrite ?Ec in F. destruct changed; cbn [when].
  - eapply ends_eq; [eapply run_last; [apply demand_acts | exact F] | |].
    + rewrite let_pair. reflexivity.
    + rewrite let_pair, T0, T, <- app_assoc. reflexivity.
  - run_end.
Qed.
Definition turns (sid : string) (estimate sum : dbl) (ev : Evidence) (ids : list string) : Act :=
  foldr (fun id g => andthen (turn sid estimate sum ev id) g) nothing ids.
Lemma turns_acts sid est sum ev ids : acts sid (for_each ids (rate_track sid est sum ev)) (turns sid est sum ev ids).
Proof. apply acts_for_each. intros id. apply turn_acts. Qed.

(** ** The peer is subscribed to what its policies say *)
Definition branch (id : string) (s : Session D) : option ConsumerTrack := c ← consumer_ s; track id c.
Definition tiers_agree (s : Session D) : Prop := forall id t, sm_find id (subscribed_tier_ s) = Some t ->
  t = effective_ (policy_of id s) /\ exists ct, branch id s = Some ct /\ tier ct = t /\ demanded_tier ct = demanded_ (policy_of id s).
(** What a turn leaves of the other tracks, and of the peer's own. *)
Record kept (id : string) (s s' : Session D) : Prop := {
  kp_others : forall k, k <> id -> branch k s' = branch k s /\ sm_find k (subscribed_tier_ s') = sm_find k (subscribed_tier_ s) /\ policy_of k s' = policy_of k s;
  kp_sub : sm_count id (subscribed_tier_ s) = true -> sm_count id (subscribed_tier_ s') = true;
  kp_tracks : tracks_ s' = tracks_ s;
  kp_estimator : estimator_ s' = estimator_ s
}.
Lemma policy_set id k p s : policy_of k {| s with tier_policy_ := sm_set id p (tier_policy_ s) |} = if decide (k = id) then p else policy_of (D := D) k s.
Proof. unfold policy_of. cbn. case_decide as E; [subst; by rewrite sm_find_set_eq | by rewrite sm_find_set_ne]. Qed.
Lemma track_tiers id t d c k : track k (set_tiers id t d c) = if decide (k = id) then (fun ct => {| ct with tier := t; demanded_tier := d |}) <$> track id c else track k c.
Proof.
  unfold set_tiers, track. destruct (sm_find id (c_tracks c)) as [ct|] eqn:E; case_decide as Ek; subst; cbn; rewrite ?E; [by rewrite sm_find_set_eq | by rewrite sm_find_set_ne | done | done].
Qed.
Lemma track_enable id c k : exists f, (forall ct : ConsumerTrack, tier (f ct) = tier ct /\ demanded_tier (f ct) = demanded_tier ct) /\
  track k (set_enabled id true c) = if decide (k = id) then f <$> track id c else track k c.
Proof.
  unfold set_enabled, track. destruct (sm_find id (c_tracks c)) as [ct|] eqn:E.
  - destruct (has_branch ct) eqn:Eb.
    + exists (fun ct => apply_valve {| ct with enabled := true |}). split; [intros ct'; unfold apply_valve; by repeat case_match|]. cbn [c_tracks]. case_decide as Ek; subst; [by rewrite sm_find_set_eq; cbn; rewrite Eb | by rewrite sm_find_set_ne].
    + exists (fun ct => ct). split; [done|]. case_decide; subst; [by rewrite E | done].
  - exists (fun ct => ct). split; [done|]. case_decide; subst; [by rewrite E | done].
Qed.
Lemma branch_consumer c k s : branch k {| s with consumer_ := Some c |} = track k c.
Proof. done. Qed.
(** A demand for a subscribed track leaves it subscribed, sent and recorded in the tier its policy says. *)
Lemma demand_kept sid id d s s' evs : demand sid id d s = (s', evs) -> kept id s s'.
Proof.
  unfold demand. destruct (consumer_ s) as [c|] eqn:Ec; [|by intros [= <- <-]]. destruct (track id c) as [ct|] eqn:Et; [|by intros [= <- <-]].
  set (p := set_demanded d (policy_of id s)). set (c2 := set_tiers id (effective_ p) d _).
  assert (forall k, k <> id -> track k (if silent_media_ s then c2 else set_enabled id true c2) = track k c) as Hk.
  { intros k Hk. assert (track k c2 = track k c) as E by (unfold c2; by rewrite !track_tiers, !decide_False). destruct (silent_media_ s); [done|].
    destruct (track_enable id c2 k) as (f & _ & ->). by rewrite decide_False. }
  assert (forall s2 : Session D, consumer_ s2 = Some (if silent_media_ s then c2 else set_enabled id true c2) -> tier_policy_ s2 = sm_set id p (tier_policy_ s) -> forall k, k <> id ->
    branch k s2 = branch k s /\ policy_of k s2 = policy_of k s) as Hs2.
  { intros s2 E1 E2 k Hne. unfold branch, policy_of. rewrite E1, E2, Ec. cbn. by rewrite Hk, sm_find_set_ne. }
  destruct (sm_find id (subscribed_tier_ s)) as [old|] eqn:Eo; [destruct (String.eqb_spec old (effective_ p)) as [->|Hne]|]; intros [= <- <-]; split; try done.
  all: try (intros k Hne2; lazymatch goal with |- branch k ?s2 = _ /\ _ => destruct (Hs2 s2 eq_refl eq_refl k Hne2) as [H1 H2] end;
            split_and!; [exact H1 | cbn; rewrite ?sm_find_set_ne, ?sm_find_erase_ne by done; done | exact H2]).
  all: intros _; unfold sm_count; cbn; by rewrite ?sm_find_set_eq, ?Eo.
Qed.
Lemma demand_agrees sid id d s s' evs ct : branch id s = Some ct -> demand sid id d s = (s', evs) ->
  sm_find id (subscribed_tier_ s') = Some (effective_ (policy_of id s')) /\ demanded_ (policy_of id s') = d
  /\ exists ct', branch id s' = Some ct' /\ tier ct' = effective_ (policy_of id s') /\ demanded_tier ct' = d.
Proof.
  intros Hb. unfold demand. unfold branch in Hb. destruct (consumer_ s) as [c|] eqn:Ec; [|done]. cbn in Hb. destruct (track id c) as [ct0|] eqn:Et; [|done]. clear Hb.
  pose proof (demanded_set d (policy_of id s)) as Hd.
  set (p := set_demanded d (policy_of id s)) in *. set (c2 := set_tiers id (effective_ p) d _).
  assert (exists ct', track id (if silent_media_ s then c2 else set_enabled id true c2) = Some ct' /\ tier ct' = effective_ p /\ demanded_tier ct' = d) as (ct' & Hct & H1 & H2).
  { assert (exists ct', track id c2 = Some ct' /\ tier ct' = effective_ p /\ demanded_tier ct' = d) as (x & Hx & H1 & H2).
    { unfold c2. rewrite track_tiers, decide_True, track_tiers, decide_True, Et by done. cbn. by eexists. }
    destruct (silent_media_ s); [by exists x|]. destruct (track_enable id c2 id) as (f & Hf & ->). rewrite decide_True, Hx by done. cbn. exists (f x).
    destruct (Hf x) as [-> ->]. done. }
  assert (forall s2 : Session D, consumer_ s2 = Some (if silent_media_ s then c2 else set_enabled id true c2) -> tier_policy_ s2 = sm_set id p (tier_policy_ s) ->
    sm_find id (subscribed_tier_ s2) = Some (effective_ p) -> sm_find id (subscribed_tier_ s2) = Some (effective_ (policy_of id s2)) /\ demanded_ (policy_of id s2) = d
    /\ exists ct', branch id s2 = Some ct' /\ tier ct' = effective_ (policy_of id s2) /\ demanded_tier ct' = d) as Hs2.
  { intros s2 E1 E2 E3. assert (policy_of id s2 = p) as -> by (unfold policy_of; by rewrite E2, sm_find_set_eq). split_and!; [done | done|].
    exists ct'. unfold branch. rewrite E1. done. }
  destruct (sm_find id (subscribed_tier_ s)) as [old|] eqn:Eo; [destruct (String.eqb_spec old (effective_ p)) as [->|Hne]|]; intros [= <- <-]; (apply Hs2; [done | done|]); cbn;
    by rewrite ?sm_find_set_eq.
Qed.
Lemma demand_no_allot sid id d s s' evs : demand sid id d s = (s', evs) -> List.filter is_allot evs = [].
Proof. unfold demand. repeat case_match; by intros [= <- <-]. Qed.
(** A tick changes a policy's tier only when it says so, and never its demand. *)
Lemma update_effective a l lo ev t p p' ch : TierPolicy.update a l lo ev t p = (p', ch) -> demanded_ p' = demanded_ p /\ (ch = None -> effective_ p' = effective_ p).
Proof.
  intros Hu. pose proof (update_cases {| tk_allot := a; tk_low := l; tk_lower := lo; tk_ev := ev; tk_now := t |} p) as H. cbn in H. rewrite Hu in H.
  decompose [and or] H; by simplify_eq.
Qed.
Definition share_of (est sum : dbl) (ct : ConsumerTrack) : dbl := (est * target_of ct / sum)%dbl.
Definition judge (est sum : dbl) (ev : Evidence) (id : string) (ct : ConsumerTrack) (p : TierPolicy) : TierPolicy * option string :=
  TierPolicy.update (judged est sum (share_of est sum ct) ct) (bps_of (plane_band id "active").1) (plane_thumbnail id) ev now p.
Definition judged_session (id : string) (p : TierPolicy) (s : Session D) : Session D := {| s with tier_policy_ := sm_set id p (tier_policy_ s) |}.
Lemma turn_some sid est sum ev id s ct : branch id s = Some ct -> turn sid est sum ev id s =
  let '(p, changed) := judge est sum ev id ct (policy_of id s) in
  let '(s2, evs) := match changed with Some _ => demand sid id (demanded_tier ct) (judged_session id p s) | None => (judged_session id p s, []) end in
  (s2, EvAllot sid id (tier ct) (share_of est sum ct) :: evs).
Proof. unfold branch, turn. destruct (consumer_ s) as [c|] eqn:Ec; [|done]. intros Hb. change (track id c = Some ct) in Hb. rewrite Hb. unfold judged_session. rewrite Ec. reflexivity. Qed.
Lemma turn_none sid est sum ev id s : branch id s = None -> turn sid est sum ev id s = (s, []).
Proof. unfold branch, turn. destruct (consumer_ s) as [c|]; [|done]. cbn. by intros ->. Qed.
Lemma judged_kept id p s : kept id s (judged_session id p s).
Proof. split; [|done..]. intros k Hk. split_and!; [done | done|]. unfold policy_of. cbn. by rewrite sm_find_set_ne. Qed.
#[global] Instance kept_preorder id : PreOrder (kept id).
Proof.
  split; [done|]. intros a b c [A1 A2 A3 A4] [B1 B2 B3 B4]. split; [|auto|congruence|congruence]. intros k Hk. destruct (A1 k Hk) as (? & ? & ?), (B1 k Hk) as (? & ? & ?). split_and!; congruence.
Qed.
(** The turn of a track the peer is sent. *)
Lemma turn_spec sid est sum ev id s ct s' evs : branch id s = Some ct -> turn sid est sum ev id s = (s', evs) ->
  kept id s s' /\ List.filter is_allot evs = [EvAllot sid id (tier ct) (share_of est sum ct)] /\ (tiers_agree s -> tiers_agree s').
Proof.
  intros Hb Ht. rewrite (turn_some _ _ _ _ _ _ _ Hb) in Ht. destruct (judge est sum ev id ct (policy_of id s)) as [p changed] eqn:Ej.
  destruct (update_effective _ _ _ _ _ _ _ _ Ej) as [Hdem Heff]. pose proof (judged_kept id p s) as K1.
  destruct changed as [t|].
  - destruct (demand sid id (demanded_tier ct) (judged_session id p s)) as [s2 evs2] eqn:Ed. injection Ht as <- <-.
    pose proof (demand_kept _ _ _ _ _ _ Ed) as K2. assert (kept id s s2) as K by by etrans. split_and!; [done | cbn; by rewrite (demand_no_allot _ _ _ _ _ _ Ed) |].
    intros Ha k t' Hk. destruct (decide (k = id)) as [->|Hne].
    + destruct (demand_agrees sid id (demanded_tier ct) (judged_session id p s) s2 evs2 ct Hb Ed) as (E1 & E2 & ct' & E3 & E4 & E5). rewrite E1 in Hk. injection Hk as <-.
      split; [done|]. exists ct'. by rewrite E2, E5.
    + destruct (kp_others _ _ _ K k Hne) as (E1 & E2 & E3). rewrite E1, E3. rewrite E2 in Hk. by apply Ha.
  - injection Ht as <- <-. split_and!; [done | done|]. intros Ha k t' Hk. destruct (decide (k = id)) as [->|Hne].
    + destruct (Ha id t' Hk) as (E1 & ct' & E2 & E3 & E4). assert (policy_of id (judged_session id p s) = p) as -> by (unfold policy_of; cbn; by rewrite sm_find_set_eq).
      rewrite Hdem, Heff by done. split; [done|]. by exists ct'.
    + destruct (kp_others _ _ _ K1 k Hne) as (E1 & E2 & E3). rewrite E1, E3. rewrite E2 in Hk. by apply Ha.
Qed.

(** ** A tick *)
Definition report (sid : string) (est sum : dbl) (s : Session D) (id : string) : list Event :=
  match branch id s with Some ct => [EvAllot sid id (tier ct) (share_of est sum ct)] | None => [] end.
Lemma report_same sid est sum s s' id ids : kept id s s' -> ~ In id ids -> flat_map (report sid est sum s') ids = flat_map (report sid est sum s) ids.
Proof.
  intros Hk Hid. induction ids as [|k ids IH]; [done|]. cbn. rewrite IH by (contradict Hid; by right). f_equal. unfold report.
  by destruct (kp_others _ _ _ Hk k) as (-> & _); [contradict Hid; by left|].
Qed.
Lemma turns_cons sid est sum ev id ids s : turns sid est sum ev (id :: ids) s =
  let '(s1, e1) := turn sid est sum ev id s in let '(s2, e2) := turns sid est sum ev ids s1 in (s2, e1 ++ e2).
Proof. reflexivity. Qed.
Lemma turns_spec sid est sum ev ids : forall s s' evs, NoDup ids -> turns sid est sum ev ids s = (s', evs) ->
  List.filter is_allot evs = flat_map (report sid est sum s) ids /\ (tiers_agree s -> tiers_agree s') /\ estimator_ s' = estimator_ s
  /\ forall k, sm_count k (subscribed_tier_ s) = true -> sm_count k (subscribed_tier_ s') = true.
Proof.
  induction ids as [|id ids IH]; intros s s' evs Hnd; [cbn; unfold nothing; by intros [= <- <-]|]. apply NoDup_cons in Hnd as [Hid Hnd]. rewrite list_elem_of_In in Hid.
  rewrite turns_cons. destruct (turn sid est sum ev id s) as [s1 e1] eqn:Et.
  destruct (turns sid est sum ev ids s1) as [s2 e2] eqn:Ets. intros [= <- <-]. destruct (IH _ _ _ Hnd Ets) as (H1 & H2 & H3 & H4).
  assert (kept id s s1 /\ List.filter is_allot e1 = report sid est sum s id /\ (tiers_agree s -> tiers_agree s1)) as (K & R & A).
  { unfold report. destruct (branch id s) as [ct|] eqn:Eb; [by eapply turn_spec|]. rewrite (turn_none _ _ _ _ _ _ Eb) in Et. injection Et as <- <-. done. }
  rewrite List.filter_app, R, H1. cbn. rewrite (report_same _ _ _ _ _ _ _ K Hid). split_and!; [done | auto | rewrite H3; apply K|].
  intros k Hk. apply H4. destruct (decide (k = id)) as [->|Hne]; [by apply K|]. unfold sm_count. by destruct (kp_others _ _ _ K k Hne) as (_ & -> & _).
Qed.

Lemma nodup_filter {A} (f : A -> bool) l : NoDup l -> NoDup (List.filter f l).
Proof.
  induction 1 as [|x l Hx Hl IH]; cbn; [constructor|]. destruct (f x); [|done]. constructor; [|done]. rewrite list_elem_of_In, filter_In, <- list_elem_of_In. by intros [? _].
Qed.
Lemma sending_nodup (s : Session D) c : sm_wf (tracks_ s) -> NoDup (sending s c).
Proof. intros Hw. by apply nodup_filter, sm_wf_nodup. Qed.
Lemma limited_within sum (s : Session D) : limits_ok (rate_limits sum) -> (forall e, estimator_ s = Some e -> is_nan (estimate_ e) = false) ->
  limits_ (limited sum s) = rate_limits sum /\ within (rate_limits sum) (estimate_ (limited sum s)).
Proof.
  intros Hl He. unfold limited. destruct (estimator_ s) as [e|]; (split; [done|]); apply clamp_within; try done; [by apply He|].
  destruct Hl as [Hf Hc _]. unfold rate_limits in Hc. cbn [ceiling_bps] in Hc. assert (is_nan sum = false) as Hn by (by destruct sum).
  unfold dmax. destruct (sum <? _)%dbl; [|done]. by apply positive_num.
Qed.
(** C22: One tick of the rate control of a connected peer. The tick returns. The estimate it leaves
    lies between the configured floor and the ceiling its tracks give. Every track the peer is sent
    gets exactly one share of it, reported to the media plane in the order of the tracks, in
    the tier the track is sent in and in proportion to what that tier aims for; nothing is
    reported when the peer is sent nothing. And the tick loses no stream: the peer stays subscribed
    to every track it was subscribed to, in the tier that the track's policy says and the
    pipeline's branch records. *)
Theorem rate_tick_shares sid w s c : sm_find sid (sessions w) = Some s -> consumer_ s = Some c -> s_state s = Connected -> sm_wf (tracks_ s) -> tiers_agree s ->
  limits_ok (rate_limits (sum_targets c (sending s c))) -> (forall e, estimator_ s = Some e -> is_nan (estimate_ e) = false) ->
  exists w' s' est evs, returns (rate_tick sid) w w' /\ sm_find sid (sessions w') = Some s' /\ trace w' = trace w ++ evs
  /\ estimator_ s' = Some est /\ within (rate_limits (sum_targets c (sending s c))) (estimate_ est)
  /\ List.filter is_allot evs = (if (sum_targets c (sending s c) <=? d0)%dbl then [] else flat_map (report sid (estimate_ est) (sum_targets c (sending s c)) s) (sending s c))
  /\ tiers_agree s' /\ forall k, sm_count k (subscribed_tier_ s) = true -> sm_count k (subscribed_tier_ s') = true.
Proof.
  intros Hs Hc Hst Hwf Ha Hl Hn. set (ids := sending s c) in *. set (sum := sum_targets c ids) in *.
  destruct (limited_within sum s Hl Hn) as [L1 L2]. rewrite <- L1 in Hl, L2.
  destruct (update_within (window sid s) now (limited sum s) Hl L2) as [_ Hw]. rewrite L1 in Hw.
  set (est := RateEstimator.update (window sid s) now (limited sum s)) in *.
  set (s1 := {| s with estimator_ := Some est; last_twcc_ := twcc_sample sid |}).
  assert (tiers_agree s1) as Ha1 by exact Ha.
  destruct (acts_upd sid (fun s => {| s with estimator_ := Some est; last_twcc_ := twcc_sample sid |}) w s Hs) as (w1 & E1 & F1 & T1). cbn [fst snd] in F1, T1. rewrite app_nil_r in T1.
  unfold returns, rate_tick. rewrite (with_some _ _ _ _ Hs), Hc, bool_decide_true by done. cbn [when]. fold ids sum est. unfold bind. rewrite E1.
  assert (forall id, report sid (estimate_ est) sum s1 id = report sid (estimate_ est) sum s id) as Hr by done.
  destruct (turns_acts sid (estimate_ est) sum (evidence (window sid s) (estimate_ est)) ids w1 s1 F1) as (w2 & E2 & F2 & T2).
  destruct (turns _ _ _ _ ids s1) as [s2 evs] eqn:Et. cbn [fst snd] in F2, T2.
  destruct (turns_spec _ _ _ _ ids s1 s2 evs (sending_nodup s c Hwf) Et) as (H1 & H2 & H3 & H4).
  destruct (sum <=? d0)%dbl eqn:Ed; [cbn [negb]; rewrite andb_false_r; exists w1, s1, est, []; rewrite app_nil_r; by split_and!|].
  exists w2, s2, est, evs. rewrite T1 in T2. rewrite (flat_map_ext _ _ Hr) in H1. split_and!; try done; [|by auto].
  destruct ids as [|id ids']; [|cbn [negb andb when]; by rewrite E2]. cbn. cbn in E2. unfold ret in *. by injection E2 as ->.
Qed.
End RateProofs.

Section RateWitness.
Import Demo.
#[local] Instance quiet_env : Ambient := ambient (fun _ _ => ([], None)).
Definition camera : ConsumerTrack := {|
  ct_id := "cam"; ct_cap := "acme.view"; ct_kind := Video; ct_label := "Camera"; ct_monitor := None; ct_pt := 96; ct_ssrc := 7; ct_mid := "video0"; mline := 0;
  enabled := true; negotiated := true; rejected := false; tier := "active"; demanded_tier := "active"; pooled := false; next_seqnum := None; has_branch := true; valve_drop := false |}.
Definition streaming : Session unit :=
  {| live with consumer_ := Some {| new_consumer with c_tracks := [("cam"%string, camera)] |};
     tracks_ := [("cam"%string, ("acme.view"%string, {| spec_id := "cam"; spec_label := "Camera"; spec_kind := Video; spec_source := None; spec_monitor := None |}))];
     subscribed_tier_ := [("cam"%string, "active"%string)] |}.
Lemma rate_tick_shares_witness : exists w' s' est evs, returns (rate_tick "s1") (world_of streaming) w' /\ sm_find "s1" (sessions w') = Some s'
  /\ trace w' = evs /\ estimator_ s' = Some est /\ exists share, List.filter is_allot evs = [EvAllot "s1" "cam" "active" share] /\ sm_count "cam" (subscribed_tier_ s') = true.
Proof.
  destruct (rate_tick_shares (D := unit) "s1" (world_of streaming) streaming {| new_consumer with c_tracks := [("cam"%string, camera)] |})
    as (w' & s' & est & evs & R & F & T & E & _ & L & _ & K); try reflexivity.
  - repeat constructor.
  - intros id t H. cbn in H. destruct (keqb id "cam") eqn:Ek; [|discriminate H]. destruct (keqb_spec id "cam") as [->|]; [|discriminate Ek]. injection H as <-.
    split; [reflexivity|]. exists camera. repeat split.
  - split; by vm_compute.
  - intros e [=].
  - exists w', s', est, evs. split; [exact R|]. split; [exact F|]. split; [exact T|]. split; [exact E|]. eexists. split; [|exact (K "cam"%string eq_refl)].
    rewrite L. reflexivity.
Defined.
End RateWitness.
