(* ===== verification/FrameHub.v ===== *)
(** * FrameHub: encoded frames from producers to sessions (media/frame_hub.cpp)

    Producers push under [mutex_] and then queue under [queue_mutex_]; a subscriber enters under
    the first and queues its catch-up under the second; one delivery thread pops, picks its
    targets, pushes and books the results. Each critical section is one function here, and the
    public operations compose them. A sink is a number; [live] says which [weak_ptr]s still
    lock. Then: without an overrun every viewer gets a stream it can decode; and the two ways
    the code loses a frame without resynchronising the viewer. *)

From Stdlib Require Import ZArith Lia String.
From stdpp Require Import base list strings.
From S2P Require Import Prelude StdMap.

Definition HubKey : Type := string * string. (* track_id, tier *)
#[global] Instance HubKey_eq_dec : EqDecision HubKey.
Proof. solve_decision. Defined.

(** [GST_CLOCK_TIME_NONE] is [None]. *)
Record Buffer := { b_pts : option Z; b_dts : option Z; delta_unit : bool }.
Abbreviation Sample := (option Buffer). (* a GstSample may have no buffer *)
Definition is_keyframe (s : Sample) : bool := match s with Some b => negb (delta_unit b) | None => false end.

Record Sub := {
  sub_sink : nat; delivered : Z; sub_dropped : Z; waiting_keyframe : bool;
  base_pts : option Z; base_dts : option Z; last_seq : Z
}.
Record RingItem := { ri_sample : Sample; ri_seq : Z; ri_key : bool }.
Record Entry := {
  ring : list RingItem; retained_keyframe : option Sample; subs : list Sub;
  st_frames : Z; st_keyframes : Z; st_ring : Z; has_keyframe : bool; st_subscribers : Z
}.
Record Work := { w_key : HubKey; w_sample : Sample; w_kf : bool; w_seq : Z; w_only : option nat }.
Record FrameHub := { ring_size_ : Z; entries_ : list (HubKey * Entry); next_seq_ : Z; queue_ : list Work }.

Definition new_entry : Entry := {| ring := []; retained_keyframe := None; subs := []; st_frames := 0; st_keyframes := 0; st_ring := 0; has_keyframe := false; st_subscribers := 0 |}.
Definition new_hub (n : Z) : FrameHub := {| ring_size_ := n; entries_ := []; next_seq_ := 1; queue_ := [] |}.
Definition new_sub (sink : nat) : Sub :=
  {| sub_sink := sink; delivered := 0; sub_dropped := 0; waiting_keyframe := true; base_pts := None; base_dts := None; last_seq := 0 |}.

(** [entries_[key]]. *)
Definition entry (k : HubKey) (h : FrameHub) : Entry := default new_entry (sm_find k (entries_ h)).
Definition set_entry (k : HubKey) (e : Entry) (h : FrameHub) : FrameHub := {| h with entries_ := sm_set k e (entries_ h) |}.

(** ** Pushing *)
Definition trim (n : Z) (l : list RingItem) : list RingItem := drop (Z.to_nat (zlen l - n)) l.
(** Under [mutex_]: the frame enters the ring and gets its number. *)
Definition push_entry (k : HubKey) (s : Sample) (h : FrameHub) : FrameHub * Work :=
  let e := entry k h in
  let kf := is_keyframe s in
  let seq := next_seq_ h in
  let e := {| e with st_frames := st_frames e + 1 |} in
  let e := if kf then {| e with st_keyframes := st_keyframes e + 1; retained_keyframe := Some s; has_keyframe := true; ring := [] |} else e in
  let r := trim (ring_size_ h) (ring e ++ [{| ri_sample := s; ri_seq := seq; ri_key := kf |}]) in
  let e := {| e with ring := r; st_ring := zlen r |} in
  ({| (set_entry k e h) with next_seq_ := seq + 1 |}, {| w_key := k; w_sample := s; w_kf := kf; w_seq := seq; w_only := None |}).
(** Under [queue_mutex_]. *)
Definition push_queue (w : Work) (h : FrameHub) : FrameHub := {| h with queue_ := queue_ h ++ [w] |}.
Definition push (k : HubKey) (s : Sample) (h : FrameHub) : FrameHub := let '(h', w) := push_entry k s h in push_queue w h'.

(** ** The delivery thread *)
Fixpoint skip_to_keyframe (q : list Work) : list Work :=
  match q with [] => [] | w :: q' => if w_kf w then q else skip_to_keyframe q' end.
(** One turn of [thread_main] up to the delivery; [None] while there is nothing to do. *)
Definition pop (h : FrameHub) : option (Work * FrameHub) :=
  match queue_ h with
  | [] => None
  | w :: q => Some (w, {| h with queue_ := if ring_size_ h <? zlen q then skip_to_keyframe q else q |})
  end.

Definition rebase (base t : option Z) : option Z :=
  match t, base with
  | Some t, Some b => Some (if b <=? t then t - b else 0)
  | _, _ => t
  end.
(** What [deliver] does to one subscriber, and the buffer it is to get. *)
Definition offer (live : nat -> bool) (w : Work) (src : Buffer) (s : Sub) : Sub * option (nat * Buffer) :=
  if negb (live (sub_sink s)) then (s, None)
  else if match w_only w with Some o => negb (Nat.eqb (sub_sink s) o) | None => false end then (s, None)
  else if w_seq w <=? last_seq s then (s, None)
  else if waiting_keyframe s && negb (w_kf w) then ({| s with sub_dropped := sub_dropped s + 1 |}, None)
  else
    let s1 :=
      if waiting_keyframe s then
        match base_pts s with
        | None => {| s with waiting_keyframe := false; base_pts := b_pts src; base_dts := match b_dts src with Some d => Some d | None => b_pts src end |}
        | Some _ => {| s with waiting_keyframe := false |}
        end
      else s in
    let s2 := {| s1 with last_seq := w_seq w |} in
    (s2, Some (sub_sink s, {| src with b_pts := rebase (base_pts s2) (b_pts src); b_dts := rebase (base_dts s2) (b_dts src) |})).
Definition omap_snd {A B} (l : list (A * option B)) : list B := omap snd l.
(** Under [mutex_]: the targets of one piece of work. *)
Definition deliver_targets (live : nat -> bool) (w : Work) (h : FrameHub) : FrameHub * list (nat * Buffer) :=
  match w_sample w, sm_find (w_key w) (entries_ h) with
  | Some src, Some e =>
    let r := map (offer live w src) (subs e) in
    (set_entry (w_key w) {| e with subs := map fst r |} h, omap_snd r)
  | _, _ => (h, [])
  end.
(** Under [mutex_] again, after one sink took its buffer or not: by identity, the first match. *)
Fixpoint book (live : nat -> bool) (sink : nat) (ok : bool) (l : list Sub) : list Sub :=
  match l with
  | [] => []
  | s :: l' =>
    if live (sub_sink s) && Nat.eqb (sub_sink s) sink then
      (if ok then {| s with delivered := delivered s + 1 |} else {| s with sub_dropped := sub_dropped s + 1; waiting_keyframe := true |}) :: l'
    else s :: book live sink ok l'
  end.
Definition deliver_result (live : nat -> bool) (k : HubKey) (sink : nat) (ok : bool) (h : FrameHub) : FrameHub :=
  match sm_find k (entries_ h) with Some e => set_entry k {| e with subs := book live sink ok (subs e) |} h | None => h end.
(** The whole of [deliver] when nothing interleaves; [accepts] is what each sink's push returns. *)
Definition deliver (live : nat -> bool) (accepts : nat -> bool) (w : Work) (h : FrameHub) : FrameHub * list (nat * Buffer) :=
  let '(h1, targets) := deliver_targets live w h in
  (foldl (fun h t => deliver_result live (w_key w) t.1 (accepts t.1) h) h1 targets, targets).

(** ** Subscribing *)
(** Under [mutex_]; the catch-up is the current group of pictures, if the ring still has its start. *)
Definition subscribe_enter (live : nat -> bool) (k : HubKey) (sink : nat) (h : FrameHub) : FrameHub * list Work * Z :=
  let e := entry k h in
  let l := List.filter (fun s => live (sub_sink s)) (subs e) ++ [new_sub sink] in
  let e := {| e with subs := l; st_subscribers := zlen l |} in
  let catch_up := match ring e with
                  | it :: _ => if ri_key it then map (fun i => {| w_key := k; w_sample := ri_sample i; w_kf := ri_key i; w_seq := ri_seq i; w_only := Some sink |}) (ring e) else []
                  | [] => []
                  end in
  (set_entry k e h, catch_up, zlen l).
(** Under [queue_mutex_]: ahead of everything that waits. *)
Definition subscribe_queue (catch_up : list Work) (h : FrameHub) : FrameHub := {| h with queue_ := catch_up ++ queue_ h |}.
(** The demand hook fires on the first subscriber, the keyframe hook always. *)
Inductive HubCall := DemandChanged (k : HubKey) (n : Z) | KeyframeRequest (k : HubKey).
Definition subscribe (live : nat -> bool) (k : HubKey) (sink : nat) (h : FrameHub) : FrameHub * list HubCall :=
  let '(h1, catch_up, n) := subscribe_enter live k sink h in
  (subscribe_queue catch_up h1, (if n =? 1 then [DemandChanged k n] else []) ++ [KeyframeRequest k]).
Definition unsubscribe (live : nat -> bool) (k : HubKey) (sink : nat) (h : FrameHub) : FrameHub * list HubCall :=
  match sm_find k (entries_ h) with
  | None => (h, [])
  | Some e =>
    let l := List.filter (fun s => negb (negb (live (sub_sink s)) || Nat.eqb (sub_sink s) sink)) (subs e) in
    (set_entry k {| e with subs := l; st_subscribers := zlen l |} h, if zlen l =? 0 then [DemandChanged k 0] else [])
  end.
Definition wait_for_keyframe (s : Sub) : Sub := {| s with waiting_keyframe := true |}.
Definition resync (live : nat -> bool) (k : HubKey) (sink : nat) (h : FrameHub) : FrameHub * list HubCall :=
  match sm_find k (entries_ h) with
  | None => (h, [])
  | Some e =>
    (set_entry k {| e with subs := map (fun s => if live (sub_sink s) && Nat.eqb (sub_sink s) sink then wait_for_keyframe s else s) (subs e) |} h, [KeyframeRequest k])
  end.
Definition clear (k : HubKey) (h : FrameHub) : FrameHub :=
  match sm_find k (entries_ h) with
  | None => h
  | Some e => set_entry k {| e with ring := []; retained_keyframe := None; has_keyframe := false; st_ring := 0; subs := map wait_for_keyframe (subs e) |} h
  end.
Definition subscriber_count (k : HubKey) (h : FrameHub) : Z := match sm_find k (entries_ h) with Some e => st_subscribers e | None => 0 end.
Definition hub_keys (h : FrameHub) : list HubKey := (entries_ h).*1.
Definition buffers_held (h : FrameHub) : Z :=
  foldr (fun kv acc => zlen (ring kv.2) + (match retained_keyframe kv.2 with Some _ => 1 | None => 0 end) + acc) 0 (entries_ h).
