(* ===== verification/FrameHubProofs.v ===== *)
(** * FrameHubProofs: every viewer gets a stream it can decode, without an overrun *)

From Stdlib Require Import ZArith Lia String Sorted.
From stdpp Require Import base list strings.
From S2P Require Import Prelude StdMap FrameHub.

(** ** Runs: the hub, the sinks that died, and what was pushed and handed out *)
Record Got := { g_sink : nat; g_key : HubKey; g_seq : Z; g_kf : bool }.
Record Run := { hub : FrameHub; dead : list nat; frames : list (HubKey * Z); got : list Got }.
Definition alive (r : Run) (sink : nat) : bool := negb (existsb (Nat.eqb sink) (dead r)).
Inductive HubOp :=
| OPush (k : HubKey) (s : Sample) | ODeliver (accepts : nat -> bool) | OSubscribe (k : HubKey) (sink : nat) | OUnsubscribe (k : HubKey) (sink : nat)
| OResync (k : HubKey) (sink : nat) | OClear (k : HubKey) | OExpire (sink : nat).
Definition hstep (r : Run) (o : HubOp) : Run :=
  match o with
  | OPush k s => {| r with hub := push k s (hub r); frames := frames r ++ [(k, next_seq_ (hub r))] |}
  | ODeliver accepts =>
    match pop (hub r) with
    | None => r
    | Some (w, h) =>
      let '(h', targets) := deliver (alive r) accepts w h in
      {| r with hub := h'; got := got r ++ map (fun t => {| g_sink := t.1; g_key := w_key w; g_seq := w_seq w; g_kf := w_kf w |}) targets |}
    end
  | OSubscribe k sink => {| r with hub := (subscribe (alive r) k sink (hub r)).1 |}
  | OUnsubscribe k sink => {| r with hub := (unsubscribe (alive r) k sink (hub r)).1 |}
  | OResync k sink => {| r with hub := (resync (alive r) k sink (hub r)).1 |}
  | OClear k => {| r with hub := clear k (hub r) |}
  | OExpire sink => {| r with dead := sink :: dead r |}
  end.
Definition new_run (n : Z) : Run := {| hub := new_hub n; dead := []; frames := []; got := [] |}.

(** Producers push samples with a buffer; a session subscribes a live sink once per key; the
    delivery thread keeps up: what waits behind the popped frame fits a ring. *)
Definition subscribed (k : HubKey) (sink : nat) (h : FrameHub) : bool := existsb (fun s => Nat.eqb (sub_sink s) sink) (subs (entry k h)).
Definition op_ok (r : Run) (o : HubOp) : bool :=
  match o with
  | OPush _ s => match s with Some _ => true | None => false end
  | ODeliver _ => zlen (queue_ (hub r)) <=? ring_size_ (hub r) + 1
  | OSubscribe k sink => alive r sink && negb (subscribed k sink (hub r))
  | _ => true
  end.
Fixpoint run_ok (r : Run) (l : list HubOp) : bool := match l with [] => true | o :: l' => op_ok r o && run_ok (hstep r o) l' end.

(** ** What decodable means *)
Definition of_key (k : HubKey) (fr : list (HubKey * Z)) : list Z := map snd (List.filter (fun x => bool_decide (x.1 = k)) fr).
(** [y] is the frame after [x] in [F]. *)
Definition next_frame (F : list Z) (x y : Z) : Prop := In y F /\ x < y /\ forall z, In z F -> z <= x \/ y <= z.
Definition to (sink : nat) (k : HubKey) (g : Got) : bool := Nat.eqb (g_sink g) sink && bool_decide (g_key g = k).
Definition last_to (sink : nat) (k : HubKey) (l : list Got) : option Got := last (List.filter (to sink k) l).
(** Every frame that is not a keyframe was preceded, for that viewer, by the frame before it. *)
Definition decodable (fr : list (HubKey * Z)) (l : list Got) : Prop :=
  forall l1 g l2, l = l1 ++ g :: l2 -> g_kf g = false ->
    exists p, last_to (g_sink g) (g_key g) l1 = Some p /\ next_frame (of_key (g_key g) fr) (g_seq p) (g_seq g).

(** ** Sequences that leave no gap *)
Definition follow (F : list Z) (x : Z) (R : list Z) : Prop := forall y, next_frame F x y -> exists R3 R4, R = R3 ++ y :: R4 /\ Forall (fun r => r <= x) R3.
Fixpoint chain (F R : list Z) : Prop := match R with [] => True | x :: R' => follow F x R' /\ chain F R' end.

Lemma follow_skip F x r R : follow F x (r :: R) -> r <= x -> follow F x R.
Proof.
  intros Hf Hr y Hy. destruct (Hf y Hy) as ([|r' R3] & R4 & [= <- ->] & Hall); [destruct Hy as (_ & ? & _); lia|].
  inversion_clear Hall. eauto.
Qed.
Lemma next_exists F x r : In r F -> x < r -> exists y, next_frame F x y.
Proof.
  revert r. induction F as [|f F IH]; intros r Hr Hx; [done|].
  assert (forall y, next_frame F x y -> exists y', next_frame (f :: F) x y') as Hstep.
  { intros y (Hy & Hxy & Hz). destruct (Z_le_gt_dec f x) as [|Hf]; [exists y; split; [by right|]; split; [done|]; intros z [<-|Hin]; [lia | by apply Hz]|].
    exists (Z.min f y). split; [destruct (Z.min_spec f y) as [[_ ->]|[_ ->]]; simpl; auto|]. split; [lia|].
    intros z [<-|Hin]; [lia|]. destruct (Hz z Hin); lia. }
  destruct Hr as [->|Hr]; [|destruct (IH r Hr Hx) as (y & Hy); by eapply Hstep].
  destruct (List.existsb (fun z => (x <? z)) F) eqn:E.
  - apply existsb_exists in E as (z & Hin & Hz). apply Z.ltb_lt in Hz. destruct (IH z Hin Hz) as (y & Hy). by eapply Hstep.
  - exists r. split; [by left|]. split; [done|]. intros z [<-|Hin]; [lia|]. left. destruct (Z.ltb_spec x z) as [Hz|]; [|lia].
    assert (List.existsb (fun z => x <? z) F = true); [|congruence]. apply existsb_exists. exists z. split; [done|]. by apply Z.ltb_lt.
Qed.
Lemma follow_take F x r R : follow F x (r :: R) -> In r F -> x < r -> next_frame F x r.
Proof.
  intros Hf Hr Hx. destruct (next_exists F x r Hr Hx) as (y & Hy). destruct (Hf y Hy) as ([|r' R3] & R4 & [= -> ->] & Hall); [done|].
  inversion_clear Hall. lia.
Qed.
Lemma next_frame_snoc F x y s : (forall z, In z F -> z < s) -> next_frame (F ++ [s]) x y -> next_frame F x y \/ y = s /\ forall z, In z F -> z <= x.
Proof.
  intros Hs (Hy & Hx & Hz). apply in_app_or in Hy as [Hy|[<-|[]]].
  - left. split; [done|]. split; [done|]. intros z Hin. apply Hz, in_or_app. by left.
  - right. split; [done|]. intros z Hin. destruct (Hz z) as [|Hge]; [apply in_or_app; by left | done|]. specialize (Hs z Hin). lia.
Qed.
Lemma next_frame_more F x y s : (forall z, In z F -> z < s) -> next_frame F x y -> next_frame (F ++ [s]) x y.
Proof.
  intros Hs (Hy & Hx & Hz). split; [apply in_or_app; by left|]. split; [done|]. intros z [Hin|[<-|[]]]%in_app_or; [by apply Hz|]. specialize (Hs y Hy). lia.
Qed.
Lemma follow_snoc F x R s : (forall z, In z F -> z < s) -> (forall r, In r R -> In r F) -> follow F x R -> follow (F ++ [s]) x (R ++ [s]).
Proof.
  intros Hs HR Hf y [Hy|[-> Hx]]%next_frame_snoc; [| |done].
  - destruct (Hf y Hy) as (R3 & R4 & -> & Hall). exists R3, (R4 ++ [s]). by rewrite <- app_assoc.
  - exists R, []. split; [done|]. apply Forall_forall. intros r Hr. apply Hx, HR. by apply list_elem_of_In.
Qed.
Lemma chain_snoc F R s : (forall z, In z F -> z < s) -> (forall r, In r R -> In r F) -> chain F R -> chain (F ++ [s]) (R ++ [s]).
Proof.
  intros Hs. induction R as [|x R IH]; intros HR Hc; simpl.
  - split; [|done]. intros y (Hy & Hx & _). apply in_app_or in Hy as [Hy|[<-|[]]]; [specialize (Hs y Hy)|]; lia.
  - destruct Hc as [Hf Hc]. split; [apply follow_snoc; [done | | done] | apply IH; [|done]]; intros r Hr; apply HR; by right.
Qed.
(** A catch-up: the tail of everything pushed, ahead of the rest. *)
Lemma chain_suffix F pre C R : F = pre ++ C -> StronglySorted Z.lt F -> chain F R -> chain F (C ++ R).
Proof.
  intros HF Hs Hc. revert pre HF. induction C as [|c C IH]; intros pre HF; simpl; [done|].
  split; [|apply (IH (pre ++ [c])); by rewrite <- app_assoc]. intros y (Hy & Hx & Hz).
  assert (forall p q, StronglySorted Z.lt (p ++ q) -> forall a b, In a p -> In b q -> a < b) as Hsplit.
  { induction p as [|a0 p IHp]; intros q Hpq a b Ha Hb; [done|]. inversion_clear Hpq as [|? ? Hp Hall]. destruct Ha as [->|Ha]; [|by eapply IHp].
    rewrite Forall_forall in Hall. apply Hall, list_elem_of_In, in_or_app. by right. }
  rewrite HF in Hs, Hy. apply in_app_or in Hy as [Hy|[->|Hy]].
  - assert (y < c); [|lia]. by apply (Hsplit _ _ Hs); [|left].
  - lia.
  - destruct C as [|c' C']; [done|]. exists [], (C' ++ R). simpl. split; [|constructor]. f_equal.
    assert (c < c' /\ c' <= y) as [H1 H2].
    { replace (pre ++ c :: c' :: C') with ((pre ++ [c]) ++ c' :: C') in Hs by by rewrite <- app_assoc. split.
      - apply (Hsplit _ _ Hs); [apply in_or_app; right; by left | by left].
      - destruct Hy as [->|Hy]; [lia|]. replace ((pre ++ [c]) ++ c' :: C') with ((pre ++ [c; c']) ++ C') in Hs by by rewrite <- !app_assoc.
        assert (c' < y); [|lia]. apply (Hsplit _ _ Hs); [apply in_or_app; right; simpl; auto | done]. }
    destruct (Hz c'); [rewrite HF; apply in_or_app; right; simpl; auto | lia | lia].
Qed.

(** ** The invariant *)
Definition for_sink (k : HubKey) (sink : nat) (w : Work) : bool :=
  bool_decide (w_key w = k) && match w_only w with Some o => Nat.eqb o sink | None => true end.
Definition relevant (k : HubKey) (sink : nat) (q : list Work) : list Z := map w_seq (List.filter (for_sink k sink) q).

(** A subscriber that waits for nothing has been given [last_seq], and what follows it is coming. *)
Definition sub_ok (F : list Z) (R : list Z) (last : option Got) (s : Sub) : Prop :=
  waiting_keyframe s = false -> In (last_seq s) F /\ follow F (last_seq s) R /\ exists p, last = Some p /\ g_seq p = last_seq s.
Record hub_inv (r : Run) : Prop := {
  hi_sorted : StronglySorted Z.lt (map snd (frames r));
  hi_next : forall x, In x (frames r) -> x.2 < next_seq_ (hub r);
  hi_ring : forall k, exists pre, of_key k (frames r) = pre ++ map ri_seq (ring (entry k (hub r)));
  hi_ringed : forall k it, In it (ring (entry k (hub r))) -> ri_sample it <> None;
  hi_queue : forall w, In w (queue_ (hub r)) -> In (w_key w, w_seq w) (frames r) /\ w_sample w <> None;
  hi_chain : forall k sink, chain (of_key k (frames r)) (relevant k sink (queue_ (hub r)));
  hi_subs : forall k s, In s (subs (entry k (hub r))) -> alive r (sub_sink s) = true ->
    sub_ok (of_key k (frames r)) (relevant k (sub_sink s) (queue_ (hub r))) (last_to (sub_sink s) k (got r)) s;
  hi_once : forall k, NoDup (map sub_sink (List.filter (fun s => alive r (sub_sink s)) (subs (entry k (hub r)))));
  hi_got : decodable (frames r) (got r)
}.

Lemma entry_set k k' e h : entry k' (set_entry k e h) = if bool_decide (k' = k) then e else entry k' h.
Proof. unfold entry, set_entry. simpl. case_bool_decide as E; [subst; by rewrite sm_find_set_eq | by rewrite sm_find_set_ne]. Qed.
Lemma of_key_In k x fr : In x (of_key k fr) <-> In (k, x) fr.
Proof.
  unfold of_key. rewrite in_map_iff. split.
  - intros ((k' & x') & <- & [Hin Hk%bool_decide_eq_true]%filter_In). simpl in *. by subst.
  - intros Hin. exists (k, x). split; [done|]. apply filter_In. split; [done|]. by apply bool_decide_eq_true.
Qed.
Lemma of_key_snoc k k' s fr : of_key k (fr ++ [(k', s)]) = if bool_decide (k' = k) then of_key k fr ++ [s] else of_key k fr.
Proof. unfold of_key. rewrite List.filter_app, map_app. simpl. case_bool_decide; simpl; [done | by rewrite app_nil_r]. Qed.
Lemma sorted_filter fr k : StronglySorted Z.lt (map snd fr) -> StronglySorted Z.lt (of_key k fr).
Proof.
  unfold of_key. induction fr as [|[k' x] fr IH]; simpl; [done|]. intros Hs. inversion_clear Hs as [|? ? Hs' Hall].
  case_bool_decide; simpl; [|by apply IH]. constructor; [by apply IH|]. rewrite Forall_forall in Hall |- *. intros y Hy. apply Hall.
  apply list_elem_of_In in Hy. apply list_elem_of_In. apply in_map_iff in Hy as (z & <- & [Hz _]%filter_In). by apply in_map.
Qed.
Lemma relevant_app k sink q q' : relevant k sink (q ++ q') = relevant k sink q ++ relevant k sink q'.
Proof. unfold relevant. by rewrite List.filter_app, map_app. Qed.
Lemma relevant_In k sink q x : In x (relevant k sink q) -> exists w, In w q /\ w_key w = k /\ w_seq w = x.
Proof. unfold relevant. rewrite in_map_iff. intros (w & <- & [Hw [Hk%bool_decide_eq_true _]%andb_prop]%filter_In). eauto. Qed.
Lemma last_to_app sink k l l' : last_to sink k (l ++ l') = match last_to sink k l' with Some p => Some p | None => last_to sink k l end.
Proof.
  unfold last_to. rewrite List.filter_app. destruct (List.filter (to sink k) l') as [|g m] using rev_ind; [by rewrite app_nil_r|].
  by rewrite app_assoc, !last_snoc.
Qed.
Lemma decodable_push fr k s l : (forall x, In x fr -> x.2 < s) -> decodable fr l -> decodable (fr ++ [(k, s)]) l.
Proof.
  intros Hs Hd l1 g l2 El Hg. destruct (Hd l1 g l2 El Hg) as (p & Hp & Hn). exists p. split; [done|]. rewrite of_key_snoc. case_bool_decide; [|done].
  apply next_frame_more; [|done]. intros z Hz%of_key_In. by apply (Hs (g_key g, z)).
Qed.
(** Subscribers that only got further behind. *)
Definition calmer (s s' : Sub) : Prop := sub_sink s' = sub_sink s /\ last_seq s' = last_seq s /\ (waiting_keyframe s' = false -> waiting_keyframe s = false).
Lemma sub_ok_calmer F R l s s' : calmer s s' -> sub_ok F R l s -> sub_ok F R l s'.
Proof. intros (_ & E & Hw) Hs Hw'. rewrite E. by apply Hs, Hw. Qed.
Lemma calmer_refl s : calmer s s.
Proof. done. Qed.
Lemma Forall2_sinks l l' : Forall2 calmer l l' -> map sub_sink l' = map sub_sink l.
Proof. induction 1 as [|s s' l l' (E & _) _ IH]; simpl; [done|]. by rewrite E, IH. Qed.
Lemma live_sinks live l : map sub_sink (List.filter (fun s => live (sub_sink s)) l) = List.filter live (map sub_sink l).
Proof. induction l as [|s l IH]; simpl; [done|]. destruct (live (sub_sink s)); simpl; by rewrite IH. Qed.
Lemma Forall2_In_r {A} (R : A -> A -> Prop) l l' s' : Forall2 R l l' -> In s' l' -> exists s, In s l /\ R s s'.
Proof. induction 1 as [|a b l l' HR _ IH]; [done|]. intros [<-|Hin]; [exists a; split; [by left | done]|]. destruct (IH Hin) as (s & ? & ?). exists s. split; [by right | done]. Qed.

(** Booking results and marking subscribers keeps the invariant. *)
Lemma hub_inv_calmer r k e : hub_inv r -> ring e = ring (entry k (hub r)) \/ ring e = [] -> Forall2 calmer (subs (entry k (hub r))) (subs e) ->
  hub_inv {| r with hub := set_entry k e (hub r) |}.
Proof.
  intros [H1 H2 H3 H3b H4 H5 H6 H7 H8] Hring Hsubs. split; simpl; try done.
  - intros k'. rewrite entry_set. case_bool_decide; [|apply H3]. subst. destruct Hring as [-> | ->]; [apply H3|]. eexists. by rewrite app_nil_r.
  - intros k' it. rewrite entry_set. case_bool_decide; [|apply H3b]. subst. destruct Hring as [-> | ->]; [apply H3b | done].
  - intros k' s. rewrite entry_set. case_bool_decide; [|apply H6]. subst. intros Hin Ha. destruct (Forall2_In_r _ _ _ _ Hsubs Hin) as (s0 & Hin0 & Hc).
    pose proof Hc as (E & _). rewrite E in *. eapply sub_ok_calmer; [done|]. by apply H6.
  - intros k'. rewrite entry_set. case_bool_decide; [|apply H7]. subst. specialize (H7 k).
    rewrite (live_sinks (alive r)), <- (Forall2_sinks _ _ Hsubs), <- (live_sinks (alive r)) in H7. exact H7.
Qed.

(** ** Each operation *)
Lemma trim_suffix n l : exists pre, l = pre ++ trim n l.
Proof. unfold trim. exists (take (Z.to_nat (zlen l - n)) l). by rewrite take_drop. Qed.
Lemma relevant_one k sink w : relevant k sink [w] = if for_sink k sink w then [w_seq w] else [].
Proof. unfold relevant. simpl. by destruct (for_sink k sink w). Qed.
Lemma push_inv r k s : hub_inv r -> s <> None -> hub_inv (hstep r (OPush k s)).
Proof.
  intros [H1 H2 H3 H3b H4 H5 H6 H7 H8] Hs. set (n := next_seq_ (hub r)). simpl. unfold push, push_entry, push_queue. simpl. fold n.
  set (it := {| ri_sample := s; ri_seq := n; ri_key := is_keyframe s |}).
  set (w := {| w_key := k; w_sample := s; w_kf := is_keyframe s; w_seq := n; w_only := None |}).
  set (e := entry k (hub r)).
  assert (forall k', forall z, In z (of_key k' (frames r)) -> z < n) as Hlt by (intros k' z Hz%of_key_In; by apply (H2 (k', z))).
  assert (forall k' sink, forall z, In z (relevant k' sink (queue_ (hub r))) -> In z (of_key k' (frames r))) as Hrel.
  { intros k' sink z (w' & Hw & <- & <-)%relevant_In. apply of_key_In. by apply H4. }
  assert (forall k' sink, relevant k' sink (queue_ (hub r) ++ [w]) = relevant k' sink (queue_ (hub r)) ++ if bool_decide (k = k') then [n] else []) as Hq.
  { intros k' sink. rewrite relevant_app, relevant_one. unfold for_sink. simpl. rewrite andb_true_r. by case_bool_decide. }
  set (e' := if is_keyframe s then _ else _).
  assert (subs e' = subs e) as Esubs by (unfold e'; by destruct (is_keyframe s)).
  assert (ring e' = ring e \/ ring e' = []) as Ering by (unfold e'; destruct (is_keyframe s); auto).
  split; simpl.
  - rewrite map_app. simpl. clear -H1 H2. fold n in H2. induction (frames r) as [|x fr IH]; simpl in *; [by repeat constructor|].
    inversion_clear H1 as [|? ? Hs Hall]. constructor; [apply IH; [done | intros; apply H2; by right]|]. apply Forall_app. split; [done|].
    constructor; [apply H2; by left | constructor].
  - intros x [Hx|[<-|[]]]%in_app_or; [specialize (H2 x Hx); fold n in H2; lia | simpl; lia].
  - intros k'. unfold entry. simpl. destruct (decide (k' = k)) as [->|Hk].
    + rewrite sm_find_set_eq. simpl. rewrite of_key_snoc, bool_decide_true by done.
      destruct (trim_suffix (ring_size_ (hub r)) (ring e' ++ [it])) as (p2 & E2).
      assert (exists p1, of_key k (frames r) = p1 ++ map ri_seq (ring e')) as (p1 & E1).
      { destruct Ering as [-> | ->]; [apply H3 | eexists; by rewrite app_nil_r]. }
      exists (p1 ++ map ri_seq p2). rewrite E1. change [n] with (map ri_seq [it]). rewrite <- app_assoc, <- map_app, E2 at 1. by rewrite map_app, app_assoc.
    + rewrite sm_find_set_ne by done. rewrite of_key_snoc, bool_decide_false by congruence. apply H3.
  - intros k' it'. unfold entry. simpl. destruct (decide (k' = k)) as [->|Hk]; [|rewrite sm_find_set_ne by done; apply H3b].
    rewrite sm_find_set_eq. simpl. intros Hin. destruct (trim_suffix (ring_size_ (hub r)) (ring e' ++ [it])) as (p2 & E2).
    assert (In it' (ring e' ++ [it])) as Hin' by (rewrite E2; apply in_or_app; by right).
    apply in_app_or in Hin' as [Hin'|[<-|[]]]; [|done]. destruct Ering as [E|E]; rewrite E in Hin'; [by apply (H3b k) | done].
  - intros w' [Hw|[<-|[]]]%in_app_or; [|split; [apply in_or_app; right; by left | done]].
    destruct (H4 w' Hw). split; [apply in_or_app; by left | done].
  - intros k' sink. rewrite of_key_snoc, Hq. case_bool_decide; [apply chain_snoc; [apply Hlt | apply Hrel | apply H5] | rewrite app_nil_r; apply H5].
  - intros k' s' Hin Ha. assert (In s' (subs (entry k' (hub r)))) as Hin'.
    { revert Hin. unfold entry. simpl. destruct (decide (k' = k)) as [->|Hk]; [rewrite sm_find_set_eq; simpl; by rewrite Esubs | by rewrite sm_find_set_ne]. }
    intros Hw. destruct (H6 k' s' Hin' Ha Hw) as (A & B & C). rewrite of_key_snoc, Hq. case_bool_decide; [|by rewrite app_nil_r].
    split; [apply in_or_app; by left|]. split; [apply follow_snoc; [apply Hlt | apply Hrel | done] | done].
  - intros k'. unfold entry. simpl. destruct (decide (k' = k)) as [->|Hk]; [rewrite sm_find_set_eq; simpl; rewrite Esubs; apply H7 | rewrite sm_find_set_ne by done; apply H7].
  - by apply decodable_push.
Qed.
Lemma subscribe_inv r k sink : hub_inv r -> alive r sink = true -> subscribed k sink (hub r) = false -> hub_inv (hstep r (OSubscribe k sink)).
Proof.
  intros [H1 H2 H3 H3b H4 H5 H6 H7 H8] Ha Hno. simpl. unfold subscribe, subscribe_enter, subscribe_queue. simpl. set (e := entry k (hub r)).
  set (mk := fun i => {| w_key := k; w_sample := ri_sample i; w_kf := ri_key i; w_seq := ri_seq i; w_only := Some sink |}).
  set (C := match ring e with [] => [] | it :: _ => if ri_key it then map mk (ring e) else [] end).
  assert (C = [] \/ C = map mk (ring e)) as HC by (unfold C; destruct (ring e) as [|it l]; [by left|]; destruct (ri_key it); auto).
  assert (forall k' sink', relevant k' sink' C = if bool_decide (k = k') && Nat.eqb sink sink' then map w_seq C else []) as HR.
  { intros k' sink'. destruct HC as [-> | ->]; [by destruct (_ && _)|]. unfold relevant. induction (ring e) as [|i l IH]; simpl; [by destruct (_ && _)|].
    unfold for_sink at 1. simpl. destruct (bool_decide (k = k') && Nat.eqb sink sink') eqn:E; simpl; by rewrite IH. }
  assert (forall w, In w C -> w_key w = k /\ In (w_seq w) (of_key k (frames r)) /\ w_sample w <> None) as HCin.
  { intros w Hw. destruct HC as [E|E]; rewrite E in Hw; [done|]. apply in_map_iff in Hw as (i & <- & Hi). split; [done|].
    destruct (H3 k) as (pre & Ek). split; [rewrite Ek; apply in_or_app; right; by apply (in_map ri_seq) | by apply (H3b k)]. }
  assert (forall s, In s (subs e) -> sub_sink s <> sink) as Hne.
  { intros s Hs <-. assert (subscribed k (sub_sink s) (hub r) = true); [|congruence]. apply existsb_exists. exists s. split; [done | apply Nat.eqb_refl]. }
  split; simpl; try done.
  - intros k'. unfold entry. simpl. destruct (decide (k' = k)) as [->|]; [rewrite sm_find_set_eq; apply H3 | rewrite sm_find_set_ne by done; apply H3].
  - intros k'. unfold entry. simpl. destruct (decide (k' = k)) as [->|]; [rewrite sm_find_set_eq; apply H3b | rewrite sm_find_set_ne by done; apply H3b].
  - intros w [Hw|Hw]%in_app_or; [|by apply H4]. destruct (HCin w Hw) as (-> & Hin & ?). split; [by apply of_key_In | done].
  - intros k' sink'. rewrite relevant_app, HR. destruct (bool_decide (k = k')) eqn:Ek; [apply bool_decide_eq_true in Ek as <-|apply H5].
    destruct (Nat.eqb sink sink'); [|apply H5]. simpl. destruct HC as [-> | ->]; [apply H5|]. destruct (H3 k) as (pre & E).
    rewrite map_map. eapply chain_suffix; [exact E | by apply sorted_filter | apply H5].
  - intros k' s Hin Hs. rewrite relevant_app, HR.
    destruct (decide (k' = k)) as [->|Hk].
    + revert Hin. unfold entry. simpl. rewrite sm_find_set_eq. simpl. intros [Hin|[<-|[]]]%in_app_or; [|done].
      apply filter_In in Hin as [Hin _]. rewrite bool_decide_true by done. simpl.
      destruct (Nat.eqb_spec sink (sub_sink s)) as [E|_]; [destruct (Hne s Hin); done|]. simpl. by apply H6.
    + rewrite bool_decide_false by congruence. simpl. apply H6; [|done]. revert Hin. unfold entry. simpl. by rewrite sm_find_set_ne.
  - intros k'. unfold entry. simpl. destruct (decide (k' = k)) as [->|]; [|rewrite sm_find_set_ne by done; apply H7].
    rewrite sm_find_set_eq. simpl. specialize (H7 k). fold e in H7. change (alive {| r with hub := _ |}) with (alive r).
    rewrite List.filter_app. simpl. change (alive _ sink) with (alive r sink). rewrite Ha, map_app. simpl.
    assert (List.filter (fun s => alive r (sub_sink s)) (List.filter (fun s => alive r (sub_sink s)) (subs e)) = List.filter (fun s => alive r (sub_sink s)) (subs e)) as E.
    { clear. induction (subs e) as [|s l IH]; simpl; [done|]. destruct (alive r (sub_sink s)) eqn:E; simpl; [by rewrite E, IH | done]. }
    rewrite E. apply NoDup_app. split; [done|]. split; [|apply NoDup_singleton]. intros x Hx Hx'. apply list_elem_of_singleton in Hx' as ->.
    apply list_elem_of_In, in_map_iff in Hx as (s & Es & [Hs _]%filter_In). by apply (Hne s).
Qed.

(** *** Delivery *)
Definition only_ok (w : Work) (sink : nat) : bool := match w_only w with Some o => Nat.eqb o sink | None => true end.
Lemma offer_spec live w src s s' o : offer live w src s = (s', o) ->
  match o with
  | None => calmer s s' /\ (live (sub_sink s) = true -> only_ok w (sub_sink s) = true -> w_seq w <= last_seq s \/ waiting_keyframe s = true)
  | Some t => t.1 = sub_sink s /\ live (sub_sink s) = true /\ only_ok w (sub_sink s) = true /\ last_seq s < w_seq w
              /\ sub_sink s' = sub_sink s /\ last_seq s' = w_seq w /\ (waiting_keyframe s = true -> w_kf w = true)
  end.
Proof.
  unfold offer, only_ok. destruct (live (sub_sink s)) eqn:El; simpl; [|by intros [= <- <-]].
  assert (match w_only w with Some o => negb (Nat.eqb (sub_sink s) o) | None => false end = negb (match w_only w with Some o => Nat.eqb o (sub_sink s) | None => true end)) as ->.
  { destruct (w_only w); [|done]. by rewrite Nat.eqb_sym. }
  destruct (match w_only w with Some o => Nat.eqb o (sub_sink s) | None => true end); simpl; [|by intros [= <- <-]].
  destruct (Z.leb_spec (w_seq w) (last_seq s)) as [Hle|Hlt]; [intros [= <- <-]; split; [done | auto]|].
  destruct (waiting_keyframe s) eqn:Ew, (w_kf w) eqn:Ek; simpl; intros [= <- <-]; simpl; try (split; [done | auto]);
    try (destruct (base_pts s)); by split_and!.
Qed.
Lemma targets_In live w src l t : In t (omap_snd (map (offer live w src) l)) <-> exists s, In s l /\ (offer live w src s).2 = Some t.
Proof.
  unfold omap_snd. induction l as [|s l IH]; simpl; [split; [done | intros (s & [] & _)]|].
  destruct (offer live w src s) as [s' [t'|]] eqn:E; simpl; rewrite ?IH.
  - split.
    + intros [->|(s0 & Hs0 & Ho)]; [exists s; split; [by left | by rewrite E] | exists s0; split; [by right | done]].
    + intros (s0 & [<-|Hs0] & Ho); [rewrite E in Ho; left; simpl in Ho; congruence | right; eauto].
  - split.
    + intros (s0 & Hs0 & Ho). exists s0. split; [by right | done].
    + intros (s0 & [<-|Hs0] & Ho); [by rewrite E in Ho | eauto].
Qed.
Lemma target_sub live w src l t : In t (omap_snd (map (offer live w src) l)) -> exists s, In s l /\ sub_sink s = t.1 /\ live t.1 = true /\ (offer live w src s).2 = Some t.
Proof.
  intros (s & Hs & Ho)%targets_In. exists s. destruct (offer live w src s) as [s' o] eqn:E. simpl in Ho. subst o. apply offer_spec in E as (A & B & _).
  by rewrite A.
Qed.
Lemma targets_nodup live w src l : NoDup (map sub_sink (List.filter (fun s => live (sub_sink s)) l)) -> NoDup (map fst (omap_snd (map (offer live w src) l))).
Proof.
  induction l as [|s l IH]; simpl; [constructor|]. intros Hnd.
  assert (NoDup (map fst (omap_snd (map (offer live w src) l)))) as Hl by (apply IH; destruct (live (sub_sink s)); [by inversion_clear Hnd | done]).
  unfold omap_snd in *. simpl. destruct (offer live w src s) as [s' [t|]] eqn:E; simpl; [|done]. apply offer_spec in E as (A & B & _).
  constructor; [|done]. rewrite A. rewrite B in Hnd. simpl in Hnd. inversion_clear Hnd as [|? ? Hnot _]. intros Hin. apply Hnot.
  apply list_elem_of_In in Hin. apply list_elem_of_In. apply in_map_iff in Hin as (t' & Et & Ht'). apply target_sub in Ht' as (s0 & Hs0 & E0 & E1 & _).
  apply in_map_iff. exists s0. split; [congruence|]. apply filter_In. split; [done|]. congruence.
Qed.

Definition mkgot (w : Work) (t : nat * Buffer) : Got := {| g_sink := t.1; g_key := w_key w; g_seq := w_seq w; g_kf := w_kf w |}.
Lemma last_to_none w sink k ts : (k = w_key w -> forall t, In t ts -> t.1 <> sink) -> last_to sink k (map (mkgot w) ts) = None.
Proof.
  intros Hn. unfold last_to. assert (List.filter (to sink k) (map (mkgot w) ts) = []) as ->; [|done].
  induction ts as [|t ts IH]; simpl; [done|]. unfold to at 1. simpl. destruct (bool_decide (w_key w = k)) eqn:Ek.
  - apply bool_decide_eq_true in Ek as Ek'. destruct (Nat.eqb_spec t.1 sink) as [E|]; [by destruct (Hn (eq_sym Ek') t (or_introl eq_refl))|]. simpl.
    apply IH. intros Hk t' Ht'. apply Hn; [done | by right].
  - rewrite andb_false_r. apply IH. intros ->. by rewrite bool_decide_true in Ek.
Qed.
Lemma last_to_some w t ts : In t ts -> exists g, last_to t.1 (w_key w) (map (mkgot w) ts) = Some g /\ g_seq g = w_seq w.
Proof.
  intros Hin. unfold last_to. destruct (last (List.filter (to t.1 (w_key w)) (map (mkgot w) ts))) as [g|] eqn:E.
  - exists g. split; [done|]. apply last_Some_elem_of, list_elem_of_In, filter_In in E as [E _]. apply in_map_iff in E as (t' & <- & _). done.
  - apply last_None in E. assert (In (mkgot w t) (List.filter (to t.1 (w_key w)) (map (mkgot w) ts))) as Hg; [|by rewrite E in Hg].
    apply filter_In. split; [by apply in_map|]. unfold to. simpl. by rewrite Nat.eqb_refl, bool_decide_true.
Qed.
Lemma app_prefix {A} (l1 l3 l2 l4 : list A) : l1 ++ l2 = l3 ++ l4 -> (length l3 <= length l1)%nat -> exists m, l1 = l3 ++ m.
Proof.
  revert l1. induction l3 as [|a l3 IH]; intros l1 E Hl; [by exists l1|]. destruct l1 as [|b l1]; simpl in *; [lia|]. injection E as -> E.
  destruct (IH l1 E) as (m & ->); [lia | by exists m].
Qed.
(** What one piece of work hands out keeps the streams decodable. *)
Lemma decodable_deliver r w q src : hub_inv r -> queue_ (hub r) = w :: q ->
  decodable (frames r) (got r ++ map (mkgot w) (omap_snd (map (offer (alive r) w src) (subs (entry (w_key w) (hub r)))))).
Proof.
  intros [H1 H2 H3 H3b H4 H5 H6 H7 H8] Hq l1 g l2 El Hg. set (ts := omap_snd _) in El.
  destruct (decide (length l1 < length (got r))%nat) as [Hlen|Hlen].
  - destruct (app_prefix (got r) l1 (map (mkgot w) ts) (g :: l2)) as (l3 & E3); [done | lia|]. destruct l3 as [|g' l3]; [rewrite app_nil_r in E3; subst; lia|].
    rewrite E3, <- app_assoc in El. apply app_inv_head in El. injection El as -> _. by apply (H8 l1 g l3).
  - destruct (app_prefix l1 (got r) (g :: l2) (map (mkgot w) ts)) as (l3 & ->); [done | lia|]. rewrite <- app_assoc in El. apply app_inv_head in El.
    assert (In g (map (mkgot w) ts)) as Hin by (rewrite El; apply in_or_app; right; by left). apply in_map_iff in Hin as (t & <- & Ht). simpl in *.
    pose proof (targets_nodup (alive r) w src (subs (entry (w_key w) (hub r))) (H7 _)) as Hnd. fold ts in Hnd.
    destruct (target_sub _ _ _ _ _ Ht) as (s & Hs & Es & Ha & Ho). destruct (offer (alive r) w src s) as [s' o] eqn:E. simpl in Ho. subst o.
    apply offer_spec in E as (_ & _ & Hon & Hlt & _ & _ & Hk). destruct (waiting_keyframe s) eqn:Ew; [by rewrite Hk in Hg|].
    rewrite <- Es in Ha. destruct (H6 _ s Hs Ha Ew) as (_ & Hf & p & Hp & Hseq). exists p. split.
    + rewrite last_to_app. rewrite Es in Hp.
      assert (exists ts1 ts2, ts = ts1 ++ ts2 /\ l3 = map (mkgot w) ts1 /\ In t ts2) as (ts1 & ts2 & Ets & -> & Ht2).
      { apply map_eq_app in El as (ts1 & ts2 & -> & <- & E2). exists ts1, ts2. split; [done|]. split; [done|].
        destruct ts2 as [|t2 ts2]; [done|]. injection E2 as E2 _. apply in_app_or in Ht as [Ht|Ht]; [|done]. left.
        rewrite map_app in Hnd. apply NoDup_app in Hnd as (_ & Hd & _). destruct (Hd t2.1); [|simpl; apply list_elem_of_In; by left].
        apply list_elem_of_In, in_map_iff. exists t. split; [|done]. unfold mkgot in E2. congruence. }
      rewrite last_to_none; [done|]. intros _ t1 Ht1 E1. rewrite Ets, map_app in Hnd. apply NoDup_app in Hnd as (_ & Hd & _).
      apply (Hd t1.1); apply list_elem_of_In; [by apply in_map|]. rewrite E1. by apply in_map.
    + rewrite Hseq. rewrite Hq in Hf. unfold relevant in Hf. simpl in Hf. unfold for_sink at 1 in Hf. rewrite bool_decide_true in Hf by done. fold (only_ok w (sub_sink s)) in Hf.
      rewrite Hon in Hf. simpl in Hf. eapply follow_take; [exact Hf | | done]. apply of_key_In. apply (H4 w). rewrite Hq. by left.
Qed.
Lemma deliver_targets_inv r w q src e : hub_inv r -> queue_ (hub r) = w :: q -> sm_find (w_key w) (entries_ (hub r)) = Some e ->
  hub_inv {| r with hub := set_entry (w_key w) {| e with subs := map fst (map (offer (alive r) w src) (subs e)) |} {| (hub r) with queue_ := q |};
                    got := got r ++ map (mkgot w) (omap_snd (map (offer (alive r) w src) (subs e))) |}.
Proof.
  intros Hr Hq He. assert (entry (w_key w) (hub r) = e) as Ee by (unfold entry; by rewrite He). pose proof (decodable_deliver r w q src Hr Hq) as Hdec. rewrite Ee in Hdec.
  destruct Hr as [H1 H2 H3 H3b H4 H5 H6 H7 H8]. set (ts := omap_snd _) in *.
  assert (forall k sink, relevant k sink (w :: q) = (if for_sink k sink w then [w_seq w] else []) ++ relevant k sink q) as Hrel.
  { intros k sink. unfold relevant. simpl. by destruct (for_sink k sink w). }
  assert (forall k', entry k' (set_entry (w_key w) {| e with subs := map fst (map (offer (alive r) w src) (subs e)) |} {| (hub r) with queue_ := q |})
    = if bool_decide (k' = w_key w) then {| e with subs := map fst (map (offer (alive r) w src) (subs e)) |} else entry k' (hub r)) as Hent by (intros; rewrite entry_set; done).
  split; simpl; try done.
  - intros k'. rewrite Hent. case_bool_decide as Hk; [rewrite Hk; simpl; rewrite <- Ee|]; apply H3.
  - intros k' it. rewrite Hent. case_bool_decide as Hk; [subst k'; simpl; rewrite <- Ee|]; apply H3b.
  - intros w' Hw'. apply H4. rewrite Hq. by right.
  - intros k sink. specialize (H5 k sink). rewrite Hq, Hrel in H5. destruct (for_sink k sink w); [apply H5 | done].
  - intros k s. rewrite Hent. case_bool_decide as Hk.
    + subst k. simpl. intros Hin Ha. apply in_map_iff in Hin as ([s0' o] & <- & Hin). apply in_map_iff in Hin as (s0 & Eo & Hin). simpl in *.
      assert (offer (alive r) w src s0 = (s0', o)) as Eo' by exact Eo. clear Eo. assert (In s0 (subs (entry (w_key w) (hub r)))) as Hin' by (by rewrite Ee).
      intros Hw. destruct o as [t|].
      * pose proof Eo' as Eoo. apply offer_spec in Eoo as (A & B & C & Hlt & F & G & _). rewrite G.
        split; [apply of_key_In, (H4 w); rewrite Hq; by left|]. specialize (H5 (w_key w) (sub_sink s0')). rewrite Hq, Hrel in H5.
        unfold for_sink in H5. rewrite bool_decide_true in H5 by done. fold (only_ok w (sub_sink s0')) in H5. rewrite F, C in H5. simpl in H5. rewrite F.
        split; [apply H5|]. rewrite last_to_app. destruct (last_to_some w t ts) as (g & Eg & Hg); [apply targets_In; exists s0; split; [done | by rewrite Eo']|].
        rewrite A in Eg. rewrite Eg. by exists g.
      * pose proof Eo' as Eoo. apply offer_spec in Eoo as [(A & B & C) Hno]. rewrite A in *. change (alive _ (sub_sink s0)) with (alive r (sub_sink s0)) in Ha.
        destruct (H6 _ s0 Hin' Ha (C Hw)) as (D & E & p & Hp & Hseq). rewrite B. split; [done|]. rewrite Hq, Hrel in E. split.
        -- unfold for_sink in E. rewrite bool_decide_true in E by done. fold (only_ok w (sub_sink s0)) in E.
           destruct (only_ok w (sub_sink s0)) eqn:Hon; [|exact E]. simpl in E. destruct (Hno Ha eq_refl) as [Hle|Hwait]; [by eapply follow_skip | rewrite (C Hw) in Hwait; done].
        -- exists p. split; [|done]. rewrite last_to_app, last_to_none; [done|]. intros _ t Ht Et. apply target_sub in Ht as (s1 & Hs1 & E1 & Ha1 & Ho1).
           assert (s1 = s0) as ->.
           { specialize (H7 (w_key w)). rewrite Ee in H7. clear -H7 Hs1 Hin E1 Et Ha. rewrite Et in E1.
             induction (subs e) as [|x l IH]; [done|]. simpl in H7. destruct Hs1 as [->|Hs1], Hin as [->|Hin]; [done| | |].
             - rewrite E1, Ha in H7. simpl in H7. inversion_clear H7 as [|? ? Hn _]. destruct Hn. apply list_elem_of_In, in_map_iff. exists s0. split; [done|]. by apply filter_In.
             - rewrite Ha in H7. simpl in H7. inversion_clear H7 as [|? ? Hn _]. destruct Hn. apply list_elem_of_In, in_map_iff. exists s1. split; [done|]. apply filter_In. by rewrite E1.
             - apply IH; [|done|done]. destruct (alive r (sub_sink x)); [by inversion_clear H7 | done]. }
           rewrite Eo' in Ho1. done.
    + intros Hin Ha. pose proof (H6 k s Hin Ha) as Hok. rewrite Hq, Hrel in Hok. unfold for_sink in Hok. rewrite bool_decide_false in Hok by congruence. simpl in Hok.
      intros Hw. rewrite last_to_app, last_to_none; [by apply Hok | congruence].
  - intros k. rewrite Hent. case_bool_decide as Hk; [|apply H7]. simpl. clear Hk. specialize (H7 (w_key w)). rewrite Ee, (live_sinks (alive r)) in H7. rewrite (live_sinks (alive r)).
    assert (map sub_sink (map fst (map (offer (alive r) w src) (subs e))) = map sub_sink (subs e)) as ->; [|done].
    rewrite !map_map. apply map_ext. intros s. destruct (offer (alive r) w src s) as [s' [t|]] eqn:E; apply offer_spec in E; simpl; [apply E | by destruct E as [(-> & _) _]].
Qed.
Lemma book_calmer live sink ok l : Forall2 calmer l (book live sink ok l).
Proof.
  induction l as [|s l IH]; simpl; [constructor|]. destruct (_ && _); constructor; try done.
  - by destruct ok.
  - clear. induction l; constructor; [apply calmer_refl | done].
Qed.
Lemma deliver_result_inv r k sink ok : hub_inv r -> hub_inv {| r with hub := deliver_result (alive r) k sink ok (hub r) |}.
Proof.
  intros Hr. unfold deliver_result. destruct (sm_find k (entries_ (hub r))) as [e|] eqn:E; [|by destruct r].
  apply hub_inv_calmer; [done | |]; unfold entry; rewrite E; simpl; [by left | apply book_calmer].
Qed.
Lemma deliver_results_inv ts accepts k : forall r, hub_inv r ->
  hub_inv {| r with hub := foldl (fun h t => deliver_result (alive r) k (fst t) (accepts (fst t)) h) (hub r) (ts : list (nat * Buffer)) |}.
Proof.
  induction ts as [|t ts IH]; intros r Hr; simpl; [by destruct r|]. exact (IH _ (deliver_result_inv r k t.1 (accepts t.1) Hr)).
Qed.
Lemma queue_tail_inv r w q : hub_inv r -> queue_ (hub r) = w :: q -> sm_find (w_key w) (entries_ (hub r)) = None -> hub_inv {| r with hub := {| (hub r) with queue_ := q |} |}.
Proof.
  intros [H1 H2 H3 H3b H4 H5 H6 H7 H8] Hq He. split; simpl; try done.
  - intros w' Hw'. apply H4. rewrite Hq. by right.
  - intros k sink. specialize (H5 k sink). rewrite Hq in H5. unfold relevant in *. simpl in H5. destruct (for_sink k sink w); [apply H5 | done].
  - intros k s Hin Ha. pose proof (H6 k s Hin Ha) as Hok. rewrite Hq in Hok. unfold relevant in *. simpl in Hok. destruct (for_sink k (sub_sink s) w) eqn:Ef; [|done].
    apply andb_prop in Ef as [Ek%bool_decide_eq_true _]. subst k. unfold entry in Hin. simpl in Hin. rewrite He in Hin. done.
Qed.
Lemma deliver_inv r accepts : hub_inv r -> op_ok r (ODeliver accepts) = true -> hub_inv (hstep r (ODeliver accepts)).
Proof.
  intros Hr Hok. simpl in *. unfold pop. destruct (queue_ (hub r)) as [|w q] eqn:Hq; [done|]. apply Z.leb_le in Hok.
  autorewrite with zlen in Hok. destruct (Z.ltb_spec (ring_size_ (hub r)) (zlen q)); [lia|].
  destruct (hi_queue r Hr w) as [_ Hs]; [rewrite Hq; by left|]. unfold deliver, deliver_targets. simpl. destruct (w_sample w) as [src|]; [|done].
  destruct (sm_find (w_key w) (entries_ (hub r))) as [e|] eqn:He.
  - exact (deliver_results_inv _ accepts (w_key w) _ (deliver_targets_inv r w q src e Hr Hq He)).
  - simpl. rewrite app_nil_r. exact (queue_tail_inv r w q Hr Hq He).
Qed.
Lemma filter_sublist_nodup (p : Sub -> bool) live l : NoDup (map sub_sink (List.filter live l)) -> NoDup (map sub_sink (List.filter live (List.filter p l))).
Proof.
  induction l as [|s l IH]; simpl; [done|]. intros Hnd. destruct (live s) eqn:El; destruct (p s); simpl; rewrite ?El; simpl in *.
  - inversion_clear Hnd as [|? ? Hn Hd]. constructor; [|by apply IH]. intros Hin. apply Hn.
    apply list_elem_of_In in Hin. apply list_elem_of_In. apply in_map_iff in Hin as (x & <- & [[Hx _]%filter_In Hlx]%filter_In). apply in_map, filter_In. done.
  - inversion_clear Hnd. by apply IH.
  - by apply IH.
  - by apply IH.
Qed.
Lemma unsubscribe_inv r k sink : hub_inv r -> hub_inv (hstep r (OUnsubscribe k sink)).
Proof.
  intros Hr. simpl. unfold unsubscribe. destruct (sm_find k (entries_ (hub r))) as [e|] eqn:E; [|by destruct r]. simpl.
  assert (entry k (hub r) = e) as Ee by (unfold entry; by rewrite E). destruct Hr as [H1 H2 H3 H3b H4 H5 H6 H7 H8].
  split; simpl; try done.
  - intros k'. rewrite entry_set. case_bool_decide as Hk; [subst k'; simpl; rewrite <- Ee|]; apply H3.
  - intros k' it. rewrite entry_set. case_bool_decide as Hk; [subst k'; simpl; rewrite <- Ee|]; apply H3b.
  - intros k' s. rewrite entry_set. case_bool_decide as Hk; [|apply H6]. subst k'. simpl. intros [Hin _]%filter_In. apply H6. by rewrite Ee.
  - intros k'. rewrite entry_set. case_bool_decide as Hk; [|apply H7]. simpl. specialize (H7 k). rewrite Ee in H7. by apply filter_sublist_nodup.
Qed.
Lemma wait_calmer (p : Sub -> bool) l : Forall2 calmer l (map (fun s => if p s then wait_for_keyframe s else s) l).
Proof. induction l as [|s l IH]; simpl; constructor; [|done]. by destruct (p s). Qed.
Lemma resync_inv r k sink : hub_inv r -> hub_inv (hstep r (OResync k sink)).
Proof.
  intros Hr. simpl. unfold resync. destruct (sm_find k (entries_ (hub r))) as [e|] eqn:E; [|by destruct r].
  apply hub_inv_calmer; [done | |]; unfold entry; rewrite E; simpl; [by left | apply (wait_calmer (fun s => alive r (sub_sink s) && Nat.eqb (sub_sink s) sink))].
Qed.
Lemma clear_inv r k : hub_inv r -> hub_inv (hstep r (OClear k)).
Proof.
  intros Hr. simpl. unfold clear. destruct (sm_find k (entries_ (hub r))) as [e|] eqn:E; [|by destruct r].
  apply hub_inv_calmer; [done | |]; unfold entry; rewrite E; simpl; [by right | apply (wait_calmer (fun _ => true))].
Qed.
Lemma alive_expire r sink x : alive {| r with dead := sink :: dead r |} x = true -> alive r x = true.
Proof. unfold alive. simpl. by destruct (Nat.eqb x sink). Qed.
Lemma expire_sink_inv r sink : hub_inv r -> hub_inv (hstep r (OExpire sink)).
Proof.
  intros [H1 H2 H3 H3b H4 H5 H6 H7 H8]. split; simpl; try done.
  - intros k s Hin Ha%alive_expire. by apply H6.
  - intros k. assert (List.filter (fun s => alive {| r with dead := sink :: dead r |} (sub_sink s)) (subs (entry k (hub r)))
      = List.filter (fun s => alive {| r with dead := sink :: dead r |} (sub_sink s)) (List.filter (fun s => alive r (sub_sink s)) (subs (entry k (hub r))))) as ->.
    { induction (subs (entry k (hub r))) as [|s l IH]; simpl; [done|]. destruct (alive r (sub_sink s)) eqn:E; simpl; [by rewrite IH|].
      destruct (alive {| r with dead := sink :: dead r |} (sub_sink s)) eqn:E'; [apply alive_expire in E'; congruence | done]. }
    specialize (H7 k). induction (List.filter (fun s => alive r (sub_sink s)) (subs (entry k (hub r)))) as [|s l IH]; simpl; [done|].
    inversion_clear H7 as [|? ? Hn Hd]. destruct (alive {| r with dead := sink :: dead r |} (sub_sink s)); [|by apply IH]. simpl. constructor; [|by apply IH]. intros Hin. apply Hn.
    apply list_elem_of_In in Hin. apply list_elem_of_In. apply in_map_iff in Hin as (x & <- & [Hx _]%filter_In). by apply in_map.
Qed.
Lemma new_run_inv n : hub_inv (new_run n).
Proof.
  split; simpl; try done.
  - constructor.
  - intros k. by exists [].
  - intros k. constructor.
  - intros l1 g l2 E. by destruct l1.
Qed.
Lemma hstep_inv r o : hub_inv r -> op_ok r o = true -> hub_inv (hstep r o).
Proof.
  destruct o as [k s|accepts|k sink|k sink|k sink|k|sink]; intros Hr Hok.
  - apply push_inv; [done|]. simpl in Hok. by destruct s.
  - by apply deliver_inv.
  - simpl in Hok. apply andb_prop in Hok as [Ha Hn%negb_true_iff]. by apply subscribe_inv.
  - by apply unsubscribe_inv.
  - by apply resync_inv.
  - by apply clear_inv.
  - by apply expire_sink_inv.
Qed.
Lemma hub_run_inv l : forall r, hub_inv r -> run_ok r l = true -> hub_inv (foldl hstep r l).
Proof. induction l as [|o l IH]; intros r Hr Hl; simpl in *; [done|]. apply andb_prop in Hl as [H1 H2]. apply IH; [by apply hstep_inv | done]. Qed.


Definition key_frame : Sample := Some {| b_pts := Some 0; b_dts := Some 0; delta_unit := false |}.
Definition delta_frame : Sample := Some {| b_pts := Some 1; b_dts := Some 1; delta_unit := true |}.
Definition cam : HubKey := ("cam", "active")%string.
Definition yes (_ : nat) : bool := true.
(** A late joiner: the ring first, then what was still queued. *)
Definition late_join : list HubOp :=
  [OPush cam key_frame; OPush cam delta_frame; ODeliver yes; OSubscribe cam 7; OPush cam delta_frame; ODeliver yes; ODeliver yes; ODeliver yes; ODeliver yes].

(** Five frames behind, with a ring of two. *)
Definition overrun : list HubOp :=
  [OSubscribe cam 7; OPush cam key_frame; OPush cam delta_frame; OPush cam delta_frame; OPush cam delta_frame; OPush cam delta_frame;
   ODeliver yes; OPush cam delta_frame; ODeliver yes].
(** An overrun is not resynchronised. With the thread behind by more than a ring, [pop] drops
    the queued frames up to the next keyframe of any track, but the subscribers they were for
    are not told to wait for a keyframe: the viewer gets frame 6 right after frame 1, and cannot
    decode it. *)
Theorem overrun_breaks_decoding : let r := foldl hstep (new_run 2) overrun in
  got r = [{| g_sink := 7; g_key := cam; g_seq := 1; g_kf := true |}; {| g_sink := 7; g_key := cam; g_seq := 6; g_kf := false |}]
  /\ of_key cam (frames r) = [1; 2; 3; 4; 5; 6] /\ ~ decodable (frames r) (got r).
Proof.
  intros r. assert (got r = [{| g_sink := 7; g_key := cam; g_seq := 1; g_kf := true |}; {| g_sink := 7; g_key := cam; g_seq := 6; g_kf := false |}]) as Eg by reflexivity.
  assert (of_key cam (frames r) = [1; 2; 3; 4; 5; 6]) as Ef by reflexivity. split; [done|]. split; [done|]. intros Hd.
  destruct (Hd _ _ [] (eq_trans Eg eq_refl : got r = [_] ++ [_]) eq_refl) as (p & [= <-] & Hn). change (next_frame [1; 2; 3; 4; 5; 6] 1 6) in Hn. destruct Hn as (_ & _ & Hz).
  destruct (Hz 3); simpl; [tauto | lia | lia].
Qed.

(** Between the two critical sections of [subscribe] the delivery thread may run. *)
Definition racing : FrameHub * list (nat * Buffer) :=
  let h := push cam key_frame (new_hub 10) in
  let h := match pop h with Some (w, h) => (deliver yes yes w h).1 | None => h end in
  let '(h, catch_up, _) := subscribe_enter yes cam 7 h in
  let h := push cam delta_frame h in
  let h := match pop h with Some (w, h) => (deliver yes yes w h).1 | None => h end in
  let h := push cam delta_frame (subscribe_queue catch_up h) in
  match pop h with
  | Some (w1, h) => let '(h, t1) := deliver yes yes w1 h in
    match pop h with Some (w2, h) => let '(h, t2) := deliver yes yes w2 h in (h, t1 ++ t2) | None => (h, t1) end
  | None => (h, [])
  end.
(** A late joiner can lose a frame without an overrun: [subscribe] leaves [mutex_] before it
    queues the catch-up, and a frame pushed and delivered in between is dropped for the joiner
    (it still waits for its keyframe) although the catch-up, taken before, does not have it. The
    joiner is then given the keyframe 1 and frame 3, and never frame 2. *)
Theorem late_join_race : exists h s, racing.1 = h /\ subs (entry cam h) = [s] /\ sub_sink s = 7%nat /\ last_seq s = 3 /\ delivered s = 2 /\ sub_dropped s = 1
  /\ waiting_keyframe s = false /\ map ri_seq (ring (entry cam h)) = [1; 2; 3].
Proof. do 2 eexists. split; [reflexivity|]. split; [vm_compute; reflexivity|]. split_and!; reflexivity. Qed.
