(* ===== verification/MediaPlane.v ===== *)
(** * MediaPlane: track registrations, producers on demand, rate targets, recovery (media/media_plane.cpp)

    Producers (GStreamer encode pipelines) and sources are interfaces: [ProducerApi] is what the
    plane calls of a producer, [SourceApi] what it reads of a source. Times are nanoseconds of the
    steady clock; timers are recorded as armed and their callbacks are functions of their own.
    What the plane tells the agent is the [PlaneEvent]s an operation returns. *)

From Stdlib Require Import ZArith Lia String SpecFloat.
From stdpp Require Import base list strings.
From S2P Require Import Prelude StdMap Protocol Consumer Floats.

Class ProducerApi (P : Type) := {
  p_build : string -> option P;               (* [None]: build() failed *)
  p_pipeline : P -> bool;
  p_start_tier : string -> P -> P * bool;
  p_stop_tier : string -> P -> P;
  p_has_tier : string -> P -> bool;
  p_tier_possible : string -> P -> bool;
  p_passthrough : P -> bool;
  p_band_kbps : string -> P -> Z * Z;
  p_set_bitrate : string -> Z -> P -> P;
  p_set_sharpness : bool -> P -> P;
  p_request_keyframe : string -> P -> P;
  p_error_in_source : P -> bool;
  p_error : P -> string
}.
Class SourceApi := {
  s_available : nat -> bool;
  s_reason : nat -> string;
  s_outputs : nat -> list (string * string) (* name, declared caps *)
}.

Record PlaneConfig := { active_kbps : Z; active_floor_kbps : Z; thumbnail_kbps : Z }.
Record TrackRegistration := { r_spec : TrackSpec; r_output : string; r_cap : string; r_stamp : bool }.
Record Registered {P : Type} := {
  refs : Z; reg : TrackRegistration; producer : option P; restarts : Z; last_error : Z; source_error : string;
  restart_timer : option Z;                     (* its delay, when armed *)
  grace_timers : list (string * unit);
  last_keyframe : list (string * Z);
  keyframe_timers : list (string * Z)           (* tier, when it is due *)
}.
Arguments Registered P : clear implicits.
Record Allotment := { bps : dbl; a_at : Z }.
Record MediaPlane {P : Type} := {
  p_tracks : list (string * Registered P);
  rebuilds_ : list Z;
  allotments_ : list ((string * string) * list (Z * Allotment)); (* (track, tier): subscriber, share *)
  sharp_ : list (string * list (Z * unit));
  p_rate_timer : bool
}.
Arguments MediaPlane P : clear implicits.
Inductive PlaneEvent := ProducerEvent (track event : string) | RebuildNeeded (reason : string).

Definition SECOND : Z := 10 ^ 9.
Definition MILLI : Z := 10 ^ 6.

Section MediaPlane.
Context {P : Type} `{PA : ProducerApi P} `{SA : SourceApi} (config_ : PlaneConfig).
Implicit Types (r : Registered P) (p : MediaPlane P) (id tier : string).

Definition set_track id r p : MediaPlane P := {| p with p_tracks := sm_set id r (p_tracks p) |}.
Definition new_plane : MediaPlane P := {| p_tracks := []; rebuilds_ := []; allotments_ := []; sharp_ := []; p_rate_timer := false |}.

(** ** Registrations *)
Definition plane_register_track (x : TrackRegistration) p : MediaPlane P :=
  let id := spec_id (r_spec x) in
  match sm_find id (p_tracks p) with
  | Some r => set_track id {| r with reg := x; refs := refs r + 1 |} p
  | None => set_track id {| refs := 1; reg := x; producer := None; restarts := 0; last_error := 0; source_error := ""; restart_timer := None;
                            grace_timers := []; last_keyframe := []; keyframe_timers := [] |} p
  end.
Definition plane_unregister_track id p : MediaPlane P :=
  match sm_find id (p_tracks p) with
  | None => p
  | Some r => if refs r - 1 <=? 0 then {| p with p_tracks := sm_erase id (p_tracks p) |} else set_track id {| r with refs := refs r - 1 |} p
  end.
(** [track_available]: [Some reason] when it is not. *)
Definition unavailable id p : option string :=
  match sm_find id (p_tracks p) with
  | None => Some "unknown track"%string
  | Some r =>
    match spec_source (r_spec (reg r)) with
    | None => Some "no source"%string
    | Some s => if s_available s then None else Some (if String.eqb (s_reason s) "" then "source unavailable"%string else s_reason s)
    end
  end.

(** ** Producers on demand *)
Definition sharp id p : bool := match sm_find id (sharp_ p) with Some (_ :: _) => true | _ => false end.
Definition ensure_producer id r p : Registered P * bool :=
  if match producer r with Some x => p_pipeline x | None => false end then (r, true)
  else
    match p_build id with
    | None => (r, false)
    | Some x => ({| r with producer := Some (if sharp id p then p_set_sharpness true x else x) |}, true)
    end.

Definition restart_delay_ms (source_failure : bool) (n : Z) : Z :=
  if source_failure then Z.min 30000 (Z.shiftl 1000 (Z.min (n - 1) 5)) else Z.min 5000 (Z.shiftl 500 (n - 1)).
Definition restart_producer id (error : string) (now : Z) p : MediaPlane P * list PlaneEvent :=
  match sm_find id (p_tracks p) with
  | None => (p, [])
  | Some r =>
    let n := (if 60 * SECOND <? now - last_error r then 0 else restarts r) + 1 in
    let r := {| r with restarts := n; last_error := now |} in
    let gone := unavailable id p in
    let source_failure := match producer r with Some x => p_error_in_source x | None => false end || match gone with Some _ => true | None => false end in
    let r := match gone with
             | Some reason => {| r with source_error := if String.eqb reason "" then error else reason |}
             | None => if source_failure then {| r with source_error := error |} else r
             end in
    if negb source_failure && (5 <? n) then (set_track id r p, [RebuildNeeded ("producer:" +:+ id +:+ ": " +:+ error)])
    else (set_track id {| r with producer := None; restart_timer := Some (restart_delay_ms source_failure n) |} p,
          [ProducerEvent id (if source_failure then "source-failed" else "producer-restart")])
  end.
(** The timer [restart_producer] arms; [count] is the hub's subscriber count. *)
Definition restart_fire id (count : string -> Z) (now : Z) p : MediaPlane P * list PlaneEvent :=
  match sm_find id (p_tracks p) with
  | None => (p, [])
  | Some r =>
    let r := {| r with restart_timer := None |} in
    let p := set_track id r p in
    if negb ((0 <? count "active"%string) || (0 <? count "thumbnail"%string)) then (p, [])
    else
      match unavailable id p with
      | Some reason => restart_producer id reason now (set_track id {| r with source_error := reason |} p)
      | None =>
        let '(r, ok) := ensure_producer id r p in
        if negb ok then restart_producer id (match producer r with Some x => p_error x | None => "build failed"%string end) now (set_track id r p)
        else
          let start t x := if 0 <? count t then (p_start_tier t x).1 else x in
          (set_track id {| r with source_error := ""; producer := (fun x => start "thumbnail"%string (start "active"%string x)) <$> producer r |} p, [])
      end
  end.
Definition on_demand id tier (subscribers : Z) (now : Z) p : MediaPlane P * list PlaneEvent :=
  match sm_find id (p_tracks p) with
  | None => (p, [])
  | Some r =>
    if 0 <? subscribers then
      let r := {| r with grace_timers := sm_erase tier (grace_timers r) |} in
      let '(r, ok) := ensure_producer id r p in
      match producer r with
      | Some x =>
        if negb ok then (set_track id r p, [])
        else
          let '(x', started) := p_start_tier tier x in
          let r := {| r with producer := Some x' |} in
          if started then (set_track id r p, [ProducerEvent id "state-changed"])
          else restart_producer id (p_error x') now (set_track id r p)
      | None => (set_track id r p, [])
      end
    else (set_track id {| r with grace_timers := sm_set tier tt (grace_timers r) |} p, [])
  end.
(** Zero demand for [tier_grace_ms]. *)
Definition grace_fire id tier (count : Z) p : MediaPlane P * list PlaneEvent :=
  match sm_find id (p_tracks p) with
  | None => (p, [])
  | Some r =>
    match producer r with
    | None => (p, [])
    | Some x =>
      if 0 <? count then (p, [])
      else (set_track id {| r with producer := Some (p_stop_tier tier x); grace_timers := sm_erase tier (grace_timers r) |} p, [ProducerEvent id "state-changed"])
    end
  end.

(** ** Keyframe requests: at most one per second and tier, deferred and not dropped *)
Definition KEYFRAME_WINDOW : Z := SECOND.
Definition request_keyframe id tier (now : Z) p : MediaPlane P :=
  match sm_find id (p_tracks p) with
  | None => p
  | Some r =>
    match producer r with
    | None => p
    | Some x =>
      let issue := set_track id {| r with last_keyframe := sm_set tier now (last_keyframe r); producer := Some (p_request_keyframe tier x) |} p in
      match sm_find tier (last_keyframe r) with
      | None => issue
      | Some last =>
        if now - last <? KEYFRAME_WINDOW then
          if sm_count tier (keyframe_timers r) then p
          else
            let wait := (KEYFRAME_WINDOW - (now - last)) / MILLI * MILLI + MILLI in
            set_track id {| r with keyframe_timers := sm_set tier (now + wait) (keyframe_timers r) |} p
        else issue
      end
    end
  end.
Definition keyframe_fire id tier (now : Z) p : MediaPlane P :=
  match sm_find id (p_tracks p) with
  | None => p
  | Some r => request_keyframe id tier now (set_track id {| r with keyframe_timers := sm_erase tier (keyframe_timers r) |} p)
  end.

(** ** Rate targets *)
Definition drop_empty {K V} (l : list (K * list V)) : list (K * list V) := List.filter (fun kv => match kv.2 with [] => false | _ => true end) l.
Definition report_allotment id tier (subscriber : Z) (share : dbl) (now : Z) p : MediaPlane P :=
  let others := map (fun kv => (kv.1, if String.eqb kv.1.1 id && negb (String.eqb kv.1.2 tier) then sm_erase subscriber kv.2 else kv.2)) (allotments_ p) in
  let kept := drop_empty others in
  let mine := default [] (sm_find (id, tier) kept) in
  {| p with allotments_ := sm_set (id, tier) (sm_set subscriber {| bps := share; a_at := now |} mine) kept; p_rate_timer := true |}.
Definition apply_sharpness id p : MediaPlane P :=
  match sm_find id (p_tracks p) with
  | None => p
  | Some r => match producer r with None => p | Some x => set_track id {| r with producer := Some (p_set_sharpness (sharp id p) x) |} p end
  end.
Definition forget_allotment (subscriber : Z) p : MediaPlane P :=
  let p1 := {| p with allotments_ := drop_empty (map (fun kv => (kv.1, sm_erase subscriber kv.2)) (allotments_ p)) |} in
  foldl (fun q kv => if sm_count subscriber (kv : string * list (Z * unit)).2
                     then apply_sharpness kv.1 {| q with sharp_ := sm_set kv.1 (sm_erase subscriber kv.2) (sharp_ q) |} else q) p1 (sharp_ p1).
Definition report_preference id (subscriber : Z) (sharpness : bool) p : MediaPlane P :=
  let viewers := default [] (sm_find id (sharp_ p)) in
  let changed := negb (Bool.eqb sharpness (sm_count subscriber viewers)) in
  let p := {| p with sharp_ := sm_set id (if sharpness then sm_set subscriber tt viewers else sm_erase subscriber viewers) (sharp_ p) |} in
  if changed then apply_sharpness id p else p.

(** [shape_of]: an elementary stream, and a substream to demote to. *)
Definition shape_of (x : TrackRegistration) : bool * bool :=
  match spec_source (r_spec x) with
  | None => (false, false)
  | Some s => foldl (fun acc o => (if String.eqb (fst o) (r_output x) then starts_with (chars "video/x-h26") (chars (snd o)) else fst acc,
                                   snd acc || String.eqb (fst o) "thumbnail")) (false, false) (s_outputs s)
  end.
Definition tier_possible id tier p : bool :=
  match sm_find id (p_tracks p) with
  | None => false
  | Some r =>
    if negb (String.eqb tier "active") && negb (String.eqb tier "thumbnail") then false
    else if bool_decide (spec_kind (r_spec (reg r)) = Audio) then String.eqb tier "active"
    else match producer r with
         | Some x => p_tier_possible tier x
         | None => let '(elementary, substream) := shape_of (reg r) in negb elementary || String.eqb tier "active" || substream
         end
  end.
Definition adaptive id p : bool :=
  match sm_find id (p_tracks p) with
  | None => true
  | Some r =>
    if bool_decide (spec_kind (r_spec (reg r)) = Audio) then false
    else negb (match producer r with Some x => p_passthrough x | None => (shape_of (reg r)).1 end) || tier_possible id "thumbnail" p
  end.
Definition default_band tier : Z * Z :=
  if String.eqb tier "thumbnail" then (Z.min (active_floor_kbps config_) (thumbnail_kbps config_), thumbnail_kbps config_)
  else (Z.max (active_floor_kbps config_) (Z.quot (active_kbps config_) 2), active_kbps config_).
Definition band_kbps id tier p : Z * Z :=
  match sm_find id (p_tracks p) with
  | Some r => match producer r with Some x => p_band_kbps tier x | None => default_band tier end
  | None => default_band tier
  end.

(** The least share, as the loop computes it, and the encoder's target. *)
Definition deqb (a b : dbl) : bool := SFeqb a b.
Definition min_share (subs : list (Z * Allotment)) : dbl :=
  foldl (fun m s => if deqb m (of_Z 0) then bps (s : Z * Allotment).2 else dmin m (bps s.2)) (of_Z 0) subs.
Definition target_kbps (band : Z * Z) (subs : list (Z * Allotment)) : dbl :=
  let low := match subs with [_] => dmin (of_Z band.1) (of_Z (active_floor_kbps config_)) | _ => of_Z band.1 end in
  dmin (of_Z band.2) (dmax low (ddiv (min_share subs) (of_Z 1000))).
(** [static_cast<int>] of a value that fits. *)
Definition to_int (d : dbl) : Z :=
  match d with
  | S754_finite s m e =>
    let v := match e with Z0 => Zpos m | Zpos q => Zpos m * 2 ^ Zpos q | Zneg q => Z.shiftr (Zpos m) (Zpos q) end in if s then - v else v
  | _ => 0
  end.
Definition STALE_REPORT : Z := 3 * SECOND.
Definition apply_targets (now : Z) p : MediaPlane P :=
  let fresh := drop_empty (map (fun kv => (kv.1, List.filter (fun s => negb (STALE_REPORT <? now - a_at (snd s))) kv.2)) (allotments_ p)) in
  foldl (fun q kv =>
    match sm_find (fst (fst kv)) (p_tracks q) with
    | Some r =>
      match producer r with
      | Some x =>
        if p_has_tier (snd (fst kv)) x
        then set_track (fst (fst kv)) {| r with producer := Some (p_set_bitrate (snd (fst kv)) (to_int (target_kbps (p_band_kbps (snd (fst kv)) x) (snd kv))) x) |} q
        else q
      | None => q
      end
    | None => q
    end) {| p with allotments_ := fresh |} fresh.
(** The 500 ms timer: goes on while anybody reports. *)
Definition rate_fire (now : Z) p : MediaPlane P :=
  let p := apply_targets now p in {| p with p_rate_timer := match allotments_ p with [] => false | _ => true end |}.

(** ** Recovery *)
Definition rebuild (now : Z) p : MediaPlane P * list PlaneEvent :=
  ({| p with rebuilds_ := List.filter (fun t => negb (600 * SECOND <? now - t)) (rebuilds_ p ++ [now]);
             p_tracks := map (fun kv => (kv.1, {| (kv.2) with producer := None; restarts := 0; grace_timers := []; restart_timer := None |})) (p_tracks p) |},
   [ProducerEvent "" "plane-rebuild"]).
Definition rebuilds_in_window p : Z := zlen (rebuilds_ p).

(** ** Keyframes *)
Lemma find_set_track id id' r p : sm_find id' (p_tracks (set_track id r p)) = if String.eqb id' id then Some r else sm_find id' (p_tracks p).
Proof. unfold set_track. simpl. case_bool; [subst; by rewrite sm_find_set_eq | by rewrite sm_find_set_ne]. Qed.
(** What the deferral timer is set to: after the window, by no more than a millisecond. *)
Lemma deferral_window now last : last <= now -> now - last < KEYFRAME_WINDOW ->
  let due := now + ((KEYFRAME_WINDOW - (now - last)) / MILLI * MILLI + MILLI) in last + KEYFRAME_WINDOW < due <= last + KEYFRAME_WINDOW + MILLI.
Proof.
  intros Hn Hw due. unfold due. pose proof (Z.div_mod (KEYFRAME_WINDOW - (now - last)) MILLI ltac:(unfold MILLI; lia)).
  pose proof (Z.mod_pos_bound (KEYFRAME_WINDOW - (now - last)) MILLI ltac:(unfold MILLI; lia)). lia.
Qed.
(** A track that is being produced and was last asked for a keyframe at [last]. *)
Definition asked id tier last r x p : Prop := sm_find id (p_tracks p) = Some r /\ producer r = Some x /\ sm_find tier (last_keyframe r) = Some last.
Lemma request_outside id tier last r x p now : asked id tier last r x p -> KEYFRAME_WINDOW <= now - last ->
  exists r', sm_find id (p_tracks (request_keyframe id tier now p)) = Some r' /\ producer r' = Some (p_request_keyframe tier x) /\ sm_find tier (last_keyframe r') = Some now.
Proof.
  intros (Hr & Hx & Hl) Hw. unfold request_keyframe. rewrite Hr, Hx, Hl. destruct (Z.ltb_spec (now - last) KEYFRAME_WINDOW); [lia|].
  rewrite find_set_track, String.eqb_refl. eexists. split; [done|]. simpl. by rewrite sm_find_set_eq.
Qed.

(** C36: keyframe requests to a tier's encoder are at least a second apart, and none is lost: one
    that comes inside the window of the last leaves the encoder alone and leaves exactly one
    deferred request, due within a millisecond after the window, which is made whenever the
    timer fires from then on, unless another was made meanwhile; one that comes later is made
    at once. *)
Theorem keyframes_spaced_not_lost id tier last r x p now : asked id tier last r x p -> last <= now ->
  if now - last <? KEYFRAME_WINDOW then
    exists r' due, sm_find id (p_tracks (request_keyframe id tier now p)) = Some r' /\ producer r' = Some x /\ sm_find tier (last_keyframe r') = Some last
      /\ sm_find tier (keyframe_timers r') = Some due
      /\ (sm_find tier (keyframe_timers r) = None -> last + KEYFRAME_WINDOW < due <= last + KEYFRAME_WINDOW + MILLI
          /\ forall t, due <= t -> exists r2, sm_find id (p_tracks (keyframe_fire id tier t (request_keyframe id tier now p))) = Some r2
               /\ producer r2 = Some (p_request_keyframe tier x) /\ sm_find tier (last_keyframe r2) = Some t /\ sm_find tier (keyframe_timers r2) = None)
  else exists r', sm_find id (p_tracks (request_keyframe id tier now p)) = Some r' /\ producer r' = Some (p_request_keyframe tier x)
                  /\ sm_find tier (last_keyframe r') = Some now.
Proof.
  intros Ha Hn. destruct (Z.ltb_spec (now - last) KEYFRAME_WINDOW) as [Hw|Hw]; [|by eapply request_outside]. pose proof Ha as (Hr & Hx & Hl).
  pose proof (deferral_window now last Hn Hw) as Hdue. cbv zeta in Hdue. set (due := now + _) in *.
  assert (request_keyframe id tier now p = if sm_count tier (keyframe_timers r) then p else set_track id {| r with keyframe_timers := sm_set tier due (keyframe_timers r) |} p) as ->.
  { unfold request_keyframe. rewrite Hr, Hx, Hl. by destruct (Z.ltb_spec (now - last) KEYFRAME_WINDOW); [|lia]. }
  unfold sm_count. destruct (sm_find tier (keyframe_timers r)) as [d|] eqn:Et.
  - exists r, d. by split_and!.
  - set (r1 := {| r with keyframe_timers := _ |}). exists r1, due. rewrite find_set_track, String.eqb_refl. split; [done|]. split; [done|]. split; [done|].
    simpl. rewrite sm_find_set_eq. split; [done|]. intros _. split; [done|]. intros t Ht. unfold keyframe_fire. rewrite find_set_track, String.eqb_refl.
    set (r1' := {| r1 with keyframe_timers := sm_erase tier (keyframe_timers r1) |}). set (p1 := set_track id r1' _).
    assert (asked id tier last r1' x p1) as Ha1 by (split; [unfold p1; by rewrite find_set_track, String.eqb_refl | done]).
    unfold request_keyframe. destruct Ha1 as (-> & -> & ->). destruct (Z.ltb_spec (t - last) KEYFRAME_WINDOW); [lia|].
    rewrite find_set_track, String.eqb_refl. eexists. split; [done|]. simpl. rewrite sm_find_set_eq. split; [done|]. split; [done|]. apply sm_find_erase_eq.
Qed.

(** ** One tier per viewer *)
Definition shares_in p id tier (s : Z) : Prop := exists subs a, In ((id, tier), subs) (allotments_ p) /\ In (s, a) subs.
Inductive AOp := AReport id tier (s : Z) (share : dbl) (now : Z) | AForget (s : Z) | ATargets (now : Z).
Definition astep p (o : AOp) : MediaPlane P :=
  match o with AReport id tier s share now => report_allotment id tier s share now p | AForget s => forget_allotment s p | ATargets now => rate_fire now p end.
Definition one_tier p : Prop := forall id t1 t2 s, shares_in p id t1 s -> shares_in p id t2 s -> t1 = t2.

Lemma In_sm_set {K V} `{OrdKey K} (k : K) (v : V) m x : In x (sm_set k v m) -> x = (k, v) \/ In x m.
Proof. induction m as [|[k' v'] m IH]; simpl; [naive_solver|]. destruct (kcmp k k'); simpl; naive_solver. Qed.
Lemma In_sm_erase {K V} `{OrdKey K} (k : K) (m : list (K * V)) x : In x (sm_erase k m) -> In x m /\ x.1 <> k.
Proof. induction m as [|[k' v'] m IH]; simpl; [done|]. destruct (keqb_spec k k') as [->|]; simpl; naive_solver. Qed.
Lemma forget_allotments s p : allotments_ (forget_allotment s p) = drop_empty (map (fun kv => (kv.1, sm_erase s kv.2)) (allotments_ p)).
Proof.
  unfold forget_allotment. set (p1 := {| p with allotments_ := _ |}). assert (allotments_ p1 = drop_empty (map (fun kv => (kv.1, sm_erase s kv.2)) (allotments_ p))) as <- by done.
  generalize (sharp_ p1) as l. intros l. generalize p1. induction l as [|kv l IH]; intros q; simpl; [done|]. rewrite IH. destruct (sm_count s kv.2); [|done].
  unfold apply_sharpness. simpl. destruct (sm_find kv.1 (p_tracks q)) as [r|]; [|done]. by destruct (producer r).
Qed.
Lemma targets_allotments now p : allotments_ (apply_targets now p) =
  drop_empty (map (fun kv => (kv.1, List.filter (fun s => negb (STALE_REPORT <? now - a_at (snd s))) kv.2)) (allotments_ p)).
Proof.
  unfold apply_targets. match goal with |- allotments_ (foldl ?f _ _) = _ => assert (forall l q, allotments_ (foldl f q l) = allotments_ q) as Hf; [|by rewrite Hf] end.
  clear p. induction l as [|kv l IH]; intros q; simpl; [done|]. rewrite IH.
  destruct (sm_find kv.1.1 (p_tracks q)) as [r|]; [|done]. destruct (producer r) as [x|]; [|done]. by destruct (p_has_tier kv.1.2 x).
Qed.
(** Nobody gains a share by others leaving or going stale. *)
Lemma shrink_shares (f : list (Z * Allotment) -> list (Z * Allotment)) l id tier s :
  (forall subs x, In x (f subs) -> In x subs) -> (exists subs a, In ((id, tier), subs) (drop_empty (map (fun kv => (kv.1, f kv.2)) l)) /\ In (s, a) subs) ->
  exists subs a, In ((id, tier), subs) l /\ In (s, a) subs.
Proof.
  intros Hf (subs & a & [Hin _]%filter_In & Hs). apply in_map_iff in Hin as ([k subs0] & [= <- <-] & Hin). exists subs0, a. split; [done|]. by apply Hf.
Qed.
Lemma astep_one_tier p o : one_tier p -> one_tier (astep p o).
Proof.
  intros Hp. destruct o as [id tier s share now|s|now]; simpl.
  - intros id' t1 t2 s'.
    assert (forall t, shares_in (report_allotment id tier s share now p) id' t s' -> (shares_in p id' t s' /\ (id' = id -> s' = s -> t = tier)) \/ (id' = id /\ s' = s /\ t = tier)) as Hr.
    { intros t (subs & a & Hin & Hs). unfold report_allotment in Hin. simpl in Hin. set (kept := drop_empty _) in Hin.
      assert (forall k subs0, In (k, subs0) kept -> exists subs1, In (k, subs1) (allotments_ p) /\ (forall x, In x subs0 -> In x subs1 /\ (k.1 = id -> k.2 <> tier -> x.1 <> s))) as Hk.
      { intros k subs0 [H _]%filter_In. apply in_map_iff in H as ([k1 subs1] & [= <- <-] & H). exists subs1. split; [done|]. intros x Hx. simpl in Hx.
        destruct (String.eqb_spec k1.1 id), (String.eqb_spec k1.2 tier); simpl in Hx; try (split; [done | congruence]). apply In_sm_erase in Hx as [? ?]. done. }
      apply In_sm_set in Hin as [[= -> -> ->]|Hin].
      - apply In_sm_set in Hs as [[= -> ->]|Hs]; [by right|]. left. split; [|done]. destruct (sm_find (id, tier) kept) as [mine|] eqn:Em; [|done]. simpl in Hs.
        apply sm_find_In, Hk in Em as (subs1 & Hin1 & Hsub). exists subs1, a. split; [done|]. by apply Hsub.
      - left. destruct (Hk _ _ Hin) as (subs1 & Hin1 & Hsub). destruct (Hsub _ Hs) as [Hs1 Hne]. split; [by exists subs1, a|].
        intros -> ->. simpl in Hne. destruct (decide (t = tier)); [done|]. by destruct Hne. }
    intros H1%Hr H2%Hr. destruct H1 as [[H1 E1]|(-> & -> & ->)], H2 as [[H2 E2]|(E3 & E4 & ->)]; [by eapply Hp | by apply E1 | symmetry; by apply E2 | done].
  - assert (forall id t s', shares_in (forget_allotment s p) id t s' -> shares_in p id t s') as Hr.
    { intros id t s'. unfold shares_in. rewrite forget_allotments. apply (shrink_shares (sm_erase s)). intros subs x Hx. by apply In_sm_erase in Hx as [? _]. }
    intros id t1 t2 s' H1%Hr H2%Hr. by eapply Hp.
  - assert (forall id t s', shares_in (rate_fire now p) id t s' -> shares_in p id t s') as Hr.
    { intros id t s'. unfold shares_in, rate_fire. simpl. rewrite targets_allotments. apply (shrink_shares (List.filter (fun s => negb (STALE_REPORT <? now - a_at (snd s))))).
      intros subs x Hx. by apply filter_In in Hx as [? _]. }
    intros id t1 t2 s' H1%Hr H2%Hr. by eapply Hp.
Qed.
(** Whatever viewers report, leave or go stale, a viewer has a share in at most one tier of a
    track, so it never steers the encoder of a tier it left. *)
Theorem viewer_in_one_tier ops id t1 t2 s :
  let p := foldl astep new_plane ops in shares_in p id t1 s -> shares_in p id t2 s -> t1 = t2.
Proof.
  intros p. assert (forall q, one_tier q -> one_tier (foldl astep q ops)) as Hrun.
  { induction ops as [|o l IH]; intros q Hq; simpl; [done|]. by apply IH, astep_one_tier. }
  apply Hrun. intros i a b s' (subs & x & [] & _).
Qed.

(** ** Recovery and rate targets *)
Lemma shiftl_pow a n : 0 <= n -> Z.shiftl a n = a * 2 ^ n.
Proof. intros. by apply Z.shiftl_mul_pow2. Qed.
Lemma restart_delay_range b n : 1 <= n -> (b = false -> n <= 5) -> 500 <= restart_delay_ms b n <= 30000.
Proof.
  intros Hn Hb. unfold restart_delay_ms. destruct b.
  - rewrite shiftl_pow by lia. assert (1 <= 2 ^ Z.min (n - 1) 5) by (apply (Z.pow_le_mono_r 2 0); lia). lia.
  - rewrite shiftl_pow by lia. assert (1 <= 2 ^ (n - 1)) by (apply (Z.pow_le_mono_r 2 0); lia). lia.
Qed.

Lemma of_Z_num z : is_nan (of_Z z) = false.
Proof. apply normalize_num. Qed.
(** An encoder's target stays inside its tier's band when several viewers share it; a lone
    viewer's may go below, down to the configured floor, and never above. *)
Theorem target_within_band band subs : dleb (of_Z band.1) (of_Z band.2) = true -> is_nan (ddiv (min_share subs) (of_Z 1000)) = false ->
  dleb (target_kbps band subs) (of_Z band.2) = true
  /\ dleb (match subs with [_] => dmin (of_Z band.1) (of_Z (active_floor_kbps config_)) | _ => of_Z band.1 end) (target_kbps band subs) = true.
Proof.
  intros Hb Hv. unfold target_kbps. set (low := match subs with [_] => _ | _ => _ end). set (v := ddiv _ _) in *.
  pose proof (of_Z_num band.1) as N1. pose proof (of_Z_num band.2) as N2. pose proof (of_Z_num (active_floor_kbps config_)) as N3.
  assert (is_nan low = false /\ dleb low (of_Z band.2) = true) as [Nl Hl].
  { unfold low. destruct subs as [|? [|? ?]]; [done | | done]. split; [by apply dmin_nan|]. unfold dmin. destruct (dltb _ (of_Z band.1)) eqn:E; dbl_order. }
  clearbody low v. unfold dmin, dmax. destruct (dltb low v) eqn:E1.
  - destruct (dltb v (of_Z band.2)) eqn:E2; split; dbl_order.
  - destruct (dltb low (of_Z band.2)) eqn:E2; split; dbl_order.
Qed.
End MediaPlane.

(** ** Witnesses *)
Module PlaneDemo.
(** A producer that builds, with one encoder error pending or none. *)
#[export] Instance toy : ProducerApi Z := {|
  p_build _ := Some 0; p_pipeline _ := true; p_start_tier _ x := (x, true); p_stop_tier _ x := x; p_has_tier _ _ := true; p_tier_possible _ _ := true;
  p_passthrough _ := false; p_band_kbps _ _ := (500, 4000); p_set_bitrate _ _ x := x; p_set_sharpness _ x := x; p_request_keyframe _ x := x + 1;
  p_error_in_source _ := false; p_error _ := "encoder"%string |}.
Definition sources (up : bool) : SourceApi := {| s_available _ := up; s_reason _ := "unplugged"%string; s_outputs _ := [("src", "video/x-raw")]%string |}.
Definition cam : TrackRegistration := {| r_spec := {| (demo_spec) with spec_id := "cam" |}; r_output := "src"; r_cap := "fjarr.camera"; r_stamp := false |}.
Definition plane : MediaPlane Z := plane_register_track cam new_plane.
Definition running : MediaPlane Z := (on_demand (SA := sources true) "cam" "active" 1 0 plane).1.
Definition track_of (p : MediaPlane Z) : option (Registered Z) := sm_find "cam" (p_tracks p).
Definition asked_once : MediaPlane Z := request_keyframe "cam" "active" 0 running.
Definition asked_track : Registered Z := Eval vm_compute in match track_of asked_once with Some r => r | None => {| refs := 0; reg := cam; producer := None; restarts := 0;
  last_error := 0; source_error := ""; restart_timer := None; grace_timers := []; last_keyframe := []; keyframe_timers := [] |} end.
Lemma keyframes_spaced_not_lost_witness : exists r' due, sm_find "cam" (p_tracks (request_keyframe "cam" "active" 400000000 asked_once)) = Some r'
  /\ producer r' = Some 1 /\ sm_find "active" (keyframe_timers r') = Some due /\ SECOND < due <= SECOND + MILLI.
Proof.
  destruct (keyframes_spaced_not_lost "cam" "active" 0 asked_track 1 asked_once 400000000) as (r' & due & H1 & H2 & _ & H4 & H5); [split; [reflexivity | split; reflexivity] | lia |].
  exists r', due. split; [exact H1|]. split; [exact H2|]. split; [exact H4|]. exact (proj1 (H5 eq_refl)).
Defined.
Definition demo_config : PlaneConfig := {| active_kbps := 4000; active_floor_kbps := 250; thumbnail_kbps := 300 |}.
Definition reports : list AOp := [AReport "cam" "active" 1 (of_Z 1000) 0; AReport "cam" "thumbnail" 1 (of_Z 100) 5].
Lemma viewer_in_one_tier_witness : shares_in (foldl (astep demo_config) (@new_plane Z) reports) "cam" "thumbnail" 1
  /\ forall t, shares_in (foldl (astep demo_config) (@new_plane Z) reports) "cam" t 1 -> t = "thumbnail"%string.
Proof.
  assert (shares_in (foldl (astep demo_config) (@new_plane Z) reports) "cam" "thumbnail" 1) as H.
  { do 2 eexists. split; [left; reflexivity | left; reflexivity]. }
  split; [exact H|]. intros t Ht. exact (viewer_in_one_tier demo_config reports "cam" t "thumbnail" 1 Ht H).
Defined.

Definition two_viewers : list (Z * Allotment) := [(1, {| bps := of_Z 900000; a_at := 0 |}); (2, {| bps := of_Z 300000; a_at := 0 |})].
Lemma target_within_band_witness : dleb (of_Z 500) (target_kbps demo_config (500, 4000) two_viewers) = true /\ to_int (target_kbps demo_config (500, 4000) two_viewers) = 500.
Proof. split; [apply (target_within_band demo_config (500, 4000) two_viewers); vm_compute; reflexivity | vm_compute; reflexivity]. Defined.

(** A camera that is down for five attempts half a minute apart, then back, then one encoder error. *)
Definition source_down (p : MediaPlane Z) (i : Z) : MediaPlane Z := (restart_producer (SA := sources false) "cam" "unplugged" (i * 30 * SECOND) p).1.
Definition back_up : MediaPlane Z := (restart_fire (SA := sources true) "cam" (fun _ => 1) (150 * SECOND + MILLI) (foldl source_down running [1; 2; 3; 4; 5])).1.
(** Failures of the source spend the budget meant for the encode path. After a camera was
    down for a few retries, each a source failure that is promised never to take the plane down,
    the first encoder error within a minute asks for a plane rebuild, which ends every session,
    where a fresh track would be restarted five times. *)
Theorem source_failures_spend_rebuild_budget :
  (restart_producer (SA := sources false) "cam" "unplugged" (150 * SECOND) (foldl source_down running [1; 2; 3; 4])).2 = [ProducerEvent "cam" "source-failed"]
  /\ (exists r, track_of back_up = Some r /\ producer r = Some 0 /\ source_error r = ""%string /\ restarts r = 5)
  /\ (restart_producer (SA := sources true) "cam" "encoder" (170 * SECOND) back_up).2 = [RebuildNeeded "producer:cam: encoder"]
  /\ (restart_producer (SA := sources true) "cam" "encoder" (170 * SECOND) running).2 = [ProducerEvent "cam" "producer-restart"].
Proof.
  split; [vm_compute; reflexivity|]. split; [eexists; split; [vm_compute; reflexivity|]; split_and!; reflexivity|]. split; vm_compute; reflexivity.
Qed.
End PlaneDemo.
