(* ===== verification/NetAddressing.v ===== *)
(** * NetAddressing: addresses and the packet policy of the network tunnel (capabilities/net_addressing.cpp)

    Addresses are host-order [std::uint32_t]. SHA-256 is GLib's: [derive_address] takes the digest
    function as an argument. Then: addresses print and parse back, where derived addresses lie and
    when they do not, and the isolation the policy gives. *)

From Stdlib Require Import ZArith Lia Strings.Byte Ascii String.
From stdpp Require Import base list strings.
From S2P Require Import Prelude.

(** ** Text *)
Definition digit (c : ascii) : option Z := if (48 <=? chr c) && (chr c <=? 57) then Some (chr c - 48) else None.
Fixpoint digits_value (acc : Z) (s : list ascii) : option Z :=
  match s with [] => Some acc | c :: s' => match digit c with Some d => digits_value (acc * 10 + d) s' | None => None end end.
(** [std::from_chars] over the whole text: digits only, and in range of the type. *)
Definition from_chars_unsigned (s : list ascii) : option Z :=
  match s with
  | [] => None
  | _ => match digits_value 0 s with Some v => if v <? 2 ^ 32 then Some v else None | None => None end
  end.
Definition from_chars_int (s : list ascii) : option Z :=
  let pos s := match s with [] => None | _ => digits_value 0 s end in
  match s with
  | "-"%char :: s' => match pos s' with Some v => if v <=? 2 ^ 31 then Some (- v) else None | None => None end
  | _ => match pos s with Some v => if v <? 2 ^ 31 then Some v else None | None => None end
  end.
Fixpoint split_dots (cur : list ascii) (s : list ascii) : list (list ascii) :=
  match s with
  | [] => [cur]
  | c :: s' => if ascii_dec c "." then cur :: split_dots [] s' else split_dots (cur ++ [c]) s'
  end.
Fixpoint parse_octets (out : Z) (octets : nat) (parts : list (list ascii)) : option (Z * nat) :=
  match parts with
  | [] => Some (out, octets)
  | p :: rest => match from_chars_unsigned p with
                 | Some v => if 255 <? v then None else parse_octets (Z.lor (u32 (Z.shiftl out 8)) v) (S octets) rest
                 | None => None
                 end
  end.
Definition parse_address (dotted : string) : option Z :=
  match parse_octets 0 0 (split_dots [] (chars dotted)) with Some (out, 4%nat) => Some out | _ => None end.

(** ["%u"]. *)
Definition digit_char (d : Z) : ascii := ascii_of_N (Z.to_N (48 + d)).
Definition print_octet (n : Z) : list ascii :=
  (if 100 <=? n then [digit_char (n / 100)] else []) ++ (if 10 <=? n then [digit_char (n / 10 mod 10)] else []) ++ [digit_char (n mod 10)].
Definition octet (a i : Z) : Z := Z.land (Z.shiftr a (8 * i)) 255.
Definition to_dotted (a : Z) : string :=
  of_chars (print_octet (octet a 3) ++ "."%char :: print_octet (octet a 2) ++ "."%char :: print_octet (octet a 1) ++ "."%char :: print_octet (octet a 0)).

(** ** Ranges *)
Record Range := { base : Z; prefix : Z }.
Definition range_size (r : Range) : Z := if 32 <=? prefix r then 1 else u32 (Z.shiftl 1 (32 - prefix r)).
Definition range_contains (r : Range) (a : Z) : bool := Z.land a (u32 (Z.lnot (u32 (range_size r - 1)))) =? base r.
Fixpoint find_slash (before : list ascii) (s : list ascii) : option (list ascii * list ascii) :=
  match s with [] => None | c :: s' => if ascii_dec c "/" then Some (before, s') else find_slash (before ++ [c]) s' end.
Definition parse_range (cidr : string) : option Range :=
  match find_slash [] (chars cidr) with
  | None => None
  | Some (addr, tail) =>
    match parse_address (of_chars addr), from_chars_int tail with
    | Some b, Some p =>
      if (p <? 8) || (30 <? p) then None
      else let r := {| base := b; prefix := p |} in if negb (Z.land b (range_size r - 1) =? 0) then None else Some r
    | _, _ => None
    end
  end.
Definition operator_address (r : Range) : Z := u32 (base r + 1).
Definition RESERVED : Z := 256.
Definition be4 (a b c d : Z) : Z := Z.lor (Z.lor (Z.lor (Z.shiftl a 24) (Z.shiftl b 16)) (Z.shiftl c 8)) d.
Definition byte_at (l : list byte) (i : nat) : Z := match l !! i with Some b => byteZ b | None => 0 end.
Definition word_at (l : list byte) (i : nat) : Z := be4 (byte_at l i) (byte_at l (i + 1)) (byte_at l (i + 2)) (byte_at l (i + 3)).
Definition derive_address (sha256 : list byte -> list byte) (robot_id : list byte) (r : Range) : Z :=
  let usable := u32 (range_size r - RESERVED - 1) in
  let h := word_at (sha256 robot_id) 0 in
  u32 (base r + RESERVED + h mod usable).

(** ** Packets *)
Record PacketView := { ipv4 : bool; src : Z; dst : Z; protocol : Z; dst_port : option Z }.
Definition inspect (p : list byte) : PacketView :=
  let v := {| ipv4 := false; src := 0; dst := 0; protocol := 0; dst_port := None |} in
  if (zlen p <? 20) || negb (Z.shiftr (byte_at p 0) 4 =? 4) then v
  else
    let ihl := Z.land (byte_at p 0) 15 * 4 in
    if (ihl <? 20) || (zlen p <? ihl) then v
    else
      let proto := byte_at p 9 in
      let first_fragment := Z.land (Z.lor (Z.shiftl (byte_at p 6) 8) (byte_at p 7)) 8191 =? 0 in
      {| ipv4 := true; src := word_at p 12; dst := word_at p 16; protocol := proto;
         dst_port := if ((proto =? 6) || (proto =? 17)) && first_fragment && (ihl + 4 <=? zlen p)
                     then Some (Z.lor (Z.shiftl (byte_at p (Z.to_nat ihl + 2)) 8) (byte_at p (Z.to_nat ihl + 3))) else None |}.
Inductive Verdict := Allow | NotIPv4 | WrongDestination | WrongSource | PortNotAllowed.
#[global] Instance Verdict_eq_dec : EqDecision Verdict.
Proof. solve_decision. Defined.
Definition verdict_name (v : Verdict) : string :=
  match v with Allow => "allow" | NotIPv4 => "not-ipv4" | WrongDestination => "wrong-destination" | WrongSource => "wrong-source" | PortNotAllowed => "port-not-allowed" end.
Definition is_multicast (a : Z) : bool := Z.land a 4026531840 =? 3758096384.
Definition check (p : PacketView) (expect_dst expect_src : Z) (allow_ports : list Z) : Verdict :=
  if negb (ipv4 p) then NotIPv4
  else if is_multicast (dst p) then if src p =? expect_src then Allow else WrongSource
  else if negb (dst p =? expect_dst) then WrongDestination
  else if negb (src p =? expect_src) then WrongSource
  else match allow_ports with
       | [] => Allow
       | _ => match dst_port p with
              | None => PortNotAllowed
              | Some d => if existsb (Z.eqb d) allow_ports then Allow else PortNotAllowed
              end
       end.

(** ** Addresses print and parse back *)
Lemma octet_range a i : 0 <= octet a i < 256.
Proof. unfold octet. change 255 with (Z.ones 8). apply land_ones_range. lia. Qed.
(** All 256 of them. *)
Lemma print_octet_parses n : 0 <= n < 256 -> from_chars_unsigned (print_octet n) = Some n /\ ~ In "."%char (print_octet n).
Proof.
  intros Hn.
  assert (forallb (fun i => bool_decide (from_chars_unsigned (print_octet (Z.of_nat i)) = Some (Z.of_nat i))
                            && negb (existsb (fun c => if ascii_dec c "." then true else false) (print_octet (Z.of_nat i)))) (seq 0 256) = true) as H by (vm_compute; reflexivity).
  rewrite forallb_forall in H. specialize (H (Z.to_nat n) ltac:(apply in_seq; lia)). apply andb_prop in H as [H1 H2].
  apply bool_decide_eq_true in H1. rewrite Z2Nat.id in H1 by lia. split; [done|]. rewrite Z2Nat.id in H2 by lia. intros Hin. apply negb_true_iff in H2.
  rewrite (proj2 (existsb_exists _ _)) in H2; [done|]. exists "."%char. split; [done|]. by destruct (ascii_dec "." ".").
Qed.
Lemma split_dots_part cur p rest : ~ In "."%char p -> split_dots cur (p ++ "."%char :: rest) = (cur ++ p) :: split_dots [] rest.
Proof.
  revert cur. induction p as [|c p IH]; intros cur Hp; simpl; [by rewrite app_nil_r|].
  destruct (ascii_dec c "."); [subst; destruct Hp; by left|]. rewrite IH by (intros ?; apply Hp; by right). by rewrite <- app_assoc.
Qed.
Lemma split_dots_last cur p : ~ In "."%char p -> split_dots cur p = [cur ++ p].
Proof.
  revert cur. induction p as [|c p IH]; intros cur Hp; simpl; [by rewrite app_nil_r|].
  destruct (ascii_dec c "."); [subst; destruct Hp; by left|]. rewrite IH by (intros ?; apply Hp; by right). by rewrite <- app_assoc.
Qed.
Lemma parse_octets_step out k n rest : 0 <= n < 256 -> 0 <= out < 2 ^ 24 -> parse_octets out k (print_octet n :: rest) = parse_octets (out * 256 + n) (S k) rest.
Proof.
  intros Hn Ho. destruct (print_octet_parses n Hn) as [Hp _]. simpl. rewrite Hp. destruct (Z.ltb_spec 255 n); [lia|]. f_equal.
  rewrite Z.shiftl_mul_pow2, u32_small by lia. rewrite Z.lor_comm, (lor_disjoint n out 8) by lia. lia.
Qed.
Lemma octet_mod a i : 0 <= i -> octet a i = a / 2 ^ (8 * i) mod 256.
Proof. intros Hi. unfold octet. change 255 with (Z.ones 8). by rewrite Z.land_ones, Z.shiftr_div_pow2 by lia. Qed.

(** Every address prints to text that parses back to it. *)
Theorem address_roundtrip a : 0 <= a < 2 ^ 32 -> parse_address (to_dotted a) = Some a.
Proof.
  intros Ha. unfold parse_address, to_dotted. rewrite chars_of_chars.
  pose proof (octet_range a 3) as R3. pose proof (octet_range a 2) as R2. pose proof (octet_range a 1) as R1. pose proof (octet_range a 0) as R0.
  rewrite split_dots_part by (by apply print_octet_parses). rewrite split_dots_part by (by apply print_octet_parses).
  rewrite split_dots_part by (by apply print_octet_parses). rewrite split_dots_last by (by apply print_octet_parses). simpl app.
  do 4 (rewrite parse_octets_step by lia). simpl parse_octets. f_equal.
  rewrite !octet_mod by lia. change (8 * 3) with 24. change (8 * 2) with 16. change (8 * 1) with 8. change (8 * 0) with 0.
  change (2 ^ 24) with (256 * 256 * 256). change (2 ^ 16) with (256 * 256). change (2 ^ 8) with 256. change (2 ^ 0) with 1. rewrite Z.div_1_r.
  rewrite <- !Z.div_div by lia. set (b := a / 256). set (c := b / 256). set (d := c / 256).
  pose proof (Z.div_mod a 256 ltac:(lia)). pose proof (Z.div_mod b 256 ltac:(lia)). pose proof (Z.div_mod c 256 ltac:(lia)).
  fold b in H. fold c in H0. fold d in H1. assert (0 <= d < 256).
  { unfold d, c, b. rewrite !Z.div_div by lia. split; [apply Z.div_pos; lia | apply Z.div_lt_upper_bound; lia]. }
  rewrite (Z.mod_small d 256) by lia. lia.
Qed.
Lemma address_roundtrip_witness : parse_address (to_dotted 1684300801) = Some 1684300801 /\ to_dotted 1684300801 = "100.100.100.1"%string.
Proof. split; [apply address_roundtrip; lia | vm_compute; reflexivity]. Defined.

(** ** Where derived addresses lie *)
Lemma digits_value_nonneg s : forall acc v, 0 <= acc -> digits_value acc s = Some v -> 0 <= v.
Proof.
  induction s as [|x s IHs]; intros acc w Hacc; simpl; [by intros [= <-]|]. unfold digit. destruct (_ && _) eqn:E; [|done]. apply andb_prop in E as [E1 E2].
  apply Z.leb_le in E1. apply IHs; lia.
Qed.
Lemma parse_octets_range parts : forall out k o k', 0 <= out < 2 ^ 32 -> parse_octets out k parts = Some (o, k') -> 0 <= o < 2 ^ 32.
Proof.
  induction parts as [|p parts IH]; intros out k o k' Hout; simpl; [by intros [= <- _]|]. destruct (from_chars_unsigned p) as [v|] eqn:Ev; [|done].
  destruct (Z.ltb_spec 255 v); [done|]. apply IH. assert (0 <= v) as Hv.
  { unfold from_chars_unsigned in Ev. destruct p as [|c p]; [done|]. destruct (digits_value 0 (c :: p)) as [v'|] eqn:Ed; [|done].
    destruct (_ <? _); [|done]. injection Ev as <-. by eapply (digits_value_nonneg (c :: p) 0). }
  pose proof (u32_range (Z.shiftl out 8)). assert (0 <= Z.lor (u32 (Z.shiftl out 8)) v) by (apply Z.lor_nonneg; lia).
  split; [done|]. destruct (decide (Z.lor (u32 (Z.shiftl out 8)) v = 0)) as [->|]; [lia|]. apply Z.log2_lt_cancel. rewrite Z.log2_lor by lia. change (Z.log2 (2 ^ 32)) with 32.
  pose proof (Z.log2_le_mono v 255 ltac:(lia)) as L1. pose proof (Z.log2_le_mono (u32 (Z.shiftl out 8)) (2 ^ 32 - 1) ltac:(lia)) as L2.
  change (Z.log2 255) with 7 in L1. change (Z.log2 (2 ^ 32 - 1)) with 31 in L2. lia.
Qed.

Lemma parse_range_spec cidr r : parse_range cidr = Some r -> 8 <= prefix r <= 30 /\ 0 <= base r < 2 ^ 32 /\ range_size r = 2 ^ (32 - prefix r) /\ base r mod 2 ^ (32 - prefix r) = 0.
Proof.
  unfold parse_range. destruct (find_slash _ _) as [[addr tail]|]; [|done]. destruct (parse_address _) as [b|] eqn:Eb; [|done].
  destruct (from_chars_int tail) as [p|]; [|done]. destruct (Z.ltb_spec p 8); [done|]. destruct (Z.ltb_spec 30 p); [done|]. simpl.
  assert (forall b', range_size {| base := b'; prefix := p |} = 2 ^ (32 - p)) as Hsz.
  { intros b'. unfold range_size. simpl. destruct (Z.leb_spec 32 p); [lia|]. rewrite Z.shiftl_1_l. apply u32_small. split; [apply Z.pow_nonneg; lia | apply Z.pow_lt_mono_r; lia]. }
  rewrite Hsz. destruct (Z.eqb_spec (Z.land b (2 ^ (32 - p) - 1)) 0) as [E|]; [|done]. intros [= <-]. simpl. split; [lia|]. split.
  - unfold parse_address in Eb. destruct (parse_octets _ _ _) as [[o k]|] eqn:Eo; [|done]. apply parse_octets_range in Eo; [|lia].
    destruct k as [|[|[|[|[|]]]]]; try done. by injection Eb as <-.
  - split; [apply Hsz|]. rewrite <- Z.land_ones, Z.ones_equiv by lia. by rewrite <- Z.sub_1_r.
Qed.
(** An offset inside the block stays inside. *)
Lemma range_contains_offset r o : 8 <= prefix r <= 30 -> 0 <= base r < 2 ^ 32 -> range_size r = 2 ^ (32 - prefix r) -> base r mod 2 ^ (32 - prefix r) = 0 ->
  0 <= o < 2 ^ (32 - prefix r) -> base r + o < 2 ^ 32 /\ range_contains r (base r + o) = true.
Proof.
  intros Hp Hb Hsz Hal Ho. set (k := 32 - prefix r) in *. assert (0 < 2 ^ k) by (apply Z.pow_pos_nonneg; lia).
  assert (2 ^ 32 = 2 ^ prefix r * 2 ^ k) as E32 by (rewrite <- Z.pow_add_r by lia; f_equal; lia).
  apply Z.mod_divide in Hal as [q Hq]; [|lia]. assert (base r + o < 2 ^ 32) as Hlt by (assert (q + 1 <= 2 ^ prefix r) by nia; nia). split; [done|].
  unfold range_contains. rewrite Hsz. apply Z.eqb_eq. rewrite (u32_small (2 ^ k - 1)) by (split; [lia | assert (2 ^ k <= 2 ^ 32) by (apply Z.pow_le_mono_r; lia); lia]).
  assert (u32 (Z.lnot (2 ^ k - 1)) = Z.ldiff (Z.ones 32) (Z.ones k)) as ->.
  { unfold u32. rewrite <- Z.land_ones, Z.land_comm by lia. rewrite (Z.sub_1_r (2 ^ k)), <- Z.ones_equiv. apply Z.bits_inj'. intros n Hn. by rewrite Z.land_spec, Z.ldiff_spec, Z.lnot_spec by lia. }
  assert (Z.land (base r + o) (Z.ldiff (Z.ones 32) (Z.ones k)) = Z.ldiff (base r + o) (Z.ones k)) as ->.
  { rewrite <- (Z.mod_small (base r + o) (2 ^ 32)) at 2 by lia. rewrite <- Z.land_ones by lia. apply Z.bits_inj'. intros n Hn. rewrite !Z.land_spec, !Z.ldiff_spec, Z.land_spec. by destruct (Z.testbit _ n), (Z.testbit _ n), (Z.testbit _ n). }
  rewrite Z.ldiff_ones_r by lia. rewrite Z.shiftr_div_pow2, Z.shiftl_mul_pow2 by lia. rewrite Hq. rewrite Z.add_comm, Z.div_add by lia. rewrite Z.div_small by lia. lia.
Qed.
(** With a block of at least two /24s, the address derived for a robot is in the block,
    outside the reserved first /24 (so never the operator's), and not the block's broadcast
    address, whatever the digest. *)
Theorem derived_address_in_range sha256 robot_id cidr r : parse_range cidr = Some r -> prefix r <= 23 -> 0 <= word_at (sha256 robot_id) 0 ->
  let a := derive_address sha256 robot_id r in
  range_contains r a = true /\ base r + 256 <= a < base r + range_size r - 1 /\ a <> operator_address r.
Proof.
  intros (Hp & Hb & Hsz & Hal)%parse_range_spec H23 Hh a.
  assert (2 ^ 9 <= 2 ^ (32 - prefix r) <= 2 ^ 24) as Hpow by (split; apply Z.pow_le_mono_r; lia).
  unfold a, derive_address. rewrite Hsz. unfold RESERVED. rewrite (u32_small (_ - 256 - 1)) by lia.
  set (m := word_at (sha256 robot_id) 0 mod (2 ^ (32 - prefix r) - 256 - 1)).
  assert (0 <= m < 2 ^ (32 - prefix r) - 256 - 1) as Hm by (apply Z.mod_pos_bound; lia).
  destruct (range_contains_offset r (256 + m) Hp Hb Hsz Hal) as [Hlt Hc]; [lia|]. rewrite Z.add_assoc in Hlt, Hc.
  rewrite u32_small by lia. split; [done|]. split; [lia|]. unfold operator_address. destruct (range_contains_offset r 1 Hp Hb Hsz Hal) as [Hlt1 _]; [lia|].
  rewrite u32_small by lia. lia.
Qed.
Definition zero_digest (_ : list byte) : list byte := repeat x00 32.
Lemma derived_address_in_range_witness : exists r, parse_range "100.64.0.0/10" = Some r /\ range_contains r (derive_address zero_digest [] r) = true.
Proof.
  eexists. split; [vm_compute; reflexivity|]. apply (derived_address_in_range zero_digest [] "100.64.0.0/10"); [vm_compute; reflexivity | simpl; lia | vm_compute; discriminate].
Defined.

(** [parse_range] accepts blocks down to /30, but derivation needs more than a /24: on a /24
    or smaller [usable] wraps below zero, and a robot is given an address outside its block, here
    10.0.1.0 and 138.0.1.0 for 10.0.0.0/24. *)
Theorem derive_address_leaves_small_range : exists r, parse_range "10.0.0.0/24" = Some r
  /\ derive_address zero_digest [] r = 167772416 /\ range_contains r (derive_address zero_digest [] r) = false
  /\ (let half := fun _ => [x80] ++ repeat x00 31 in to_dotted (derive_address half [] r) = "138.0.1.0"%string /\ range_contains r (derive_address half [] r) = false).
Proof. eexists. split; [vm_compute; reflexivity|]. split; [vm_compute; reflexivity|]. split; [vm_compute; reflexivity|]. split; vm_compute; reflexivity. Qed.

(** ** Isolation *)
(** The packet policy isolates the link. Whatever bytes come, a packet is let through only if
    it is a whole IPv4 header from the expected peer, addressed to this end or to a multicast
    group; and when ports are listed, only multicast or a first TCP or UDP fragment whose
    destination port, read inside the packet, is one of them. *)
Theorem check_isolates p expect_dst expect_src ports : check (inspect p) expect_dst expect_src ports = Allow ->
  20 <= zlen p /\ Z.shiftr (byte_at p 0) 4 = 4 /\ word_at p 12 = expect_src
  /\ (is_multicast (word_at p 16) = true
      \/ word_at p 16 = expect_dst
         /\ (ports <> [] -> exists ihl, (byte_at p 9 = 6 \/ byte_at p 9 = 17) /\ ihl = Z.land (byte_at p 0) 15 * 4 /\ 20 <= ihl /\ ihl + 4 <= zlen p
              /\ Z.land (Z.lor (Z.shiftl (byte_at p 6) 8) (byte_at p 7)) 8191 = 0
              /\ In (Z.lor (Z.shiftl (byte_at p (Z.to_nat ihl + 2)) 8) (byte_at p (Z.to_nat ihl + 3))) ports)).
Proof.
  unfold inspect. destruct (Z.ltb_spec (zlen p) 20) as [|Hlen]; [done|]. destruct (Z.eqb_spec (Z.shiftr (byte_at p 0) 4) 4) as [H4|]; [|done].
  cbn [orb negb]. set (ihl := Z.land (byte_at p 0) 15 * 4). destruct (Z.ltb_spec ihl 20) as [|Hihl]; [done|]. destruct (Z.ltb_spec (zlen p) ihl) as [|Hin]; [done|]. cbn [orb].
  unfold check. cbn [ipv4 src dst dst_port negb]. destruct (is_multicast (word_at p 16)); destruct (Z.eqb_spec (word_at p 12) expect_src) as [Hs|]; try done.
  - intros _. split_and!; auto.
  - destruct (Z.eqb_spec (word_at p 16) expect_dst) as [Hd|]; [|done]. cbn [negb]. destruct ports as [|q ports]; [intros _; split_and!; auto; right; split; [done | by intros []]|].
    destruct (((byte_at p 9 =? 6) || (byte_at p 9 =? 17)) && _ && (ihl + 4 <=? zlen p)) eqn:E; [|done].
    apply andb_prop in E as [[E1 E2]%andb_prop E3]. apply Z.leb_le in E3. apply Z.eqb_eq in E2.
    destruct (existsb (Z.eqb _) (q :: ports)) eqn:Ex; [|done]. intros _. apply existsb_exists in Ex as (x & Hx & Ex%Z.eqb_eq). rewrite <- Ex in Hx. split_and!; auto. right. split; [done|].
    intros _. exists ihl. split_and!; auto. apply orb_prop in E1 as [E1|E1]; apply Z.eqb_eq in E1; auto.
  - destruct (negb (word_at p 16 =? expect_dst)); done.
Qed.
(** A 24-byte UDP packet from 10.0.0.1 to 10.0.1.0, port 53. *)
Definition dns_packet : list byte := [x45;x00;x00;x18;x00;x00;x00;x00;x40;x11;x00;x00;x0a;x00;x00;x01;x0a;x00;x01;x00;x00;x01;x00;x35].
Lemma check_isolates_witness : word_at dns_packet 12 = 167772161 /\ check (inspect dns_packet) 167772416 167772161 [53] = Allow.
Proof.
  split; [|vm_compute; reflexivity]. apply (check_isolates dns_packet 167772416 167772161 [53]). vm_compute. reflexivity.
Defined.
