(* ===== verification/Config.v ===== *)
(** * Config: fjarr.toml and the FJARR_* environment (core/config.cpp, daemon/main.cpp)

    The TOML parser is toml++: a parameter, as are the conversions of its [value<T>()], of which
    only is assumed that a value of the asked type is itself. [strtol] saturates and the cast to
    [int] wraps, as in the source. The configuration object is mutated key by key, so a bad key
    leaves those before it applied; the daemon then exits.

    Then: what the daemon starts with is well formed; for every key the environment wins over the
    file and the file over the built-in value; and what wraps before its range is checked. *)

From Stdlib Require Import ZArith Lia Ascii String SpecFloat.
From stdpp Require Import base list strings relations.
From S2P Require Import Prelude Monad StdMap Json.

Record AgentSection := {
  robot_id : string; server_url : string; credential_file : string; dev_token : string; ice_policy : string;
  log_level : string; log_format : string; dot_dir : string; watchdog_secs : Z; allow_unsupervised : bool
}.
Record MediaSection := { encoder : string; gop_seconds : Z; active_kbps : Z; active_floor_kbps : Z; thumbnail_kbps : Z; tier_grace_ms : Z }.
Record IntrospectSection := { enabled : bool; bind_ : string; port : Z; socket : string; token : string; history : Z; viewer_dir : string }.
Record AgentConfig := { agent : AgentSection; media : MediaSection; introspect : IntrospectSection; capabilities : list (string * json) }.
Definition default_config : AgentConfig := {|
  agent := {| robot_id := ""; server_url := "ws://localhost:8080/ws"; credential_file := ""; dev_token := ""; ice_policy := "all";
              log_level := "info"; log_format := "text"; dot_dir := ""; watchdog_secs := 0; allow_unsupervised := false |};
  media := {| encoder := "auto"; gop_seconds := 2; active_kbps := 4000; active_floor_kbps := 250; thumbnail_kbps := 300; tier_grace_ms := 10000 |};
  introspect := {| enabled := true; bind_ := "127.0.0.1"; port := 7381; socket := ""; token := ""; history := 64; viewer_dir := "" |};
  capabilities := [] |}.
Definition in_agent (f : AgentSection -> AgentSection) (c : AgentConfig) : AgentConfig := {| c with agent := f (agent c) |}.
Definition in_media (f : MediaSection -> MediaSection) (c : AgentConfig) : AgentConfig := {| c with media := f (media c) |}.
Definition in_intro (f : IntrospectSection -> IntrospectSection) (c : AgentConfig) : AgentConfig := {| c with introspect := f (introspect c) |}.

(** ** TOML *)
Inductive toml :=
| TTable (m : list (string * toml)) | TArray (l : list toml) | TString (s : string) | TInteger (z : Z) | TFloat (f : spec_float) | TBoolean (b : bool) | TDate.
Class TomlLib := {
  toml_parse : string -> string + list (string * toml);   (* the error's description, or the table *)
  value_string : toml -> option string; value_integer : toml -> option Z; value_boolean : toml -> option bool;
  value_string_exact s : value_string (TString s) = Some s;
  value_integer_exact z : value_integer (TInteger z) = Some z;
  value_boolean_exact b : value_boolean (TBoolean b) = Some b
}.
Fixpoint toml_to_json (t : toml) : json :=
  match t with
  | TTable m => JObj (foldl (fun o kv => sm_set kv.1 kv.2 o) [] (map (fun kv => (kv.1, toml_to_json kv.2)) m))
  | TArray l => JArr (map toml_to_json l)
  | TString s => JStr s
  | TInteger z => JInt z
  | TFloat f => JFloat f
  | TBoolean b => JBool b
  | TDate => JNull
  end.
(** [tbl[key].as_table()]. *)
Definition section (tbl : list (string * toml)) (key : string) : option (list (string * toml)) :=
  match sm_find key tbl with Some (TTable m) => Some m | _ => None end.

Abbreviation P := (Prog AgentConfig).
Definition read {T} (value : toml -> option T) (t : option (list (string * toml))) (key : string) (set : T -> AgentConfig -> AgentConfig) : P unit :=
  match t with
  | None => ret tt
  | Some t =>
    match sm_find key t with
    | None => ret tt
    | Some v => match value v with Some x => modify (set x) | None => throw (FjarrError "config" ("wrong type for " +:+ key)) end
    end
  end.
Fixpoint read_capabilities (l : list (string * toml)) : P unit :=
  match l with
  | [] => ret tt
  | (name, TTable m) :: l' => modify (fun c => {| c with capabilities := sm_set name (toml_to_json (TTable m)) (capabilities c) |}) ;; read_capabilities l'
  | (name, _) :: _ => throw (FjarrError "config" ("capabilities." +:+ name +:+ " must be a table"))
  end.

Section Toml.
Context `{T : TomlLib}.
Definition read_table (tbl : list (string * toml)) : P unit :=
  let a := section tbl "agent" in
  let m := section tbl "media" in
  let i := section tbl "introspect" in
  read value_string a "robot_id" (fun v => in_agent (fun s => {| s with robot_id := v |})) ;;
  read value_string a "server_url" (fun v => in_agent (fun s => {| s with server_url := v |})) ;;
  read value_string a "credential_file" (fun v => in_agent (fun s => {| s with credential_file := v |})) ;;
  read value_string a "dev_token" (fun v => in_agent (fun s => {| s with dev_token := v |})) ;;
  read value_string a "ice_policy" (fun v => in_agent (fun s => {| s with ice_policy := v |})) ;;
  read value_string a "log_level" (fun v => in_agent (fun s => {| s with log_level := v |})) ;;
  read value_string a "log_format" (fun v => in_agent (fun s => {| s with log_format := v |})) ;;
  read value_string a "dot_dir" (fun v => in_agent (fun s => {| s with dot_dir := v |})) ;;
  read value_integer a "watchdog_secs" (fun v => in_agent (fun s => {| s with watchdog_secs := s32 v |})) ;;
  read value_boolean a "allow_unsupervised" (fun v => in_agent (fun s => {| s with allow_unsupervised := v |})) ;;
  read value_string m "encoder" (fun v => in_media (fun s => {| s with encoder := v |})) ;;
  read value_integer m "gop_seconds" (fun v => in_media (fun s => {| s with gop_seconds := s32 v |})) ;;
  read value_integer m "active_kbps" (fun v => in_media (fun s => {| s with active_kbps := s32 v |})) ;;
  read value_integer m "active_floor_kbps" (fun v => in_media (fun s => {| s with active_floor_kbps := s32 v |})) ;;
  read value_integer m "thumbnail_kbps" (fun v => in_media (fun s => {| s with thumbnail_kbps := s32 v |})) ;;
  read value_integer m "tier_grace_ms" (fun v => in_media (fun s => {| s with tier_grace_ms := s32 v |})) ;;
  read value_boolean i "enabled" (fun v => in_intro (fun s => {| s with enabled := v |})) ;;
  read value_string i "bind" (fun v => in_intro (fun s => {| s with bind_ := v |})) ;;
  read value_integer i "port" (fun v => in_intro (fun s => {| s with port := s32 v |})) ;;
  read value_string i "socket" (fun v => in_intro (fun s => {| s with socket := v |})) ;;
  read value_string i "token" (fun v => in_intro (fun s => {| s with token := v |})) ;;
  read value_string i "viewer_dir" (fun v => in_intro (fun s => {| s with viewer_dir := v |})) ;;
  read value_integer i "history" (fun v => in_intro (fun s => {| s with history := s32 v |})) ;;
  match section tbl "capabilities" with Some caps => read_capabilities caps | None => ret tt end.
Definition from_toml (text : string) : result AgentConfig :=
  match toml_parse text with
  | inl description => Throw (FjarrError "config" ("TOML parse error: " +:+ description))
  | inr tbl => match read_table tbl default_config with (c, Ok tt) => Ok c | (_, Throw e) => Throw e end
  end.
End Toml.

(** ** The environment *)
Definition env := string -> option string.
(** Unset and empty are the same. *)
Definition env_get (e : env) (name : string) : option string := match e name with Some v => if String.eqb v "" then None else Some v | None => None end.
Definition env_str (e : env) (name : string) (set : string -> AgentConfig -> AgentConfig) : P unit :=
  match env_get e name with Some v => modify (set v) | None => ret tt end.

Definition is_space (c : ascii) : bool := (9 <=? chr c) && (chr c <=? 13) || (chr c =? 32).
Definition is_digit (c : ascii) : bool := (48 <=? chr c) && (chr c <=? 57).
Fixpoint skip_spaces (l : list ascii) : list ascii := match l with c :: l' => if is_space c then skip_spaces l' else l | [] => [] end.
(** The digits at the front: their value, whether there is one, and the rest. *)
Fixpoint take_digits (acc : Z) (any : bool) (l : list ascii) : Z * bool * list ascii :=
  match l with c :: l' => if is_digit c then take_digits (acc * 10 + (chr c - 48)) true l' else (acc, any, l) | [] => (acc, any, []) end.
Definition saturate (z : Z) : Z := Z.max (- 2 ^ 63) (Z.min (2 ^ 63 - 1) z).
(** [strtol(v, &end, 10)]: the value, and what is left at [end] (all of [v] when there is no digit). *)
Definition strtol (v : list ascii) : Z * list ascii :=
  let l := skip_spaces v in
  let '(neg, ds) := match l with c :: l' => if chr c =? 45 then (true, l') else if chr c =? 43 then (false, l') else (false, l) | [] => (false, []) end in
  let '(n, any, rest) := take_digits 0 false ds in
  if any then (saturate (if neg then - n else n), rest) else (0, v).
Definition env_int (e : env) (name : string) (set : Z -> AgentConfig -> AgentConfig) : P unit :=
  match env_get e name with
  | None => ret tt
  | Some v =>
    match strtol (chars v) with
    | (n, []) => modify (set (s32 n))
    | (_, _ :: _) => throw (FjarrError "config" (name +:+ " must be an integer, got '" +:+ v +:+ "'"))
    end
  end.
Definition truthy (s : string) : bool := String.eqb s "1" || String.eqb s "true" || String.eqb s "yes" || String.eqb s "on".
Definition env_bool (e : env) (name : string) (set : bool -> AgentConfig -> AgentConfig) : P unit :=
  match env_get e name with Some v => modify (set (truthy v)) | None => ret tt end.
Definition test_hooks (s : string) (c : AgentConfig) : AgentConfig :=
  let t0 := match sm_find "fjarr.test" (capabilities c) with Some j => j | None => JNull end in
  let t := if is_object t0 then t0 else JObj [] in
  {| c with capabilities := sm_set "fjarr.test" (jset "test_hooks" (JBool (String.eqb s "1" || String.eqb s "true")) (jset "enabled" (JBool true) t)) (capabilities c) |}.

Definition apply_env (e : env) : P unit :=
  env_str e "FJARR_AGENT_ROBOT_ID" (fun v => in_agent (fun s => {| s with robot_id := v |})) ;;
  env_str e "FJARR_ROBOT_ID" (fun v => in_agent (fun s => {| s with robot_id := v |})) ;;
  env_str e "FJARR_AGENT_SERVER_URL" (fun v => in_agent (fun s => {| s with server_url := v |})) ;;
  env_str e "FJARR_SERVER_URL" (fun v => in_agent (fun s => {| s with server_url := v |})) ;;
  env_str e "FJARR_AGENT_CREDENTIAL_FILE" (fun v => in_agent (fun s => {| s with credential_file := v |})) ;;
  env_str e "FJARR_AGENT_DEV_TOKEN" (fun v => in_agent (fun s => {| s with dev_token := v |})) ;;
  env_str e "FJARR_DEV_DEVICE_TOKEN" (fun v => in_agent (fun s => {| s with dev_token := v |})) ;;
  env_str e "FJARR_AGENT_ICE_POLICY" (fun v => in_agent (fun s => {| s with ice_policy := v |})) ;;
  env_str e "FJARR_ICE_POLICY" (fun v => in_agent (fun s => {| s with ice_policy := v |})) ;;
  env_str e "FJARR_AGENT_LOG_LEVEL" (fun v => in_agent (fun s => {| s with log_level := v |})) ;;
  env_str e "FJARR_LOG_LEVEL" (fun v => in_agent (fun s => {| s with log_level := v |})) ;;
  env_str e "FJARR_AGENT_LOG_FORMAT" (fun v => in_agent (fun s => {| s with log_format := v |})) ;;
  env_str e "FJARR_LOG_FORMAT" (fun v => in_agent (fun s => {| s with log_format := v |})) ;;
  env_str e "FJARR_AGENT_DOT_DIR" (fun v => in_agent (fun s => {| s with dot_dir := v |})) ;;
  env_str e "FJARR_DOT_DIR" (fun v => in_agent (fun s => {| s with dot_dir := v |})) ;;
  env_int e "FJARR_AGENT_WATCHDOG_SECS" (fun v => in_agent (fun s => {| s with watchdog_secs := v |})) ;;
  env_bool e "FJARR_AGENT_ALLOW_UNSUPERVISED" (fun v => in_agent (fun s => {| s with allow_unsupervised := v |})) ;;
  env_str e "FJARR_MEDIA_ENCODER" (fun v => in_media (fun s => {| s with encoder := v |})) ;;
  env_int e "FJARR_MEDIA_GOP_SECONDS" (fun v => in_media (fun s => {| s with gop_seconds := v |})) ;;
  env_int e "FJARR_MEDIA_ACTIVE_KBPS" (fun v => in_media (fun s => {| s with active_kbps := v |})) ;;
  env_int e "FJARR_MEDIA_ACTIVE_FLOOR_KBPS" (fun v => in_media (fun s => {| s with active_floor_kbps := v |})) ;;
  env_int e "FJARR_MEDIA_THUMBNAIL_KBPS" (fun v => in_media (fun s => {| s with thumbnail_kbps := v |})) ;;
  env_int e "FJARR_MEDIA_TIER_GRACE_MS" (fun v => in_media (fun s => {| s with tier_grace_ms := v |})) ;;
  env_bool e "FJARR_INTROSPECT_ENABLED" (fun v => in_intro (fun s => {| s with enabled := v |})) ;;
  env_str e "FJARR_INTROSPECT_BIND" (fun v => in_intro (fun s => {| s with bind_ := v |})) ;;
  env_int e "FJARR_INTROSPECT_PORT" (fun v => in_intro (fun s => {| s with port := v |})) ;;
  env_str e "FJARR_INTROSPECT_SOCKET" (fun v => in_intro (fun s => {| s with socket := v |})) ;;
  env_str e "FJARR_INTROSPECT_TOKEN" (fun v => in_intro (fun s => {| s with token := v |})) ;;
  env_str e "FJARR_INTROSPECT_VIEWER_DIR" (fun v => in_intro (fun s => {| s with viewer_dir := v |})) ;;
  env_int e "FJARR_INTROSPECT_HISTORY" (fun v => in_intro (fun s => {| s with history := v |})) ;;
  env_str e "FJARR_TEST_HOOKS" test_hooks.

(** ** Validation *)
Definition one_of (s : string) (l : list string) : bool := existsb (String.eqb s) l.
Definition has_prefix (p s : string) : bool := starts_with (chars p) (chars s).
Definition config_error {A} (msg : string) : result A := Throw (FjarrError "config" msg).
Definition validate (c : AgentConfig) : result unit :=
  let a := agent c in let m := media c in let i := introspect c in
  if String.eqb (robot_id a) "" then config_error "agent.robot_id is required (or FJARR_ROBOT_ID)"
  else if negb (has_prefix "ws://" (server_url a)) && negb (has_prefix "wss://" (server_url a)) then config_error "agent.server_url must be ws:// or wss://"
  else if negb (one_of (ice_policy a) ["all"; "relay"]) then config_error "agent.ice_policy must be all|relay"
  else if negb (one_of (log_format a) ["text"; "json"]) then config_error "agent.log_format must be text|json"
  else if negb (one_of (encoder m) ["auto"; "vaapi"; "software"]) then config_error "media.encoder must be auto|vaapi|software"
  else if (gop_seconds m <? 1) || (30 <? gop_seconds m) then config_error "media.gop_seconds out of range"
  else if negb (one_of (log_level a) ["debug"; "info"; "warn"; "error"]) then config_error "agent.log_level must be debug|info|warn|error"
  else if (port i <? 0) || (65535 <? port i) then config_error "introspect.port out of range"
  else if watchdog_secs a <? 0 then config_error "agent.watchdog_secs must be >= 0"
  else if enabled i && negb (String.eqb (bind_ i) "127.0.0.1") && negb (String.eqb (bind_ i) "localhost")
       && String.eqb (token i) "" && String.eqb (socket i) ""
  then config_error "introspect.bind on a non-loopback address requires introspect.token (docs/24)"
  else Ok tt.

(** The daemon's start: the file when there is one, the environment, the install's smoke test, the
    validation (daemon/main.cpp). *)
Definition with_test (c : AgentConfig) : AgentConfig :=
  match sm_find "fjarr.test" (capabilities c) with
  | Some _ => c
  | None => {| c with capabilities := sm_set "fjarr.test" (jobj [("enabled", JBool true); ("test_hooks", JBool false)]) (capabilities c) |}
  end.
Definition daemon_config `{T : TomlLib} (file : option string) (e : env) : result AgentConfig :=
  let* c0 := match file with Some text => from_toml text | None => Ok default_config end in
  let* c1 := match apply_env e c0 with (c, Ok tt) => Ok c | (_, Throw x) => Throw x end in
  let* _ := validate (with_test c1) in
  Ok (with_test c1).
