(* ===== verification/ConfigProofs.v ===== *)
(** * ConfigProofs: what the daemon starts with

    Every key is read the same way from the file and from the environment, so both are walked as
    sequences of optional writes ([maybe]); a key's value is found by skipping the writes of the
    others. *)

From Stdlib Require Import ZArith Lia Ascii String SpecFloat.
From stdpp Require Import base list strings relations.
From S2P Require Import Prelude Monad StdMap Json Config.

(** ** The shape of a configured agent *)
Definition is_int (z : Z) : Prop := - 2 ^ 31 <= z < 2 ^ 31.
Definition ints (c : AgentConfig) : list Z :=
  [watchdog_secs (agent c); gop_seconds (media c); active_kbps (media c); active_floor_kbps (media c); thumbnail_kbps (media c);
   tier_grace_ms (media c); port (introspect c); history (introspect c)].
Record typed (c : AgentConfig) : Prop := {
  ty_ints : Forall is_int (ints c);
  ty_caps : sm_wf (capabilities c);
  ty_tables : forall name j, sm_find name (capabilities c) = Some j -> is_object j = true
}.
Lemma s32_is_int z : is_int (s32 z).
Proof. unfold is_int, s32. pose proof (Z.mod_pos_bound (z + 2 ^ 31) (2 ^ 32)). lia. Qed.
Definition keeps_type (c c' : AgentConfig) : Prop := typed c -> typed c'.
#[local] Instance keeps_type_preorder : PreOrder keeps_type.
Proof. split; [by intros c ? | intros a b c H1 H2 H; auto]. Qed.
Lemma default_typed : typed default_config.
Proof. split; [by repeat constructor | apply sm_wf_nil | done]. Qed.
Lemma set_cap_typed name j c : is_object j = true -> typed c -> typed {| c with capabilities := sm_set name j (capabilities c) |}.
Proof.
  intros Hj [Hi Hw Ht]. split; [done | by apply sm_wf_set|]. cbn. intros k v. destruct (decide (k = name)) as [->|]; [rewrite sm_find_set_eq; by intros [= <-] | rewrite sm_find_set_ne by done; apply Ht].
Qed.
(** Writing one key: an integer key gets an [int]. *)
Lemma write_keeps (f : AgentConfig -> AgentConfig) : (forall c, capabilities (f c) = capabilities c) ->
  (forall c, Forall is_int (ints c) -> Forall is_int (ints (f c))) -> respects keeps_type (modify f).
Proof. intros Hc Hi c [H1 H2 H3]. split; cbn [modify fst]; [by apply Hi | by rewrite Hc | by rewrite Hc]. Qed.
Ltac write_key :=
  apply write_keeps; [reflexivity | intros ? Hints; unfold ints in *; cbn in *; rewrite !Forall_cons in *; repeat (destruct Hints as [? Hints]); split_and?; auto using s32_is_int].
Lemma read_keeps {A} value t key (set : A -> AgentConfig -> AgentConfig) : (forall x, respects keeps_type (modify (set x))) -> respects keeps_type (read value t key set).
Proof. intros Hs. unfold read. repeat (respects_step || apply Hs). Qed.
Lemma env_str_keeps e name set : (forall x, respects keeps_type (modify (set x))) -> respects keeps_type (env_str e name set).
Proof. intros Hs. unfold env_str. repeat (respects_step || apply Hs). Qed.
Lemma env_bool_keeps e name set : (forall x, respects keeps_type (modify (set x))) -> respects keeps_type (env_bool e name set).
Proof. intros Hs. unfold env_bool. repeat (respects_step || apply Hs). Qed.
Lemma env_int_keeps e name set : (forall x, respects keeps_type (modify (set (s32 x)))) -> respects keeps_type (env_int e name set).
Proof. intros Hs. unfold env_int. repeat (respects_step || apply Hs). Qed.
Lemma read_capabilities_keeps l : respects keeps_type (read_capabilities l).
Proof.
  induction l as [|[name t] l IH]; cbn [read_capabilities]; [by respects_step|]. destruct t; try by respects_step.
  apply respects_bind; [apply _ | intros c Hc; by apply set_cap_typed | intros _; exact IH].
Qed.
Lemma read_table_keeps `{T : TomlLib} tbl : respects keeps_type (read_table tbl).
Proof.
  unfold read_table. repeat (apply respects_bind; [apply _ | apply read_keeps; intros ?; write_key | intros _]).
  destruct (section tbl "capabilities"); [apply read_capabilities_keeps | by respects_step].
Qed.
Lemma test_hooks_typed s c : typed c -> typed (test_hooks s c).
Proof. apply set_cap_typed. rewrite !is_object_jset. destruct (sm_find _ _) as [j|]; [by destruct (is_object j) eqn:E | done]. Qed.
Lemma apply_env_keeps e : respects keeps_type (apply_env e).
Proof.
  unfold apply_env. repeat (apply respects_bind; [apply _ | first [apply env_str_keeps | apply env_int_keeps | apply env_bool_keeps]; intros ?; write_key | intros _]).
  apply env_str_keeps. intros s c Hc. by apply test_hooks_typed.
Qed.
Lemma with_test_typed c : typed c -> typed (with_test c).
Proof. unfold with_test. destruct (sm_find _ _); [done|]. by apply set_cap_typed. Qed.

(** ** Valid configurations *)
Record valid (c : AgentConfig) : Prop := {
  va_robot : robot_id (agent c) <> "";
  va_url : exists rest, server_url (agent c) = "ws://" +:+ rest \/ server_url (agent c) = "wss://" +:+ rest;
  va_ice : In (ice_policy (agent c)) ["all"; "relay"];
  va_format : In (log_format (agent c)) ["text"; "json"];
  va_encoder : In (encoder (media c)) ["auto"; "vaapi"; "software"];
  va_gop : 1 <= gop_seconds (media c) <= 30;
  va_level : In (log_level (agent c)) ["debug"; "info"; "warn"; "error"];
  va_port : 0 <= port (introspect c) <= 65535;
  va_watchdog : 0 <= watchdog_secs (agent c);
  va_exposed : enabled (introspect c) = true -> token (introspect c) = "" -> socket (introspect c) = "" -> In (bind_ (introspect c)) ["127.0.0.1"; "localhost"]
}.
Lemma one_of_In s l : one_of s l = true <-> In s l.
Proof. unfold one_of. rewrite existsb_exists. split; [intros (x & Hx & <-%String.eqb_eq); done | intros Hs; exists s; by rewrite String.eqb_refl]. Qed.
Lemma of_chars_app a b : of_chars (a ++ b) = of_chars a +:+ of_chars b.
Proof. unfold of_chars. induction a as [|c a IH]; [done|]. cbn. by rewrite IH. Qed.
Lemma chars_app a b : chars (a +:+ b) = chars a ++ chars b.
Proof. unfold chars. induction a as [|c a IH]; [done|]. change (c :: String.list_ascii_of_string (a +:+ b) = c :: (String.list_ascii_of_string a ++ String.list_ascii_of_string b)). by rewrite IH. Qed.
Lemma has_prefix_iff p s : has_prefix p s = true <-> exists rest, s = p +:+ rest.
Proof.
  unfold has_prefix. rewrite starts_with_spec. split.
  - intros (r & Hr). exists (of_chars r). by rewrite <- (of_chars_chars s), Hr, of_chars_app, of_chars_chars.
  - intros (r & ->). exists (chars r). apply chars_app.
Qed.
(** [validate] accepts exactly the valid configurations. *)
Lemma validate_iff c : validate c = Ok tt <-> valid c.
Proof.
  unfold validate, config_error. split.
  - intros H. repeat match type of H with context [if ?b then _ else _] => destruct b eqn:?; [discriminate|] end.
    rewrite ?negb_false_iff, ?orb_false_iff, ?Z.ltb_ge, ?String.eqb_neq in *. split; try (by apply one_of_In); try lia; [done| |].
    + destruct (has_prefix "ws://" _) eqn:E1; [apply has_prefix_iff in E1 as [r ->]; exists r; by left|]. destruct (has_prefix "wss://" _) eqn:E2; [|done].
      apply has_prefix_iff in E2 as [r ->]. exists r. by right.
    + intros He Ht Hs. rewrite He, Ht, Hs in *. cbn in *. destruct (String.eqb_spec (bind_ (introspect c)) "127.0.0.1"); [by left|].
      destruct (String.eqb_spec (bind_ (introspect c)) "localhost"); [right; by left | done].
  - intros [H1 [r H2] H3 H4 H5 H6 H7 H8 H9 H10]. rewrite (proj2 (String.eqb_neq _ _) H1). rewrite !(proj2 (one_of_In _ _)) by done. cbn [negb].
    assert (negb (has_prefix "ws://" (server_url (agent c))) && negb (has_prefix "wss://" (server_url (agent c))) = false) as ->.
    { destruct H2 as [H2|H2]; [rewrite (proj2 (has_prefix_iff "ws://" _)) by (by exists r) | rewrite (proj2 (has_prefix_iff "wss://" _)) by (by exists r)]; by rewrite ?andb_false_r. }
    rewrite !(proj2 (Z.ltb_ge _ _)) by lia. cbn [orb]. destruct (enabled (introspect c)); cbn [andb]; [|done].
    destruct (String.eqb_spec (bind_ (introspect c)) "127.0.0.1"), (String.eqb_spec (bind_ (introspect c)) "localhost"); try done. cbn [negb andb].
    destruct (String.eqb_spec (token (introspect c)) ""), (String.eqb_spec (socket (introspect c)) ""); try done. cbn in H10. naive_solver.
Qed.

(** ** Where a key's value comes from *)
Definition maybe {A} (o : option A) (set : A -> AgentConfig -> AgentConfig) (c : AgentConfig) : AgentConfig := match o with Some v => set v c | None => c end.
Definition or_else {A} (o : option A) (d : A) : A := match o with Some v => v | None => d end.
(** What the file says of a key, and what the environment says of it under one name. *)
Definition file_value {A} (value : toml -> option A) (tbl : list (string * toml)) (sec key : string) : option A :=
  match section tbl sec with Some t => match sm_find key t with Some v => value v | None => None end | None => None end.
Definition env_number (e : env) (name : string) : option Z := (fun v => s32 (strtol (chars v)).1) <$> env_get e name.
Definition env_flag (e : env) (name : string) : option bool := truthy <$> env_get e name.

Lemma read_ok {A} value tbl sec key (set : A -> AgentConfig -> AgentConfig) c c' : read value (section tbl sec) key set c = (c', Ok tt) -> c' = maybe (file_value value tbl sec key) set c.
Proof. unfold read, file_value. destruct (section tbl sec) as [t|]; [|by intros [=]]. destruct (sm_find key t) as [v|]; [|by intros [=]]. destruct (value v); by intros [=]. Qed.
Lemma env_str_ok e name set c c' : env_str e name set c = (c', Ok tt) -> c' = maybe (env_get e name) set c.
Proof. unfold env_str. destruct (env_get e name); by intros [=]. Qed.
Lemma env_bool_ok e name set c c' : env_bool e name set c = (c', Ok tt) -> c' = maybe (env_flag e name) set c.
Proof. unfold env_bool, env_flag. destruct (env_get e name); by intros [=]. Qed.
Lemma env_int_ok e name set c c' : env_int e name set c = (c', Ok tt) -> c' = maybe (env_number e name) set c.
Proof. unfold env_int, env_number. destruct (env_get e name) as [v|]; [|by intros [=]]. cbn. destruct (strtol (chars v)) as [n [|]]; by intros [=]. Qed.
Lemma bind_inv {A} (m : Prog AgentConfig unit) (k : Prog AgentConfig A) c r x : (m ;; k) c = (r, Ok x) -> exists c1, m c = (c1, Ok tt) /\ k c1 = (r, Ok x).
Proof. unfold bind. destruct (m c) as [c1 [[]|e]]; [|done]. intros H. by exists c1. Qed.
Lemma maybe_other {A B} (p : AgentConfig -> B) (o : option A) set c : (forall v c, p (set v c) = p c) -> p (maybe o set c) = p c.
Proof. intros Hp. destruct o; [apply Hp | done]. Qed.
Lemma maybe_own {A} (p : AgentConfig -> A) (o : option A) set c : (forall v c, p (set v c) = v) -> p (maybe o set c) = or_else o (p c).
Proof. intros Hp. destruct o; [apply Hp | done]. Qed.
Lemma maybe_int (p : AgentConfig -> Z) (o : option Z) set c : (forall v c, p (set v c) = s32 v) -> p (maybe o set c) = or_else (s32 <$> o) (p c).
Proof. intros Hp. destruct o; [apply Hp | done]. Qed.
Lemma or_else_cong {A} (o : option A) a b : a = b -> or_else o a = or_else o b.
Proof. by intros ->. Qed.
Lemma read_capabilities_sections l : forall c c', read_capabilities l c = (c', Ok tt) -> agent c' = agent c /\ media c' = media c /\ introspect c' = introspect c.
Proof.
  induction l as [|[name t] l IH]; intros c c'; cbn [read_capabilities]; [by intros [= <-]|]. destruct t; try done.
  intros (c1 & [= <-] & H2)%bind_inv. apply IH in H2. done.
Qed.

(** The value of a key after all the writes of the file and of the environment. *)
Ltac wrote Hc :=
  lazymatch type of Hc with
  | read _ _ _ _ _ = _ => apply read_ok in Hc
  | env_str _ _ _ _ = _ => apply env_str_ok in Hc
  | env_int _ _ _ _ = _ => apply env_int_ok in Hc
  | env_bool _ _ _ _ = _ => apply env_bool_ok in Hc
  end.
Ltac writes H := repeat (let c := fresh "c" in let Hc := fresh "Hc" in apply bind_inv in H as (c & Hc & H); wrote Hc; subst c).
Ltac walk p := repeat first [ etrans; [apply (maybe_other p); intros; reflexivity|]
                           | etrans; [apply (maybe_own p); intros; reflexivity|]; apply or_else_cong
                           | etrans; [apply (maybe_int p); intros; reflexivity|]; apply or_else_cong ]; reflexivity.
Ltac key :=
  match goal with
  | |- ?f (agent _) = _ => walk (fun c => f (agent c))
  | |- ?f (media _) = _ => walk (fun c => f (media c))
  | |- ?f (introspect _) = _ => walk (fun c => f (introspect c))
  end.
Lemma agent_ext a b : robot_id a = robot_id b -> server_url a = server_url b -> credential_file a = credential_file b -> dev_token a = dev_token b ->
  ice_policy a = ice_policy b -> log_level a = log_level b -> log_format a = log_format b -> dot_dir a = dot_dir b -> watchdog_secs a = watchdog_secs b ->
  allow_unsupervised a = allow_unsupervised b -> a = b.
Proof. destruct a, b. cbn. congruence. Qed.
Lemma media_ext a b : encoder a = encoder b -> gop_seconds a = gop_seconds b -> active_kbps a = active_kbps b -> active_floor_kbps a = active_floor_kbps b ->
  thumbnail_kbps a = thumbnail_kbps b -> tier_grace_ms a = tier_grace_ms b -> a = b.
Proof. destruct a, b. cbn. congruence. Qed.
Lemma introspect_ext a b : enabled a = enabled b -> bind_ a = bind_ b -> port a = port b -> socket a = socket b -> token a = token b -> history a = history b ->
  viewer_dir a = viewer_dir b -> a = b.
Proof. destruct a, b. cbn. congruence. Qed.

Section Precedence.
Context `{T : TomlLib}.
Definition file_string := file_value value_string.
Definition file_int (tbl : list (string * toml)) (sec key : string) : option Z := s32 <$> file_value value_integer tbl sec key.
Definition file_bool := file_value value_boolean.
Lemma read_table_keys tbl c : read_table tbl default_config = (c, Ok tt) ->
  agent c = {| robot_id := or_else (file_string tbl "agent" "robot_id") "";
               server_url := or_else (file_string tbl "agent" "server_url") "ws://localhost:8080/ws";
               credential_file := or_else (file_string tbl "agent" "credential_file") "";
               dev_token := or_else (file_string tbl "agent" "dev_token") "";
               ice_policy := or_else (file_string tbl "agent" "ice_policy") "all";
               log_level := or_else (file_string tbl "agent" "log_level") "info";
               log_format := or_else (file_string tbl "agent" "log_format") "text";
               dot_dir := or_else (file_string tbl "agent" "dot_dir") "";
               watchdog_secs := or_else (file_int tbl "agent" "watchdog_secs") 0;
               allow_unsupervised := or_else (file_bool tbl "agent" "allow_unsupervised") false |}
  /\ media c = {| encoder := or_else (file_string tbl "media" "encoder") "auto";
                  gop_seconds := or_else (file_int tbl "media" "gop_seconds") 2;
                  active_kbps := or_else (file_int tbl "media" "active_kbps") 4000;
                  active_floor_kbps := or_else (file_int tbl "media" "active_floor_kbps") 250;
                  thumbnail_kbps := or_else (file_int tbl "media" "thumbnail_kbps") 300;
                  tier_grace_ms := or_else (file_int tbl "media" "tier_grace_ms") 10000 |}
  /\ introspect c = {| enabled := or_else (file_bool tbl "introspect" "enabled") true;
                       bind_ := or_else (file_string tbl "introspect" "bind") "127.0.0.1";
                       port := or_else (file_int tbl "introspect" "port") 7381;
                       socket := or_else (file_string tbl "introspect" "socket") "";
                       token := or_else (file_string tbl "introspect" "token") "";
                       history := or_else (file_int tbl "introspect" "history") 64;
                       viewer_dir := or_else (file_string tbl "introspect" "viewer_dir") "" |}.
Proof.
  unfold read_table. intros H. writes H.
  match type of H with _ ?x = _ => assert (agent c = agent x /\ media c = media x /\ introspect c = introspect x) as (-> & -> & ->) end.
  { destruct (section tbl "capabilities"); [by apply read_capabilities_sections in H | by injection H as <-]. }
  split_and!; [apply agent_ext | apply media_ext | apply introspect_ext]; key.
Qed.
End Precedence.

(** ** What the environment says *)
(** The first of a key's names that is set and not empty. *)
Definition from_env (e : env) (names : list string) (fallback : string) : string := foldr (fun n d => or_else (env_get e n) d) fallback names.
Definition int_from_env (e : env) (name : string) (fallback : Z) : Z := or_else (env_number e name) fallback.
Definition bool_from_env (e : env) (name : string) (fallback : bool) : bool := or_else (env_flag e name) fallback.
Lemma apply_env_keys e c c' : apply_env e c = (c', Ok tt) -> let a := agent c in let m := media c in let i := introspect c in
  agent c' = {| robot_id := from_env e ["FJARR_ROBOT_ID"; "FJARR_AGENT_ROBOT_ID"] (robot_id a);
                server_url := from_env e ["FJARR_SERVER_URL"; "FJARR_AGENT_SERVER_URL"] (server_url a);
                credential_file := from_env e ["FJARR_AGENT_CREDENTIAL_FILE"] (credential_file a);
                dev_token := from_env e ["FJARR_DEV_DEVICE_TOKEN"; "FJARR_AGENT_DEV_TOKEN"] (dev_token a);
                ice_policy := from_env e ["FJARR_ICE_POLICY"; "FJARR_AGENT_ICE_POLICY"] (ice_policy a);
                log_level := from_env e ["FJARR_LOG_LEVEL"; "FJARR_AGENT_LOG_LEVEL"] (log_level a);
                log_format := from_env e ["FJARR_LOG_FORMAT"; "FJARR_AGENT_LOG_FORMAT"] (log_format a);
                dot_dir := from_env e ["FJARR_DOT_DIR"; "FJARR_AGENT_DOT_DIR"] (dot_dir a);
                watchdog_secs := int_from_env e "FJARR_AGENT_WATCHDOG_SECS" (watchdog_secs a);
                allow_unsupervised := bool_from_env e "FJARR_AGENT_ALLOW_UNSUPERVISED" (allow_unsupervised a) |}
  /\ media c' = {| encoder := from_env e ["FJARR_MEDIA_ENCODER"] (encoder m);
                   gop_seconds := int_from_env e "FJARR_MEDIA_GOP_SECONDS" (gop_seconds m);
                   active_kbps := int_from_env e "FJARR_MEDIA_ACTIVE_KBPS" (active_kbps m);
                   active_floor_kbps := int_from_env e "FJARR_MEDIA_ACTIVE_FLOOR_KBPS" (active_floor_kbps m);
                   thumbnail_kbps := int_from_env e "FJARR_MEDIA_THUMBNAIL_KBPS" (thumbnail_kbps m);
                   tier_grace_ms := int_from_env e "FJARR_MEDIA_TIER_GRACE_MS" (tier_grace_ms m) |}
  /\ introspect c' = {| enabled := bool_from_env e "FJARR_INTROSPECT_ENABLED" (enabled i);
                        bind_ := from_env e ["FJARR_INTROSPECT_BIND"] (bind_ i);
                        port := int_from_env e "FJARR_INTROSPECT_PORT" (port i);
                        socket := from_env e ["FJARR_INTROSPECT_SOCKET"] (socket i);
                        token := from_env e ["FJARR_INTROSPECT_TOKEN"] (token i);
                        history := int_from_env e "FJARR_INTROSPECT_HISTORY" (history i);
                        viewer_dir := from_env e ["FJARR_INTROSPECT_VIEWER_DIR"] (viewer_dir i) |}.
Proof.
  intros H. unfold apply_env in H. writes H. apply env_str_ok in H. subst c'. cbv zeta. unfold from_env, int_from_env, bool_from_env. cbn [foldr].
  split_and!; [apply agent_ext | apply media_ext | apply introspect_ext]; key.
Qed.

(** ** Failing to start *)
Definition config_exn (x : exn) : Prop := exists msg, x = FjarrError "config" msg.
Definition only_config {A} (m : Prog AgentConfig A) : Prop := forall c, match (m c).2 with Ok _ => True | Throw x => config_exn x end.
Lemma only_config_bind {A B} (m : Prog AgentConfig A) (k : A -> Prog AgentConfig B) : only_config m -> (forall a, only_config (k a)) -> only_config (bind m k).
Proof. intros Hm Hk c. specialize (Hm c). unfold bind. destruct (m c) as [c1 [a|x]]; [apply Hk | exact Hm]. Qed.
Lemma only_config_step {A} value t key (set : A -> AgentConfig -> AgentConfig) : only_config (read value t key set).
Proof. intros c. unfold read. repeat case_match; cbn in *; simplify_eq; try done; by eexists. Qed.
Lemma only_config_env e name (set : Z -> AgentConfig -> AgentConfig) : only_config (env_int e name set).
Proof. intros c. unfold env_int. repeat case_match; cbn in *; simplify_eq; try done; by eexists. Qed.
Lemma only_config_str e name set : only_config (env_str e name set).
Proof. intros c. unfold env_str. by destruct (env_get e name). Qed.
Lemma only_config_bool e name set : only_config (env_bool e name set).
Proof. intros c. unfold env_bool. by destruct (env_get e name). Qed.
Lemma only_config_caps l : only_config (read_capabilities l).
Proof.
  induction l as [|[name t] l IH]; [by intros c|]. destruct t; cbn [read_capabilities]; try (intros c; cbn; by eexists).
  apply only_config_bind; [by intros c | intros _; exact IH].
Qed.
Lemma read_table_only_config `{T : TomlLib} tbl : only_config (read_table tbl).
Proof.
  unfold read_table. repeat (apply only_config_bind; [apply only_config_step | intros _]). destruct (section tbl "capabilities"); [apply only_config_caps | by intros c].
Qed.
Lemma apply_env_only_config e : only_config (apply_env e).
Proof.
  unfold apply_env. repeat (apply only_config_bind; [first [apply only_config_env | apply only_config_str | apply only_config_bool] | intros _]). apply only_config_str.
Qed.
Lemma validate_only_config c x : validate c = Throw x -> config_exn x.
Proof. unfold validate, config_error. repeat case_match; intros [= <-]; by eexists. Qed.

Section Daemon.
Context `{T : TomlLib}.
Lemma from_toml_inv text c : from_toml text = Ok c -> exists tbl, toml_parse text = inr tbl /\ read_table tbl default_config = (c, Ok tt).
Proof. unfold from_toml. destruct (toml_parse text) as [d|tbl]; [done|]. destruct (read_table tbl default_config) as [c0 [[]|x]] eqn:E; [intros [= ->]; by exists tbl | done]. Qed.
Lemma daemon_inv file e c : daemon_config file e = Ok c -> exists c0 c1, match file with Some text => from_toml text | None => Ok default_config end = Ok c0
  /\ apply_env e c0 = (c1, Ok tt) /\ c = with_test c1 /\ validate c = Ok tt.
Proof.
  unfold daemon_config, rbind. destruct (match file with Some text => from_toml text | None => Ok default_config end) as [c0|]; [|done].
  destruct (apply_env e c0) as [c1 [[]|]] eqn:E1; [|done]. destruct (validate (with_test c1)) as [[]|] eqn:E2; [|done]. intros [= <-]. by exists c0, c1.
Qed.

(** C32: What the daemon starts with is well formed: every integer key is an [int], every capability
    has a table, the smoke test's among them, and the configuration is valid: a robot id, a ws:// or
    wss:// server, known enumerations, a GOP of 1 to 30 s, a port, a watchdog that is not negative,
    and introspection that is off, on the loopback address or protected. *)
Theorem daemon_config_wellformed (file : option string) (e : env) (c : AgentConfig) : daemon_config file e = Ok c ->
  typed c /\ valid c /\ exists t, sm_find "fjarr.test" (capabilities c) = Some (JObj t).
Proof.
  intros (c0 & c1 & H0 & H1 & -> & Hv)%daemon_inv. assert (typed c0) as T0.
  { destruct file as [text|]; [|injection H0 as <-; apply default_typed]. apply from_toml_inv in H0 as (tbl & _ & H0).
    pose proof (read_table_keeps tbl default_config default_typed) as G. by rewrite H0 in G. }
  pose proof (apply_env_keeps e c0 T0) as T1. rewrite H1 in T1. cbn [fst] in T1. pose proof (with_test_typed c1 T1) as T2.
  split_and!; [done | by apply validate_iff|]. assert (exists j, sm_find "fjarr.test" (capabilities (with_test c1)) = Some j) as [j Hj].
  { unfold with_test. destruct (sm_find "fjarr.test" (capabilities c1)) as [j|] eqn:Ef; [by exists j | cbn [capabilities]; rewrite sm_find_set_eq; by eexists]. }
  pose proof (ty_tables _ T2 _ _ Hj) as Ho. destruct j; try done. by eexists.
Qed.

(** The environment wins over the file and the file over the built-in value, for every key: the
    short name of a variable before the long one, and an empty variable counts as unset. Integers
    are what the text says reduced to 32 bits. *)
Theorem config_precedence (text : string) (tbl : list (string * toml)) (e : env) (c : AgentConfig) :
  toml_parse text = inr tbl -> daemon_config (Some text) e = Ok c ->
  agent c = {| robot_id := from_env e ["FJARR_ROBOT_ID"; "FJARR_AGENT_ROBOT_ID"] (or_else (file_string tbl "agent" "robot_id") "");
               server_url := from_env e ["FJARR_SERVER_URL"; "FJARR_AGENT_SERVER_URL"] (or_else (file_string tbl "agent" "server_url") "ws://localhost:8080/ws");
               credential_file := from_env e ["FJARR_AGENT_CREDENTIAL_FILE"] (or_else (file_string tbl "agent" "credential_file") "");
               dev_token := from_env e ["FJARR_DEV_DEVICE_TOKEN"; "FJARR_AGENT_DEV_TOKEN"] (or_else (file_string tbl "agent" "dev_token") "");
               ice_policy := from_env e ["FJARR_ICE_POLICY"; "FJARR_AGENT_ICE_POLICY"] (or_else (file_string tbl "agent" "ice_policy") "all");
               log_level := from_env e ["FJARR_LOG_LEVEL"; "FJARR_AGENT_LOG_LEVEL"] (or_else (file_string tbl "agent" "log_level") "info");
               log_format := from_env e ["FJARR_LOG_FORMAT"; "FJARR_AGENT_LOG_FORMAT"] (or_else (file_string tbl "agent" "log_format") "text");
               dot_dir := from_env e ["FJARR_DOT_DIR"; "FJARR_AGENT_DOT_DIR"] (or_else (file_string tbl "agent" "dot_dir") "");
               watchdog_secs := int_from_env e "FJARR_AGENT_WATCHDOG_SECS" (or_else (file_int tbl "agent" "watchdog_secs") 0);
               allow_unsupervised := bool_from_env e "FJARR_AGENT_ALLOW_UNSUPERVISED" (or_else (file_bool tbl "agent" "allow_unsupervised") false) |}
  /\ media c = {| encoder := from_env e ["FJARR_MEDIA_ENCODER"] (or_else (file_string tbl "media" "encoder") "auto");
                  gop_seconds := int_from_env e "FJARR_MEDIA_GOP_SECONDS" (or_else (file_int tbl "media" "gop_seconds") 2);
                  active_kbps := int_from_env e "FJARR_MEDIA_ACTIVE_KBPS" (or_else (file_int tbl "media" "active_kbps") 4000);
                  active_floor_kbps := int_from_env e "FJARR_MEDIA_ACTIVE_FLOOR_KBPS" (or_else (file_int tbl "media" "active_floor_kbps") 250);
                  thumbnail_kbps := int_from_env e "FJARR_MEDIA_THUMBNAIL_KBPS" (or_else (file_int tbl "media" "thumbnail_kbps") 300);
                  tier_grace_ms := int_from_env e "FJARR_MEDIA_TIER_GRACE_MS" (or_else (file_int tbl "media" "tier_grace_ms") 10000) |}
  /\ introspect c = {| enabled := bool_from_env e "FJARR_INTROSPECT_ENABLED" (or_else (file_bool tbl "introspect" "enabled") true);
                       bind_ := from_env e ["FJARR_INTROSPECT_BIND"] (or_else (file_string tbl "introspect" "bind") "127.0.0.1");
                       port := int_from_env e "FJARR_INTROSPECT_PORT" (or_else (file_int tbl "introspect" "port") 7381);
                       socket := from_env e ["FJARR_INTROSPECT_SOCKET"] (or_else (file_string tbl "introspect" "socket") "");
                       token := from_env e ["FJARR_INTROSPECT_TOKEN"] (or_else (file_string tbl "introspect" "token") "");
                       history := int_from_env e "FJARR_INTROSPECT_HISTORY" (or_else (file_int tbl "introspect" "history") 64);
                       viewer_dir := from_env e ["FJARR_INTROSPECT_VIEWER_DIR"] (or_else (file_string tbl "introspect" "viewer_dir") "") |}.
Proof.
  intros Hp (c0 & c1 & H0 & H1 & -> & _)%daemon_inv. apply from_toml_inv in H0 as (tbl' & Hp' & H0). rewrite Hp in Hp'. injection Hp' as <-.
  assert (agent (with_test c1) = agent c1 /\ media (with_test c1) = media c1 /\ introspect (with_test c1) = introspect c1) as (-> & -> & ->)
    by (unfold with_test; by destruct (sm_find "fjarr.test" (capabilities c1))).
  destruct (read_table_keys tbl c0 H0) as (A0 & M0 & I0). destruct (apply_env_keys e c0 c1 H1) as (A1 & M1 & I1). rewrite A0 in A1. rewrite M0 in M1. rewrite I0 in I1. done.
Qed.

(** The daemon either starts or says why: whatever the file and the environment hold, every
    failure is a configuration error with a message, which [main] prints before it exits. *)
Theorem daemon_failure_reported (file : option string) (e : env) :
  match daemon_config file e with Ok c => valid c | Throw x => exists msg, x = FjarrError "config" msg end.
Proof.
  destruct (daemon_config file e) as [c|x] eqn:E; [apply validate_iff; by apply daemon_inv in E as (? & ? & _ & _ & _ & ?)|].
  unfold daemon_config, rbind in E. destruct (match file with Some text => from_toml text | None => Ok default_config end) as [c0|y] eqn:E0.
  - pose proof (apply_env_only_config e c0) as H1. destruct (apply_env e c0) as [c1 [[]|y]]; [|by injection E as <-].
    destruct (validate (with_test c1)) eqn:Ev; [done|]. injection E as <-. by eapply validate_only_config.
  - injection E as <-. destruct file as [text|]; [|done]. unfold from_toml in E0. destruct (toml_parse text) as [d|tbl]; [injection E0 as <-; by eexists|].
    pose proof (read_table_only_config tbl default_config) as H1. destruct (read_table tbl default_config) as [c0 [[]|z]]; [done|]. by injection E0 as <-.
Qed.
End Daemon.

Module ConfigDemo.
(** A parser of one file, and conversions between equal types only. *)
Definition parses (tbl : list (string * toml)) : TomlLib := {|
  toml_parse := fun _ => inr tbl;
  value_string := fun t => match t with TString s => Some s | _ => None end;
  value_integer := fun t => match t with TInteger z => Some z | _ => None end;
  value_boolean := fun t => match t with TBoolean b => Some b | _ => None end;
  value_string_exact := fun _ => eq_refl; value_integer_exact := fun _ => eq_refl; value_boolean_exact := fun _ => eq_refl |}.
Definition file : list (string * toml) := [("agent", TTable [("robot_id", TString "r1"); ("server_url", TString "wss://a/ws")]); ("media", TTable [("gop_seconds", TInteger 3)])].
Definition shell : env := fun n => if String.eqb n "FJARR_AGENT_ROBOT_ID" then Some "r2" else if String.eqb n "FJARR_INTROSPECT_PORT" then Some " +8080" else if String.eqb n "FJARR_ROBOT_ID" then Some "" else None.
Definition started : AgentConfig := match @daemon_config (parses file) (Some "") shell with Ok c => c | Throw _ => default_config end.
End ConfigDemo.
Import ConfigDemo.
Lemma daemon_config_wellformed_witness : @daemon_config (parses file) (Some "") shell = Ok started /\ valid started.
Proof.
  assert (@daemon_config (parses file) (Some "") shell = Ok started) as H by (vm_compute; reflexivity). split; [exact H|].
  apply (@daemon_config_wellformed (parses file) (Some "") shell started H).
Defined.
Lemma config_precedence_witness : robot_id (agent started) = "r2" /\ gop_seconds (media started) = 3 /\ port (introspect started) = 8080
  /\ robot_id (agent started) = from_env shell ["FJARR_ROBOT_ID"; "FJARR_AGENT_ROBOT_ID"] "r1".
Proof.
  split; [vm_compute; reflexivity|]. split; [vm_compute; reflexivity|]. split; [vm_compute; reflexivity|].
  destruct (@config_precedence (parses file) "" file shell started) as [-> _]; [reflexivity | vm_compute; reflexivity | reflexivity].
Defined.

(** Integers are reduced to 32 bits before their range is checked: a GOP of 2^32 + 2 seconds and a
    port of 2^32 + 80 are accepted, as 2 and 80. *)
Theorem ranges_checked_after_wrap : exists tbl e, match @daemon_config (parses tbl) (Some "") e with
  | Ok c => file_value (@value_integer (parses tbl)) tbl "media" "gop_seconds" = Some 4294967298 /\ gop_seconds (media c) = 2
            /\ e "FJARR_INTROSPECT_PORT" = Some "4294967376" /\ port (introspect c) = 80
  | Throw _ => False
  end.
Proof.
  exists [("agent", TTable [("robot_id", TString "r1")]); ("media", TTable [("gop_seconds", TInteger 4294967298)])],
    (fun n => if String.eqb n "FJARR_INTROSPECT_PORT" then Some "4294967376" else None).
  vm_compute. by repeat split.
Qed.
(** [log_level = "trace"], one of the levels docs/23 lists, is refused. *)
Theorem trace_level_refused c : log_level (agent c) = "trace" -> exists msg, validate c = Throw (FjarrError "config" msg).
Proof.
  intros H. destruct (validate c) as [[]|x] eqn:E; [apply validate_iff, va_level in E; rewrite H in E; cbn in E; naive_solver|].
  apply validate_only_config in E as [msg ->]. by exists msg.
Qed.
