(* ===== verification/Capability.v ===== *)
(** * Capability: what a plugin does from its callbacks

    A capability acts on two sides: on the contexts of the sessions it is attached to (the
    [CtxCall]s of the session model, now with the session they are made on) and on its own device
    (the desktop backend, the tunnel interface, the pseudo-terminal). A handler is a computation
    over the capability's state and the history of those calls. Whether a context call throws is
    the environment's to say; a call that throws has changed nothing. Device calls carry the
    session on whose behalf they were made, empty for none. *)

From Stdlib Require Import ZArith Lia Ascii String.
From stdpp Require Import base list strings relations.
From S2P Require Import Prelude Monad StdMap Json Blob Protocol SessionState SessionOps.

(** A quoted word in a message. *)
Definition dq (s : string) : string := String "034"%char (s +:+ String "034"%char EmptyString).

Inductive Out (X : Type) :=
| OCtx (sid : string) (c : CtxCall)
| ODev (by_ : string) (x : X).
Arguments OCtx {X} sid c.
Arguments ODev {X} by_ x.

Record Cap {S X : Type} := { st : S; out : list (Out X) }.
Arguments Cap S X : clear implicits.

(** What the session core and the process give a handler during one turn; answers may depend on
    what happened so far. *)
Class CtxEnv (X : Type) := {
  ctx_throws : list (Out X) -> string -> CtxCall -> option exn;
  fresh_event : list (Out X) -> string;          (* a new envelope's event id *)
  blob_name : list (Out X) -> string;            (* the id [send_blob] gives a blob *)
  clock : list (Out X) -> Z                      (* [steady_clock::now()], nanoseconds *)
}.

Section Steps.
Context {S X : Type} `{E : CtxEnv X}.
Abbreviation P := (Prog (Cap S X)).

Definition self : P S := fun k => (k, Ok (st k)).
Definition history : P (list (Out X)) := fun k => (k, Ok (out k)).
Definition update (f : S -> S) : P unit := modify (fun k => {| k with st := f (st k) |}).
Definition put (o : Out X) : P unit := modify (fun k => {| k with out := out k ++ [o] |}).
Definition dev (by_ : string) (x : X) : P unit := put (ODev by_ x).
Definition ctx (sid : string) (c : CtxCall) : P unit :=
  do h <- history; match ctx_throws h sid c with Some e => throw e | None => put (OCtx sid c) end.
(** [ctx.send_blob(bytes, media)]: the reference to put into an envelope. *)
Definition ctx_send_blob (sid : string) (bytes : list Byte.byte) (media : string) : P BlobRef :=
  do h <- history;
  ctx sid (CSendBlob bytes media None) ;;
  ret {| ref_id := blob_name h; ref_len := zlen bytes; ref_type := media |}.

(** ** How the history grows *)
Definition emits (keep : Out X -> Prop) (k k' : Cap S X) : Prop := exists new, out k' = out k ++ new /\ Forall keep new.
#[global] Instance emits_preorder keep : PreOrder (emits keep).
Proof.
  split; [intros k; exists []; by rewrite app_nil_r|].
  intros a b c (n1 & E1 & F1) (n2 & E2 & F2). exists (n1 ++ n2). rewrite E2, E1, app_assoc. split; [done | by apply Forall_app].
Qed.
Lemma emits_update keep f : respects (emits keep) (update f).
Proof. intros k. exists []. by rewrite app_nil_r. Qed.
Lemma emits_self keep : respects (emits keep) self.
Proof. intros k. exists []. by rewrite app_nil_r. Qed.
Lemma emits_history keep : respects (emits keep) history.
Proof. intros k. exists []. by rewrite app_nil_r. Qed.
Lemma emits_put keep o : keep o -> respects (emits keep) (put o).
Proof. intros Ho k. exists [o]. split; [done | by constructor]. Qed.
Lemma emits_ctx keep sid c : keep (OCtx sid c) -> respects (emits keep) (ctx sid c).
Proof.
  intros Ho k. unfold ctx, bind. simpl. destruct (ctx_throws (out k) sid c); [exists []; by rewrite app_nil_r | by apply emits_put].
Qed.

(** ** Preserving an invariant *)
Definition keeps (I : Cap S X -> Prop) (k k' : Cap S X) : Prop := I k -> I k'.
#[global] Instance keeps_preorder I : PreOrder (keeps I).
Proof. split; [by intros k ? | intros a b c H1 H2 H; auto]. Qed.
Lemma keeps_self I : respects (keeps I) self.
Proof. by intros k. Qed.
Lemma keeps_history I : respects (keeps I) history.
Proof. by intros k. Qed.
Lemma keeps_ctx (I : Cap S X -> Prop) sid c : (forall k, I k -> I {| k with out := out k ++ [OCtx sid c] |}) -> respects (keeps I) (ctx sid c).
Proof. intros HI k Hk. unfold ctx, bind. simpl. destruct (ctx_throws (out k) sid c); [done | by apply HI]. Qed.
End Steps.

(** Walks a capability's handler; [self], [history] and the context are its own primitives. *)
Ltac cap_step :=
  first [ apply emits_self | apply emits_history | apply emits_update | apply keeps_self | apply keeps_history | respects_step ].
