(* ===== verification/NetCapability.v ===== *)
(** * NetCapability: the network tunnel capability (capabilities/net_capability.cpp)

    One link at a time between the robot's tunnel interface and the session that opened it. The
    interface is a device: reads and writes are calls of the history, what a read returns comes
    with the turn. Counters are [unsigned long] of 64 bits, too wide to wrap in a link's life. *)

From Stdlib Require Import ZArith Lia Strings.Byte String.
From stdpp Require Import base list strings relations.
From S2P Require Import Prelude Monad StdMap Json Blob Protocol SessionState SessionOps Capability NetAddressing.

Definition DEFAULT_TUNNEL_MTU : Z := 1200 - 16.
Definition STATS_PERIOD_MS : Z := 1000.
Definition BATCH : nat := 32.

Record Counters := {
  tx_packets : Z; rx_packets : Z; tx_bytes : Z; rx_bytes : Z;
  dropped_no_peer : Z; dropped_policy : Z; dropped_queue : Z; dropped_mtu : Z; abandoned : Z; abandoned_error : Z
}.
Definition no_counters : Counters := {|
  tx_packets := 0; rx_packets := 0; tx_bytes := 0; rx_bytes := 0; dropped_no_peer := 0; dropped_policy := 0; dropped_queue := 0; dropped_mtu := 0;
  abandoned := 0; abandoned_error := 0 |}.
Definition counters_json (c : Counters) : json :=
  jobj [("interval_ms", JInt STATS_PERIOD_MS); ("tx_packets", JUint (tx_packets c)); ("rx_packets", JUint (rx_packets c));
        ("tx_bytes", JUint (tx_bytes c)); ("rx_bytes", JUint (rx_bytes c)); ("dropped_no_peer", JUint (dropped_no_peer c));
        ("dropped_policy", JUint (dropped_policy c)); ("dropped_queue", JUint (dropped_queue c)); ("dropped_mtu", JUint (dropped_mtu c));
        ("abandoned", JUint (abandoned c)); ("abandoned_error", JUint (abandoned_error c))].

Inductive NetCall := NWrite (packet : list byte) | NAttach (ifname : string) | NCloseFd.
(** One [::read] of the interface. *)
Inductive Read := RPacket (p : list byte) | RInterrupted | RNothing.

(** The kernel, usrsctp and the session's channel during one turn. *)
Class NetEnv := {
  net_ctx :: CtxEnv NetCall;
  sha256 : list byte -> list byte;
  operator_of : string -> OperatorInfo;            (* [ctx.operator_info()] *)
  unix_ms : Z;
  net_attach : string -> string + Z;               (* why the device cannot be attached, or its MTU (0: unreadable) *)
  backlog : list (list byte);                      (* what the device still had queued *)
  write_ok : list (Out NetCall) -> bool;
  stream_takes : list (Out NetCall) -> bool;       (* [send_binary]: false above the high watermark *)
  sctp_abandoned : Z; sctp_last_error : Z
}.

Record Net := {
  robot_id : string; n_enabled : bool; ifname : string; n_range : Range; self_addr : Z; peer_addr : Z; mtu : Z; allow_ports : list Z;
  abandoned_at_open : Z; attach_error : string; tun_fd : bool; n_sessions : list (string * unit);
  link_session : string; link_holder : OperatorInfo; link_since_ms : Z; watch : bool; n_stats_timer : bool; counters : Counters
}.
Definition new_net (id : string) : Net := {|
  robot_id := id; n_enabled := false; ifname := "fjarr0"; n_range := {| base := 0; prefix := 0 |}; self_addr := 0; peer_addr := 0; mtu := DEFAULT_TUNNEL_MTU;
  allow_ports := []; abandoned_at_open := 0; attach_error := ""; tun_fd := false; n_sessions := []; link_session := "";
  link_holder := {| op_id := ""; op_label := "" |}; link_since_ms := 0; watch := false; n_stats_timer := false; counters := no_counters |}.
Abbreviation NCap := (Cap Net NetCall).
Definition link_open (n : Net) : bool := negb (String.eqb (link_session n) "").
Definition set_counters (f : Counters -> Counters) (n : Net) : Net := {| n with counters := f (counters n) |}.
Definition bump_no_peer (c : Counters) : Counters := {| c with dropped_no_peer := dropped_no_peer c + 1 |}.
Definition bump_policy (c : Counters) : Counters := {| c with dropped_policy := dropped_policy c + 1 |}.
Definition bump_queue (c : Counters) : Counters := {| c with dropped_queue := dropped_queue c + 1 |}.
Definition bump_mtu (c : Counters) : Counters := {| c with dropped_mtu := dropped_mtu c + 1 |}.
Definition bump_rx (size : Z) (c : Counters) : Counters := {| c with rx_packets := rx_packets c + 1; rx_bytes := rx_bytes c + size |}.
Definition bump_tx (size : Z) (c : Counters) : Counters := {| c with tx_packets := tx_packets c + 1; tx_bytes := tx_bytes c + size |}.

Section Net.
Context `{E : NetEnv}.
Abbreviation P := (Prog NCap).

(** ** Configuration *)
Definition config_error {A} (message : string) : result A := Throw (FjarrError "config" message).
Definition bytes_of (s : string) : list byte := map (fun c => Zbyte (chr c)) (chars s).
Definition resolve_addressing (id : string) (c : json) : result (Range * Z * Z) :=
  let* range_s := value_str c "range" "100.64.0.0/10" in
  match parse_range range_s with
  | None => config_error ("fjarr.net: range is not a CIDR block between /8 and /30: " +:+ range_s)
  | Some range =>
    let peer := operator_address range in
    let* addr := value_str c "address" "auto" in
    if String.eqb addr "auto" then Ok (range, derive_address sha256 (bytes_of id) range, peer)
    else
      match parse_address addr with
      | None => config_error ("fjarr.net: address is neither " +:+ dq "auto" +:+ " nor an IPv4 address: " +:+ addr)
      | Some pinned =>
        if negb (range_contains range pinned) then config_error ("fjarr.net: address " +:+ addr +:+ " is outside range " +:+ range_s)
        else if pinned =? peer then config_error ("fjarr.net: address " +:+ addr +:+ " is the operator's own address (docs/27#addressing)")
        else Ok (range, pinned, peer)
      end
  end.
Definition address_from_config (id : string) (c : json) : result string :=
  let* a := resolve_addressing id c in Ok (to_dotted a.1.2).
Definition attach_device : P unit :=
  do n <- self;
  dev "" (NAttach (ifname n)) ;;
  match net_attach (ifname n) with
  | inl why => update (fun n => {| n with attach_error := why |})
  | inr real => update (fun n => {| n with tun_fd := true; attach_error := ""; mtu := if (0 <? real) && negb (real =? mtu n) then real else mtu n |})
  end.
(** [static_cast<std::uint16_t>(p.get<int>())] of each port. *)
Definition port_of (j : json) : result Z :=
  match j with
  | JInt z | JUint z => Ok (u16 (s32 z))
  | JBool b => Ok (if b then 1 else 0)
  | JFloat f => Ok (u16 (match trunc_float f with Some z => if (- 2 ^ 31 <=? z) && (z <? 2 ^ 31) then z else - 2 ^ 31 | None => - 2 ^ 31 end))
  | _ => Throw type_error
  end.
Fixpoint ports_of (l : list json) : result (list Z) :=
  match l with [] => Ok [] | j :: l' => let* p := port_of j in let* ps := ports_of l' in Ok (p :: ps) end.
Definition configure (c : json) : P unit :=
  do en <- lift (value_bool c "enabled" false);
  update (fun n => {| n with n_enabled := en |}) ;;
  do ifn <- lift (value_str c "interface" "fjarr0");
  update (fun n => {| n with ifname := ifn |}) ;;
  do m <- lift (value_int c "mtu" DEFAULT_TUNNEL_MTU);
  update (fun n => {| n with mtu := m |}) ;;
  do n <- self;
  do (range, s, p) <- lift (resolve_addressing (robot_id n) c);
  update (fun n => {| n with n_range := range; self_addr := s; peer_addr := p |}) ;;
  (if contains c "allow_ports" then
     do ports <- lift (ports_of (match at_key c "allow_ports" with JArr l => l | JObj m => map snd m | JNull => [] | v => [v] end));
     update (fun n => {| n with allow_ports := allow_ports n ++ ports |})
   else ret tt) ;;
  when en attach_device.
Definition address (n : Net) : string := if self_addr n =? 0 then "" else to_dotted (self_addr n).

(** ** The link *)
Definition unavailable_reason (n : Net) : string :=
  if negb (n_enabled n) then "the network tunnel is not enabled on this robot (capabilities." +:+ dq "fjarr.net" +:+ ".enabled)"
  else if negb (tun_fd n) then attach_error n else "".
(** Reads until the device has nothing: one count for each packet of its queue. *)
Definition drain_stale : P unit :=
  do n <- self;
  when (tun_fd n) (for_each backlog (fun _ => update (set_counters bump_no_peer))).
Definition close_link : P unit :=
  do n <- self;
  when (link_open n) (update (fun n => {| n with link_session := ""; watch := false; n_stats_timer := false |})).
Definition session_attached (sid : string) : P unit := update (fun n => {| n with n_sessions := sm_set sid tt (n_sessions n) |}).
Definition release_all_input (sid : string) : P unit := do n <- self; when (String.eqb (link_session n) sid) close_link.
Definition session_detached (sid : string) : P unit :=
  release_all_input sid ;; update (fun n => {| n with n_sessions := sm_erase sid (n_sessions n) |}).

(** Inbound, from the operator. *)
Definition on_binary (sid : string) (bytes : list byte) : P unit :=
  do n <- self;
  if negb (String.eqb (link_session n) sid) || negb (tun_fd n) then update (set_counters bump_no_peer)
  else if u64 (mtu n) <? zlen bytes then update (set_counters bump_mtu)
  else if negb (bool_decide (check (inspect bytes) (self_addr n) (peer_addr n) (allow_ports n) = Allow)) then update (set_counters bump_policy)
  else
    dev sid (NWrite bytes) ;;
    do h <- history;
    if negb (write_ok h) then update (set_counters bump_queue) else update (set_counters (bump_rx (zlen bytes))).

(** Outbound: one packet read from the interface. *)
Definition forward (sid : string) (p : list byte) : P unit :=
  do n <- self;
  if u64 (mtu n) <? zlen p then update (set_counters bump_mtu)
  else if negb (bool_decide (check (inspect p) (peer_addr n) (self_addr n) [] = Allow)) then update (set_counters bump_policy)
  else
    ctx sid (CSendBinary ChStream p) ;;
    do h <- history;
    if negb (stream_takes h) then update (set_counters bump_queue) else update (set_counters (bump_tx (zlen p))).
(** At most [n] reads; a read with nothing ends the batch, an interrupted one does not. *)
Fixpoint read_batch (sid : string) (n : nat) (reads : list Read) : P unit :=
  match n, reads with
  | O, _ => ret tt
  | S n', RPacket p :: rest => forward sid p ;; read_batch sid n' rest
  | S n', RInterrupted :: rest => read_batch sid n' rest
  | S _, RNothing :: _ | S _, [] => ret tt
  end.
(** The watch of session [sid]'s link; the result is whether it stays. *)
Definition on_readable (sid : string) (reads : list Read) : P bool :=
  do n <- self;
  if negb (watch n) || negb (String.eqb (link_session n) sid) then ret false
  else read_batch sid BATCH reads ;; ret true.
Definition on_stats (sid : string) : P bool :=
  do n <- self;
  if negb (n_stats_timer n) || negb (String.eqb (link_session n) sid) then ret false
  else
    update (set_counters (fun c => {| c with abandoned := u64 (sctp_abandoned - abandoned_at_open n); abandoned_error := sctp_last_error |})) ;;
    do n <- self;
    ctx sid (CEvent "link-stats" (counters_json (counters n))) ;; ret true.

Definition holder_json (h : OperatorInfo) : json := jobj [("id", JStr (op_id h)); ("label", JStr (op_label h))].
Definition on_open (sid : string) (msg : Envelope) : P unit :=
  do n <- self;
  let h := link_holder n in
  if link_open n then
    ctx sid (CFail msg busy
      (if String.eqb (link_session n) sid then "this session already has the link open"
       else (if String.eqb (op_label h) "" then op_id h else op_label h) +:+ " holds the link; the robot's interface is point-to-point")
      (jobj [("holder", holder_json h); ("since", JInt (link_since_ms n))]))
  else if negb (String.eqb (unavailable_reason n) "") then ctx sid (CFail msg unavailable (unavailable_reason n) JNull)
  else
    drain_stale ;;
    update (fun n => {| n with counters := no_counters; abandoned_at_open := sctp_abandoned; link_session := sid; link_holder := operator_of sid;
                               link_since_ms := unix_ms; watch := true; n_stats_timer := true |}) ;;
    do n <- self;
    ctx sid (CResult msg (jobj [("ok", JBool true); ("address", JStr (to_dotted (self_addr n))); ("peer_address", JStr (to_dotted (peer_addr n)));
      ("mtu", JInt (mtu n)); ("policy", jobj [("forwarding", JBool false); ("allow_ports", JArr (map JUint (allow_ports n)))])])).
Definition on_close (sid : string) (msg : Envelope) : P unit :=
  do n <- self;
  if negb (String.eqb (link_session n) sid) then ctx sid (CFail msg unavailable "this session has no open link" JNull)
  else close_link ;; ctx sid (CResult msg (jobj [("ok", JBool true)])).
Definition on_message (sid : string) (msg : Envelope) : P unit :=
  if negb (String.eqb (kind msg) "request") then ret tt
  else if String.eqb (type_ msg) "open" then on_open sid msg
  else if String.eqb (type_ msg) "close" then on_close sid msg
  else ctx sid (CFail msg payload_invalid ("unknown fjarr.net request: " +:+ type_ msg) JNull).
Definition shutdown : P unit :=
  close_link ;;
  update (fun n => {| n with n_sessions := [] |}) ;;
  do n <- self;
  when (tun_fd n) (dev "" NCloseFd ;; update (fun n => {| n with tun_fd := false |})).

(** ** Turns *)
Inductive NOp :=
| NAttached (sid : string) | NMessage (sid : string) (msg : Envelope) | NBinary (sid : string) (bytes : list byte)
| NReadable (sid : string) (reads : list Read) | NStats (sid : string) | NRelease (sid : string) | NDetached (sid : string) | NShutdown.
Definition net_op (o : NOp) : P unit :=
  match o with
  | NAttached sid => session_attached sid
  | NMessage sid msg => on_message sid msg
  | NBinary sid bytes => on_binary sid bytes
  | NReadable sid reads => on_readable sid reads ;; ret tt
  | NStats sid => on_stats sid ;; ret tt
  | NRelease sid => release_all_input sid
  | NDetached sid => session_detached sid
  | NShutdown => shutdown
  end.
End Net.
Definition net_step (k : NCap) (t : NetEnv * NOp) : NCap := (@net_op t.1 t.2 k).1.
Definition net_run (ts : list (NetEnv * NOp)) (k : NCap) : NCap := foldl net_step k ts.

(** ** What the link lets through *)
Section Policy.
Context `{E : NetEnv}.
(** A packet that crossed, in either direction, did so for the link of the turn's state. *)
Definition crossed (n : Net) (o : Out NetCall) : Prop :=
  match o with
  | ODev s (NWrite p) => s = link_session n /\ tun_fd n = true /\ zlen p <= u64 (mtu n) /\ check (inspect p) (self_addr n) (peer_addr n) (allow_ports n) = Allow
  | OCtx s (CSendBinary _ p) => s = link_session n /\ zlen p <= u64 (mtu n) /\ check (inspect p) (peer_addr n) (self_addr n) [] = Allow
  | _ => True
  end.
(** The link and its addresses, which no packet changes. *)
Definition route (n : Net) : string * bool * Z * Z * Z * list Z := (link_session n, tun_fd n, mtu n, self_addr n, peer_addr n, allow_ports n).
Lemma crossed_route n n' o : route n' = route n -> crossed n o -> crossed n' o.
Proof. intros [= H1 H2 H3 H4 H5 H6]. destruct o as [s []|s []]; simpl; rewrite ?H1, ?H2, ?H3, ?H4, ?H5, ?H6; tauto. Qed.
Record crossing (k k' : NCap) : Prop := { cr_route : route (st k') = route (st k); cr_out : emits (crossed (st k)) k k' }.
#[local] Instance crossing_preorder : PreOrder crossing.
Proof.
  split; [intros k; split; [done | reflexivity]|]. intros a b c [R1 (n1 & E1 & F1)] [R2 (n2 & E2 & F2)]. split; [congruence|].
  exists (n1 ++ n2). rewrite E2, E1, app_assoc. split; [done|]. apply Forall_app. split; [done|].
  eapply Forall_impl; [exact F2|]. intros o. by apply crossed_route.
Qed.
Lemma crossing_count f : respects crossing (update (set_counters f)).
Proof. intros k. split; [done | apply emits_update]. Qed.
Lemma forward_crossing sid p k : link_session (st k) = sid -> crossing k (forward sid p k).1.
Proof.
  intros Hl. unfold forward, bind at 1. cbn [self]. destruct (Z.ltb_spec (u64 (mtu (st k))) (zlen p)) as [|Hm]; [apply crossing_count|].
  destruct (bool_decide_reflect (check (inspect p) (peer_addr (st k)) (self_addr (st k)) [] = Allow)) as [Ha|]; [|apply crossing_count]. simpl.
  unfold ctx, bind. simpl. destruct (ctx_throws (out k) sid (CSendBinary ChStream p)); [done|].
  assert (crossing k {| k with out := out k ++ [OCtx sid (CSendBinary ChStream p)] |}) as H1.
  { split; [done|]. eexists. split; [done|]. constructor; [by simpl|constructor]. }
  simpl. destruct (negb _); (etrans; [exact H1 | apply crossing_count]).
Qed.
Lemma read_batch_crossing sid n : forall reads k, link_session (st k) = sid -> crossing k (read_batch sid n reads k).1.
Proof.
  induction n as [|n IH]; intros [|[p| |] reads] k Hl; simpl; try done; [|by apply IH].
  pose proof (forward_crossing sid p k Hl) as Hf. unfold bind. destruct (forward sid p k) as [k1 [[]|e]]; [|done]. simpl in Hf. etrans; [exact Hf|].
  apply IH. destruct Hf as [Hr _]. unfold route in Hr. congruence.
Qed.
Lemma on_binary_crossing sid p k : crossing k (on_binary sid p k).1.
Proof.
  unfold on_binary, bind at 1. cbn [self]. destruct (String.eqb_spec (link_session (st k)) sid) as [Hl|]; [|apply crossing_count].
  destruct (tun_fd (st k)) eqn:Ht; [|apply crossing_count]. simpl. destruct (Z.ltb_spec (u64 (mtu (st k))) (zlen p)) as [|Hm]; [apply crossing_count|].
  destruct (bool_decide_reflect (check (inspect p) (self_addr (st k)) (peer_addr (st k)) (allow_ports (st k)) = Allow)) as [Ha|]; [|apply crossing_count]. simpl.
  unfold bind. simpl. assert (crossing k {| k with out := out k ++ [ODev sid (NWrite p)] |}) as H1.
  { split; [done|]. eexists. split; [done|]. constructor; [by simpl|constructor]. }
  destruct (negb _); (etrans; [exact H1 | apply crossing_count]).
Qed.
Lemma on_readable_crossed sid reads k : emits (crossed (st k)) k ((on_readable sid reads ;; ret tt) k).1.
Proof.
  unfold on_readable, bind. cbn [self]. destruct (negb (watch (st k))); [reflexivity|].
  destruct (String.eqb_spec (link_session (st k)) sid) as [Hl|]; [|reflexivity]. cbn [orb negb].
  pose proof (read_batch_crossing sid BATCH reads k Hl) as [_ Hb]. by destruct (read_batch sid BATCH reads k) as [k1 [[]|]].
Qed.
Lemma net_op_crossed o k : emits (crossed (st k)) k (net_op o k).1.
Proof.
  assert (forall sid c n, (forall p q, c <> CSendBinary p q) -> respects (emits (crossed n)) (ctx sid c : Prog NCap unit)) as Hctx.
  { intros sid c n Hc. apply emits_ctx. destruct c; try done. by destruct (Hc cls bytes). }
  destruct o as [sid|sid msg|sid p|sid reads|sid|sid|sid|]; cbn [net_op]; [| |apply on_binary_crossing| |..];
    [| |apply on_readable_crossed|..];
    (match goal with |- emits _ _ (?m k).1 => assert (respects (emits (crossed (st k))) m) as Hm; [|apply Hm] end;
     unfold session_attached, on_message, on_open, on_close, drain_stale, session_detached, release_all_input, close_link, on_stats, shutdown;
     repeat first [apply Hctx; done | apply emits_put; done | cap_step]).
Qed.
End Policy.

(** C29: A packet crosses the tunnel, either way, only on the open link's session, only up to the
    interface's MTU, and only when the policy allows it: inbound from the operator's address to
    the robot's own (and a listed port, when ports are listed), outbound the mirror of it. *)
Theorem only_link_packets_cross e o k :
  exists new, out (net_step k (e, o)) = out k ++ new /\ Forall (crossed (st k)) new.
Proof. apply (@net_op_crossed e o k). Qed.

(** ** The lease *)
Definition ends_link (sid : string) (o : NOp) : bool :=
  match o with
  | NMessage s msg => String.eqb s sid && String.eqb (kind msg) "request" && String.eqb (type_ msg) "close"
  | NRelease s | NDetached s => String.eqb s sid
  | NShutdown => true
  | _ => false
  end.
Section Lease.
Context `{E : NetEnv}.
Lemma say_link sid c (k : NCap) : link_session (st (ctx sid c k).1) = link_session (st k).
Proof. unfold ctx, bind. simpl. by destruct (ctx_throws _ _ _). Qed.
Definition unmoved (k k' : NCap) : Prop := link_session (st k') = link_session (st k).
#[local] Instance unmoved_preorder : PreOrder unmoved.
Proof. split; [by intros k | intros a b c H1 H2; unfold unmoved in *; congruence]. Qed.
Lemma unmoved_ctx sid c : respects unmoved (ctx sid c : Prog NCap unit).
Proof. intros k. apply say_link. Qed.
Lemma unmoved_update (f : Net -> Net) : (forall n, link_session (f n) = link_session n) -> respects unmoved (update f).
Proof. intros Hf k. apply Hf. Qed.
Ltac still := repeat first [apply unmoved_ctx | apply unmoved_update; done | solve [intros ?; reflexivity] | respects_step].
Lemma read_batch_unmoved sid n : forall reads, respects unmoved (read_batch sid n reads).
Proof. induction n as [|n IH]; intros [|[p| |] reads]; simpl; try (apply respects_ret; apply _); [|apply IH].
  apply respects_bind; [apply _ | unfold forward; still | intros _; apply IH].
Qed.
Lemma net_op_lease a o k : a <> ""%string -> link_session (st k) = a -> ends_link a o = false -> link_session (st (net_op o k).1) = a.
Proof.
  intros Ha Hl He. assert (forall m : Prog NCap unit, respects unmoved m -> link_session (st (m k).1) = a) as Hm by (intros m H; rewrite <- Hl; apply H).
  destruct o as [sid|sid msg|sid p|sid reads|sid|sid|sid|]; cbn [net_op ends_link] in *; [apply Hm; unfold session_attached; still | |
    apply Hm; unfold on_binary; still | apply Hm; unfold on_readable | apply Hm; unfold on_stats; still | | |done].
  - unfold on_message. destruct (String.eqb (kind msg) "request"); [|done]. cbn [negb]. destruct (String.eqb_spec (type_ msg) "open") as [Ho|_].
    + unfold on_open, bind at 1. cbn [self]. unfold link_open. rewrite Hl. destruct (String.eqb_spec a "") as [|_]; [done|]. cbn [negb]. exact (eq_trans (say_link _ _ _) Hl).
    + destruct (String.eqb_spec (type_ msg) "close") as [Ht|_]; [|exact (eq_trans (say_link _ _ _) Hl)]. unfold on_close, bind at 1. cbn [self]. rewrite Hl.
      destruct (String.eqb_spec a sid) as [->|_]; [by rewrite String.eqb_refl in He | exact (eq_trans (say_link _ _ _) Hl)].
  - repeat first [apply read_batch_unmoved | respects_step | solve [intros ?; reflexivity]].
  - unfold release_all_input, bind. cbn [self]. rewrite Hl. destruct (String.eqb_spec a sid) as [->|_]; [by rewrite String.eqb_refl in He | done].
  - unfold session_detached, release_all_input, bind. cbn [self]. rewrite Hl. destruct (String.eqb_spec a sid) as [->|_]; [by rewrite String.eqb_refl in He | done].
Qed.
End Lease.

(** The link is one session's until that session closes it, loses it or ends: nothing another
    session sends, and nothing the interface delivers, moves it; another session's open is
    refused as long. *)
Theorem link_lease_exclusive a ts k : a <> ""%string -> link_session (st k) = a -> Forall (fun t => ends_link a t.2 = false) ts ->
  link_session (st (net_run ts k)) = a.
Proof.
  intros Ha. revert k. induction ts as [|[e o] ts IH]; intros k Hl Hts; [done|]. inversion_clear Hts as [|? ? H1 H2]. apply IH; [|done].
  by apply (@net_op_lease e a o k).
Qed.

(** ** Every packet is counted once *)
Definition total (c : Counters) : Z := tx_packets c + rx_packets c + dropped_no_peer c + dropped_policy c + dropped_queue c + dropped_mtu c.
(** The packets a batch takes of what the interface offers. *)
Fixpoint taken (n : nat) (reads : list Read) : Z :=
  match n, reads with
  | S n', RPacket _ :: rest => 1 + taken n' rest
  | S n', RInterrupted :: rest => taken n' rest
  | _, _ => 0
  end.
Lemma taken_bound n : forall reads, 0 <= taken n reads <= Z.of_nat n.
Proof. induction n as [|n IH]; intros [|[p| |] reads]; simpl; try lia; specialize (IH reads); lia. Qed.
Section Counted.
Context `{E : NetEnv} (calm : forall h sid c, ctx_throws (CtxEnv := net_ctx) h sid c = None).
Lemma forward_counted sid p k : exists k', forward sid p k = (k', Ok tt) /\ total (counters (st k')) = total (counters (st k)) + 1.
Proof.
  unfold forward, bind at 1. cbn [self]. destruct (_ <? _); [eexists; split; [done|]; unfold total; simpl; lia|].
  destruct (negb _); [eexists; split; [done|]; unfold total; simpl; lia|]. unfold ctx, bind. simpl. rewrite calm. simpl.
  destruct (negb _); eexists; (split; [done|]); unfold total; simpl; lia.
Qed.
Lemma read_batch_counted sid n : forall reads k, exists k', read_batch sid n reads k = (k', Ok tt)
  /\ total (counters (st k')) = total (counters (st k)) + taken n reads.
Proof.
  induction n as [|n IH]; intros [|[p| |] reads] k; simpl; try (eexists; split; [done | lia]); [|apply IH].
  destruct (forward_counted sid p k) as (k1 & E1 & H1). unfold bind. rewrite E1. destruct (IH reads k1) as (k2 & E2 & H2). exists k2. split; [done | lia].
Qed.
(** Every packet is accounted for: one inbound, whatever becomes of it, moves exactly one
    counter, and a batch from the interface moves exactly one for each packet it takes, at most
    32 before the loop goes on to other work. *)
Theorem every_packet_counted sid p reads k :
  total (counters (st (on_binary sid p k).1)) = total (counters (st k)) + 1
  /\ (watch (st k) = true -> link_session (st k) = sid ->
      total (counters (st (on_readable sid reads k).1)) = total (counters (st k)) + taken BATCH reads /\ 0 <= taken BATCH reads <= 32).
Proof.
  split.
  - unfold on_binary, bind at 1. cbn [self]. destruct (_ || _); [unfold total; simpl; lia|]. destruct (_ <? _); [unfold total; simpl; lia|].
    destruct (negb _); [unfold total; simpl; lia|]. unfold bind. simpl. destruct (negb _); unfold total; simpl; lia.
  - intros Hw Hl. split; [|apply (taken_bound BATCH)]. unfold on_readable, bind at 1. cbn [self]. rewrite Hw, Hl, String.eqb_refl. cbn [negb orb].
    destruct (read_batch_counted sid BATCH reads k) as (k' & Hk & Ht). unfold bind. by rewrite Hk.
Qed.
End Counted.

(** The packets drained when a link opens are counted, and the counters then start from zero:
    the count of them never reaches a report. *)
Theorem drained_packets_uncounted `{E : NetEnv} sid msg k :
  link_open (st k) = false -> unavailable_reason (st k) = ""%string -> dropped_no_peer (counters (st (on_open sid msg k).1)) = 0.
Proof.
  intros Hl Hu. unfold on_open, bind at 1. cbn [self]. rewrite Hl, Hu. cbn [negb String.eqb].
  assert (exists k1, drain_stale k = (k1, Ok tt)) as (k1 & Hd).
  { unfold drain_stale, bind, when. cbn [self]. destruct (tun_fd (st k)); [|by eexists]. clear. generalize backlog k. intros l.
    induction l as [|p l IH]; intros k0; [by eexists|]. apply IH. }
  unfold bind at 1. rewrite Hd. unfold bind. cbn [update modify self]. unfold ctx, bind. simpl. by destruct (ctx_throws _ _ _).
Qed.

(** ** A robot for the witnesses *)
Module NetDemo.
#[export] Instance robot : NetEnv := {|
  net_ctx := {| ctx_throws _ _ _ := None; fresh_event _ := "e"; blob_name _ := "b"; clock _ := 0 |};
  sha256 l := l; operator_of s := {| op_id := s; op_label := "" |}; unix_ms := 5; net_attach _ := inr 1184; backlog := [[x01]; [x02]];
  write_ok _ := true; stream_takes _ := true; sctp_abandoned := 3; sctp_last_error := 0 |}.
Definition net0 : NCap := {| st := {| (new_net "r1") with n_enabled := true; tun_fd := true; self_addr := 1681915905; peer_addr := 1681915906 |}; out := [] |}.
Definition request (t : string) : Envelope := {| cap := "fjarr.net"; type_ := t; event_id := "1"; kind := "request"; e_payload := JObj [] |}.
(** A packet of 20 bytes from the operator to the robot. *)
Definition ping : list byte := [x45; x00; x00; x14; x00; x00; x00; x00; x40; x01; x00; x00; x64; x40; x00; x02; x64; x40; x00; x01].
Definition opened : NCap := net_run [(robot, NAttached "a"); (robot, NMessage "a" (request "open"))] net0.
End NetDemo.
Import NetDemo.
Lemma link_lease_exclusive_witness :
  link_session (st opened) = "a"%string
  /\ link_session (st (net_run [(robot, NMessage "b" (request "open")); (robot, NRelease "b")] opened)) = "a"%string.
Proof.
  split; [vm_compute; reflexivity|].
  refine (link_lease_exclusive "a" [(robot, NMessage "b" (request "open")); (robot, NRelease "b")] opened _ _ _); [done | vm_compute; reflexivity | repeat constructor].
Defined.
Lemma every_packet_counted_witness :
  rx_packets (counters (st (on_binary "a" ping opened).1)) = 1
  /\ total (counters (st (on_binary "a" ping opened).1)) = total (counters (st opened)) + 1.
Proof.
  split; [vm_compute; reflexivity|].
  exact (proj1 (every_packet_counted (E := robot) (fun _ _ _ => eq_refl) "a" ping [] opened)).
Defined.
