(* ===== verification/Terminal.v ===== *)
(** * Terminal: the terminal capability (capabilities/terminal_capability.cpp)

    A shell on a pseudo-terminal per session. Processes and descriptors are the kernel's: forking,
    killing, polling for a child's end and reading the pty are calls of the history, with what the
    kernel answered. A frame the channel refuses is not sent, so only accepted ones are recorded.

    Then: no shell outlives its session, the output waiting for a slow peer is bounded, and what
    the peer gets is what the shell wrote, in order. *)

From Stdlib Require Import ZArith Lia Strings.Byte Ascii String.
From stdpp Require Import base list strings relations.
From S2P Require Import Prelude Monad StdMap Json Blob Protocol SessionState SessionOps Capability.

Definition READ_CHUNK : Z := 32 * 1024.
Definition MAX_PENDING : Z := 4 * 1024 * 1024.
Definition POLLS : nat := 20.

Inductive TCall :=
| TFork (cols rows : Z) (term shell argv0 : string) (child : option (Z * Z))  (* pid and descriptor, or the failure *)
| TKill (pid : Z) (kill9 : bool) | TPoll (pid : Z) (gone : bool) | TWait (pid : Z)
| TWrite (fd : Z) (bytes : list byte) | TRead (fd : Z) (bytes : list byte) | TResize (fd cols rows : Z) | TCloseFd (fd : Z).
Abbreviation TOut := (Out TCall).

(** The kernel and the channel during one turn. *)
Class TermEnv := {
  term_ctx :: CtxEnv TCall;
  current_user : string; login_shell : string -> string;
  forkpty : list TOut -> option (Z * Z);
  fork_error : string;
  child_gone : list TOut -> Z -> bool;                 (* [waitpid(pid, WNOHANG) != 0] *)
  bulk_takes : list TOut -> bool                       (* [send_binary]: false above the high watermark *)
}.
(** What a read of the pty gives; at its end, how the child ended if it has. *)
Inductive Ending := Exited (code : Z) | Signalled (name : string) | Unknown.
Inductive PtyRead := PData (bytes : list byte) | PAgain | PEnd (how : option Ending).
(** What the writes to the pty give, in turn: bytes taken, an interruption, or a refusal. *)
Inductive PtyWrite := WTook (n : nat) | WInterrupted | WRefused.

Record Pty := { pid : Z; fd : Z; pending : list (list byte); pending_bytes : Z; drain_armed : bool }.
Record Term := { t_user : string; t_shell : string; t_enabled : bool; t_sessions : list (string * unit); ptys : list (string * Pty) }.
Definition new_term : Term := {| t_user := ""; t_shell := ""; t_enabled := false; t_sessions := []; ptys := [] |}.
Abbreviation TCap := (Cap Term TCall).
Definition set_pty (sid : string) (p : Pty) (t : Term) : Term := {| t with ptys := sm_set sid p (ptys t) |}.

(** [sh.substr(sh.find_last_of('/') + 1)]. *)
Fixpoint after_slash (cur s : list ascii) : list ascii :=
  match s with [] => cur | c :: s' => if ascii_dec c "/" then after_slash s' s' else after_slash cur s' end.
Definition basename (s : string) : string := of_chars (after_slash (chars s) (chars s)).

Section Terminal.
Context `{E : TermEnv}.
Abbreviation P := (Prog TCap).

Definition resolved_shell (t : Term) : string := if String.eqb (t_shell t) "" then login_shell (t_user t) else t_shell t.
Definition term_unavailable (t : Term) : string :=
  if negb (t_enabled t) || String.eqb (t_user t) ""
  then "no terminal is configured on this robot (capabilities." +:+ dq "fjarr.terminal" +:+ ".user)"
  else if negb (String.eqb (t_user t) current_user)
  then "configured for user '" +:+ t_user t +:+ "' but the agent runs as '" +:+ current_user +:+ "'; it cannot switch accounts (docs/10#terminal)"
  else
    let sh := resolved_shell t in
    if String.eqb (basename sh) "nologin" || String.eqb (basename sh) "false"
    then "the terminal's shell is " +:+ sh +:+ ", which refuses logins (" +:+ t_user t +:+ " is a system account): set shell in capabilities."
         +:+ dq "fjarr.terminal" +:+ ", e.g. /bin/bash (docs/06)"
    else "".

(** Sends what is pending until the channel refuses; its drain hook is armed once. *)
Fixpoint pump_pending (sid : string) (p : Pty) (l : list (list byte)) : P unit :=
  match l with
  | [] => update (set_pty sid {| p with pending := [] |})
  | front :: rest =>
    update (set_pty sid {| p with pending := front :: rest |}) ;;
    do h <- history;
    match ctx_throws h sid (CSendBinary ChBulk front) with
    | Some e => throw e
    | None =>
      if bulk_takes h then put (OCtx sid (CSendBinary ChBulk front)) ;; pump_pending sid {| p with pending_bytes := pending_bytes p - zlen front |} rest
      else update (set_pty sid {| p with pending := front :: rest; drain_armed := true |})
    end
  end.
Definition pump (sid : string) : P unit :=
  do t <- self; match sm_find sid (ptys t) with Some p => pump_pending sid p (pending p) | None => ret tt end.
Definition on_drain (sid : string) : P unit :=
  do t <- self;
  match sm_find sid (ptys t) with
  | Some p => update (set_pty sid {| p with drain_armed := false |}) ;; pump sid
  | None => ret tt
  end.

(** One [waitpid(pid, WNOHANG)]; true when it does not return 0. *)
Definition poll (sid : string) (pid : Z) : P bool :=
  do h <- history; let g := child_gone h pid in dev sid (TPoll pid g) ;; ret g.
Fixpoint poll_until (sid : string) (pid : Z) (n : nat) : P unit :=
  match n with O => ret tt | S n' => do g <- poll sid pid; if g then ret tt else poll_until sid pid n' end.
Definition reap (sid : string) (pid : Z) : P unit :=
  dev sid (TKill pid false) ;;
  poll_until sid pid POLLS ;;
  do g <- poll sid pid;
  when (negb g) (dev sid (TKill pid true) ;; dev sid (TWait pid)).
Definition close_pty (sid : string) (notify : bool) : P unit :=
  do t <- self;
  match sm_find sid (ptys t) with
  | None => ret tt
  | Some p =>
    update (fun t => {| t with ptys := sm_erase sid (ptys t) |}) ;;
    when (0 <? pid p) (reap sid (pid p)) ;;
    when (0 <=? fd p) (dev sid (TCloseFd (fd p))) ;;
    when (notify && sm_count sid (t_sessions t)) (ctx sid (CEvent "exit" (jobj [("code", JInt 0)])))
  end.

Definition configure (c : json) : P unit :=
  do en <- lift (value_bool c "enabled" true);
  update (fun t => {| t with t_enabled := en |}) ;;
  do u <- lift (value_str c "user" "");
  update (fun t => {| t with t_user := u |}) ;;
  do s <- lift (value_str c "shell" "");
  update (fun t => {| t with t_shell := s |}).
Definition session_attached (sid : string) : P unit := update (fun t => {| t with t_sessions := sm_set sid tt (t_sessions t) |}).
Definition session_detached (sid : string) : P unit :=
  close_pty sid false ;; update (fun t => {| t with t_sessions := sm_erase sid (t_sessions t) |}).
Definition release_all_input (sid : string) : P unit := close_pty sid false.

(** Keystrokes: written until the pty takes no more; the rest is dropped. *)
Fixpoint write_all (sid : string) (f : Z) (bytes : list byte) (ws : list PtyWrite) : P unit :=
  match bytes, ws with
  | [], _ | _, [] => ret tt
  | _, WTook (S n) :: ws' => dev sid (TWrite f (take (S n) bytes)) ;; write_all sid f (drop (S n) bytes) ws'
  | _, WInterrupted :: ws' => write_all sid f bytes ws'
  | _, _ => ret tt
  end.
Definition on_binary (sid : string) (bytes : list byte) (ws : list PtyWrite) : P unit :=
  do t <- self;
  match sm_find sid (ptys t) with
  | Some p => if fd p <? 0 then ret tt else write_all sid (fd p) bytes ws
  | None => ret tt
  end.

Definition size_or (def z : Z) : Z := if u16 z =? 0 then def else u16 z.
Definition on_open (sid : string) (msg : Envelope) : P unit :=
  do t <- self;
  if sm_count sid (ptys t) then ctx sid (CFail msg busy "a terminal is already open on this session" JNull)
  else if negb (String.eqb (term_unavailable t) "") then ctx sid (CFail msg unavailable (term_unavailable t) JNull)
  else
    do cols <- lift (value_int (e_payload msg) "cols" 80);
    do rows <- lift (value_int (e_payload msg) "rows" 24);
    do term <- lift (value_str (e_payload msg) "term" "xterm-256color");
    let shell := resolved_shell t in
    do h <- history;
    dev sid (TFork (size_or 80 cols) (size_or 24 rows) term shell ("-" +:+ basename shell) (forkpty h)) ;;
    match forkpty h with
    | None => ctx sid (CFail msg internal ("forkpty failed: " +:+ fork_error) JNull)
    | Some (child, master) =>
      update (set_pty sid {| pid := child; fd := master; pending := []; pending_bytes := 0; drain_armed := false |}) ;;
      ctx sid (CResult msg (jobj [("ok", JBool true)]))
    end.
(** The pty is readable, or has ended. *)
Definition on_readable (sid : string) (r : PtyRead) : P unit :=
  do t <- self;
  match sm_find sid (ptys t) with
  | None => ret tt
  | Some q =>
    match r with
    | PAgain => ret tt
    | PData buf =>
      if MAX_PENDING <? pending_bytes q + zlen buf then close_pty sid true
      else
        dev sid (TRead (fd q) buf) ;;
        update (set_pty sid {| q with pending := pending q ++ [buf]; pending_bytes := pending_bytes q + zlen buf |}) ;;
        pump sid
    | PEnd how =>
      (match how with
       | Some _ => when (0 <? pid q) (dev sid (TPoll (pid q) true) ;; update (set_pty sid {| q with pid := -1 |}))
       | None => ret tt
       end) ;;
      ctx sid (CEvent "exit" (match (if 0 <? pid q then how else None) with
                              | Some (Exited c) => jobj [("code", JInt c)]
                              | Some (Signalled s) => jobj [("signal", JStr s)]
                              | Some Unknown => JObj []
                              | None => jobj [("code", JInt 0)]
                              end)) ;;
      close_pty sid false
    end
  end.
Definition on_resize (sid : string) (msg : Envelope) : P unit :=
  do t <- self;
  match sm_find sid (ptys t) with
  | None => ctx sid (CFail msg payload_invalid "no terminal is open on this session" JNull)
  | Some p =>
    do cols <- lift (value_int (e_payload msg) "cols" 80);
    do rows <- lift (value_int (e_payload msg) "rows" 24);
    dev sid (TResize (fd p) (u16 cols) (u16 rows)) ;;
    ctx sid (CResult msg (jobj [("ok", JBool true)]))
  end.
Definition on_message (sid : string) (msg : Envelope) : P unit :=
  if negb (String.eqb (kind msg) "request") then ret tt
  else if String.eqb (type_ msg) "open" then on_open sid msg
  else if String.eqb (type_ msg) "resize" then on_resize sid msg
  else if String.eqb (type_ msg) "close" then close_pty sid false ;; ctx sid (CResult msg (jobj [("ok", JBool true)]))
  else throw (FjarrError payload_invalid ("unknown fjarr.terminal request: " +:+ type_ msg)).
Definition shutdown : P unit :=
  do t <- self;
  for_each (ptys t) (fun kv => close_pty kv.1 false) ;;
  update (fun t => {| t with t_sessions := [] |}).

Inductive TOp :=
| TAttached (sid : string) | TMessage (sid : string) (msg : Envelope) | TBinary (sid : string) (bytes : list byte) (ws : list PtyWrite)
| TReadable (sid : string) (r : PtyRead) | TDrain (sid : string) | TRelease (sid : string) | TDetached (sid : string) | TShutdown.
Definition term_op (o : TOp) : P unit :=
  match o with
  | TAttached sid => session_attached sid
  | TMessage sid msg => on_message sid msg
  | TBinary sid bytes ws => on_binary sid bytes ws
  | TReadable sid r => on_readable sid r
  | TDrain sid => on_drain sid
  | TRelease sid => release_all_input sid
  | TDetached sid => session_detached sid
  | TShutdown => shutdown
  end.
End Terminal.
Definition term_step (k : TCap) (t : TermEnv * TOp) : TCap := (@term_op t.1 t.2 k).1.
Definition term_run (ts : list (TermEnv * TOp)) (k : TCap) : TCap := foldl term_step k ts.
