(* ===== verification/TerminalProofs.v ===== *)
(** * TerminalProofs: shells, backlog and output order

    One invariant carries the terminal's promises through every turn: each child that was forked
    and has not been waited for is the shell of a session; the bytes waiting for a session's peer
    are counted exactly and bounded; and what was sent followed by what waits is what was read. *)

From Stdlib Require Import ZArith Lia Strings.Byte String.
From stdpp Require Import base list strings relations.
From S2P Require Import Prelude Monad StdMap Json Blob Protocol SessionState SessionOps Capability Terminal.

(** ** What the history says *)
(** Children forked and not yet waited for. *)
Definition child_event (l : list Z) (o : TOut) : list Z :=
  match o with
  | ODev _ (TFork _ _ _ _ _ (Some (c, _))) => l ++ [c]
  | ODev _ (TPoll c true) | ODev _ (TWait c) => List.filter (fun x => negb (x =? c)) l
  | _ => l
  end.
Definition children (h : list TOut) : list Z := foldl child_event [] h.
(** What a session's shell wrote, and what the session was sent, since its shell started. *)
Definition read_event (sid : string) (l : list byte) (o : TOut) : list byte :=
  match o with
  | ODev s (TFork _ _ _ _ _ (Some _)) => if String.eqb s sid then [] else l
  | ODev s (TRead _ b) => if String.eqb s sid then l ++ b else l
  | _ => l
  end.
Definition sent_event (sid : string) (l : list byte) (o : TOut) : list byte :=
  match o with
  | ODev s (TFork _ _ _ _ _ (Some _)) => if String.eqb s sid then [] else l
  | OCtx s (CSendBinary ChBulk b) => if String.eqb s sid then l ++ b else l
  | _ => l
  end.
Definition shell_output (sid : string) (h : list TOut) : list byte := foldl (read_event sid) [] h.
Definition peer_input (sid : string) (h : list TOut) : list byte := foldl (sent_event sid) [] h.
Definition backlog_of (p : Pty) : Z := zlen (concat (pending p)).
Definition shell_of (k : TCap) (c : Z) : Prop := exists sid p, sm_find sid (ptys (st k)) = Some p /\ pid p = c.

Record good (k : TCap) : Prop := {
  g_children : forall c, In c (children (out k)) -> 0 < c -> shell_of k c;
  g_backlog : forall sid p, sm_find sid (ptys (st k)) = Some p -> pending_bytes p = backlog_of p /\ backlog_of p <= MAX_PENDING;
  g_order : forall sid p, sm_find sid (ptys (st k)) = Some p -> shell_output sid (out k) = peer_input sid (out k) ++ concat (pending p)
}.
Lemma children_snoc h o : children (h ++ [o]) = child_event (children h) o.
Proof. unfold children. by rewrite foldl_app. Qed.
Lemma output_snoc sid h o : shell_output sid (h ++ [o]) = read_event sid (shell_output sid h) o.
Proof. unfold shell_output. by rewrite foldl_app. Qed.
Lemma input_snoc sid h o : peer_input sid (h ++ [o]) = sent_event sid (peer_input sid h) o.
Proof. unfold peer_input. by rewrite foldl_app. Qed.
Create Rewrite HintDb hist.
Hint Rewrite children_snoc output_snoc input_snoc : hist.

(** Events that are neither output nor a child's beginning. *)
Definition idle_event (o : TOut) : bool :=
  match o with
  | ODev _ (TFork _ _ _ _ _ (Some _)) | ODev _ (TRead _ _) | OCtx _ (CSendBinary ChBulk _) => false
  | _ => true
  end.
Lemma child_event_sub l o c : idle_event o = true -> In c (child_event l o) -> In c l.
Proof. destruct o as [|s [? ? ? ? ? [[]|]|? ?|? []|?|? ?|? ?|? ? ?|?]]; simpl; try done; rewrite List.filter_In; naive_solver. Qed.
Lemma idle_streams sid o l : idle_event o = true -> read_event sid l o = l /\ sent_event sid l o = l.
Proof. destruct o as [s []|s [? ? ? ? ? [[]|]|? ?|? []|?|? ?|? ?|? ? ?|?]]; simpl; try done. by destruct cls. Qed.
Lemma good_idle (k : TCap) o : idle_event o = true -> good k -> good {| k with out := out k ++ [o] |}.
Proof.
  intros Ho [H1 H2 H3]. split; cbn [st out]; autorewrite with hist.
  - intros c Hc Hp. destruct (H1 c) as (sid & p & Hf & Hpid); [by eapply child_event_sub | done | by exists sid, p].
  - done.
  - intros sid p Hf. autorewrite with hist. destruct (idle_streams sid o (shell_output sid (out k)) Ho) as [-> _].
    destruct (idle_streams sid o (peer_input sid (out k)) Ho) as [_ ->]. by apply H3.
Qed.

Section Steps.
Context `{E : TermEnv}.
Abbreviation keep m := (respects (keeps good) m).
Lemma good_dev s c : idle_event (ODev s c) = true -> keep (dev s c).
Proof. intros Ho k Hk. by apply good_idle. Qed.
Lemma good_ctx sid c : idle_event (OCtx sid c) = true -> keep (ctx sid c).
Proof. intros Ho. apply keeps_ctx. intros k Hk. by apply good_idle. Qed.
Lemma good_update (f : Term -> Term) : (forall t, ptys (f t) = ptys t) -> keep (update f).
Proof. intros Hf k [H1 H2 H3]. split; cbn [st out update modify fst]; unfold shell_of; cbn [st]; by rewrite Hf. Qed.
(** A pty replaced by one with the same process and the same backlog. *)
Lemma good_same_pty sid p q k : sm_find sid (ptys (st k)) = Some p -> pid q = pid p -> pending q = pending p -> pending_bytes q = pending_bytes p ->
  good k -> good {| k with st := set_pty sid q (st k) |}.
Proof.
  intros Hf Hpid Hpend Hb [H1 H2 H3]. split; cbn [st out set_pty ptys].
  - intros c Hc Hp. destruct (H1 c Hc Hp) as (s & x & Hs & Hx). unfold shell_of. cbn [st set_pty ptys].
    destruct (decide (s = sid)) as [->|]; [exists sid, q; rewrite sm_find_set_eq; split; [done | congruence] | exists s, x; by rewrite sm_find_set_ne].
  - intros s x. destruct (decide (s = sid)) as [->|]; [|rewrite sm_find_set_ne by done; apply H2].
    rewrite sm_find_set_eq. intros [= <-]. unfold backlog_of. rewrite Hpend, Hb. by apply (H2 sid).
  - intros s x. destruct (decide (s = sid)) as [->|]; [|rewrite sm_find_set_ne by done; apply H3].
    rewrite sm_find_set_eq. intros [= <-]. rewrite Hpend. by apply H3.
Qed.
Lemma set_pty_twice sid p q t : set_pty sid p (set_pty sid q t) = set_pty sid p t.
Proof. unfold set_pty. simpl. by rewrite sm_set_set. Qed.
Lemma pump_good sid l : forall p (k : TCap), good {| k with st := set_pty sid {| p with pending := l |} (st k) |} -> good (pump_pending sid p l k).1.
Proof.
  induction l as [|front rest IH]; intros p k Hk; cbn [pump_pending]; [exact Hk|]. unfold bind at 1. cbn [update modify]. set (k1 := {| st := _; out := _ |}) in *.
  unfold bind at 1. cbn [history]. destruct (ctx_throws (out k1) sid (CSendBinary ChBulk front)); [done|]. destruct (bulk_takes (out k1)).
  - unfold bind at 1. cbn [put modify]. apply IH. unfold k1. cbn [st out]. rewrite set_pty_twice.
    assert (sm_find sid (ptys (st k1)) = Some {| p with pending := front :: rest |}) as Hf by (unfold k1; cbn [st set_pty ptys]; apply sm_find_set_eq).
    destruct Hk as [H1 H2 H3]. unfold k1 in *. cbn [st out] in *. split; cbn [st out]; autorewrite with hist; cbn [child_event].
    + intros c Hc Hp. destruct (H1 c Hc Hp) as (s & x & Hs & Hx). unfold shell_of. cbn [st set_pty ptys] in *.
      destruct (decide (s = sid)) as [->|]; [rewrite sm_find_set_eq in Hs; injection Hs as <-; eexists sid, _; rewrite sm_find_set_eq; split; [done | by simpl in *]|].
      exists s, x. rewrite sm_find_set_ne in * by done. done.
    + intros s x. cbn [set_pty ptys]. destruct (decide (s = sid)) as [->|Hne]; [|rewrite sm_find_set_ne by done; intros Hs; apply (H2 s); cbn [set_pty ptys]; by rewrite sm_find_set_ne].
      rewrite sm_find_set_eq. intros [= <-]. destruct (H2 _ _ Hf) as [Hb Hm]. unfold backlog_of in *. cbn [pending pending_bytes] in *. cbn [concat] in *. rewrite zlen_app in *.
      pose proof (zlen_nonneg front). lia.
    + intros s x. cbn [set_pty ptys]. destruct (decide (s = sid)) as [->|Hne].
      * rewrite sm_find_set_eq. intros [= <-]. autorewrite with hist. cbn [read_event sent_event]. rewrite String.eqb_refl. rewrite (H3 _ _ Hf). cbn [pending concat]. by rewrite app_assoc.
      * rewrite sm_find_set_ne by done. intros Hs. autorewrite with hist. cbn [read_event sent_event]. destruct (String.eqb_spec sid s); [congruence|].
        apply (H3 s). cbn [set_pty ptys]. by rewrite sm_find_set_ne.
  - cbn [update modify fst]. apply (good_same_pty sid {| p with pending := front :: rest |}); try done. unfold k1. cbn [st set_pty ptys]. apply sm_find_set_eq.
Qed.
Lemma pump_keeps sid : keep (pump sid).
Proof.
  intros k Hk. unfold pump, bind. cbn [self]. destruct (sm_find sid (ptys (st k))) as [p|] eqn:Ef; [|done]. apply pump_good.
  by eapply good_same_pty.
Qed.

(** Reaping: whatever the child does, it has been waited for at the end. *)
Lemma idle_sub new : Forall (fun o => idle_event o = true) new -> forall x l, In x (foldl child_event l new) -> In x l.
Proof. induction 1 as [|o new Ho _ IH]; intros x l; cbn [foldl]; [done|]. intros Hx. by eapply child_event_sub, IH. Qed.
Lemma poll_until_spec sid c n : forall k : TCap, exists new, poll_until sid c n k = ({| k with out := out k ++ new |}, Ok tt) /\ Forall (fun o => idle_event o = true) new.
Proof.
  induction n as [|n IH]; intros k; [exists []; rewrite app_nil_r; by destruct k|]. cbn [poll_until]. unfold poll, bind. cbn [history dev put modify ret].
  destruct (child_gone (out k) c) eqn:Eg; [by exists [ODev sid (TPoll c true)]; split; [|repeat constructor]|].
  destruct (IH {| k with out := out k ++ [ODev sid (TPoll c false)] |}) as (new & E1 & Hn). unfold poll in E1. cbn [out st] in E1. rewrite E1.
  exists (ODev sid (TPoll c false) :: new). rewrite <- app_assoc. split; [done | by constructor].
Qed.
Lemma reap_spec sid c (k : TCap) : exists new, reap sid c k = ({| k with out := out k ++ new |}, Ok tt)
  /\ Forall (fun o => idle_event o = true) new /\ ~ In c (children (out k ++ new)).
Proof.
  unfold reap. unfold bind at 1. cbn [dev put modify]. set (k1 := {| st := _; out := _ |}). destruct (poll_until_spec sid c POLLS k1) as (new & E1 & Hn).
  unfold bind at 1. rewrite E1. unfold bind, poll, bind. cbn [history dev put modify ret out k1].
  destruct (child_gone _ c); cbn [negb when ret dev put modify st out k1].
  - exists (ODev sid (TKill c false) :: new ++ [ODev sid (TPoll c true)]). rewrite <- !app_assoc. split_and!; [done | constructor; [done | apply Forall_app; by repeat constructor]|].
    rewrite app_comm_cons, app_assoc, children_snoc. cbn [child_event]. rewrite List.filter_In. intros [_ Hc]. by rewrite Z.eqb_refl in Hc.
  - exists ((ODev sid (TKill c false) :: new) ++ [ODev sid (TPoll c false); ODev sid (TKill c true)] ++ [ODev sid (TWait c)]). rewrite <- !app_assoc.
    split_and!; [unfold bind, dev, put, modify; cbn [st out]; by rewrite <- !app_assoc | constructor; [done | apply Forall_app; by repeat constructor]|].
    rewrite !app_assoc, children_snoc. cbn [child_event]. rewrite List.filter_In. intros [_ Hc]. by rewrite Z.eqb_refl in Hc.
Qed.
Definition drop_pty (sid : string) (t : Term) : Term := {| t with ptys := sm_erase sid (ptys t) |}.
(** A session's pty taken away, once its child is waited for. *)
Lemma good_erase sid p (k : TCap) new : sm_find sid (ptys (st k)) = Some p -> Forall (fun o => idle_event o = true) new ->
  (0 < pid p -> ~ In (pid p) (children (out k ++ new))) -> good k ->
  good {| st := drop_pty sid (st k); out := out k ++ new |}.
Proof.
  intros Hf Hn Hw Hk. assert (good {| k with out := out k ++ new |}) as Hk'.
  { clear Hw Hf. revert k Hk. induction Hn as [|o new Ho _ IH]; intros k Hk; [rewrite app_nil_r; by destruct k|].
    pose proof (IH _ (good_idle k o Ho Hk)) as G. cbn [st out] in G. by rewrite <- app_assoc in G. }
  destruct Hk' as [H1 H2 H3]. cbn [st out] in *. split; cbn [st out ptys drop_pty].
  - intros c Hc Hp. destruct (H1 c Hc Hp) as (s & x & Hs & Hx). cbn [st] in Hs. exists s, x. cbn [st ptys drop_pty]. split; [|done].
    rewrite sm_find_erase_ne; [done|]. intros ->. rewrite Hf in Hs. injection Hs as <-. subst c. by apply Hw.
  - intros s x. destruct (decide (s = sid)) as [->|]; [by rewrite sm_find_erase_eq | rewrite sm_find_erase_ne by done; apply H2].
  - intros s x. destruct (decide (s = sid)) as [->|]; [by rewrite sm_find_erase_eq | rewrite sm_find_erase_ne by done; apply H3].
Qed.
(** Closing takes the pty away, waits for its child and cannot fail but for the notification. *)
Lemma close_pty_spec sid notify (k : TCap) : good k -> exists k' r, close_pty sid notify k = (k', r)
  /\ good k' /\ ptys (st k') = sm_erase sid (ptys (st k)) /\ (notify = false -> r = Ok tt).
Proof.
  intros Hk. unfold close_pty, bind at 1. cbn [self]. destruct (sm_find sid (ptys (st k))) as [p|] eqn:Ef; [|exists k, (Ok tt); by rewrite sm_erase_absent].
  set (k0 := {| k with st := drop_pty sid (st k) |}).
  assert (exists new, when (0 <? pid p) (reap sid (pid p)) k0 = ({| k0 with out := out k ++ new |}, Ok tt)
    /\ Forall (fun o => idle_event o = true) new /\ (0 < pid p -> ~ In (pid p) (children (out k ++ new)))) as (new & E1 & Hn & Hw).
  { destruct (Z.ltb_spec 0 (pid p)); cbn [when].
    - destruct (reap_spec sid (pid p) k0) as (new & E1 & Hn & Hw). by exists new.
    - exists []. rewrite app_nil_r. split_and!; [done | constructor | lia]. }
  unfold bind at 1. cbn [update modify]. unfold bind at 1. fold (drop_pty sid (st k)). fold k0. rewrite E1. unfold k0. cbn [st out].
  pose proof (good_erase sid p k new Ef Hn Hw Hk) as G.
  assert (exists k1, when (0 <=? fd p) (dev sid (TCloseFd (fd p))) {| st := drop_pty sid (st k); out := out k ++ new |} = (k1, Ok tt) /\ good k1 /\ st k1 = drop_pty sid (st k))
    as (k1 & E2 & G1 & Es).
  { destruct (0 <=? fd p); [|by eexists]. eexists. split_and!; [done | by apply good_idle | done]. }
  unfold bind. rewrite E2. destruct notify; cbn [andb when]; [|by exists k1, (Ok tt); rewrite Es].
  destruct (sm_count sid (t_sessions (st k))); cbn [when]; [|by exists k1, (Ok tt); rewrite Es].
  eexists _, _. split; [apply surjective_pairing|]. split_and!; [by apply good_ctx | | done]. unfold ctx, bind. cbn [history]. by destruct (ctx_throws _ _ _); cbn; rewrite Es.
Qed.
Lemma close_pty_keeps sid notify : keep (close_pty sid notify).
Proof. intros k Hk. by destruct (close_pty_spec sid notify k Hk) as (k' & r & -> & G & _). Qed.
(** A shell started on a session without one. *)
Lemma good_fork sid cols rows term sh arg c m (k : TCap) : sm_find sid (ptys (st k)) = None -> good k ->
  good {| st := set_pty sid {| pid := c; fd := m; pending := []; pending_bytes := 0; drain_armed := false |} (st k);
          out := out k ++ [ODev sid (TFork cols rows term sh arg (Some (c, m)))] |}.
Proof.
  intros Hf [H1 H2 H3]. split; cbn [st out set_pty ptys]; autorewrite with hist; cbn [child_event].
  - intros x. rewrite in_app_iff. intros [Hx|[->|[]]] Hp; unfold shell_of; cbn [st set_pty ptys].
    + destruct (H1 x Hx Hp) as (s & q & Hs & Hq). exists s, q. rewrite sm_find_set_ne; [done | congruence].
    + eexists sid, _. by rewrite sm_find_set_eq.
  - intros s x. destruct (decide (s = sid)) as [->|]; [|rewrite sm_find_set_ne by done; apply H2]. rewrite sm_find_set_eq. by intros [= <-].
  - intros s x. autorewrite with hist. cbn [read_event sent_event]. destruct (String.eqb_spec sid s) as [<-|Hne].
    + rewrite sm_find_set_eq. by intros [= <-].
    + rewrite sm_find_set_ne by congruence. apply H3.
Qed.
(** Output taken in. *)
Lemma good_take_in sid q buf (k : TCap) : sm_find sid (ptys (st k)) = Some q -> pending_bytes q + zlen buf <= MAX_PENDING -> good k ->
  good {| st := set_pty sid {| q with pending := pending q ++ [buf]; pending_bytes := pending_bytes q + zlen buf |} (st k);
          out := out k ++ [ODev sid (TRead (fd q) buf)] |}.
Proof.
  intros Hf Hb [H1 H2 H3]. split; cbn [st out set_pty ptys]; autorewrite with hist; cbn [child_event].
  - intros x Hx Hp. destruct (H1 x Hx Hp) as (s & y & Hs & Hy). unfold shell_of; cbn [st set_pty ptys].
    destruct (decide (s = sid)) as [->|]; [|exists s, y; by rewrite sm_find_set_ne]. eexists sid, _. rewrite sm_find_set_eq. split; [done | cbn [pid]; congruence].
  - intros s x. destruct (decide (s = sid)) as [->|]; [|rewrite sm_find_set_ne by done; apply H2]. rewrite sm_find_set_eq. intros [= <-].
    destruct (H2 _ _ Hf) as [He _]. unfold backlog_of in *. cbn [pending pending_bytes]. rewrite concat_app, zlen_app. cbn [concat]. rewrite app_nil_r. lia.
  - intros s x. autorewrite with hist. cbn [read_event sent_event]. destruct (String.eqb_spec sid s) as [<-|Hne].
    + rewrite sm_find_set_eq. intros [= <-]. cbn [pending]. rewrite concat_app. cbn [concat]. by rewrite app_nil_r, app_assoc, (H3 _ _ Hf).
    + rewrite sm_find_set_ne by congruence. apply H3.
Qed.
(** A child found ended: waited for, and no longer the pty's. *)
Lemma good_ended sid q (k : TCap) : sm_find sid (ptys (st k)) = Some q -> good k ->
  good {| st := set_pty sid {| q with pid := -1 |} (st k); out := out k ++ [ODev sid (TPoll (pid q) true)] |}.
Proof.
  intros Hf [H1 H2 H3]. split; cbn [st out set_pty ptys]; autorewrite with hist; cbn [child_event].
  - intros x. rewrite List.filter_In. intros [Hx Hne] Hp. destruct (H1 x Hx Hp) as (s & y & Hs & <-). exists s, y. cbn [st set_pty ptys].
    rewrite sm_find_set_ne; [done|]. intros ->. rewrite Hf in Hs. injection Hs as <-. by rewrite Z.eqb_refl in Hne.
  - intros s x. destruct (decide (s = sid)) as [->|]; [|rewrite sm_find_set_ne by done; apply H2]. rewrite sm_find_set_eq. intros [= <-]. by apply (H2 sid q).
  - intros s x. autorewrite with hist. cbn [read_event sent_event]. destruct (decide (s = sid)) as [->|]; [|rewrite sm_find_set_ne by done; apply H3].
    rewrite sm_find_set_eq. intros [= <-]. by apply (H3 sid q).
Qed.

Lemma keeps_at A (m : Term -> Prog TCap A) : (forall k, good k -> good (m (st k) k).1) -> keep (do t <- self; m t).
Proof. intros H k Hk. by apply H. Qed.
Lemma good_seq {A} (m : Prog TCap unit) (x : Prog TCap A) k : good (m k).1 -> keep x -> good ((m ;; x) k).1.
Proof. intros Hm Hx. unfold bind. destruct (m k) as [k1 [[]|e]]; [by apply Hx | done]. Qed.
Ltac term_step_tac := first [ apply close_pty_keeps | apply pump_keeps | apply good_ctx; reflexivity | apply good_dev; reflexivity | apply good_update; by intros [] | cap_step ].
Lemma on_open_keeps sid msg : keep (on_open sid msg).
Proof.
  apply keeps_at. intros k Hk. unfold sm_count. destruct (sm_find sid (ptys (st k))) eqn:Ef; [by apply good_ctx|].
  destruct (negb _); [by apply good_ctx|].
  unfold bind at 1, lift. destruct (value_int _ "cols" 80) as [cols|]; [|done]. unfold bind at 1. destruct (value_int _ "rows" 24) as [rows|]; [|done].
  unfold bind at 1. destruct (value_str _ "term" _) as [term|]; [|done]. unfold bind at 1. cbn [history]. unfold bind at 1. cbn [dev put modify].
  destruct (forkpty (out k)) as [[c m]|]; [|by apply good_ctx, good_idle]. unfold bind at 1. cbn [update modify st out]. apply good_ctx; [done|]. by apply good_fork.
Qed.
Lemma on_readable_keeps sid r : keep (on_readable sid r).
Proof.
  apply keeps_at. intros k Hk. destruct (sm_find sid (ptys (st k))) as [q|] eqn:Ef; [|done]. destruct r as [buf| |how]; [|done|].
  - destruct (Z.ltb_spec MAX_PENDING (pending_bytes q + zlen buf)); [by apply close_pty_keeps|].
    unfold bind at 1. cbn [dev put modify]. unfold bind at 1. cbn [update modify st out]. apply pump_keeps. by apply good_take_in.
  - apply good_seq; [|repeat term_step_tac].
    destruct how; [|done]. destruct (0 <? pid q); [|done]. unfold when, bind. cbn [dev put modify update fst st out]. by apply good_ended.
Qed.
Lemma write_all_keeps sid f bytes : forall ws, keep (write_all sid f bytes ws).
Proof.
  intros ws. revert bytes. induction ws as [|[[|n]| |] ws IH]; intros [|b bytes]; cbn [write_all]; try (by apply respects_ret, _); [|apply IH].
  apply respects_bind; [apply _ | by apply good_dev | intros _; apply IH].
Qed.
(** Every turn keeps the invariant. *)
Lemma term_op_keeps o : keep (term_op o).
Proof.
  destruct o as [sid|sid msg|sid bytes ws|sid r|sid|sid|sid|]; cbn [term_op]; unfold session_attached, session_detached, release_all_input, shutdown.
  - by repeat term_step_tac.
  - unfold on_message, on_resize. repeat first [apply on_open_keeps | term_step_tac].
  - unfold on_binary. repeat first [apply write_all_keeps | term_step_tac].
  - apply on_readable_keeps.
  - apply keeps_at. intros k Hk. destruct (sm_find sid (ptys (st k))) as [p|] eqn:Ef; [|done]. unfold bind. cbn [update modify]. apply pump_keeps. by apply (good_same_pty sid p).
  - apply close_pty_keeps.
  - repeat term_step_tac.
  - repeat term_step_tac.
Qed.
(** Closing every pty of a list. *)
Lemma close_all (l : list (string * Pty)) : forall k : TCap, good k -> exists k', for_each l (fun kv => close_pty kv.1 false) k = (k', Ok tt) /\ good k' /\
  forall sid, sm_find sid (ptys (st k')) = if decide (sid ∈ l.*1) then None else sm_find sid (ptys (st k)).
Proof.
  induction l as [|[s p] l IH]; intros k Hk; cbn [for_each fst]; [by exists k|]. destruct (close_pty_spec s false k Hk) as (k1 & r & E1 & G1 & P1 & R1).
  unfold bind. rewrite E1, R1 by done. destruct (IH k1 G1) as (k2 & -> & G2 & P2). exists k2. split_and!; [done | done|].
  intros sid. rewrite P2, P1. change (((s, p) :: l).*1) with (s :: l.*1). destruct (decide (s = sid)) as [->|Hne].
  - rewrite sm_find_erase_eq. destruct (decide (sid ∈ sid :: l.*1)) as [|[]]; [by case_decide | by constructor].
  - rewrite sm_find_erase_ne by done. destruct (decide (sid ∈ l.*1)) as [Hi|Hi], (decide (sid ∈ s :: l.*1)) as [Hj|Hj]; try done; set_solver.
Qed.
End Steps.

Definition fresh_cap (t : Term) : TCap := {| st := t; out := [] |}.
Lemma good_fresh t : ptys t = [] -> good (fresh_cap t).
Proof. intros Ht. split; cbn [fresh_cap st out]; rewrite ?Ht; done. Qed.
Lemma run_good ts : forall k, good k -> good (term_run ts k).
Proof. induction ts as [|[E o] ts IH]; intros k Hk; cbn [term_run foldl]; [done|]. apply IH. by apply (@term_op_keeps E). Qed.

(** C5: No orphan shells. Whatever the peers, the kernel and the channel do, every child the
    terminal forked and has not waited for is the shell of a session; when input is released or the
    session is detached that session's shell has been waited for (each child still there belongs to
    another session), and after [shutdown] no child is left. *)
Theorem no_orphan_shells (t0 : Term) (ts : list (TermEnv * TOp)) : ptys t0 = [] ->
  let k := term_run ts (fresh_cap t0) in
  (forall c, In c (children (out k)) -> 0 < c -> shell_of k c)
  /\ (forall (E : TermEnv) o sid, o = TRelease sid \/ o = TDetached sid -> let k' := term_step k (E, o) in
        sm_find sid (ptys (st k')) = None /\ forall c, In c (children (out k')) -> 0 < c -> shell_of k' c)
  /\ (forall (E : TermEnv) c, In c (children (out (term_step k (E, TShutdown)))) -> c <= 0).
Proof.
  intros Ht k. pose proof (run_good ts _ (good_fresh t0 Ht)) as Hk. fold k in Hk. split_and!; [apply Hk| |].
  - intros E o sid Ho k'. split; [|apply (run_good [(E, o)]), Hk]. unfold k', term_step. destruct (close_pty_spec sid false k Hk) as (k1 & r & E1 & _ & P1 & R1).
    destruct Ho as [-> | ->]; cbn [fst snd term_op]; unfold release_all_input, session_detached, bind; rewrite E1; [|rewrite R1 by done]; cbn; by rewrite P1, sm_find_erase_eq.
  - intros E c Hc. destruct (Z.le_gt_cases c 0) as [|Hp]; [done|]. exfalso. revert Hc. unfold term_step. cbn [fst snd term_op]. unfold shutdown, bind. cbn [self].
    destruct (close_all (ptys (st k)) k Hk) as (k1 & -> & G1 & P1). cbn [update modify fst out]. intros Hc. destruct (g_children _ G1 c Hc ltac:(lia)) as (sid & p & Hf & _).
    rewrite P1 in Hf. case_decide as Hn; [done|]. apply Hn, list_elem_of_In. apply sm_find_In, (in_map fst) in Hf. done.
Qed.

(** A peer that reads slowly costs the robot at most 4 MiB per terminal, and the terminal
    neither loses nor reorders output: at any moment the bytes accepted by the channel since the
    session's shell started, followed by the pending ones, are exactly the bytes read from its pty,
    and [pending_bytes] is the length of the pending ones. *)
Theorem terminal_output_exact (t0 : Term) (ts : list (TermEnv * TOp)) sid p : ptys t0 = [] ->
  let k := term_run ts (fresh_cap t0) in sm_find sid (ptys (st k)) = Some p ->
  shell_output sid (out k) = peer_input sid (out k) ++ concat (pending p)
  /\ pending_bytes p = zlen (concat (pending p)) /\ pending_bytes p <= MAX_PENDING.
Proof.
  intros Ht k Hp. destruct (run_good ts _ (good_fresh t0 Ht)) as [_ H2 H3]. destruct (H2 _ _ Hp) as [Hb Hm]. unfold backlog_of in *.
  split_and!; [by apply H3 | done | by rewrite Hb].
Qed.

Module TerminalDemo.
#[local] Instance kernel : TermEnv := {|
  term_ctx := {| ctx_throws := fun _ _ _ => None; fresh_event := fun _ => ""; blob_name := fun _ => ""; clock := fun _ => 0 |};
  current_user := "ada"; login_shell := fun _ => "/bin/bash"; forkpty := fun h => Some (100 + zlen h, 7); fork_error := "";
  child_gone := fun h _ => 8 <? zlen h; bulk_takes := fun h => zlen h <? 5 |}.
Definition configured : Term := {| new_term with t_user := "ada"; t_enabled := true |}.
Definition ask (t : string) : Envelope := {| cap := "fjarr.terminal"; type_ := t; event_id := "1"; kind := "request"; e_payload := JObj [] |}.
(** Two operators, each with a shell; one shell's output outruns its peer; the other leaves. *)
Definition two_shells : list (TermEnv * TOp) :=
  (fun o => (kernel, o)) <$> [TAttached "a"; TMessage "a" (ask "open"); TReadable "a" (PData [x61]); TAttached "b"; TMessage "b" (ask "open"); TReadable "a" (PData [x62; x63])].
End TerminalDemo.
Import TerminalDemo.
Lemma no_orphan_shells_witness : children (out (term_run two_shells (fresh_cap configured))) = [100; 104]
  /\ children (out (term_step (term_run two_shells (fresh_cap configured)) (kernel, TRelease "b"))) = [100]
  /\ (forall c, In c (children (out (term_step (term_run two_shells (fresh_cap configured)) (kernel, TShutdown)))) -> c <= 0).
Proof. split; [by vm_compute|]. split; [by vm_compute|]. by apply (no_orphan_shells configured two_shells eq_refl). Defined.
Lemma terminal_output_exact_witness : let k := term_run two_shells (fresh_cap configured) in
  shell_output "a" (out k) = [x61; x62; x63] /\ peer_input "a" (out k) = [x61]
  /\ shell_output "a" (out k) = peer_input "a" (out k) ++ [x62; x63].
Proof.
  intros k. split; [by vm_compute|]. split; [by vm_compute|].
  destruct (terminal_output_exact configured two_shells "a" {| pid := 100; fd := 7; pending := [[x62; x63]]; pending_bytes := 2; drain_armed := true |} eq_refl) as [H _]; [by vm_compute | exact H].
Defined.
