(* ===== verification/Audio.v ===== *)
(** * Audio: the audio capability (capabilities/audio_capability.cpp)

    Microphones as tracks, and one speaker whose floor one session has at a time. The decoders of
    the sessions' uplinks run on streaming threads and take the speaker's mutex, so each block of
    samples is one turn of its own ([APcm]); between the two critical sections of talk-start the
    pipeline exists and nobody is the talker yet ([idle_floor]), so a block that comes then is not
    played either. GStreamer's answers, [log10] and the sources are the environment's; levels are
    binary64.

    Then: the speaker plays only the session that has the floor, which only a session granted
    talk takes and which ends with it. *)

From Stdlib Require Import ZArith Lia Strings.Byte String SpecFloat.
From stdpp Require Import base list strings relations.
From S2P Require Import Prelude Monad StdMap Json Floats Blob Protocol Consumer SessionState SessionOps Capability.

Definition LEVEL_PERIOD_MS : Z := 250.
Definition RATE : Z := 48000.
Definition FRAME_SAMPLES : Z := RATE / 50.
Definition QUEUE_BYTES : Z := RATE * 2 * 60 / 1000.

(** How far [build_output] gets. *)
Inductive Build := ElementsMissing | NotLinked | NotStarted | Playing.
Inductive ACall := ABuild (output device : string) (volume : dbl) (b : Build) | APlay (pcm : list Z) | AStop.
Abbreviation AOut := (Out ACall).

Record Mic := { mic_id : string; mic_label : string; mic_source : nat }.
Record ASession := { a_ctx : bool; a_listen : bool; a_talk : bool }.
(** [appsrc]: set while someone talks. *)
Record Speaker := { appsrc : bool; talker : string; sp_cap : dbl; sumsq : dbl; peak : dbl; samples : Z; played : Z }.
Record AudioState := {
  mics : list Mic; a_sessions : list (string * ASession);
  has_speaker : bool; output : string; device : string; speaker : Speaker; pipeline : bool; level_timer : option string
}.
Definition new_audio : AudioState := {|
  mics := []; a_sessions := []; has_speaker := false; output := "alsa"; device := "default";
  speaker := {| appsrc := false; talker := ""; sp_cap := lit 1 2; sumsq := of_Z 0; peak := of_Z 0; samples := 0; played := 0 |};
  pipeline := false; level_timer := None |}.
Abbreviation ACap := (Cap AudioState ACall).
Definition set_speaker (f : Speaker -> Speaker) (a : AudioState) : AudioState := {| a with speaker := f (speaker a) |}.
Definition holds_floor (a : AudioState) (sid : string) : bool := appsrc (speaker a) && String.eqb (talker (speaker a)) sid.

Class AudioEnv := {
  audio_ctx :: CtxEnv ACall;
  source_available : list AOut -> nat -> bool;
  create_source : json -> result nat;                (* [sources.create] *)
  is_audio_source : nat -> bool;
  builds : list AOut -> Build;
  operator_of : string -> OperatorInfo;
  db_tenths : dbl -> dbl                             (* [std::round(to_db(x) * 10) / 10] *)
}.

Section Handlers.
Context `{E : AudioEnv}.
Abbreviation P := (Prog ACap).

Definition mic_spec (m : Mic) : TrackSpec := {| spec_id := mic_id m; spec_label := mic_label m; spec_kind := Audio; spec_source := Some (mic_source m); spec_monitor := None |}.
Definition specs (h : list AOut) (a : AudioState) (available_only : bool) : list TrackSpec :=
  mic_spec <$> List.filter (fun m => negb available_only || source_available h (mic_source m)) (mics a).

(** A block of samples from a session's uplink, under the speaker's mutex. *)
Definition level (cap : dbl) (p : Z) : dbl := dmul (ddiv (of_Z p) (of_Z 32768)) cap.
Definition measure (pcm : list Z) (s : Speaker) : Speaker :=
  foldl (fun s p => let v := level (sp_cap s) p in {| s with sumsq := dadd (sumsq s) (dmul v v); peak := dmax (peak s) (SFabs v) |}) s pcm.
Definition push (from : string) (pcm : list Z) : P unit :=
  do a <- self;
  if negb (appsrc (speaker a)) || negb (String.eqb (talker (speaker a)) from) || (zlen pcm =? 0) then ret tt
  else
    update (set_speaker (fun s => let s' := measure pcm s in {| s' with samples := u64 (samples s' + zlen pcm); played := u64 (played s' + zlen pcm) |})) ;;
    dev from (APlay pcm).

(** Empty when the pipeline plays. *)
Definition build_output (sid : string) : P string :=
  do a <- self; do h <- history;
  dev sid (ABuild (output a) (device a) (sp_cap (speaker a)) (builds h)) ;;
  match builds h with
  | ElementsMissing => ret (if String.eqb (output a) "alsa" then "elements missing (gstreamer1.0-alsa?)" else "elements missing")%string
  | NotLinked => ret "the speaker pipeline did not link"%string
  | NotStarted => ret (if String.eqb (output a) "alsa" then "the speaker " +:+ device a +:+ " could not be opened" else "the speaker pipeline would not start")%string
  | Playing => update (set_speaker (fun s => {| s with appsrc := true |})) ;; ret ""%string
  end.
(** Closes the gate: the floor is free and nothing queued plays on. *)
Definition stop_talking (sid : string) : P unit :=
  do a <- self;
  if negb (String.eqb (talker (speaker a)) sid) || negb (appsrc (speaker a)) then ret tt
  else
    update (set_speaker (fun s => {| s with appsrc := false; talker := "" |})) ;;
    update (fun a => {| a with level_timer := None |}) ;;
    when (pipeline a) (dev sid AStop ;; update (fun a => {| a with pipeline := false |})) ;;
    match sm_find sid (a_sessions a) with
    | Some s => when (a_ctx s) (ctx sid (CSessionEvent "audio-uplink" "talk-stop"))
    | None => ret tt
    end.
(** The rest of talk-start, once nothing stands against it. *)
Definition take_floor (sid : string) (msg : Envelope) : P unit :=
  do error <- build_output sid;
  do a1 <- self;
  if appsrc (speaker a1) then
    update (fun a => {| a with pipeline := true |}) ;;
    update (set_speaker (fun s => {| s with talker := sid; sumsq := of_Z 0; peak := of_Z 0; samples := 0; played := 0 |})) ;;
    update (fun a => {| a with level_timer := Some sid |}) ;;
    ctx sid (CSessionEvent "audio-uplink" "talk-start") ;;
    ctx sid (CResult msg (jobj [("ok", JBool true)]))
  else update (fun a => {| a with pipeline := false |}) ;; ctx sid (CFail msg unavailable error JNull).
Definition talk_start (sid : string) (msg : Envelope) : P unit :=
  do a0 <- self;
  let s := match sm_find sid (a_sessions a0) with Some s => s | None => {| a_ctx := false; a_listen := false; a_talk := false |} end in
  update (fun a => {| a with a_sessions := sm_set sid s (a_sessions a) |}) ;;
  do a <- self;
  if negb (a_talk s) then ctx sid (CFail msg capability_denied "this session's grant does not allow talking (fjarr.audio talk)" JNull)
  else if negb (has_speaker a) then ctx sid (CFail msg unavailable "this robot has no speaker configured" JNull)
  else if holds_floor a sid then ctx sid (CResult msg (jobj [("ok", JBool true)]))
  else if appsrc (speaker a) then
    let who := match sm_find (talker (speaker a)) (a_sessions a) with
               | Some h => if a_ctx h then operator_of (talker (speaker a)) else {| op_id := ""; op_label := "" |}
               | None => {| op_id := ""; op_label := "" |}
               end in
    ctx sid (CFail msg busy "someone else is talking through the robot's speaker" (jobj [("holder", jobj [("id", JStr (op_id who)); ("label", JStr (op_label who))])]))
  else
    take_floor sid msg.
(** The level timer: what reached the speaker since the last one, to the talking session. *)
Definition on_level : P unit :=
  do a <- self;
  match level_timer a with
  | None => ret tt
  | Some sid =>
    let s := speaker a in
    let rms := if samples s =? 0 then of_Z 0 else SFsqrt 53 1024 (ddiv (sumsq s) (of_Z (samples s))) in
    update (set_speaker (fun s => {| s with sumsq := of_Z 0; peak := of_Z 0; samples := 0 |})) ;;
    ctx sid (CEvent "talk-level" (jobj [("rms_db", JFloat (db_tenths rms)); ("peak_db", JFloat (db_tenths (peak s))); ("frames", JUint (played s / FRAME_SAMPLES))]))
  end.

(** The configuration, checked against the capability's schema before; built aside, then swapped in. *)
Fixpoint configure_mics (l : list (string * json)) : result (list Mic) :=
  match l with
  | [] => Ok []
  | (id, m) :: l' =>
    let* label := value_str m "label" id in
    let* source := match m with
                   | JObj o => match sm_find "source" o with Some s => Ok s | None => Throw (StdException "[json.exception.out_of_range]") end
                   | _ => Throw type_error
                   end in
    let* src := match create_source source with
                | Throw (FjarrError _ e) => Throw (FjarrError "config" ("capabilities.fjarr.audio.mics." +:+ id +:+ ": " +:+ e))
                | r => r
                end in
    if is_audio_source src then let* rest := configure_mics l' in Ok ({| mic_id := id; mic_label := label; mic_source := src |} :: rest)
    else Throw (FjarrError "config" ("capabilities.fjarr.audio.mics." +:+ id +:+ ": the source is not an audio source (alsa, tone)"))
  end.
Definition configure (config : json) : P unit :=
  do m <- lift (value_json config "mics" (JObj []));
  do configured <- lift (configure_mics (match m with JObj o => o | _ => [] end));
  update (fun a => {| a with mics := configured |}) ;;
  when (contains config "speaker")
    (let sp := at_key config "speaker" in
     update (fun a => {| a with has_speaker := true |}) ;;
     do o <- lift (value_str sp "output" "alsa"); update (fun a => {| a with output := o |}) ;;
     do d <- lift (value_str sp "device" "default"); update (fun a => {| a with device := d |}) ;;
     do v <- lift (value_double sp "max_volume" (lit 1 2)); update (set_speaker (fun s => {| s with sp_cap := v |}))).
(** A microphone came or went: every listening session is offered what there is now. *)
Definition on_availability : P unit :=
  do a <- self;
  for_each (a_sessions a) (fun kv => when (a_listen kv.2) (do h <- history; ctx kv.1 (CUpdateTracks (specs h a true)))).

Definition flag (granted : json) (key : string) : result bool := if is_object granted then value_bool granted key false else Ok false.
Definition session_attached (sid : string) (granted : json) : P unit :=
  do a0 <- self;
  let s0 := match sm_find sid (a_sessions a0) with Some s => s | None => {| a_ctx := false; a_listen := false; a_talk := false |} end in
  update (fun a => {| a with a_sessions := sm_set sid {| s0 with a_ctx := true |} (a_sessions a) |}) ;;
  do l <- lift (flag granted "listen");
  update (fun a => {| a with a_sessions := sm_set sid {| s0 with a_ctx := true; a_listen := l |} (a_sessions a) |}) ;;
  do t <- lift (flag granted "talk");
  update (fun a => {| a with a_sessions := sm_set sid {| a_ctx := true; a_listen := l; a_talk := t |} (a_sessions a) |}) ;;
  do a <- self; do h <- history;
  when l (for_each (specs h a false) (fun spec => ctx sid (CAddTrack spec))) ;;
  when (t && has_speaker a) (ctx sid (CAddInbound "talk" true)).
Definition session_detached (sid : string) : P unit :=
  stop_talking sid ;; update (fun a => {| a with a_sessions := sm_erase sid (a_sessions a) |}).
Definition on_message (sid : string) (msg : Envelope) : P unit :=
  if negb (String.eqb (kind msg) "request") then ret tt
  else if String.eqb (type_ msg) "talk-start" then talk_start sid msg
  else if String.eqb (type_ msg) "talk-stop" then stop_talking sid ;; ctx sid (CResult msg (jobj [("ok", JBool true)]))
  else ctx sid (CFail msg "payload-invalid" ("fjarr.audio has no request " +:+ type_ msg) JNull).
Definition shutdown : P unit :=
  update (fun a => {| a with a_sessions := map (fun kv => (kv.1, {| (kv.2) with a_ctx := false |})) (a_sessions a) |}) ;;
  do a <- self;
  let t := talker (speaker a) in
  when (negb (String.eqb t "")) (stop_talking t) ;;
  update (fun a => {| a with a_sessions := [] |}).

Inductive AOp :=
| AAttached (sid : string) (granted : json) | AMessage (sid : string) (msg : Envelope) | APcm (sid : string) (pcm : list Z)
| ALevel | AAvailability | ADetached (sid : string) | AShutdown.
Definition audio_op (o : AOp) : P unit :=
  match o with
  | AAttached sid granted => session_attached sid granted
  | AMessage sid msg => on_message sid msg
  | APcm sid pcm => push sid pcm
  | ALevel => on_level
  | AAvailability => on_availability
  | ADetached sid => session_detached sid
  | AShutdown => shutdown
  end.
End Handlers.
Definition audio_step (k : ACap) (t : AudioEnv * AOp) : ACap := (@audio_op t.1 t.2 k).1.
Definition audio_run (ts : list (AudioEnv * AOp)) (k : ACap) : ACap := foldl audio_step k ts.

(** ** The floor, as the history tells it *)
Definition floor_event (f : option string) (o : AOut) : option string :=
  match o with ODev s (ABuild _ _ _ Playing) => Some s | ODev _ AStop => None | _ => f end.
Definition floor (h : list AOut) : option string := foldl floor_event None h.
Lemma floor_snoc h o : floor (h ++ [o]) = floor_event (floor h) o.
Proof. unfold floor. by rewrite foldl_app. Qed.
Definition is_ctx (o : AOut) : Prop := match o with OCtx _ _ => True | ODev _ _ => False end.
Lemma floor_ctx h new : Forall is_ctx new -> floor (h ++ new) = floor h.
Proof.
  unfold floor. rewrite foldl_app. generalize (foldl floor_event None h). intros f Hn. revert f.
  induction Hn as [|[|] new Ho _ IH]; intros f; [done | apply IH | done].
Qed.

(** What the floor depends on; while nobody talks there is no talker. *)
Definition view (a : AudioState) : bool * string * dbl * bool := (appsrc (speaker a), talker (speaker a), sp_cap (speaker a), pipeline a).
Record idle_floor (cap : dbl) (k : ACap) : Prop := {
  fl_floor : floor (out k) = if appsrc (speaker (st k)) then Some (talker (speaker (st k))) else None;
  fl_idle : appsrc (speaker (st k)) = false -> talker (speaker (st k)) = ""%string;
  fl_named : appsrc (speaker (st k)) = true -> talker (speaker (st k)) <> ""%string;
  fl_pipeline : pipeline (st k) = appsrc (speaker (st k));
  fl_cap : sp_cap (speaker (st k)) = cap
}.
(** Steps that leave the speaker alone and only speak to sessions. *)
Definition quiet (k k' : ACap) : Prop := (exists new, out k' = out k ++ new /\ Forall is_ctx new) /\ view (st k') = view (st k) /\ has_speaker (st k') = has_speaker (st k).
#[local] Instance quiet_preorder : PreOrder quiet.
Proof.
  split; [intros k; split; [exists []; by rewrite app_nil_r | done]|]. intros a b c ((n1 & E1 & F1) & V1 & H1) ((n2 & E2 & F2) & V2 & H2).
  split; [exists (n1 ++ n2); rewrite E2, E1, app_assoc; split; [done | by apply Forall_app] | split; congruence].
Qed.
Lemma quiet_floor cap k k' : quiet k k' -> idle_floor cap k -> idle_floor cap k'.
Proof. intros ((new & E1 & Hn) & Hv & _) [H1 H2 H3 H4 H5]. injection Hv as V1 V2 V3 V4. split; rewrite ?E1, ?floor_ctx, ?V1, ?V2, ?V3, ?V4 by done; done. Qed.

Section Floor.
Context `{E : AudioEnv}.
Lemma quiet_ctx sid c : respects quiet (ctx sid c : Prog ACap unit).
Proof.
  intros k. unfold ctx, bind. cbn [history]. destruct (ctx_throws (out k) sid c); [reflexivity|]. split; [|done]. exists [OCtx sid c]. split; [done | by repeat constructor].
Qed.
Lemma quiet_update f : (forall a, view (f a) = view a /\ has_speaker (f a) = has_speaker a) -> respects quiet (update f).
Proof. intros Hf k. split; [exists []; by rewrite app_nil_r | apply Hf]. Qed.
Lemma quiet_self : respects quiet (self : Prog ACap AudioState).
Proof. intros k. reflexivity. Qed.
Lemma quiet_history : respects quiet (history : Prog ACap (list AOut)).
Proof. intros k. reflexivity. Qed.
Ltac hush := repeat first [apply quiet_ctx | apply quiet_update; intros ?; by repeat split | apply quiet_self | apply quiet_history | respects_step].
Lemma quiet_attached sid g : respects quiet (session_attached sid g).
Proof. unfold session_attached. hush. Qed.
Lemma quiet_level : respects quiet on_level.
Proof. unfold on_level. hush. Qed.
Lemma quiet_availability : respects quiet on_availability.
Proof. unfold on_availability. hush. Qed.

(** A step followed by quiet ones. *)
Lemma bind_quiet {A B} (m : Prog ACap A) (x : A -> Prog ACap B) k k1 a : m k = (k1, Ok a) -> (forall a, respects quiet (x a)) -> quiet k1 (bind m x k).1.
Proof. intros Hm Hx. unfold bind. rewrite Hm. apply Hx. Qed.

(** Stopping frees the floor the session has, and nobody else's. *)
Definition stopped_at (sid : string) (k : ACap) : ACap :=
  {| st := {| (set_speaker (fun s => {| s with appsrc := false; talker := "" |}) (st k)) with level_timer := None; pipeline := false |}; out := out k ++ [ODev sid AStop] |}.
Lemma stop_spec cap sid k : idle_floor cap k -> quiet (if holds_floor (st k) sid then stopped_at sid k else k) (stop_talking sid k).1.
Proof.
  intros Hk. unfold stop_talking, bind at 1. cbn [self]. unfold holds_floor. destruct (appsrc (speaker (st k))) eqn:Ea; [|by rewrite orb_true_r].
  destruct (String.eqb (talker (speaker (st k))) sid); [|done]. cbn [andb negb orb]. rewrite (fl_pipeline _ _ Hk), Ea. cbn [when].
  unfold bind at 1. cbn [update modify]. unfold bind at 1. cbn [update modify]. unfold bind at 1. unfold bind at 1. cbn [dev put update modify st out].
  match goal with |- quiet ?a (?m ?b).1 => assert (respects quiet m) as Hm by hush; etrans; [|apply Hm] end. split; [exists []; by rewrite app_nil_r | done].
Qed.
Lemma stopped_floor cap sid k : idle_floor cap k -> idle_floor cap (stopped_at sid k).
Proof. intros [H1 H2 H3 H4 H5]. split; cbn; try done. by rewrite floor_snoc. Qed.
Lemma stop_keeps cap sid k : idle_floor cap k -> idle_floor cap (stop_talking sid k).1.
Proof. intros Hk. eapply quiet_floor; [by eapply stop_spec|]. destruct (holds_floor (st k) sid); [by apply stopped_floor | done]. Qed.
(** After it the session does not have the floor. *)
Lemma stop_ends cap sid k : idle_floor cap k -> floor (out (stop_talking sid k).1) <> Some sid.
Proof.
  intros Hk. pose proof (stop_spec cap sid k Hk) as ((new & -> & Hn) & _). rewrite floor_ctx by done. unfold holds_floor.
  destruct (appsrc (speaker (st k))) eqn:Ea; [destruct (String.eqb_spec (talker (speaker (st k))) sid) as [|Hne]|]; cbn [andb].
  - cbn. by rewrite floor_snoc.
  - rewrite (fl_floor _ _ Hk), Ea. congruence.
  - by rewrite (fl_floor _ _ Hk), Ea.
Qed.

(** Taking the floor: only with the grant, a speaker and nobody talking. *)
Definition may_talk (k : ACap) (sid : string) : Prop :=
  exists s, sm_find sid (a_sessions (st k)) = Some s /\ a_talk s = true /\ has_speaker (st k) = true /\ appsrc (speaker (st k)) = false.
Definition built (sid : string) (b : Build) (k : ACap) (k1 : ACap) : Prop :=
  out k1 = out k ++ [ODev sid (ABuild (output (st k)) (device (st k)) (sp_cap (speaker (st k))) b)]
  /\ view (st k1) = match b with Playing => (true, sid, sp_cap (speaker (st k)), true) | _ => (false, talker (speaker (st k)), sp_cap (speaker (st k)), false) end.
Lemma take_floor_spec sid msg k : appsrc (speaker (st k)) = false -> exists b k1, built sid b k k1 /\ quiet k1 (take_floor sid msg k).1.
Proof.
  intros Ea. unfold take_floor, bind at 1, build_output, bind at 1 2 3. cbn [self history dev put modify st out]. exists (builds (out k)).
  destruct (builds (out k)) eqn:Eb; unfold bind at 1; cbn [ret update modify self st out set_speaker speaker appsrc]; rewrite ?Ea.
  1-3: unfold bind at 1; cbn [self ret st update modify]; rewrite ?Ea; eexists; (split; [|apply quiet_ctx]); (split; [done|]); unfold view; cbn; by rewrite Ea.
  unfold bind at 1 2 3 4. cbn [update modify ret self st out set_speaker speaker appsrc].
  match goal with |- exists k1, _ /\ quiet k1 (?m ?x).1 => exists x; split; [by split|]; assert (respects quiet m) as Hm by hush; apply Hm end.
Qed.
Lemma talk_start_spec sid msg k r : talk_start sid msg k = r -> quiet k r.1 \/ may_talk k sid /\ exists b k1, built sid b k k1 /\ quiet k1 r.1.
Proof.
  unfold talk_start, bind at 1. cbn [self]. set (s := match sm_find sid (a_sessions (st k)) with Some s => s | None => _ end).
  unfold bind at 1. cbn [update modify]. set (k0 := {| st := _; out := _ |}). assert (quiet k k0) as Hq by (split; [exists []; by rewrite app_nil_r | done]).
  unfold bind at 1. cbn [self].
  assert (forall c, ctx sid c k0 = r -> quiet k r.1) as Hc by (intros c <-; etrans; [exact Hq | apply quiet_ctx]).
  destruct (a_talk s) eqn:Et; cbn [negb]; [|intros Hr; left; by eapply Hc]. destruct (has_speaker (st k0)) eqn:Eh; cbn [negb]; [|intros Hr; left; by eapply Hc].
  destruct (holds_floor (st k0) sid); [intros Hr; left; by eapply Hc|]. destruct (appsrc (speaker (st k0))) eqn:Ea; [intros Hr; left; by eapply Hc|].
  intros <-. right. split; [exists s; split_and!; try done; unfold s in *; by destruct (sm_find sid (a_sessions (st k)))|].
  destruct (take_floor_spec sid msg k0 Ea) as (b & k1 & Hb & Hk1). by exists b, k1.
Qed.

(** ** Every turn is lawful *)
Definition lawful (cap : dbl) (k : ACap) (o : AOut) : Prop :=
  match o with
  | ODev sid (APlay _) | ODev sid AStop => floor (out k) = Some sid
  | ODev sid (ABuild _ _ v _) => v = cap /\ floor (out k) = None /\ has_speaker (st k) = true /\ exists s, sm_find sid (a_sessions (st k)) = Some s /\ a_talk s = true
  | OCtx _ _ => True
  end.
Definition named_op (o : AOp) : Prop :=
  match o with AAttached sid _ | AMessage sid _ | APcm sid _ | ADetached sid => sid <> ""%string | _ => True end.
Definition good_turn (cap : dbl) (k k' : ACap) : Prop := emits (lawful cap k) k k' /\ idle_floor cap k'.
Lemma quiet_turn cap k k' : idle_floor cap k -> quiet k k' -> good_turn cap k k'.
Proof.
  intros Hk Hq. split; [|by eapply quiet_floor]. destruct Hq as ((new & E1 & Hn) & _). exists new. split; [exact E1|]. eapply Forall_impl; [exact Hn|]. by intros [].
Qed.
(** One lawful device event, then quiet steps. *)
Lemma event_turn cap k k1 k' o : out k1 = out k ++ [o] -> lawful cap k o -> idle_floor cap k1 -> quiet k1 k' -> good_turn cap k k'.
Proof.
  intros Eo Ho H1 Hq. split; [|by eapply quiet_floor]. destruct Hq as ((new & E1 & Hn) & _). exists (o :: new). rewrite E1, Eo, <- app_assoc. split; [done|].
  constructor; [done|]. eapply Forall_impl; [exact Hn|]. by intros [].
Qed.
Lemma stop_turn cap sid k : idle_floor cap k -> good_turn cap k (stop_talking sid k).1.
Proof.
  intros Hk. pose proof (stop_spec cap sid k Hk) as Hs. destruct (holds_floor (st k) sid) eqn:Eh; [|by apply quiet_turn].
  eapply (event_turn cap k (stopped_at sid k)); [reflexivity | | by apply stopped_floor | exact Hs]. cbn. rewrite (fl_floor _ _ Hk). unfold holds_floor in Eh. apply andb_prop in Eh as [-> <-%String.eqb_eq]. done.
Qed.
Lemma talk_turn cap sid msg k : sid <> ""%string -> idle_floor cap k -> good_turn cap k (talk_start sid msg k).1.
Proof.
  intros Hsid Hk. destruct (talk_start_spec sid msg k _ eq_refl) as [Hq|((s & Hf & Ht & Hsp & Ha) & b & k1 & [Eo Ev] & Hq)]; [by apply quiet_turn|].
  eapply event_turn; [exact Eo | | | exact Hq].
  - cbn. split_and!; [apply Hk | by rewrite (fl_floor _ _ Hk), Ha | done | by exists s].
  - destruct Hk as [H1 H2 H3 H4 H5]. rewrite Ha in *. destruct b; injection Ev as V1 V2 V3 V4; split; rewrite ?Eo, ?floor_snoc, ?V1, ?V2, ?V3, ?V4; cbn; try done; by apply H2.
Qed.
Lemma push_turn cap sid pcm k : idle_floor cap k -> good_turn cap k (push sid pcm k).1.
Proof.
  intros Hk. unfold push, bind at 1. cbn [self]. destruct (appsrc (speaker (st k))) eqn:Ea; cbn [negb orb]; [|by apply quiet_turn].
  destruct (String.eqb_spec (talker (speaker (st k))) sid) as [Et|]; cbn [negb orb]; [|by apply quiet_turn]. destruct (zlen pcm =? 0); [by apply quiet_turn|].
  unfold bind. cbn [update dev put modify fst st out]. match goal with |- good_turn _ _ ?x => apply (event_turn cap k x x (ODev sid (APlay pcm))) end; [reflexivity | cbn; by rewrite (fl_floor _ _ Hk), Ea, Et | | reflexivity].
  assert (forall s, view {| (st k) with speaker := measure pcm s |} = view {| (st k) with speaker := s |}) as Hm.
  { clear. induction pcm as [|p pcm IH]; intros s; [done|]. cbn [measure foldl]. etrans; [apply IH | done]. }
  specialize (Hm (speaker (st k))). unfold view in Hm. cbn in Hm. injection Hm as M1 M2 M3. destruct Hk as [H1 H2 H3 H4 H5].
  split; cbn; rewrite ?floor_snoc, ?M1, ?M2, ?M3, ?Ea in *; cbn; done.
Qed.
Lemma bind_turn cap (m x : Prog ACap unit) k : good_turn cap k (m k).1 -> respects quiet x -> good_turn cap k ((m ;; x) k).1.
Proof.
  intros [(new & En & Hn) Hi] Hx. unfold bind. destruct (m k) as [k1 [[]|e]]; cbn [fst] in *; [|split; [by exists new | done]]. pose proof (Hx k1) as Hq. split; [|by eapply quiet_floor].
  destruct Hq as ((n2 & E2 & F2) & _). exists (new ++ n2). rewrite E2, En, app_assoc. split; [done|]. apply Forall_app. split; [done|]. eapply Forall_impl; [exact F2|]. by intros [].
Qed.
Lemma shutdown_turn cap k r : shutdown k = r -> idle_floor cap k -> good_turn cap k r.1 /\ floor (out r.1) = None.
Proof.
  intros Hr Hk. revert Hr. unfold shutdown, bind at 1 2. cbn [update modify self st out]. set (k0 := {| st := _; out := _ |}).
  assert (quiet k k0) as Hq by (split; [exists []; by rewrite app_nil_r | done]). pose proof (quiet_floor cap k k0 Hq Hk) as H0.
  unfold bind. cbn [speaker]. destruct (String.eqb_spec (talker (speaker (st k))) "") as [Et|Et]; cbn [negb when ret].
  - intros <-. cbn [update modify fst]. assert (appsrc (speaker (st k)) = false) as Ea by (destruct (appsrc (speaker (st k))) eqn:Ea; [by destruct (fl_named _ _ Hk Ea) | done]).
    split; [apply quiet_turn; [done|]; etrans; [exact Hq|]; split; [exists []; by rewrite app_nil_r | done] | change (floor (out k) = None); by rewrite (fl_floor _ _ Hk), Ea].
  - pose proof (stop_turn cap (talker (speaker (st k))) k0 H0) as [(new & En & Hn) Hi]. pose proof (stop_ends cap (talker (speaker (st k))) k0 H0) as He.
    assert (emits (lawful cap k) k (stop_talking (talker (speaker (st k))) k0).1) as Hem.
    { exists new. split; [exact En|]. eapply Forall_impl; [exact Hn|]. intros [|s [? ? ? b| |]]; cbn; try done. intros (? & ? & ? & x & Hx & ?). split_and!; try done.
      change (a_sessions (st k0)) with (map (fun kv : string * ASession => (kv.1, {| (kv.2) with a_ctx := false |})) (a_sessions (st k))) in Hx.
      rewrite (sm_find_map (fun v => {| v with a_ctx := false |})) in Hx. destruct (sm_find s (a_sessions (st k))) as [y|]; [|done]. injection Hx as <-. by exists y. }
    assert (floor (out (stop_talking (talker (speaker (st k))) k0).1) = None) as Hf.
    { pose proof (stop_spec cap (talker (speaker (st k))) k0 H0) as ((n2 & -> & F2) & _). rewrite floor_ctx by done. unfold holds_floor.
      change (speaker (st k0)) with (speaker (st k)). rewrite String.eqb_refl, andb_true_r. destruct (appsrc (speaker (st k))) eqn:Ea; [cbn; by rewrite floor_snoc|].
      by destruct (Et (fl_idle _ _ Hk Ea)). }
    destruct (stop_talking _ k0) as [k1 [[]|e]]; intros <-; cbn [update modify fst] in *; [|done]. split; [split; [exact Hem|] | exact Hf]. eapply quiet_floor; [|exact Hi]. split; [exists []; by rewrite app_nil_r | done].
Qed.
Lemma audio_op_turn cap o k : named_op o -> idle_floor cap k -> good_turn cap k (audio_op o k).1.
Proof.
  intros Hn Hk. destruct o as [sid g|sid msg|sid pcm| | |sid|]; cbn [audio_op named_op] in *.
  - apply quiet_turn; [done | apply quiet_attached].
  - unfold on_message. destruct (negb _); [by apply quiet_turn|]. destruct (String.eqb (type_ msg) "talk-start"); [by apply talk_turn|].
    destruct (String.eqb (type_ msg) "talk-stop"); [|apply quiet_turn; [done | apply quiet_ctx]]. apply bind_turn; [by apply stop_turn | apply quiet_ctx].
  - by apply push_turn.
  - apply quiet_turn; [done | apply quiet_level].
  - apply quiet_turn; [done | apply quiet_availability].
  - apply bind_turn; [by apply stop_turn | hush].
  - by apply (shutdown_turn cap k _ eq_refl).
Qed.
(** What ends a session's talking. *)
Definition ends_talk (sid : string) (o : AOp) : Prop :=
  o = ADetached sid \/ o = AShutdown \/ exists msg, o = AMessage sid msg /\ kind msg = "request"%string /\ type_ msg = "talk-stop"%string.
Lemma ends_floor cap sid o k : idle_floor cap k -> ends_talk sid o -> floor (out (audio_op o k).1) <> Some sid.
Proof.
  intros Hk [->|[->|(msg & -> & Hkind & Ht)]]; cbn [audio_op].
  - unfold session_detached, bind. pose proof (stop_ends cap sid k Hk). by destruct (stop_talking sid k) as [k1 [[]|e]].
  - by rewrite (proj2 (shutdown_turn cap k _ eq_refl Hk)).
  - unfold on_message. rewrite Hkind, Ht. change (String.eqb "request" "request") with true. change (String.eqb "talk-stop" "talk-start") with false.
    change (String.eqb "talk-stop" "talk-stop") with true. cbn [negb]. unfold bind. pose proof (stop_ends cap sid k Hk) as He. destruct (stop_talking sid k) as [k1 [[]|e]]; cbn [fst] in *; [|done].
    destruct (quiet_ctx sid (CResult msg (jobj [("ok", JBool true)])) k1) as ((new & E1 & Hn) & _). cbn in *. rewrite E1, floor_ctx; done.
Qed.
End Floor.

Definition silent (a : AudioState) : Prop := appsrc (speaker a) = false /\ talker (speaker a) = ""%string /\ pipeline a = false.
Lemma run_floor a0 ts : silent a0 -> Forall (fun t => named_op t.2) ts -> idle_floor (sp_cap (speaker a0)) (audio_run ts {| st := a0; out := [] |}).
Proof.
  intros (H1 & H2 & H3) Hts. assert (idle_floor (sp_cap (speaker a0)) {| st := a0; out := [] |}) as H0 by (split; cbn; rewrite ?H1; done).
  revert H0. generalize ({| st := a0; out := [] |} : ACap). induction Hts as [|[E o] ts Ho _ IH]; intros k Hk; [done|]. apply IH. by apply (@audio_op_turn E).
Qed.
(** C30: One voice at a time, and only an invited one. In every run, whatever the sessions send and
    the uplinks decode: a block of samples reaches the speaker only from the session that has the
    floor; the floor is taken only by a session granted talk, on a robot with a speaker, while
    nobody has it, and with the configured volume cap; and once the session stops talking, is
    detached or the capability shuts down it does not have the floor any more. *)
Theorem speaker_floor_exclusive (a0 : AudioState) (ts : list (AudioEnv * AOp)) (E : AudioEnv) (o : AOp) :
  silent a0 -> Forall (fun t => named_op t.2) ts -> named_op o ->
  let k := audio_run ts {| st := a0; out := [] |} in
  (exists new, out (audio_step k (E, o)) = out k ++ new /\ Forall (lawful (sp_cap (speaker a0)) k) new)
  /\ forall sid, ends_talk sid o -> floor (out (audio_step k (E, o))) <> Some sid.
Proof.
  intros Hs Hts Ho k. pose proof (run_floor a0 ts Hs Hts) as Hk. fold k in Hk.
  split; [by apply (@audio_op_turn E _ o k Ho Hk) | intros sid Hend; by apply (@ends_floor E (sp_cap (speaker a0)) sid o k)].
Qed.

Module AudioDemo.
#[export] Instance room : AudioEnv := {|
  audio_ctx := {| ctx_throws _ _ _ := None; fresh_event _ := "e"; blob_name _ := "b"; clock _ := 0 |};
  source_available _ _ := true; create_source _ := Ok 0%nat; is_audio_source _ := true; builds _ := Playing;
  operator_of s := {| op_id := s; op_label := "" |}; db_tenths x := x |}.
Definition request (t : string) : Envelope := {| cap := "fjarr.audio"; type_ := t; event_id := "1"; kind := "request"; e_payload := JObj [] |}.
Definition equipped : AudioState := {| new_audio with has_speaker := true |}.
(** Two sessions that may talk; the first takes the floor, the second is refused. *)
Definition meeting : list (AudioEnv * AOp) :=
  (fun o => (room, o)) <$> [AAttached "a" (jobj [("talk", JBool true)]); AAttached "b" (jobj [("talk", JBool true)]);
                           AMessage "a" (request "talk-start"); AMessage "b" (request "talk-start")].
End AudioDemo.
Import AudioDemo.
Lemma speaker_floor_exclusive_witness : let k := audio_run meeting {| st := equipped; out := [] |} in
  floor (out k) = Some "a"%string /\ out (audio_step k (room, APcm "a" [16384])) = out k ++ [ODev "a" (APlay [16384])]
  /\ out (audio_step k (room, APcm "b" [16384])) = out k
  /\ (exists new, out (audio_step k (room, APcm "a" [16384])) = out k ++ new /\ Forall (lawful (sp_cap (speaker equipped)) k) new).
Proof.
  intros k. split; [vm_compute; reflexivity|]. split; [vm_compute; reflexivity|]. split; [vm_compute; reflexivity|].
  apply (speaker_floor_exclusive equipped meeting room (APcm "a" [16384])); [by repeat split | by repeat constructor | done].
Defined.
