(* ===== verification/Keymap.v ===== *)
(** * Keymap: typing text through the robot's keymap (desktop/keymap.cpp)

    libxkbcommon is a parameter: a compiled keymap is the functions the index asks of it. Bytes are
    8-bit integers, code points 32-bit ones, modifier masks bit sets.

    Then: UTF-8 round-trips; the modifier keys chosen for a mask are exactly that mask, and are
    found whenever some are; and a character is typed by a key of the lowest level that has it. *)

From Stdlib Require Import ZArith Lia String.
From stdpp Require Import base list strings sorting.
From S2P Require Import Prelude.

(** ** UTF-8 *)
(** How many bytes follow a lead byte; none for a byte that is no lead byte. *)
Definition follow (b : Z) : option nat :=
  if b <? 0x80 then Some 0%nat else if Z.shiftr b 5 =? 0x6 then Some 1%nat else if Z.shiftr b 4 =? 0xE then Some 2%nat else if Z.shiftr b 3 =? 0x1E then Some 3%nat else None.
Definition lead_bits (b : Z) (n : nat) : Z := match n with 0 => b | 1 => Z.land b 0x1F | 2 => Z.land b 0x0F | _ => Z.land b 0x07 end%nat.
(** The [n] continuation bytes at the front of [l] added to [cp]. *)
Fixpoint continuation (n : nat) (cp : Z) (l : list Z) : option Z :=
  match n, l with
  | O, _ => Some cp
  | S n', b :: l' => if Z.shiftr b 6 =? 0x2 then continuation n' (u32 (Z.lor (Z.shiftl cp 6) (Z.land b 0x3F))) l' else None
  | S _, [] => None
  end.
(** [skip] bytes belong to the code point before. *)
Fixpoint decode_from (skip : nat) (l : list Z) : list Z :=
  match l with
  | [] => []
  | b :: l' =>
    match skip with
    | S k => decode_from k l'
    | O =>
      match follow b with
      | None => 0xFFFD :: decode_from 0 l'
      | Some n => match continuation n (lead_bits b n) l' with Some cp => cp :: decode_from n l' | None => 0xFFFD :: decode_from 0 l' end
      end
    end
  end.
Definition decode_utf8 (s : list Z) : list Z := decode_from 0 s.
Definition encode_utf8 (cp : Z) : list Z :=
  if cp <? 0x80 then [u8 cp]
  else if cp <? 0x800 then [u8 (Z.lor 0xC0 (Z.shiftr cp 6)); u8 (Z.lor 0x80 (Z.land cp 0x3F))]
  else if cp <? 0x10000 then [u8 (Z.lor 0xE0 (Z.shiftr cp 12)); u8 (Z.lor 0x80 (Z.land (Z.shiftr cp 6) 0x3F)); u8 (Z.lor 0x80 (Z.land cp 0x3F))]
  else [u8 (Z.lor 0xF0 (Z.shiftr cp 18)); u8 (Z.lor 0x80 (Z.land (Z.shiftr cp 12) 0x3F)); u8 (Z.lor 0x80 (Z.land (Z.shiftr cp 6) 0x3F)); u8 (Z.lor 0x80 (Z.land cp 0x3F))].

(** ** The keymap *)
Class Xkb := {
  min_keycode : Z; max_keycode : Z; num_layouts : Z;
  num_levels : Z -> Z -> nat;                          (* of a key on a layout *)
  syms_by_level : Z -> Z -> nat -> list Z;             (* key, layout, level *)
  keysym_to_utf32 : Z -> Z;
  mods_for_level : Z -> Z -> nat -> list Z;            (* the masks that reach a level, 16 at most *)
  mod_index : string -> option Z;
  mods_of_key : Z -> Z                                 (* the modifiers depressed once the key is down *)
}.
Record KeyStroke := { key : Z; modifiers : list Z }.
Definition EVDEV_OFFSET : Z := 8.
Definition wanted : list Z := [0xffe1; 0xfe03; 0xfe11; 0xffe3; 0xffe9].      (* Shift_L, ISO_Level3_Shift, ISO_Level5_Shift, Control_L, Alt_L *)
Definition preferred : list Z := [42; 100; 29; 56].                          (* LEFTSHIFT, RIGHTALT, LEFTCTRL, LEFTALT *)
Definition evdev (kc : Z) : Z := u32 (kc - EVDEV_OFFSET).

Section Keymap.
Context `{K : Xkb}.
Definition keycodes : list Z := (fun i : nat => min_keycode + Z.of_nat i) <$> seq 0 (Z.to_nat (max_keycode - min_keycode + 1)).
Definition locks : Z :=
  foldl (fun l name => match mod_index name with Some i => Z.lor l (Z.shiftl 1 i) | None => l end) 0 ["Lock"; "Mod2"].
Definition candidates (sym : Z) : list Z :=
  let c := List.filter (fun kc => match syms_by_level kc 0 0 with s :: _ => s =? sym | [] => false end) keycodes in
  let pref kc := existsb (Z.eqb (evdev kc)) preferred in
  List.filter pref c ++ List.filter (fun kc => negb (pref kc)) c.
(** One key per modifier is enough. *)
Definition first_setting (kcs : list Z) : list (Z * Z) :=
  match List.filter (fun kc => negb (mods_of_key kc =? 0) && (Z.land (mods_of_key kc) locks =? 0)) kcs with
  | kc :: _ => [(kc, mods_of_key kc)]
  | [] => []
  end.
Definition modifier_keys : list (Z * Z) := flat_map (fun sym => first_setting (candidates sym)) wanted.
Definition is_modifier (kc : Z) : bool := existsb (fun m => m.1 =? kc) modifier_keys.

Fixpoint gather (mask : Z) (l : list (Z * Z)) (got : Z) (keys : list Z) : Z * list Z :=
  match l with
  | [] => (got, keys)
  | (kc, m) :: l' =>
    if negb (Z.land m mask =? m) || (Z.land got m =? m) then gather mask l' got keys
    else gather mask l' (Z.lor got m) (keys ++ [u16 (evdev kc)])
  end.
Definition keys_for (mask : Z) : option (list Z) :=
  let '(got, keys) := gather mask modifier_keys 0 [] in if got =? mask then Some keys else None.

(** The first mask without a lock that the modifier keys can make. *)
Fixpoint first_mask (masks : list Z) : option (list Z) :=
  match masks with
  | [] => None
  | m :: masks' => if negb (Z.land m locks =? 0) then first_mask masks' else match keys_for m with Some ks => Some ks | None => first_mask masks' end
  end.
(** A key typing [cp] at a level: the modifiers to hold. *)
Definition reach (cp layout kc : Z) (level : nat) : option (list Z) :=
  match syms_by_level kc layout level with
  | [s] => if keysym_to_utf32 s =? cp then first_mask (mods_for_level kc layout level) else None
  | _ => None
  end.
(** The loop over a key's levels, [n] of them left. *)
Fixpoint scan_levels (cp layout kc : Z) (level n : nat) (best : option (nat * KeyStroke)) : option (nat * KeyStroke) :=
  match n with
  | O => best
  | S n' =>
    if match best with Some (bl, _) => (bl <=? level)%nat | None => false end then best
    else match reach cp layout kc level with
         | Some mods => Some (level, {| key := u16 (evdev kc); modifiers := mods |})
         | None => scan_levels cp layout kc (S level) n' best
         end
  end.
Fixpoint scan_keys (cp layout : Z) (kcs : list Z) (best : option (nat * KeyStroke)) : option (nat * KeyStroke) :=
  match kcs with
  | [] => best
  | kc :: kcs' =>
    if is_modifier kc then scan_keys cp layout kcs' best
    else
      match scan_levels cp layout kc 0 (num_levels kc layout) best with
      | Some (0%nat, k) => Some (0%nat, k)
      | best' => scan_keys cp layout kcs' best'
      end
  end.
Definition lookup (cp layout : Z) : option KeyStroke :=
  let cp := if cp =? 10 then 13 else cp in
  let layout := if num_layouts <=? layout then 0 else layout in
  snd <$> scan_keys cp layout keycodes None.
End Keymap.

(** ** UTF-8 round-trips *)
#[local] Ltac Zify.zify_post_hook ::= Z.to_euclidean_division_equations.
Lemma land_mask v k : 0 <= k -> Z.land v (2 ^ k - 1) = v mod 2 ^ k.
Proof. intros. replace (2 ^ k - 1) with (Z.ones k) by (rewrite Z.ones_equiv; lia). by apply Z.land_ones. Qed.
(** A byte with a marker above [k] bits of payload. *)
Lemma marked_byte w v k : 0 <= k -> 0 <= v < 2 ^ k -> 0 <= w -> w * 2 ^ k + v < 256 ->
  u8 (Z.lor (w * 2 ^ k) v) = w * 2 ^ k + v /\ Z.shiftr (w * 2 ^ k + v) k = w /\ Z.land (w * 2 ^ k + v) (2 ^ k - 1) = v.
Proof.
  intros Hk Hv Hw Hb. rewrite Z.lor_comm, lor_disjoint by lia. rewrite land_mask, Z.shiftr_div_pow2 by lia. unfold u8.
  assert (0 <= w * 2 ^ k) by (apply Z.mul_nonneg_nonneg; lia).
  split_and!; [rewrite Z.mod_small by lia; lia | rewrite Z.div_add_l by lia; rewrite Z.div_small by lia; lia | rewrite Z.add_comm, Z_mod_plus_full; by apply Z.mod_small].
Qed.
(** The byte that carries six bits, and how it is read. *)
Lemma cont_byte v : 0 <= v < 64 -> u8 (Z.lor 0x80 v) = 0x80 + v /\ (Z.shiftr (0x80 + v) 6 =? 2) = true /\ Z.land (0x80 + v) 0x3F = v.
Proof. intros Hv. destruct (marked_byte 2 v 6) as (H1 & H2 & H3); try lia. change (2 * 2 ^ 6) with 0x80 in *. split_and!; [done | by rewrite H2 | done]. Qed.
Lemma append_six cp v : 0 <= cp < 2 ^ 26 -> 0 <= v < 64 -> u32 (Z.lor (Z.shiftl cp 6) v) = cp * 64 + v.
Proof. intros Hc Hv. rewrite Z.shiftl_mul_pow2, Z.lor_comm, lor_disjoint by lia. rewrite u32_small by lia. lia. Qed.
Lemma continuation_step n cp v l : 0 <= cp < 2 ^ 26 -> 0 <= v < 64 -> continuation (S n) cp (u8 (Z.lor 0x80 v) :: l) = continuation n (cp * 64 + v) l.
Proof. intros Hc Hv. destruct (cont_byte v Hv) as (-> & H2 & H3). cbn [continuation]. by rewrite H2, H3, append_six. Qed.
Lemma six_bits cp k : 0 <= k -> Z.land (Z.shiftr cp k) 0x3F = (cp / 2 ^ k) mod 64 /\ 0 <= (cp / 2 ^ k) mod 64 < 64.
Proof. intros Hk. rewrite Z.shiftr_div_pow2, (land_mask _ 6) by lia. split; [done | apply Z.mod_pos_bound; lia]. Qed.

(** The lead byte of two, three and four: what it announces and carries. *)
Lemma lead_two v : 0 <= v < 32 -> exists b, u8 (Z.lor 0xC0 v) = b /\ follow b = Some 1%nat /\ lead_bits b 1 = v.
Proof.
  intros Hv. destruct (marked_byte 6 v 5) as (E & S & L); try lia. eexists. split; [exact E|]. unfold follow, lead_bits. rewrite S, (proj2 (Z.ltb_ge _ _)) by lia. split; [done | exact L].
Qed.
Lemma lead_three v : 0 <= v < 16 -> exists b, u8 (Z.lor 0xE0 v) = b /\ follow b = Some 2%nat /\ lead_bits b 2 = v.
Proof.
  intros Hv. destruct (marked_byte 14 v 4) as (E & S & L); try lia. eexists. split; [exact E|]. unfold follow, lead_bits. rewrite (proj2 (Z.ltb_ge _ _)) by lia.
  rewrite (Z.shiftr_div_pow2 _ 5) by lia. replace ((14 * 2 ^ 4 + v) / 2 ^ 5) with 7 by lia. rewrite S. split; [done | exact L].
Qed.
Lemma lead_four v : 0 <= v < 8 -> exists b, u8 (Z.lor 0xF0 v) = b /\ follow b = Some 3%nat /\ lead_bits b 3 = v.
Proof.
  intros Hv. destruct (marked_byte 30 v 3) as (E & S & L); try lia. eexists. split; [exact E|]. unfold follow, lead_bits. rewrite (proj2 (Z.ltb_ge _ _)) by lia.
  rewrite (Z.shiftr_div_pow2 _ 5), (Z.shiftr_div_pow2 _ 4) by lia. replace ((30 * 2 ^ 3 + v) / 2 ^ 5) with 7 by lia.
  replace ((30 * 2 ^ 3 + v) / 2 ^ 4) with 15 by lia. rewrite S. split; [done | exact L].
Qed.
Lemma decode_encode cp l : 0 <= cp < 2 ^ 21 -> decode_from 0 (encode_utf8 cp ++ l) = cp :: decode_from 0 l.
Proof.
  intros Hc. unfold encode_utf8. destruct (six_bits cp 0) as [E0 B0]; [lia|]. rewrite Z.shiftr_0_r in E0. rewrite E0.
  destruct (six_bits cp 6) as [-> B6]; [lia|]. destruct (six_bits cp 12) as [-> B12]; [lia|]. change (2 ^ 0) with 1 in *. rewrite Z.div_1_r in *.
  destruct (Z.ltb_spec cp 0x80).
  - unfold u8. rewrite Z.mod_small by lia. cbn [decode_from app]. unfold follow. rewrite (proj2 (Z.ltb_lt _ _)) by lia. done.
  - destruct (Z.ltb_spec cp 0x800); [|destruct (Z.ltb_spec cp 0x10000)]; rewrite Z.shiftr_div_pow2 by lia.
    + destruct (lead_two (cp / 2 ^ 6)) as (b & -> & Hf & Hl); [lia|]. cbn [decode_from app]. rewrite Hf, Hl, continuation_step by lia. cbn [continuation]. f_equal. lia.
    + destruct (lead_three (cp / 2 ^ 12)) as (b & -> & Hf & Hl); [lia|]. cbn [decode_from app]. rewrite Hf, Hl, !continuation_step by lia. cbn [continuation]. f_equal. lia.
    + destruct (lead_four (cp / 2 ^ 18)) as (b & -> & Hf & Hl); [lia|]. cbn [decode_from app]. rewrite Hf, Hl, !continuation_step by lia. cbn [continuation]. f_equal. lia.
Qed.

(** Text survives UTF-8: decoding the encodings of any code points, one after the other, gives
    those code points back (up to 21 bits, which is all of Unicode and what four bytes carry). *)
Theorem utf8_roundtrip (cps : list Z) : Forall (fun cp => 0 <= cp < 2 ^ 21) cps -> decode_utf8 (concat (encode_utf8 <$> cps)) = cps.
Proof.
  unfold decode_utf8. induction 1 as [|cp cps Hc _ IH]; [done|]. change (concat (encode_utf8 <$> cp :: cps)) with (encode_utf8 cp ++ concat (encode_utf8 <$> cps)).
  by rewrite decode_encode, IH.
Qed.
Lemma utf8_roundtrip_witness : decode_utf8 (concat (encode_utf8 <$> [0x61; 0xE9; 0x20AC; 0x1F600])) = [0x61; 0xE9; 0x20AC; 0x1F600].
Proof. apply utf8_roundtrip. repeat constructor; lia. Defined.
(** An overlong form is not valid UTF-8, and is read as the character it hides; so is a surrogate. *)
Theorem overlong_accepted : decode_utf8 [0xC1; 0xA1] = [0x61] /\ decode_utf8 [0xED; 0xA0; 0x80] = [0xD800].
Proof. by vm_compute. Qed.

(** ** Modifier keys *)
Definition within (a b : Z) : Prop := Z.land a b = a.
Lemma within_refl a : within a a.
Proof. apply Z.land_diag. Qed.
Lemma within_trans a b c : within a b -> within b c -> within a c.
Proof. unfold within. intros Ha Hb. by rewrite <- Ha, <- Z.land_assoc, Hb. Qed.
Lemma within_lor a b c : within a c -> within b c -> within (Z.lor a b) c.
Proof. unfold within. intros Ha Hb. by rewrite Z.land_lor_distr_l, Ha, Hb. Qed.
Lemma within_lor_l a b : within a (Z.lor a b).
Proof. apply Z.bits_inj'. intros n _. rewrite Z.land_spec, Z.lor_spec. by destruct (Z.testbit a n). Qed.
Lemma within_lor_r a b : within b (Z.lor a b).
Proof. rewrite Z.lor_comm. apply within_lor_l. Qed.
Lemma within_antisym a b : within a b -> within b a -> a = b.
Proof. unfold within. intros Ha Hb. by rewrite <- Hb, Z.land_comm, Ha. Qed.
(** The modifiers a set of keys makes together. *)
Definition held_mods (l : list (Z * Z)) : Z := foldr (fun km g => Z.lor km.2 g) 0 l.
Lemma held_within l c : (forall km, In km l -> within km.2 c) -> within (held_mods l) c.
Proof. induction l as [|km l IH]; intros Hl; cbn; [done|]. apply within_lor; [apply Hl; by left | apply IH; intros; apply Hl; by right]. Qed.
Lemma within_held l km : In km l -> within km.2 (held_mods l).
Proof. induction l as [|x l IH]; [done|]. cbn. intros [->|Hin]; [apply within_lor_l | eapply within_trans; [by apply IH | apply within_lor_r]]. Qed.

Lemma gather_chosen mask l : forall got keys, exists chosen, (forall km, In km chosen -> In km l) /\
  gather mask l got keys = (Z.lor got (held_mods chosen), keys ++ ((fun km => u16 (evdev km.1)) <$> chosen)).
Proof.
  induction l as [|[kc m] l IH]; intros got keys; cbn [gather]; [exists []; cbn; by rewrite Z.lor_0_r, app_nil_r|]. destruct (_ || _).
  - destruct (IH got keys) as (ch & Hin & ->). exists ch. split; [|done]. intros km Hkm. right. by apply Hin.
  - destruct (IH (Z.lor got m) (keys ++ [u16 (evdev kc)])) as (ch & Hin & ->). exists ((kc, m) :: ch). split.
    + intros km [<-|Hkm]; [by left | right; by apply Hin].
    + cbn. by rewrite Z.lor_assoc, <- app_assoc.
Qed.
(** Everything that fits in the mask is gathered, and nothing else. *)
Lemma gather_all mask l : forall got keys, within got mask -> let g := (gather mask l got keys).1 in
  within g mask /\ within got g /\ forall km, In km l -> within km.2 mask -> within km.2 g.
Proof.
  induction l as [|[kc m] l IH]; intros got keys Hg; cbn [gather]; [split_and!; [done | apply within_refl | done]|].
  destruct (Z.eqb_spec (Z.land m mask) m) as [Hm|Hm]; cbn [negb orb]; [destruct (Z.eqb_spec (Z.land got m) m) as [Hgm|Hgm]|].
  - destruct (IH got keys Hg) as (H1 & H2 & H3). split_and!; [done | done|]. intros km [<-|Hin]; [|by apply H3]. intros _. cbn. eapply within_trans; [|exact H2]. unfold within. by rewrite Z.land_comm.
  - destruct (IH (Z.lor got m) (keys ++ [u16 (evdev kc)])) as (H1 & H2 & H3); [by apply within_lor|]. split_and!; [done | eapply within_trans; [apply within_lor_l | exact H2]|].
    intros km [<-|Hin]; [|by apply H3]. intros _. eapply within_trans; [apply within_lor_r | exact H2].
  - destruct (IH got keys Hg) as (H1 & H2 & H3). split_and!; [done | done|]. intros km [<-|Hin]; [done | by apply H3].
Qed.

Section Typing.
Context `{K : Xkb}.
(** The keys chosen for a mask make exactly that mask; when none are, no set of modifier keys does. *)
Lemma keys_for_exact mask : match keys_for mask with
  | Some ks => exists chosen, (forall km, In km chosen -> In km modifier_keys) /\ held_mods chosen = mask /\ ks = (fun km => u16 (evdev km.1)) <$> chosen
  | None => forall chosen, (forall km, In km chosen -> In km modifier_keys) -> held_mods chosen <> mask
  end.
Proof.
  unfold keys_for. destruct (gather_chosen mask modifier_keys 0 []) as (ch & Hin & E). pose proof (gather_all mask modifier_keys 0 [] eq_refl) as (H1 & _ & H3).
  rewrite E in *. cbn [fst] in *. rewrite Z.lor_0_l in *. destruct (Z.eqb_spec (held_mods ch) mask) as [Hm|Hm]; [by exists ch|].
  intros ch' Hin' <-. apply Hm, within_antisym; [done|]. apply held_within. intros km Hkm. apply H3; [by apply Hin' | by apply within_held].
Qed.

(** [types cp layout kc level mods]: the key, with the modifiers, types the character. *)
Definition types (cp layout kc : Z) (level : nat) (mods : list Z) : Prop :=
  is_modifier kc = false /\ (level < num_levels kc layout)%nat /\ reach cp layout kc level = Some mods.
Definition stroke (kc : Z) (mods : list Z) : KeyStroke := {| key := u16 (evdev kc); modifiers := mods |}.
(** The best key of a list: the lowest level, and the first key that has it there. *)
Definition best_of (cp layout : Z) (kcs : list Z) (r : option (nat * KeyStroke)) : Prop :=
  match r with
  | Some (level, s) => exists kc mods, In kc kcs /\ types cp layout kc level mods /\ s = stroke kc mods
      /\ forall kc' level' mods', In kc' kcs -> types cp layout kc' level' mods' -> (level < level')%nat \/ level = level' /\ kc <= kc'
  | None => forall kc' level' mods', In kc' kcs -> ~ types cp layout kc' level' mods'
  end.
Lemma scan_levels_spec cp layout kc n : forall level best, let r := scan_levels cp layout kc level n best in
  r = best /\ (forall l mods, (level <= l < level + n)%nat -> reach cp layout kc l = Some mods -> exists bl s, best = Some (bl, s) /\ (bl <= l)%nat)
  \/ exists l mods, r = Some (l, stroke kc mods) /\ (level <= l < level + n)%nat /\ reach cp layout kc l = Some mods
     /\ (forall bl s, best = Some (bl, s) -> (l < bl)%nat) /\ forall l', (level <= l' < l)%nat -> reach cp layout kc l' = None.
Proof.
  induction n as [|n IH]; intros level best; cbn [scan_levels]; [left; split; [done | intros; lia]|].
  destruct (match best with Some (bl, _) => (bl <=? level)%nat | None => false end) eqn:Eb.
  - left. split; [done|]. intros l mods Hl _. destruct best as [[bl s]|]; [|done]. apply Nat.leb_le in Eb. exists bl, s. split; [done | lia].
  - assert (forall bl s, best = Some (bl, s) -> (level < bl)%nat) as Hb by (intros bl s ->; by apply Nat.leb_gt in Eb).
    destruct (reach cp layout kc level) as [mods|] eqn:Er.
    + right. exists level, mods. split_and!; [done | lia | lia | done | done | intros; lia].
    + destruct (IH (S level) best) as [[-> H]|(l & mods & -> & Hl & Hr & Hbl & Hno)].
      * left. split; [done|]. intros l mods Hl Hr. destruct (decide (l = level)) as [->|]; [congruence|]. apply (H l mods); [lia | done].
      * right. exists l, mods. split_and!; [done | lia | lia | done | done|]. intros l' Hl'. destruct (decide (l' = level)) as [->|]; [done | apply Hno; lia].
Qed.
(** One more key. *)
Lemma best_of_snoc cp layout kcs kc best : best_of cp layout kcs best -> (forall kc', In kc' kcs -> kc' <= kc) -> is_modifier kc = false ->
  best_of cp layout (kcs ++ [kc]) (scan_levels cp layout kc 0 (num_levels kc layout) best).
Proof.
  intros Hb Hle Hmod. destruct (scan_levels_spec cp layout kc (num_levels kc layout) 0 best) as [[-> H]|(l & mods & -> & Hl & Hr & Hbl & Hno)].
  - destruct best as [[bl s]|]; cbn in *.
    + destruct Hb as (k0 & m0 & Hk & Ht & -> & Hmin). exists k0, m0. split_and!; [apply in_or_app; by left | done | done|].
      intros kc' l' m' [Hin|[<-|[]]]%in_app_or Ht'; [by eapply Hmin|]. destruct Ht' as (_ & Hl' & Hr'). destruct (H l' m') as (? & ? & [= <- <-] & Hle'); [lia | done|].
      specialize (Hle k0 Hk). lia.
    + intros kc' l' m' [Hin|[<-|[]]]%in_app_or Ht'; [by eapply Hb|]. destruct Ht' as (_ & Hl' & Hr'). destruct (H l' m') as (? & ? & ? & _); [lia | done | done].
  - cbn. exists kc, mods. split_and!; [apply in_or_app; right; by left | split_and!; [done | lia | done] | done|].
    intros kc' l' m' [Hin|[<-|[]]]%in_app_or Ht'.
    + left. destruct best as [[bl s]|]; cbn in Hb; [|by destruct (Hb kc' l' m' Hin)]. destruct Hb as (k0 & m0 & Hk & Ht & -> & Hmin).
      specialize (Hbl bl _ eq_refl). destruct (Hmin kc' l' m' Hin Ht'); lia.
    + destruct Ht' as (_ & Hl' & Hr'). destruct (decide (l' < l)%nat); [rewrite Hno in Hr' by lia; done | lia].
Qed.
Lemma best_of_skip cp layout kcs kc best : best_of cp layout kcs best -> is_modifier kc = true -> best_of cp layout (kcs ++ [kc]) best.
Proof.
  intros Hb Hm. assert (forall l m, ~ types cp layout kc l m) as Hno by (intros l m (? & _); congruence). destruct best as [[bl s]|]; cbn in *.
  - destruct Hb as (k0 & m0 & Hk & Ht & -> & Hmin). exists k0, m0. split_and!; [apply in_or_app; by left | done | done|].
    intros kc' l' m' [Hin|[<-|[]]]%in_app_or Ht'; [by eapply Hmin | by destruct (Hno l' m')].
  - intros kc' l' m' [Hin|[<-|[]]]%in_app_or Ht'; [by eapply Hb | by destruct (Hno l' m')].
Qed.
Lemma scan_keys_best cp layout kcs : forall seen best, StronglySorted Z.lt (seen ++ kcs) -> best_of cp layout seen best -> best_of cp layout (seen ++ kcs) (scan_keys cp layout kcs best).
Proof.
  induction kcs as [|kc kcs IH]; intros seen best Hs Hb; cbn [scan_keys]; [by rewrite app_nil_r|].
  replace (seen ++ kc :: kcs) with ((seen ++ [kc]) ++ kcs) in * by (by rewrite <- app_assoc).
  assert (forall kc', In kc' (seen ++ [kc]) -> kc' <= kc /\ forall x, In x kcs -> kc' < x) as Hlt.
  { intros kc' Hk. apply StronglySorted_app in Hs as (Hx & Hs1 & _). apply StronglySorted_app in Hs1 as (Hy & _ & _). split; [|intros x Hin; apply Hx; by apply list_elem_of_In].
    apply in_app_or in Hk as [Hk|[<-|[]]]; [|lia]. specialize (Hy kc' kc). rewrite !list_elem_of_In in Hy. specialize (Hy Hk ltac:(by left)). lia. }
  destruct (is_modifier kc) eqn:Em; [apply IH; [done | by apply best_of_skip]|].
  assert (best_of cp layout (seen ++ [kc]) (scan_levels cp layout kc 0 (num_levels kc layout) best)) as Hb'.
  { apply best_of_snoc; [done | | done]. intros kc' Hin. apply Hlt, in_or_app. by left. }
  destruct (scan_levels cp layout kc 0 (num_levels kc layout) best) as [[[|bl] s]|]; try by apply IH.
  destruct Hb' as (k0 & m0 & Hk & Ht & -> & Hmin). exists k0, m0. split_and!; [apply in_or_app; by left | done | done|].
  intros kc' l' m' [Hin|Hin]%in_app_or Ht'; [by eapply Hmin|]. destruct (Hlt k0 Hk) as [_ Hx]. specialize (Hx kc' Hin). lia.
Qed.
Lemma keycodes_sorted : StronglySorted Z.lt keycodes.
Proof.
  unfold keycodes. generalize (Z.to_nat (max_keycode - min_keycode + 1)), 0%nat. induction n as [|n IH]; intros i; cbn; constructor; [apply IH|].
  apply Forall_forall. intros x (j & -> & Hj%elem_of_seq)%list_elem_of_fmap. lia.
Qed.
Lemma keycodes_In kc : In kc keycodes <-> min_keycode <= kc <= max_keycode.
Proof.
  unfold keycodes. rewrite <- list_elem_of_In, list_elem_of_fmap. setoid_rewrite elem_of_seq. split; [intros (j & -> & Hj); lia|].
  intros H. exists (Z.to_nat (kc - min_keycode)). lia.
Qed.

(** [makes masks mods]: the modifier keys [mods] make exactly one of [masks], and no lock. *)
Definition makes (masks mods : list Z) : Prop := exists mask chosen, In mask masks /\ Z.land mask locks = 0
  /\ (forall km, In km chosen -> In km modifier_keys) /\ held_mods chosen = mask /\ mods = (fun km => u16 (evdev km.1)) <$> chosen.
Lemma first_mask_exact masks mods : first_mask masks = Some mods -> makes masks mods.
Proof.
  induction masks as [|m masks IH]; cbn [first_mask]; [done|]. destruct (Z.eqb_spec (Z.land m locks) 0) as [Hl|Hl]; cbn [negb].
  - pose proof (keys_for_exact m) as Hk. destruct (keys_for m) as [ks|].
    + intros [= <-]. destruct Hk as (ch & H1 & H2 & H3). exists m, ch. split_and!; try done. by left.
    + intros H. destruct (IH H) as (mask & ch & Hin & Hrest). exists mask, ch. split; [by right | done].
  - intros H. destruct (IH H) as (mask & ch & Hin & Hrest). exists mask, ch. split; [by right | done].
Qed.
Lemma types_makes cp layout kc level mods : types cp layout kc level mods -> makes (mods_for_level kc layout level) mods.
Proof.
  intros (_ & _ & Hr). unfold reach in Hr. destruct (syms_by_level kc layout level) as [|s [|]]; try done. destruct (_ =? _); [|done]. by apply first_mask_exact.
Qed.

End Typing.
