(* ===== verification/Screens.v ===== *)
(** * Screens: naming, choosing and laying out monitors (desktop/monitor_identity.cpp, ghost_primary.cpp, x11_layout.cpp)

    The pure decisions of the desktop session programs. [std::sort] is the standard library's: any
    sorted permutation for a strict weak order, a class with those two laws. [isalnum], [tolower]
    and [isdigit] are the "C" locale's. Coordinates are far below the range of [int].

    Then: a layout carried out is left alone, so the session program settles after every hot-plug;
    a ghost screen gives the primary place to a real monitor at once and for good; and the ids of a
    set of monitors are not always distinct. *)

From Stdlib Require Import ZArith Lia Ascii String.
From stdpp Require Import base list strings pretty sorting.
From S2P Require Import Prelude StdMap.

(** ** Sorting *)
Definition strict_weak {A} (lt : A -> A -> bool) : Prop :=
  (forall x, lt x x = false) /\ (forall x y z, lt x y = true -> lt y z = true -> lt x z = true)
  /\ (forall x y z, lt x y = false -> lt y z = false -> lt x z = false).
Class StdSort := {
  std_sort : forall {A}, (A -> A -> bool) -> list A -> list A;
  std_sort_perm : forall {A} (lt : A -> A -> bool) l, std_sort lt l ≡ₚ l;
  std_sort_sorted : forall {A} (lt : A -> A -> bool) l, strict_weak lt -> StronglySorted (fun x y => lt y x = false) (std_sort lt l)
}.

(** ** Names with numbers in them *)
Definition is_digit (c : ascii) : bool := (48 <=? chr c) && (chr c <=? 57).
(** [char] is signed. *)
Definition schar (c : ascii) : Z := if chr c <? 128 then chr c else chr c - 256.
(** [std::stoul] of the digits at the front, and what follows them. *)
Fixpoint digits (acc : Z) (l : list ascii) : Z * list ascii :=
  match l with c :: l' => if is_digit c then digits (acc * 10 + (chr c - 48)) l' else (acc, l) | [] => (acc, []) end.
Fixpoint natural_loop (fuel : nat) (a b : list ascii) : bool :=
  match fuel, a, b with
  | S fuel', ca :: a', cb :: b' =>
    if is_digit ca && is_digit cb then
      let '(na, ra) := digits 0 a in
      let '(nb, rb) := digits 0 b in
      if negb (na =? nb) then na <? nb else natural_loop fuel' ra rb
    else if negb (schar ca =? schar cb) then schar ca <? schar cb
    else natural_loop fuel' a' b'
  | _, _, _ => zlen a <? zlen b
  end.
(** Each turn takes a character of the first name at least. *)
Definition natural_less (a b : string) : bool := natural_loop (length (chars a)) (chars a) (chars b).

(** ** The layout *)
Record Output := {
  o_name : string; connected : bool; has_crtc : bool; o_x : Z; o_y : Z; o_width : Z; o_height : Z;
  preferred_w : Z; preferred_h : Z; o_ghost : bool; o_primary : bool
}.
Record Placement := { p_name : string; p_x : Z; p_y : Z; p_width : Z; p_height : Z }.
Record Plan := { off : list string; on : list Placement; screen_w : Z; screen_h : Z; changes : bool; new_primary : string }.
Definition shown (o : Output) : bool := connected o && (0 <? preferred_w o) && (0 <? preferred_h o).
Definition placed (x : Z) (o : Output) : bool :=
  has_crtc o && (o_x o =? x) && (o_y o =? 0) && (o_width o =? preferred_w o) && (o_height o =? preferred_h o).
(** The loop over the sorted outputs from [x] on: placements, whether one changes, the height. *)
Fixpoint place (x h : Z) (l : list Output) : list Placement * bool * Z * Z :=
  match l with
  | [] => ([], false, x, h)
  | o :: l' =>
    let '(ps, ch, w, h') := place (x + preferred_w o) (Z.max h (preferred_h o)) l' in
    ({| p_name := o_name o; p_x := x; p_y := 0; p_width := preferred_w o; p_height := preferred_h o |} :: ps, negb (placed x o) || ch, w, h')
  end.
Definition last_primary (l : list Output) : option Output := foldl (fun p o => if o_primary o then Some o else p) None l.
Definition first_real (l : list Output) : string := match List.filter (fun o => negb (o_ghost o)) l with o :: _ => o_name o | [] => "" end.
Section Layout.
Context `{S : StdSort}.
Definition plan (outputs : list Output) : Plan :=
  let gone := List.filter (fun o => negb (connected o) && has_crtc o) outputs in
  let sorted := std_sort (fun a b => natural_less (o_name a) (o_name b)) (List.filter shown outputs) in
  let '(ps, ch, w, h) := place 0 0 sorted in
  {| off := map o_name gone; on := ps; screen_w := w; screen_h := h; changes := ch || negb (bool_decide (gone = []));
     new_primary := if match last_primary sorted with Some o => o_ghost o | None => true end then first_real sorted else "" |}.
End Layout.

(** A layout pass gives each placed output a CRTC: its own unless another took it, else the first
    free one it may use; 0 is [None]. *)
Definition takes (crtc_of : string -> Z) (usable : string -> list Z) (taken : list Z) (name : string) : Z :=
  let own := crtc_of name in
  if (own =? 0) || bool_decide (own ∈ taken) then default own (head (List.filter (fun c => negb (bool_decide (c ∈ taken))) (usable name))) else own.
Fixpoint give_crtcs (crtc_of : string -> Z) (usable : string -> list Z) (taken : list Z) (ps : list Placement) : list (string * option Z) :=
  match ps with
  | [] => []
  | p :: ps' =>
    let crtc := takes crtc_of usable taken (p_name p) in
    if crtc =? 0 then (p_name p, None) :: give_crtcs crtc_of usable taken ps'
    else (p_name p, Some crtc) :: give_crtcs crtc_of usable (crtc :: taken) ps'
  end.

(** ** Ghosts *)
Record Screen := { connector : string; s_primary : bool; ghost : bool; is_virtual : bool; s_x : Z; s_y : Z }.
Definition real (s : Screen) : bool := negb (ghost s) && negb (is_virtual s).
Definition before (a b : Screen) : bool := (s_x a <? s_x b) || (s_x a =? s_x b) && (s_y a <? s_y b).
Fixpoint best_by (eligible : Screen -> bool) (better : Screen -> Screen -> bool) (best : option Screen) (l : list Screen) : option Screen :=
  match l with
  | [] => best
  | s :: l' => best_by eligible better (if eligible s && match best with None => true | Some b => better s b end then Some s else best) l'
  end.
Definition primary_to_make (l : list Screen) : option string :=
  if negb (existsb (fun s => s_primary s && ghost s) l) then None
  else if existsb (fun s => real s && s_primary s) l then None
  else connector <$> best_by real before None l.
Definition better (a b : Screen) : bool := if negb (Bool.eqb (ghost a) (ghost b)) then negb (ghost a) else before a b.
Definition sole_primary (l : list Screen) : option string :=
  if (length (List.filter s_primary l) <? 2)%nat then None else connector <$> best_by s_primary better None l.

(** ** Wire ids *)
Record MonitorKey := { vendor : string; model : string; serial : string; k_connector : string; k_virtual : bool }.
Definition is_alnum (c : ascii) : bool := is_digit c || (65 <=? chr c) && (chr c <=? 90) || (97 <=? chr c) && (chr c <=? 122).
Definition to_lower (c : ascii) : ascii := if (65 <=? chr c) && (chr c <=? 90) then ascii_of_N (Z.to_N (chr c + 32)) else c.
Definition slug_char (st : list ascii * bool) (c : ascii) : list ascii * bool :=
  let '(out, dash) := st in
  if is_alnum c then ((if dash && negb (bool_decide (out = [])) then out ++ ["-"%char] else out) ++ [to_lower c], false) else (out, true).
Definition slug_part (st : list ascii * bool) (part : string) : list ascii * bool := ((foldl slug_char st (chars part)).1, true).
Definition identity_slug (v m s : string) : string := of_chars (foldl slug_part ([], false) [v; m; s]).1.
Definition edid_slug (m : MonitorKey) : string := identity_slug (vendor m) (model m) (serial m).
Definition count_slugs (set : list MonitorKey) : list (string * Z) :=
  foldl (fun seen m => if negb (k_virtual m) && negb (String.eqb (serial m) "")
                       then sm_set (edid_slug m) (default 0 (sm_find (edid_slug m) seen) + 1) seen else seen) [] set.
Fixpoint assign_ids (seen : list (string * Z)) (virtual_n : Z) (l : list MonitorKey) : list string :=
  match l with
  | [] => []
  | m :: l' =>
    if k_virtual m then ("virtual-" +:+ pretty (virtual_n + 1)) :: assign_ids seen (virtual_n + 1) l'
    else
      let slug := if String.eqb (serial m) "" then ""%string else edid_slug m in
      (if negb (String.eqb slug "") && (default 0 (sm_find slug seen) =? 1) then slug else identity_slug "" (k_connector m) "") :: assign_ids seen virtual_n l'
  end.
Definition wire_ids (set : list MonitorKey) : list string := assign_ids (count_slugs set) 0 set.

(** Two monitors of one set can get one id: the connector a virtual machine's display has is named
    as added virtual monitors are, and an identity can spell another monitor's connector. *)
Theorem wire_ids_collide :
  wire_ids [{| vendor := ""; model := ""; serial := ""; k_connector := "Virtual-1"; k_virtual := false |};
            {| vendor := ""; model := ""; serial := ""; k_connector := "Meta-0"; k_virtual := true |}] = ["virtual-1"; "virtual-1"]
  /\ wire_ids [{| vendor := "EDP"; model := ""; serial := "1"; k_connector := "DP-2"; k_virtual := false |};
               {| vendor := ""; model := ""; serial := ""; k_connector := "eDP-1"; k_virtual := false |}] = ["edp-1"; "edp-1"].
Proof. by vm_compute. Qed.

(** ** The natural order is an order *)
(** A name as numbers and characters; a number compares with a character as a digit does. *)
Fixpoint tokens (fuel : nat) (l : list ascii) : list (Z * Z) :=
  match fuel, l with
  | S fuel', c :: l' => if is_digit c then let '(n, r) := digits 0 l in (48, n) :: tokens fuel' r else (schar c, 0) :: tokens fuel' l'
  | _, _ => []
  end.
Definition name_key (s : string) : list (Z * Z) := tokens (length (chars s)) (chars s).
Fixpoint lex_lt (x y : list (Z * Z)) : bool :=
  match x, y with
  | _, [] => false
  | [], _ => true
  | a :: x', b :: y' => if keqb a b then lex_lt x' y' else bool_decide (kcmp a b = Lt)
  end.
Lemma lex_irrefl x : lex_lt x x = false.
Proof. induction x as [|a x IH]; [done|]. cbn. by rewrite keqb_refl. Qed.
Lemma lex_trans x : forall y z, lex_lt x y = true -> lex_lt y z = true -> lex_lt x z = true.
Proof.
  induction x as [|a x IH]; intros [|b y] [|c z]; cbn; try done. destruct (keqb_spec a b) as [Hab|Hab], (keqb_spec b c) as [Hbc|Hbc]; subst.
  - rewrite ?keqb_refl. apply IH.
  - rewrite (keqb_ne b c) by done. done.
  - rewrite (keqb_ne a c) by done. done.
  - intros H1%bool_decide_eq_true H2%bool_decide_eq_true. pose proof (kcmp_lt_trans a b c H1 H2) as H. rewrite (keqb_ne a c) by (by apply klt_ne). by rewrite bool_decide_true.
Qed.
Lemma lex_total x : forall y, lex_lt x y = false -> lex_lt y x = false -> x = y.
Proof.
  induction x as [|a x IH]; intros [|b y]; cbn; try done. destruct (keqb_spec a b) as [<-|Hab]; [rewrite keqb_refl; intros H1 H2; by rewrite (IH y)|].
  rewrite (keqb_ne b a) by done. intros H1%bool_decide_eq_false H2%bool_decide_eq_false. exfalso. destruct (kcmp a b) eqn:E; [by apply kcmp_eq in E | done | by apply kcmp_gt in E].
Qed.
Lemma lex_strict_weak : strict_weak lex_lt.
Proof.
  split_and!; [apply lex_irrefl | apply lex_trans|]. intros x y z H1 H2. destruct (lex_lt x z) eqn:E; [|done]. exfalso. destruct (lex_lt y x) eqn:E1; [by rewrite (lex_trans y x z) in H2|].
  rewrite (lex_total x y H1 E1) in E. congruence.
Qed.

Lemma digits_shorter l : forall acc, (length (digits acc l).2 <= length l)%nat.
Proof. induction l as [|c l IH]; intros acc; cbn; [lia|]. destruct (is_digit c); [|done]. specialize (IH (acc * 10 + (chr c - 48))). lia. Qed.
Lemma digits_take c l acc : is_digit c = true -> (length (digits acc (c :: l)).2 <= length l)%nat.
Proof. intros Hc. cbn. rewrite Hc. apply digits_shorter. Qed.
Lemma tokens_fuel n : forall m l, (length l <= n)%nat -> (length l <= m)%nat -> tokens n l = tokens m l.
Proof.
  induction n as [|n IH]; intros [|m] [|c l] Hn Hm; cbn [length] in *; try done; [lia | lia|]. cbn [tokens]. destruct (is_digit c) eqn:Ed; [|f_equal; apply IH; lia].
  pose proof (digits_take c l 0 Ed) as Hr. destruct (digits 0 (c :: l)) as [k r]. cbn [snd] in Hr. f_equal. apply IH; lia.
Qed.
Lemma digit_char c : is_digit c = true -> schar c = chr c /\ 48 <= chr c <= 57.
Proof. unfold is_digit, schar. repeat case_bool; cbn; intros; try done; lia. Qed.
Lemma not_digit_char c : is_digit c = false -> schar c < 48 \/ 57 < schar c.
Proof. unfold is_digit, schar. pose proof (chr_range c). repeat case_bool; cbn; intros; try done; lia. Qed.
Lemma key_cmp (a b : Z * Z) : keqb a b = (a.1 =? b.1) && (a.2 =? b.2) /\ bool_decide (kcmp a b = Lt) = (a.1 <? b.1) || (a.1 =? b.1) && (a.2 <? b.2).
Proof.
  destruct a as [a1 a2], b as [b1 b2]. unfold keqb. cbn. unfold pair_cmp. cbn. destruct (Z.compare_spec a1 b1), (Z.compare_spec a2 b2); repeat case_bool; cbn; try lia; by split.
Qed.
Lemma ended_first n c b : natural_loop n [] (c :: b) = lex_lt (tokens (length (@nil ascii)) []) (tokens (length (c :: b)) (c :: b)).
Proof. transitivity true; [by destruct n|]. cbn [tokens length]. destruct (is_digit c); [by destruct (digits 0 (c :: b)) | done]. Qed.
Lemma ended_last n c a : natural_loop n (c :: a) [] = lex_lt (tokens (length (c :: a)) (c :: a)) (tokens (length (@nil ascii)) []).
Proof. transitivity false; [by destruct n|]. cbn [tokens length]. destruct (is_digit c); [by destruct (digits 0 (c :: a)) | done]. Qed.
Lemma natural_loop_lex n : forall a b, (length a <= n)%nat -> natural_loop n a b = lex_lt (tokens (length a) a) (tokens (length b) b).
Proof.
  induction n as [|n IH]; intros [|ca a] [|cb b] Ha; cbn [length] in Ha; try lia; try done.
  - apply ended_first.
  - apply ended_first.
  - apply ended_last.
  - cbn [natural_loop length]. cbn [tokens].
    assert (forall r1 r2, (length r1 <= length a)%nat -> (length r2 <= length b)%nat -> natural_loop n r1 r2 = lex_lt (tokens (length a) r1) (tokens (length b) r2)) as Hrec.
    { intros r1 r2 H1 H2. rewrite IH by lia. by rewrite (tokens_fuel (length a) (length r1) r1), (tokens_fuel (length b) (length r2) r2). }
    destruct (is_digit ca) eqn:Da, (is_digit cb) eqn:Db; cbn [andb].
    + pose proof (digits_take ca a 0 Da) as Ra. pose proof (digits_take cb b 0 Db) as Rb. destruct (digits 0 (ca :: a)) as [na ra], (digits 0 (cb :: b)) as [nb rb]. cbn [snd] in *.
      cbn [lex_lt]. destruct (key_cmp (48, na) (48, nb)) as [-> ->]. cbn. rewrite Hrec by done. by destruct (na =? nb).
    + destruct (digits 0 (ca :: a)) as [na ra]. cbn [lex_lt]. destruct (key_cmp (48, na) (schar cb, 0)) as [-> ->]. cbn [fst snd]. apply digit_char in Da as [-> Ha']. apply not_digit_char in Db.
      repeat case_bool; cbn; try lia; done.
    + destruct (digits 0 (cb :: b)) as [nb rb]. cbn [lex_lt]. destruct (key_cmp (schar ca, 0) (48, nb)) as [-> ->]. cbn [fst snd]. apply digit_char in Db as [-> Hb']. apply not_digit_char in Da.
      repeat case_bool; cbn; try lia; done.
    + cbn [lex_lt]. destruct (key_cmp (schar ca, 0) (schar cb, 0)) as [-> ->]. cbn [fst snd]. rewrite Hrec by lia. rewrite Z.ltb_irrefl, andb_true_r, andb_false_r, orb_false_r. by destruct (schar ca =? schar cb).
Qed.
(** The two-index loop is the lexicographic order of the names' numbers and characters. *)
Lemma natural_less_lex a b : natural_less a b = lex_lt (name_key a) (name_key b).
Proof. by apply natural_loop_lex. Qed.
Lemma natural_strict_weak {A} (f : A -> string) : strict_weak (fun a b => natural_less (f a) (f b)).
Proof.
  destruct lex_strict_weak as (H1 & H2 & H3). split_and!; intros *; rewrite !natural_less_lex; [apply H1 | apply H2 | apply H3].
Qed.

(** ** A layout carried out *)
Definition by_name (a b : Output) : bool := natural_less (o_name a) (o_name b).
Definition output_key (o : Output) : list (Z * Z) := name_key (o_name o).
(** What the X server does of a plan: an output placed holds a CRTC there, one switched off holds
    none, the primary is the one asked for, and nothing is plugged or unplugged meanwhile. *)
Record carried_out (p : Plan) (o o' : Output) : Prop := {
  same_monitor : o_name o' = o_name o /\ connected o' = connected o /\ preferred_w o' = preferred_w o /\ preferred_h o' = preferred_h o /\ o_ghost o' = o_ghost o;
  on_where_asked : forall pl, In pl (on p) -> p_name pl = o_name o ->
    has_crtc o' = true /\ o_x o' = p_x pl /\ o_y o' = p_y pl /\ o_width o' = p_width pl /\ o_height o' = p_height pl;
  off_if_asked : In (o_name o) (off p) -> has_crtc o' = false;
  off_left_off : has_crtc o = false -> ~ In (o_name o) (map p_name (on p)) -> has_crtc o' = false;
  primary_if_asked : o_primary o' = if String.eqb (new_primary p) "" then o_primary o else String.eqb (o_name o) (new_primary p)
}.

Lemma by_name_key a b : by_name a b = false -> by_name b a = false -> output_key a = output_key b.
Proof. unfold by_name. rewrite !natural_less_lex. intros H1 H2. by apply lex_total. Qed.
Lemma nodup_map_inj {A B} (f : A -> B) l x y : NoDup (map f l) -> In x l -> In y l -> f x = f y -> x = y.
Proof.
  induction l as [|a l IH]; cbn; [done|]. intros [Ha Hl]%NoDup_cons Hx Hy E. rewrite list_elem_of_In in Ha.
  destruct Hx as [->|Hx], Hy as [->|Hy]; [done | | | by apply IH]; contradict Ha; [rewrite E | rewrite <- E]; by apply in_map.
Qed.
Lemma sorted_unique l1 l2 :
  NoDup (map output_key l1) -> StronglySorted (fun x y => by_name y x = false) l1 -> StronglySorted (fun x y => by_name y x = false) l2 -> l1 ≡ₚ l2 -> l1 = l2.
Proof.
  intros Hnd H1 H2 Hp. apply (StronglySorted_unique_strong (fun x y => by_name y x = false)); try done.
  intros x y Hx Hy Hxy Hyx. rewrite <- Hp in Hy. apply (nodup_map_inj output_key l1); [done | by apply list_elem_of_In.. | by apply by_name_key].
Qed.
Lemma nodup_filter_key (f : Output -> bool) os : NoDup (map output_key os) -> NoDup (map output_key (List.filter f os)).
Proof.
  induction os as [|o os IH]; cbn; [done|]. intros [Ho Hos]%NoDup_cons. destruct (f o); cbn; [|by apply IH]. constructor; [|by apply IH].
  contradict Ho. apply list_elem_of_In, in_map_iff in Ho as (o2 & E & [Hin _]%filter_In). apply list_elem_of_In, in_map_iff. eauto.
Qed.
Lemma forall2_filter {A B} (R : A -> B -> Prop) (f : A -> bool) (g : B -> bool) l l' :
  Forall2 R l l' -> (forall x y, R x y -> f x = g y) -> Forall2 R (List.filter f l) (List.filter g l').
Proof. intros H Hfg. induction H as [|x y l l' Hxy H IH]; cbn; [done|]. rewrite (Hfg x y Hxy). destruct (g y); [by constructor | done]. Qed.
Lemma sorted_related R l l' :
  (forall x y, R x y -> o_name y = o_name x) -> Forall2 R l l' -> StronglySorted (fun x y => by_name y x = false) l -> StronglySorted (fun x y => by_name y x = false) l'.
Proof.
  intros Hn H. induction H as [|x y l l' Hxy H IH]; [done|]. intros [Hs Hf]%StronglySorted_inv. constructor; [by apply IH|].
  clear IH Hs. induction H as [|x2 y2 l l' Hxy2 H IH]; [done|]. apply Forall_cons in Hf as [Hf1 Hf2]. constructor; [|by apply IH].
  unfold by_name in *. by rewrite (Hn x y Hxy), (Hn x2 y2 Hxy2).
Qed.

Lemma same_keys p l l' : Forall2 (carried_out p) l l' -> map output_key l' = map output_key l.
Proof. induction 1 as [|x y l l' Hxy H IH]; [done|]. cbn. rewrite IH. f_equal. unfold output_key. by rewrite (proj1 (same_monitor _ _ _ Hxy)). Qed.
(** Every placement asked for is what the output then has. *)
Lemma place_settled p l l' :
  Forall2 (carried_out p) l l' -> forall x h, incl (place x h l).1.1.1 (on p) ->
  place x h l' = ((place x h l).1.1.1, false, (place x h l).1.2, (place x h l).2).
Proof.
  induction 1 as [|o o' l l' Ho H IH]; intros x h Hincl; [done|]. cbn [place] in *.
  specialize (IH (x + preferred_w o) (Z.max h (preferred_h o))). destruct (same_monitor _ _ _ Ho) as (Hn & _ & -> & -> & _).
  destruct (place (x + preferred_w o) (Z.max h (preferred_h o)) l) as [[[ps ch] w] h']. cbn in *. apply incl_cons_inv in Hincl as [Hpl Hincl].
  rewrite (IH Hincl), Hn. destruct (on_where_asked _ _ _ Ho _ Hpl eq_refl) as (E1 & E2 & E3 & E4 & E5). cbn in *.
  unfold placed. destruct (same_monitor _ _ _ Ho) as (_ & _ & -> & -> & _). by rewrite E1, E2, E3, E4, E5, !Z.eqb_refl.
Qed.
Lemma place_names l : forall x h, map p_name (place x h l).1.1.1 = map o_name l.
Proof.
  induction l as [|o l IH]; intros x h; [done|]. cbn. specialize (IH (x + preferred_w o) (Z.max h (preferred_h o))).
  destruct (place _ _ l) as [[[ps ch] w] h']. cbn in *. by rewrite IH.
Qed.
Lemma last_primary_from l : forall p, foldl (fun p o => if o_primary o then Some o else p) p l = match last_primary l with Some o => Some o | None => p end.
Proof.
  unfold last_primary. induction l as [|o l IH]; intros p; [done|]. cbn. rewrite (IH (if o_primary o then Some o else p)), (IH (if o_primary o then Some o else None)).
  destruct (foldl _ None l), (o_primary o); done.
Qed.
Lemma last_primary_cons o l : last_primary (o :: l) = match last_primary l with Some o' => Some o' | None => if o_primary o then Some o else None end.
Proof. unfold last_primary at 1. cbn. apply last_primary_from. Qed.
Lemma last_primary_none l : last_primary l = None -> forall o, In o l -> o_primary o = false.
Proof.
  induction l as [|a l IH]; [done|]. rewrite last_primary_cons. destruct (last_primary l); [done|]. destruct (o_primary a) eqn:E; [done|]. intros _ o [<-|Ho]; [done | by apply IH].
Qed.
Lemma last_primary_some l o : last_primary l = Some o -> In o l /\ o_primary o = true.
Proof.
  induction l as [|a l IH]; [done|]. rewrite last_primary_cons. destruct (last_primary l).
  - intros [= ->]. destruct (IH eq_refl) as [H1 H2]. split; [by right | done].
  - destruct (o_primary a) eqn:E; [|done]. intros [= <-]. split; [by left | done].
Qed.
Lemma first_real_in l : first_real l <> "" -> exists o, In o l /\ o_ghost o = false /\ o_name o = first_real l.
Proof.
  unfold first_real. destruct (List.filter _ l) as [|o l'] eqn:E; [done|]. intros _.
  assert (In o (List.filter (fun o => negb (o_ghost o)) l)) as [H1 H2]%filter_In by (rewrite E; by left). exists o. split_and!; [done | by apply negb_true_iff | done].
Qed.
Lemma first_real_same p l l' : Forall2 (carried_out p) l l' -> first_real l' = first_real l.
Proof.
  unfold first_real. induction 1 as [|o o' l l' Ho H IH]; [done|]. cbn. destruct (same_monitor _ _ _ Ho) as (Hn & _ & _ & _ & ->). by destruct (o_ghost o).
Qed.
Definition ghost_leads (l : list Output) : bool := match last_primary l with Some o => o_ghost o | None => true end.
Lemma last_primary_same p l l' : new_primary p = "" -> Forall2 (carried_out p) l l' -> option_Forall2 (carried_out p) (last_primary l) (last_primary l').
Proof.
  intros Hp. induction 1 as [|o o' l l' Ho H IH]; [constructor|]. rewrite !last_primary_cons, (primary_if_asked _ _ _ Ho), Hp. cbn.
  destruct IH; [by constructor|]. destruct (o_primary o); by constructor.
Qed.
Lemma ghost_leads_same p l l' : new_primary p = "" -> Forall2 (carried_out p) l l' -> ghost_leads l' = ghost_leads l.
Proof. intros Hp H. unfold ghost_leads. destruct (last_primary_same p l l' Hp H) as [x y Hxy|]; [apply (same_monitor _ _ _ Hxy) | done]. Qed.
Lemma forall2_in_l {A B} (R : A -> B -> Prop) l l' x : Forall2 R l l' -> In x l -> exists y, In y l' /\ R x y.
Proof. induction 1 as [|a b l l' Hab H IH]; [done|]. intros [<-|Hx]; [exists b; by split; [left|] | destruct (IH Hx) as (y & ? & ?); exists y; by split; [right|]]. Qed.
Lemma forall2_in_r {A B} (R : A -> B -> Prop) l l' y : Forall2 R l l' -> In y l' -> exists x, In x l /\ R x y.
Proof. induction 1 as [|a b l l' Hab H IH]; [done|]. intros [<-|Hx]; [exists a; by split; [left|] | destruct (IH Hx) as (x & ? & ?); exists x; by split; [right|]]. Qed.
(** The output made primary is a real one, and the only one. *)
Lemma real_leads p l l' :
  NoDup (map output_key l) -> Forall2 (carried_out p) l l' -> new_primary p = first_real l -> new_primary p <> "" -> ghost_leads l' = false.
Proof.
  intros Hnd H Hp Hne. rewrite Hp in Hne. destruct (first_real_in l Hne) as (o & Ho & Hg & Hn).
  unfold ghost_leads. destruct (forall2_in_l _ _ _ o H Ho) as (o' & Ho' & Hoo').
  assert (forall x y, carried_out p x y -> o_primary y = String.eqb (o_name x) (first_real l)) as Hpr.
  { intros x y Hxy. rewrite (primary_if_asked _ _ _ Hxy), Hp. destruct (String.eqb_spec (first_real l) ""); done. }
  destruct (last_primary l') as [y|] eqn:E.
  - apply last_primary_some in E as [Hy Hpy]. destruct (forall2_in_r _ _ _ y H Hy) as (x & Hx & Hxy). rewrite (Hpr x y Hxy) in Hpy. apply String.eqb_eq in Hpy.
    rewrite (nodup_map_inj output_key l x o Hnd Hx Ho) in Hxy by (unfold output_key; congruence).
    by destruct (same_monitor _ _ _ Hxy) as (_ & _ & _ & _ & ->).
  - pose proof (last_primary_none l' E o' Ho') as Hf. by rewrite (Hpr o o' Hoo'), Hn, String.eqb_refl in Hf.
Qed.

Section Settling.
Context `{SS : StdSort}.
Definition in_order (os : list Output) : list Output := std_sort by_name (List.filter shown os).
Lemma in_order_sorted os : StronglySorted (fun x y => by_name y x = false) (in_order os).
Proof. apply std_sort_sorted, natural_strict_weak. Qed.
Lemma in_order_in os o : In o (in_order os) <-> In o os /\ shown o = true.
Proof. unfold in_order. rewrite <- !list_elem_of_In, std_sort_perm, list_elem_of_In, filter_In, list_elem_of_In. done. Qed.
Lemma nodup_in_order os : NoDup (map output_key os) -> NoDup (map output_key (in_order os)).
Proof. intros Hnd. unfold in_order. rewrite (std_sort_perm by_name (List.filter shown os)). by apply nodup_filter_key. Qed.
Lemma same_order p os os' :
  Forall2 (carried_out p) os os' -> NoDup (map output_key os) -> Forall2 (carried_out p) (in_order os) (in_order os').
Proof.
  intros H Hnd.
  assert (Forall2 (carried_out p) (List.filter shown os) (List.filter shown os')) as Hf.
  { apply (forall2_filter _ _ _ _ _ H). intros x y Hxy. unfold shown. by destruct (same_monitor _ _ _ Hxy) as (_ & -> & -> & -> & _). }
  destruct (Permutation_Forall2 (symmetry (std_sort_perm by_name (List.filter shown os))) Hf) as (l & Hl & HR).
  assert (in_order os' = l) as ->; [|done].
  assert (StronglySorted (fun x y => by_name y x = false) l) as Hs.
  { apply (sorted_related (carried_out p) (in_order os)); [intros x y Hxy; apply (same_monitor _ _ _ Hxy) | done | apply in_order_sorted]. }
  symmetry. apply sorted_unique; [| done | apply in_order_sorted | rewrite <- Hl; symmetry; apply std_sort_perm].
  assert (map output_key l = map output_key (in_order os)) as ->.
  { by apply (same_keys p). }
  by apply nodup_in_order.
Qed.
Lemma plan_on os : on (plan os) = (place 0 0 (in_order os)).1.1.1.
Proof. unfold plan. change (std_sort _ _) with (in_order os). by destruct (place 0 0 (in_order os)) as [[[? ?] ?] ?]. Qed.
Lemma plan_primary os : new_primary (plan os) = if ghost_leads (in_order os) then first_real (in_order os) else "".
Proof. unfold plan. change (std_sort _ _) with (in_order os). by destruct (place 0 0 (in_order os)) as [[[? ?] ?] ?]. Qed.
Lemma plan_off os : off (plan os) = map o_name (List.filter (fun o => negb (connected o) && has_crtc o) os).
Proof. unfold plan. by destruct (place 0 0 _) as [[[? ?] ?] ?]. Qed.
Lemma nothing_left_on os os' :
  NoDup (map output_key os) -> Forall2 (carried_out (plan os)) os os' -> List.filter (fun o => negb (connected o) && has_crtc o) os' = [].
Proof.
  intros Hnd H. destruct (List.filter _ os') as [|y l] eqn:E; [done|]. exfalso.
  assert (In y (List.filter (fun o => negb (connected o) && has_crtc o) os')) as [Hy [Hc Hcr]%andb_true_iff]%filter_In by (rewrite E; by left).
  destruct (forall2_in_r _ _ _ y H Hy) as (x & Hx & Hxy). destruct (same_monitor _ _ _ Hxy) as (_ & Hcx & _). rewrite Hcx in Hc.
  destruct (has_crtc x) eqn:Ex.
  - rewrite (off_if_asked _ _ _ Hxy) in Hcr; [done|]. rewrite plan_off. apply in_map, filter_In. by rewrite Ex, Hc.
  - rewrite (off_left_off _ _ _ Hxy Ex) in Hcr; [done|]. rewrite plan_on, place_names. intros (z & Hz & [Hzo Hsh]%in_order_in)%in_map_iff.
    rewrite (nodup_map_inj output_key os z x Hnd Hzo Hx) in Hsh by (unfold output_key; by rewrite Hz). unfold shown in Hsh. by destruct (connected x).
Qed.

(** C38: The X11 layout settles. Once the server has carried a plan out, the next pass over the same
    monitors asks for exactly the same placements and says that nothing changes: no output is
    switched off, none moves, no other output is made primary. So the events a layout causes never
    cause another layout. *)
Theorem layout_settles os os' :
  NoDup (map output_key os) -> Forall2 (carried_out (plan os)) os os' ->
  plan os' = {| off := []; on := on (plan os); screen_w := screen_w (plan os); screen_h := screen_h (plan os); changes := false; new_primary := "" |}.
Proof.
  intros Hnd H. pose proof (same_order _ _ _ H Hnd) as Ho. pose proof (nothing_left_on os os' Hnd H) as Hoff.
  pose proof (place_settled _ _ _ Ho 0 0) as Hp. rewrite plan_on in Hp. specialize (Hp (incl_refl _)).
  assert (new_primary (plan os') = "") as Hpr.
  { rewrite plan_primary, (first_real_same _ _ _ Ho). destruct (String.eqb_spec (new_primary (plan os)) "") as [E|E].
    - rewrite (ghost_leads_same _ _ _ E Ho), <- plan_primary. done.
    - rewrite (real_leads _ _ _ (nodup_in_order os Hnd) Ho); [done | | done]. rewrite plan_primary in E |- *. by destruct (ghost_leads (in_order os)). }
  rewrite plan_primary in Hpr. unfold plan. change (std_sort _ (List.filter shown os')) with (in_order os'). change (std_sort _ (List.filter shown os)) with (in_order os).
  rewrite Hoff, Hp. fold (ghost_leads (in_order os')). rewrite Hpr. by destruct (place 0 0 (in_order os)) as [[[? ?] ?] ?].
Qed.
End Settling.

(** A sort that keeps the class's promise. *)
Definition not_after {A} (lt : A -> A -> bool) (x y : A) : Prop := lt y x = false.
#[global] Instance not_after_dec {A} (lt : A -> A -> bool) x y : Decision (not_after lt x y) := decide (lt y x = false).
#[global] Program Instance merge_std_sort : StdSort := {| std_sort := fun A lt l => merge_sort (not_after lt) l |}.
Next Obligation. intros. apply merge_sort_Permutation. Qed.
Next Obligation.
  intros A lt l (Hi & Ht & Hw). unshelve eapply (StronglySorted_merge_sort (not_after lt)).
  - intros x y z H1 H2. by apply (Hw z y x).
  - intros x y. unfold not_after. destruct (lt y x) eqn:E; [|by left]. right. destruct (lt x y) eqn:E2; [|done]. rewrite <- (Hi x). symmetry. by apply (Ht x y x).
Qed.
Definition monitor (n : string) (x : Z) (g p : bool) : Output :=
  {| o_name := n; connected := true; has_crtc := true; o_x := x; o_y := 0; o_width := 1920; o_height := 1080;
     preferred_w := 1920; preferred_h := 1080; o_ghost := g; o_primary := p |}.
(** DisplayPort-10 was plugged in where it covers DisplayPort-4, which a ghost outranked. *)
Definition plugged : list Output := [monitor "DisplayPort-10" 0 false false; monitor "DisplayPort-4" 0 false false; monitor "HDMI-1" 1920 true true].
Definition laid_out : list Output := [monitor "DisplayPort-10" 1920 false false; monitor "DisplayPort-4" 0 false true; monitor "HDMI-1" 3840 true false].
Lemma layout_settles_witness : changes (plan plugged) = true /\ new_primary (plan plugged) = "DisplayPort-4" /\ changes (plan laid_out) = false.
Proof.
  split_and!; [by vm_compute.. |]. rewrite (layout_settles plugged laid_out); [done | |].
  - apply (bool_decide_unpack _). by vm_compute.
  - repeat constructor; try (by vm_compute);
      lazymatch goal with H : In ?pl _, H' : p_name ?pl = _ |- _ => vm_compute in H; decompose [or] H; subst; try done; vm_compute in H' |- *; congruence | _ => vm_compute; intuition congruence end.
Defined.

(** With more monitors than CRTCs the pass never settles: an output left off asks for a change every
    time, and the output whose CRTC an earlier one took takes it back in the same pass. *)
Lemma place_unplaced l o : In o l -> has_crtc o = false -> forall x h, (place x h l).1.1.2 = true.
Proof.
  induction l as [|a l IH]; [done|]. intros Ho Hc x h. cbn. destruct Ho as [->|Ho].
  - destruct (place _ _ l) as [[[? ?] ?] ?]. unfold placed. by rewrite Hc.
  - specialize (IH Ho Hc (x + preferred_w a) (Z.max h (preferred_h a))). destruct (place _ _ l) as [[[? ?] ?] ?]. cbn in *. subst. by rewrite orb_true_r.
Qed.
Theorem left_off_never_settles `{StdSort} os o : In o os -> shown o = true -> has_crtc o = false -> changes (plan os) = true.
Proof.
  intros Ho Hs Hc. assert (In o (in_order os)) as Hin by by apply in_order_in. pose proof (place_unplaced _ _ Hin Hc 0 0) as H1.
  unfold plan. change (std_sort _ (List.filter shown os)) with (in_order os). destruct (place 0 0 (in_order os)) as [[[? ?] ?] ?]. cbn in *. by subst.
Qed.
Theorem crtc_given_twice :
  give_crtcs (fun n => if String.eqb n "HDMI-1" then 1 else 0) (fun _ => [1]) []
    (on (plan [monitor "DP-1" 0 false false; monitor "HDMI-1" 0 false false])) = [("DP-1", Some 1); ("HDMI-1", Some 1)].
Proof. by vm_compute. Qed.

(** ** A ghost gives way *)
Lemma before_trans a b c : before b a = false -> before c b = false -> before c a = false.
Proof. unfold before. repeat case_bool; cbn; intros; try done; lia. Qed.
Lemma before_irrefl a : before a a = false.
Proof. unfold before. repeat case_bool; cbn; try done; lia. Qed.
Lemma before_asym a b : before a b = true -> before b a = false.
Proof. unfold before. repeat case_bool; cbn; intros; try done; lia. Qed.
Lemma best_from el l : forall b, el b = true ->
  exists r, best_by el before (Some b) l = Some r /\ (In r (b :: l)) /\ el r = true /\ forall s, In s (b :: l) -> el s = true -> before s r = false.
Proof.
  induction l as [|s l IH]; intros b Hb; cbn [best_by].
  - exists b. split_and!; [done | by left | done|]. intros s [<-|[]] _. apply before_irrefl.
  - destruct (el s && before s b) eqn:E.
    + apply andb_true_iff in E as [Es Eb]. destruct (IH s Es) as (r & H1 & H2 & H3 & H4). exists r. split_and!; [done | by right | done|].
      intros s' [<-|Hs'] He; [|by apply H4]. apply (before_trans r s b); [by apply H4; [left|] | by apply before_asym].
    + destruct (IH b Hb) as (r & H1 & H2 & H3 & H4). exists r. split_and!; [done | destruct H2 as [->|?]; [by left | by right; right] | done|].
      intros s' [<-|[<-|Hs']] He; [by apply H4; [left|] | | by apply H4; [right|]]. rewrite He in E. apply (before_trans r b s); [by apply H4; [left|] | done].
Qed.
Lemma best_none el l : match best_by el before None l with
  | None => forall s, In s l -> el s = false
  | Some r => In r l /\ el r = true /\ forall s, In s l -> el s = true -> before s r = false
  end.
Proof.
  induction l as [|s l IH]; cbn [best_by]; [done|]. destruct (el s) eqn:Es; cbn [andb].
  - destruct (best_from el l s Es) as (r & -> & H). done.
  - destruct (best_by el before None l) as [r|]; [destruct IH as (H1 & H2 & H3); split_and!; [by right | done|]|]; intros s' [<-|Hs']; try congruence; auto.
Qed.
(** The monitor made primary is real, and no real one is before it. *)
Lemma primary_chosen l c : primary_to_make l = Some c ->
  exists s, In s l /\ connector s = c /\ real s = true /\ forall s', In s' l -> real s' = true -> before s' s = false.
Proof.
  unfold primary_to_make. destruct (existsb _ l); [cbn | done]. destruct (existsb _ l); [done|]. pose proof (best_none real l) as H.
  destruct (best_by real before None l) as [s|]; [|done]. intros [= <-]. by exists s; destruct H as (H1 & H2 & H3).
Qed.
(** What making an output primary does: that one is, no other. *)
Definition make_primary (c : string) (l : list Screen) : list Screen := map (fun s => {| s with s_primary := String.eqb (connector s) c |}) l.
(** When a ghost screen leads, the leftmost real monitor is made primary in its place, and the
    change is asked for once: of the screens as they are then, none is to be made primary. *)
Theorem ghost_gives_way l c :
  primary_to_make l = Some c ->
  existsb (fun s => real s && s_primary s) (make_primary c l) = true /\ primary_to_make (make_primary c l) = None.
Proof.
  intros Hc. destruct (primary_chosen l c Hc) as (s & H1 & H2 & H3 & _).
  assert (existsb (fun s => real s && s_primary s) (make_primary c l) = true) as Hr.
  { apply existsb_exists. eexists. split; [by apply in_map|]. unfold real in *. cbn. by rewrite H3, H2, String.eqb_refl. }
  split; [done|]. unfold primary_to_make. rewrite Hr. by destruct (negb _).
Qed.
Definition screen (n : string) (x : Z) (g p : bool) : Screen := {| connector := n; s_primary := p; ghost := g; is_virtual := false; s_x := x; s_y := 0 |}.
Lemma ghost_gives_way_witness :
  primary_to_make (make_primary "DP-2" [screen "HDMI-1" 0 true true; screen "DP-1" 3840 false false; screen "DP-2" 1920 false false]) = None.
Proof. by eapply ghost_gives_way; vm_compute. Defined.
