(* ===== verification/DesktopTables.v ===== *)
(** * DesktopTables: key codes and clipboard types (desktop/keycodes.cpp, clipboard_types.cpp)

    The physical keys the client names and the evdev codes they send, with the KEY_ constants of
    the kernel's input-event-codes.h written out; and the clipboard's types, Fjarr's names
    against the names applications use. *)

From Stdlib Require Import ZArith Lia String.
From stdpp Require Import base list strings.
From S2P Require Import Prelude StdMap.
Open Scope Z_scope.

(** ** Keys *)
Definition evdev_table : list (string * Z) := [
  ("Escape", 1); ("Digit1", 2); ("Digit2", 3); ("Digit3", 4); ("Digit4", 5); ("Digit5", 6); ("Digit6", 7); ("Digit7", 8); ("Digit8", 9);
  ("Digit9", 10); ("Digit0", 11); ("Minus", 12); ("Equal", 13); ("Backspace", 14); ("Tab", 15); ("KeyQ", 16); ("KeyW", 17); ("KeyE", 18);
  ("KeyR", 19); ("KeyT", 20); ("KeyY", 21); ("KeyU", 22); ("KeyI", 23); ("KeyO", 24); ("KeyP", 25); ("BracketLeft", 26);
  ("BracketRight", 27); ("Enter", 28); ("ControlLeft", 29); ("KeyA", 30); ("KeyS", 31); ("KeyD", 32); ("KeyF", 33); ("KeyG", 34);
  ("KeyH", 35); ("KeyJ", 36); ("KeyK", 37); ("KeyL", 38); ("Semicolon", 39); ("Quote", 40); ("Backquote", 41); ("ShiftLeft", 42);
  ("Backslash", 43); ("KeyZ", 44); ("KeyX", 45); ("KeyC", 46); ("KeyV", 47); ("KeyB", 48); ("KeyN", 49); ("KeyM", 50); ("Comma", 51);
  ("Period", 52); ("Slash", 53); ("ShiftRight", 54); ("NumpadMultiply", 55); ("AltLeft", 56); ("Space", 57); ("CapsLock", 58); ("F1", 59);
  ("F2", 60); ("F3", 61); ("F4", 62); ("F5", 63); ("F6", 64); ("F7", 65); ("F8", 66); ("F9", 67); ("F10", 68); ("NumLock", 69);
  ("ScrollLock", 70); ("Numpad7", 71); ("Numpad8", 72); ("Numpad9", 73); ("NumpadSubtract", 74); ("Numpad4", 75); ("Numpad5", 76);
  ("Numpad6", 77); ("NumpadAdd", 78); ("Numpad1", 79); ("Numpad2", 80); ("Numpad3", 81); ("Numpad0", 82); ("NumpadDecimal", 83);
  ("IntlBackslash", 86); ("F11", 87); ("F12", 88); ("IntlRo", 89); ("NumpadEnter", 96); ("ControlRight", 97); ("NumpadDivide", 98);
  ("PrintScreen", 99); ("AltRight", 100); ("Home", 102); ("ArrowUp", 103); ("PageUp", 104); ("ArrowLeft", 105); ("ArrowRight", 106);
  ("End", 107); ("ArrowDown", 108); ("PageDown", 109); ("Insert", 110); ("Delete", 111); ("NumpadEqual", 117); ("Pause", 119);
  ("IntlYen", 124); ("MetaLeft", 125); ("MetaRight", 126); ("OSLeft", 125); ("OSRight", 126); ("ContextMenu", 127); ("F13", 183);
  ("F14", 184); ("F15", 185); ("F16", 186); ("F17", 187); ("F18", 188); ("F19", 189); ("F20", 190); ("F21", 191); ("F22", 192);
  ("F23", 193); ("F24", 194); ("AudioVolumeMute", 113); ("AudioVolumeDown", 114); ("AudioVolumeUp", 115); ("NumpadComma", 121);
  ("Lang1", 122); ("Lang2", 123); ("KanaMode", 93); ("Convert", 92); ("NonConvert", 94)].
(** [table.find(code)]: the keys of the table are distinct. *)
Fixpoint assoc {A} (k : string) (l : list (string * A)) : option A :=
  match l with [] => None | (k', v) :: l' => if String.eqb k k' then Some v else assoc k l' end.
Definition evdev_for_code (code : string) : option Z := assoc code evdev_table.

(** ** Clipboard types *)
Definition TEXT : string := "text/plain".
Definition PNG : string := "image/png".
Definition MAX_BYTES : Z := 8 * 1024 * 1024.
Definition text_aliases : list string := ["text/plain;charset=utf-8"; "UTF8_STRING"; "text/plain"; "STRING"; "TEXT"].
Definition max_bytes (t : string) : Z := if String.eqb t TEXT then 1024 * 1024 else if String.eqb t PNG then 8 * 1024 * 1024 else 0.
Definition compositor_names (t : string) : list string := if String.eqb t TEXT then text_aliases else if String.eqb t PNG then ["image/png"] else [].
Definition mem (x : string) (l : list string) : bool := existsb (String.eqb x) l.
Definition fjarr_types (compositor_types : list string) : list string :=
  (if existsb (fun a => mem a compositor_types) text_aliases then [TEXT] else [])
  ++ (if mem "image/png" compositor_types then [PNG] else []).
Definition compositor_type_for (t : string) (offered : list string) : string :=
  match find (fun a => mem a offered) (compositor_names t) with Some a => a | None => "" end.

(** ** What the tables promise *)
Lemma assoc_In {A} k (v : A) l : assoc k l = Some v -> In (k, v) l.
Proof. induction l as [|[k' v'] l IH]; simpl; [done|]. case_bool; [intros [= <-]; subst; by left | auto]. Qed.
Lemma evdev_in_range code k : evdev_for_code code = Some k -> 1 <= k <= 247.
Proof.
  intros H%assoc_In. assert (forallb (fun p => (1 <=? p.2) && (p.2 <=? 247)) evdev_table = true) as Hall by by vm_compute.
  rewrite forallb_forall in Hall. apply Hall in H. simpl in H. lia.
Qed.
Lemma mem_In x l : mem x l = true <-> In x l.
Proof.
  unfold mem. rewrite existsb_exists. split; [intros (y & Hy & ->%String.eqb_eq); done | intros Hx; exists x; by rewrite String.eqb_refl].
Qed.
(** A type that is offered to a client can be read: some compositor name for it is there. *)
Lemma offered_readable t offered : In t (fjarr_types offered) <-> compositor_type_for t offered <> "" /\ In (compositor_type_for t offered) offered.
Proof.
  unfold fjarr_types, compositor_type_for. split.
  - intros [Ht|Ht]%in_app_or.
    + destruct (existsb _ text_aliases) eqn:E; [|done]. destruct Ht as [<-|[]]. change (compositor_names TEXT) with text_aliases.
      apply existsb_exists in E as (a & Ha & Hm). destruct (find _ text_aliases) as [b|] eqn:F; [|by rewrite (find_none _ _ F a Ha) in Hm].
      apply find_some in F as [Hb Hm']. split; [|by apply mem_In]. intros ->. by vm_compute in Hb; repeat (destruct Hb as [Hb|Hb]; [done|]).
    + destruct (mem _ offered) eqn:E; [|done]. destruct Ht as [<-|[]]. change (compositor_names PNG) with ["image/png"]. cbn [find]. rewrite E.
      split; [done | by apply mem_In].
  - unfold compositor_names. destruct (String.eqb_spec t TEXT) as [->|].
    + destruct (find _ text_aliases) as [b|] eqn:F; [|by intros []]. apply find_some in F as [Hb Hm]. intros _. apply in_or_app. left.
      assert (existsb (fun a => mem a offered) text_aliases = true) as -> by (apply existsb_exists; eauto). by left.
    + destruct (String.eqb_spec t PNG) as [->|]; [|by intros []]. cbn [find]. destruct (mem "image/png" offered); [|by intros []].
      intros _. apply in_or_app. right. by left.
Qed.
