(* ===== verification/Desktop.v ===== *)
(** * Desktop: the remote desktop capability (capabilities/desktop_capability.cpp)

    Monitors as tracks, input, the cursor, the clipboard and virtual monitors. The desktop
    backend (include/fjarr/desktop_backend.hpp) is loaded at run time: its calls are [DriverCall]s
    of the history, its answers come from the environment of the turn. Its callbacks are the
    handlers [on_monitors], [on_capture_lost] and so on; a callback made from inside a call is
    modelled where a backend makes one (a source that is lost while its capture is stopped, a
    layout reported while a monitor is added). Log lines have no counterpart. *)

From Stdlib Require Import ZArith Lia Strings.Byte String.
From stdpp Require Import base list strings pretty.
From S2P Require Import Prelude Monad StdMap Json Blob Protocol Floats Consumer SessionState SessionOps Capability DesktopTables.
Open Scope Z_scope.

(** ** The backend's data *)
Definition INVALID_MONITOR : Z := 0.
Record Monitor := {
  m_id : Z; wire_id : string; m_connector : string; m_label : string; m_primary : bool;
  m_x : Z; m_y : Z; m_width : Z; m_height : Z; m_scale : dbl; cursor_in_video : bool
}.
Inductive MouseButton := BLeft | BMiddle | BRight | BBack | BForward.
#[global] Instance MouseButton_eq_dec : EqDecision MouseButton.
Proof. solve_decision. Defined.
Record Features := { local_cursor : bool; virtual_monitors : bool; desktop_audio : bool }.
Inductive CaptureLost := MonitorGone | SourceStopped | SessionEnded | SharingStopped.
#[global] Instance CaptureLost_eq_dec : EqDecision CaptureLost.
Proof. solve_decision. Defined.
Record CaptureOptions := { opt_cursor_in_video : bool; opt_dmabuf : list (Z * Z); opt_encoder : string }.
Record CursorShape := { shape_id : string; visible : bool; cs_w : Z; cs_h : Z; hot_x : Z; hot_y : Z; rgba : list byte }.

Inductive DriverCall :=
| DMotion (m : Z) (x y : dbl) | DButton (b : MouseButton) (down : bool) | DWheel (dx dy : dbl)
| DKey (code : Z) (down : bool) | DTypeText (text : string) | DReleaseAll
| DStart (m : Z) (o : CaptureOptions) | DStop (m : Z) | DCreate (w h : Z) | DDestroy (m : Z)
| DClipRead (type : string) (limit : Z) (sid : string) (req : Envelope)
| DClipWrite (type : string) (bytes : list byte) (sid : string) (req : Envelope).
Abbreviation DOut := (Out DriverCall).

(** The backend and the sources during one turn. *)
Class DesktopEnv := {
  desk_ctx :: CtxEnv DriverCall;
  granted : string -> json;                              (* [granted_params("fjarr.desktop")] *)
  random_bytes : list DOut -> list byte;                 (* 16 bytes of the generator *)
  imports : option (list (Z * Z) * string);              (* the registry's import list, once it is set *)
  drv_features : list DOut -> Features;
  drv_monitors : list DOut -> list Monitor;
  drv_clipboard : list DOut -> bool;                     (* [clipboard()] is not null *)
  drv_start_capture : list DOut -> option nat;           (* the source started, null for an unknown monitor *)
  drv_lost : list DOut -> bool;                          (* the call lost a source, which reports it at once *)
  drv_create : list DOut -> Z * option (list Monitor);   (* the new monitor; a layout reported at once *)
  drv_type_text : list DOut -> list string * string;     (* what cannot be typed; why nothing can *)
  src_available : list DOut -> nat -> bool
}.

(** ** The capability's state *)
Record Screen := { sc_monitor : Monitor; sc_source : option nat }.
Record Incoming := {
  in_session : string; in_request : option Envelope; in_type : string; in_len : Z; in_bytes : list byte; complete : bool; first : Z
}.
Record PendingAdd := { pa_session : string; pa_request : Envelope }.
Record CursorSession := { images : list (string * unit); cs_pending : option json; cs_last : Z; cs_timer : bool }.
Record Desktop := {
  d_chosen : string; d_unavailable : string; driver : bool; sound : option nat;
  d_sessions : list (string * unit); screens : list (string * Screen); had_monitors : bool; stopped : list (string * unit);
  desktop_running : bool; input_session : option string; pointer_seq : list (string * Z); unknown_codes : list (string * unit);
  offer_id : string; offer_types : list string; incoming : list (string * Incoming);
  virtuals : list (string * list (Z * unit)); pending_adds : list (Z * PendingAdd);
  cursor_shape : option CursorShape; cursors : list (string * CursorSession)
}.
Definition new_desktop : Desktop := {|
  d_chosen := ""; d_unavailable := ""; driver := false; sound := None; d_sessions := []; screens := []; had_monitors := false; stopped := [];
  desktop_running := true; input_session := None; pointer_seq := []; unknown_codes := []; offer_id := ""; offer_types := []; incoming := [];
  virtuals := []; pending_adds := []; cursor_shape := None; cursors := [] |}.
Definition new_cursor : CursorSession := {| images := []; cs_pending := None; cs_last := 0; cs_timer := false |}.
Definition MAX_VIRTUAL_PER_SESSION : Z := 2.
Definition POSITION_INTERVAL : Z := 33 * 1000000.
Definition SOUND_TRACK : string := "desktop-audio".
Definition CAP : string := "fjarr.desktop".

(** Keys and buttons the desktop holds down, with the session that pressed them: what the history says. *)
Inductive Held := HKey (code : Z) | HButton (b : MouseButton).
#[global] Instance Held_eq_dec : EqDecision Held.
Proof. solve_decision. Defined.
Definition release_one (h : Held) (l : list (string * Held)) : list (string * Held) := List.filter (fun p => negb (bool_decide (p.2 = h))) l.
Definition hold (l : list (string * Held)) (o : DOut) : list (string * Held) :=
  match o with
  | ODev s (DKey k true) => release_one (HKey k) l ++ [(s, HKey k)]
  | ODev s (DKey k false) => release_one (HKey k) l
  | ODev s (DButton b true) => release_one (HButton b) l ++ [(s, HButton b)]
  | ODev s (DButton b false) => release_one (HButton b) l
  | ODev _ DReleaseAll => []
  | _ => l
  end.
Definition held (h : list DOut) : list (string * Held) := foldl hold [] h.

Section Desktop.
Context `{E : DesktopEnv}.
Abbreviation P := (Prog (Cap Desktop DriverCall)).

(** [random_uuid()]: 16 random bytes with the version and variant bits of a version 4 UUID. *)
Definition uuid4 (b : list byte) : string :=
  let set i f l := alter (fun x => Zbyte (f (byteZ x))) i l in
  uuid_text (set 8%nat (fun x => Z.lor (Z.land x 63) 128) (set 6%nat (fun x => Z.lor (Z.land x 15) 64) b)).
Definition desk_view_only (sid : string) : P bool :=
  if is_object (granted sid) then lift (value_bool (granted sid) "view_only" false) else ret false.

(** ** Virtual monitors *)
Definition answer_add (m : Monitor) : P unit :=
  do d <- self;
  match sm_find (m_id m) (pending_adds d) with
  | None => ret tt
  | Some p =>
    when (sm_count (pa_session p) (d_sessions d))
      (ctx (pa_session p) (CResult (pa_request p) (jobj [("ok", JBool true); ("monitor", JStr (wire_id m))]))) ;;
    update (fun d => {| d with pending_adds := sm_erase (m_id m) (pending_adds d) |})
  end.
Definition answer_adds (monitors : list Monitor) : P unit := for_each monitors answer_add.

(** ** Tracks *)
Definition screen_lt (a b : Screen) : bool :=
  let p := sc_monitor a in let q := sc_monitor b in
  if m_x p <? m_x q then true else if m_x q <? m_x p then false
  else if m_y p <? m_y q then true else if m_y q <? m_y p then false
  else bool_decide (String.compare (wire_id p) (wire_id q) = Lt).
Fixpoint insert_screen (s : Screen) (l : list Screen) : list Screen :=
  match l with [] => [s] | t :: l' => if screen_lt t s then t :: insert_screen s l' else s :: l end.
Definition ordered (d : Desktop) : list Screen := foldr insert_screen [] (map snd (screens d)).
Definition info (m : Monitor) (index : Z) : MonitorInfo := {|
  mon_id := wire_id m; mon_index := index; primary := m_primary m; mon_x := m_x m; mon_y := m_y m; mon_w := m_width m; mon_h := m_height m;
  scale := m_scale m; mon_name := m_label m; connector := m_connector m; mon_cursor := if cursor_in_video m then "embedded" else "" |}.
Fixpoint screen_specs (h : list DOut) (available_only : bool) (index : Z) (l : list Screen) : list TrackSpec :=
  match l with
  | [] => []
  | sc :: l' =>
    match sc_source sc with
    | Some src =>
      if available_only && negb (src_available h src) then []
      else [{| spec_id := "desk-" +:+ wire_id (sc_monitor sc);
               spec_label := if String.eqb (m_label (sc_monitor sc)) "" then m_connector (sc_monitor sc) else m_label (sc_monitor sc);
               spec_kind := Video; spec_source := Some src; spec_monitor := Some (info (sc_monitor sc) index) |}]
    | None => []
    end ++ screen_specs h available_only (index + 1) l'
  end.
Definition specs (h : list DOut) (d : Desktop) (available_only : bool) : list TrackSpec :=
  screen_specs h available_only 0 (ordered d)
  ++ match sound d with
     | Some src => if negb available_only || src_available h src
                   then [{| spec_id := SOUND_TRACK; spec_label := "Desktop sound"; spec_kind := Audio; spec_source := Some src; spec_monitor := None |}] else []
     | None => []
     end.
Definition to_sessions (f : string -> P unit) : P unit := do d <- self; for_each (d_sessions d) (fun kv => f kv.1).
Definition reoffer : P unit :=
  to_sessions (fun sid => do d <- self; do h <- history; ctx sid (CUpdateTracks (specs h d true))).
Fixpoint monitor_list (index : Z) (l : list Screen) : list json :=
  match l with [] => [] | sc :: l' => monitor_to_json (info (sc_monitor sc) index) :: monitor_list (index + 1) l' end.
Definition announce (reason : string) : P unit :=
  do d <- self;
  to_sessions (fun sid => ctx sid (CEvent "monitors" (jobj [("monitors", JArr (monitor_list 0 (ordered d))); ("reason", JStr reason)]))).

(** A call that can lose a source: its [on_availability_changed] re-offers. *)
Definition dev_losing (by_ : string) (c : DriverCall) : P unit := dev by_ c ;; do h <- history; when (drv_lost h) reoffer.
Definition capture (m : Monitor) : P (option nat) :=
  do h <- history;
  let '(dmabuf, enc) := match imports with Some i => i | None => ([], "") end in
  dev "" (DStart (m_id m) {| opt_cursor_in_video := negb (local_cursor (drv_features h)); opt_dmabuf := dmabuf; opt_encoder := enc |}) ;;
  do h <- history; ret (drv_start_capture h).
Definition remove_virtuals (sid : string) : P unit :=
  do d <- self;
  match sm_find sid (virtuals d) with
  | None => ret tt
  | Some v =>
    for_each v (fun mu =>
      update (fun d => {| d with pending_adds := sm_erase mu.1 (pending_adds d) |}) ;;
      when (driver d) (dev_losing sid (DDestroy mu.1))) ;;
    update (fun d => {| d with virtuals := sm_erase sid (virtuals d) |})
  end.

(** ** The backend's callbacks *)
Definition tell_desktop (sid : string) : P unit :=
  do d <- self; ctx sid (CEvent "desktop" (jobj [("state", JStr (if desktop_running d then "running" else "absent"))])).
Definition on_session_changed (running : bool) : P unit :=
  do d <- self;
  if Bool.eqb running (desktop_running d) then ret tt
  else update (fun d => {| d with desktop_running := running |}) ;; to_sessions tell_desktop.
Definition no_keys {A} (m : list A) : bool := match m with [] => true | _ => false end.
Definition tell_sharing (sid : string) : P unit :=
  do d <- self; ctx sid (CEvent "sharing" (jobj [("state", JStr (if no_keys (stopped d) then "on" else "stopped"))])).
Definition on_capture_lost (monitor : Z) (why : CaptureLost) : P unit :=
  if negb (bool_decide (why = SharingStopped)) then ret tt
  else
    do d <- self;
    match find (fun kv => m_id (sc_monitor kv.2) =? monitor) (screens d) with
    | None => ret tt
    | Some (wire, _) =>
      let was_first := no_keys (stopped d) in
      update (fun d => {| d with stopped := sm_set wire tt (stopped d) |}) ;;
      when was_first (to_sessions tell_sharing)
    end.
Definition set_source (wire : string) (src : option nat) (d : Desktop) : Desktop :=
  match sm_find wire (screens d) with
  | Some sc => {| d with screens := sm_set wire {| sc with sc_source := src |} (screens d) |}
  | None => d
  end.
Definition resume_one (wire : string) : P unit :=
  do d <- self;
  match sm_find wire (screens d) with
  | None => ret tt
  | Some sc =>
    dev_losing "" (DStop (m_id (sc_monitor sc))) ;;
    do src <- capture (sc_monitor sc);
    update (set_source wire src)
  end.
Definition resume : P unit :=
  do d <- self;
  if no_keys (stopped d) then ret tt
  else
    for_each (stopped d) (fun kv => resume_one kv.1) ;;
    update (fun d => {| d with stopped := [] |}) ;;
    to_sessions tell_sharing ;;
    reoffer.
Definition drop_screen (present : list string) (kv : string * Screen) : P bool :=
  if mem kv.1 present then ret false
  else
    update (fun d => {| d with stopped := sm_erase kv.1 (stopped d) |}) ;;
    dev_losing "" (DStop (m_id (sc_monitor kv.2))) ;;
    update (fun d => {| d with screens := sm_erase kv.1 (screens d) |}) ;; ret true.
Definition place_screen (m : Monitor) : P bool :=
  do d <- self;
  match sm_find (wire_id m) (screens d) with
  | Some sc => update (fun d => {| d with screens := sm_set (wire_id m) {| sc with sc_monitor := m |} (screens d) |}) ;; ret false
  | None =>
    do src <- capture m;
    update (fun d => {| d with screens := sm_set (wire_id m) {| sc_monitor := m; sc_source := src |} (screens d) |}) ;; ret true
  end.
Fixpoint any_of {A} (l : list A) (f : A -> P bool) : P bool :=
  match l with [] => ret false | a :: l' => do b <- f a; do c <- any_of l' f; ret (b || c) end.
Definition on_monitors (monitors : list Monitor) : P unit :=
  do d <- self;
  do gone <- any_of (screens d) (drop_screen (map wire_id monitors));
  do came <- any_of monitors place_screen;
  announce (if negb (had_monitors d) then "initial" else if gone || came then "hotplug" else "mode-change") ;;
  update (fun d => {| d with had_monitors := had_monitors d || negb (no_keys monitors) |}) ;;
  reoffer ;;
  answer_adds monitors.

(** ** The cursor *)
Definition cursor_of (sid : string) (d : Desktop) : CursorSession := default new_cursor (sm_find sid (cursors d)).
Definition upd_cursor (sid : string) (f : CursorSession -> CursorSession) (d : Desktop) : Desktop :=
  {| d with cursors := sm_set sid (f (cursor_of sid d)) (cursors d) |}.
Definition send_shape (sid : string) : P unit :=
  do d <- self;
  match cursor_shape d with
  | None => ret tt
  | Some s =>
    update (upd_cursor sid id) ;;
    let p := jobj [("shape_id", JStr (shape_id s)); ("hotspot", jobj [("x", JInt (hot_x s)); ("y", JInt (hot_y s))])] in
    if negb (visible s) then ctx sid (CEvent "cursor" (jset "hidden" (JBool true) p))
    else if negb (sm_count (shape_id s) (images (cursor_of sid d))) && negb (no_keys (rgba s)) then
      do ref <- ctx_send_blob sid (rgba s) "application/x-fjarr-rgba";
      update (upd_cursor sid (fun c => {| c with images := sm_set (shape_id s) tt (images c) |})) ;;
      ctx sid (CEvent "cursor" (jset "image" (jobj [("w", JInt (cs_w s)); ("h", JInt (cs_h s)); ("blob", to_json ref)]) p))
    else ctx sid (CEvent "cursor" p)
  end.
Definition on_cursor_shape (s : CursorShape) : P unit :=
  update (fun d => {| d with cursor_shape := Some s |}) ;; to_sessions send_shape.
Definition flush_position (sid : string) : P unit :=
  do d <- self;
  match sm_find sid (cursors d) with
  | Some {| cs_pending := Some p |} =>
    if negb (sm_count sid (d_sessions d)) then ret tt
    else
      do h <- history;
      catch (ctx sid (CRealtime (make_envelope (fresh_event h) CAP "cursor-position" "event" p "")))
        (fun e => match e with FjarrError _ _ => ret tt | _ => throw e end) ;;
      do h <- history;
      update (upd_cursor sid (fun c => {| c with cs_pending := None; cs_last := clock h |}))
  | _ => ret tt
  end.
Definition on_cursor_position (monitor : Z) (nx ny : dbl) : P unit :=
  do d <- self; do h <- history;
  let track := foldl (fun t m => if m_id m =? monitor then "desk-" +:+ wire_id m else t) "" (if driver d then drv_monitors h else []) in
  if String.eqb track "" then ret tt
  else
    let now := clock h in
    to_sessions (fun sid =>
      update (upd_cursor sid (fun c => {| c with cs_pending := Some (jobj [("track_id", JStr track); ("x", JFloat nx); ("y", JFloat ny)]) |})) ;;
      do d <- self;
      if POSITION_INTERVAL <=? now - cs_last (cursor_of sid d) then flush_position sid
      else update (upd_cursor sid (fun c => {| c with cs_timer := true |}))).
(** The timer [every(POSITION_INTERVAL)] armed above; it goes with its [CursorSession]. *)
Definition position_timer (sid : string) : P unit :=
  do d <- self;
  match sm_find sid (cursors d) with
  | Some {| cs_timer := true |} => flush_position sid ;; update (upd_cursor sid (fun c => {| c with cs_timer := false |}))
  | _ => ret tt
  end.

(** ** The clipboard *)
Definition offer (sid : string) : P unit :=
  do v <- desk_view_only sid;
  if v then ret tt
  else do d <- self; ctx sid (CEvent "clipboard-offer" (jobj [("offer_id", JStr (offer_id d)); ("types", JArr (map JStr (offer_types d)))])).
Definition on_clipboard_changed (types : list string) : P unit :=
  do h <- history;
  update (fun d => {| d with offer_id := uuid4 (random_bytes h); offer_types := types |}) ;;
  to_sessions offer.
Definition has_clipboard (h : list DOut) (d : Desktop) : bool := driver d && drv_clipboard h.
Definition fail (sid : string) (req : Envelope) (code message : string) (data : json) : P unit := ctx sid (CFail req code message data).
Definition try_write (bid : string) : P unit :=
  do d <- self;
  match sm_find bid (incoming d) with
  | Some {| in_session := sid; in_request := Some req; in_type := ty; in_bytes := bytes; complete := true |} =>
    update (fun d => {| d with incoming := sm_erase bid (incoming d) |}) ;;
    do h <- history;
    if negb (sm_count sid (d_sessions d)) then ret tt
    else if negb (has_clipboard h d) then fail sid req unavailable "this robot's desktop has no clipboard" JNull
    else dev sid (DClipWrite ty bytes sid req)
  | _ => ret tt
  end.
(** [done] of a clipboard write. *)
Definition write_done (sid : string) (req : Envelope) (ok : bool) (error : string) : P unit :=
  when ok (update (fun d => {| d with offer_id := ""; offer_types := [] |})) ;;
  do d <- self;
  if negb (sm_count sid (d_sessions d)) then ret tt
  else if ok then ctx sid (CResult req (jobj [("ok", JBool true)]))
  else fail sid req unavailable ("the robot's clipboard was not set: " +:+ error) JNull.
(** [done] of a clipboard read. *)
Definition too_large (limit : Z) : json := jobj [("reason", JStr "too-large"); ("limit", JUint limit)].
Definition read_done (sid : string) (req : Envelope) (ty : string) (limit : Z) (bytes : option (list byte)) (error : string) : P unit :=
  do d <- self;
  if negb (sm_count sid (d_sessions d)) then ret tt
  else
    match bytes with
    | None =>
      if String.eqb error "too-large" then fail sid req unavailable ("larger than the clipboard's " +:+ pretty limit +:+ " bytes") (too_large limit)
      else fail sid req unavailable ("the robot's clipboard could not be read: " +:+ error) JNull
    | Some b => do ref <- ctx_send_blob sid b ty; ctx sid (CResult req (jobj [("ok", JBool true); ("blob", to_json ref)]))
    end.
Definition EXPIRE_NS : Z := 10 * 1000000000.
Definition expire_incoming : P unit :=
  do d <- self; do h <- history;
  let now := clock h in
  for_each (incoming d) (fun kv =>
    if now - first kv.2 <? EXPIRE_NS then ret tt
    else
      do d <- self;
      match in_request kv.2 with
      | Some req => when (sm_count (in_session kv.2) (d_sessions d))
                      (fail (in_session kv.2) req payload_invalid "the clipboard's bytes did not all arrive" JNull)
      | None => ret tt
      end ;;
      update (fun d => {| d with incoming := sm_erase kv.1 (incoming d) |})).
(** [incoming[id]]: the entry, made on first use. *)
Definition incoming_at (bid : string) (now : Z) (d : Desktop) : Incoming :=
  match sm_find bid (incoming d) with
  | Some i => i
  | None => {| in_session := ""; in_request := None; in_type := ""; in_len := 0; in_bytes := []; complete := false; first := now |}
  end.
Definition set_incoming (bid : string) (i : Incoming) (d : Desktop) : Desktop := {| d with incoming := sm_set bid i (incoming d) |}.
Definition foreign (i : Incoming) (sid : string) : bool := negb (String.eqb (in_session i) "") && negb (String.eqb (in_session i) sid).
Definition on_blob_chunk (sid : string) (c : BlobChunk) : P unit :=
  if MAX_BYTES <? blob_len c then ret tt
  else
    expire_incoming ;;
    do d <- self; do h <- history;
    let i := incoming_at (blob_id c) (clock h) d in
    update (set_incoming (blob_id c) i) ;;
    if foreign i sid then ret tt
    else
      let bytes := (if offset c =? 0 then [] else in_bytes i) ++ payload c in
      let i := {| i with in_session := sid; in_bytes := bytes; complete := complete i || (blob_len c <=? zlen bytes) |} in
      update (set_incoming (blob_id c) i) ;;
      when (blob_len c <=? zlen bytes) (try_write (blob_id c)).

(** ** Input *)
Definition monitor_for (h : list DOut) (d : Desktop) (track : string) : option Monitor :=
  if negb (driver d) || negb (starts_with (chars "desk-") (chars track)) then None
  else find (fun m => String.eqb (wire_id m) (of_chars (drop 5 (chars track)))) (drv_monitors h).
Definition keycode (code : string) : P (option Z) :=
  match evdev_for_code code with
  | Some k => ret (Some k)
  | None => update (fun d => {| d with unknown_codes := sm_set code tt (unknown_codes d) |}) ;; ret None
  end.
Definition is_request (msg : Envelope) : bool := String.eqb (kind msg) "request".
(** The answer of a refused message: only a request gets one. *)
Definition refuse (sid : string) (msg : Envelope) (code why : string) : P unit := when (is_request msg) (fail sid msg code why JNull).
Definition accept_ok (sid : string) (msg : Envelope) : P unit := when (is_request msg) (ctx sid (CResult msg (jobj [("ok", JBool true)]))).

Definition release_all_input (sid : string) : P unit :=
  do d <- self;
  if negb (driver d) || match input_session d with Some s => negb (String.eqb s sid) | None => false end then ret tt
  else dev sid DReleaseAll ;; update (fun d => {| d with input_session := None |}).
Definition unit_range (x : dbl) : bool := negb (x <? of_Z 0)%dbl && negb (of_Z 1 <? x)%dbl.
Definition last_seq (sid : string) (d : Desktop) : Z := default 0 (sm_find sid (pointer_seq d)).
Definition set_seq (sid : string) (z : Z) (d : Desktop) : Desktop := {| d with pointer_seq := sm_set sid z (pointer_seq d) |}.
Definition on_pointer (sid : string) (p : json) : P unit :=
  do seq <- lift (value_u64 p "seq" 0);
  do d <- self;
  update (set_seq sid (last_seq sid d)) ;;
  if negb (seq =? 0) && (seq <=? last_seq sid d) then ret tt
  else
    update (set_seq sid seq) ;;
    do x <- lift (value_double p "x" (of_Z (-1)));
    do y <- lift (value_double p "y" (of_Z (-1)));
    do track <- lift (value_str p "track_id" "");
    do h <- history;
    match monitor_for h d track with
    | Some m => when (unit_range x && unit_range y) (dev sid (DMotion (m_id m) x y))
    | None => ret tt
    end.
Definition buttons : list (string * MouseButton) := [("left", BLeft); ("middle", BMiddle); ("right", BRight); ("back", BBack); ("forward", BForward)].
Definition on_button (sid : string) (msg : Envelope) : P unit :=
  let p := e_payload msg in
  do name <- lift (value_str p "button" "");
  match assoc name buttons with
  | None => refuse sid msg payload_invalid "button is left, middle, right, back or forward"
  | Some b =>
    do down <- lift (value_bool p "down" false);
    when (down && contains p "x")
      (do x <- lift (value_double p "x" (of_Z (-1)));
       do y <- lift (value_double p "y" (of_Z (-1)));
       do track <- lift (value_str p "track_id" "");
       do d <- self; do h <- history;
       match monitor_for h d track with
       | Some m => when ((of_Z 0 <=? x)%dbl && (x <=? of_Z 1)%dbl && (of_Z 0 <=? y)%dbl && (y <=? of_Z 1)%dbl) (dev sid (DMotion (m_id m) x y))
       | None => ret tt
       end ;;
       update (set_seq sid (last_seq sid d)) ;;
       do seq <- lift (value_u64 p "seq" 0);
       update (set_seq sid (Z.max (last_seq sid d) seq))) ;;
    dev sid (DButton b down)
  end.
Definition on_wheel (sid : string) (p : json) : P unit :=
  do dx <- lift (value_double p "dx" (of_Z 0)); do dy <- lift (value_double p "dy" (of_Z 0)); dev sid (DWheel dx dy).
Definition on_key (sid : string) (msg : Envelope) : P unit :=
  do code <- lift (value_str (e_payload msg) "code" "");
  do k <- keycode code;
  match k with
  | Some k => do down <- lift (value_bool (e_payload msg) "down" false); dev sid (DKey k down)
  | None => refuse sid msg payload_invalid "unknown key code"
  end.
(** The elements a range-for over a json value visits. *)
Definition elements_of (j : json) : list json := match j with JArr l => l | JObj m => map snd m | JNull => [] | v => [v] end.
Fixpoint combo_keys (l : list json) : P (option (list Z)) :=
  match l with
  | [] => ret (Some [])
  | JStr s :: l' => do k <- keycode s;
                    match k with Some k => do ks <- combo_keys l'; ret (cons k <$> ks) | None => ret None end
  | _ => ret None
  end.
Definition on_key_combo (sid : string) (msg : Envelope) : P unit :=
  do codes <- lift (value_json (e_payload msg) "codes" (JArr []));
  do keys <- combo_keys (elements_of codes);
  match keys with
  | None => refuse sid msg payload_invalid "unknown key code in the combo"
  | Some ks =>
    for_each ks (fun k => dev sid (DKey k true)) ;;
    for_each (reverse ks) (fun k => dev sid (DKey k false)) ;;
    accept_ok sid msg
  end.
Definition on_clipboard_read (sid : string) (msg : Envelope) : P unit :=
  do v <- desk_view_only sid;
  if v then refuse sid msg capability_denied "a view-only session sees no clipboard"
  else
    do d <- self; do h <- history;
    if negb (has_clipboard h d) then refuse sid msg unavailable "this robot's desktop has no clipboard"
    else
      do ty <- lift (value_str (e_payload msg) "type" "");
      do oid <- lift (value_str (e_payload msg) "offer_id" "");
      if negb (String.eqb oid (offer_id d)) || String.eqb (offer_id d) "" then refuse sid msg payload_invalid "the robot's clipboard changed since that offer"
      else if negb (mem ty (offer_types d)) then refuse sid msg payload_invalid ("the offer has no '" +:+ ty +:+ "'")
      else dev sid (DClipRead ty (max_bytes ty) sid msg).
Definition on_clipboard_write (sid : string) (msg : Envelope) : P unit :=
  do d <- self; do h <- history;
  if negb (has_clipboard h d) then refuse sid msg unavailable "this robot's desktop has no clipboard"
  else
    do ty <- lift (value_str (e_payload msg) "type" "");
    let limit := max_bytes ty in
    if limit =? 0 then refuse sid msg payload_invalid "the clipboard takes text/plain or image/png"
    else
      do bj <- lift (value_json (e_payload msg) "blob" JNull);
      match from_json bj with
      | None => refuse sid msg payload_invalid "clipboard-write needs a blob reference"
      | Some ref =>
        if limit <? ref_len ref then fail sid msg unavailable ("larger than the clipboard's " +:+ pretty limit +:+ " bytes") (too_large limit)
        else
          expire_incoming ;;
          do d <- self; do h <- history;
          let i := incoming_at (ref_id ref) (clock h) d in
          update (set_incoming (ref_id ref) i) ;;
          if foreign i sid then refuse sid msg payload_invalid "that blob belongs to another session"
          else
            update (set_incoming (ref_id ref)
              {| i with in_session := sid; in_request := Some msg; in_type := ty; in_len := ref_len ref; complete := complete i || (ref_len ref =? 0) |}) ;;
            try_write (ref_id ref)
      end.
Definition in_range (lo z hi : Z) : bool := (lo <=? z) && (z <=? hi).
Definition upd_virtuals (sid : string) (f : list (Z * unit) -> list (Z * unit)) (d : Desktop) : Desktop :=
  {| d with virtuals := sm_set sid (f (default [] (sm_find sid (virtuals d)))) (virtuals d) |}.
Definition on_add_monitor (sid : string) (msg : Envelope) : P unit :=
  do w <- lift (value_int (e_payload msg) "width" 0); do hh <- lift (value_int (e_payload msg) "height" 0);
  if negb (in_range 320 w 3840) || negb (in_range 240 hh 2160) then refuse sid msg payload_invalid "a virtual monitor is 320-3840 wide and 240-2160 high"
  else
    do h <- history;
    if negb (virtual_monitors (drv_features h)) then refuse sid msg unavailable "this robot's desktop cannot add a monitor"
    else
      update (upd_virtuals sid id) ;;
      do d <- self;
      if MAX_VIRTUAL_PER_SESSION <=? zlen (default [] (sm_find sid (virtuals d))) then refuse sid msg unavailable "a session may add at most 2 monitors"
      else
        dev sid (DCreate w hh) ;;
        do h <- history;
        let '(id, layout) := drv_create h in
        match layout with Some monitors => on_monitors monitors | None => ret tt end ;;
        if id =? INVALID_MONITOR then refuse sid msg unavailable "the robot's desktop would not add a monitor now"
        else
          update (upd_virtuals sid (sm_set id tt)) ;;
          update (fun d => {| d with pending_adds := sm_set id {| pa_session := sid; pa_request := msg |} (pending_adds d) |}) ;;
          do h <- history; answer_adds (drv_monitors h).
(** The timer of a pending add, five seconds after it. *)
Definition add_timeout (id : Z) (sid : string) : P unit :=
  do d <- self;
  match sm_find id (pending_adds d) with
  | None => ret tt
  | Some pa =>
    when (sm_count sid (d_sessions d)) (fail sid (pa_request pa) unavailable "the monitor did not appear within 5 s" JNull) ;;
    update (upd_virtuals sid (sm_erase id)) ;;
    when (driver d) (dev_losing sid (DDestroy id)) ;;
    update (fun d => {| d with pending_adds := sm_erase id (pending_adds d) |})
  end.
Fixpoint remove_first (sid wire : string) (msg : Envelope) (mine : list (Z * unit)) : P unit :=
  match mine with
  | [] => refuse sid msg payload_invalid ("no virtual monitor '" +:+ wire +:+ "' was added by this session")
  | (m, _) :: rest =>
    do d <- self; do h <- history;
    if match monitor_for h d ("desk-" +:+ wire) with Some mon => m_id mon =? m | None => false end then
      update (upd_virtuals sid (sm_erase m)) ;;
      update (fun d => {| d with pending_adds := sm_erase m (pending_adds d) |}) ;;
      dev_losing sid (DDestroy m) ;;
      accept_ok sid msg
    else remove_first sid wire msg rest
  end.
Definition on_remove_monitor (sid : string) (msg : Envelope) : P unit :=
  do wire <- lift (value_str (e_payload msg) "id" "");
  update (upd_virtuals sid id) ;;
  do d <- self;
  remove_first sid wire msg (default [] (sm_find sid (virtuals d))).
Definition on_text (sid : string) (msg : Envelope) : P unit :=
  do text <- lift (value_str (e_payload msg) "text" "");
  dev sid (DTypeText text) ;;
  do h <- history;
  let '(untypable, error) := drv_type_text h in
  if negb (String.eqb error "") then refuse sid msg unavailable error
  else if negb (no_keys untypable) then
    when (is_request msg)
      (fail sid msg unavailable "the robot's keyboard layout cannot type these characters" (jobj [("untypable", JArr (map JStr untypable))]))
  else accept_ok sid msg.

(** The messages that are input in the desktop domain: the manifest's [control_inputs]. *)
Definition desktop_inputs : list string := ["pointer"; "button"; "wheel"; "key"; "key-combo"; "text"; "clipboard-write"; "add-monitor"; "remove-monitor"].
(** [manifest()], the parts the session core reads. *)
Definition manifest (params : json) : Attached := {|
  a_name := CAP; a_channels := [(ChControl, FRaw); (ChRealtime, FRaw); (ChBulk, FBlob)]; input_bearing := true;
  control_domain := "desktop"; control_inputs := desktop_inputs; a_params := params |}.

Definition inject (sid : string) (msg : Envelope) : P unit :=
  let typed t := String.eqb (type_ msg) t in
  if typed "pointer" then on_pointer sid (e_payload msg)
  else if typed "button" then on_button sid msg
  else if typed "wheel" then on_wheel sid (e_payload msg)
  else if typed "key" then on_key sid msg
  else if typed "key-combo" then on_key_combo sid msg
  else if typed "clipboard-write" then on_clipboard_write sid msg
  else if typed "add-monitor" then on_add_monitor sid msg
  else if typed "remove-monitor" then on_remove_monitor sid msg
  else if typed "text" then on_text sid msg
  else refuse sid msg payload_invalid ("fjarr.desktop has no message '" +:+ type_ msg +:+ "'").
Definition claim_input (sid : string) : P unit :=
  do d <- self;
  when (match input_session d with Some s => negb (String.eqb s sid) | None => false end) (dev sid DReleaseAll) ;;
  update (fun d => {| d with input_session := Some sid |}).
Definition on_message (sid : string) (msg : Envelope) : P unit :=
  do d <- self;
  if negb (driver d) then refuse sid msg unavailable (if String.eqb (d_unavailable d) "" then "no desktop backend is running" else d_unavailable d)
  else if String.eqb (type_ msg) "resume-sharing" then resume ;; accept_ok sid msg
  else if String.eqb (type_ msg) "clipboard-read" then on_clipboard_read sid msg
  else if String.eqb (type_ msg) "release-all" then release_all_input sid ;; accept_ok sid msg
  else claim_input sid ;; inject sid msg.

(** ** Sessions *)
Definition session_attached (sid : string) : P unit :=
  update (fun d => {| d with d_sessions := sm_set sid tt (d_sessions d) |}) ;;
  do d <- self; do h <- history;
  for_each (specs h d false) (fun spec => ctx sid (CAddTrack spec)) ;;
  when (negb (String.eqb (offer_id d) "")) (offer sid) ;;
  send_shape sid ;;
  when (driver d) (tell_desktop sid) ;;
  when (negb (no_keys (stopped d))) (tell_sharing sid).
Definition session_detached (sid : string) : P unit :=
  update (fun d => {| d with d_sessions := sm_erase sid (d_sessions d); pointer_seq := sm_erase sid (pointer_seq d); cursors := sm_erase sid (cursors d) |}) ;;
  remove_virtuals sid ;;
  update (fun d => {| d with
    incoming := sm_filter (fun _ i => negb (String.eqb (in_session i) sid)) (incoming d);
    input_session := if bool_decide (input_session d = Some sid) then None else input_session d |}).
Definition shutdown : P unit :=
  update (fun d => {| d with d_sessions := []; screens := []; sound := None; driver := false |}).
Definition configured_source (d : Desktop) : string * bool * string :=
  (if String.eqb (d_chosen d) "" then "none" else d_chosen d, negb (String.eqb (d_chosen d) ""), d_unavailable d).

(** ** Turns of the core loop *)
Inductive DOp :=
| OpAttach (sid : string) | OpMessage (sid : string) (msg : Envelope) | OpChunk (sid : string) (c : BlobChunk)
| OpRelease (sid : string)                  (* the core takes control away, or a deadman *)
| OpEnd (sid : string)                      (* a session ends: its input is released, then it is detached *)
| OpMonitors (l : list Monitor) | OpLost (m : Z) (why : CaptureLost) | OpRunning (b : bool)
| OpClipboard (types : list string) | OpRead (sid : string) (req : Envelope) (ty : string) (limit : Z) (bytes : option (list byte)) (error : string)
| OpWritten (sid : string) (req : Envelope) (ok : bool) (error : string)
| OpShape (s : CursorShape) | OpPosition (m : Z) (x y : dbl) | OpPositionTimer (sid : string) | OpAddTimeout (id : Z) (sid : string)
| OpAvailability.
Definition desk_op (o : DOp) : P unit :=
  match o with
  | OpAttach sid => session_attached sid
  | OpMessage sid msg => on_message sid msg
  | OpChunk sid c => on_blob_chunk sid c
  | OpRelease sid => release_all_input sid
  | OpEnd sid => swallow (release_all_input sid) ;; swallow (session_detached sid)
  | OpMonitors l => on_monitors l
  | OpLost m why => on_capture_lost m why
  | OpRunning b => on_session_changed b
  | OpClipboard types => on_clipboard_changed types
  | OpRead sid req ty limit bytes error => read_done sid req ty limit bytes error
  | OpWritten sid req ok error => write_done sid req ok error
  | OpShape s => on_cursor_shape s
  | OpPosition m x y => on_cursor_position m x y
  | OpPositionTimer sid => position_timer sid
  | OpAddTimeout id sid => add_timeout id sid
  | OpAvailability => reoffer
  end.
End Desktop.

(** A run: each turn with the environment it saw. *)
Abbreviation DCap := (Cap Desktop DriverCall).
Definition desk_step (k : DCap) (t : DesktopEnv * DOp) : DCap := (@desk_op t.1 t.2 k).1.
Definition desk_run (ts : list (DesktopEnv * DOp)) (k : DCap) : DCap := foldl desk_step k ts.
Lemma desk_run_app a b k : desk_run (a ++ b) k = desk_run b (desk_run a k).
Proof. apply foldl_app. Qed.
