(* ===== verification/DesktopFrame.v ===== *)
(** * DesktopFrame: what most of the desktop's handlers leave alone

    The handlers that press keys, end sessions or give away monitors are few. For a relation that
    is kept by the steps of all the others ([Frame]: context calls, plain backend calls, updates
    that touch neither the input's session nor the virtual monitors, and the clipboard's offers and reads),
    every such handler keeps it; the invariants of the capability are instances. *)

From Stdlib Require Import ZArith Lia Strings.Byte String.
From stdpp Require Import base list strings relations.
From S2P Require Import Prelude Monad StdMap Json Blob Protocol Floats Consumer SessionState SessionOps Capability DesktopTables Desktop.

(** The fields a plain update leaves as they are. *)
Definition private (d : Desktop) : option string * bool * list (string * list (Z * unit)) := (input_session d, driver d, virtuals d).
Definition plain_call (c : DriverCall) : bool := match c with DKey _ _ | DButton _ _ | DReleaseAll | DDestroy _ | DClipRead _ _ _ _ => false | _ => true end.
Definition is_offer (c : CtxCall) : bool := match c with CEvent t _ => String.eqb t "clipboard-offer" | _ => false end.

Class Frame `{E : DesktopEnv} (R : relation DCap) := {
  fr_preorder :: PreOrder R;
  fr_update : forall f, (forall d, private (f d) = private d) -> respects R (update f);
  fr_dev : forall s c, plain_call c = true -> respects R (dev s c);
  fr_ctx : forall sid c, is_offer c = false -> respects R (ctx sid c);
  fr_offer : forall sid, respects R (offer sid);
  fr_read : forall sid msg, respects R (on_clipboard_read sid msg)
}.

Create HintDb frame.
Section Frame.
Context `{E : DesktopEnv} (R : relation DCap) `{F : !Frame R}.
Abbreviation keep m := (respects R m).
Lemma frame_self : keep self.
Proof. intros k. simpl. done. Qed.
Lemma frame_history : keep history.
Proof. intros k. simpl. done. Qed.
Lemma frame_send_blob sid b m : keep (ctx_send_blob sid b m).
Proof.
  unfold ctx_send_blob. apply respects_bind; [apply _ | apply frame_history|]. intros h. apply respects_bind; [apply _ | by apply fr_ctx|].
  intros _. apply respects_ret. apply _.
Qed.
End Frame.
#[export] Hint Resolve fr_offer fr_read frame_self frame_history frame_send_blob : frame.
#[export] Hint Extern 2 (respects _ (dev _ _)) => apply fr_dev; reflexivity : frame.
#[export] Hint Extern 2 (respects _ (ctx _ _)) => apply fr_ctx; reflexivity : frame.
Ltac framing :=
  repeat first
  [ solve [auto with frame] | solve [eauto 3 with frame typeclass_instances]
  | apply fr_update; solve [intros d; unfold set_source; repeat match goal with |- context [match ?x with _ => _ end] => destruct x end; done]
  | respects_step ].

Section Ops.
Context `{E : DesktopEnv} (R : relation DCap) `{F : !Frame R}.
Abbreviation keep m := (respects R m).

Lemma frame_to_sessions f : (forall sid, keep (f sid)) -> keep (to_sessions f).
Proof. intros Hf. unfold to_sessions. framing. Qed.
Lemma frame_reoffer : keep reoffer.
Proof. apply frame_to_sessions. intros sid. framing. Qed.
Hint Resolve frame_reoffer frame_to_sessions : frame.
Lemma frame_losing s c : keep (dev s c) -> keep (dev_losing s c).
Proof. intros Hc. unfold dev_losing. framing. Qed.
Hint Resolve frame_losing : frame.
Lemma frame_answer_adds l : keep (answer_adds l).
Proof. unfold answer_adds, answer_add. framing. Qed.
Lemma frame_capture m : keep (capture m).
Proof. unfold capture. framing. Qed.
Hint Resolve frame_answer_adds frame_capture : frame.
Lemma frame_any_of {A} (l : list A) f : (forall a, keep (f a)) -> keep (any_of l f).
Proof. intros Hf. induction l as [|a l IH]; simpl; framing. Qed.
Lemma frame_announce r : keep (announce r).
Proof. unfold announce. framing. Qed.
Hint Resolve frame_announce : frame.
Lemma frame_on_monitors l : keep (on_monitors l).
Proof. unfold on_monitors. framing; apply frame_any_of; intros; unfold drop_screen, place_screen; framing. Qed.
Lemma frame_resume : keep resume.
Proof. unfold resume, resume_one, tell_sharing. framing. Qed.
Lemma frame_send_shape sid : keep (send_shape sid).
Proof. unfold send_shape. framing. Qed.
Lemma frame_flush sid : keep (flush_position sid).
Proof. unfold flush_position. framing. Qed.
Lemma frame_view_only sid : keep (desk_view_only sid).
Proof. unfold desk_view_only. framing. Qed.
Lemma frame_fail sid r c m d : keep (fail sid r c m d).
Proof. unfold fail. framing. Qed.
Hint Resolve frame_on_monitors frame_resume frame_send_shape frame_flush frame_view_only frame_fail : frame.
Lemma frame_refuse sid msg c w : keep (refuse sid msg c w).
Proof. unfold refuse. framing. Qed.
Lemma frame_accept sid msg : keep (accept_ok sid msg).
Proof. unfold accept_ok. framing. Qed.
Lemma frame_try_write b : keep (try_write b).
Proof. unfold try_write. framing. Qed.
Lemma frame_expire : keep expire_incoming.
Proof. unfold expire_incoming. framing. Qed.
Lemma frame_keycode c : keep (keycode c).
Proof. unfold keycode. framing. Qed.
Hint Resolve frame_refuse frame_accept frame_try_write frame_expire frame_keycode : frame.
Lemma frame_combo l : keep (combo_keys l).
Proof. induction l as [|[] l IH]; simpl; framing. Qed.
Lemma frame_chunk sid c : keep (on_blob_chunk sid c).
Proof. unfold on_blob_chunk. framing. Qed.
Lemma frame_pointer sid p : keep (on_pointer sid p).
Proof. unfold on_pointer. framing. Qed.
Lemma frame_wheel sid p : keep (on_wheel sid p).
Proof. unfold on_wheel. framing. Qed.
Lemma frame_write sid msg : keep (on_clipboard_write sid msg).
Proof. unfold on_clipboard_write. framing. Qed.
Lemma frame_text sid msg : keep (on_text sid msg).
Proof. unfold on_text. framing. Qed.
Hint Resolve frame_combo frame_chunk frame_pointer frame_wheel frame_write frame_text : frame.
Lemma frame_combo_message sid msg : (forall c, keep (dev sid c)) -> keep (on_key_combo sid msg).
Proof. intros Hd. unfold on_key_combo. framing. Qed.
Lemma frame_button sid msg : (forall c, keep (dev sid c)) -> keep (on_button sid msg).
Proof. intros Hd. unfold on_button. framing. Qed.
Lemma frame_key sid msg : (forall c, keep (dev sid c)) -> keep (on_key sid msg).
Proof. intros Hd. unfold on_key. framing. Qed.

(** The turns that neither inject nor end anything. *)
Definition background (o : DOp) : bool :=
  match o with OpMessage _ _ | OpRelease _ | OpEnd _ | OpAddTimeout _ _ => false | _ => true end.
Lemma frame_background o : background o = true -> keep (desk_op o).
Proof.
  destruct o; try done; intros _; simpl;
    unfold session_attached, on_capture_lost, on_session_changed, on_clipboard_changed, read_done, write_done, on_cursor_shape, on_cursor_position,
      position_timer, tell_desktop, tell_sharing; framing; apply frame_to_sessions; intros; framing.
Qed.
End Ops.
#[export] Hint Resolve frame_to_sessions frame_reoffer frame_losing frame_answer_adds frame_on_monitors frame_resume frame_refuse frame_accept
  frame_view_only frame_fail frame_keycode frame_combo frame_chunk frame_pointer frame_wheel frame_write frame_text frame_combo_message frame_button frame_key : frame.
