(* ===== verification/DesktopProofs.v ===== *)
(** * DesktopProofs: whose input is on the desktop

    Every key and button the desktop holds down was pressed by the session whose input is on it
    now, in every run of the capability: another session's first input, its end, or control
    moving away releases them all before anything else. *)

From Stdlib Require Import ZArith Lia Strings.Byte String.
From stdpp Require Import base list strings relations.
From S2P Require Import Prelude Monad StdMap Json Blob Protocol Senders Floats Consumer SessionState SessionOps SessionLife SessionClose Capability DesktopTables Desktop DesktopFrame.

(** The invariant, with what is known of the input's session. *)
Record owned (Q : option string -> Prop) (k : DCap) : Prop := {
  o_held : Forall (fun p => input_session (st k) = Some p.1) (held (out k));
  o_driver : driver (st k) = false -> input_session (st k) = None;
  o_known : Q (input_session (st k))
}.
Definition presses (c : DriverCall) : bool := match c with DKey _ true | DButton _ true => true | _ => false end.

Lemma held_snoc h o : held (h ++ [o]) = hold (held h) o.
Proof. unfold held. by rewrite foldl_app. Qed.
Lemma release_one_sub x l p : In p (release_one x l) -> In p l.
Proof. unfold release_one. rewrite List.filter_In. naive_solver. Qed.
Lemma hold_plain l s c : presses c = false -> forall p, In p (hold l (ODev s c)) -> In p l.
Proof. destruct c as [| [] []| |? []| | | | | | | |]; simpl; try done; intros _ p; eauto using release_one_sub. Qed.
Lemma hold_press l s c : forall p, In p (hold l (ODev s c)) -> In p l \/ p.1 = s.
Proof.
  destruct c as [| b []| |code []| | | | | | | |]; simpl; try (by auto); intros p; rewrite ?in_app_iff; try (by eauto using release_one_sub);
    intros [?%release_one_sub | [<-|[]]]; auto.
Qed.

#[global] Instance owned_frame `{E : DesktopEnv} Q : Frame (keeps (owned Q)).
Proof.
  assert (forall sid c, respects (keeps (owned Q)) (ctx sid c)) as Hctx.
  { intros sid c. apply keeps_ctx. intros k [H1 H2 H3]. split; simpl; [by rewrite held_snoc | done | done]. }
  assert (forall s c, presses c = false -> respects (keeps (owned Q)) (dev s c)) as Hdev.
  { intros s c Hc k [H1 H2 H3]. split; simpl; [|done|done]. rewrite held_snoc, !List.Forall_forall in *. intros p Hp. apply H1. by eapply hold_plain. }
  split; [apply _| | |auto| |].
  - intros f Hf k [H1 H2 H3]. specialize (Hf (st k)). injection Hf as Ei Ed Ev. split; simpl; rewrite Ei; [done | by rewrite Ed | done].
  - intros s c Hc. apply Hdev. by destruct c.
  - intros sid. unfold offer, desk_view_only. repeat first [apply Hctx | apply keeps_self | respects_step].
  - intros sid msg. unfold on_clipboard_read, refuse, fail, desk_view_only. repeat first [apply Hctx | by apply Hdev | apply keeps_self | apply keeps_history | respects_step].
Qed.

Section Turns.
Context `{E : DesktopEnv}.
Definition any (_ : option string) : Prop := True.

(** Once a session has claimed the input, what it presses is its own. *)
Lemma press_owned sid c : respects (keeps (owned (eq (Some sid)))) (dev sid c).
Proof.
  intros k [H1 H2 H3]. split; simpl; [|done|done]. rewrite held_snoc, !List.Forall_forall in *. intros p [Hp| ->]%hold_press; auto.
Qed.
Hint Resolve press_owned : frame.
(** The virtual monitors do not matter here. *)
Lemma virtuals_owned Q sid f : respects (keeps (owned Q)) (update (upd_virtuals sid f)).
Proof. intros k [H1 H2 H3]. by split. Qed.
Lemma destroy_owned Q sid m : respects (keeps (owned Q)) (dev sid (DDestroy m)).
Proof. intros k [H1 H2 H3]. split; simpl; [by rewrite held_snoc | done | done]. Qed.
Hint Resolve virtuals_owned destroy_owned : frame.
Lemma remove_virtuals_owned Q sid : respects (keeps (owned Q)) (remove_virtuals sid).
Proof. unfold remove_virtuals. framing. intros k [H1 H2 H3]. by split. Qed.
Lemma remove_first_owned Q sid wire msg mine : respects (keeps (owned Q)) (remove_first sid wire msg mine).
Proof. induction mine as [|[m []] mine IH]; simpl; framing. Qed.
Hint Resolve remove_virtuals_owned remove_first_owned : frame.
Lemma inject_owned sid msg : respects (keeps (owned (eq (Some sid)))) (inject sid msg).
Proof. unfold inject, on_add_monitor, on_remove_monitor. framing. Qed.
Lemma claim_ok sid k : (claim_input sid k).2 = Ok tt.
Proof. unfold claim_input, when, bind. simpl. destruct (input_session (st k)) as [s|]; [|done]. by destruct (negb _). Qed.
Lemma claim_owned sid k : driver (st k) = true -> owned any k -> owned (eq (Some sid)) (claim_input sid k).1.
Proof.
  intros Hd [H1 H2 H3]. unfold claim_input, bind. simpl. destruct (input_session (st k)) as [s|] eqn:Ei.
  - destruct (String.eqb_spec s sid) as [->|]; simpl; (split; simpl; [|congruence|done]); [eapply Forall_impl; [exact H1|]; simpl; congruence | by rewrite held_snoc].
  - split; simpl; [|congruence|done]. eapply Forall_impl; [exact H1|]. simpl. congruence.
Qed.
Lemma release_owned Q sid : (forall o, Q o -> Q None) -> respects (keeps (owned Q)) (release_all_input sid).
Proof.
  intros HQ k [H1 H2 H3]. unfold release_all_input, bind. simpl. destruct (negb _ || _); [done|]. simpl.
  split; simpl; [by rewrite held_snoc | done | eauto].
Qed.
Lemma on_message_owned sid msg : respects (keeps (owned any)) (on_message sid msg).
Proof.
  intros k Hk. unfold on_message. unfold bind at 1. simpl. destruct (driver (st k)) eqn:Hd; simpl; [|exact (frame_refuse (keeps (owned any)) _ _ _ _ k Hk)].
  destruct (String.eqb (type_ msg) "resume-sharing"), (String.eqb (type_ msg) "clipboard-read"), (String.eqb (type_ msg) "release-all");
    try (apply (fr_read (R := keeps (owned any)) sid msg k Hk));
    try (assert (respects (keeps (owned any)) (resume ;; accept_ok sid msg)) as Hm by framing; exact (Hm k Hk)).
  - assert (respects (keeps (owned any)) (release_all_input sid ;; accept_ok sid msg)) as Hm; [|exact (Hm k Hk)].
    apply respects_bind; [apply _ | by apply release_owned | intros _; framing].
  - apply (claim_owned sid) in Hk; [|done]. unfold bind. destruct (claim_input sid k) as [k1 [[]|e]] eqn:Ec; [|by pose proof (claim_ok sid k) as Hok; rewrite Ec in Hok].
    pose proof (inject_owned sid msg k1 Hk) as [H1 H2 H3]. done.
Qed.
(** After its release a session owns nothing any more, and its end forgets it. *)
Lemma released sid k : owned any k -> owned (fun o => o <> Some sid) (swallow (release_all_input sid) k).1.
Proof.
  intros Hk. pose proof (release_owned any sid ltac:(done) k Hk) as Hk'. destruct Hk as [H1 H2 _], Hk' as [H1' H2' _].
  unfold swallow, catch in *. destruct (release_all_input sid k) as [k1 r] eqn:Er. assert (input_session (st k1) <> Some sid) as Hn.
  { unfold release_all_input, bind in Er. simpl in Er. destruct (driver (st k)); simpl in Er.
    - destruct (input_session (st k)) as [s|] eqn:Ei; simpl in Er; [destruct (String.eqb_spec s sid); simpl in Er|]; injection Er as <- <-; simpl; congruence.
    - injection Er as <- <-. rewrite H2 by done. done. }
  destruct r; done.
Qed.
Lemma detached_owned sid k : owned (fun o => o <> Some sid) k -> owned any (session_detached sid k).1.
Proof.
  intros Hk. unfold session_detached. assert (respects (keeps (owned (fun o => o <> Some sid)))
    (update (fun d => {| d with d_sessions := sm_erase sid (d_sessions d); pointer_seq := sm_erase sid (pointer_seq d); cursors := sm_erase sid (cursors d) |}) ;;
     remove_virtuals sid)) as Hm by framing.
  specialize (Hm k Hk). unfold bind in *. simpl in *. destruct (remove_virtuals sid _) as [k1 [[]|e]]; destruct Hm as [H1 H2 H3]; [|done].
  simpl in *. split; simpl; rewrite ?bool_decide_false by done; done.
Qed.
Lemma end_owned sid : respects (keeps (owned any)) (swallow (release_all_input sid) ;; swallow (session_detached sid)).
Proof.
  intros k Hk. apply (released sid) in Hk. unfold bind. destruct (swallow (release_all_input sid) k) as [k1 r] eqn:Er.
  assert (r = Ok tt) as ->; [unfold swallow, catch in Er; destruct (release_all_input sid k) as [? [[]|]]; by injection Er|].
  simpl in Hk. apply detached_owned in Hk. unfold swallow, catch. by destruct (session_detached sid k1) as [? []].
Qed.
Lemma desk_op_owned o : respects (keeps (owned any)) (desk_op o).
Proof.
  destruct (background o) eqn:Hb; [apply frame_background; [apply _ | done]|]. destruct o; try done; simpl;
    [apply on_message_owned | by apply release_owned | apply end_owned | unfold add_timeout; framing].
Qed.
End Turns.

Lemma desk_run_owned ts : forall k, owned any k -> owned any (desk_run ts k).
Proof. induction ts as [|[e o] ts IH]; intros k Hk; [done|]. apply IH. by apply (@desk_op_owned e o). Qed.

(** C4: In every run of the desktop capability, whatever its sessions send, whichever end and
    whatever the backend does, every key and button that is down was pressed by the session whose
    input is on the desktop; when there is none, nothing is down. *)
Theorem desktop_input_exclusive ts k : out k = [] -> input_session (st k) = None ->
  let k' := desk_run ts k in
  Forall (fun p => input_session (st k') = Some p.1) (held (out k')) /\ (input_session (st k') = None -> held (out k') = []).
Proof.
  intros Hout Hin. destruct (desk_run_owned ts k) as [H1 _ _]; [split; [by rewrite Hout | done | done]|].
  split; [done|]. intros Hn. rewrite Hn in H1. destruct (held _); [done | by inversion_clear H1].
Qed.

(** ** A backend for the witnesses: one monitor, everything works *)
Module DesktopDemo.
Definition screen1 : Monitor := {|
  m_id := 1; wire_id := "del-u24-1"; m_connector := "DP-1"; m_label := "U24"; m_primary := true; m_x := 0; m_y := 0; m_width := 1920; m_height := 1080;
  m_scale := of_Z 1; cursor_in_video := false |}.
Definition at_time (t : Z) : DesktopEnv := {|
  desk_ctx := {| ctx_throws _ _ _ := None; fresh_event _ := "e"; blob_name _ := "b"; clock _ := t |};
  granted sid := if String.eqb sid "viewer" then JObj [("view_only", JBool true)] else JObj [];
  random_bytes _ := repeat x00 16; imports := None;
  drv_features _ := {| local_cursor := true; virtual_monitors := true; desktop_audio := false |};
  drv_monitors _ := [screen1]; drv_clipboard _ := true; drv_start_capture _ := Some 1%nat; drv_lost _ := false; drv_create _ := (7, None);
  drv_type_text _ := ([], ""); src_available _ _ := true |}.
Definition start : DCap := {| st := {| new_desktop with driver := true |}; out := [] |}.
Definition message (t : string) (p : json) : Envelope := {| cap := CAP; type_ := t; event_id := "1"; kind := "request"; e_payload := p |}.
Definition press (code : string) : Envelope := message "key" (JObj [("code", JStr code); ("down", JBool true)]).
Definition turns (ops : list DOp) : list (DesktopEnv * DOp) := map (fun o => (at_time 0, o)) ops.
End DesktopDemo.
Import DesktopDemo.

Definition two_operators : list DOp := [OpAttach "a"; OpAttach "b"; OpMessage "a" (press "ShiftLeft"); OpMessage "b" (press "KeyA")].
Lemma desktop_input_exclusive_witness :
  held (out (desk_run (turns two_operators) start)) = [("b", HKey 30)]
  /\ Forall (fun p => input_session (st (desk_run (turns two_operators) start)) = Some p.1) (held (out (desk_run (turns two_operators) start))).
Proof.
  split; [vm_compute; reflexivity|].
  exact (proj1 (desktop_input_exclusive (turns two_operators) start eq_refl eq_refl)).
Defined.

(** ** What reaches the desktop *)
Definition injects (c : DriverCall) : bool :=
  match c with DMotion _ _ _ | DButton _ _ | DWheel _ _ | DKey _ _ | DTypeText _ | DClipWrite _ _ _ _ | DCreate _ _ | DDestroy _ => true | _ => false end.
Definition harmless (o : DOut) : Prop := match o with ODev _ c => injects c = false | OCtx _ _ => True end.

Section Inject.
Context `{E : DesktopEnv}.
Abbreviation silent m := (respects (emits harmless) m).
Lemma harmless_ctx sid c : silent (ctx sid c : Prog DCap unit).
Proof. by apply emits_ctx. Qed.
Lemma harmless_dev s c : injects c = false -> silent (dev s c : Prog DCap unit).
Proof. intros. by apply emits_put. Qed.
Hint Resolve harmless_ctx harmless_dev : frame.
Ltac quiet_desk := repeat first [solve [auto with frame] | cap_step].
Lemma to_sessions_silent f : (forall sid, silent (f sid)) -> silent (to_sessions f).
Proof. intros Hf. unfold to_sessions. quiet_desk. Qed.
Lemma reoffer_silent : silent reoffer.
Proof. apply to_sessions_silent. intros. quiet_desk. Qed.
Hint Resolve reoffer_silent : frame.
Lemma resume_silent : silent resume.
Proof.
  unfold resume, resume_one, dev_losing, capture. quiet_desk; apply to_sessions_silent; intros; unfold tell_sharing; quiet_desk.
Qed.
Hint Resolve resume_silent : frame.

Lemma inject_other sid msg : ~ In (type_ msg) desktop_inputs ->
  inject sid msg = refuse sid msg payload_invalid ("fjarr.desktop has no message '" +:+ type_ msg +:+ "'").
Proof.
  intros Hout. unfold inject. cbv zeta beta.
  by repeat match goal with |- context [String.eqb ?t ?b] => destruct (String.eqb_spec t b) as [Ht|_]; [destruct Hout; rewrite Ht; by apply mem_In|] end.
Qed.

(** C28: A message whose type is not one of the manifest's control inputs puts nothing on the
    desktop: no motion, no press, no typing, no paste, no monitor added or removed. With the
    session's gate, which lets the control inputs through for the holder only, nobody else can. *)
Theorem only_inputs_inject sid msg k : In (type_ msg) desktop_inputs \/ emits harmless k (on_message sid msg k).1.
Proof.
  destruct (in_dec String.string_dec (type_ msg) desktop_inputs) as [Hin|Hout]; [by left|right].
  assert (silent (on_message sid msg)) as Hm; [|apply Hm].
  unfold on_message. rewrite inject_other by done.
  unfold refuse, fail, accept_ok, release_all_input, on_clipboard_read, claim_input, desk_view_only, refuse, fail. quiet_desk.
Qed.
End Inject.

(** The gate checks the control inputs only, and the capability counts every message it does not
    know as input: a session that may only watch, with a message type that does not exist, makes
    the holder let go of everything, and is the session whose input is on the desktop after. *)
Section Viewer.
Context `{JT : JsonText} {D : Type} `{DC : DataChannel D} `{AM : Ambient} `{E : DesktopEnv}.
Theorem viewer_releases_holder sid s params msg k (w : World D) :
  driver (st k) = true -> input_session (st k) = Some s -> s <> sid ->
  ~ In (type_ msg) (["resume-sharing"; "clipboard-read"; "release-all"] ++ desktop_inputs) ->
  control_gate sid (manifest params) (Some msg) w = (w, Ok true)
  /\ let k' := (on_message sid msg k).1 in held (out k') = [] /\ input_session (st k') = Some sid.
Proof.
  intros Hd Hs Hne Hout. rewrite in_app_iff in Hout. apply Decidable.not_or in Hout as [Hcore Hout]. split.
  - unfold control_gate. cbn [control_domain manifest control_inputs]. change (String.eqb "desktop" "") with false.
    change (existsb (String.eqb (type_ msg)) desktop_inputs) with (mem (type_ msg) desktop_inputs).
    destruct (mem (type_ msg) desktop_inputs) eqn:Em; [by apply mem_In in Em | done].
  - unfold on_message, bind. simpl. rewrite Hd, inject_other by done. simpl.
    repeat match goal with |- context [String.eqb (type_ msg) ?b] => destruct (String.eqb_spec (type_ msg) b) as [Ht|_]; [destruct Hcore; rewrite Ht; by apply mem_In|] end.
    unfold claim_input, bind. simpl. rewrite Hs. destruct (String.eqb_spec s sid) as [|_]; [done|]. simpl. unfold refuse, when, fail, ctx, bind. simpl.
    assert (held (out k ++ [ODev sid DReleaseAll]) = []) as Hheld by by rewrite held_snoc.
    destruct (is_request msg); [|done]. destruct (ctx_throws _ _ _); [done|]. simpl. by rewrite held_snoc, Hheld.
Qed.
End Viewer.
Lemma viewer_releases_holder_witness :
  let k := desk_run (turns [OpAttach "a"; OpAttach "viewer"; OpMessage "a" (press "ShiftLeft")]) start in
  held (out k) = [("a", HKey 42)] /\ held (out (@on_message (at_time 0) "viewer" (message "nudge" (JObj [])) k).1) = [].
Proof.
  split; [vm_compute; reflexivity|].
  pose proof (@viewer_releases_holder Demo.no_text unit Demo.one_dc (Demo.ambient (fun _ _ => ([], None))) (at_time 0) "viewer" "a" (JObj [])
    (message "nudge" (JObj [])) (desk_run (turns [OpAttach "a"; OpAttach "viewer"; OpMessage "a" (press "ShiftLeft")]) start)
    (Demo.world_of Demo.live)) as H.
  apply H; [vm_compute; reflexivity | vm_compute; reflexivity | done |]. intros Hin%mem_In. by vm_compute in Hin.
Defined.
