(* ===== verification/DesktopMonitors.v ===== *)
(** * DesktopMonitors: virtual monitors and the monitor set

    A session's virtual monitors are destroyed when they leave its list, whatever throws on the
    way; at most two of them exist per session. A change of the monitor set leaves the captures
    of the monitors that stay alone. *)

From Stdlib Require Import ZArith Lia Strings.Byte String.
From stdpp Require Import base list strings relations.
From S2P Require Import Prelude Monad StdMap Json Blob Protocol Floats Consumer SessionState SessionOps Capability DesktopTables Desktop DesktopFrame DesktopProofs.
Import DesktopDemo.

(** ** Virtual monitors *)
Definition mine (sid : string) (k : DCap) : list (Z * unit) := default [] (sm_find sid (virtuals (st k))).
Definition owns (sid : string) (id : Z) (k : DCap) : Prop := sm_count id (mine sid k) = true.
Definition destroyed (id : Z) (h : list DOut) : Prop := exists s, In (ODev s (DDestroy id)) h.
Definition bounded (k : DCap) : Prop := forall sid, zlen (mine sid k) <= MAX_VIRTUAL_PER_SESSION.

(** Nothing happened to the virtual monitors. *)
Record vsame (k k' : DCap) : Prop := {
  vs_out : exists new, out k' = out k ++ new; vs_driver : driver (st k') = driver (st k); vs_virtuals : virtuals (st k') = virtuals (st k)
}.
(** What left a session's list was destroyed. *)
Record kept (k k' : DCap) : Prop := {
  kp_owns : exists new, out k' = out k ++ new /\ forall sid id, owns sid id k -> owns sid id k' \/ destroyed id new;
  kp_driver : driver (st k') = driver (st k);
  kp_bounded : bounded k -> bounded k'
}.
#[global] Instance vsame_preorder : PreOrder vsame.
Proof.
  split; [intros k; split; [exists []; by rewrite app_nil_r | done | done]|].
  intros a b c [[n1 E1] D1 V1] [[n2 E2] D2 V2]. split; [|congruence|congruence]. exists (n1 ++ n2). by rewrite E2, E1, app_assoc.
Qed.
Lemma destroyed_app id a b : destroyed id a \/ destroyed id b -> destroyed id (a ++ b).
Proof. intros [[s H]|[s H]]; exists s; apply in_or_app; auto. Qed.
#[global] Instance kept_preorder : PreOrder kept.
Proof.
  split; [intros k; split; [exists []; rewrite app_nil_r; auto | done | done]|].
  intros a b c [(n1 & E1 & O1) D1 B1] [(n2 & E2 & O2) D2 B2]. split; [|congruence|auto]. exists (n1 ++ n2). rewrite E2, E1, app_assoc. split; [done|].
  intros sid id [Hb|Hd]%O1; [apply O2 in Hb as [Hc|Hd]; [by left|]|]; right; apply destroyed_app; auto.
Qed.
Lemma vsame_mine sid k k' : vsame k k' -> mine sid k' = mine sid k.
Proof. intros [_ _ V]. unfold mine. by rewrite V. Qed.
Lemma vsame_kept k k' : vsame k k' -> kept k k'.
Proof.
  intros H. pose proof H as [[n E] D V]. split; [exists n; split; [done|]; intros sid id Ho; left | done|].
  - unfold owns in *. by rewrite (vsame_mine _ _ _ H).
  - intros Hb sid. rewrite (vsame_mine _ _ _ H). apply Hb.
Qed.

#[global] Instance vsame_frame `{E : DesktopEnv} : Frame vsame.
Proof.
  assert (forall o, respects vsame (put o)) as Hput by (intros o k; split; [by exists [o] | done | done]).
  assert (forall sid c, respects vsame (ctx sid c)) as Hctx.
  { intros sid c k. unfold ctx, bind. simpl. destruct (ctx_throws _ _ _); [done | apply Hput]. }
  assert (respects vsame self) as Hself by by intros k.
  assert (respects vsame history) as Hhist by by intros k.
  split; [apply _| |intros; apply Hput|auto| |].
  - intros f Hf k. specialize (Hf (st k)). injection Hf as Ei Ed Ev. split; simpl; [exists []; by rewrite app_nil_r | done | done].
  - intros sid. unfold offer, desk_view_only. repeat first [apply Hctx | apply Hself | respects_step].
  - intros sid msg. unfold on_clipboard_read, refuse, fail, desk_view_only, dev. repeat first [apply Hctx | apply Hput | apply Hself | apply Hhist | respects_step].
Qed.
Lemma respects_sub {S A} (R R' : relation S) (m : Prog S A) : (forall a b, R a b -> R' a b) -> respects R m -> respects R' m.
Proof. intros Hs Hm k. apply Hs, Hm. Qed.
#[global] Instance kept_frame `{E : DesktopEnv} : Frame kept.
Proof.
  split; [apply _|..]; intros; (eapply respects_sub; [apply vsame_kept|]);
    [by apply (fr_update (R := vsame)) | by apply (fr_dev (R := vsame)) | by apply (fr_ctx (R := vsame)) | apply fr_offer | apply fr_read]; apply _.
Qed.

Section Virtual.
Context `{E : DesktopEnv}.
Abbreviation keep m := (respects kept m).

Lemma dev_same s c : respects vsame (dev s c).
Proof. intros k. split; [by eexists | done | done]. Qed.
Hint Resolve dev_same : frame.
Lemma dev_kept s c : keep (dev s c).
Proof. eapply respects_sub; [apply vsame_kept | apply dev_same]. Qed.
Hint Resolve dev_kept : frame.

Lemma mine_upd sid sid' f d (o : list DOut) : mine sid' {| st := upd_virtuals sid f d; out := o |}
  = if bool_decide (sid' = sid) then f (default [] (sm_find sid (virtuals d))) else default [] (sm_find sid' (virtuals d)).
Proof. unfold mine, upd_virtuals. simpl. case_bool; subst; [by rewrite sm_find_set_eq | by rewrite sm_find_set_ne]. Qed.
Lemma touch_kept sid : keep (update (upd_virtuals sid id)).
Proof.
  intros k. unfold update, modify. cbn [fst].
  assert (forall s, mine s {| st := upd_virtuals sid id (st k); out := out k |} = mine s k) as Hm.
  { intros s. rewrite mine_upd. case_bool; by subst. }
  split; [exists []; rewrite app_nil_r; split; [done|]; intros; left; unfold owns in *; by rewrite Hm | done | intros Hb s; by rewrite Hm].
Qed.
(** Erasing and destroying go together. *)
Lemma erase_destroy_kept sid m k (g : Desktop -> Desktop) : (forall d, private (g d) = private d) ->
  kept k {| st := g (upd_virtuals sid (sm_erase m) (st k)); out := out k ++ [ODev sid (DDestroy m)] |}.
Proof.
  intros Hg. assert (forall s, mine s {| st := g (upd_virtuals sid (sm_erase m) (st k)); out := out k ++ [ODev sid (DDestroy m)] |}
    = if bool_decide (s = sid) then sm_erase m (mine sid k) else mine s k) as Hm.
  { intros s. rewrite <- (mine_upd sid s (sm_erase m) (st k) (out k ++ [ODev sid (DDestroy m)])). unfold mine. cbn [st].
    specialize (Hg (upd_virtuals sid (sm_erase m) (st k))). unfold private in Hg. congruence. }
  split; [| specialize (Hg (upd_virtuals sid (sm_erase m) (st k))); unfold private in Hg; simpl in *; congruence |].
  - eexists. split; [done|]. intros s id Ho. unfold owns in *. rewrite Hm. destruct (decide (id = m)) as [->|Hne].
    + right. exists sid. by left.
    + left. case_bool; [subst|done]. unfold sm_count in *. by rewrite sm_find_erase_ne.
  - intros Hb s. rewrite Hm. specialize (Hb s). case_bool; [subst|done]. pose proof (sm_erase_zlen m (mine sid k)). lia.
Qed.
Lemma remove_first_kept sid wire msg l : keep (remove_first sid wire msg l).
Proof.
  induction l as [|[m []] l IH]; simpl; [framing|]. apply respects_bind; [apply _ | framing|]. intros d. apply respects_bind; [apply _ | framing|].
  intros h. match goal with |- keep (if ?b then _ else _) => destruct b end; [|exact IH]. intros k.
  pose proof (erase_destroy_kept sid m k (fun d => {| d with pending_adds := sm_erase m (pending_adds d) |}) ltac:(done)) as Hk. etrans; [exact Hk|].
  assert (keep ((do h <- history; when (drv_lost h) reoffer) ;; accept_ok sid msg)) as Hr by framing. apply (Hr _).
Qed.
Lemma add_timeout_kept id sid k : driver (st k) = true -> kept k (add_timeout id sid k).1.
Proof.
  intros Hd. unfold add_timeout, bind at 1. simpl. rewrite Hd. destruct (sm_find id (pending_adds (st k))) as [pa|]; [|done].
  assert (keep (when (sm_count sid (d_sessions (st k))) (fail sid (pa_request pa) unavailable "the monitor did not appear within 5 s" JNull))) as Hf by framing.
  specialize (Hf k). unfold bind at 1. destruct (when _ _ k) as [k1 [[]|e]]; [|done]. etrans; [exact Hf|].
  etrans; [apply (erase_destroy_kept sid id k1 (fun d => d)); done|].
  assert (keep ((do h <- history; when (drv_lost h) reoffer) ;; update (fun d => {| d with pending_adds := sm_erase id (pending_adds d) |}))) as Hr by framing.
  apply (Hr _).
Qed.
Definition destroy_one (sid : string) (drv : bool) (mu : Z * unit) : Prog DCap unit :=
  update (fun d => {| d with pending_adds := sm_erase mu.1 (pending_adds d) |}) ;; when drv (dev_losing sid (DDestroy mu.1)).
Lemma destroy_one_same sid drv mu : respects vsame (destroy_one sid drv mu).
Proof. unfold destroy_one. framing. Qed.
Lemma destroy_one_logs sid mu k k' : destroy_one sid true mu k = (k', Ok tt) -> exists n, out k' = out k ++ n /\ destroyed mu.1 n.
Proof.
  intros Hk. assert (respects vsame (do h <- history; when (drv_lost h) reoffer)) as Hr by framing.
  specialize (Hr {| st := {| (st k) with pending_adds := sm_erase mu.1 (pending_adds (st k)) |}; out := out k ++ [ODev sid (DDestroy mu.1)] |}).
  unfold destroy_one, dev_losing, bind at 1 in Hk. simpl in Hk. change (bind history (fun h => when (drv_lost h) reoffer)) with (do h <- history; when (drv_lost h) reoffer) in Hk.
  destruct Hr as [[n E1] _ _]. unfold bind in *. simpl in *. rewrite Hk in E1. simpl in E1. rewrite <- app_assoc in E1. exists ([ODev sid (DDestroy mu.1)] ++ n).
  split; [done|]. exists sid. by left.
Qed.
Lemma remove_virtuals_kept sid k : driver (st k) = true -> kept k (remove_virtuals sid k).1.
Proof.
  intros Hd. unfold remove_virtuals, bind at 1. simpl. rewrite Hd. destruct (sm_find sid (virtuals (st k))) as [v|] eqn:Ev; [|done].
  match goal with |- context [for_each v ?f] => change f with (destroy_one sid true) end.
  pose proof (respects_for_each vsame v (destroy_one sid true) (fun a _ => destroy_one_same sid true a) k) as Hs.
  unfold bind. destruct (for_each v (destroy_one sid true) k) as [k1 [[]|e]] eqn:Ef; [|exact (vsame_kept _ _ Hs)].
  simpl in Hs. pose proof Hs as [[n E1] D1 V1].
  assert (forall s, mine s {| st := {| (st k1) with virtuals := sm_erase sid (virtuals (st k1)) |}; out := out k1 |} = if bool_decide (s = sid) then [] else mine s k) as Hm.
  { intros s. unfold mine. simpl. rewrite V1. case_bool; [subst; by rewrite sm_find_erase_eq | by rewrite sm_find_erase_ne]. }
  split; cbn [fst update modify]; [|done|].
  - exists n. split; [done|]. intros s id Ho. unfold owns in *. rewrite Hm. case_bool; [subst; right | by left].
    unfold mine in Ho. rewrite Ev in Ho. unfold sm_count in Ho. simpl in Ho. destruct (sm_find id v) as [[]|] eqn:Ei; [|done]. apply sm_find_In in Ei.
    destruct (for_each_visits vsame v _ (destroy_one_same sid true) _ _ Ef _ Ei) as (x & y & [[n1 Ex] _ _] & Hxy & [[n3 Ey] _ _]).
    destruct (destroy_one_logs _ _ _ _ Hxy) as (n2 & E2 & Hd2). rewrite Ey, E2, Ex, <- !app_assoc in E1. apply app_inv_head in E1. rewrite <- E1.
    apply destroyed_app. right. apply destroyed_app. by left.
  - intros Hb s. rewrite Hm. case_bool; [done | apply Hb].
Qed.
Lemma on_add_monitor_kept sid msg : keep (on_add_monitor sid msg).
Proof.
  unfold on_add_monitor. apply respects_bind; [apply _ | framing|]. intros w. apply respects_bind; [apply _ | framing|]. intros hh.
  destruct (negb _ || _); [framing|]. apply respects_bind; [apply _ | framing|]. intros h. destruct (negb _); [framing|].
  apply respects_bind; [apply _ | apply touch_kept|]. intros _. intros k. unfold bind at 1. simpl.
  change (MAX_VIRTUAL_PER_SESSION <=? zlen (default [] (sm_find sid (virtuals (st k))))) with (MAX_VIRTUAL_PER_SESSION <=? zlen (mine sid k)).
  destruct (Z.leb_spec MAX_VIRTUAL_PER_SESSION (zlen (mine sid k))) as [Hl|Hl]; [exact (frame_refuse kept _ _ _ _ k)|].
  set (k1 := {| k with out := out k ++ [ODev sid (DCreate w hh)] |}). assert (vsame k k1) as H1 by (split; [by eexists | done | done]).
  unfold bind at 1 2. cbn [dev put modify history]. fold k1. destruct (drv_create (out k1)) as [id layout].
  assert (respects vsame (match layout with Some m => on_monitors m | None => ret tt end)) as Hl1 by framing.
  specialize (Hl1 k1). unfold bind at 1. destruct (match layout with Some m => on_monitors m | None => ret tt end k1) as [k2 [[]|e]];
    [|apply vsame_kept; by etrans]. simpl in Hl1. assert (vsame k k2) as H2 by by etrans.
  destruct (id =? INVALID_MONITOR); [etrans; [apply vsame_kept; exact H2 | exact (frame_refuse kept _ _ _ _ k2)]|].
  etrans; [apply vsame_kept; exact H2|]. rewrite <- (vsame_mine sid _ _ H2) in Hl.
  assert (forall s, mine s {| st := upd_virtuals sid (sm_set id tt) (st k2); out := out k2 |} = if bool_decide (s = sid) then sm_set id tt (mine sid k2) else mine s k2) as Hm
    by (intros s; apply mine_upd).
  assert (kept k2 {| st := upd_virtuals sid (sm_set id tt) (st k2); out := out k2 |}) as H3.
  { split; [exists []; rewrite app_nil_r; split; [done|]; intros s i Ho; left | done |].
    - unfold owns in *. rewrite Hm. case_bool; [subst|done]. unfold sm_count in *.
      destruct (decide (i = id)) as [->|]; [by rewrite sm_find_set_eq | by rewrite sm_find_set_ne].
    - intros Hb s. rewrite Hm. case_bool; [|apply Hb]. pose proof (sm_set_zlen id tt (mine sid k2)). unfold MAX_VIRTUAL_PER_SESSION in *. lia. }
  etrans; [exact H3|].
  assert (keep (update (fun d => {| d with pending_adds := sm_set id {| pa_session := sid; pa_request := msg |} (pending_adds d) |}) ;;
    do h <- history; answer_adds (drv_monitors h))) as Hr by framing. apply (Hr _).
Qed.
Hint Resolve remove_first_kept touch_kept on_add_monitor_kept : frame.
Lemma plain_update_kept (f : Desktop -> Desktop) :
  (forall d, driver (f d) = driver d /\ virtuals (f d) = virtuals d) -> keep (update f).
Proof.
  intros Hf. eapply respects_sub; [apply vsame_kept|]. intros k. destruct (Hf (st k)) as [Ed Ev]. split; simpl; [exists []; by rewrite app_nil_r | done | done].
Qed.
Hint Extern 3 (respects kept (update _)) => apply plain_update_kept; intros; split; reflexivity : frame.
Lemma on_message_kept sid msg : keep (on_message sid msg).
Proof.
  unfold on_message. apply respects_bind; [apply _ | framing|]. intros d. destruct (negb _); [framing|].
  destruct (String.eqb _ _); [framing|]. destruct (String.eqb _ _); [framing|].
  destruct (String.eqb _ _); [unfold release_all_input; framing|]. apply respects_bind; [apply _ | unfold claim_input; framing|]. intros _.
  unfold inject, on_remove_monitor. framing.
Qed.
Lemma detached_kept sid k : driver (st k) = true -> kept k (session_detached sid k).1.
Proof.
  intros Hd. unfold session_detached, bind at 1. cbn [update modify].
  set (k1 := {| st := _; out := out k |}). assert (kept k k1) as H1 by (apply vsame_kept; split; [exists []; by rewrite app_nil_r | done | done]).
  etrans; [exact H1|]. pose proof (remove_virtuals_kept sid k1 Hd) as H2. unfold bind. destruct (remove_virtuals sid k1) as [k2 [[]|e]]; [|done].
  etrans; [exact H2|]. apply (plain_update_kept (fun d => {| d with
    incoming := sm_filter (fun _ i => negb (String.eqb (in_session i) sid)) (incoming d);
    input_session := if bool_decide (input_session d = Some sid) then None else input_session d |})). done.
Qed.
Lemma swallow_kept m k : kept k (m k).1 -> kept k (swallow m k).1.
Proof. unfold swallow, catch. by destruct (m k) as [k1 []]. Qed.
Lemma desk_op_kept o k : driver (st k) = true -> kept k (desk_op o k).1.
Proof.
  intros Hd. destruct (background o) eqn:Hb; [exact (frame_background kept o Hb k)|]. destruct o as [| sid msg| |sid|sid|l| | | | | | | | |id sid|]; try done; simpl.
  - apply on_message_kept.
  - assert (keep (release_all_input sid)) as Hr by (unfold release_all_input; framing). apply Hr.
  - assert (keep (swallow (release_all_input sid))) as Hr by (unfold release_all_input; framing). specialize (Hr k). unfold bind.
    destruct (swallow (release_all_input sid) k) as [k1 [[]|e]]; [|done]. etrans; [exact Hr|]. destruct Hr as [_ Hd1 _]. simpl in Hd1.
    apply swallow_kept, detached_kept. congruence.
  - by apply add_timeout_kept.
Qed.
End Virtual.

Lemma desk_run_kept ts : forall k, driver (st k) = true -> kept k (desk_run ts k).
Proof.
  induction ts as [|[e o] ts IH]; intros k Hd; [done|]. pose proof (@desk_op_kept e o k Hd) as Hk. etrans; [exact Hk|]. apply IH.
  destruct Hk as [_ Hd' _]. unfold desk_step. simpl. congruence.
Qed.
(** In every run a session has at most two virtual monitors, and a virtual monitor a session
    has leaves its list only with its destruction on the desktop: by request, by the time-out, or
    with the session, whatever throws on the way. None is forgotten. *)
Theorem virtual_monitors_accounted ts1 ts2 k : driver (st k) = true -> virtuals (st k) = [] ->
  let k1 := desk_run ts1 k in let k2 := desk_run ts2 k1 in
  (forall sid, zlen (mine sid k2) <= 2)
  /\ exists new, out k2 = out k1 ++ new /\ forall sid id, owns sid id k1 -> owns sid id k2 \/ destroyed id new.
Proof.
  intros Hd Hv k1 k2. destruct (desk_run_kept ts1 k Hd) as [_ Hd1 Hb1]. destruct (desk_run_kept ts2 k1) as [Ho _ Hb2]; [unfold k1; congruence|].
  split; [|done]. apply Hb2, Hb1. intros sid. unfold mine. by rewrite Hv.
Qed.
Definition add : Envelope := message "add-monitor" (JObj [("height", JUint 600); ("width", JUint 800)]).
Lemma virtual_monitors_accounted_witness :
  let k1 := desk_run (turns [OpAttach "a"; OpMessage "a" add]) start in let k2 := desk_run (turns [OpEnd "a"]) k1 in
  owns "a" 7 k1 /\ mine "a" k2 = [] /\ exists new, out k2 = out k1 ++ new /\ forall sid id, owns sid id k1 -> owns sid id k2 \/ destroyed id new.
Proof.
  split_and!; [vm_compute; reflexivity | vm_compute; reflexivity|].
  exact (proj2 (virtual_monitors_accounted (turns [OpAttach "a"; OpMessage "a" add]) (turns [OpEnd "a"]) start eq_refl eq_refl)).
Defined.

(** ** The monitor set *)
Section MonitorSet.
Context `{E : DesktopEnv} (calm : forall h sid c, ctx_throws (CtxEnv := desk_ctx) h sid c = None).

(** Only adds to the history, and cannot fail. *)
Definition logs (P : DOut -> Prop) (m : Prog DCap unit) : Prop :=
  forall k, exists new, m k = ({| k with out := out k ++ new |}, Ok tt) /\ Forall P new.
Definition told (o : DOut) : Prop := exists sid c, o = OCtx sid c.
Definition retracked (o : DOut) : Prop := exists sid l, o = OCtx sid (CUpdateTracks l).
Lemma logs_ret P : logs P (ret tt).
Proof. intros [s o]. exists []. by rewrite app_nil_r. Qed.
Lemma logs_bind P (m n : Prog DCap unit) : logs P m -> logs P n -> logs P (m ;; n).
Proof.
  intros Hm Hn k. destruct (Hm k) as (n1 & E1 & F1), (Hn {| k with out := out k ++ n1 |}) as (n2 & E2 & F2). exists (n1 ++ n2).
  unfold bind. rewrite E1, E2. cbn [out st]. rewrite app_assoc. split; [done | by apply Forall_app].
Qed.
Lemma logs_for_each {A} P (l : list A) f : (forall a, logs P (f a)) -> logs P (for_each l f).
Proof. intros Hf. induction l as [|a l IH]; [apply logs_ret | by apply logs_bind]. Qed.
Lemma logs_ctx (P : DOut -> Prop) sid c : P (OCtx sid c) -> logs P (ctx sid c).
Proof. intros Hp k. exists [OCtx sid c]. unfold ctx, bind. simpl. rewrite calm. split; [done | by constructor]. Qed.
Lemma logs_reoffer : logs retracked reoffer.
Proof.
  intros k. pose proof (logs_for_each retracked (d_sessions (st k)) (fun kv => do d <- self; do h <- history; ctx kv.1 (CUpdateTracks (specs h d true)))) as H.
  destruct (H (fun kv => ltac:(intros k'; apply (logs_ctx retracked kv.1 (CUpdateTracks (specs (out k') (st k') true))); by repeat eexists)) k) as (new & Eq & F).
  by exists new.
Qed.

Definition dropped (present : list string) (l : list (string * Screen)) (o : DOut) : Prop :=
  retracked o \/ exists kv, In kv l /\ ~ In kv.1 present /\ o = ODev "" (DStop (m_id (sc_monitor kv.2))).
Definition drop_one (w : string) (d : Desktop) : Desktop := {| d with stopped := sm_erase w (stopped d); screens := sm_erase w (screens d) |}.
Definition drop_all (present : list string) (l : list (string * Screen)) (d : Desktop) : Desktop :=
  foldl (fun d kv => if mem kv.1 present then d else drop_one kv.1 d) d l.
Lemma drop_screen_spec present kv k : mem kv.1 present = false -> exists n,
  drop_screen present kv k = ({| st := drop_one kv.1 (st k); out := out k ++ [ODev "" (DStop (m_id (sc_monitor kv.2)))] ++ n |}, Ok true) /\ Forall retracked n.
Proof.
  intros Hm. unfold drop_screen. rewrite Hm. unfold dev_losing, bind, update, dev, put, modify, history, when. cbn [st out].
  set (k1 := {| st := _; out := _ |}). destruct (drv_lost _).
  - destruct (logs_reoffer k1) as (n & -> & Hn). exists n. split; [|done]. unfold k1. cbn [st out]. by rewrite <- app_assoc.
  - by exists [].
Qed.
Lemma drop_loop present l : forall k, exists b new, any_of l (drop_screen present) k = ({| st := drop_all present l (st k); out := out k ++ new |}, Ok b)
  /\ Forall (dropped present l) new /\ forall kv, In kv l -> ~ In kv.1 present -> In (ODev "" (DStop (m_id (sc_monitor kv.2)))) new.
Proof.
  induction l as [|kv l IH]; intros k; [exists false, []; simpl; rewrite app_nil_r; by destruct k|].
  assert (forall o, dropped present l o -> dropped present (kv :: l) o) as Hsub.
  { intros o [Hr|(x & Hx & Hn & ->)]; [by left | right; exists x; split_and!; [by right | done | done]]. }
  cbn [any_of]. unfold bind at 1. destruct (mem kv.1 present) eqn:Em.
  - unfold drop_screen at 1. rewrite Em. destruct (IH k) as (b & new & Eq & F & G). exists b, new. unfold bind. simpl. rewrite Eq, Em.
    split_and!; [done | by eapply Forall_impl|]. intros x [<-|Hx] Hn; [by apply mem_In in Em | auto].
  - assert (~ In kv.1 present) as Hn by by rewrite <- mem_In, Em.
    destruct (drop_screen_spec present kv k Em) as (n & -> & Fn). set (k2 := {| st := _; out := _ |}).
    destruct (IH k2) as (b & new & Eq & F & G). exists true, ([ODev "" (DStop (m_id (sc_monitor kv.2)))] ++ n ++ new). split_and!.
    + unfold bind. rewrite Eq. unfold k2. simpl. rewrite Em. by rewrite <- app_assoc.
    + apply Forall_app. split; [constructor; [|constructor]; right; exists kv; split_and!; [by left | done | done]|].
      apply Forall_app. split; [eapply Forall_impl; [exact Fn|]; intros o Ho; by left | by eapply Forall_impl].
    + intros x [<-|Hx] Hnx; [by left|]. apply in_or_app. right. apply in_or_app. right. auto.
Qed.
Lemma drop_all_find present l : forall d w, sm_find w (screens (drop_all present l d))
  = if existsb (fun kv => String.eqb kv.1 w && negb (mem kv.1 present)) l then None else sm_find w (screens d).
Proof.
  induction l as [|kv l IH]; intros d w; [done|]. simpl. fold (drop_all present l). rewrite IH. destruct (mem kv.1 present); simpl; [by rewrite andb_false_r|].
  rewrite andb_true_r. destruct (existsb _ l); [by rewrite orb_true_r|]. rewrite orb_false_r. case_bool; [subst; by rewrite sm_find_erase_eq | by rewrite sm_find_erase_ne].
Qed.
Lemma drop_all_rest present l : forall d, d_sessions (drop_all present l d) = d_sessions d /\ had_monitors (drop_all present l d) = had_monitors d.
Proof. induction l as [|kv l IH]; intros d; [done|]. simpl. destruct (IH (if mem kv.1 present then d else drop_one kv.1 d)) as [-> ->]. by destruct (mem _ _). Qed.

Definition started (l : list Monitor) (d : Desktop) (o : DOut) : Prop :=
  exists m opts, o = ODev "" (DStart (m_id m) opts) /\ In m l /\ sm_find (wire_id m) (screens d) = None.
Definition moved (l : list Monitor) (w : string) (sc sc' : Screen) : Prop :=
  sc_source sc' = sc_source sc /\ (sc' = sc /\ ~ In w (map wire_id l) \/ In (sc_monitor sc') l /\ wire_id (sc_monitor sc') = w).
Lemma place_screen_spec m k : exists b src new,
  place_screen m k = ({| st := {| (st k) with screens := sm_set (wire_id m) {| sc_monitor := m; sc_source := src |} (screens (st k)) |}; out := out k ++ new |}, Ok b)
  /\ match sm_find (wire_id m) (screens (st k)) with Some sc => src = sc_source sc /\ new = [] | None => Forall (started [m] (st k)) new end.
Proof.
  unfold place_screen, bind at 1. simpl. destruct (sm_find (wire_id m) (screens (st k))) as [sc|] eqn:Ef.
  - exists false, (sc_source sc), []. by rewrite app_nil_r.
  - unfold capture, bind. simpl. destruct (match imports with Some i => i | None => _ end) as [dmabuf enc]. simpl.
    eexists true, _, [_]. split; [done|]. constructor; [|constructor]. eexists m, _. split_and!; [done | by left | done].
Qed.
Lemma place_loop l : forall k, exists b k', any_of l place_screen k = (k', Ok b)
  /\ (forall w, is_Some (sm_find w (screens (st k'))) <-> is_Some (sm_find w (screens (st k))) \/ In w (map wire_id l))
  /\ (forall w sc, sm_find w (screens (st k)) = Some sc -> exists sc', sm_find w (screens (st k')) = Some sc' /\ moved l w sc sc')
  /\ d_sessions (st k') = d_sessions (st k) /\ exists new, out k' = out k ++ new /\ Forall (started l (st k)) new.
Proof.
  induction l as [|m l IH]; intros k.
  { exists false, k. split_and!; try done; [naive_solver | | exists []; by rewrite app_nil_r]. intros w sc Hw. exists sc. split; [done|]. split; [done|]. left. split; [done | by intros []]. }
  cbn [any_of]. unfold bind at 1. destruct (place_screen_spec m k) as (b & src & new & -> & Hsrc). set (k1 := {| st := _; out := _ |}).
  destruct (IH k1) as (b' & k' & Eq & Hdom & Hmv & Hs & n' & En & Fn). exists (b || b'), k'. unfold bind. rewrite Eq.
  assert (forall w, is_Some (sm_find w (screens (st k1))) <-> w = wire_id m \/ is_Some (sm_find w (screens (st k)))) as Hk1.
  { intros w. unfold k1. simpl. destruct (decide (w = wire_id m)) as [->|]; [rewrite sm_find_set_eq; naive_solver | rewrite sm_find_set_ne by done; naive_solver]. }
  split_and!; [done | | | done |].
  - intros w. rewrite Hdom, Hk1. simpl. naive_solver.
  - intros w sc Hw. destruct (decide (w = wire_id m)) as [->|Hne].
    + rewrite Hw in Hsrc. destruct Hsrc as [-> _]. destruct (Hmv (wire_id m) {| sc_monitor := m; sc_source := sc_source sc |}) as (sc' & Hf & H1 & H2).
      { unfold k1. simpl. apply sm_find_set_eq. }
      exists sc'. split; [done|]. split; [done|]. right. destruct H2 as [[-> _]|[H2 H3]]; simpl; [split; [by left | done] | split; [by right | done]].
    + destruct (Hmv w sc) as (sc' & Hf & H1 & H2); [unfold k1; simpl; by rewrite sm_find_set_ne|]. exists sc'. split; [done|]. split; [done|].
      destruct H2 as [[-> Hn]|[H2 H3]]; [left; simpl; naive_solver | right; split; [by right | done]].
  - exists (new ++ n'). rewrite En. unfold k1 at 1. simpl. rewrite app_assoc. split; [done|]. apply Forall_app. split.
    + destruct (sm_find (wire_id m) (screens (st k))); [destruct Hsrc as [_ ->]; constructor|]. eapply Forall_impl; [exact Hsrc|].
      intros o (x & opts & -> & [<-|[]] & Hx). exists m, opts. split_and!; [done | by left | done].
    + eapply Forall_impl; [exact Fn|]. intros o (x & opts & -> & Hx & Hf). exists x, opts. split_and!; [done | by right|].
      destruct (sm_find (wire_id x) (screens (st k))) eqn:Ex; [|done]. assert (is_Some (sm_find (wire_id x) (screens (st k1)))) as [? ?]; [|congruence].
      apply Hk1. right. by rewrite Ex.
Qed.
Lemma drop_keeps ids d w : In w ids -> sm_find w (screens (drop_all ids (screens d) d)) = sm_find w (screens d).
Proof.
  intros Hw. rewrite drop_all_find. destruct (existsb _ _) eqn:Ex; [|done]. apply existsb_exists in Ex as (kv & _ & [->%String.eqb_eq Hm]%andb_prop).
  apply mem_In in Hw. by rewrite Hw in Hm.
Qed.
Lemma drop_removes ids d w : ~ In w ids -> sm_find w (screens (drop_all ids (screens d) d)) = None.
Proof.
  intros Hw. rewrite drop_all_find. destruct (sm_find w (screens d)) as [sc|] eqn:Ef; [|by destruct (existsb _ _)].
  assert (existsb (fun kv => String.eqb kv.1 w && negb (mem kv.1 ids)) (screens d) = true) as ->; [|done]. apply existsb_exists. exists (w, sc).
  split; [by apply sm_find_In|]. simpl. rewrite String.eqb_refl. destruct (mem w ids) eqn:Em; [by apply mem_In in Em | done].
Qed.

(** After the loops the screens stay, and only sessions hear of it. *)
Record after (k k' : DCap) : Prop := { af_screens : screens (st k') = screens (st k); af_out : emits told k k' }.
#[local] Instance after_preorder : PreOrder after.
Proof. split; [intros k; split; [done | reflexivity] | intros a b c [S1 O1] [S2 O2]; split; [congruence | by etrans]]. Qed.
Lemma after_ctx sid c : respects after (ctx sid c).
Proof.
  intros k. split; [|apply emits_ctx; by repeat eexists]. unfold ctx, bind. simpl. by destruct (ctx_throws _ _ _).
Qed.
Lemma after_update f : (forall d, screens (f d) = screens d) -> respects after (update f).
Proof. intros Hf k. split; [apply Hf | apply emits_update]. Qed.
Lemma after_self : respects after self.
Proof. intros k. done. Qed.
Lemma after_history : respects after history.
Proof. intros k. done. Qed.
Ltac after_step := repeat first [apply after_ctx | apply after_self | apply after_history | apply after_update; done | respects_step].
Lemma announce_tells r k : exists k1, announce r k = (k1, Ok tt) /\ forall kv, In kv (d_sessions (st k)) -> exists p, In (OCtx kv.1 (CEvent "monitors" p)) (drop (length (out k)) (out k1)).
Proof.
  unfold announce, to_sessions, bind. simpl. set (p := jobj _). pose proof (logs_for_each told (d_sessions (st k)) (fun kv => ctx kv.1 (CEvent "monitors" p))) as H.
  destruct (H (fun kv => logs_ctx told kv.1 _ ltac:(by repeat eexists)) k) as (new & Eq & _). eexists. split; [exact Eq|]. intros kv Hkv. exists p. simpl. rewrite drop_app_length.
  destruct (for_each_visits after (d_sessions (st k)) (fun kv => ctx kv.1 (CEvent "monitors" p)) (fun kv => after_ctx _ _) _ _ Eq kv Hkv)
    as (x & y & [_ (n1 & E1 & _)] & Exy & [_ (n3 & E3 & _)]). unfold ctx, bind in Exy. simpl in *. rewrite calm in Exy. injection Exy as <-. simpl in E3.
  rewrite E1, <- !app_assoc in E3. apply app_inv_head in E3. rewrite E3. apply in_or_app. right. by left.
Qed.

(** The phases of a report: drop, place, tell. *)
Lemma on_monitors_phases l k : let ids := map wire_id l in
  exists n1 k2 n3, let k1 := {| st := drop_all ids (screens (st k)) (st k); out := out k ++ n1 |} in
  (Forall (dropped ids (screens (st k))) n1 /\ forall kv, In kv (screens (st k)) -> ~ In kv.1 ids -> In (ODev "" (DStop (m_id (sc_monitor kv.2)))) n1)
  /\ (exists b, any_of l place_screen k1 = (k2, Ok b))
  /\ screens (st (on_monitors l k).1) = screens (st k2) /\ out (on_monitors l k).1 = out k2 ++ n3 /\ Forall told n3
  /\ forall kv, In kv (d_sessions (st k2)) -> exists p, In (OCtx kv.1 (CEvent "monitors" p)) n3.
Proof.
  intros ids. destruct (drop_loop ids (screens (st k)) k) as (b1 & n1 & E1 & F1 & G1). set (k1 := {| st := _; out := _ |}) in E1.
  destruct (place_loop l k1) as (b2 & k2 & E2 & _).
  destruct (announce_tells (if negb (had_monitors (st k)) then "initial" else if b1 || b2 then "hotplug" else "mode-change") k2) as (k3 & E3 & T3).
  assert (forall r, respects after (announce r)) as Ha by (intros r; unfold announce, to_sessions; after_step). 
  match type of E3 with announce ?r k2 = _ => specialize (Ha r k2) end. rewrite E3 in Ha.
  assert (respects after (update (fun d => {| d with had_monitors := had_monitors d || negb (no_keys l) |}) ;; reoffer ;; answer_adds l)) as Hr
    by (unfold reoffer, to_sessions, answer_adds, answer_add; after_step).
  specialize (Hr k3). assert ((on_monitors l k).1 = ((update (fun d => {| d with had_monitors := had_monitors d || negb (no_keys l) |}) ;; reoffer ;; answer_adds l) k3).1) as ->.
  { unfold on_monitors. unfold bind at 1. cbn [self]. unfold bind at 1. fold ids. rewrite E1. unfold bind at 1. rewrite E2. unfold bind at 1. by rewrite E3. }
  destruct Ha as [S3 (n3 & En3 & F3)], Hr as [S4 (n4 & En4 & F4)]. cbn [fst] in *. exists n1, k2, (n3 ++ n4). split_and!; [done | done | by exists b2 | congruence | | by apply List.Forall_app|].
  - by rewrite En4, En3, app_assoc.
  - intros kv Hkv. destruct (T3 kv Hkv) as (p & Hp). exists p. rewrite En3, drop_app_length in Hp. apply in_or_app. by left.
Qed.

(** The screens follow the reported monitors: a monitor that is gone has its capture stopped,
    one that came is captured, and one that stays keeps its capture, with its new geometry;
    nothing else is started or stopped, and every session hears of the new set. *)
Theorem monitor_set_followed l k : let k' := (on_monitors l k).1 in let ids := map wire_id l in
  exists new, out k' = out k ++ new
  /\ (forall w, is_Some (sm_find w (screens (st k'))) <-> In w ids)
  /\ (forall w sc, sm_find w (screens (st k)) = Some sc -> In w ids ->
        exists m, In m l /\ wire_id m = w /\ sm_find w (screens (st k')) = Some {| sc_monitor := m; sc_source := sc_source sc |})
  /\ (forall x, In (ODev "" (DStop x)) new <-> exists w sc, In (w, sc) (screens (st k)) /\ ~ In w ids /\ x = m_id (sc_monitor sc))
  /\ (forall x o, In (ODev "" (DStart x o)) new -> exists m, In m l /\ x = m_id m /\ sm_find (wire_id m) (screens (st k)) = None)
  /\ (forall kv, In kv (d_sessions (st k)) -> exists p, In (OCtx kv.1 (CEvent "monitors" p)) new).
Proof.
  intros k' ids. destruct (on_monitors_phases l k) as (n1 & k2 & n3 & [F1 G1] & [b2 E2] & S3 & En3 & F3 & T3). fold ids in F1, G1, E2.
  set (k1 := {| st := _; out := _ |}) in E2. destruct (place_loop l k1) as (b2' & k2' & E2' & Hdom & Hmv & Hs & n2 & En2 & F2).
  rewrite E2 in E2'. injection E2' as <- <-. fold k' in S3, En3. rewrite List.Forall_forall in F1, F2, F3.
  exists (n1 ++ n2 ++ n3). rewrite S3. split_and!; [rewrite En3, En2; unfold k1; cbn [out]; by rewrite <- !app_assoc|..].
  - intros w. rewrite Hdom. unfold k1. cbn [st]. destruct (in_dec String.string_dec w ids) as [Hw|Hw]; [tauto|]. rewrite drop_removes by done.
    split; [intros [[? ?]|?]; done | done].
  - intros w sc Hw Hin. destruct (Hmv w sc) as (sc' & Hf & H1 & H2); [unfold k1; cbn [st]; by rewrite drop_keeps|].
    destruct H2 as [[_ Hn]|[H2 H3]]; [done|]. exists (sc_monitor sc'). split_and!; [done | done|]. rewrite Hf, <- H1. by destruct sc'.
  - intros x. split.
    + rewrite in_app_iff. intros [Hi|[Hi|Hi%F3]%in_app_or].
      * destruct (F1 _ Hi) as [(? & ? & ?)|([w sc] & Hkv & Hn & [= ->])]; [done|]. eauto.
      * by destruct (F2 _ Hi) as (? & ? & ? & _).
      * by destruct Hi as (? & ? & ?).
    + intros (w & sc & Hin & Hn & ->). apply in_or_app. left. by apply (G1 (w, sc)).
  - intros x o. rewrite in_app_iff. intros [Hi|[Hi|Hi%F3]%in_app_or].
    + destruct (F1 _ Hi) as [(? & ? & ?)|(kv & _ & _ & ?)]; done.
    + destruct (F2 _ Hi) as (m & opts & [= -> _] & Hm & Hf). exists m. split_and!; [done | done|].
      unfold k1 in Hf. cbn [st] in Hf. rewrite drop_keeps in Hf; [done | by apply in_map].
    + by destruct Hi as (? & ? & ?).
  - intros kv Hkv. destruct (T3 kv) as (p & Hp); [rewrite Hs; unfold k1; cbn [st]; by rewrite (proj1 (drop_all_rest _ _ _))|].
    exists p. rewrite !in_app_iff. tauto.
Qed.
End MonitorSet.

Definition screen2 : Monitor := {| screen1 with m_id := 2; wire_id := "virtual-1" |}.
Lemma monitor_set_followed_witness :
  let k := desk_run (turns [OpAttach "a"; OpMonitors [screen1]]) start in let k' := (@on_monitors (at_time 0) [screen2] k).1 in
  map fst (screens (st k')) = ["virtual-1"]%string
  /\ exists new, out k' = out k ++ new /\ (In (ODev "" (DStop 1)) new <-> exists w sc, In (w, sc) (screens (st k)) /\ ~ In w ["virtual-1"%string] /\ 1 = m_id (sc_monitor sc)).
Proof.
  split; [vm_compute; reflexivity|].
  destruct (@monitor_set_followed (at_time 0) (fun _ _ _ => eq_refl) [screen2] (desk_run (turns [OpAttach "a"; OpMonitors [screen1]]) start))
    as (new & Hnew & _ & _ & Hstop & _). exists new. split; [exact Hnew | exact (Hstop 1)].
Defined.
