(* ===== verification/DesktopClipboard.v ===== *)
(** * DesktopClipboard: writes, views and the pointer

    A clipboard write's request and bytes travel on different channels: in whichever order they
    arrive, the robot's clipboard gets the bytes once. A session that may only watch is told
    nothing of the clipboard. Motion that arrives late is dropped. *)

From Stdlib Require Import ZArith Lia Strings.Byte String.
From stdpp Require Import base list strings relations.
From S2P Require Import Prelude Monad StdMap Json Blob Protocol Floats Consumer SessionState SessionOps Capability DesktopTables Desktop DesktopFrame DesktopProofs.
Import DesktopDemo.

(** ** Writing *)
(** What was put on the robot's clipboard. *)
Definition written (h : list DOut) : list (string * list byte * string * Envelope) :=
  omap (fun o => match o with ODev _ (DClipWrite ty b sid req) => Some (ty, b, sid, req) | _ => None end) h.
Lemma written_app h1 h2 : written (h1 ++ h2) = written h1 ++ written h2.
Proof. apply omap_app. Qed.

(** The entries waiting came within the last ten seconds of every reading of the clock. *)
Definition recent (t0 : Z) (k : DCap) : Prop := forall kv, In kv (incoming (st k)) -> t0 <= first kv.2.
Definition soon (t0 : Z) (e : DesktopEnv) : Prop := forall h, t0 <= clock (CtxEnv := @desk_ctx e) h < t0 + EXPIRE_NS.
Definition pasteable (sid : string) (k : DCap) : Prop := driver (st k) = true /\ sm_count sid (d_sessions (st k)) = true.

Section Write.
Context `{E : DesktopEnv} (t0 : Z) (Hsoon : soon t0 E) (Hclip : forall h, drv_clipboard h = true).

Lemma expire_noop k : recent t0 k -> expire_incoming k = (k, Ok tt).
Proof.
  intros Hr. unfold expire_incoming. unfold bind at 1 2. cbn [self history]. pose proof (Hsoon (out k)) as Hc. revert Hr Hc. unfold recent.
  generalize (clock (CtxEnv := desk_ctx) (out k)) as now. intros now Hr Hc. induction (incoming (st k)) as [|kv l IH]; [done|].
  simpl. unfold bind at 1. destruct (Z.ltb_spec (now - first kv.2) EXPIRE_NS) as [_|Hge]; [apply IH; intros; apply Hr; by right|].
  specialize (Hr kv ltac:(by left)). lia.
Qed.

(** An entry stored, then written when both halves are there. *)
Definition settle (bid : string) (i : Incoming) (k : DCap) : DCap :=
  match in_request i with
  | Some req => if complete i
                then {| st := {| (st k) with incoming := sm_erase bid (sm_set bid i (incoming (st k))) |}; out := out k ++ [ODev (in_session i) (DClipWrite (in_type i) (in_bytes i) (in_session i) req)] |}
                else {| k with st := set_incoming bid i (st k) |}
  | None => {| k with st := set_incoming bid i (st k) |}
  end.
Lemma try_write_settle bid i k : pasteable (in_session i) k ->
  (try_write bid {| k with st := set_incoming bid i (st k) |}).1 = settle bid i k.
Proof.
  intros [Hd Hs]. unfold try_write, settle, bind at 1. simpl. rewrite sm_find_set_eq. destruct i as [s [req|] ty len b [] f]; try done. simpl in *.
  unfold bind. simpl. rewrite Hs. simpl. unfold has_clipboard. simpl. by rewrite Hd, Hclip.
Qed.
Definition chunk_entry (sid : string) (c : BlobChunk) (now : Z) (d : Desktop) : Incoming :=
  let i := incoming_at (blob_id c) now d in
  let bytes := (if offset c =? 0 then [] else in_bytes i) ++ payload c in
  {| i with in_session := sid; in_bytes := bytes; complete := complete i || (blob_len c <=? zlen bytes) |}.
Lemma on_blob_chunk_settle sid c k : recent t0 k -> pasteable sid k -> blob_len c <= MAX_BYTES -> foreign (incoming_at (blob_id c) (clock (CtxEnv := desk_ctx) (out k)) (st k)) sid = false ->
  (complete (incoming_at (blob_id c) (clock (CtxEnv := desk_ctx) (out k)) (st k)) = true -> in_request (incoming_at (blob_id c) (clock (CtxEnv := desk_ctx) (out k)) (st k)) = None) ->
  (on_blob_chunk sid c k).1 = settle (blob_id c) (chunk_entry sid c (clock (CtxEnv := desk_ctx) (out k)) (st k)) k.
Proof.
  intros Hr Hp Hl Hf Hc. unfold on_blob_chunk. destruct (Z.ltb_spec MAX_BYTES (blob_len c)); [lia|].
  unfold bind at 1. rewrite expire_noop by done. unfold bind at 1 2. cbn [self history]. set (i := incoming_at _ _ _) in *.
  unfold bind at 1. cbn [update modify]. rewrite Hf. unfold bind. cbn [update modify st out].
  set (bytes := (if offset c =? 0 then [] else in_bytes i) ++ payload c).
  set (j := {| i with in_session := sid; in_bytes := bytes; complete := complete i || (blob_len c <=? zlen bytes) |}).
  change (chunk_entry sid c (clock (CtxEnv := desk_ctx) (out k)) (st k)) with j.
  assert (set_incoming (blob_id c) j (set_incoming (blob_id c) i (st k)) = set_incoming (blob_id c) j (st k)) as ->.
  { unfold set_incoming. simpl. by rewrite sm_set_set. }
  destruct (blob_len c <=? zlen bytes) eqn:El in |- * at 1; [unfold when; by apply try_write_settle|].
  unfold when, settle, j. cbn [in_request complete]. rewrite El, orb_false_r. destruct (in_request i) as [req|] eqn:Er; [|done].
  destruct (complete i); [|done]. by specialize (Hc eq_refl).
Qed.
Definition request_entry (sid : string) (msg : Envelope) (ty : string) (len : Z) (i : Incoming) : Incoming :=
  {| i with in_session := sid; in_request := Some msg; in_type := ty; in_len := len; complete := complete i || (len =? 0) |}.
Lemma on_clipboard_write_settle sid msg ty bid len rt k : recent t0 k -> pasteable sid k ->
  value_str (e_payload msg) "type" "" = Ok ty -> value_json (e_payload msg) "blob" JNull = Ok (to_json {| ref_id := bid; ref_len := len; ref_type := rt |}) ->
  from_json (to_json {| ref_id := bid; ref_len := len; ref_type := rt |}) = Some {| ref_id := bid; ref_len := len; ref_type := rt |} ->
  0 <= len <= max_bytes ty -> max_bytes ty <> 0 -> foreign (incoming_at bid (clock (CtxEnv := desk_ctx) (out k)) (st k)) sid = false ->
  (on_clipboard_write sid msg k).1 = settle bid (request_entry sid msg ty len (incoming_at bid (clock (CtxEnv := desk_ctx) (out k)) (st k))) k.
Proof.
  intros Hr Hp Hty Hb Hj Hlen Hmax Hf. unfold on_clipboard_write. unfold bind at 1 2. cbn [self history]. unfold has_clipboard.
  rewrite (proj1 Hp), Hclip. cbn [negb andb]. unfold bind at 1. unfold lift at 1. rewrite Hty. destruct (Z.eqb_spec (max_bytes ty) 0) as [|_]; [done|].
  unfold bind at 1. unfold lift at 1. rewrite Hb, Hj. cbn [ref_len ref_id]. destruct (Z.ltb_spec (max_bytes ty) len) as [|_]; [lia|].
  unfold bind at 1. rewrite expire_noop by done. unfold bind at 1 2. cbn [self history]. set (i := incoming_at _ _ _) in *.
  unfold bind at 1. cbn [update modify]. rewrite Hf. unfold bind. cbn [update modify st out]. fold (request_entry sid msg ty len i).
  assert (set_incoming bid (request_entry sid msg ty len i) (set_incoming bid i (st k)) = set_incoming bid (request_entry sid msg ty len i) (st k)) as ->.
  { unfold set_incoming. simpl. by rewrite sm_set_set. }
  by apply (try_write_settle bid (request_entry sid msg ty len i) k).
Qed.
End Write.

(** Where a write stands: what has arrived of it, and what has been written. *)
Section Progress.
Context (t0 : Z) (sid bid ty : string) (len : Z) (w0 : list (string * list byte * string * Envelope)).
Record stands (r : option Envelope) (acc : list byte) (k : DCap) : Prop := {
  st_recent : recent t0 k; st_paste : pasteable sid k; st_written : written (out k) = w0;
  st_entry : match sm_find bid (incoming (st k)) with
             | None => acc = [] /\ r = None
             | Some i => in_session i = sid /\ in_request i = r /\ (r <> None -> in_type i = ty) /\ in_bytes i = acc /\ complete i = (len <=? zlen acc)
             end
}.
Definition finished (msg : Envelope) (total : list byte) (k : DCap) : Prop :=
  sm_find bid (incoming (st k)) = None /\ written (out k) = w0 ++ [(ty, total, sid, msg)].

Lemma recent_settle k i : recent t0 k -> t0 <= first i -> recent t0 (settle bid i k).
Proof.
  intros Hr Hi kv Hkv. assert (In kv (sm_set bid i (incoming (st k)))) as [->|H]%sm_set_In; [|done | by apply Hr].
  unfold settle in Hkv. destruct (in_request i); [destruct (complete i)|]; simpl in Hkv; [by apply sm_erase_sublist in Hkv as [? _] | done | done].
Qed.
Lemma paste_settle k i s : pasteable s k -> pasteable s (settle bid i k).
Proof. unfold settle. by destruct (in_request i); [destruct (complete i)|]. Qed.
(** Storing an entry: it stands, or both halves are there. *)
Lemma settle_stands r acc i k : recent t0 k -> pasteable sid k -> written (out k) = w0 -> t0 <= first i -> in_session i = sid -> in_request i = r ->
  (r <> None -> in_type i = ty) -> in_bytes i = acc -> complete i = (len <=? zlen acc) ->
  match r with Some msg => if len <=? zlen acc then finished msg acc (settle bid i k) else stands r acc (settle bid i k) | None => stands r acc (settle bid i k) end.
Proof.
  intros Hr Hp Hw Hf Hs Hq Ht Hb Hc. pose proof (recent_settle k i Hr Hf) as Hr'. pose proof (paste_settle k i sid Hp) as Hp'. unfold settle in *. rewrite Hq in *.
  assert (stands r acc {| k with st := set_incoming bid i (st k) |}) as Hst.
  { split; [|done|done|cbn [st set_incoming incoming]; rewrite sm_find_set_eq; by split_and!].
    intros kv [->|H]%sm_set_In; [done | by apply Hr]. }
  destruct r as [msg|]; [|done]. rewrite Hc in *. destruct (len <=? zlen acc); [|done]. split; cbn [st out incoming]; [apply sm_find_erase_eq|].
  rewrite written_app, Hw. simpl. by rewrite Ht, Hb, Hs.
Qed.
Context (Hlen : 0 <= len <= max_bytes ty) (Hty : max_bytes ty <> 0).
Lemma stands_incoming r acc k now : stands r acc k -> t0 <= now ->
  let i := incoming_at bid now (st k) in foreign i sid = false /\ t0 <= first i /\ in_request i = r /\ (r <> None -> in_type i = ty) /\ in_bytes i = acc
  /\ (complete i = (len <=? zlen acc) \/ acc = [] /\ r = None /\ complete i = false).
Proof.
  intros [Hr Hp Hw He] Hn. unfold incoming_at. destruct (sm_find bid (incoming (st k))) as [i|] eqn:Ef.
  - destruct He as (Hs & Hq & Ht & Hb & Hc). unfold foreign. rewrite Hs, String.eqb_refl, andb_false_r. split_and!; try done; [|by left].
    by apply (Hr (bid, i)), sm_find_In.
  - destruct He as [-> ->]. simpl. split_and!; try done. by right.
Qed.
Lemma chunk_stands e p off r acc k : soon t0 e -> (forall h, @drv_clipboard e h = true) -> stands r acc k -> zlen acc = off -> 0 < zlen p -> off + zlen p <= len ->
  let k' := desk_step k (e, OpChunk sid {| blob_id := bid; offset := off; blob_len := len; payload := p |}) in
  match r with Some msg => if len <=? zlen (acc ++ p) then finished msg (acc ++ p) k' else stands r (acc ++ p) k' | None => stands r (acc ++ p) k' end.
Proof.
  intros He Hclip Hst Hoff Hp Hl k'. set (c := {| blob_id := bid; offset := off; blob_len := len; payload := p |}).
  pose proof (He (out k)) as Hnow. destruct (stands_incoming r acc k _ Hst (proj1 Hnow)) as (Hf & Hfi & Hq & Ht & Hb & Hc).
  assert (max_bytes ty <= MAX_BYTES) as Hm by (unfold max_bytes, MAX_BYTES; case_bools).
  assert (complete (incoming_at bid (clock (CtxEnv := @desk_ctx e) (out k)) (st k)) = false) as Hc'.
  { destruct Hc as [->|(_ & _ & ->)]; [|done]. apply Z.leb_gt. lia. }
  assert (k' = settle bid (chunk_entry sid c (clock (CtxEnv := @desk_ctx e) (out k)) (st k)) k) as ->.
  { apply (@on_blob_chunk_settle e t0 He Hclip); [apply Hst | apply Hst | unfold c; cbn [blob_len]; lia | done | unfold c; cbn [blob_id]; congruence]. }
  assert ((if off =? 0 then [] else acc) = acc) as Hz by (case_bool; [symmetry; apply zlen_0; lia | done]).
  unfold chunk_entry, c. cbn [blob_id offset blob_len payload]. rewrite Hb, Hc', Hz.
  apply settle_stands; try apply Hst; cbn [first in_session in_request in_type in_bytes complete]; by rewrite ?Hq.
Qed.
(** The request: a message of type clipboard-write that names the blob. *)
Record write_request (msg : Envelope) : Prop := {
  wr_type : type_ msg = "clipboard-write"%string;
  wr_ty : value_str (e_payload msg) "type" "" = Ok ty;
  wr_blob : exists rt, value_json (e_payload msg) "blob" JNull = Ok (to_json {| ref_id := bid; ref_len := len; ref_type := rt |})
            /\ from_json (to_json {| ref_id := bid; ref_len := len; ref_type := rt |}) = Some {| ref_id := bid; ref_len := len; ref_type := rt |}
}.
Lemma claim_stands r acc k : stands r acc k -> stands r acc (claim_input sid k).1.
Proof.
  intros [Hr Hp Hw He]. unfold claim_input, bind. simpl. destruct (match input_session (st k) with Some s => negb (String.eqb s sid) | None => false end); simpl; split; simpl; try done.
  by rewrite written_app, app_nil_r.
Qed.
Lemma on_message_write e msg k : write_request msg -> driver (st k) = true -> (@on_message e sid msg k).1 = (@on_clipboard_write e sid msg (claim_input sid k).1).1.
Proof.
  intros [Ht _ _] Hd. unfold on_message. unfold bind at 1. cbn [self]. rewrite Hd, Ht. cbn [negb].
  change (String.eqb "clipboard-write" "resume-sharing") with false. change (String.eqb "clipboard-write" "clipboard-read") with false.
  change (String.eqb "clipboard-write" "release-all") with false. unfold bind. pose proof (claim_ok sid k) as Hok.
  destruct (claim_input sid k) as [k1 r]. simpl in Hok. rewrite Hok. unfold inject. rewrite Ht. reflexivity.
Qed.
Lemma request_stands e msg acc k : soon t0 e -> (forall h, @drv_clipboard e h = true) -> write_request msg -> stands None acc k ->
  let k' := desk_step k (e, OpMessage sid msg) in if len <=? zlen acc then finished msg acc k' else stands (Some msg) acc k'.
Proof.
  intros He Hclip Hmsg Hst k'. pose proof Hmsg as [_ Hty' (rt & Hb & Hj)]. apply claim_stands in Hst as Hst1. set (k1 := (claim_input sid k).1) in *.
  pose proof (He (out k1)) as Hnow. destruct (stands_incoming None acc k1 _ Hst1 (proj1 Hnow)) as (Hf & Hfi & Hq & Ht & Hbs & Hc).
  assert (k' = settle bid (request_entry sid msg ty len (incoming_at bid (clock (CtxEnv := @desk_ctx e) (out k1)) (st k1))) k1) as ->.
  { unfold k', desk_step. cbn [fst snd desk_op]. rewrite on_message_write; [|done | exact (proj1 (st_paste _ _ _ Hst))].
    apply (@on_clipboard_write_settle e t0 He Hclip sid msg ty bid len rt); try done; [apply (st_recent _ _ _ Hst1) | apply (st_paste _ _ _ Hst1)]. }
  apply (settle_stands (Some msg)); try exact (st_recent _ _ _ Hst1); try exact (st_paste _ _ _ Hst1); try exact (st_written _ _ _ Hst1); cbn [request_entry first in_session in_request in_type in_bytes complete]; try done.
  pose proof (zlen_nonneg acc). destruct Hc as [->|(-> & _ & ->)]; [|change (zlen (@nil byte)) with 0 in *]; case_bools; done.
Qed.

Fixpoint chunk_turns (off : Z) (ps : list (DesktopEnv * list byte)) : list (DesktopEnv * DOp) :=
  match ps with
  | [] => []
  | (e, p) :: ps' => (e, OpChunk sid {| blob_id := bid; offset := off; blob_len := len; payload := p |}) :: chunk_turns (off + zlen p) ps'
  end.
Definition joined (ps : list (DesktopEnv * list byte)) : list byte := concat (map snd ps).
Definition fine (ep : DesktopEnv * list byte) : Prop := soon t0 ep.1 /\ (forall h, @drv_clipboard ep.1 h = true) /\ 0 < zlen ep.2.
Lemma chunks_before ps : forall acc k, Forall fine ps -> stands None acc k -> zlen acc + zlen (joined ps) <= len ->
  stands None (acc ++ joined ps) (desk_run (chunk_turns (zlen acc) ps) k).
Proof.
  induction ps as [|[e p] ps IH]; intros acc k Hf Hst Hl; [by rewrite app_nil_r|]. inversion_clear Hf as [|? ? (He & Hc & Hp) Hf']. simpl in *.
  change (joined ((e, p) :: ps)) with (p ++ joined ps) in *. rewrite zlen_app in Hl. pose proof (zlen_nonneg (joined ps)).
  rewrite app_assoc, <- zlen_app. apply IH; [done | | rewrite zlen_app; lia]. apply (chunk_stands e p (zlen acc) None acc); try done; lia.
Qed.
Lemma chunks_after msg ps : forall acc k, ps <> [] -> Forall fine ps -> stands (Some msg) acc k -> zlen acc + zlen (joined ps) = len ->
  finished msg (acc ++ joined ps) (desk_run (chunk_turns (zlen acc) ps) k).
Proof.
  induction ps as [|[e p] ps IH]; intros acc k Hne Hf Hst Hl; [done|]. inversion_clear Hf as [|? ? (He & Hc & Hp) Hf']. simpl in *.
  change (joined ((e, p) :: ps)) with (p ++ joined ps) in *. rewrite zlen_app in Hl. pose proof (zlen_nonneg (joined ps)).
  pose proof (chunk_stands e p (zlen acc) (Some msg) acc k He Hc Hst eq_refl Hp ltac:(lia)) as Hk. cbn zeta in Hk. rewrite app_assoc, <- zlen_app.
  destruct ps as [|ep ps].
  - rewrite app_nil_r. rewrite (proj2 (Z.leb_le _ _)) in Hk; [done|]. rewrite zlen_app. change (joined []) with (@nil byte) in Hl. rewrite zlen_nil in Hl. lia.
  - assert (0 < zlen (joined (ep :: ps))) as Hpos.
    { inversion_clear Hf' as [|? ? (_ & _ & Hp') _]. change (joined (ep :: ps)) with (ep.2 ++ joined ps). rewrite zlen_app. pose proof (zlen_nonneg (joined ps)). lia. }
    rewrite (proj2 (Z.leb_gt _ _)) in Hk by (rewrite zlen_app; lia). apply IH; [done | done | done | rewrite zlen_app; lia].
Qed.
End Progress.

(** A clipboard write lands once and whole, whichever of its halves arrives first: for any
    cut of the bytes into chunks and any place of the request among them, the robot's clipboard
    is set exactly once, with exactly the bytes, as the type the request named, for its session. *)
Theorem clipboard_write_exact t0 sid bid ty msg pre e post k :
  let total := joined pre ++ joined post in let len := zlen total in
  max_bytes ty <> 0 -> len <= max_bytes ty -> write_request bid ty len msg ->
  Forall (fine t0) pre -> soon t0 e -> (forall h, @drv_clipboard e h = true) -> Forall (fine t0) post ->
  recent t0 k -> pasteable sid k -> sm_find bid (incoming (st k)) = None ->
  let k' := desk_run (chunk_turns sid bid len 0 pre ++ [(e, OpMessage sid msg)] ++ chunk_turns sid bid len (zlen (joined pre)) post) k in
  written (out k') = written (out k) ++ [(ty, total, sid, msg)] /\ sm_find bid (incoming (st k')) = None.
Proof.
  intros total len Hty Hle Hmsg Hpre He Hc Hpost Hr Hp Hnone k'. assert (0 <= len <= max_bytes ty) as Hlen by (pose proof (zlen_nonneg total); unfold len in *; lia).
  assert (len = zlen (joined pre) + zlen (joined post)) as Hsum by (unfold len, total; apply zlen_app). pose proof (zlen_nonneg (joined post)).
  assert (stands t0 sid bid ty len (written (out k)) None [] k) as H0 by (split; [done | done | done | by rewrite Hnone]).
  apply (chunks_before t0 sid bid ty len _ Hlen Hty pre) in H0; [|done | rewrite zlen_nil; lia]. cbn [app] in H0. rewrite zlen_nil in H0.
  apply (request_stands t0 sid bid ty len _ Hlen Hty e msg) in H0; [|done|done|done]. cbn zeta in H0.
  unfold k'. rewrite !desk_run_app. destruct post as [|ep post].
  - rewrite (proj2 (Z.leb_le _ _)) in H0 by (change (joined []) with (@nil byte) in Hsum; rewrite zlen_nil in Hsum; lia).
    destruct H0 as [H1 H2]. split; [|done]. unfold total. change (joined []) with (@nil byte). by rewrite app_nil_r.
  - assert (0 < zlen (joined (ep :: post))) as Hpos.
    { inversion_clear Hpost as [|? ? (_ & _ & Hp') _]. change (joined (ep :: post)) with (ep.2 ++ joined post). rewrite zlen_app. pose proof (zlen_nonneg (joined post)). lia. }
    rewrite (proj2 (Z.leb_gt _ _)) in H0 by lia.
    destruct (chunks_after t0 sid bid ty len _ Hlen Hty msg (ep :: post) (joined pre) _ ltac:(done) Hpost H0 ltac:(lia)) as [H1 H2]. done.
Qed.

Definition uuid1 : string := "00000000-0000-4000-8000-000000000001".
Definition paste : Envelope := message "clipboard-write" (jobj [("type", JStr TEXT); ("blob", to_json {| ref_id := uuid1; ref_len := 3; ref_type := TEXT |})]).
Definition attached_desk : DCap := desk_run (turns [OpAttach "a"]) start.
Lemma clipboard_write_exact_witness :
  written (out (desk_run [(at_time 0, OpChunk "a" {| blob_id := uuid1; offset := 0; blob_len := 3; payload := [x61; x62] |}); (at_time 1, OpMessage "a" paste);
    (at_time 2, OpChunk "a" {| blob_id := uuid1; offset := 2; blob_len := 3; payload := [x63] |})] attached_desk)) = [(TEXT, [x61; x62; x63], "a"%string, paste)].
Proof.
  pose proof (clipboard_write_exact 0 "a" uuid1 TEXT paste [(at_time 0, [x61; x62])] (at_time 1) [(at_time 2, [x63])] attached_desk) as H.
  assert (forall t p, 0 <= t < 10 -> 0 < zlen p -> fine 0 (at_time t, p)) as Hfine.
  { intros t p Ht Hp. split_and!; [|done | done]. intros h. change (0 <= t < 0 + EXPIRE_NS). unfold EXPIRE_NS. lia. }
  assert (recent 0 attached_desk) as Hr by (intros kv Hin; by vm_compute in Hin).
  apply H; [done | vm_compute; congruence | | | | done | | exact Hr | split; reflexivity | reflexivity].
  - split; [reflexivity | reflexivity|]. exists TEXT. split; reflexivity.
  - constructor; [apply Hfine; [lia | done] | constructor].
  - intros h. change (0 <= 1 < 0 + EXPIRE_NS). unfold EXPIRE_NS. lia.
  - constructor; [apply Hfine; [lia | done] | constructor].
Defined.

(** ** Watching only *)
(** Nothing of the clipboard went to the session: no offer, and no read on its behalf. *)
Definition unclipped (sid : string) (o : DOut) : Prop :=
  match o with
  | OCtx s c => is_offer c = true -> s <> sid
  | ODev _ (DClipRead _ _ s _) => s <> sid
  | ODev _ _ => True
  end.
Definition watches (sid : string) (e : DesktopEnv) : Prop := @granted e sid = JObj [("view_only", JBool true)].

Section Watching.
Context `{E : DesktopEnv} (sid : string) (Hw : watches sid E).
Abbreviation R := (emits (unclipped sid)).
Lemma view_only_watches k : desk_view_only sid k = (k, Ok true).
Proof. unfold desk_view_only. by rewrite Hw. Qed.
Lemma watch_ctx s c : is_offer c = false -> respects R (ctx s c : Prog DCap unit).
Proof. intros Hc. apply emits_ctx. simpl. congruence. Qed.
Lemma watch_update (f : Desktop -> Desktop) : respects R (update f).
Proof. apply emits_update. Qed.
Lemma watch_dev s c : match c with DClipRead _ _ _ _ => false | _ => true end = true -> respects R (dev s c : Prog DCap unit).
Proof. intros Hc. apply emits_put. by destruct c. Qed.
Lemma watch_refuse s msg c w : respects R (refuse s msg c w).
Proof. unfold refuse, fail. repeat first [by apply watch_ctx | respects_step]. Qed.
#[local] Instance watch_frame : Frame R.
Proof.
  split; [apply _ | intros; apply watch_update | intros s c Hc; apply watch_dev; by destruct c | apply watch_ctx | |].
  - intros s. destruct (decide (s = sid)) as [->|Hne].
    + intros k. unfold offer, bind. rewrite view_only_watches. reflexivity.
    + unfold offer, desk_view_only. repeat first [apply emits_ctx; simpl; done | apply emits_self | respects_step].
  - intros s msg. destruct (decide (s = sid)) as [->|Hne].
    + intros k. unfold on_clipboard_read, bind at 1. rewrite view_only_watches. apply watch_refuse.
    + unfold on_clipboard_read, desk_view_only. repeat first [apply watch_refuse | apply emits_put; simpl; done | apply emits_self | apply emits_history | respects_step].
Qed.
Hint Resolve watch_update : frame.
Hint Extern 1 (respects _ (dev _ _)) => apply watch_dev; reflexivity : frame.
Lemma watch_remove_first s wire msg l : respects R (remove_first s wire msg l).
Proof. induction l as [|[m []] l IH]; simpl; framing. Qed.
Hint Resolve watch_remove_first : frame.
Lemma desk_op_watch o : respects R (desk_op o).
Proof.
  destruct (background o) eqn:Hb; [apply frame_background; [apply _ | done]|].
  destruct o as [| s msg| |s|s|l| | | | | | | | |id s|]; try done; simpl;
    unfold on_message, release_all_input, session_detached, remove_virtuals, add_timeout, claim_input.
  - apply respects_bind; [apply _ | framing|]. intros d. destruct (negb _); [framing|]. destruct (String.eqb _ _); [framing|].
    destruct (String.eqb _ _); [apply fr_read|]. destruct (String.eqb _ _); [framing|]. apply respects_bind; [apply _ | framing|]. intros _.
    unfold inject, on_button, on_key, on_key_combo, on_add_monitor, on_remove_monitor. framing.
  - framing.
  - framing.
  - framing.
Qed.
End Watching.

Definition peek : Envelope := message "clipboard-read" (JObj [("offer_id", JStr ""); ("type", JStr TEXT)]).

(** ** Where the limits are not kept *)
(** The length a request names is checked against its type's limit, the bytes are not checked
    against the length: a text of up to 8 MiB reaches the robot's clipboard, 1 MiB is the limit. *)
Theorem clipboard_limit_unchecked e sid bid len msg p k :
  soon 0 e -> (forall h, @drv_clipboard e h = true) -> recent 0 k -> pasteable sid k -> sm_find bid (incoming (st k)) = None ->
  write_request bid TEXT len msg -> 0 <= len <= max_bytes TEXT -> 0 < zlen p <= MAX_BYTES ->
  written (out (desk_run [(e, OpChunk sid {| blob_id := bid; offset := 0; blob_len := zlen p; payload := p |}); (e, OpMessage sid msg)] k))
  = written (out k) ++ [(TEXT, p, sid, msg)].
Proof.
  intros He Hc Hr Hp Hn Hmsg Hl Hlp. pose proof Hmsg as [_ Hty (rt & Hb & Hj)].
  assert (stands 0 sid bid PNG (zlen p) (written (out k)) None [] k) as H0 by (split; [done | done | done | by rewrite Hn]).
  apply (chunk_stands 0 sid bid PNG (zlen p) _ ltac:(unfold max_bytes, MAX_BYTES in *; simpl; lia) ltac:(by vm_compute) e p 0 None []) in H0; try done; try lia.
  cbn [app] in H0. pose proof (st_paste _ _ _ _ _ _ _ _ _ H0) as [Hd _]. apply claim_stands in H0. cbn [desk_run foldl]. set (k1 := desk_step k _) in *. unfold desk_step. cbn [fst snd desk_op].
  rewrite (on_message_write sid bid TEXT len e msg k1 Hmsg) by done.
  set (k2 := (claim_input sid k1).1) in *. destruct H0 as [Hr2 Hp2 Hw2 He2]. pose proof (He (out k2)) as Hnow.
  destruct (sm_find bid (incoming (st k2))) as [i|] eqn:Ef; [|destruct He2 as [Hp0 _]; rewrite Hp0 in Hlp; unfold zlen in Hlp; simpl in Hlp; lia].
  destruct He2 as (Hs & Hq & _ & Hbs & Hcm). rewrite Z.leb_refl in Hcm.
  assert (incoming_at bid (clock (CtxEnv := @desk_ctx e) (out k2)) (st k2) = i) as Hi by (unfold incoming_at; by rewrite Ef).
  rewrite (@on_clipboard_write_settle e 0 He Hc sid msg TEXT bid len rt k2); try done; [|rewrite Hi; unfold foreign; by rewrite Hs, String.eqb_refl, andb_false_r].
  rewrite Hi. unfold settle, request_entry. cbn [in_request complete in_session in_type in_bytes]. rewrite Hcm. cbn [orb out].
  by rewrite written_app, Hw2, Hbs.
Qed.
Definition big : list byte := repeat x61 (Z.to_nat (2 * 1024 * 1024)).
Lemma big_zlen : zlen big = 2 * 1024 * 1024.
Proof. unfold zlen, big. rewrite repeat_length. lia. Qed.
Lemma clipboard_limit_unchecked_witness :
  max_bytes TEXT < zlen big
  /\ written (out (desk_run [(at_time 0, OpChunk "a" {| blob_id := uuid1; offset := 0; blob_len := zlen big; payload := big |}); (at_time 0, OpMessage "a" paste)] attached_desk))
     = [(TEXT, big, "a"%string, paste)].
Proof.
  split; [rewrite big_zlen; unfold max_bytes; simpl; lia|].
  refine (clipboard_limit_unchecked (at_time 0) "a" uuid1 3 paste big attached_desk _ _ _ _ _ _ _ _).
  - intros h. change (0 <= 0 < 0 + EXPIRE_NS). unfold EXPIRE_NS. lia.
  - done.
  - intros kv Hin. by vm_compute in Hin.
  - split; reflexivity.
  - reflexivity.
  - split; [reflexivity | reflexivity|]. exists TEXT. split; reflexivity.
  - unfold max_bytes. simpl. lia.
  - rewrite big_zlen. unfold MAX_BYTES. lia.
Defined.

(** A chunk that does not start the blob is appended whatever its offset, and an entry whose
    request never comes is not bounded: the bytes kept for one blob grow with every chunk. *)
Definition stray (n : nat) (e : DesktopEnv) (sid bid : string) (p : list byte) : list (DesktopEnv * DOp) :=
  repeat (e, OpChunk sid {| blob_id := bid; offset := 1; blob_len := 1 + zlen p; payload := p |}) n.
Theorem pending_bytes_unbounded e sid bid p k n :
  soon 0 e -> (forall h, @drv_clipboard e h = true) -> recent 0 k -> pasteable sid k -> sm_find bid (incoming (st k)) = None -> 0 < zlen p < MAX_BYTES ->
  exists i, sm_find bid (incoming (st (desk_run (stray (S n) e sid bid p) k))) = Some i /\ zlen (in_bytes i) = Z.of_nat (S n) * zlen p.
Proof.
  intros He Hc Hr Hp Hn Hl. set (c := {| blob_id := bid; offset := 1; blob_len := 1 + zlen p; payload := p |}).
  assert (forall m k, recent 0 k -> pasteable sid k ->
    let i0 := incoming_at bid (clock (CtxEnv := @desk_ctx e) (out k)) (st k) in foreign i0 sid = false -> in_request i0 = None ->
    exists i, sm_find bid (incoming (st (desk_run (stray (S m) e sid bid p) k))) = Some i /\ zlen (in_bytes i) = zlen (in_bytes i0) + Z.of_nat (S m) * zlen p) as Hgen.
  { clear k Hr Hp Hn. induction m as [|m IH]; intros k Hr Hp i0 Hf Hq; unfold i0 in *;
      pose proof (@on_blob_chunk_settle e 0 He Hc sid c k Hr Hp ltac:(simpl; lia) Hf ltac:(done)) as Hk;
      set (j := chunk_entry sid c _ _) in Hk; assert (in_request j = None) as Hj by exact Hq;
      assert (zlen (in_bytes j) = zlen (in_bytes (incoming_at bid (clock (CtxEnv := @desk_ctx e) (out k)) (st k))) + zlen p) as Hz
        by (unfold j, chunk_entry; cbn [in_bytes blob_id offset payload c]; by rewrite zlen_app);
      unfold settle in Hk; rewrite Hj in Hk.
    - change (desk_run (stray 1 e sid bid p) k) with (@on_blob_chunk e sid c k).1. rewrite Hk. cbn [st set_incoming incoming]. rewrite sm_find_set_eq.
      exists j. split; [done|]. lia.
    - change (desk_run (stray (S (S m)) e sid bid p) k) with (desk_run (stray (S m) e sid bid p) (@on_blob_chunk e sid c k).1). rewrite Hk.
      set (k1 := {| st := _; out := _ |}). assert (sm_find bid (incoming (st k1)) = Some j) as Hf1 by (unfold k1; simpl; apply sm_find_set_eq).
      assert (forall t, incoming_at bid t (st k1) = j) as Hat by (intros t; unfold incoming_at; by rewrite Hf1).
      assert (0 <= first j) as Hfj.
      { unfold j, chunk_entry, incoming_at. cbn [blob_id c first]. destruct (sm_find bid (incoming (st k))) as [i|] eqn:Ei; [|apply He].
        simpl. by apply (Hr (bid, i)), sm_find_In. }
      destruct (IH k1) as (i & Hi & Hzi).
      + intros kv [->|Hin]%sm_set_In; [done | by apply Hr].
      + done.
      + rewrite Hat. unfold foreign, j. simpl. by rewrite String.eqb_refl, andb_false_r.
      + by rewrite Hat.
      + exists i. split; [done|]. rewrite Hzi, Hat, Hz. lia. }
  destruct (Hgen n k Hr Hp) as (i & Hi & Hz); unfold incoming_at in *; rewrite Hn in *; [done | done|]. exists i. split; [done|]. by rewrite Hz.
Qed.

(** Positions more often than 30 a second: a timer armed before a position that was sent at once
    still fires, and sends the next one a few milliseconds later. *)
Definition ms (t : Z) : DesktopEnv := at_time (t * 1000000).
Definition wiggle (i : nat) : list (DesktopEnv * DOp) :=
  let b := 1000 + 43 * Z.of_nat i in let move := OpPosition 1 (of_Z 0) (of_Z 0) in
  [(ms (b + 10), move); (ms (b + 34), move); (ms (b + 40), move); (ms (b + 43), OpPositionTimer "a")].
Definition positions (h : list DOut) : Z :=
  zlen (List.filter (fun o => match o with OCtx _ (CRealtime env) => String.eqb (type_ env) "cursor-position" | _ => false end) h).
Theorem cursor_positions_too_often :
  positions (out (desk_run ((ms 1000, OpPosition 1 (of_Z 0) (of_Z 0)) :: concat (map wiggle (seq 0 23))) attached_desk)) = 47.
Proof. vm_compute. reflexivity. Qed.
