(* ===== verification/HelperLink.v ===== *)
(** * HelperLink: the agent's end of the desktop helper's socket (desktop/helper_protocol.cpp, modules/common/helper_listener.cpp)

    The messages between the agent and the desktop user's helper are JSON objects, one a datagram,
    with descriptors attached; the kernel delivers a datagram whole or says that it cut it. The
    listener takes one helper at a time, from one account. [accept4], [SO_PEERCRED] and [recvmsg]
    are the environment's; connections are numbered as they come. Callbacks into the backend are
    events of the history, and what the backend then sends is an input of its own.

    Then: a message that is sent is received with its descriptors, and a descriptor is never
    lost; the backend hears nothing, and nothing but a refusal is said, to anyone but the
    desktop account's helper that said hello. *)

From Stdlib Require Import ZArith Lia Ascii String.
From stdpp Require Import base list strings pretty relations.
From S2P Require Import Prelude Monad StdMap Json.

Definition PROTOCOL : string := "fjarr-desktop-1".
Definition MAX_MESSAGE : Z := 64 * 1024.
Definition MAX_FDS : Z := 4.

(** ** Messages *)
Definition is_message (j : json) : bool := is_object j && contains j "type" && is_string (at_key j "type").
Section Messages.
Context `{JT : JsonText} {F : Type}.
(** The datagram to send, or why there is none; [dump()] throws on a string that is not UTF-8. *)
Definition proto_send (body : json) (fds : list F) : result (string + string) :=
  if negb (is_message body) then Ok (inl "a message is a JSON object with a string type"%string)
  else if MAX_FDS <? zlen fds then Ok (inl ("more than " +:+ pretty MAX_FDS +:+ " descriptors"))
  else
    let* text := json_dump body in
    if MAX_MESSAGE <? ssize text then Ok (inl ("message larger than " +:+ pretty MAX_MESSAGE +:+ " bytes")) else Ok (inr text).

(** What [recvmsg] gives: at most one byte more than a message may have. *)
Inductive Rx := RxAgain | RxFailed (err : string) | RxData (bytes : string) (cut : bool) (fds : list F).
Inductive Received := RMessage (body : json) (fds : list F) | RClosed | RWouldBlock | RInvalid (err : string) | RError (err : string).
Definition proto_receive (r : Rx) : Received :=
  match r with
  | RxAgain => RWouldBlock
  | RxFailed err => RError ("recvmsg: " +:+ err)
  | RxData bytes cut fds =>
    if (ssize bytes =? 0) && match fds with [] => true | _ => false end then RClosed
    else if cut || (MAX_MESSAGE <? ssize bytes) || (MAX_FDS <? zlen fds) then RInvalid "a datagram too large, or with too many descriptors"
    else match json_parse bytes with
         | Some body => if is_message body then RMessage body fds else RInvalid "not a JSON object with a string type"
         | None => RInvalid "not a JSON object with a string type"
         end
  end.
(** The descriptors the message holds on to; the others are closed as their owners go. *)
Definition taken (r : Received) : list F := match r with RMessage _ fds => fds | _ => [] end.
Definition dropped (r : Rx) : list F :=
  match r with
  | RxData _ _ fds => match proto_receive r with RMessage _ _ => [] | _ => fds end
  | _ => []
  end.
End Messages.
Arguments Rx F : clear implicits.
Arguments Received F : clear implicits.

Lemma is_message_norm j : is_message (norm j) = is_message j.
Proof.
  unfold is_message. rewrite is_object_norm. destruct j as [| |z| |f| | |m]; cbn [is_object andb]; try done. f_equal.
  - unfold contains. cbn. unfold sm_count. rewrite sm_find_map. by destruct (sm_find "type" m).
  - unfold at_key. pose proof (jfind_norm "type" (JObj m)) as H. unfold jfind in *. cbn in *. rewrite H. destruct (sm_find "type" m) as [v|]; [|done].
    destruct v as [| |z| |f| | |]; cbn; try done; [by destruct (0 <=? z) | by destruct (finite_float f)].
Qed.

(** ** The listener *)
Inductive LEvent :=
| LAccept (c : nat) (peer : option Z)        (* SO_PEERCRED's uid *)
| LSend (c : nat) (body : json)
| LClose (c : nat)
| LMessage (c : nat) (body : json) (fds : list nat)   (* on_message *)
| LPresence (here : bool).                            (* on_presence *)
Record Listener := { l_uid : Z; l_conn : option nat; l_welcomed : bool; l_out : list LEvent }.
Definition listening (uid : Z) : Listener := {| l_uid := uid; l_conn := None; l_welcomed := false; l_out := [] |}.

Definition l_put (e : LEvent) : Prog Listener unit := modify (fun l => {| l with l_out := l_out l ++ [e] |}).
Definition raw_send (c : nat) (body : json) : Prog Listener unit := l_put (LSend c body).
Definition l_drop (notify : bool) : Prog Listener unit :=
  do l <- get;
  match l_conn l with
  | None => ret tt
  | Some c =>
    l_put (LClose c) ;;
    modify (fun l => {| l with l_conn := None; l_welcomed := false |}) ;;
    when (l_welcomed l && notify) (l_put (LPresence false))
  end.
Definition msg (type : string) (fields : list (string * json)) : json := jobj (("type", JStr type) :: fields).
Definition on_accept (peer : option Z) : Prog Listener unit :=
  do l <- get;
  let c := length (l_out l) in
  l_put (LAccept c peer) ;;
  if negb (match peer with Some u => s32 u =? l_uid l | None => false end) then
    raw_send c (msg "refuse" [("reason", JStr "not the desktop account")]) ;; l_put (LClose c)
  else if match l_conn l with Some _ => true | None => false end then
    raw_send c (msg "refuse" [("reason", JStr "a helper is already connected")]) ;; l_put (LClose c)
  else modify (fun l => {| l with l_conn := Some c |}).
Definition handle (c : nat) (body : json) (fds : list nat) : Prog Listener unit :=
  do type <- lift (value_str body "type" "");
  if String.eqb type "hello" then
    do protocol <- lift (value_str body "protocol" "");
    if negb (String.eqb protocol PROTOCOL) then
      raw_send c (msg "refuse" [("reason", JStr ("this agent speaks " +:+ PROTOCOL))]) ;;
      do _ <- lift (value_str body "protocol" "nothing"); l_drop true
    else
      modify (fun l => {| l with l_welcomed := true |}) ;;
      raw_send c (msg "welcome" [("protocol", JStr PROTOCOL)]) ;;
      do _ <- lift (value_str body "helper" "?");
      l_put (LPresence true)
  else do l <- get; when (l_welcomed l) (l_put (LMessage c body fds)).
Definition on_readable (r : Received nat) : Prog Listener unit :=
  do l <- get;
  match l_conn l with
  | None => ret tt
  | Some c =>
    match r with
    | RMessage body fds => handle c body fds
    | RWouldBlock | RInvalid _ => ret tt
    | RClosed | RError _ => l_drop true
    end
  end.
Definition l_send (body : json) : Prog Listener unit :=
  do l <- get; match l_conn l with Some c => when (l_welcomed l) (raw_send c body) | None => ret tt end.

Inductive LInput := LIAccept (peer : option Z) | LIReadable (r : Received nat) | LISend (body : json) | LIStop.
Definition l_step (i : LInput) : Prog Listener unit :=
  match i with
  | LIAccept peer => on_accept peer
  | LIReadable r => on_readable r
  | LISend body => l_send body
  | LIStop => l_drop false
  end.
Definition l_run (uid : Z) (ins : list LInput) : Listener := foldl (fun l i => (l_step i l).1) (listening uid) ins.

(** [helper_uid] of the configuration; [getpwnam] is the system's. *)
Definition helper_uid (getpwnam : string -> option Z) (config : json) : Z :=
  match jfind "uid" config with
  | Some (JInt z) | Some (JUint z) => s32 z
  | _ => match jfind "user" config with
         | Some (JStr user) => match getpwnam user with Some u => s32 u | None => -1 end
         | _ => -1
         end
  end.

(** ** Messages arrive, descriptors are not lost *)
Section MessageProofs.
Context `{JT : JsonText} `{!JsonTextLaws} {F : Type}.
Lemma received_all (r : Rx F) : match r with RxData _ _ fds => taken (proto_receive r) ++ dropped r = fds | _ => taken (proto_receive r) = [] end.
Proof. destruct r as [|e|bytes cut fds]; [done | done|]. unfold dropped. destruct (proto_receive (RxData bytes cut fds)) eqn:E; cbn; try done.
  rewrite app_nil_r. unfold proto_receive in E. by repeat (case_match; try done); injection E as _ <-.
Qed.
(** Every message that is sent is received: when [send] makes a datagram of a message, what
    [receive] makes of that datagram is the message, as far as JSON text can carry it, with all its
    descriptors, none of them closed on the way. *)
Theorem helper_message_roundtrip (body : json) (fds : list F) text : proto_send body fds = Ok (inr text) -> text <> ""%string ->
  proto_receive (RxData text false fds) = RMessage (norm body) fds /\ dropped (RxData text false fds) = [].
Proof.
  intros Hsend Hne. unfold proto_send in Hsend. destruct (is_message body) eqn:Em; [|done]. cbn [negb] in Hsend. destruct (Z.ltb_spec MAX_FDS (zlen fds)) as [|Hf]; [done|].
  destruct (json_dump body) as [t|] eqn:Ed; [|done]. cbn [rbind] in Hsend. destruct (Z.ltb_spec MAX_MESSAGE (ssize t)) as [|Hs]; [done|]. injection Hsend as ->.
  assert (proto_receive (RxData text false fds) = RMessage (norm body) fds) as Hr; [|split; [done | unfold dropped; by rewrite Hr]].
  unfold proto_receive. destruct (Z.eqb_spec (ssize text) 0) as [E|_].
  { destruct text; [done|]. unfold ssize, chars in E. cbn in E. rewrite zlen_cons in E. pose proof (zlen_nonneg (list_ascii_of_string text)). lia. }
  cbn [andb orb]. rewrite (proj2 (Z.ltb_ge _ _) Hs), (proj2 (Z.ltb_ge _ _) Hf). cbn. by rewrite (json_parse_dump _ _ Ed), is_message_norm, Em.
Qed.
End MessageProofs.
Lemma helper_message_roundtrip_witness :
  let hello := msg "hello" [("protocol", JStr PROTOCOL)] in
  let JT := one_value_text hello "hello" in
  proto_receive (RxData "hello" false [7%nat]) = RMessage (norm hello) [7%nat].
Proof. intros hello JT. apply (@helper_message_roundtrip JT (one_value_laws hello "hello") nat hello [7%nat] "hello"); [by vm_compute | done]. Defined.

(** ** Who is listened to *)
Definition refusal (body : json) : bool := match jfind "type" body with Some (JStr t) => String.eqb t "refuse" | _ => false end.
Definition welcome : json := msg "welcome" [("protocol", JStr PROTOCOL)].
Definition of_account (uid : Z) (c : nat) (h : list LEvent) : Prop := exists u, In (LAccept c (Some u)) h /\ s32 u = uid.
(** What an event needs of the history before it. *)
Definition allowed (uid : Z) (h : list LEvent) (e : LEvent) : Prop :=
  match e with
  | LSend c body => refusal body = true \/ of_account uid c h /\ ~ In (LClose c) h /\ (body = welcome \/ In (LSend c welcome) h)
  | LMessage c _ _ => of_account uid c h /\ ~ In (LClose c) h /\ In (LSend c welcome) h
  | _ => True
  end.
Fixpoint all_allowed (uid : Z) (h new : list LEvent) : Prop :=
  match new with [] => True | e :: new' => allowed uid h e /\ all_allowed uid (h ++ [e]) new' end.
Lemma all_allowed_app uid h l1 l2 : all_allowed uid h (l1 ++ l2) <-> all_allowed uid h l1 /\ all_allowed uid (h ++ l1) l2.
Proof.
  revert h. induction l1 as [|e l1 IH]; intros h; cbn; [by rewrite app_nil_r; split; [|intros []]|]. rewrite IH, <- app_assoc. cbn. tauto.
Qed.
Lemma all_allowed_at uid new : forall h h1 e h2, all_allowed uid h new -> new = h1 ++ e :: h2 -> allowed uid (h ++ h1) e.
Proof.
  induction new as [|x new IH]; intros h h1 e h2 Ha Hn; [by destruct h1|]. destruct Ha as [Hx Ha]. destruct h1 as [|y h1]; injection Hn as <- ->; [by rewrite app_nil_r|].
  replace (h ++ x :: h1) with ((h ++ [x]) ++ h1) by by rewrite <- app_assoc. by eapply IH.
Qed.
Record link_inv (l : Listener) : Prop := {
  li_old : forall c p, In (LAccept c p) (l_out l) -> (c < length (l_out l))%nat;
  li_closed : forall c, In (LClose c) (l_out l) -> (c < length (l_out l))%nat;
  li_conn : forall c, l_conn l = Some c -> of_account (l_uid l) c (l_out l) /\ ~ In (LClose c) (l_out l) /\ (l_welcomed l = true -> In (LSend c welcome) (l_out l));
  li_none : l_conn l = None -> l_welcomed l = false;
  li_out : all_allowed (l_uid l) [] (l_out l)
}.
(** Between the steps of a handler that is at its connection [c]. *)
Lemma link_put l e : link_inv l -> allowed (l_uid l) (l_out l) e ->
  match e with LAccept c _ | LClose c => (c <= length (l_out l))%nat /\ l_conn l <> Some c | _ => True end -> link_inv {| l with l_out := l_out l ++ [e] |}.
Proof.
  intros [H1 H2 H3 Hn0 H4] He Hc. split; cbn.
  - intros c p Hin. rewrite length_app. cbn. apply in_app_or in Hin as [Hin|[->|[]]]; [specialize (H1 c p Hin); lia | lia].
  - intros c Hin. rewrite length_app. cbn. apply in_app_or in Hin as [Hin|[->|[]]]; [specialize (H2 c Hin); lia | lia].
  - intros c Hl. destruct (H3 c Hl) as ((u & Hu & Eu) & Hn & Hw). split_and!.
    + exists u. split; [apply in_or_app; by left | done].
    + intros Hin. apply in_app_or in Hin as [Hin|[->|[]]]; [done|]. by destruct Hc.
    + intros Hwel. apply in_or_app. left. by apply Hw.
  - done.
  - rewrite all_allowed_app. by cbn.
Qed.
Lemma conn_old l c : link_inv l -> l_conn l = Some c -> (c < length (l_out l))%nat.
Proof. intros Hl Hc. destruct (li_conn l Hl c Hc) as ((u & Hu & _) & _). by apply (li_old l Hl c (Some u)). Qed.
Lemma link_close l c : link_inv l -> l_conn l = Some c -> link_inv {| l with l_out := l_out l ++ [LClose c]; l_conn := None; l_welcomed := false |}.
Proof.
  intros Hl Hc. assert (link_inv {| l with l_conn := None; l_welcomed := false |}) as Hl'.
  { destruct Hl as [H1 H2 H3 Hn H4]. by split. }
  pose proof (conn_old l c Hl Hc). apply (link_put _ (LClose c)) in Hl'; [exact Hl' | done | cbn; split; [lia | done]].
Qed.
Lemma link_welcome l c : link_inv l -> l_conn l = Some c -> link_inv {| l with l_out := l_out l ++ [LSend c welcome]; l_welcomed := true |}.
Proof.
  intros Hl Hc. destruct (li_conn l Hl c Hc) as (Ha & Hn & _).
  assert (link_inv {| l with l_out := l_out l ++ [LSend c welcome] |}) as [H1 H2 H3 H4 H5] by (apply link_put; [done | right; by auto | done]).
  split; cbn in *; [done | done | | congruence | done]. intros c' Hc'. rewrite Hc in Hc'. injection Hc' as <-. destruct (H3 c Hc) as (? & ? & _). split_and!; [done | done|].
  intros _. apply in_or_app. right. by left.
Qed.
Lemma drop_inv notify l : link_inv l -> link_inv (l_drop notify l).1.
Proof.
  intros Hl. unfold l_drop, bind, get. destruct (l_conn l) as [c|] eqn:Ec; [|done]. cbn. pose proof (link_close l c Hl Ec) as Hc.
  destruct (l_welcomed l && notify); [|exact Hc]. apply (link_put _ (LPresence false)) in Hc; [exact Hc | done | done].
Qed.
Lemma accept_inv peer l : link_inv l -> link_inv (on_accept peer l).1.
Proof.
  intros Hl. unfold on_accept, bind, get. cbn. set (c := length (l_out l)).
  assert (l_conn l <> Some c) as Hnc by (intros Hc; pose proof (conn_old l c Hl Hc); unfold c in *; lia).
  assert (link_inv {| l with l_out := l_out l ++ [LAccept c peer] |}) as Ha by (apply link_put; [done | done | split; [unfold c; lia | done]]).
  assert (forall why, refusal (msg "refuse" [("reason"%string, JStr why)]) = true -> link_inv {| l with l_out := ((l_out l ++ [LAccept c peer]) ++ [LSend c (msg "refuse" [("reason"%string, JStr why)])]) ++ [LClose c] |}) as Hr.
  { intros why Hwhy. apply (link_put _ (LSend c (msg "refuse" [("reason"%string, JStr why)]))) in Ha; [|by left | done].
    apply (link_put _ (LClose c)) in Ha; [exact Ha | done | cbn; split; [rewrite !length_app; cbn; unfold c; lia | done]]. }
  destruct peer as [u|]; cbn; [|by apply Hr]. destruct (Z.eqb_spec (s32 u) (l_uid l)) as [Eu|]; cbn; [|by apply Hr].
  destruct (l_conn l) as [c'|] eqn:Ec; cbn; [by apply Hr|]. destruct Ha as [H1 H2 H3 H4 H5]. split; cbn in *; [done | done | | done | done].
  intros c' [= <-]. split_and!.
  - exists u. split; [apply in_or_app; right; by left | done].
  - intros Hin. apply in_app_or in Hin as [Hin|[Hin|[]]]; [|done]. apply (li_closed l Hl) in Hin. unfold c in Hin. lia.
  - rewrite (li_none l Hl Ec). done.
Qed.
Lemma handle_inv c body fds l : link_inv l -> l_conn l = Some c -> link_inv (handle c body fds l).1.
Proof.
  intros Hl Hc. unfold handle, bind, lift, get. destruct (value_str body "type" "") as [type|]; [|done]. destruct (String.eqb type "hello").
  - destruct (value_str body "protocol" "") as [p|]; [|done]. destruct (String.eqb p PROTOCOL); cbn [negb].
    + destruct (value_str body "helper" "?"); cbn; [|exact (link_welcome l c Hl Hc)].
      pose proof (link_welcome l c Hl Hc) as Hw. apply (link_put _ (LPresence true)) in Hw; [exact Hw | done | done].
    + assert (link_inv {| l with l_out := l_out l ++ [LSend c (msg "refuse" [("reason"%string, JStr ("this agent speaks " +:+ PROTOCOL))])] |}) as Hr by (apply link_put; [done | by left | done]).
      cbn. destruct (value_str body "protocol" "nothing"); [|exact Hr]. exact (drop_inv true _ Hr).
  - cbn. destruct (l_welcomed l) eqn:Ew; [|done]. cbn. destruct (li_conn l Hl c Hc) as (? & ? & Hw). apply link_put; [done | cbn; by auto | done].
Qed.
Lemma step_inv i l : link_inv l -> link_inv (l_step i l).1.
Proof.
  intros Hl. destruct i as [peer|r|body|]; cbn [l_step]; [by apply accept_inv | | | by apply drop_inv].
  - unfold on_readable, bind, get. destruct (l_conn l) as [c|] eqn:Ec; [|done]. destruct r; try done; [by apply handle_inv | by apply drop_inv | by apply drop_inv].
  - unfold l_send, bind, get. destruct (l_conn l) as [c|] eqn:Ec; [|done]. destruct (l_welcomed l) eqn:Ew; [|done]. cbn.
    destruct (li_conn l Hl c Ec) as (? & ? & Hw). apply link_put; [done | right; by auto | done].
Qed.
Definition same_uid (l l' : Listener) : Prop := l_uid l = l_uid l'.
#[local] Instance same_uid_preorder : PreOrder same_uid.
Proof. split; [done | intros ???; unfold same_uid; congruence]. Qed.
Lemma step_uid i : respects same_uid (l_step i).
Proof.
  destruct i; cbn; unfold on_accept, on_readable, handle, l_send, l_drop, raw_send, l_put; repeat respects_step; by apply respects_modify.
Qed.
Lemma link_run_inv uid ins : link_inv (l_run uid ins) /\ l_uid (l_run uid ins) = uid.
Proof.
  induction ins as [|i ins [IH1 IH2]] using rev_ind; [split; [by split | done]|]. unfold l_run in *. rewrite foldl_app. cbn. split; [by apply step_inv|].
  etrans; [symmetry; exact (step_uid i _) | exact IH2].
Qed.
Definition hello : json := msg "hello" [("protocol", JStr PROTOCOL); ("helper", JStr "fjarr-desktop-session")].
Definition visit : list LInput := [LIAccept (Some 0); LIAccept (Some 1000); LIReadable (RMessage hello []); LIReadable (RMessage (msg "monitors" []) [])].

(** A hello whose protocol is not a string throws where nothing catches: the handlers run under
    GLib, so the helper's account ends the agent with one message. *)
Theorem hello_throws : exists l', l_step (LIReadable (RMessage (msg "hello" [("protocol", JUint 1)]) [])) (l_run 1000 [LIAccept (Some 1000)]) = (l', Throw type_error).
Proof. by eexists; vm_compute. Qed.
(** A helper that says hello twice is reported present twice. *)
Theorem presence_repeated : l_out (l_run 1000 [LIAccept (Some 1000); LIReadable (RMessage hello []); LIReadable (RMessage hello [])])
  = [LAccept 0 (Some 1000); LSend 0 welcome; LPresence true; LSend 0 welcome; LPresence true].
Proof. by vm_compute. Qed.
