(* ===== verification/MutterDisplay.v ===== *)
(** * MutterDisplay: the layout mutter reports and the one asked of it (desktop-session/mutter.cpp)

    [GetCurrentState] as the tuple it is: the monitors with their modes, and the logical monitors
    that show them. A scale is a binary64 value that is only passed on. The calls over the bus are
    the helper's ([SessionHelper]).

    Then: making a monitor primary keeps the rest of the layout, and a ghost that gave way is
    not asked about again. *)

From Stdlib Require Import ZArith Lia Ascii String.
From stdpp Require Import base list strings.
From S2P Require Import Prelude StdMap Floats Screens.

Record Mode := { mode_id : string; mode_w : Z; mode_h : Z; is_current : bool }.
Record Connected := { cn_connector : string; cn_vendor : string; cn_product : string; cn_serial : string; cn_modes : list Mode; cn_display : option string }.
Record Logical := { lg_x : Z; lg_y : Z; lg_scale : dbl; lg_transform : Z; lg_primary : bool; lg_specs : list string }.
Record DisplayState := { ds_serial : Z; ds_monitors : list Connected; ds_logical : list Logical }.

Record MonitorInfo := {
  mi_connector : string; mi_name : string; mi_vendor : string; mi_product : string; mi_serial : string;
  mi_x : Z; mi_y : Z; mi_width : Z; mi_height : Z; mi_scale : dbl; mi_primary : bool; mi_virtual : bool
}.
Record Physical := { ph_vendor : string; ph_product : string; ph_serial : string; ph_name : string; ph_w : Z; ph_h : Z }.
(** The size of the last mode that is current. *)
Definition physical_of (c : Connected) : Physical :=
  let '(w, h) := foldl (fun wh m => if is_current m then (mode_w m, mode_h m) else wh) (0, 0) (cn_modes c) in
  {| ph_vendor := cn_vendor c; ph_product := cn_product c; ph_serial := cn_serial c; ph_name := default "" (cn_display c); ph_w := w; ph_h := h |}.
Definition physicals (d : DisplayState) : list (string * Physical) := foldl (fun m c => sm_set (cn_connector c) (physical_of c) m) [] (ds_monitors d).
Definition is_meta (connector : string) : bool := starts_with (chars "Meta-") (chars connector).
Definition shown_by (ph : list (string * Physical)) (l : Logical) (connector : string) : option MonitorInfo :=
  match sm_find connector ph with
  | None => None
  | Some p => Some {| mi_connector := connector; mi_name := ph_name p; mi_vendor := ph_vendor p; mi_product := ph_product p; mi_serial := ph_serial p;
                      mi_x := lg_x l; mi_y := lg_y l; mi_width := ph_w p; mi_height := ph_h p; mi_scale := lg_scale l;
                      mi_primary := lg_primary l; mi_virtual := is_meta connector |}
  end.
Definition current_monitors (d : DisplayState) : list MonitorInfo :=
  flat_map (fun l => omap (shown_by (physicals d) l) (lg_specs l)) (ds_logical d).

(** What [ApplyMonitorsConfig] is asked for: the same logical monitors, the primary flag moved. *)
Record Applied := { ap_x : Z; ap_y : Z; ap_scale : dbl; ap_transform : Z; ap_primary : bool; ap_monitors : list (string * string) }.
Definition mode_of (d : DisplayState) : list (string * string) :=
  foldl (fun m c => foldl (fun m k => if is_current k then sm_set (cn_connector c) (mode_id k) m else m) m (cn_modes c)) [] (ds_monitors d).
Definition holds (target : string) (l : Logical) : bool := existsb (String.eqb target) (lg_specs l).
Definition applied (d : DisplayState) (target : string) (l : Logical) : Applied :=
  {| ap_x := lg_x l; ap_y := lg_y l; ap_scale := lg_scale l; ap_transform := lg_transform l; ap_primary := holds target l;
     ap_monitors := map (fun c => (c, default "" (sm_find c (mode_of d)))) (lg_specs l) |}.
(** [None]: the target is in no logical monitor. *)
Definition primary_config (target : string) (d : DisplayState) : option (Z * list Applied) :=
  if existsb (holds target) (ds_logical d) then Some (ds_serial d, map (applied d target) (ds_logical d)) else None.
Definition cursor_mode (cursor : string) : Z := if String.eqb cursor "hidden" then 0 else if String.eqb cursor "metadata" then 2 else 1.

(** As the helper sees them for the ghost rules. *)
Definition screen_of (m : MonitorInfo) : Screen :=
  {| connector := mi_connector m; s_primary := mi_primary m; ghost := String.eqb (mi_vendor m) "FJR"; is_virtual := mi_virtual m; s_x := mi_x m; s_y := mi_y m |}.
Definition screens (d : DisplayState) : list Screen := map screen_of (current_monitors d).

(** ** A ghost that gave way *)
(** What mutter does with the configuration: the logical monitors become the ones asked for. *)
Definition apply_config (config : list Applied) (d : DisplayState) : DisplayState :=
  {| d with ds_logical := map (fun a => {| lg_x := ap_x a; lg_y := ap_y a; lg_scale := ap_scale a; lg_transform := ap_transform a;
                                           lg_primary := ap_primary a; lg_specs := map fst (ap_monitors a) |}) config |}.
Lemma current_in d m : In m (current_monitors d) <-> exists l, In l (ds_logical d) /\ In (mi_connector m) (lg_specs l) /\ shown_by (physicals d) l (mi_connector m) = Some m.
Proof.
  unfold current_monitors. rewrite in_flat_map. split; intros (l & Hl & Hm); exists l; (split; [done|]).
  - apply list_elem_of_In, list_elem_of_omap in Hm as (c & Hc & Hs). assert (mi_connector m = c) as ->.
    { unfold shown_by in Hs. destruct (sm_find c (physicals d)); [|done]. by injection Hs as <-. }
    split; [by apply list_elem_of_In | done].
  - destruct Hm as [H1 H2]. apply list_elem_of_In, list_elem_of_omap. exists (mi_connector m). split; [by apply list_elem_of_In | done].
Qed.
Lemma applied_specs d target l : map fst (ap_monitors (applied d target l)) = lg_specs l.
Proof. cbn. rewrite map_map. cbn. by rewrite map_id. Qed.
(** Moving the primary flag moves nothing else, and settles the ghosts. When a ghost leads and
    a real monitor is made primary, the configuration asked of mutter has the same logical monitors
    with their positions, scales, transforms and connectors, and the primary flag on exactly those that show
    the chosen monitor, which is a real one. Of the layout mutter then reports, no monitor is to be made primary. *)
Theorem primary_moved d target serial config : primary_to_make (screens d) = Some target -> primary_config target d = Some (serial, config) ->
  map (fun a => (ap_x a, ap_y a, ap_scale a, ap_transform a, map fst (ap_monitors a), ap_primary a)) config
    = map (fun l => (lg_x l, lg_y l, lg_scale l, lg_transform l, lg_specs l, holds target l)) (ds_logical d)
  /\ primary_to_make (screens (apply_config config d)) = None.
Proof.
  intros Hp Hc. unfold primary_config in Hc. destruct (existsb _ _); [|done]. injection Hc as <- <-. split.
  { rewrite map_map. apply map_ext. intros l. by rewrite applied_specs. }
  destruct (primary_chosen _ _ Hp) as (s & Hs & Hn & Hr & _).
  apply in_map_iff in Hs as (m & <- & Hm). apply current_in in Hm as (l & Hl & Hspec & Hsh).
  assert (existsb (fun s => real s && s_primary s) (screens (apply_config (map (applied d target) (ds_logical d)) d)) = true) as He.
  { apply existsb_exists. exists (screen_of {| m with mi_primary := true |}). split.
    - apply in_map, current_in. eexists. split; [unfold apply_config; cbn [ds_logical]; apply in_map, in_map, Hl|]. cbn [lg_specs mi_connector]. rewrite applied_specs. split; [done|].
      unfold shown_by in *. change (physicals (apply_config _ d)) with (physicals d). destruct (sm_find (mi_connector m) (physicals d)) as [p|]; [|done].
      injection Hsh as <-. cbn. do 2 f_equal. unfold holds. apply existsb_exists. exists (mi_connector m). cbn in *. split; [done | by rewrite <- Hn, String.eqb_refl].
    - unfold real in *. cbn in *. by rewrite Hr. }
  unfold primary_to_make. rewrite He. by destruct (negb _).
Qed.
Definition plugged_in (c v : string) : Connected := {| cn_connector := c; cn_vendor := v; cn_product := "P"; cn_serial := "1"; cn_modes := [{| mode_id := "1920x1080@60"; mode_w := 1920; mode_h := 1080; is_current := true |}]; cn_display := None |}.
Definition desk : DisplayState := {| ds_serial := 4; ds_monitors := [plugged_in "HDMI-1" "FJR"; plugged_in "DP-1" "DEL"];
  ds_logical := [{| lg_x := 0; lg_y := 0; lg_scale := of_Z 1; lg_transform := 0; lg_primary := true; lg_specs := ["HDMI-1"%string] |};
                 {| lg_x := 1920; lg_y := 0; lg_scale := of_Z 1; lg_transform := 0; lg_primary := false; lg_specs := ["DP-1"%string] |}] |}.
Lemma primary_moved_witness : exists serial config, primary_config "DP-1" desk = Some (serial, config) /\ primary_to_make (screens (apply_config config desk)) = None.
Proof.
  eexists 4, _. split; [vm_compute; reflexivity|]. refine (proj2 (primary_moved desk "DP-1" 4 _ _ _)); vm_compute; reflexivity.
Defined.
