(* ===== verification/SessionHelper.v ===== *)
(** * SessionHelper: the desktop user's side of the handover (desktop-session/main.cpp, mutter.cpp)

    fjarr-desktop-session connects to the agent's socket, and on the agent's word alone opens
    mutter's screen casts and its input session, hands over descriptors, and gives the agent's
    clipboard content to pastes. A handler is a computation over the helper and the history of what
    it did on the bus and the socket; mutter's and PipeWire's answers, the sockets and the
    applications that paste are the environment's, and may depend on the history. Sessions on
    the bus are numbered by the history when they are made. A JSON type error is not caught in this
    program and ends it; the state it leaves is looked at all the same. Callbacks deferred to the
    loop's idle queue are [idles]. *)

From Stdlib Require Import ZArith Lia Strings.Byte Ascii String.
From stdpp Require Import base list strings pretty relations.
From S2P Require Import Prelude Monad StdMap Json Floats DesktopTables Screens MutterDisplay HelperLink.

(** A descriptor given to the agent. *)
Inductive Given := GNode (node : Z) | GEis | GSelection (mime : string).
Record StreamInfo := { si_node : Z; si_x : Z; si_y : Z; si_w : Z; si_h : Z }.
Record Sink := { sink_node : Z; sink_name : string; sink_description : string }.
Inductive HCall :=
| HConnected | HHungUp | HRetryIn (seconds : Z)
| HSend (body : json) (fds : list Given)
| CastMade (n : nat) | CastRecord (n : nat) (connector : option string) (mode : Z) | CastStart (n : nat) | CastStop (n : nat)
| CastClosed (n : nat)                                      (* by mutter *)
| InputMade (n : nat) | InputStart (n : nat) | InputStop (n : nat) | InputClosed (n : nat)
| EisAsked (n : nat) | ClipboardAsked (n : nat) | SelectionRead (n : nat) (mime : string) | SelectionSet (n : nat) (types : list string)
| SelectionWrite (n : option nat) (serial : Z) (given : bool) | SelectionDone (n : option nat) (serial : Z) (ok : bool)
| PrimaryAsked (serial : Z) (config : list Applied)
| ContentRead (bytes : list byte)                           (* the descriptor of a clipboard-set, whole *)
| Pasted (serial : Z) (bytes : list byte).                  (* written to a paste's descriptor *)

(** [None]: the call succeeds; otherwise its error. *)
Class Session := {
  connects : list HCall -> bool;
  cast_made : list HCall -> option string; cast_records : list HCall -> option string; cast_starts : list HCall -> option string;
  input_made : list HCall -> option string; input_starts : list HCall -> option string; eis_given : list HCall -> option string;
  clipboard_on : list HCall -> option string; selection_given : list HCall -> option string; selection_taken : list HCall -> option string; write_given : list HCall -> option string;
  display : list HCall -> string + DisplayState; primary_taken : list HCall -> option string;
  narrowed : list HCall -> Z -> option string;              (* open_narrowed_pipewire *)
  default_sink : list HCall -> option Sink;
  desktop_name : string                                     (* XDG_CURRENT_DESKTOP, or GNOME *)
}.

(** [cp_done]: [done_] has not run yet; [cp_open]: [path_] is not empty. *)
Record Capture := { cp_cast : nat; cp_open : bool; cp_done : bool }.
Record Recording := { rc_connector : string; rc_capture : Capture; rc_virtual : bool; rc_before : list string }.
(** [in_subs]: the sessions of the clipboard subscriptions, each of both signals. *)
Record InputSession := { in_path : option nat; in_clipboard : bool; in_subs : list nat }.
Definition new_input : InputSession := {| in_path := None; in_clipboard := false; in_subs := [] |}.
Record Transfer := { tr_data : list byte; tr_off : Z }.
(** The memory file of a clipboard-set: what the reads give, and how they end. *)
Record MemFd := { chunks : list (list byte); ends : option string }.
Inductive Wrote := WTook (n : nat) | WAgain | WIntr | WFailed.
Inductive Idle := IdleCapture (id : Z) | IdleInput.
(** [orphans]: subscriptions to MonitorsChanged whose id a second welcome overwrote. *)
Record Helper := {
  sock : bool; welcomed : bool; monitors_sub : bool; orphans : nat; backoff_s : Z; retrying : bool;
  primary_tried_for : string; speakers_sent : option string; input_ : option InputSession; captures : list (Z * Recording);
  clipboard : option (list byte); robot_types : list string; transfers : list (Z * Transfer); idles : list Idle; calls : list HCall
}.
Definition new_helper : Helper := {|
  sock := false; welcomed := false; monitors_sub := false; orphans := 0; backoff_s := 1; retrying := false;
  primary_tried_for := ""; speakers_sent := None; input_ := None; captures := []; clipboard := None; robot_types := []; transfers := []; idles := []; calls := [] |}.

Section Helper.
Context `{SE : Session}.
Abbreviation P := (Prog Helper).
Definition update (f : Helper -> Helper) : P unit := modify f.
Definition call (c : HCall) : P unit := update (fun h => {| h with calls := calls h ++ [c] |}).
(** A call and what comes back. *)
Definition ask {A} (answer : list HCall -> A) (c : HCall) : P A := do h <- get; call c ;; ret (answer (calls h)).
Definition send (body : json) (fds : list Given) : P unit := do h <- get; when (sock h) (call (HSend body fds)).
Definition say (type : string) (fields : list (string * json)) : P unit := send (msg type fields) [].

(** ** The socket *)
Definition retry_later : P unit :=
  do h <- get; call (HRetryIn (backoff_s h)) ;; update (fun h => {| h with retrying := true; backoff_s := Z.min (backoff_s h * 2) 10 |}).
Definition try_connect : P unit :=
  do h <- get;
  if negb (connects (calls h)) then retry_later
  else
    call HConnected ;; update (fun h => {| h with sock := true |}) ;;
    say "hello" [("protocol", JStr PROTOCOL); ("helper", JStr "fjarr-desktop-session");
                 ("session", jobj [("type", JStr "wayland"); ("desktop", JStr desktop_name); ("compositor", JStr "mutter")])].
Definition destroy_capture (c : Capture) : P unit := when (cp_open c) (call (CastStop (cp_cast c))).
(** [std::map::erase]: the capture's session on the bus stops with it. *)
Definition erase_capture (id : Z) : P unit :=
  do h <- get;
  match sm_find id (captures h) with
  | None => ret tt
  | Some r => update (fun h => {| h with captures := sm_erase id (captures h) |}) ;; destroy_capture (rc_capture r)
  end.
(** [InputSession::stop], also what its destructor does. *)
Definition stop_input : P unit :=
  do h <- get;
  match input_ h with
  | None => ret tt
  | Some i => update (fun h => {| h with input_ := Some new_input |}) ;; match in_path i with Some n => call (InputStop n) | None => ret tt end
  end.
Definition reset_input : P unit := stop_input ;; update (fun h => {| h with input_ := None |}).
Definition disconnect : P unit :=
  call HHungUp ;; update (fun h => {| h with sock := false; welcomed := false; speakers_sent := None |}) ;;
  do h <- get;
  update (fun h => {| h with captures := [] |}) ;; for_each (captures h) (fun kv => destroy_capture (rc_capture kv.2)) ;;
  update (fun h => {| h with clipboard := None; transfers := []; monitors_sub := false |}) ;;
  reset_input ;; update (fun h => {| h with backoff_s := 1 |}) ;; retry_later.

(** ** Monitors *)
Definition layout_text (ms : list MonitorInfo) : string :=
  String.concat "" (map (fun m => mi_connector m +:+ (if mi_primary m then "*" else "") +:+ "@" +:+ pretty (mi_x m) +:+ "," +:+ pretty (mi_y m) +:+ ";") ms).
Definition monitors_now (h : list HCall) : list MonitorInfo := match display h with inl _ => [] | inr d => current_monitors d end.
(** [make_primary]: asked of the layout as it is then. *)
Definition make_primary (target : string) : P unit :=
  do h <- get;
  match display (calls h) with
  | inl _ => ret tt
  | inr d => match primary_config target d with
             | None => ret tt
             | Some (serial, config) => do _ <- ask primary_taken (PrimaryAsked serial config); ret tt
             end
  end.
Definition enforce_primary (ms : list MonitorInfo) : P unit :=
  match primary_to_make (map screen_of ms) with
  | None => ret tt
  | Some target =>
    do h <- get;
    if String.eqb (layout_text ms) (primary_tried_for h) then ret tt
    else update (fun h => {| h with primary_tried_for := layout_text ms |}) ;; make_primary target
  end.
Definition set_connector (id : Z) (c : string) (h : Helper) : Helper :=
  match sm_find id (captures h) with Some r => {| h with captures := sm_set id {| r with rc_connector := c |} (captures h) |} | None => h end.
(** The first virtual monitor that was not there before and that no capture has. *)
Definition find_virtual (r : Recording) (caps : list (Z * Recording)) (ms : list MonitorInfo) : option MonitorInfo :=
  List.find (fun m => mi_virtual m && negb (existsb (String.eqb (mi_connector m)) (rc_before r)) && negb (existsb (fun kv => String.eqb (rc_connector kv.2) (mi_connector m)) caps)) ms.
Definition name_virtual (ms : list MonitorInfo) (id : Z) : P unit :=
  do h <- get;
  match sm_find id (captures h) with
  | None => ret tt
  | Some r =>
    if negb (rc_virtual r) || negb (String.eqb (rc_connector r) "") then ret tt
    else match find_virtual r (captures h) ms with
         | None => ret tt
         | Some m => update (set_connector id (mi_connector m)) ;; say "virtual-connector" [("id", JInt id); ("connector", JStr (mi_connector m))]
         end
  end.
Definition drop_gone (ms : list MonitorInfo) (id : Z) : P unit :=
  do h <- get;
  match sm_find id (captures h) with
  | None => ret tt
  | Some r =>
    if existsb (fun m => String.eqb (mi_connector m) (rc_connector r)) ms || String.eqb (rc_connector r) "" || rc_virtual r then ret tt
    else say "capture-lost" [("id", JInt id); ("reason", JStr "monitor-gone")] ;; erase_capture id
  end.
Definition monitor_json (sole : option string) (m : MonitorInfo) : json :=
  jobj [("connector", JStr (mi_connector m)); ("name", JStr (mi_name m));
        ("identity", jobj [("vendor", JStr (mi_vendor m)); ("product", JStr (mi_product m)); ("serial", JStr (mi_serial m))]);
        ("x", JInt (mi_x m)); ("y", JInt (mi_y m)); ("width", JInt (mi_width m)); ("height", JInt (mi_height m)); ("scale", JFloat (mi_scale m));
        ("primary", JBool (match sole with Some s => String.eqb (mi_connector m) s | None => mi_primary m end)); ("kind", JStr (if mi_virtual m then "virtual" else "physical"))].
Definition send_monitors : P unit :=
  do h <- get;
  let ms := monitors_now (calls h) in
  enforce_primary ms ;;
  do h <- get; for_each (map fst (captures h)) (name_virtual ms) ;;
  do h <- get; for_each (map fst (captures h)) (drop_gone ms) ;;
  say "monitors" [("monitors", JArr (map (monitor_json (sole_primary (map screen_of ms))) ms))].

(** ** Captures *)
Definition failed (type : string) (id : Z) (reason : string) : P unit := say type [("id", JInt id); ("reason", JStr reason)].
Definition recorded (id : Z) (r : string + StreamInfo) : P unit :=
  match r with
  | inl error => failed "capture-failed" id error ;; erase_capture id
  | inr i =>
    do h <- get;
    match narrowed (calls h) (si_node i) with
    | Some err => failed "capture-failed" id err ;; erase_capture id
    | None => send (msg "capture-started" [("id", JInt id); ("node", JUint (si_node i)); ("x", JInt (si_x i)); ("y", JInt (si_y i)); ("width", JInt (si_w i)); ("height", JInt (si_h i))])
                   [GNode (si_node i)]
    end
  end.
(** A cast made for a capture that did not start stops with it. *)
Definition start_any (id : Z) (connector : option string) (cursor : string) : P (option Capture) :=
  do h <- get;
  let n := length (calls h) in
  match cast_made (calls h) with
  | Some error => recorded id (inl error) ;; ret None
  | None =>
    call (CastMade n) ;;
    do e <- ask cast_records (CastRecord n connector (cursor_mode cursor));
    match e with
    | Some error => recorded id (inl error) ;; call (CastStop n) ;; ret None
    | None =>
      do e <- ask cast_starts (CastStart n);
      match e with
      | Some error => recorded id (inl error) ;; call (CastStop n) ;; ret None
      | None => ret (Some {| cp_cast := n; cp_open := true; cp_done := true |})
      end
    end
  end.
Definition start_capture (req : json) (virtual_monitor : bool) : P unit :=
  do id <- lift (value_int req "id" 0);
  do connector <- (if virtual_monitor then ret ""%string else lift (value_str req "connector" ""));
  do h <- get;
  let before := if virtual_monitor then map mi_connector (List.filter mi_virtual (monitors_now (calls h))) else [] in
  do cursor <- lift (value_str req "cursor" "embedded");
  do cap <- start_any id (if virtual_monitor then None else Some connector) cursor;
  match cap with
  | None => ret tt
  | Some c =>
    do h <- get;
    update (fun h => {| h with captures := sm_set id {| rc_connector := connector; rc_capture := c; rc_virtual := virtual_monitor; rc_before := before |} (captures h) |}) ;;
    match sm_find id (captures h) with Some old => destroy_capture (rc_capture old) | None => ret tt end
  end.

(** ** Speakers *)
Definition send_speakers : P unit :=
  do h <- get;
  when (welcomed h) (
    let sink := default_sink (calls h) in
    let now := match sink with Some s => sink_name s | None => ""%string end in
    when (negb (bool_decide (speakers_sent h = Some now))) (
      update (fun h => {| h with speakers_sent := Some now |}) ;;
      match sink with
      | Some s => say "speakers" [("sink", jobj [("name", JStr (sink_name s)); ("description", JStr (sink_description s))])]
      | None => say "speakers" [("sink", JNull)]
      end)).
Definition start_audio (id : Z) : P unit :=
  do h <- get;
  match default_sink (calls h) with
  | None => failed "audio-failed" id "the desktop has no output"
  | Some s => match narrowed (calls h) (sink_node s) with
              | Some err => failed "audio-failed" id err
              | None => send (msg "audio-started" [("id", JInt id); ("node", JUint (sink_node s)); ("name", JStr (sink_name s))]) [GNode (sink_node s)]
              end
  end.

(** ** The input session. [None]: done; otherwise the error. *)
Definition input : P InputSession :=
  do h <- get;
  match input_ h with Some i => ret i | None => update (fun h => {| h with input_ := Some new_input |}) ;; ret new_input end.
Definition set_input (f : InputSession -> InputSession) : P unit :=
  update (fun h => {| h with input_ := f <$> input_ h |}).
Definition ensure_started : P (option string) :=
  do i <- input;
  match in_path i with
  | Some _ => ret None
  | None =>
    do h <- get;
    match input_made (calls h) with
    | Some e => ret (Some e)
    | None =>
      let n := length (calls h) in
      call (InputMade n) ;; set_input (fun i => {| i with in_path := Some n |}) ;;
      do e <- ask input_starts (InputStart n);
      match e with None => ret None | Some e => stop_input ;; ret (Some e) end
    end
  end.
(** A method of the session: without a path GLib makes no call, and no error. *)
Definition on_session (method : string) (answer : list HCall -> option string) (c : nat -> HCall) : P (option string) :=
  do i <- input;
  match in_path i with Some n => ask answer (c n) | None => ret (Some (method +:+ ": unknown error")) end.
Definition connect_eis : P (option string) :=
  do e <- ensure_started;
  match e with Some e => ret (Some e) | None => on_session "ConnectToEIS" eis_given EisAsked end.
Definition enable_clipboard : P (option string) :=
  do i <- input;
  if in_clipboard i then ret None
  else
    do e <- ensure_started;
    match e with
    | Some e => ret (Some e)
    | None =>
      set_input (fun i => {| i with in_subs := match in_path i with Some n => n :: in_subs i | None => in_subs i end |}) ;;
      do e <- on_session "EnableClipboard" clipboard_on ClipboardAsked;
      match e with Some e => ret (Some e) | None => set_input (fun i => {| i with in_clipboard := true |}) ;; ret None end
    end.
Definition selection_read (mime : string) : P (option string) :=
  do i <- input;
  if in_clipboard i then on_session "SelectionRead" selection_given (fun n => SelectionRead n mime) else ret (Some "the clipboard is not enabled"%string).
Definition set_selection (types : list string) : P (option string) :=
  do i <- input;
  do e <- (if in_clipboard i then ret None else enable_clipboard);
  match e with Some e => ret (Some e) | None => on_session "SetSelection" selection_taken (fun n => SelectionSet n types) end.
Definition selection_write (serial : Z) : P (option string) :=
  do i <- input; do h <- get;
  let e := match in_path i with Some _ => write_given (calls h) | None => Some "SelectionWrite: unknown error"%string end in
  call (SelectionWrite (in_path i) serial (match e with None => true | Some _ => false end)) ;; ret e.
Definition selection_write_done (serial : Z) (ok : bool) : P unit := do i <- input; call (SelectionDone (in_path i) serial ok).
Definition open_input : P unit :=
  do e <- connect_eis;
  match e with
  | Some err => say "input-failed" [("reason", JStr err)]
  | None => send (msg "input-opened" []) [GEis] ;; do _ <- enable_clipboard; ret tt
  end.

(** ** The clipboard *)
Definition clipboard_failed (id : Z) (why : string) : P unit := failed "clipboard-failed" id why.
Definition clipboard_read (req : json) : P unit :=
  do id <- lift (value_int req "id" 0);
  do mime <- lift (value_str req "mime" "");
  do h <- get;
  if negb (mem mime (robot_types h)) then clipboard_failed id ("the robot's clipboard offers no '" +:+ mime +:+ "'")
  else
    do e <- enable_clipboard;
    do e <- (match e with Some e => ret (Some e) | None => selection_read mime end);
    match e with
    | Some err => clipboard_failed id err
    | None => send (msg "clipboard-data" [("id", JInt id)]) [GSelection mime]
    end.
(** [m.body.value("types", std::vector<std::string>{TEXT})] *)
Fixpoint strings (l : list json) : result (list string) :=
  match l with
  | [] => Ok []
  | JStr s :: l' => let* r := strings l' in Ok (s :: r)
  | _ => Throw type_error
  end.
Definition value_types (j : json) : result (list string) :=
  match j with
  | JObj m => match sm_find "types" m with Some (JArr l) => strings l | Some _ => Throw type_error | None => Ok [TEXT] end
  | _ => Throw type_error
  end.
Fixpoint read_content (limit : Z) (acc : list byte) (chunks : list (list byte)) (ends : option string) : string + list byte :=
  match chunks with
  | [] => match ends with Some err => inl ("reading the content: " +:+ err) | None => inr acc end
  | [] :: _ => inr acc
  | c :: chunks' =>
    let acc := acc ++ c in
    if limit <? zlen acc then inl ("larger than " +:+ pretty limit +:+ " bytes") else read_content limit acc chunks' ends
  end.
Definition clipboard_set (body : json) (fds : list MemFd) : P unit :=
  do id <- lift (value_int body "id" 0);
  match fds with
  | [] => clipboard_failed id "no content came with clipboard-set"
  | fd :: _ =>
    do types <- lift (value_types body);
    let type := match types with t :: _ => t | [] => TEXT end in
    let limit := max_bytes type in
    if limit =? 0 then clipboard_failed id ("the clipboard takes text/plain or image/png, not " +:+ type)
    else match read_content limit [] (chunks fd) (ends fd) with
         | inl why => clipboard_failed id why
         | inr bytes =>
           call (ContentRead bytes) ;;
           do e <- set_selection (compositor_names type);
           match e with
           | Some err => clipboard_failed id err
           | None => update (fun h => {| h with clipboard := Some bytes |}) ;; say "clipboard-set-done" [("id", JInt id)]
           end
         end
  end.
Definition answer_transfer (serial : Z) : P unit :=
  do h <- get;
  match clipboard h with
  | None => selection_write_done serial false
  | Some content =>
    do e <- selection_write serial;
    match e with
    | Some _ => selection_write_done serial false
    | None => update (fun h => {| h with transfers := sm_set serial {| tr_data := content; tr_off := 0 |} (transfers h) |})
    end
  end.
(** The writes of one turn of the loop; [None]: the descriptor takes no more for now. *)
Fixpoint write_out (data : list byte) (off : Z) (script : list Wrote) : Z * option bool :=
  if negb (off <? zlen data) then (off, Some true)
  else match script with
       | [] | WAgain :: _ => (off, None)
       | WIntr :: script' => write_out data off script'
       | WFailed :: _ => (off, Some false)
       | WTook n :: script' => write_out data (off + Z.min (Z.of_nat n) (zlen data - off)) script'
       end.
Definition on_writable (serial : Z) (out : bool) (script : list Wrote) : P unit :=
  do h <- get;
  match sm_find serial (transfers h) with
  | None => ret tt
  | Some t =>
    let '(off, done) := if out then write_out (tr_data t) (tr_off t) script else (tr_off t, Some false) in
    call (Pasted serial (take (Z.to_nat (off - tr_off t)) (drop (Z.to_nat (tr_off t)) (tr_data t)))) ;;
    match done with
    | None => update (fun h => {| h with transfers := sm_set serial {| t with tr_off := off |} (transfers h) |})
    | Some ok => selection_write_done serial ok ;; update (fun h => {| h with transfers := sm_erase serial (transfers h) |})
    end
  end.

(** ** The agent's messages *)
Definition handle (body : json) (fds : list MemFd) : P unit :=
  do type <- lift (value_str body "type" "");
  if String.eqb type "welcome" then
    update (fun h => {| h with welcomed := true |}) ;;
    send_monitors ;;
    update (fun h => {| h with monitors_sub := true; orphans := if monitors_sub h then S (orphans h) else orphans h |}) ;;
    send_speakers
  else if String.eqb type "refuse" then do _ <- lift (value_str body "reason" "no reason given"); ret tt
  else
    do h <- get;
    if negb (welcomed h) then ret tt
    else if String.eqb type "start-capture" then start_capture body false
    else if String.eqb type "add-virtual" then start_capture body true
    else if String.eqb type "stop-capture" then do id <- lift (value_int body "id" 0); erase_capture id
    else if String.eqb type "open-input" then open_input
    else if String.eqb type "clipboard-read" then clipboard_read body
    else if String.eqb type "clipboard-set" then clipboard_set body fds
    else when (String.eqb type "start-audio") (do id <- lift (value_int body "id" 0); start_audio id).
Definition on_readable (r : Received MemFd) : P unit :=
  match r with
  | RMessage body fds => handle body fds
  | RWouldBlock | RInvalid _ => ret tt
  | RClosed | RError _ => disconnect
  end.

(** ** Mutter's signals *)
Definition capture_of (n : nat) (h : Helper) : option (Z * Recording) := List.find (fun kv => Nat.eqb (cp_cast (rc_capture kv.2)) n) (captures h).
Definition set_capture (id : Z) (r : Recording) (c : Capture) : P unit :=
  update (fun h => {| h with captures := sm_set id {| r with rc_capture := c |} (captures h) |}).
Definition stream_added (n : nat) (i : StreamInfo) : P unit :=
  do h <- get;
  match capture_of n h with
  | None => ret tt
  | Some (id, r) => when (cp_done (rc_capture r)) (set_capture id r {| (rc_capture r) with cp_done := false |} ;; recorded id (inr i))
  end.
Definition cast_closed (n : nat) : P unit :=
  do h <- get;
  match capture_of n h with
  | None => ret tt
  | Some (id, r) =>
    call (CastClosed n) ;; set_capture id r {| (rc_capture r) with cp_open := false |} ;;
    update (fun h => {| h with idles := idles h ++ [IdleCapture id] |})
  end.
Definition input_closed (n : nat) : P unit :=
  do h <- get;
  match input_ h with
  | None => ret tt
  | Some i =>
    when (bool_decide (in_path i = Some n))
      (call (InputClosed n) ;; set_input (fun i => {| i with in_path := None |}) ;; update (fun h => {| h with idles := idles h ++ [IdleInput] |}))
  end.
Definition owner_changed (ours : bool) (types : list string) : P unit :=
  update (fun h => {| h with robot_types := if ours then [] else types |}) ;;
  if ours then ret tt else update (fun h => {| h with clipboard := None |}) ;; say "clipboard-changed" [("types", JArr (map JStr types))].
(** A signal of session [n] runs once for each subscription to it. *)
Definition subscribed (n : nat) (k : P unit) : P unit :=
  do h <- get;
  match input_ h with None => ret tt | Some i => for_each (List.filter (Nat.eqb n) (in_subs i)) (fun _ => k) end.
Definition run_idle : P unit :=
  do h <- get;
  match idles h with
  | [] => ret tt
  | i :: rest =>
    update (fun h => {| h with idles := rest |}) ;;
    match i with
    | IdleCapture id => when (sm_count id (captures h)) (erase_capture id ;; say "capture-lost" [("id", JInt id); ("reason", JStr "stream-stopped")])
    | IdleInput => reset_input ;; update (fun h => {| h with robot_types := [] |}) ;; say "sharing-stopped" []
    end
  end.

Inductive HInput :=
| HIRetry | HIReceive (r : Received MemFd) | HIMonitorsChanged | HISound | HIIdle
| HIStreamAdded (n : nat) (i : StreamInfo) | HICastClosed (n : nat) | HIInputClosed (n : nat)
| HIOwnerChanged (n : nat) (ours : bool) (types : list string) | HITransfer (n : nat) (serial : Z)
| HIWritable (serial : Z) (out : bool) (script : list Wrote).
Definition h_step (i : HInput) : P unit :=
  match i with
  | HIRetry => do h <- get; when (retrying h) (update (fun h => {| h with retrying := false |}) ;; try_connect)
  | HIReceive r => do h <- get; when (sock h) (on_readable r)
  | HIMonitorsChanged => do h <- get; for_each (repeat tt ((if monitors_sub h then 1 else 0) + orphans h)) (fun _ => send_monitors)
  | HISound => send_speakers
  | HIIdle => run_idle
  | HIStreamAdded n i => stream_added n i
  | HICastClosed n => cast_closed n
  | HIInputClosed n => input_closed n
  | HIOwnerChanged n ours types => subscribed n (owner_changed ours types)
  | HITransfer n serial => subscribed n (answer_transfer serial)
  | HIWritable serial out script => on_writable serial out script
  end.
(** [start()], then the loop. *)
Definition h_run (ins : list HInput) : Helper := foldl (fun h i => (h_step i h).1) (try_connect new_helper).1 ins.
End Helper.
