(* ===== verification/SessionHelperProofs.v ===== *)
(** * SessionHelperProofs: nothing is captured for an agent that is gone

    Each screen cast and input session the helper makes on the bus ends, or is held by an entry
    of the helper that will end it; without an agent that welcomed the helper there is none. What a
    paste is given is what the agent sent. *)

From Stdlib Require Import ZArith Lia Strings.Byte Ascii String.
From stdpp Require Import base list strings pretty relations.
From S2P Require Import Prelude Monad StdMap Json Floats DesktopTables Screens MutterDisplay HelperLink SessionHelper.

(** ** Sessions on the bus *)
Inductive BusSession := SCast (n : nat) | SInput (n : nat).
Definition begins (s : BusSession) : HCall := match s with SCast n => CastMade n | SInput n => InputMade n end.
Definition made (h : Helper) (s : BusSession) : Prop := In (begins s) (calls h).
Definition ended (h : Helper) (s : BusSession) : Prop :=
  match s with
  | SCast n => In (CastStop n) (calls h) \/ In (CastClosed n) (calls h)
  | SInput n => In (InputStop n) (calls h) \/ In (InputClosed n) (calls h)
  end.
Definition held (h : Helper) (s : BusSession) : Prop :=
  match s with
  | SCast n => exists id r, sm_find id (captures h) = Some r /\ cp_cast (rc_capture r) = n /\ cp_open (rc_capture r) = true
  | SInput n => exists i, input_ h = Some i /\ in_path i = Some n
  end.

(** What a part of a handler may do, at its worst leaving the sessions of [p] to its caller. *)
Record keeps (p : BusSession -> Prop) (h h' : Helper) : Prop := {
  k_made : forall s, made h' s -> made h s \/ p s \/ ended h' s \/ held h' s;
  k_held : forall s, held h s -> held h' s \/ ended h' s;
  k_ended : forall s, ended h s -> ended h' s;
  k_wf : sm_wf (captures h) -> sm_wf (captures h');
  k_sock : sock h' = sock h;
  k_welcomed : welcomed h' = welcomed h
}.
#[export] Instance keeps_preorder p : PreOrder (keeps p).
Proof.
  split; [intros h; split; by auto|]. intros a b c [M1 H1 E1 F1 S1 W1] [M2 H2 E2 F2 S2 W2]. split; [| | by auto | by auto | congruence | congruence].
  - intros s Hs. destruct (M2 s Hs) as [Hb|?]; [|tauto]. destruct (M1 s Hb) as [?|[?|[?|Hh]]]; [tauto | tauto | by auto|]. destruct (H2 s Hh); tauto.
  - intros s Hs. destruct (H1 s Hs) as [Hh|?]; [by auto | right; by auto].
Qed.
Abbreviation none := (fun _ : BusSession => False).
Lemma keeps_weak (p q : BusSession -> Prop) h h' : (forall s, p s -> q s) -> keeps p h h' -> keeps q h h'.
Proof. intros Hpq [M H E F S W]. split; try done. intros s Hs. destruct (M s Hs) as [?|[?|?]]; by auto. Qed.
(** The caller keeps them in its turn. *)
Lemma keeps_settle p h h' : keeps p h h' -> (forall s, p s -> ended h' s \/ held h' s) -> keeps none h h'.
Proof. intros [M H E F S W] Hp. split; try done. intros s Hs. destruct (M s Hs) as [?|[Hs'|?]]; [by auto | destruct (Hp s Hs'); tauto | tauto]. Qed.

Lemma made_app h c s : made {| h with calls := calls h ++ [c] |} s <-> made h s \/ c = begins s.
Proof. unfold made. cbn. rewrite in_app_iff. cbn. naive_solver. Qed.
Lemma ended_app h l s : ended h s -> ended {| h with calls := calls h ++ l |} s.
Proof. destruct s; cbn; rewrite !in_app_iff; tauto. Qed.
Definition quiet_call (c : HCall) : bool := match c with CastMade _ | InputMade _ => false | _ => true end.
Lemma keeps_call p c : quiet_call c = true -> respects (keeps p) (call c).
Proof.
  intros Hc h. cbn. split; [| by destruct s; auto | intros; by apply ended_app | done | done | done].
  intros s Hs. apply made_app in Hs as [?| ->]; [by auto | by destruct s].
Qed.
Lemma keeps_make p s : p s -> respects (keeps p) (call (begins s)).
Proof.
  intros Hp h. cbn. split; [| by intros s'; destruct s'; auto | intros; by apply ended_app | done | done | done].
  intros s' Hs. apply made_app in Hs as [?|Hs]; [by auto|]. right. left. by destruct s, s'; try done; injection Hs as ->.
Qed.
(** A change of the rest of the state. *)
Lemma keeps_update p f : (forall h, calls (f h) = calls h /\ captures (f h) = captures h /\ input_ (f h) = input_ h /\ sock (f h) = sock h /\ welcomed (f h) = welcomed h) ->
  respects (keeps p) (update f).
Proof.
  intros Hf h. cbn. destruct (Hf h) as (Ec & Ek & Ei & Es & Ew). split; [| | | by rewrite Ek | done | done]; intros s; destruct s; unfold made; cbn; rewrite ?Ec, ?Ek, ?Ei; by auto.
Qed.
(** The captures change: what was open and no longer is, has ended. *)
Lemma keeps_captures p h h' : calls h' = calls h -> input_ h' = input_ h -> sock h' = sock h -> welcomed h' = welcomed h -> (sm_wf (captures h) -> sm_wf (captures h')) ->
  (forall n, held h (SCast n) -> held h' (SCast n) \/ ended h (SCast n)) -> keeps p h h'.
Proof.
  intros Ec Ei Es Ew Hwf Hh. split; try done.
  - intros s. unfold made. rewrite Ec. by auto.
  - intros [n|n] Hs; [|left; cbn in *; by rewrite Ei]. destruct (Hh n Hs) as [?|He]; [by left | right]. cbn in *. by rewrite Ec.
  - intros [n|n]; cbn; by rewrite Ec.
Qed.

Create HintDb helper.
Create HintDb shrink.
Section Keeps.
Context `{SE : Session}.
Ltac keep := repeat first [ respects_step | by apply keeps_call | by apply keeps_update ].
Definition stop_of (r : Recording) : list HCall := if cp_open (rc_capture r) then [CastStop (cp_cast (rc_capture r))] else [].
Lemma destroy_stops r h : destroy_capture (rc_capture r) h = ({| h with calls := calls h ++ stop_of r |}, Ok tt).
Proof. unfold destroy_capture, stop_of. destruct (cp_open _); [done|]. destruct h. cbn. by rewrite app_nil_r. Qed.
(** The entry goes and its session ends, before or after. *)
Lemma replace_keeps p id h r caps : sm_find id (captures h) = Some r -> (sm_wf (captures h) -> sm_wf caps) ->
  (forall k, k <> id -> sm_find k caps = sm_find k (captures h)) -> keeps p h {| h with calls := calls h ++ stop_of r; captures := caps |}.
Proof.
  intros Hr Hwf Hne. transitivity {| h with calls := calls h ++ stop_of r |}.
  - unfold stop_of. destruct (cp_open _); [exact (keeps_call p (CastStop _) eq_refl h)|]. destruct h. cbn. by rewrite app_nil_r.
  - apply keeps_captures; try done. intros n (k & r' & Hf & Hn & Ho). cbn in Hf. destruct (decide (k = id)) as [->|Hk].
    + right. left. assert (r' = r) as -> by congruence. cbn. unfold stop_of. rewrite Ho, Hn. apply in_or_app. right. by left.
    + left. exists k, r'. cbn. by rewrite Hne.
Qed.
Lemma erase_keeps p id : respects (keeps p) (erase_capture id).
Proof.
  intros h. unfold erase_capture, bind, get. destruct (sm_find id (captures h)) as [r|] eqn:Er; [|done]. cbn [update modify fst]. rewrite destroy_stops.
  apply (replace_keeps p id h r); [done | by apply sm_wf_erase | intros; by apply sm_find_erase_ne].
Qed.
Lemma send_keeps p body fds : respects (keeps p) (send body fds).
Proof. unfold send. keep. Qed.
Lemma failed_keeps p type id reason : respects (keeps p) (failed type id reason).
Proof. apply send_keeps. Qed.
Hint Resolve erase_keeps send_keeps failed_keeps : helper.
Ltac keep ::= unfold say, ask; repeat first [ solve [auto with helper nocore] | respects_step | by apply keeps_call | by apply keeps_update ].

Lemma reentry_keeps p id r r' h : sm_find id (captures h) = Some r -> cp_cast (rc_capture r') = cp_cast (rc_capture r) ->
  (cp_open (rc_capture r') = cp_open (rc_capture r) \/ ended h (SCast (cp_cast (rc_capture r)))) -> keeps p h {| h with captures := sm_set id r' (captures h) |}.
Proof.
  intros Hr Hn Ho. apply keeps_captures; try done; [apply sm_wf_set|]. intros n (k & x & Hf & Hx & Hox). destruct (decide (k = id)) as [->|Hk].
  - assert (x = r) as -> by congruence. destruct Ho as [Ho|He]; [left | right; by subst n]. exists id, r'. cbn. rewrite sm_find_set_eq. by rewrite Hn, Ho.
  - left. exists k, x. cbn. by rewrite sm_find_set_ne.
Qed.
Lemma connector_keeps p id c : respects (keeps p) (update (set_connector id c)).
Proof. intros h. cbn. unfold set_connector. destruct (sm_find id (captures h)) as [r|] eqn:Er; [|done]. apply (reentry_keeps p id r); [done | done | by left]. Qed.
Hint Resolve connector_keeps : helper.
Lemma monitors_keeps p : respects (keeps p) send_monitors.
Proof. unfold send_monitors, enforce_primary, make_primary, name_virtual, drop_gone. keep. Qed.
Lemma speakers_keeps p : respects (keeps p) send_speakers.
Proof. unfold send_speakers. keep. Qed.
Lemma audio_keeps p id : respects (keeps p) (start_audio id).
Proof. unfold start_audio. keep. Qed.
Lemma recorded_keeps p id r : respects (keeps p) (recorded id r).
Proof. unfold recorded. keep. Qed.
Hint Resolve monitors_keeps speakers_keeps audio_keeps recorded_keeps : helper.

(** *** A capture starts *)
Lemma recorded_ok id r h : (recorded id r h).2 = Ok tt.
Proof.
  assert (forall type fields h, (say type fields h).2 = Ok tt) as Hs by (intros; unfold say, send, bind, get; by destruct (sock _)).
  assert (forall body fds h, (send body fds h).2 = Ok tt) as Hs' by (intros; unfold send, bind, get; by destruct (sock _)).
  assert (forall h, (erase_capture id h).2 = Ok tt) as He by (intros h0; unfold erase_capture, bind, get; destruct (sm_find id (captures h0)) as [r0|]; [|done]; cbn [update modify]; by rewrite destroy_stops).
  unfold recorded, failed. destruct r as [e|i].
  - unfold bind. pose proof (Hs "capture-failed"%string [("id"%string, JInt id); ("reason"%string, JStr e)] h). destruct (say _ _ h) as [h1 o]. cbn in *. subst o. apply He.
  - unfold bind, get. destruct (narrowed (calls h) (si_node i)) as [e|]; [|apply Hs'].
    pose proof (Hs "capture-failed"%string [("id"%string, JInt id); ("reason"%string, JStr e)] h). destruct (say _ _ h) as [h1 o]. cbn in *. subst o. apply He.
Qed.
Lemma stop_settles n h h' : keeps (eq (SCast n)) h h' -> keeps none h (call (CastStop n) h').1.
Proof.
  intros Hk. apply (keeps_settle (eq (SCast n))); [etrans; [exact Hk | by apply keeps_call]|]. intros s <-. left. left. cbn. apply in_or_app. right. by left.
Qed.
(** A cast that does not start ends with the attempt; one that starts is handed to the caller. *)
Definition started (h h' : Helper) (r : result (option Capture)) : Prop :=
  match r with
  | Ok (Some c) => keeps (eq (SCast (cp_cast c))) h h' /\ cp_open c = true
  | _ => keeps none h h'
  end.
Lemma fails_start n id e h h' : keeps (eq (SCast n)) h h' ->
  let m := (recorded id (inl e) ;; call (CastStop n) ;; ret (@None Capture))%fjarr in started h (m h').1 (m h').2.
Proof.
  intros Hk. cbn zeta. pose proof (recorded_ok id (inl e) h') as Ho. pose proof (recorded_keeps (eq (SCast n)) id (inl e) h') as Hr.
  destruct (recorded id (inl e) h') as [h1 o] eqn:E. cbn in Ho, Hr. subst o. rewrite (bind_ok _ _ _ _ _ E). exact (stop_settles n h h1 (transitivity Hk Hr)).
Qed.
Lemma start_any_started id connector cursor h : started h (start_any id connector cursor h).1 (start_any id connector cursor h).2.
Proof.
  unfold start_any. erewrite bind_ok by reflexivity. destruct (cast_made (calls h)) as [e|].
  { pose proof (recorded_ok id (inl e) h) as Ho. pose proof (recorded_keeps none id (inl e) h) as Hr. destruct (recorded id (inl e) h) as [h1 o] eqn:E. cbn in Ho, Hr. subst o.
    by rewrite (bind_ok _ _ _ _ _ E). }
  set (n := length (calls h)). set (h1 := (call (CastMade n) h).1). set (h2 := (call (CastRecord n connector (cursor_mode cursor)) h1).1). set (h3 := (call (CastStart n) h2).1).
  assert (keeps (eq (SCast n)) h h2) as H2. { etrans; [exact (keeps_make (eq (SCast n)) (SCast n) eq_refl h) | by apply keeps_call]. }
  assert (keeps (eq (SCast n)) h h3) as H3 by (etrans; [exact H2 | by apply keeps_call]).
  rewrite (bind_ok (call (CastMade n)) _ h h1 tt eq_refl), (bind_ok (ask _ _) _ h1 h2 _ eq_refl). destruct (cast_records (calls h1)) as [e|]; [exact (fails_start n id e h h2 H2)|].
  rewrite (bind_ok (ask _ _) _ h2 h3 _ eq_refl). destruct (cast_starts (calls h2)) as [e|]; [exact (fails_start n id e h h3 H3)|]. by split.
Qed.
Lemma start_capture_keeps req virtual_monitor : respects (keeps none) (start_capture req virtual_monitor).
Proof.
  unfold start_capture. apply respects_bind; [apply _ | apply respects_lift; apply _|]. intros id. apply respects_bind; [apply _ | destruct virtual_monitor; [apply respects_ret | apply respects_lift]; apply _|].
  intros connector. apply respects_bind; [apply _ | apply respects_get; apply _|]. intros h0. apply respects_bind; [apply _ | apply respects_lift; apply _|]. intros cursor h.
  set (which := if virtual_monitor then None else Some connector). set (before := if virtual_monitor then _ else []). set (rec := fun c => {| rc_connector := connector; rc_capture := c; rc_virtual := virtual_monitor; rc_before := before |}).
  pose proof (start_any_started id which cursor h) as Hs. destruct (start_any id which cursor h) as [h1 [[c|]|e]] eqn:E; cbn [fst snd started] in Hs; [|by rewrite (bind_ok _ _ _ _ _ E) | unfold bind at 1; by rewrite E].
  destruct Hs as [Hk Ho]. rewrite (bind_ok _ _ _ _ _ E). erewrite bind_ok by reflexivity. erewrite bind_ok by reflexivity.
  set (h2 := {| h1 with captures := sm_set id (rec c) (captures h1) |}).
  assert (forall h3, captures h3 = captures h2 -> keeps (eq (SCast (cp_cast c))) h1 h3 -> keeps none h h3) as Hgo.
  { intros h3 E3 H3. apply (keeps_settle (eq (SCast (cp_cast c)))); [by etrans|]. intros s <-. right. exists id, (rec c). rewrite E3. cbn. by rewrite sm_find_set_eq. }
  destruct (sm_find id (captures h1)) as [old|] eqn:Eo.
  - rewrite destroy_stops. apply Hgo; [done|]. apply (replace_keeps _ id h1 old); [done | by apply sm_wf_set | intros; by apply sm_find_set_ne].
  - apply Hgo; [done|]. apply keeps_captures; try done; [apply sm_wf_set|]. intros n (k & r & Hf & Hn & Hop). left. exists k, r. cbn. rewrite sm_find_set_ne; [done | congruence].
Qed.
Hint Resolve start_capture_keeps : helper.

(** *** The input session *)
Lemma held_input h h' n : input_ h' = input_ h -> held h (SInput n) -> held h' (SInput n).
Proof. intros E (i & Hi & Hn). exists i. by rewrite E. Qed.
(** The input session changes and the captures do not. *)
Lemma keeps_input p h h' : calls h' = calls h -> captures h' = captures h -> sock h' = sock h -> welcomed h' = welcomed h ->
  (forall n, held h (SInput n) -> held h' (SInput n) \/ ended h (SInput n)) -> keeps p h h'.
Proof.
  intros Ec Ek Es Ew Hh. split; try done.
  - intros s. unfold made. rewrite Ec. by auto.
  - intros [n|n] Hs; [left; cbn in *; by rewrite Ek|]. destruct (Hh n Hs) as [?|He]; [by left | right]. cbn in *. by rewrite Ec.
  - intros [n|n]; cbn; by rewrite Ec.
  - by rewrite Ek.
Qed.
Lemma input_keeps p : respects (keeps p) input.
Proof.
  intros h. unfold input, bind, get. destruct (input_ h) as [i|] eqn:Ei; [done|]. cbn. apply keeps_input; try done. intros n (i & Hi & _). congruence.
Qed.
Lemma set_input_keeps p f : (forall i, in_path (f i) = in_path i) -> respects (keeps p) (set_input f).
Proof.
  intros Hf h. cbn. apply keeps_input; try done. intros n (i & Hi & Hn). left. exists (f i). cbn. by rewrite Hi, Hf.
Qed.
Lemma stop_input_keeps p : respects (keeps p) stop_input.
Proof.
  intros h. unfold stop_input, bind, get. destruct (input_ h) as [i|] eqn:Ei; [|done]. cbn. destruct (in_path i) as [n|] eqn:En; cbn.
  - transitivity {| h with calls := calls h ++ [InputStop n] |}; [exact (keeps_call p (InputStop n) eq_refl h)|]. apply keeps_input; try done.
    intros m (i' & Hi & Hm). right. left. cbn in *. assert (m = n) as -> by congruence. apply in_or_app. right. by left.
  - apply keeps_input; try done. intros m (i' & Hi & Hm). congruence.
Qed.
Lemma reset_input_keeps p : respects (keeps p) reset_input.
Proof.
  intros h. unfold reset_input, bind. pose proof (stop_input_keeps p h) as Hs. assert ((stop_input h).2 = Ok tt /\ match input_ (stop_input h).1 with Some i => in_path i = None | None => True end) as [Ho Hi].
  { unfold stop_input, bind, get. destruct (input_ h) as [i|] eqn:Ei; [cbn; by destruct (in_path i) | cbn; by rewrite ?Ei]. }
  destruct (stop_input h) as [h1 o]. cbn in *. subst o. cbn. etrans; [exact Hs|]. apply keeps_input; try done. intros n (i & Hn & Hp). rewrite Hn in Hi. congruence.
Qed.
Hint Resolve input_keeps set_input_keeps stop_input_keeps reset_input_keeps : helper.
Lemma ensure_started_keeps : respects (keeps none) ensure_started.
Proof.
  intros h. unfold ensure_started. pose proof (input_keeps none h) as Hi. destruct (input h) as [h1 o] eqn:E. cbn in Hi.
  assert (exists i, o = Ok i /\ input_ h1 = Some i) as (i & -> & Hi1). { unfold input, bind, get in E. destruct (input_ h) as [i|] eqn:Ei; injection E as <- <-; cbn; by eauto. }
  rewrite (bind_ok _ _ _ _ _ E). destruct (in_path i) as [n|] eqn:En; [done|]. erewrite bind_ok by reflexivity. destruct (input_made (calls h1)) as [e|]; [done|].
  etrans; [exact Hi|]. set (n := length (calls h1)).
  set (h2 := (set_input (fun i => {| i with in_path := Some n |}) (call (InputMade n) h1).1).1).
  assert (keeps none h1 h2) as H2.
  { apply (keeps_settle (eq (SInput n))).
    - etrans; [exact (keeps_make (eq (SInput n)) (SInput n) eq_refl h1)|]. apply keeps_input; try done. intros m (i' & Hi' & Hm). cbn in Hi'. congruence.
    - intros s <-. right. cbn. rewrite Hi1. cbn. by eexists. }
  erewrite bind_ok by reflexivity. rewrite (bind_ok (set_input _) _ (call (InputMade n) h1).1 h2 tt eq_refl).
  etrans; [exact H2|]. refine (respects_bind (keeps none) _ _ _ _ h2); [keep|]. intros e. keep.
Qed.
Hint Resolve ensure_started_keeps : helper.
Lemma on_session_keeps method answer c : (forall n, quiet_call (c n) = true) -> respects (keeps none) (on_session method answer c).
Proof. intros Hc. unfold on_session. keep. Qed.
Hint Resolve on_session_keeps : helper.
Lemma enable_clipboard_keeps : respects (keeps none) enable_clipboard.
Proof. unfold enable_clipboard. keep; by apply set_input_keeps. Qed.
Hint Resolve enable_clipboard_keeps : helper.
Lemma write_done_keeps serial ok : respects (keeps none) (selection_write_done serial ok).
Proof. unfold selection_write_done. keep. Qed.
Hint Resolve write_done_keeps : helper.
Lemma open_input_keeps : respects (keeps none) open_input.
Proof. unfold open_input, connect_eis. keep; by apply on_session_keeps. Qed.
Lemma clipboard_read_keeps req : respects (keeps none) (clipboard_read req).
Proof. unfold clipboard_read, clipboard_failed, selection_read. keep; by apply on_session_keeps. Qed.
Lemma clipboard_set_keeps body fds : respects (keeps none) (clipboard_set body fds).
Proof. unfold clipboard_set, clipboard_failed, set_selection. keep; by apply on_session_keeps. Qed.
Lemma answer_transfer_keeps serial : respects (keeps none) (answer_transfer serial).
Proof. unfold answer_transfer, selection_write. keep. Qed.
Lemma on_writable_keeps serial out script : respects (keeps none) (on_writable serial out script).
Proof. unfold on_writable. keep. Qed.
Hint Resolve open_input_keeps clipboard_read_keeps clipboard_set_keeps answer_transfer_keeps on_writable_keeps : helper.

(** *** Signals *)
Lemma capture_of_find n h id r : sm_wf (captures h) -> capture_of n h = Some (id, r) -> sm_find id (captures h) = Some r /\ cp_cast (rc_capture r) = n.
Proof. intros Hwf Hc. apply find_some in Hc as [Hin He]. split; [by apply sm_In_find | by apply Nat.eqb_eq in He]. Qed.
Lemma stream_added_keeps n i h : sm_wf (captures h) -> keeps none h (stream_added n i h).1.
Proof.
  intros Hwf. unfold stream_added. erewrite bind_ok by reflexivity. destruct (capture_of n h) as [[id r]|] eqn:Ec; [|done]. destruct (capture_of_find _ _ _ _ Hwf Ec) as [Hf _].
  destruct (cp_done _); [|done]. cbn [when]. erewrite bind_ok by reflexivity. etrans; [|apply recorded_keeps]. apply (reentry_keeps none id r); [done | done | by left].
Qed.
Lemma cast_closed_keeps n h : sm_wf (captures h) -> keeps none h (cast_closed n h).1.
Proof.
  intros Hwf. unfold cast_closed. erewrite bind_ok by reflexivity. destruct (capture_of n h) as [[id r]|] eqn:Ec; [|done]. destruct (capture_of_find _ _ _ _ Hwf Ec) as [Hf Hn].
  erewrite bind_ok by reflexivity. erewrite bind_ok by reflexivity. etrans; [exact (keeps_call none (CastClosed n) eq_refl h)|]. etrans; [|by apply keeps_update].
  apply (reentry_keeps none id r); [done | done|]. right. right. rewrite Hn. cbn. apply in_or_app. right. by left.
Qed.
Lemma input_closed_keeps n : respects (keeps none) (input_closed n).
Proof.
  intros h. unfold input_closed. erewrite bind_ok by reflexivity. destruct (input_ h) as [i|] eqn:Ei; [|done]. case_bool_decide as Hn; [|done]. cbn [when].
  erewrite bind_ok by reflexivity. erewrite bind_ok by reflexivity. etrans; [exact (keeps_call none (InputClosed n) eq_refl h)|]. etrans; [|by apply keeps_update].
  apply keeps_input; try done. intros m (i' & Hi & Hm). cbn in Hi. right. right. assert (m = n) as -> by congruence. cbn. apply in_or_app. right. by left.
Qed.
Lemma owner_changed_keeps ours types : respects (keeps none) (owner_changed ours types).
Proof. unfold owner_changed. keep. Qed.
Lemma subscribed_keeps n k : respects (keeps none) k -> respects (keeps none) (subscribed n k).
Proof. intros Hk. unfold subscribed. keep. Qed.
Lemma run_idle_keeps : respects (keeps none) run_idle.
Proof. unfold run_idle. keep. Qed.

(** *** What may run before the welcome makes nothing *)
Record shrinks (h h' : Helper) : Prop := {
  s_captures : captures h = [] -> captures h' = [];
  s_input : input_ h = None -> input_ h' = None;
  s_clipboard : clipboard h = None -> clipboard h' = None;
  s_transfers : transfers h = [] -> transfers h' = []
}.
#[local] Instance shrinks_preorder : PreOrder shrinks.
Proof. split; [by split | intros ??? [] []; split; by auto]. Qed.
Ltac shrink := unfold say, ask; repeat first [ solve [auto with shrink nocore] | respects_step | by apply (respects_modify shrinks) ].
Lemma erase_capture_shrinks id : respects shrinks (erase_capture id).
Proof.
  unfold erase_capture, destroy_capture. shrink; apply (respects_modify shrinks); intros h; split; cbn; try done; by intros ->.
Qed.
Lemma connector_shrinks id c : respects shrinks (update (set_connector id c)).
Proof. apply (respects_modify shrinks). intros h. unfold set_connector. destruct (sm_find id (captures h)) as [r|] eqn:E; [|done]. split; try done. cbn. intros E0. by rewrite E0 in E. Qed.
Lemma send_shrinks body fds : respects shrinks (send body fds).
Proof. unfold send. shrink. Qed.
Hint Resolve erase_capture_shrinks connector_shrinks send_shrinks : shrink.
Lemma monitors_shrinks : respects shrinks send_monitors.
Proof. unfold send_monitors, enforce_primary, make_primary, name_virtual, drop_gone. shrink. Qed.
Lemma speakers_shrinks : respects shrinks send_speakers.
Proof. unfold send_speakers. shrink. Qed.
Lemma recorded_shrinks id r : respects shrinks (recorded id r).
Proof. unfold recorded, failed. shrink. Qed.
Hint Resolve monitors_shrinks speakers_shrinks recorded_shrinks : shrink.
Lemma reset_input_shrinks : respects shrinks reset_input.
Proof.
  unfold reset_input, stop_input. intros h. unfold bind, get. destruct (input_ h) as [i|] eqn:Ei; cbn; [destruct (in_path i); cbn|]; split; cbn; by auto || congruence.
Qed.
Hint Resolve reset_input_shrinks : shrink.
Lemma run_idle_shrinks : respects shrinks run_idle.
Proof. unfold run_idle. shrink. Qed.
Lemma stream_added_shrinks n i : respects shrinks (stream_added n i).
Proof.
  intros h. unfold stream_added. erewrite bind_ok by reflexivity. destruct (capture_of n h) as [[id r]|] eqn:Ec; [|done]. destruct (cp_done _); [|done]. cbn [when].
  erewrite bind_ok by reflexivity. etrans; [|apply recorded_shrinks]. split; cbn; try done. intros E. unfold capture_of in Ec; by rewrite E in Ec.
Qed.
Lemma cast_closed_shrinks n : respects shrinks (cast_closed n).
Proof.
  intros h. unfold cast_closed. erewrite bind_ok by reflexivity. destruct (capture_of n h) as [[id r]|] eqn:Ec; [|done]. split; cbn; try done. intros E. unfold capture_of in Ec; by rewrite E in Ec.
Qed.
Lemma input_closed_shrinks n : respects shrinks (input_closed n).
Proof. intros h. unfold input_closed. erewrite bind_ok by reflexivity. destruct (input_ h) as [i|] eqn:Ei; [|done]. case_bool_decide; [|done]. by split; cbn; rewrite ?Ei. Qed.

(** ** The invariant of the helper *)
Record helper_inv (h : Helper) : Prop := {
  hi_wf : sm_wf (captures h);
  hi_owned : forall s, made h s -> ended h s \/ held h s;
  hi_away : welcomed h = false -> captures h = [] /\ input_ h = None /\ clipboard h = None /\ transfers h = [];
  hi_sock : sock h = false -> welcomed h = false
}.
Lemma inv_keeps h h' : helper_inv h -> keeps none h h' -> welcomed h = true \/ shrinks h h' -> helper_inv h'.
Proof.
  intros [Hwf Ho Ha Hs] [M H E F S W] Hc. split; [by auto | | | by rewrite S, W].
  - intros s Hm. destruct (M s Hm) as [Hm'|[[]|?]]; [|done]. destruct (Ho s Hm') as [?|Hh]; [left; by auto | destruct (H s Hh); tauto].
  - rewrite W. intros Hw. destruct Hc as [Hc|[C1 C2 C3 C4]]; [congruence|]. destruct (Ha Hw) as (? & ? & ? & ?). by auto.
Qed.
(** Nothing of what the invariant sees changes but the calls. *)
Lemma inv_update h h' : helper_inv h -> keeps none h h' -> shrinks h h' -> helper_inv h'.
Proof. intros Hi Hk Hs. apply (inv_keeps h h'); by auto. Qed.
Lemma inv_welcome h : helper_inv h -> sock h = true -> helper_inv {| h with welcomed := true |}.
Proof. intros [Hwf Ho Ha Hs] Hk. split; cbn; try done. congruence. Qed.

Lemma destroy_all l h : for_each l (fun kv : Z * Recording => destroy_capture (rc_capture kv.2)) h = ({| h with calls := calls h ++ flat_map (fun kv => stop_of kv.2) l |}, Ok tt).
Proof.
  revert h. induction l as [|[id r] l IH]; intros h; [by destruct h; cbn; rewrite app_nil_r|]. cbn [for_each snd]. rewrite (bind_ok _ _ _ _ _ (destroy_stops r h)), IH. cbn. by rewrite <- app_assoc.
Qed.
Lemma clear_captures_keeps h : keeps none h {| h with captures := []; calls := calls h ++ flat_map (fun kv => stop_of kv.2) (captures h) |}.
Proof.
  assert (forall l, keeps none h {| h with calls := calls h ++ flat_map (fun kv : Z * Recording => stop_of kv.2) l |}) as Hall.
  { intros l. pose proof (respects_for_each (keeps none) l (fun kv : Z * Recording => destroy_capture (rc_capture kv.2))) as Hl.
    specialize (Hl ltac:(intros; unfold destroy_capture; keep) h). by rewrite destroy_all in Hl. }
  transitivity {| h with calls := calls h ++ flat_map (fun kv => stop_of kv.2) (captures h) |}; [exact (Hall (captures h))|].
  apply keeps_captures; try done; [intros _; apply sm_wf_nil|]. intros n (id & r & Hf & Hn & Ho). right. left. cbn in *. apply in_or_app. right.
  apply in_flat_map. exists (id, r). split; [by apply sm_find_In | unfold stop_of; cbn; rewrite Ho, Hn; by left].
Qed.
Lemma retry_keeps : respects (keeps none) retry_later.
Proof. unfold retry_later. keep. Qed.
Lemma retry_soon_keeps : respects (keeps none) (update (fun h => {| h with backoff_s := 1 |}) ;; retry_later).
Proof. keep. Qed.
Lemma disconnect_inv h : helper_inv h -> helper_inv (disconnect h).1.
Proof.
  intros Hi. unfold disconnect. erewrite bind_ok by reflexivity. erewrite bind_ok by reflexivity. erewrite bind_ok by reflexivity. erewrite bind_ok by reflexivity.
  rewrite (bind_ok _ _ _ _ _ (destroy_all _ _)). erewrite bind_ok by reflexivity.
  match goal with |- helper_inv (bind reset_input _ ?x).1 => set (h3 := x) end.
  set (h1 := {| h with calls := calls h ++ [HHungUp]; sock := false; welcomed := false; speakers_sent := None |}).
  set (h2 := {| h1 with captures := []; calls := calls h1 ++ flat_map (fun kv => stop_of kv.2) (captures h1) |}).
  assert (keeps none h1 h3) as H3. { transitivity h2; [exact (clear_captures_keeps h1)|]. exact (keeps_update none (fun h => {| h with clipboard := None; transfers := []; monitors_sub := false |}) ltac:(done) h2). }
  assert (forall s, made h1 s -> ended h1 s \/ held h1 s) as Ho1.
  { intros s Hm. pose proof (keeps_call none HHungUp eq_refl h) as [M H E _ _ _]. destruct (M s Hm) as [Hm'|[[]|?]]; [|done].
    destruct (hi_owned h Hi s Hm') as [He|Hh]; [left; by apply E | by apply H in Hh as [?|?]; [right | left]]. }
  assert (forall x, reset_input h3 = x -> x.2 = Ok tt /\ input_ x.1 = None /\ captures x.1 = [] /\ clipboard x.1 = None /\ transfers x.1 = []) as Hr.
  { intros x <-. unfold reset_input, stop_input, bind, get. destruct (input_ h3) as [i|]; cbn; [destruct (in_path i); cbn|]; done. }
  pose proof (reset_input_keeps none h3) as H4. destruct (reset_input h3) as [h4 o] eqn:E4. destruct (Hr _ eq_refl) as (Ho & Hin & Hc & Hcl & Ht). cbn in Ho, Hin, Hc, Hcl, Ht, H4. subst o.
  rewrite (bind_ok _ _ _ _ _ E4). pose proof (transitivity H3 H4) as [M H E _ S W].
  assert (helper_inv h4) as Hi4.
  { split; [rewrite Hc; apply sm_wf_nil | | done | intros _; by rewrite W]. intros s Hm. destruct (M s Hm) as [Hm'|[[]|?]]; [|done].
    destruct (Ho1 s Hm') as [He|Hh]; [left; by apply E | apply H in Hh; tauto]. }
  apply (inv_update h4); [done | exact (retry_soon_keeps h4) | by split].
Qed.
Lemma agent_handle_inv body fds h : helper_inv h -> sock h = true -> helper_inv (handle body fds h).1.
Proof.
  intros Hi Hs. unfold handle. destruct (value_str body "type" "") as [type|e]; [|done].
  rewrite (bind_ok (lift (Ok type)) _ h h type eq_refl). destruct (String.eqb type "welcome").
  { erewrite bind_ok by reflexivity. apply (inv_keeps {| h with welcomed := true |}); [by apply inv_welcome | | by left].
    match goal with |- keeps none ?x (bind ?m ?f _).1 => enough (respects (keeps none) (bind m f)) as Hr by exact (Hr x) end. keep. }
  destruct (String.eqb type "refuse"); [unfold bind, lift; by destruct (value_str body "reason" _)|].
  erewrite bind_ok by reflexivity. destruct (welcomed h) eqn:Ew; [|done]. cbn [negb]. apply (inv_keeps h); [done | | by left].
  match goal with |- keeps none ?x (?m _).1 => enough (respects (keeps none) m) as Hr by exact (Hr x) end. keep.
Qed.
Lemma try_connect_inv h : helper_inv h -> helper_inv (try_connect h).1.
Proof.
  intros Hi. unfold try_connect. erewrite bind_ok by reflexivity. destruct (connects (calls h)); cbn [negb].
  - do 2 erewrite bind_ok by reflexivity. match goal with |- helper_inv (_ ?x).1 => set (h1 := x) end.
    apply (inv_update h1); [|apply send_keeps | apply send_shrinks].
    pose proof (inv_update h _ Hi (keeps_call none HConnected eq_refl h) ltac:(done)) as [Hwf Ho Ha Hs]. by split.
  - apply (inv_update h); [done | apply retry_keeps | by split].
Qed.
Lemma helper_step_inv i h : helper_inv h -> helper_inv (h_step i h).1.
Proof.
  intros Hi. assert (forall n k, respects (keeps none) k -> helper_inv (subscribed n k h).1) as Hsub.
  { intros n k Hk. destruct (welcomed h) eqn:Ew; [apply (inv_keeps h); [done | by apply subscribed_keeps | by left]|].
    destruct (hi_away h Hi Ew) as (_ & Hn & _). unfold subscribed, bind, get. by rewrite Hn. }
  assert (forall m : Prog Helper unit, respects (keeps none) m -> respects shrinks m -> helper_inv (m h).1) as Hboth by (intros; by apply (inv_update h)).
  destruct i as [|r| | | |n i|n|n|n ours types|n serial|serial out script]; cbn [h_step].
  - unfold bind, get. destruct (retrying h); [|done]. change (helper_inv (try_connect {| h with retrying := false |}).1). apply try_connect_inv, (inv_update h); [done | exact (keeps_update none (fun h => {| h with retrying := false |}) ltac:(done) h) | by split].
  - unfold bind, get. destruct (sock h) eqn:Es; [|done]. cbn [when]. unfold on_readable. destruct r; try done; [by apply agent_handle_inv | by apply disconnect_inv | by apply disconnect_inv].
  - apply Hboth; [keep | shrink].
  - apply Hboth; [keep | shrink].
  - apply Hboth; [apply run_idle_keeps | apply run_idle_shrinks].
  - apply (inv_update h); [done | by apply stream_added_keeps, hi_wf | apply stream_added_shrinks].
  - apply (inv_update h); [done | by apply cast_closed_keeps, hi_wf | apply cast_closed_shrinks].
  - apply Hboth; [apply input_closed_keeps | apply input_closed_shrinks].
  - apply Hsub, owner_changed_keeps.
  - apply Hsub, answer_transfer_keeps.
  - destruct (welcomed h) eqn:Ew; [apply (inv_keeps h); [done | apply on_writable_keeps | by left]|].
    destruct (hi_away h Hi Ew) as (_ & _ & _ & Ht). unfold on_writable, bind, get. by rewrite Ht.
Qed.
Lemma run_helper_inv ins : helper_inv (h_run ins).
Proof.
  unfold h_run. induction ins as [|i ins IH] using rev_ind; [|rewrite foldl_app; by apply helper_step_inv].
  apply try_connect_inv. split; [apply sm_wf_nil | by intros [n|n] [] | done | done].
Qed.
(** C6: Nothing is captured for an agent that is gone. In every run of the session helper, whatever the
    agent sends and whatever mutter, PipeWire and the pasting applications do, a screen cast or input
    session the helper made on the bus and that has not ended is one the helper holds: an open capture of
    its table, or its input session. While the helper has no connection, or one the agent has not welcomed, all
    of them have ended, no clipboard content is kept and no paste is being served. *)
Theorem no_agent_no_capture ins :
  let h := h_run ins in
  (forall s, made h s -> ended h s \/ held h s)
  /\ (sock h && welcomed h = false -> (forall s, made h s -> ended h s) /\ clipboard h = None /\ transfers h = []).
Proof.
  intros h. destruct (run_helper_inv ins) as [_ Ho Ha Hs]. split; [exact Ho|]. intros Hw.
  assert (welcomed h = false) as Hf. { destruct (sock h) eqn:E; [by destruct (welcomed h) | by apply Hs]. }
  destruct (Ha Hf) as (Hc & Hi & Hcl & Ht). split_and!; [|done | done]. intros s Hm. destruct (Ho s Hm) as [?|Hh]; [done|].
  destruct s as [n|n]; [destruct Hh as (id & r & Hg & _) | destruct Hh as (i & Hg & _)]; unfold h in *; [by rewrite Hc in Hg | by rewrite Hi in Hg].
Qed.
End Keeps.

(** ** Pastes *)
(** What was written to the descriptor mutter last gave for a paste. *)
Definition paste_step (serial : Z) (acc : list byte) (c : HCall) : list byte :=
  match c with
  | SelectionWrite _ s true => if s =? serial then [] else acc
  | Pasted s bytes => if s =? serial then acc ++ bytes else acc
  | _ => acc
  end.
Definition paste (serial : Z) (h : list HCall) : list byte := foldl (paste_step serial) [] h.
Lemma paste_app serial h c : paste serial (h ++ [c]) = paste_step serial (paste serial h) c.
Proof. unfold paste. by rewrite foldl_app. Qed.
Definition served (serial : Z) (h : list HCall) : Prop := In (ContentRead (paste serial h)) h.
Record paste_inv (h : Helper) : Prop := {
  pi_clipboard : forall c, clipboard h = Some c -> In (ContentRead c) (calls h);
  pi_transfer : forall serial t, sm_find serial (transfers h) = Some t ->
    In (ContentRead (tr_data t)) (calls h) /\ 0 <= tr_off t <= zlen (tr_data t) /\ paste serial (calls h) = take (Z.to_nat (tr_off t)) (tr_data t);
  pi_done : forall h1 n serial h2, calls h = h1 ++ SelectionDone n serial true :: h2 -> served serial h1
}.
Record serves (h h' : Helper) : Prop := { sv_more : calls h `prefix_of` calls h'; sv_inv : paste_inv h -> paste_inv h' }.
#[export] Instance serves_preorder : PreOrder serves.
Proof. split; [intros h; by split | intros a b c [] []; split; [by etrans | by auto]]. Qed.
Lemma snoc_split {A} (l h1 h2 : list A) c x : l ++ [c] = h1 ++ x :: h2 -> (h2 = [] /\ l = h1 /\ c = x) \/ exists h3, h2 = h3 ++ [c] /\ l = h1 ++ x :: h3.
Proof.
  destruct h2 as [|y h2 _] using rev_ind; intros E; [apply app_inj_tail in E as [-> ->]; by left|]. right.
  rewrite app_comm_cons, app_assoc in E. apply app_inj_tail in E as [-> ->]. by exists h2.
Qed.
(** A call that is no part of a paste. *)
Definition aside (c : HCall) : bool := match c with SelectionWrite _ _ true | Pasted _ _ | SelectionDone _ _ true => false | _ => true end.
Lemma aside_step serial acc c : aside c = true -> paste_step serial acc c = acc.
Proof. destruct c as [| | | | | | | | | | | | | | | | |? ? []|? ? []| | |]; done. Qed.
Lemma serves_call c : aside c = true -> respects serves (call c).
Proof.
  intros Hc h. split; [by apply prefix_app_r|]. intros [H1 H2 H3]. split; cbn [call update modify fst calls clipboard transfers].
  - intros b Hb. apply in_or_app. left. by apply H1.
  - intros serial t Ht. rewrite paste_app, aside_step by done. destruct (H2 _ _ Ht) as (? & ? & ?). split_and!; [apply in_or_app; by left | lia | lia | done].
  - intros h1 n serial h2 E. apply snoc_split in E as [(_ & _ & ->)|(h3 & -> & E)]; [done | by eapply H3].
Qed.
Lemma serves_update f : (forall h, calls (f h) = calls h /\ (clipboard (f h) = clipboard h \/ clipboard (f h) = None) /\ (transfers (f h) = transfers h \/ transfers (f h) = [])) -> respects serves (update f).
Proof.
  intros Hf h. cbn. destruct (Hf h) as (Ec & Hcl & Ht). split; [by rewrite Ec|]. intros [H1 H2 H3]. split; rewrite ?Ec; [|destruct Ht as [-> | ->]; done | done].
  destruct Hcl as [-> | ->]; done.
Qed.
Create HintDb serves.
Section Pastes.
Context `{SE : Session}.
Ltac serve := unfold say, ask; repeat first [ solve [auto with serves nocore] | respects_step | by apply serves_call | (apply serves_update; by auto) ].
Lemma send_serves body fds : respects serves (send body fds).
Proof. unfold send. serve. Qed.
Lemma input_serves : respects serves input.
Proof. unfold input. serve. Qed.
Lemma set_input_serves f : respects serves (set_input f).
Proof. unfold set_input. serve. Qed.
Lemma stop_input_serves : respects serves stop_input.
Proof. unfold stop_input. serve. Qed.
Lemma erase_serves id : respects serves (erase_capture id).
Proof. unfold erase_capture, destroy_capture. serve. Qed.
Lemma connector_serves id c : respects serves (update (set_connector id c)).
Proof. apply serves_update. intros h. unfold set_connector. destruct (sm_find id (captures h)); by auto. Qed.
Hint Resolve send_serves input_serves set_input_serves stop_input_serves erase_serves connector_serves : serves.
Lemma monitors_serves : respects serves send_monitors.
Proof. unfold send_monitors, enforce_primary, make_primary, name_virtual, drop_gone. serve. Qed.
Lemma ensure_started_serves : respects serves ensure_started.
Proof. unfold ensure_started. serve. Qed.
Lemma on_session_serves method answer c : (forall n, aside (c n) = true) -> respects serves (on_session method answer c).
Proof. intros Hc. unfold on_session. serve. Qed.
Hint Resolve monitors_serves ensure_started_serves on_session_serves : serves.
Lemma enable_clipboard_serves : respects serves enable_clipboard.
Proof. unfold enable_clipboard. serve; by apply on_session_serves. Qed.
Lemma speakers_serves : respects serves send_speakers.
Proof. unfold send_speakers. serve. Qed.
Lemma disconnect_serves : respects serves disconnect.
Proof. unfold disconnect, reset_input, retry_later, destroy_capture. serve. Qed.
Lemma recorded_serves id r : respects serves (recorded id r).
Proof. unfold recorded, failed. serve. Qed.
Hint Resolve enable_clipboard_serves speakers_serves disconnect_serves recorded_serves : serves.
Lemma start_capture_serves req v : respects serves (start_capture req v).
Proof. unfold start_capture, start_any, destroy_capture. serve. Qed.
Hint Resolve start_capture_serves : serves.
(** The content that is set was read. *)
Lemma set_selection_serves types : respects serves (set_selection types).
Proof. unfold set_selection. serve; by apply on_session_serves. Qed.
Lemma content_set_serves id names bytes (failing : string -> Prog Helper unit) : (forall why, respects serves (failing why)) ->
  respects serves (call (ContentRead bytes) ;; do e <- set_selection names;
                   match e with Some err => failing err
                   | None => update (fun h => {| h with clipboard := Some bytes |}) ;; say "clipboard-set-done" [("id"%string, JInt id)] end).
Proof.
  intros Hf h. set (h1 := (call (ContentRead bytes) h).1). rewrite (bind_ok (call _) _ h h1 tt eq_refl). pose proof (serves_call (ContentRead bytes) eq_refl h : serves h h1) as H1. etrans; [exact H1|].
  pose proof (set_selection_serves names h1) as H2. unfold bind at 1. destruct (set_selection names h1) as [h2 [[e|]|e]]; cbn [fst] in H2; [| |exact H2].
  { etrans; [exact H2 | apply Hf]. }
  erewrite bind_ok by reflexivity. etrans; [|apply send_serves]. etrans; [exact H2|]. split; [done|]. intros [P1 P2 P3]. split; cbn; [|done | done].
  intros c [= <-]. destruct (sv_more _ _ H2) as [l ->]. apply in_or_app. left. cbn. apply in_or_app. right. by left.
Qed.
Lemma clipboard_set_serves body fds : respects serves (clipboard_set body fds).
Proof.
  unfold clipboard_set, clipboard_failed, failed. repeat first [solve [auto with serves nocore] | apply content_set_serves; [by intros; unfold say; auto with serves nocore] | progress (unfold say; by auto with serves nocore) | respects_step].
Qed.
Lemma write_done_serves serial : respects serves (selection_write_done serial false).
Proof. unfold selection_write_done. serve. Qed.
Hint Resolve clipboard_set_serves write_done_serves : serves.
(** A new paste starts with nothing. *)
Lemma serves_begin n serial content h : clipboard h = Some content ->
  serves h {| h with calls := calls h ++ [SelectionWrite n serial true]; transfers := sm_set serial {| tr_data := content; tr_off := 0 |} (transfers h) |}.
Proof.
  intros Hcl. split; [by apply prefix_app_r|]. intros [P1 P2 P3]. pose proof (P1 _ Hcl) as Hc. split; cbn [calls clipboard transfers].
  - intros c Hc'. apply in_or_app. left. by apply P1.
  - intros s t. rewrite paste_app. cbn [paste_step]. destruct (Z.eqb_spec serial s) as [->|Hne].
    + rewrite sm_find_set_eq. intros [= <-]. cbn. split_and!; [apply in_or_app; by left | lia | apply zlen_nonneg | done].
    + rewrite sm_find_set_ne by done. intros Ht. destruct (P2 _ _ Ht) as (? & ? & ?). split_and!; [apply in_or_app; by left | lia | lia | done].
  - intros h1 n' s h2 E. apply snoc_split in E as [(_ & _ & [=])|(h3 & -> & E)]. by eapply P3.
Qed.
Lemma answer_transfer_serves serial : respects serves (answer_transfer serial).
Proof.
  intros h. unfold answer_transfer. erewrite bind_ok by reflexivity. destruct (clipboard h) as [content|] eqn:Ec; [|apply write_done_serves].
  assert (exists h1 i, input h = (h1, Ok i) /\ clipboard h1 = clipboard h) as (h1 & i & Ei & E1). { unfold input, bind, get. destruct (input_ h); by eauto. }
  pose proof (input_serves h) as Hi. rewrite Ei in Hi. cbn in Hi. etrans; [exact Hi|]. unfold bind at 1, selection_write. rewrite (bind_ok _ _ _ _ _ Ei). do 2 erewrite bind_ok by reflexivity.
  destruct (match in_path i with Some _ => _ | None => _ end) as [e|]; cbn [ret].
  - etrans; [by apply (serves_call (SelectionWrite (in_path i) serial false)) | apply write_done_serves].
  - apply (serves_begin (in_path i) serial content h1). congruence.
Qed.
(** The writes of a turn go on from where the last ones ended. *)
Lemma write_out_range data script : forall off off' done, 0 <= off <= zlen data -> write_out data off script = (off', done) ->
  off <= off' <= zlen data /\ (done = Some true -> off' = zlen data).
Proof.
  induction script as [|w script IH]; intros off off' done Hoff; cbn [write_out]; destruct (Z.ltb_spec off (zlen data)); cbn [negb]; try (intros [= <- <-]; split; [lia | by try (intros; lia)]).
  destruct w as [n| | |]; try (intros [= <- <-]; split; [lia | done]).
  - intros E. apply IH in E; [|lia]. destruct E. split; [lia | done].
  - intros E. apply IH in E; [done | lia].
Qed.
Lemma take_on {A} (l : list A) (a b : Z) : 0 <= a <= b -> take (Z.to_nat a) l ++ take (Z.to_nat (b - a)) (drop (Z.to_nat a) l) = take (Z.to_nat b) l.
Proof. intros H. rewrite take_take_drop. f_equal. lia. Qed.
Lemma input_frame h : exists h1 i, input h = (h1, Ok i) /\ calls h1 = calls h /\ clipboard h1 = clipboard h /\ transfers h1 = transfers h.
Proof. unfold input, bind, get. destruct (input_ h); by eauto 10. Qed.
(** A turn of a paste, and its end. *)
Lemma serves_turn serial t off h (bytes := take (Z.to_nat (off - tr_off t)) (drop (Z.to_nat (tr_off t)) (tr_data t))) :
  sm_find serial (transfers h) = Some t -> (0 <= tr_off t <= zlen (tr_data t) -> tr_off t <= off <= zlen (tr_data t)) ->
  serves h {| h with calls := calls h ++ [Pasted serial bytes]; transfers := sm_set serial {| t with tr_off := off |} (transfers h) |}.
Proof.
  intros Ht Hoff. split; [by apply prefix_app_r|]. intros [P1 P2 P3]. split; cbn [calls clipboard transfers].
  - intros c Hc'. apply in_or_app. left. by apply P1.
  - intros s t'. rewrite paste_app. cbn [paste_step]. destruct (Z.eqb_spec serial s) as [->|Hne].
    + rewrite sm_find_set_eq. intros [= <-]. cbn [tr_data tr_off]. destruct (P2 _ _ Ht) as (Hin & Hr & ->). specialize (Hoff Hr).
      split_and!; [apply in_or_app; by left | lia | lia | apply take_on; lia].
    + rewrite sm_find_set_ne by done. intros Ht'. destruct (P2 _ _ Ht') as (? & ? & ?). split_and!; [apply in_or_app; by left | lia | lia | done].
  - intros h1 n' s h2 E. apply snoc_split in E as [(_ & _ & [=])|(h3 & -> & E)]. by eapply P3.
Qed.
Lemma serves_finish n serial t ok h : sm_find serial (transfers h) = Some t -> (ok = true -> tr_off t = zlen (tr_data t)) ->
  serves h {| h with calls := calls h ++ [SelectionDone n serial ok]; transfers := sm_erase serial (transfers h) |}.
Proof.
  intros Ht Hok. split; [by apply prefix_app_r|]. intros [P1 P2 P3]. split; cbn [calls clipboard transfers].
  - intros c Hc'. apply in_or_app. left. by apply P1.
  - intros s t'. rewrite paste_app. destruct (decide (s = serial)) as [->|Hne]; [by rewrite sm_find_erase_eq|]. rewrite sm_find_erase_ne by done. intros Ht'.
    destruct (P2 _ _ Ht') as (? & ? & ?). split_and!; [apply in_or_app; by left | lia | lia | done].
  - intros h1 n' s h2 E. apply snoc_split in E as [(_ & <- & [= _ <- ->])|(h3 & -> & E)]; [|by eapply P3].
    destruct (P2 _ _ Ht) as (Hin & _ & Hp). unfold served. rewrite Hp, Hok, take_ge by (done || unfold zlen; lia). done.
Qed.
Lemma paste_inv_ext h h' : calls h' = calls h -> clipboard h' = clipboard h -> transfers h' = transfers h -> paste_inv h -> paste_inv h'.
Proof. intros Ec Ecl Et [P1 P2 P3]. split; rewrite ?Ec, ?Ecl, ?Et; done. Qed.
Lemma write_done_frame serial ok h : exists n, let h' := (selection_write_done serial ok h).1 in
  (selection_write_done serial ok h).2 = Ok tt /\ calls h' = calls h ++ [SelectionDone n serial ok] /\ clipboard h' = clipboard h /\ transfers h' = transfers h.
Proof.
  destruct (input_frame h) as (h1 & i & Ei & Ec & Ecl & Et). exists (in_path i). unfold selection_write_done. rewrite (bind_ok _ _ _ _ _ Ei). cbn. by rewrite Ec.
Qed.
Lemma on_writable_serves serial out script : respects serves (on_writable serial out script).
Proof.
  intros h. unfold on_writable. erewrite bind_ok by reflexivity. destruct (sm_find serial (transfers h)) as [t|] eqn:Et; [|done].
  destruct (if out then write_out (tr_data t) (tr_off t) script else (tr_off t, Some false)) as [off done] eqn:E. erewrite bind_ok by reflexivity.
  assert (0 <= tr_off t <= zlen (tr_data t) -> tr_off t <= off <= zlen (tr_data t) /\ (done = Some true -> off = zlen (tr_data t))) as Hw.
  { intros Hr. destruct out; [by apply (write_out_range _ script _ _ _ Hr) | injection E as <- <-; split; [lia | done]]. }
  pose proof (serves_turn serial t off h Et ltac:(tauto)) as Hturn. destruct done as [ok|]; [|exact Hturn].
  match goal with |- serves h (bind _ _ ?x).1 => destruct (write_done_frame serial ok x) as (n & Hok & Ec & Ecl & Ett); destruct (selection_write_done serial ok x) as [h3 o] eqn:E3 end.
  cbn in Hok. subst o. rewrite (bind_ok _ _ _ _ _ E3). cbn [fst calls clipboard transfers] in *. split; [cbn; rewrite Ec, <- app_assoc; by apply prefix_app_r|].
  intros Hinv. destruct (pi_transfer h Hinv _ _ Et) as (_ & Hr & _). apply Hw in Hr as [_ Hall].
  pose proof (sv_inv _ _ Hturn Hinv) as H2. match type of H2 with paste_inv ?x => pose proof (serves_finish n serial {| t with tr_off := off |} ok x) as Hf end.
  specialize (Hf ltac:(cbn [transfers]; by rewrite sm_find_set_eq) ltac:(intros ->; by apply Hall)). generalize (sv_inv _ _ Hf H2). apply paste_inv_ext; cbn; [by rewrite Ec | by rewrite Ecl | by rewrite Ett, sm_erase_set].
Qed.
Hint Resolve answer_transfer_serves on_writable_serves : serves.
Lemma step_serves i : respects serves (h_step i).
Proof.
  destruct i as [|r| | | |n i|n|n|n ours types|n serial|serial out script]; cbn [h_step]; try (by auto with serves nocore);
    unfold try_connect, retry_later, on_readable, handle, start_audio, failed, open_input, connect_eis, clipboard_read, clipboard_failed, failed, selection_read, run_idle, reset_input, stream_added, cast_closed, set_capture, input_closed, subscribed, owner_changed;
    serve; try (by apply on_session_serves).
  all: apply serves_update; intros h; by auto.
Qed.
Lemma run_paste_inv ins : paste_inv (h_run ins).
Proof.
  unfold h_run. induction ins as [|i ins IH] using rev_ind; [|rewrite foldl_app; by apply step_serves].
  cut (respects serves try_connect). { intros Ht. apply (Ht new_helper). split; [done | done|]. by intros [] ???. }
  unfold try_connect, retry_later. serve.
Qed.
End Pastes.

(** ** A desktop on which everything works *)
#[local] Instance quiet_desktop : Session := {|
  connects := fun _ => true; cast_made := fun _ => None; cast_records := fun _ => None; cast_starts := fun _ => None;
  input_made := fun _ => None; input_starts := fun _ => None; eis_given := fun _ => None; clipboard_on := fun _ => None;
  selection_given := fun _ => None; selection_taken := fun _ => None; write_given := fun _ => None;
  display := fun _ => inr desk; primary_taken := fun _ => None; narrowed := fun _ _ => None; default_sink := fun _ => None; desktop_name := "GNOME" |}.
Definition from_agent (type : string) (fields : list (string * json)) : HInput := HIReceive (RMessage (msg type fields) []).
Definition visit_ins : list HInput := [from_agent "welcome" []; from_agent "start-capture" [("id"%string, JUint 1); ("connector"%string, JStr "DP-1")]; from_agent "open-input" []; HIReceive RClosed].
(** The agent captures a screen, opens the input and is gone: the cast and the session have ended. *)
Lemma no_agent_no_capture_witness : let h := h_run visit_ins in made h (SCast 5) /\ made h (SInput 8) /\ ended h (SCast 5) /\ ended h (SInput 8).
Proof.
  intros h. assert (made h (SCast 5)) as H1 by (vm_compute; tauto). assert (made h (SInput 8)) as H2 by (vm_compute; tauto).
  destruct (no_agent_no_capture visit_ins) as [_ H]. destruct H as [H _]; [by vm_compute|]. split_and!; [done | done | by apply H | by apply H].
Defined.
Definition copied : MemFd := {| chunks := [["h"%byte; "e"%byte]; ["y"%byte]]; ends := None |}.
Definition paste_ins : list HInput := [from_agent "welcome" []; from_agent "open-input" []; HIReceive (RMessage (msg "clipboard-set" [("id"%string, JUint 1)]) [copied]);
  HITransfer 5 9; HIWritable 9 true [WTook 2; WAgain]; HIWritable 9 true [WIntr; WTook 5]].

(** The stop of an input session is dealt with after the messages that are waiting: an open-input among
    them gets a new session, which has no clipboard (the old session's flag is still set), is reported
    open, and is then stopped in place of the one that ended. *)
Theorem reopened_input_stopped :
  drop 10 (calls (h_run [from_agent "welcome" []; from_agent "open-input" []; HIInputClosed 5; from_agent "open-input" []; HIIdle]))
  = [InputClosed 5; InputMade 11; InputStart 11; EisAsked 11; HSend (msg "input-opened" []) [GEis]; InputStop 11; HSend (msg "sharing-stopped" []) []].
Proof. by vm_compute. Qed.
(** Each welcome subscribes to the layout; only the last subscription is ever undone. *)
Theorem welcome_subscribes_again :
  orphans (h_run [from_agent "welcome" []; from_agent "welcome" []; HIReceive RClosed]) = 1%nat
  /\ exists body, at_key body "type" = JStr "monitors" /\ (h_step HIMonitorsChanged (h_run [from_agent "welcome" []; from_agent "welcome" []; HIReceive RClosed; HIRetry])).1.(calls)
     = calls (h_run [from_agent "welcome" []; from_agent "welcome" []; HIReceive RClosed; HIRetry]) ++ [HSend body []].
Proof. split; [by vm_compute|]. eexists. split; [|vm_compute; reflexivity]. by vm_compute. Qed.
