(* ===== verification/CaptureOffer.v ===== *)
(** * CaptureOffer: which memory a screen capture asks mutter for (modules/desktop-mutter/capture_memory.cpp)

    What mutter's node offers, what the encoder imports, and the offer made of the two: DMA-BUF where
    both can, shared memory last. PipeWire's pods are the library's: a parameter is what its
    properties say. A DRM format is the four letters and the modifier.

    Then: the offer is exactly what both sides can do, in the encoder's order. *)

From Stdlib Require Import ZArith Lia Ascii String.
From stdpp Require Import base list strings pretty sets.
From S2P Require Import Prelude.

Inductive SpaFormat := BGRx | BGRA | RGBx | RGBA | OtherFormat (id : Z).
#[export] Instance spa_format_eq : EqDecision SpaFormat.
Proof. solve_decision. Defined.
(** [SPA_VIDEO_FORMAT_UNKNOWN] *)
Definition UNKNOWN : SpaFormat := OtherFormat 0.
Definition fourcc (a b c d : ascii) : Z := Z.lor (Z.lor (chr a) (Z.shiftl (chr b) 8)) (Z.lor (Z.shiftl (chr c) 16) (Z.shiftl (chr d) 24)).
Definition spa_format_of (drm : Z) : SpaFormat :=
  if drm =? fourcc "X" "R" "2" "4" then BGRx
  else if drm =? fourcc "A" "R" "2" "4" then BGRA
  else if drm =? fourcc "X" "B" "2" "4" then RGBx
  else if drm =? fourcc "A" "B" "2" "4" then RGBA
  else UNKNOWN.
Definition drm_fourcc_of (f : SpaFormat) : Z :=
  match f with
  | BGRx => fourcc "X" "R" "2" "4" | BGRA => fourcc "A" "R" "2" "4" | RGBx => fourcc "X" "B" "2" "4" | RGBA => fourcc "A" "B" "2" "4"
  | OtherFormat _ => 0
  end.
Definition SHM_FORMATS : list SpaFormat := [BGRx; BGRA; RGBx; RGBA].
Definition hex_digit (z : Z) : ascii := ascii_of_N (Z.to_N (if z <? 10 then 48 + z else 87 + z)).
(** ["0x%016llx"] *)
Definition hex_modifier (m : Z) : string :=
  "0x" +:+ of_chars (map (fun i => hex_digit (Z.land (Z.shiftr m (4 * (15 - Z.of_nat i))) 15)) (seq 0 16)).
Definition drm_format_string (drm modifier : Z) : string :=
  let s := of_chars (map (fun i => ascii_of_N (Z.to_N (Z.land (Z.shiftr drm (8 * Z.of_nat i)) 255))) (seq 0 4)) in
  if modifier =? 0 then s else s +:+ ":" +:+ hex_modifier modifier.

Abbreviation Formats := (list (SpaFormat * list Z)).
Definition format_list (formats : Formats) : string :=
  let out := foldl (fun acc fm => foldl (fun acc m => acc +:+ (if String.eqb acc "" then ""%string else ", "%string) +:+ drm_format_string (drm_fourcc_of fm.1) m) acc fm.2) ""%string formats in
  if String.eqb out "" then "none"%string else out.
Record ProducerFormats := { known : bool; formats : Formats }.
Definition no_producer : ProducerFormats := {| known := false; formats := [] |}.
Definition any_modifier (p : ProducerFormats) : bool := existsb (fun fm => match fm.2 with [] => false | _ => true end) (formats p).

(** [std::find] and [push_back] when it is not there. *)
Definition push_new {A} `{EqDecision A} (l : list A) (x : A) : list A := if bool_decide (x ∈ l) then l else l ++ [x].
(** The entry of [f], made at the end when there is none, with [mods] added to it. *)
Fixpoint add_mods (f : SpaFormat) (mods : list Z) (l : Formats) : Formats :=
  match l with
  | [] => [(f, foldl push_new [] mods)]
  | (g, ms) :: l' => if decide (g = f) then (g, foldl push_new ms mods) :: l' else (g, ms) :: add_mods f mods l'
  end.
(** An EnumFormat parameter: whether it is a format object, the values of its format property when
    they are ids, of its modifier property when they are longs. *)
Record EnumParam := { is_format : bool; p_formats : option (list SpaFormat); p_modifiers : option (list Z) }.
Definition parse_param (out : Formats) (p : EnumParam) : Formats :=
  match is_format p, p_formats p with
  | true, Some ids =>
    let mods := match p_modifiers p with Some vals => foldl push_new [] (map u64 vals) | None => [] end in
    foldl (fun out f => add_mods f mods out) out (foldl push_new [] ids)
  | _, _ => out
  end.
Definition parse_producer_formats (params : list EnumParam) : ProducerFormats := {| known := true; formats := foldl parse_param [] params |}.

Record DmaBufFormat := { drm_fourcc : Z; modifier : Z }.
Record MemoryRequest := { imports : list DmaBufFormat; encoder : string; virtual_monitor : bool; force_shm : bool; fallback : string }.
Record Offer := { dmabuf : Formats; shm : list SpaFormat; shm_reason : string }.
Definition dmabuf_offered (o : Offer) : bool := match dmabuf o with [] => false | _ => true end.
Definition find_format (f : SpaFormat) (l : Formats) : option (list Z) := snd <$> List.find (fun fm => bool_decide (fm.1 = f)) l.
(** Whether mutter can make the import, as far as is known. *)
Definition producible (producer : ProducerFormats) (imp : DmaBufFormat) : bool :=
  negb (known producer) || match find_format (spa_format_of (drm_fourcc imp)) (formats producer) with Some mods => bool_decide (modifier imp ∈ mods) | None => false end.
Definition offer_import (producer : ProducerFormats) (o : Formats) (imp : DmaBufFormat) : Formats :=
  let f := spa_format_of (drm_fourcc imp) in
  if bool_decide (f = UNKNOWN) then o
  else if negb (producible producer imp) then o
  else add_mods f [modifier imp] o.
Definition with_shm (dmabuf : Formats) (reason : string) : Offer :=
  {| dmabuf := dmabuf; shm := foldl push_new (map fst dmabuf) SHM_FORMATS; shm_reason := reason |}.
Definition plan_offer (rq : MemoryRequest) (producer : ProducerFormats) : Offer :=
  if virtual_monitor rq then with_shm [] "a virtual monitor"
  else if force_shm rq then with_shm [] (of_chars (chars "capture_memory = " ++ ["034"%char] ++ chars "shm" ++ ["034"%char]))
  else if negb (String.eqb (fallback rq) "") then with_shm [] (fallback rq)
  else match imports rq with
       | [] => with_shm [] ("the " +:+ (if String.eqb (encoder rq) "" then "media plane's"%string else encoder rq) +:+ " encoder imports no DMA-BUF")
       | _ =>
         if known producer && negb (any_modifier producer) then with_shm [] "mutter offers no DMA-BUF (no GPU it can allocate on)"
         else match foldl (offer_import producer) [] (imports rq) with
              | [] => with_shm [] ("no modifier in common: the " +:+ encoder rq +:+ " encoder imports "
                                   +:+ format_list (map (fun imp => (spa_format_of (drm_fourcc imp), [modifier imp])) (imports rq))
                                   +:+ "; mutter offers " +:+ format_list (formats producer))
              | d => with_shm d ""
              end
       end.
Definition settled_shm_reason (offer : Offer) (producer : ProducerFormats) : string :=
  if negb (dmabuf_offered offer) then shm_reason offer
  else if known producer then "mutter chose shared memory over the DMA-BUF offered"%string
  else "mutter chose shared memory over the DMA-BUF offered (its formats could not be read first)"%string.
Inductive MemorySettle := First | Same | Changed.
Definition settle_kind (settled_dmabuf : option bool) (dmabuf : bool) : MemorySettle :=
  match settled_dmabuf with None => First | Some s => if Bool.eqb s dmabuf then Same else Changed end.
Definition MAX_MEMORY_RESTARTS : Z := 3.
Definition restart_for_memory_change (virtual_monitor : bool) (restarts_so_far : Z) : bool := negb virtual_monitor && (restarts_so_far <? MAX_MEMORY_RESTARTS).

(** A Format parameter, by its properties; a modifier property with what kind of choice it is. *)
Record FormatParam := { is_raw_video : bool; fp_formats : option (list SpaFormat); fp_size : option (Z * Z); fp_modifiers : option (list Z * bool) }.
Record NegotiatedFormat := { nf_format : SpaFormat; nf_width : Z; nf_height : Z; nf_dmabuf : bool; nf_fixed : bool; nf_modifier : Z }.
Definition no_format : NegotiatedFormat := {| nf_format := UNKNOWN; nf_width := 0; nf_height := 0; nf_dmabuf := false; nf_fixed := true; nf_modifier := 0 |}.
Definition drm_format (f : NegotiatedFormat) : string := drm_format_string (drm_fourcc_of (nf_format f)) (nf_modifier f).
Definition parse_format (p : FormatParam) : option NegotiatedFormat :=
  if negb (is_raw_video p) then None
  else match fp_formats p with
       | Some (f :: _) =>
         let '(w, h) := match fp_size p with Some (w, h) => (s32 w, s32 h) | None => (0, 0) end in
         match fp_modifiers p with
         | Some (v :: vals, none) =>
           Some {| nf_format := f; nf_width := w; nf_height := h; nf_dmabuf := true; nf_fixed := none || forallb (Z.eqb v) (v :: vals); nf_modifier := u64 v |}
         | _ => Some {| nf_format := f; nf_width := w; nf_height := h; nf_dmabuf := false; nf_fixed := true; nf_modifier := 0 |}
         end
       | _ => None
       end.

(** ** Tables of formats *)
Definition has (l : Formats) (f : SpaFormat) (m : Z) : Prop := exists ms, (f, ms) ∈ l /\ m ∈ ms.
Lemma push_new_in {A} `{EqDecision A} (l : list A) x y : y ∈ push_new l x <-> y ∈ l \/ y = x.
Proof. unfold push_new. case_bool_decide; [naive_solver|]. rewrite elem_of_app, list_elem_of_singleton. naive_solver. Qed.
Lemma push_all_in {A} `{EqDecision A} (xs l : list A) y : y ∈ foldl push_new l xs <-> y ∈ l \/ y ∈ xs.
Proof.
  revert l. induction xs as [|x xs IH]; intros l; cbn; [set_solver|]. rewrite IH, push_new_in. set_solver.
Qed.
Lemma push_all_nodup {A} `{EqDecision A} (xs l : list A) : NoDup l -> NoDup (foldl push_new l xs).
Proof.
  revert l. induction xs as [|x xs IH]; intros l Hl; cbn; [done|]. apply IH. unfold push_new. case_bool_decide as Hx; [done|].
  apply NoDup_app. split_and!; [done | set_solver | apply NoDup_singleton].
Qed.
Lemma push_all_prefix {A} `{EqDecision A} (xs l : list A) : l `prefix_of` foldl push_new l xs.
Proof.
  revert l. induction xs as [|x xs IH]; intros l; cbn; [done|]. etrans; [|apply IH]. unfold push_new. case_bool_decide; [done | by apply prefix_app_r].
Qed.
Lemma add_mods_keys f mods l : (add_mods f mods l).*1 = push_new l.*1 f.
Proof.
  induction l as [|[g ms] l IH]; [done|]. cbn. destruct (decide (g = f)) as [->|Hne]; cbn.
  - unfold push_new. by rewrite bool_decide_true by set_solver.
  - rewrite IH. unfold push_new. repeat case_bool_decide; try done; set_solver.
Qed.
Lemma add_mods_has f mods l g m : NoDup l.*1 -> has (add_mods f mods l) g m <-> has l g m \/ g = f /\ m ∈ mods.
Proof.
  unfold has. induction l as [|[h ms] l IH]; intros Hl; cbn.
  - split; [intros (ms & Hin & Hm)|intros [(ms & Hin & _)|[-> Hm]]]; [|set_solver|].
    + apply list_elem_of_singleton in Hin as [= -> ->]. apply push_all_in in Hm. set_solver.
    + exists (foldl push_new [] mods). split; [set_solver|]. apply push_all_in. by right.
  - inversion Hl as [|? ? Hh Hl']; subst. destruct (decide (h = f)) as [->|Hne].
    + split; [intros (ms' & Hin & Hm) | intros [(ms' & Hin & Hm)|[-> Hm]]].
      * apply elem_of_cons in Hin as [[= -> ->]|Hin]; [|left; exists ms'; set_solver]. apply push_all_in in Hm as [?|?]; [left; exists ms; set_solver | by right].
      * apply elem_of_cons in Hin as [[= -> ->]|Hin]; [|exists ms'; set_solver]. exists (foldl push_new ms mods). split; [set_solver|]. apply push_all_in. by left.
      * exists (foldl push_new ms mods). split; [set_solver|]. apply push_all_in. by right.
    + specialize (IH Hl'). split.
      * intros (ms' & Hin & Hm). apply elem_of_cons in Hin as [[= -> ->]|Hin]; [left; exists ms; set_solver|]. destruct (proj1 IH) as [(ms'' & ? & ?)|?]; [by exists ms'|left; exists ms''; set_solver|by right].
      * intros [(ms' & Hin & Hm)|?].
        -- apply elem_of_cons in Hin as [[= -> ->]|Hin]; [exists ms; set_solver|]. destruct (proj2 IH) as (ms'' & ? & ?); [left; by exists ms'|]. exists ms''. set_solver.
        -- destruct (proj2 IH) as (ms'' & ? & ?); [by right|]. exists ms''. set_solver.
Qed.

(** ** The offer *)
(** The imports that can be offered at all. *)
Definition usable (producer : ProducerFormats) (imp : DmaBufFormat) : bool := negb (bool_decide (spa_format_of (drm_fourcc imp) = UNKNOWN)) && producible producer imp.
Definition wants_dmabuf (rq : MemoryRequest) : bool := negb (virtual_monitor rq) && negb (force_shm rq) && String.eqb (fallback rq) "".
Definition common_formats (producer : ProducerFormats) (imps : list DmaBufFormat) : list SpaFormat :=
  foldl push_new [] (map (fun imp => spa_format_of (drm_fourcc imp)) (List.filter (usable producer) imps)).
Record offers (producer : ProducerFormats) (imps : list DmaBufFormat) (o : Formats) : Prop := {
  of_keys : o.*1 = common_formats producer imps;
  of_has : forall f m, has o f m <-> exists imp, In imp imps /\ usable producer imp = true /\ spa_format_of (drm_fourcc imp) = f /\ modifier imp = m;
  of_some : forall f ms, (f, ms) ∈ o -> ms <> []
}.
Lemma add_mods_some f m l : (forall g ms, (g, ms) ∈ l -> ms <> []) -> forall g ms, (g, ms) ∈ add_mods f [m] l -> ms <> [].
Proof.
  induction l as [|[h hs] l IH]; intros Hl g ms Hin; cbn in *.
  - apply list_elem_of_singleton in Hin as [= -> ->]. unfold push_new. case_bool_decide; [set_solver | done].
  - destruct (decide (h = f)); apply elem_of_cons in Hin as [[= -> ->]|Hin]; [|apply (Hl g); set_solver | apply (Hl h); set_solver|].
    + specialize (Hl h hs ltac:(set_solver)). unfold push_new. case_bool_decide; [done | by destruct hs].
    + apply (IH) with g; [|done]. intros g' ms' Hin'. apply (Hl g'). set_solver.
Qed.
Lemma offer_imports producer imps : offers producer imps (foldl (offer_import producer) [] imps).
Proof.
  induction imps as [|imp imps [K H S]] using rev_ind; [split; [done | unfold has; set_solver | set_solver]|]. rewrite foldl_app. cbn [foldl]. unfold offer_import at 1.
  assert (usable producer imp = true -> offers producer (imps ++ [imp]) (add_mods (spa_format_of (drm_fourcc imp)) [modifier imp] (foldl (offer_import producer) [] imps))) as Hadd.
  { intros Hu. split.
    - rewrite add_mods_keys, K. unfold common_formats. rewrite List.filter_app, map_app, foldl_app. cbn [List.filter]. by rewrite Hu.
    - intros f m. rewrite add_mods_has, H; [|rewrite K; apply push_all_nodup, NoDup_nil_2]. split.
      + intros [(i & Hi & ?)|[-> Hm]]; [exists i; rewrite in_app_iff; tauto|]. exists imp. apply list_elem_of_singleton in Hm as ->. rewrite in_app_iff. cbn. tauto.
      + intros (i & Hi & Hu' & <- & <-). apply in_app_or in Hi as [Hi|[<-|[]]]; [left; by exists i | right; set_solver].
    - by apply add_mods_some. }
  assert (usable producer imp = false -> offers producer (imps ++ [imp]) (foldl (offer_import producer) [] imps)) as Hskip.
  { intros Hu. split; [|intros f m; rewrite H; split | done].
    - rewrite K. unfold common_formats. rewrite List.filter_app. cbn [List.filter]. by rewrite Hu, app_nil_r.
    - intros (i & Hi & ?). exists i. rewrite in_app_iff. tauto.
    - intros (i & Hi & Hu' & ?). apply in_app_or in Hi as [Hi|[<-|[]]]; [by exists i | congruence]. }
  revert Hadd Hskip. unfold usable at 1 2. destruct (bool_decide (spa_format_of (drm_fourcc imp) = UNKNOWN)); [by intros _ Hskip; apply Hskip|].
  destruct (producible producer imp); cbn [negb andb]; [by intros Hadd _; apply Hadd | by intros _ Hskip; apply Hskip].
Qed.
Lemma nothing_producible producer imps : known producer = true -> any_modifier producer = false -> offers producer imps [].
Proof.
  intros Hk Ha. assert (forall imp, usable producer imp = false) as Hu.
  { intros imp. unfold usable, producible. rewrite Hk. cbn. destruct (find_format _ _) as [ms|] eqn:Ef; [|by rewrite andb_false_r].
    unfold find_format in Ef. destruct (List.find _ _) as [[g ms']|] eqn:E; [|done]. injection Ef as <-. apply find_some in E as [Hin _].
    unfold any_modifier in Ha. destruct ms' as [|m ms']; [rewrite (bool_decide_false (modifier imp ∈ [])), andb_false_r; [done | by apply not_elem_of_nil]|]. exfalso.
    assert (existsb (fun fm : SpaFormat * list Z => match fm.2 with [] => false | _ => true end) (formats producer) = true) by (apply existsb_exists; by exists (g, m :: ms')). congruence. }
  split.
  - unfold common_formats. induction imps as [|i imps IH]; [done|]. cbn. by rewrite Hu.
  - intros f m. split; [intros (? & ? & _); set_solver|]. intros (i & _ & Hi & _). by rewrite Hu in Hi.
  - set_solver.
Qed.
Lemma with_shm_formats d r : NoDup d.*1 -> NoDup (shm (with_shm d r)) /\ d.*1 `prefix_of` shm (with_shm d r) /\ forall f, In f SHM_FORMATS -> f ∈ shm (with_shm d r).
Proof.
  intros Hd. unfold with_shm. cbn [shm]. change (map fst d) with d.*1. split_and!; [by apply push_all_nodup | apply push_all_prefix|].
  intros f Hf. apply push_all_in. right. by apply list_elem_of_In.
Qed.
Record fair_offer (rq : MemoryRequest) (producer : ProducerFormats) (o : Offer) : Prop := {
  fo_common : forall f m, has (dmabuf o) f m <->
    wants_dmabuf rq = true /\ exists imp, In imp (imports rq) /\ usable producer imp = true /\ spa_format_of (drm_fourcc imp) = f /\ modifier imp = m;
  fo_order : (dmabuf o).*1 = (if wants_dmabuf rq then common_formats producer (imports rq) else []);
  fo_some : forall f ms, (f, ms) ∈ dmabuf o -> ms <> [];
  fo_shm_once : NoDup (shm o);
  fo_shm_after : (dmabuf o).*1 `prefix_of` shm o;
  fo_shm_all : forall f, In f SHM_FORMATS -> f ∈ shm o;
  fo_reason : dmabuf o = [] <-> shm_reason o <> ""%string
}.
Lemma offered_fair rq producer d r : offers producer (imports rq) d -> wants_dmabuf rq = true -> (d = [] <-> r <> ""%string) -> fair_offer rq producer (with_shm d r).
Proof.
  intros [K H S] Hw Hr. destruct (with_shm_formats d r) as (? & ? & ?); [rewrite K; apply push_all_nodup, NoDup_nil_2|].
  split; try done; cbn [dmabuf with_shm]; [|by rewrite Hw]. intros f m. rewrite H. naive_solver.
Qed.
Lemma refused_fair rq producer r : wants_dmabuf rq = false -> r <> ""%string -> fair_offer rq producer (with_shm [] r).
Proof.
  intros Hw Hr. destruct (with_shm_formats [] r) as (? & ? & ?); [apply NoDup_nil_2|]. split; try done; [|by rewrite Hw | set_solver].
  intros f m. split; [intros (? & ? & _); set_solver | intros [? _]; congruence].
Qed.
(** The memory offered to mutter is what both sides can do. A format and modifier are offered as
    DMA-BUF exactly when DMA-BUF is allowed for the capture (no virtual monitor, not forced to
    shared memory, no earlier failure), the encoder imports it and mutter, as far as its formats are
    known, can allocate it; the formats stand in the encoder's order, each once and with at least
    one modifier. The four shared-memory formats are always offered, after those, each once; and a
    reason for shared memory is given exactly when no DMA-BUF is offered. *)
Theorem offer_is_common rq producer : fair_offer rq producer (plan_offer rq producer).
Proof.
  unfold plan_offer. destruct (virtual_monitor rq) eqn:Ev; [apply refused_fair; [unfold wants_dmabuf; by rewrite Ev | done]|].
  destruct (force_shm rq) eqn:Es; [apply refused_fair; [unfold wants_dmabuf; by rewrite Ev, Es | done]|].
  destruct (String.eqb_spec (fallback rq) "") as [Ef|Ef]; cbn [negb]; [|apply refused_fair; [unfold wants_dmabuf; rewrite Ev, Es; by apply String.eqb_neq in Ef as -> | done]].
  assert (wants_dmabuf rq = true) as Hw by (unfold wants_dmabuf; by rewrite Ev, Es, Ef).
  destruct (imports rq) as [|i imps] eqn:Ei; [apply offered_fair; [rewrite Ei; split; [done | unfold has; set_solver | set_solver] | done | done]|]. rewrite <- Ei.
  destruct (known producer && negb (any_modifier producer)) eqn:Ek.
  { apply andb_prop in Ek as [Hk Ha]. apply offered_fair; [apply nothing_producible; [done | by apply negb_true_iff] | done | done]. }
  pose proof (offer_imports producer (imports rq)) as Ho. destruct (foldl _ [] _) as [|d0 d]; by apply offered_fair.
Qed.
