(* ===== verification/CaptureFrames.v ===== *)
(** * CaptureFrames: a capture's frames between mutter's buffers and the encoder (modules/desktop-mutter/capture_memory.cpp, Frames)

    Mutter lends the reader buffers. A DMA-BUF one is pushed to GStreamer without a copy and must
    not go back while anything still reads it; a shared-memory one is copied and goes back at once.
    The PipeWire thread, the core loop and GStreamer's threads each take the lock for a
    moment: a critical section is one step, and steps interleave in any order, the two halves of
    [drain_releases] included. A token stands for one delivery; its references are the reader's own
    ([held_token_]), those of the GstBuffers over it ([flying]) and those a function that has left
    its critical section has yet to drop ([leaving]). When the last goes the death is posted.

    PipeWire's contract is the guard of two steps: a buffer is added once until it is removed, and
    delivered only while mutter has it. A wrapped plane is memory with a number of its own.

    Then: mutter never records into memory a frame is still read from, every buffer goes back
    once it is not, and a copy never reads outside the buffer's memory. *)

From Stdlib Require Import ZArith Lia Strings.Byte String.
From stdpp Require Import base list strings pretty relations.
From S2P Require Import Prelude StdMap CaptureOffer.

(** ** Buffers *)
Inductive DataType := DmaBuf | MemFd | OtherData.
Record Chunk := { ck_offset : Z; ck_size : Z; ck_stride : Z; ck_corrupted : bool }.
(** [d_data]: the bytes at the pointer PipeWire mapped; [d_file]: those of the descriptor. *)
Record Data := { d_type : DataType; d_fd : Z; d_mapoffset : Z; d_maxsize : Z; d_data : option (list byte); d_file : list byte; d_chunk : option Chunk }.
(** What the system answers while a buffer is taken: [F_DUPFD], the file's size, the wrapping and
    the mapping. *)
Record Taking := { dup_fails : option string; file_size : Z; wraps : bool; maps : bool }.
Definition has_pixels (datas : list Data) : bool :=
  match datas with
  | d :: _ => match d_chunk d with Some c => (0 <? ck_size c) && negb (ck_corrupted c) | None => false end
  | [] => false
  end.

Record Slot := { sl_delivery : Z; sl_out : bool; sl_planes : list nat; sl_map : bool }.
Record FrameCounts := { fresh : Z; repeated : Z; cursor_only : Z; newest : option Z }.
(** A GstBuffer over a delivery's token. *)
Record GstBuf := { gb_token : Z; gb_mem : list nat; gb_repeat : bool }.
Inductive Pushed := PDma (g : GstBuf) | PShm (bytes : list byte) (repeat : bool).
Inductive FEvent :=
| FAdded (b : Z) | FRemoved (b : Z) | FDelivered (b : Z) | FBack (b : Z)   (* between mutter and the reader *)
| FCaps (appsrc : nat) (f : NegotiatedFormat) | FPushed (appsrc : nat) (p : Pushed) | FWake.
Record Frames := {
  slots : list (Z * Slot); deliveries : Z; format_ : NegotiatedFormat; caps_ : option NegotiatedFormat; appsrc_ : option nat; suspended_ : bool;
  unwrappable_ : option string; unwrappable_said_ : bool; held_ : option Z; held_token_ : option Z; last_shm_ : option (list byte); counts_ : FrameCounts; last_push_ : Z;
  released : list (Z * Z); woken : bool; draining : list (Z * Z);       (* the channel; the first half of a drain *)
  tokens : list (Z * Z); flying : list GstBuf; leaving : list Z;       (* a token's buffer; its references *)
  memories : nat; events : list FEvent
}.
Definition new_frames : Frames := {|
  slots := []; deliveries := 0; format_ := no_format; caps_ := None; appsrc_ := None; suspended_ := false; unwrappable_ := None; unwrappable_said_ := false;
  held_ := None; held_token_ := None; last_shm_ := None; counts_ := {| fresh := 0; repeated := 0; cursor_only := 0; newest := None |}; last_push_ := 0;
  released := []; woken := false; draining := []; tokens := []; flying := []; leaving := []; memories := 0; events := [] |}.
Definition event (e : FEvent) (f : Frames) : Frames := {| f with events := events f ++ [e] |}.

(** ** Tokens *)
Definition token_live (d : Z) (f : Frames) : bool :=
  bool_decide (held_token_ f = Some d) || existsb (fun g => gb_token g =? d) (flying f) || existsb (Z.eqb d) (leaving f).
(** [on_token_gone], when the last reference went. *)
Definition token_gone (d : Z) (f : Frames) : Frames :=
  if token_live d f then f
  else match sm_find d (tokens f) with
       | None => f
       | Some b => event FWake {| f with released := released f ++ [(b, d)]; woken := true |}
       end.
(** The reader's reference moves to a local variable, to be dropped after the lock. *)
Definition let_go (f : Frames) : Frames :=
  {| f with leaving := match held_token_ f with Some d => leaving f ++ [d] | None => leaving f end; held_token_ := None |}.

(** ** Pushing *)
(** The appsrc takes the buffer in every case; one it refuses it drops. A buffer that is not
    pushed dies here, and its token has the reader's reference. *)
Definition push_locked (p : Pushed) (now : Z) (ok : bool) (f : Frames) : Frames * bool :=
  let f := {| f with last_push_ := now |} in
  match appsrc_ f, suspended_ f with
  | Some a, false => (event (FPushed a p) (if ok then match p with PDma g => {| f with flying := flying f ++ [g] |} | PShm _ _ => f end else f), ok)
  | _, _ => (f, false)
  end.
Definition wrap_locked (s : Slot) (token : Z) (repeat : bool) : GstBuf := {| gb_token := token; gb_mem := sl_planes s; gb_repeat := repeat |}.
Definition repeat_newest_locked (now : Z) (ok : bool) (f : Frames) : Frames * bool :=
  match held_ f, held_token_ f with
  | Some b, Some d => match sm_find b (slots f) with Some s => push_locked (PDma (wrap_locked s d true)) now ok f | None => (f, false) end
  | _, _ => match last_shm_ f with Some bytes => push_locked (PShm bytes true) now ok f | None => (f, false) end
  end.
Definition count_repeat (r : Frames * bool) : Frames :=
  if r.2 then {| (r.1) with counts_ := {| (counts_ r.1) with repeated := repeated (counts_ r.1) + 1 |} |} else r.1.

(** ** Operations *)
Definition same_format (a b : NegotiatedFormat) : bool :=
  bool_decide (nf_format a = nf_format b) && (nf_width a =? nf_width b) && (nf_height a =? nf_height b) && Bool.eqb (nf_dmabuf a) (nf_dmabuf b) && (nf_modifier a =? nf_modifier b).
Definition give_caps (f : Frames) : Frames := match appsrc_ f, caps_ f with Some a, Some c => event (FCaps a c) f | _, _ => f end.
Definition set_format (nf : NegotiatedFormat) (f : Frames) : Frames :=
  if negb (nf_fixed nf) || (nf_width nf <=? 0) || (nf_height nf <=? 0) then f
  else
    let f := if same_format (format_ f) nf then f else {| (let_go f) with held_ := None; last_shm_ := None |} in
    let f := {| f with format_ := nf; caps_ := Some nf |} in
    if suspended_ f then f else give_caps f.
(** Every plane or none, each in memory of its own. *)
Fixpoint wrap_planes (datas : list Data) (answers : list Taking) (next : nat) : string + list nat :=
  match datas with
  | [] => inr []
  | d :: datas' =>
    let a := default {| dup_fails := Some "no answer"%string; file_size := 0; wraps := false; maps := false |} (head answers) in
    if match d_type d with DmaBuf => d_fd d <? 0 | _ => true end then inl "a DMA-BUF plane without a descriptor"%string
    else match dup_fails a with
         | Some e => inl ("a DMA-BUF descriptor that could not be duplicated: " +:+ e)
         | None =>
           let size := if d_maxsize d =? 0 then (if 0 <? file_size a then file_size a else 0) else d_mapoffset d + d_maxsize d in
           if negb ((0 <? size) && wraps a) then inl "a DMA-BUF plane GStreamer could not wrap"%string
           else match wrap_planes datas' (tail answers) (S next) with inl e => inl e | inr ms => inr (next :: ms) end
         end
  end.
Definition is_dmabuf (datas : list Data) : bool := match datas with d :: _ => match d_type d with DmaBuf => true | _ => false end | [] => false end.
Definition planes_of (datas : list Data) (answers : list Taking) (next : nat) : string + list nat :=
  if negb (is_dmabuf datas) then inr []
  else if (1 <? length datas)%nat then inl ("a DMA-BUF of " +:+ pretty (length datas) +:+ " planes, which the reader does not take yet")
  else wrap_planes datas answers next.
Definition maps_itself (datas : list Data) (answers : list Taking) : bool :=
  negb (is_dmabuf datas)
  && match datas with
     | d :: _ => match d_type d, d_data d with MemFd, None => (0 <=? d_fd d) && match answers with a :: _ => maps a | [] => false end | _, _ => false end
     | [] => false
     end.
Definition add_buffer (b : Z) (datas : list Data) (answers : list Taking) (f : Frames) : Frames :=
  let planes := planes_of datas answers (memories f) in
  let f := {| f with slots := sm_set b {| sl_delivery := 0; sl_out := false; sl_planes := match planes with inr ms => ms | inl _ => [] end; sl_map := maps_itself datas answers |} (slots f);
                     memories := memories f + length datas |} in
  match planes with
  | inl why => if unwrappable_said_ f then f else {| f with unwrappable_said_ := true; unwrappable_ := Some why |}
  | inr _ => f
  end.
Definition take_unwrappable (f : Frames) : Frames * option string := ({| f with unwrappable_ := None |}, unwrappable_ f).
Definition remove_buffer (b : Z) (f : Frames) : Frames :=
  match sm_find b (slots f) with
  | None => f
  | Some _ =>
    let f := if bool_decide (held_ f = Some b) then {| (let_go f) with held_ := None |} else f in
    {| f with slots := sm_erase b (slots f) |}
  end.

(** [memcpy] of [len] bytes from [at_]: [None] is a read outside the memory. *)
Definition copy_row (mem : list byte) (at_ len : Z) : option (list byte) :=
  if (0 <=? at_) && (at_ + len <=? zlen mem) then Some (take (Z.to_nat len) (drop (Z.to_nat at_) mem)) else None.
Fixpoint copy_rows (mem : list byte) (at_ stride row : Z) (height : nat) : option (list byte) :=
  match height with
  | O => Some []
  | S h => match copy_row mem at_ row with None => None | Some r => match copy_rows mem (at_ + stride) stride row h with None => None | Some rs => Some (r ++ rs) end end
  end.
Inductive Copy := NoCopy | BadRead | Copied_ (bytes : list byte).
Definition copy_shm_locked (slot : option Slot) (d : Data) (c : Chunk) (fmt : NegotiatedFormat) (allocates : bool) : Copy :=
  let base := match d_data d, slot with
              | Some m, _ => Some m
              | None, Some s => if sl_map s then Some (drop (Z.to_nat (d_mapoffset d)) (d_file d)) else None
              | None, None => None
              end in
  let width := nf_width fmt in
  let height := nf_height fmt in
  match base with
  | None => NoCopy
  | Some mem =>
    if (width <=? 0) || (height <=? 0) then NoCopy
    else
      let stride := if 0 <? ck_stride c then ck_stride c else width * 4 in
      let row := width * 4 in
      if (0 <? d_maxsize d) && (d_maxsize d <? ck_offset c + stride * (height - 1) + row) then NoCopy
      else if negb allocates then NoCopy
      else match copy_rows mem (ck_offset c) stride row (Z.to_nat height) with Some bytes => Copied_ bytes | None => BadRead end
  end.

Inductive Delivery := CursorOnly | Copied | Held | Dropped.
Definition requeue_now (d : Delivery) : bool := match d with Held => false | _ => true end.
Definition made_frame (d : Delivery) : bool := match d with Copied | Held => true | _ => false end.
Definition count_fresh (now : Z) (f : Frames) : Frames := {| f with counts_ := {| (counts_ f) with fresh := fresh (counts_ f) + 1; newest := Some now |} |}.
(** Shared memory: a copy that is kept and pushed. A bad read would end the program. *)
Definition copy_in (slot : option Slot) (datas : list Data) (now : Z) (allocates ok : bool) (f : Frames) : Frames * Delivery :=
  match datas with
  | d :: _ =>
    match d_chunk d with
    | Some c => match copy_shm_locked slot d c (format_ f) allocates with
                | Copied_ bytes => ((push_locked (PShm bytes false) now ok (count_fresh now {| f with last_shm_ := Some bytes |})).1, Copied)
                | _ => (f, Dropped)
                end
    | None => (f, Dropped)
    end
  | [] => (f, Dropped)
  end.
(** DMA-BUF: a new delivery, whose token the reader holds as the newest frame. *)
Definition deliver (b : Z) (s : Slot) (now : Z) (ok : bool) (f : Frames) : Frames :=
  let d := deliveries f + 1 in
  let s := {| s with sl_delivery := d; sl_out := true |} in
  let f := let_go f in
  let f := {| f with slots := sm_set b s (slots f); deliveries := d; tokens := sm_set d b (tokens f); held_ := Some b; held_token_ := Some d |} in
  (push_locked (PDma (wrap_locked s d false)) now ok (count_fresh now f)).1.
Definition on_buffer (b : Z) (datas : list Data) (now : Z) (allocates ok : bool) (f : Frames) : Frames * Delivery :=
  if negb (has_pixels datas) then ({| f with counts_ := {| (counts_ f) with cursor_only := cursor_only (counts_ f) + 1 |} |}, CursorOnly)
  else
    let slot := sm_find b (slots f) in
    match slot with
    | Some s => if (0 <? length (sl_planes s))%nat && nf_dmabuf (format_ f) then (deliver b s now ok f, Held) else copy_in slot datas now allocates ok f
    | None => copy_in slot datas now allocates ok f
    end.
Definition keepalive (interval_ms now : Z) (ok : bool) (f : Frames) : Frames :=
  if now - last_push_ f <? interval_ms * 1000000 then f else count_repeat (repeat_newest_locked now ok f).
Definition attach (a : option nat) (now : Z) (ok : bool) (f : Frames) : Frames :=
  if bool_decide (appsrc_ f = a) then f
  else
    let f := {| f with appsrc_ := a |} in
    match a with
    | None => f
    | Some _ => if suspended_ f then f else count_repeat (repeat_newest_locked now ok (give_caps f))
    end.
Definition suspend (f : Frames) : Frames := {| f with suspended_ := true |}.
Definition resume (now : Z) (ok : bool) (f : Frames) : Frames :=
  if negb (suspended_ f) then f
  else
    let f := {| f with suspended_ := false |} in
    match appsrc_ f with None => f | Some _ => count_repeat (repeat_newest_locked now ok (give_caps f)) end.
(** [drain_releases]: the channel's lock, then the frames', then the buffers go back. *)
Definition drain_swap (f : Frames) : Frames := {| f with draining := draining f ++ released f; released := []; woken := false |}.
Definition drain_one (f : Frames) (r : Z * Z) : Frames :=
  match sm_find r.1 (slots f) with
  | Some s => if sl_out s && (sl_delivery s =? r.2) then event (FBack r.1) {| f with slots := sm_set r.1 {| s with sl_out := false |} (slots f) |} else f
  | None => f
  end.
Definition drain_give (f : Frames) : Frames := foldl drain_one {| f with draining := [] |} (draining f).
Definition buffers_out (f : Frames) : nat := length (List.filter (fun kv => sl_out kv.2) (slots f)).

(** ** Steps *)
(** Who has a buffer, by what happened. *)
Definition mutter_step (b : Z) (m : bool) (e : FEvent) : bool :=
  match e with
  | FAdded x | FBack x => if x =? b then true else m
  | FRemoved x | FDelivered x => if x =? b then false else m
  | _ => m
  end.
Definition mutter_has (b : Z) (f : Frames) : bool := foldl (mutter_step b) false (events f).
Definition lent_step (b : Z) (m : bool) (e : FEvent) : bool :=
  match e with FAdded x => if x =? b then true else m | FRemoved x => if x =? b then false else m | _ => m end.
Definition lent (b : Z) (f : Frames) : bool := foldl (lent_step b) false (events f).
Inductive FInput :=
| IAdd (b : Z) (datas : list Data) (answers : list Taking) | IRemove (b : Z) | IBuffer (b : Z) (datas : list Data) (now : Z) (allocates ok : bool)
| IFormat (nf : NegotiatedFormat) | IKeepalive (interval_ms now : Z) (ok : bool) | IAttach (a : option nat) (now : Z) (ok : bool)
| ISuspend | IResume (now : Z) (ok : bool) | IDrainSwap | IDrainGive | ITakeUnwrappable
| ICopy (i : nat) | IRelease (i : nat) | ILeave (i : nat).   (* GStreamer copies or drops a buffer; a local reference goes *)
Definition drop_at {A} (i : nat) (l : list A) : list A := take i l ++ drop (S i) l.
Definition f_step (i : FInput) (f : Frames) : Frames :=
  match i with
  | IAdd b datas answers => if lent b f then f else event (FAdded b) (add_buffer b datas answers f)
  | IRemove b => if lent b f then event (FRemoved b) (remove_buffer b f) else f
  | IBuffer b datas now allocates ok =>
    if mutter_has b f then
      let '(f, d) := on_buffer b datas now allocates ok (event (FDelivered b) f) in
      if requeue_now d then event (FBack b) f else f     (* on_process *)
    else f
  | IFormat nf => set_format nf f
  | IKeepalive ms now ok => keepalive ms now ok f
  | IAttach a now ok => attach a now ok f
  | ISuspend => suspend f
  | IResume now ok => resume now ok f
  | IDrainSwap => drain_swap f
  | IDrainGive => drain_give f
  | ITakeUnwrappable => (take_unwrappable f).1
  | ICopy i => match flying f !! i with Some g => {| f with flying := flying f ++ [g] |} | None => f end
  | IRelease i => match flying f !! i with Some g => token_gone (gb_token g) {| f with flying := drop_at i (flying f) |} | None => f end
  | ILeave i => match leaving f !! i with Some d => token_gone d {| f with leaving := drop_at i (leaving f) |} | None => f end
  end.
Definition f_run (ins : list FInput) : Frames := foldl (fun f i => f_step i f) new_frames ins.
