(* ===== verification/CaptureFramesProofs.v ===== *)
(** * CaptureFramesProofs: mutter never records into a frame that is still read

    One invariant over the steps: a buffer that is out is referenced or its release is posted, a
    frame is over the slot whose delivery it is or over memory no slot has any more, and what the
    history says mutter has is what the slots say is not out. *)

From Stdlib Require Import ZArith Lia Strings.Byte String.
From stdpp Require Import base list strings relations.
From S2P Require Import Prelude StdMap CaptureOffer CaptureFrames.

Definition live (f : Frames) (d : Z) : Prop := held_token_ f = Some d \/ (exists g, In g (flying f) /\ gb_token g = d) \/ In d (leaving f).
Lemma token_live_spec d f : token_live d f = true <-> live f d.
Proof.
  unfold token_live, live. rewrite !orb_true_iff, bool_decide_eq_true, !existsb_exists. split.
  - intros [[?|(g & ? & ?%Z.eqb_eq)]|(x & ? & ->%Z.eqb_eq)]; by eauto 10.
  - intros [?|[(g & ? & <-)|?]]; [by auto | left; right; exists g; by rewrite Z.eqb_refl | right; exists d; by rewrite Z.eqb_refl].
Qed.
Definition posted (f : Frames) (b d : Z) : Prop := In (b, d) (released f) \/ In (b, d) (draining f).
(** A frame over the slot that delivered it, or over memory that is no slot's. *)
Definition current (f : Frames) (g : GstBuf) : Prop :=
  exists b s, sm_find b (slots f) = Some s /\ sl_planes s = gb_mem g /\ sl_delivery s = gb_token g /\ sl_out s = true.
Definition retired (f : Frames) (g : GstBuf) : Prop := forall b s m, sm_find b (slots f) = Some s -> In m (sl_planes s) -> ~ In m (gb_mem g).

Record frames_inv (f : Frames) : Prop := {
  fi_wf : sm_wf (slots f);
  fi_mem : forall b s m, sm_find b (slots f) = Some s -> In m (sl_planes s) -> (m < memories f)%nat;
  fi_disjoint : forall b b' s s' m, sm_find b (slots f) = Some s -> sm_find b' (slots f) = Some s' -> In m (sl_planes s) -> In m (sl_planes s') -> b = b';
  fi_slot : forall b s, sm_find b (slots f) = Some s -> sl_out s = true -> sl_delivery s <= deliveries f /\ sm_find (sl_delivery s) (tokens f) = Some b;
  fi_token : forall d, live f d -> d <= deliveries f;
  fi_flying : forall g, In g (flying f) -> (current f g \/ retired f g) /\ forall m, In m (gb_mem g) -> (m < memories f)%nat;
  fi_held : forall b, held_ f = Some b -> exists d s, held_token_ f = Some d /\ sm_find b (slots f) = Some s /\ sl_delivery s = d /\ sl_out s = true;
  fi_posted : forall b d, posted f b d -> ~ live f d /\ d <= deliveries f;
  fi_out : forall b s, sm_find b (slots f) = Some s -> sl_out s = true -> live f (sl_delivery s) \/ posted f b (sl_delivery s);
  fi_mutter : forall b, mutter_has b f = true <-> exists s, sm_find b (slots f) = Some s /\ sl_out s = false;
  fi_lent : forall b, lent b f = true <-> exists s, sm_find b (slots f) = Some s;
  fi_woken : released f <> [] -> woken f = true
}.

(** ** Changes of the rest *)
Record same_core (f f' : Frames) : Prop := {
  sc_slots : slots f' = slots f; sc_deliveries : deliveries f' = deliveries f; sc_held : held_ f' = held_ f; sc_token : held_token_ f' = held_token_ f;
  sc_released : released f' = released f; sc_woken : woken f' = woken f; sc_draining : draining f' = draining f; sc_tokens : tokens f' = tokens f;
  sc_flying : flying f' = flying f; sc_leaving : leaving f' = leaving f; sc_memories : memories f' = memories f;
  sc_mutter : forall b, mutter_has b f' = mutter_has b f; sc_lent : forall b, lent b f' = lent b f
}.
#[export] Instance same_core_preorder : PreOrder same_core.
Proof. split; [by split | intros ??? [] []; split; intros; etrans; eauto]. Qed.
Lemma inv_same f f' : same_core f f' -> frames_inv f -> frames_inv f'.
Proof.
  intros [E1 E2 E3 E4 E5 E6 E7 E8 E9 E10 E11 M L] [H1 H2 H3 H4 H5 H6 H7 H8 H9 H10 H11 H12].
  assert (forall d, live f' d <-> live f d) as Hl by (intros d; unfold live; by rewrite E4, E9, E10).
  assert (forall b d, posted f' b d <-> posted f b d) as Hp by (intros b d; unfold posted; by rewrite E5, E7).
  split; unfold current, retired in *; rewrite ?E1, ?E2, ?E3, ?E4, ?E5, ?E6, ?E7, ?E8, ?E9, ?E11; try done.
  - intros d Hd. by apply H5, Hl.
  - intros b d Hd. rewrite Hl. by apply (H8 b), Hp.
  - intros b s Hs Ho. rewrite Hl, Hp. by apply H9.
  - intros b. by rewrite M.
  - intros b. by rewrite L.
Qed.
Definition neutral (e : FEvent) : bool := match e with FCaps _ _ | FPushed _ _ | FWake => true | _ => false end.
Lemma mutter_app b e f : mutter_has b (event e f) = mutter_step b (mutter_has b f) e.
Proof. unfold mutter_has, event. cbn [events]. by rewrite foldl_app. Qed.
Lemma lent_app b e f : lent b (event e f) = lent_step b (lent b f) e.
Proof. unfold lent, event. cbn [events]. by rewrite foldl_app. Qed.
Lemma event_same e f : neutral e = true -> same_core f (event e f).
Proof. intros He. split; try done; intros b; [rewrite mutter_app | rewrite lent_app]; by destruct e. Qed.
Lemma give_caps_same f : same_core f (give_caps f).
Proof. unfold give_caps. destruct (appsrc_ f), (caps_ f); try done. by apply event_same. Qed.

(** ** References *)
Lemma inv_fly f g : frames_inv f -> live f (gb_token g) -> current f g \/ retired f g -> (forall m, In m (gb_mem g) -> (m < memories f)%nat) -> frames_inv {| f with flying := flying f ++ [g] |}.
Proof.
  intros [H1 H2 H3 H4 H5 H6 H7 H8 H9 H10 H11 H12] Hg Hc Hm.
  assert (forall d, live {| f with flying := flying f ++ [g] |} d <-> live f d) as Hl.
  { intros d. unfold live. cbn. split; [|naive_solver eauto using in_or_app]. intros [?|[(x & Hx & <-)|?]]; [by left | | by right; right].
    apply in_app_or in Hx as [Hx|[<-|[]]]; [right; left; by exists x | exact Hg]. }
  split; cbn [slots deliveries held_ held_token_ released woken draining tokens flying leaving memories]; try done.
  - intros d Hd. by apply H5, Hl.
  - intros x Hx. apply in_app_or in Hx as [Hx|[<-|[]]]; [by apply H6 | done].
  - intros b d Hd. rewrite Hl. by apply (H8 b).
  - intros b s Hs Ho. rewrite Hl. by apply H9.
Qed.
Lemma drop_at_in {A} i (l : list A) y : l !! i = Some y -> forall x, In x l <-> x = y \/ In x (drop_at i l).
Proof. intros Hy x. rewrite <- (take_drop_middle l i y Hy) at 1. unfold drop_at. rewrite !in_app_iff. cbn. naive_solver. Qed.
(** What a dropped reference leaves alone. *)
Record same_slots (f f' : Frames) : Prop := {
  ss_slots : slots f' = slots f; ss_deliveries : deliveries f' = deliveries f; ss_held : held_ f' = held_ f; ss_token : held_token_ f' = held_token_ f;
  ss_draining : draining f' = draining f; ss_tokens : tokens f' = tokens f; ss_memories : memories f' = memories f;
  ss_mutter : forall b, mutter_has b f' = mutter_has b f; ss_lent : forall b, lent b f' = lent b f; ss_flying : forall g, In g (flying f') -> In g (flying f)
}.
Lemma inv_dropped f f' : frames_inv f -> same_slots f f' -> (forall e, live f' e -> live f e) ->
  (forall b e, In (b, e) (released f') -> In (b, e) (released f) \/ ~ live f' e /\ live f e) ->
  (forall b s, sm_find b (slots f) = Some s -> sl_out s = true -> live f (sl_delivery s) -> live f' (sl_delivery s) \/ In (b, sl_delivery s) (released f')) ->
  (forall b e, In (b, e) (released f) -> In (b, e) (released f')) -> (released f' <> [] -> woken f' = true) -> frames_inv f'.
Proof.
  intros [H1 H2 H3 H4 H5 H6 H7 H8 H9 H10 H11 H12] [E1 E2 E3 E4 E5 E6 E7 M L F] Hl Hr Ho Hin Hw.
  split; unfold current, retired, posted in *; rewrite ?E1, ?E2, ?E3, ?E4, ?E5, ?E6, ?E7; try done.
  - intros e He. by apply H5, Hl.
  - intros g Hg. by apply H6, F.
  - intros b e He. assert (In (b, e) (released f) \/ In (b, e) (draining f) \/ ~ live f' e /\ live f e) as [He'|[He'|[Hn He']]] by (destruct He as [He%Hr|?]; tauto).
    + destruct (H8 b e) as [Hn ?]; [by left | split; [by intros ?%Hl | done]].
    + destruct (H8 b e) as [Hn ?]; [by right | split; [by intros ?%Hl | done]].
    + split; [done | by apply H5].
  - intros b s Hs Hout. destruct (H9 b s Hs Hout) as [?|[?|?]]; [|by auto | by auto]. destruct (Ho b s Hs Hout); by auto.
  - intros b. by rewrite M.
  - intros b. by rewrite L.
Qed.
(** The last reference to [d] may have gone. *)
Lemma inv_gone f f' d : frames_inv f -> same_slots f f' -> released f' = released f -> woken f' = woken f -> live f d ->
  (forall e, live f' e -> live f e) -> (forall e, e <> d -> live f e -> live f' e) -> frames_inv (token_gone d f').
Proof.
  intros Hi Hs Er Ew Hd Hl1 Hl2. unfold token_gone. destruct (token_live d f') eqn:El.
  - apply token_live_spec in El. apply (inv_dropped f); rewrite ?Er, ?Ew; try done; [by auto | | by apply fi_woken]. intros b s _ _ Hls. left. destruct (decide (sl_delivery s = d)) as [->|]; by auto.
  - assert (~ live f' d) as Hnl by (rewrite <- token_live_spec; congruence). pose proof (ss_tokens _ _ Hs) as Et. destruct (sm_find d (tokens f')) as [b0|] eqn:Ed; rewrite Et in Ed.
    + set (f2 := event FWake {| f' with released := released f' ++ [(b0, d)]; woken := true |}).
      assert (forall e, live f2 e <-> live f' e) as Hev by (intros e; by unfold live). assert (released f2 = released f' ++ [(b0, d)]) as Er2 by done. assert (woken f2 = true) as Ew2 by done.
      assert (same_slots f f2) as Hs2. { destruct Hs as [E1 E2 E3 E4 E5 E6 E7 M L F]. split; try done; intros b; [unfold f2; rewrite mutter_app | unfold f2; rewrite lent_app]; cbn; [rewrite <- M | rewrite <- L]; done. }
      clearbody f2. apply (inv_dropped f); rewrite ?Er2, ?Er; [exact Hi | exact Hs2 | | | | | intros _; exact Ew2].
      * intros e He. by apply Hl1, Hev.
      * intros b e He. apply in_app_or in He as [He|[[= <- <-]|[]]]; [by left | right; rewrite Hev; by auto].
      * intros b s Hf Hout Hls. rewrite Hev, in_app_iff. destruct (decide (sl_delivery s = d)) as [E|E]; [|by auto]. right. right. left.
        destruct (fi_slot f Hi b s Hf Hout) as [_ Ht]. congruence.
      * intros b e He. apply in_or_app. by left.
    + apply (inv_dropped f); rewrite ?Er, ?Ew; try done; [by auto | | by apply fi_woken]. intros b s Hf Hout Hls. left. apply Hl2; [|done]. intros E.
      destruct (fi_slot f Hi b s Hf Hout) as [_ Ht]. congruence.
Qed.
Lemma inv_release i g f : frames_inv f -> flying f !! i = Some g -> frames_inv (token_gone (gb_token g) {| f with flying := drop_at i (flying f) |}).
Proof.
  intros Hi Hg. pose proof (drop_at_in i (flying f) g Hg) as Hin. apply (inv_gone f); try done.
  - split; try done. cbn. intros x Hx. apply Hin. by right.
  - right. left. exists g. split; [apply Hin; by left | done].
  - intros e. unfold live. cbn. intros [?|[(x & Hx & <-)|?]]; [by auto | right; left; exists x; split; [apply Hin; by right | done] | by auto].
  - intros e He. unfold live. cbn. intros [?|[(x & Hx & <-)|?]]; [by auto | right; left; exists x; apply Hin in Hx as [->|]; done | by auto].
Qed.
Lemma inv_leave i d f : frames_inv f -> leaving f !! i = Some d -> frames_inv (token_gone d {| f with leaving := drop_at i (leaving f) |}).
Proof.
  intros Hi Hg. pose proof (drop_at_in i (leaving f) d Hg) as Hin. apply (inv_gone f); try done.
  - right. right. apply Hin. by left.
  - intros e. unfold live. cbn. intros [?|[?|?]]; [by auto | by auto | right; right; apply Hin; by right].
  - intros e He. unfold live. cbn. intros [?|[?|Hx]]; [by auto | by auto | right; right; apply Hin in Hx as [->|]; done].
Qed.
(** The newest frame is no longer the reader's to repeat. *)
Lemma live_let_go f d : live (let_go f) d <-> live f d.
Proof. unfold live, let_go. cbn. destruct (held_token_ f) as [t|]; [|naive_solver]. rewrite in_app_iff. cbn. naive_solver. Qed.
Lemma inv_let_go f : frames_inv f -> frames_inv {| (let_go f) with held_ := None |}.
Proof.
  intros [H1 H2 H3 H4 H5 H6 H7 H8 H9 H10 H11 H12]. assert (forall d, live {| (let_go f) with held_ := None |} d <-> live f d) as Hl by (intros d; exact (live_let_go f d)).
  set (f2 := {| (let_go f) with held_ := None |}) in *.
  assert (slots f2 = slots f /\ deliveries f2 = deliveries f /\ held_ f2 = None /\ released f2 = released f /\ draining f2 = draining f /\ tokens f2 = tokens f /\ flying f2 = flying f /\ memories f2 = memories f /\ woken f2 = woken f) as (E1 & E2 & E3 & E4 & E5 & E6 & E7 & E8 & E9) by done.
  assert (forall b, mutter_has b f2 = mutter_has b f /\ lent b f2 = lent b f) as ML by done. clearbody f2.
  split; unfold current, retired, posted in *; rewrite ?E1, ?E2, ?E3, ?E4, ?E5, ?E6, ?E7, ?E8, ?E9; try done.
  - intros e He. by apply H5, Hl.
  - intros b e He. rewrite Hl. by apply (H8 b).
  - intros b s Hs Ho. rewrite Hl. by apply H9.
  - intros b. by rewrite (proj1 (ML b)).
  - intros b. by rewrite (proj2 (ML b)).
Qed.

(** ** Pushing *)
Lemma push_shm_same bytes r now ok f : same_core f (push_locked (PShm bytes r) now ok f).1.
Proof. unfold push_locked. cbn. destruct (appsrc_ f); [|done]. destruct (suspended_ f); [done|]. cbn. by destruct ok; (etrans; [|by apply event_same]). Qed.
Lemma inv_push_dma g now ok f : frames_inv f -> live f (gb_token g) -> current f g -> (forall m, In m (gb_mem g) -> (m < memories f)%nat) -> frames_inv (push_locked (PDma g) now ok f).1.
Proof.
  intros Hi Hl Hc Hm. set (f1 := {| f with last_push_ := now |}). assert (same_core f f1) as Hs by by split. pose proof (inv_same _ _ Hs Hi) as Hi1. unfold push_locked. fold f1.
  destruct (appsrc_ f1) as [a|]; [|done]. destruct (suspended_ f1); [done|]. cbn [fst]. destruct ok; (eapply inv_same; [by apply event_same|]); [|done].
  eapply inv_same; [|exact (inv_fly f1 g Hi1 Hl (or_introl Hc) Hm)]. by split.
Qed.
Lemma inv_repeat now ok f : frames_inv f -> frames_inv (repeat_newest_locked now ok f).1.
Proof.
  intros Hi. unfold repeat_newest_locked. destruct (held_ f) as [b|] eqn:Eh.
  - destruct (fi_held f Hi b Eh) as (d & s & Ht & Hf & Hd & Ho). rewrite Ht, Hf. apply inv_push_dma; [done | by left | by exists b, s | intros m Hm; by apply (fi_mem f Hi b s)].
  - destruct (last_shm_ f); [|done]. eapply inv_same; [apply push_shm_same | done].
Qed.
Lemma inv_count r : frames_inv r.1 -> frames_inv (count_repeat r).
Proof. intros Hi. unfold count_repeat. destruct (r.2); [|done]. revert Hi. apply inv_same. by split. Qed.

(** ** Slots *)
Lemma inv_deliver b s now ok f : frames_inv f -> sm_find b (slots f) = Some s -> sl_out s = false -> frames_inv (deliver b s now ok (event (FDelivered b) f)).
Proof.
  intros Hi Hb Hout. unfold deliver. set (d := deliveries (event (FDelivered b) f) + 1). set (s' := {| s with sl_delivery := d; sl_out := true |}).
  match goal with |- frames_inv (push_locked _ _ _ (count_fresh _ ?x)).1 => set (f2 := x) end.
  assert (deliveries f2 = d /\ slots f2 = sm_set b s' (slots f) /\ held_ f2 = Some b /\ held_token_ f2 = Some d /\ released f2 = released f /\ draining f2 = draining f /\ tokens f2 = sm_set d b (tokens f) /\ flying f2 = flying f /\ memories f2 = memories f /\ woken f2 = woken f)
    as (E1 & E2 & E3 & E4 & E5 & E6 & E7 & E8 & E9 & E10) by done.
  assert (d = deliveries f + 1) as Ed by done. clearbody d.
  assert (forall e, live f2 e <-> e = d \/ live f e) as Hl.
  { intros e. unfold live. rewrite E4, E8. unfold f2, let_go. cbn. destruct (held_token_ f); rewrite ?in_app_iff; cbn; naive_solver. }
  assert (forall x, mutter_has x f2 = if x =? b then false else mutter_has x f) as M by (intros x; change (mutter_has x f2) with (mutter_has x (event (FDelivered b) f)); rewrite mutter_app; cbn; by rewrite (Z.eqb_sym b x)).
  assert (forall x, lent x f2 = lent x f) as L by (intros x; change (lent x f2) with (lent x (event (FDelivered b) f)); by rewrite lent_app).
  clearbody f2. destruct Hi as [H1 H2 H3 H4 H5 H6 H7 H8 H9 H10 H11 H12].
  assert (forall x y, sm_find x (slots f2) = Some y -> x = b /\ y = s' \/ x <> b /\ sm_find x (slots f) = Some y) as Hfind.
  { intros x y. rewrite E2. destruct (decide (x = b)) as [->|Hx]; [rewrite sm_find_set_eq; intros [= <-]; by left | rewrite sm_find_set_ne by done; by right]. }
  assert (sm_find b (slots f2) = Some s') as Hb2 by (rewrite E2; apply sm_find_set_eq).
  assert (frames_inv f2) as Hi2.
  { split.
    - rewrite E2. by apply sm_wf_set.
    - intros x y m Hx Hm. rewrite E9. apply Hfind in Hx as [[-> ->]|[_ Hx]]; [by apply (H2 b s) | by apply (H2 x y)].
    - intros x x' y y' m Hx Hx' Hm Hm'. apply Hfind in Hx as [[-> ->]|[Hxb Hx]], Hx' as [[-> ->]|[Hxb' Hx']]; [done | by apply (H3 b x' s y' m) | by apply (H3 x b y s m) | by apply (H3 x x' y y' m)].
    - intros x y Hx. rewrite E1, E7. apply Hfind in Hx as [[-> ->]|[_ Hx]]; [intros _; split; [cbn; lia | cbn; by rewrite sm_find_set_eq]|].
      intros Ho. destruct (H4 x y Hx Ho) as [Hle Ht]. split; [lia|]. rewrite sm_find_set_ne; [done | lia].
    - intros e He. rewrite E1. apply Hl in He as [->|He]; [lia|]. apply H5 in He. lia.
    - intros g Hg. rewrite E8 in Hg. rewrite E9. destruct (H6 g Hg) as [Hc Hm]. split; [|done]. destruct Hc as [(x & y & Hx & Hc)|Hc].
      + left. exists x, y. rewrite E2, sm_find_set_ne; [done|]. intros ->. assert (y = s) as -> by congruence. destruct Hc as (_ & _ & Hc). congruence.
      + right. intros x y m Hx. apply Hfind in Hx as [[-> ->]|[_ Hx]]; [by apply (Hc b s) | by apply (Hc x y)].
    - intros x. rewrite E3, E4. intros [= <-]. by exists d, s'.
    - intros x e. unfold posted. rewrite E5, E6, E1. intros He. destruct (H8 x e He) as [Hn Hle]. rewrite Hl. split; [|lia]. intros [->|?]; [lia | done].
    - intros x y Hx Hy. unfold posted. rewrite Hl, E5, E6. apply Hfind in Hx as [[-> ->]|[_ Hx]]; [by left; left|]. destruct (H9 x y Hx Hy) as [?|?]; [by left; right | by right].
    - intros x. rewrite M. destruct (Z.eqb_spec x b) as [->|Hx].
      + split; [done|]. intros (y & Hy & Hy'). rewrite Hb2 in Hy. by injection Hy as <-.
      + rewrite H10, E2, sm_find_set_ne by done. done.
    - intros x. rewrite L, H11, E2. destruct (decide (x = b)) as [->|Hx]; [rewrite sm_find_set_eq; split; by eauto | by rewrite sm_find_set_ne].
    - by rewrite E5, E10. }
  assert (same_core f2 (count_fresh now f2)) as Hs by by split.
  apply inv_push_dma; [by apply (inv_same f2) | left; exact E4 | exists b, s'; by rewrite (sc_slots _ _ Hs) | intros m Hm; rewrite (sc_memories _ _ Hs), E9; by apply (H2 b s)].
Qed.
(** One release of a drain: given back, or stale. *)
Lemma inv_drain_one r rest f : frames_inv {| f with draining := r :: rest |} -> frames_inv {| (drain_one f r) with draining := rest |}.
Proof.
  intros [H1 H2 H3 H4 H5 H6 H7 H8 H9 H10 H11 H12]. destruct r as [b d]. unfold drain_one. cbn [fst snd]. destruct (H8 b d) as [Hn Hle]; [by right; left|].
  change (live {| f with draining := (b, d) :: rest |}) with (live f) in *.
  assert (forall x y, sm_find x (slots f) = Some y -> sl_out y = true -> (x, sl_delivery y) <> (b, d) -> live f (sl_delivery y) \/ In (x, sl_delivery y) (released f) \/ In (x, sl_delivery y) rest) as Hout.
  { intros x y Hx Hy Hne. destruct (H9 x y Hx Hy) as [?|[?|[?|?]]]; [by auto | by auto | congruence | by auto]. }
  assert (forall x e, In (x, e) (released f) \/ In (x, e) rest -> ~ live f e /\ e <= deliveries f) as Hpost.
  { intros x e [?|?]; apply (H8 x e); [by left | right; by right]. }
  destruct (sm_find b (slots f)) as [s|] eqn:Eb.
  - destruct (sl_out s && (sl_delivery s =? d)) eqn:Eo.
    + apply andb_prop in Eo as [Eo Ed%Z.eqb_eq]. subst d. set (s' := {| s with sl_out := false |}).
      assert (forall x y, sm_find x (sm_set b s' (slots f)) = Some y -> x = b /\ y = s' \/ x <> b /\ sm_find x (slots f) = Some y) as Hfind.
      { intros x y. destruct (decide (x = b)) as [->|Hx]; [rewrite sm_find_set_eq; intros [= <-]; by left | rewrite sm_find_set_ne by done; by right]. }
      split; cbn [event slots deliveries held_ held_token_ released woken draining tokens flying leaving memories] in *; try done.
      * by apply sm_wf_set.
      * intros x y m Hx Hm. apply Hfind in Hx as [[-> ->]|[_ Hx]]; [by apply (H2 b s) | by apply (H2 x y)].
      * intros x x' y y' m Hx Hx' Hm Hm'. apply Hfind in Hx as [[-> ->]|[Hxb Hx]], Hx' as [[-> ->]|[Hxb' Hx']]; [done | by apply (H3 b x' s y' m) | by apply (H3 x b y s m) | by apply (H3 x x' y y' m)].
      * intros x y Hx. apply Hfind in Hx as [[-> ->]|[_ Hx]]; [done | by apply (H4 x y)].
      * intros g Hg. destruct (H6 g Hg) as [Hc Hm]. split; [|done]. destruct Hc as [(x & y & Hx & Hc)|Hc].
        -- left. exists x, y. cbn. rewrite sm_find_set_ne; [done|]. intros ->. cbn in Hx. assert (y = s) as -> by congruence. apply Hn. right. left. exists g. split; [done|]. by destruct Hc as (_ & <- & _).
        -- right. intros x y m Hx. cbn in Hx. apply Hfind in Hx as [[-> ->]|[_ Hx]]; [by apply (Hc b s) | by apply (Hc x y)].
      * intros x Hx. destruct (H7 x Hx) as (e & y & Ht & Hy & He & Hyo). exists e, y. rewrite sm_find_set_ne; [done|]. intros ->. assert (y = s) as -> by congruence. apply Hn. left. by rewrite Ht, He.
      * intros x y Hx Hy. apply Hfind in Hx as [[-> ->]|[Hne Hx]]; [done|]. apply (Hout x y Hx Hy). congruence.
      * intros x. match goal with |- mutter_has x ?F = true <-> _ => change (mutter_has x F) with (mutter_has x (event (FBack b) f)) end. rewrite mutter_app. cbn. destruct (Z.eqb_spec b x) as [->|Hne].
        -- split; [|done]. intros _. exists s'. by rewrite sm_find_set_eq.
        -- rewrite sm_find_set_ne by done. apply H10.
      * intros x. match goal with |- lent x ?F = true <-> _ => change (lent x F) with (lent x (event (FBack b) f)) end. rewrite lent_app. cbn. change (lent x f) with (lent x {| f with draining := (b, sl_delivery s) :: rest |}). rewrite H11.
        destruct (decide (x = b)) as [->|Hne]; [rewrite sm_find_set_eq; split; by eauto | by rewrite sm_find_set_ne].
    + split; cbn [slots deliveries held_ held_token_ released woken draining tokens flying leaving memories] in *; try done.
      intros x y Hx Hy. apply (Hout x y Hx Hy). intros [= -> E]. assert (y = s) as -> by congruence. rewrite Hy, E, Z.eqb_refl in Eo. done.
  - split; cbn [slots deliveries held_ held_token_ released woken draining tokens flying leaving memories] in *; try done.
    intros x y Hx Hy. apply (Hout x y Hx Hy). intros [= -> E]. congruence.
Qed.
Lemma drain_one_draining f r : draining (drain_one f r) = draining f.
Proof. unfold drain_one. destruct (sm_find _ _); [|done]. by destruct (_ && _). Qed.
Lemma inv_drain f : frames_inv f -> frames_inv (drain_give f).
Proof.
  unfold drain_give. assert (forall l f, draining f = [] -> frames_inv {| f with draining := l |} -> frames_inv (foldl drain_one f l)) as H.
  { clear f. induction l as [|r l IH]; intros f Hd Hi; cbn; [by destruct f; cbn in *; subst|]. apply IH; [by rewrite drain_one_draining | by apply inv_drain_one]. }
  intros Hi. apply H; [done|]. by destruct f.
Qed.
Lemma wrap_planes_fresh datas : forall answers next ms, wrap_planes datas answers next = inr ms -> forall m, In m ms -> (next <= m < next + length datas)%nat.
Proof.
  induction datas as [|d datas IH]; intros answers next ms; cbn [wrap_planes length]; [by intros [= <-]|].
  repeat (case_match; try done). all: intros [= <-] m [<-|Hm]; [lia|]; eapply IH in Hm; [|done]; lia.
Qed.
Lemma planes_of_fresh datas answers next ms : planes_of datas answers next = inr ms -> forall m, In m ms -> (next <= m < next + length datas)%nat.
Proof. unfold planes_of. destruct (is_dmabuf datas); cbn [negb]; [|by intros [= <-]]. destruct (_ <? _)%nat; [done | apply wrap_planes_fresh]. Qed.
(** A state whose slots and memories are those of a buffer just added. *)
Lemma inv_add b s f f' : frames_inv f -> lent b f = false -> sl_out s = false ->
  (forall m, In m (sl_planes s) -> (memories f <= m < memories f')%nat) -> (memories f <= memories f')%nat ->
  slots f' = sm_set b s (slots f) -> deliveries f' = deliveries f -> held_ f' = held_ f -> held_token_ f' = held_token_ f -> released f' = released f -> woken f' = woken f -> draining f' = draining f ->
  tokens f' = tokens f -> flying f' = flying f -> leaving f' = leaving f -> events f' = events f ++ [FAdded b] -> frames_inv f'.
Proof.
  intros [H1 H2 H3 H4 H5 H6 H7 H8 H9 H10 H11 H12] Hlent Hout Hm Hle E1 E2 E3 E4 E5 E6 E7 E8 E9 E10 E11.
  assert (sm_find b (slots f) = None) as Hb. { destruct (sm_find b (slots f)) as [y|] eqn:E; [|done]. rewrite (proj2 (H11 b)) in Hlent; by eauto. }
  assert (forall x y, sm_find x (slots f') = Some y -> x = b /\ y = s \/ x <> b /\ sm_find x (slots f) = Some y) as Hfind.
  { intros x y. rewrite E1. destruct (decide (x = b)) as [->|Hx]; [rewrite sm_find_set_eq; intros [= <-]; by left | rewrite sm_find_set_ne by done; by right]. }
  assert (forall x, x <> b -> sm_find x (slots f') = sm_find x (slots f)) as Hne by (intros; rewrite E1; by apply sm_find_set_ne).
  assert (forall d, live f' d <-> live f d) as Hl by (intros d; unfold live; by rewrite E4, E9, E10).
  split; rewrite ?E2, ?E3, ?E4, ?E5, ?E6, ?E8, ?E9.
  - rewrite E1. by apply sm_wf_set.
  - intros x y m Hx Hy. apply Hfind in Hx as [[-> ->]|[_ Hx]]; [apply Hm in Hy; lia | specialize (H2 x y m Hx Hy); lia].
  - intros x x' y y' m Hx Hx' Hy Hy'. apply Hfind in Hx as [[-> ->]|[Hxb Hx]], Hx' as [[-> ->]|[Hxb' Hx']]; [done | | | by apply (H3 x x' y y' m)].
    + apply Hm in Hy. specialize (H2 x' y' m Hx' Hy'). lia.
    + apply Hm in Hy'. specialize (H2 x y m Hx Hy). lia.
  - intros x y Hx. apply Hfind in Hx as [[-> ->]|[_ Hx]]; [congruence | by apply H4].
  - intros d Hd'. by apply H5, Hl.
  - intros g Hg. destruct (H6 g Hg) as [Hc Hgm]. split; [|intros m Hm'; specialize (Hgm m Hm'); lia]. destruct Hc as [(x & y & Hx & Hc)|Hc].
    + left. exists x, y. rewrite Hne; [done | congruence].
    + right. intros x y m Hx Hy. apply Hfind in Hx as [[-> ->]|[_ Hx]]; [|by apply (Hc x y)]. intros Hg'. apply Hm in Hy. specialize (Hgm m Hg'). lia.
  - intros x Hx. destruct (H7 x Hx) as (d & y & ? & ? & ? & ?). exists d, y. rewrite Hne; [done | congruence].
  - intros x d. unfold posted. rewrite E5, E7, Hl. by apply H8.
  - intros x y Hx Hy. unfold posted. rewrite E5, E7, Hl. apply Hfind in Hx as [[-> ->]|[_ Hx]]; [congruence | by apply H9].
  - intros x. unfold mutter_has. rewrite E11, foldl_app. cbn. change (foldl (mutter_step x) false (events f)) with (mutter_has x f). destruct (Z.eqb_spec b x) as [->|Hx].
    + split; [|done]. intros _. exists s. by rewrite E1, sm_find_set_eq.
    + rewrite Hne by done. apply H10.
  - intros x. unfold lent. rewrite E11, foldl_app. cbn. change (foldl (lent_step x) false (events f)) with (lent x f). destruct (Z.eqb_spec b x) as [->|Hx].
    + split; [|done]. intros _. exists s. by rewrite E1, sm_find_set_eq.
    + rewrite Hne by done. apply H11.
  - done.
Qed.
Lemma inv_add_buffer b datas answers f : frames_inv f -> lent b f = false -> frames_inv (event (FAdded b) (add_buffer b datas answers f)).
Proof.
  intros Hi Hl. unfold add_buffer. destruct (planes_of datas answers (memories f)) as [why|ms] eqn:Ep.
  - eapply (inv_add b {| sl_delivery := 0; sl_out := false; sl_planes := []; sl_map := maps_itself datas answers |} f); try done; try (cbn; by destruct (unwrappable_said_ f)).
    cbn. destruct (unwrappable_said_ f); cbn; lia.
  - eapply (inv_add b {| sl_delivery := 0; sl_out := false; sl_planes := ms; sl_map := maps_itself datas answers |} f); try done; cbn; [|lia].
    intros m Hm. by apply (planes_of_fresh datas answers _ ms).
Qed.
(** A state without the buffer, and without its frame as the newest. *)
Lemma inv_remove b f f' : frames_inv f -> held_ f <> Some b -> slots f' = sm_erase b (slots f) -> deliveries f' = deliveries f -> held_ f' = held_ f -> held_token_ f' = held_token_ f -> released f' = released f -> woken f' = woken f ->
  draining f' = draining f -> tokens f' = tokens f -> flying f' = flying f -> leaving f' = leaving f -> memories f' = memories f -> events f' = events f ++ [FRemoved b] -> frames_inv f'.
Proof.
  intros [H1 H2 H3 H4 H5 H6 H7 H8 H9 H10 H11 H12] Hh E1 E2 E3 E4 E5 E6 E7 E8 E9 E10 E11 E12.
  assert (forall x, x <> b -> sm_find x (slots f') = sm_find x (slots f)) as Hne by (intros; rewrite E1; by apply sm_find_erase_ne).
  assert (sm_find b (slots f') = None) as Hb by (rewrite E1; apply sm_find_erase_eq).
  assert (forall x y, sm_find x (slots f') = Some y -> x <> b /\ sm_find x (slots f) = Some y) as Hfind. { intros x y Hx. assert (x <> b) by congruence. by rewrite <- Hne. }
  assert (forall d, live f' d <-> live f d) as Hl by (intros d; unfold live; by rewrite E4, E9, E10).
  split; rewrite ?E2, ?E3, ?E4, ?E5, ?E6, ?E8, ?E9, ?E11.
  - rewrite E1. by apply sm_wf_erase.
  - intros x y m [_ Hx]%Hfind. by apply H2 with x.
  - intros x x' y y' m [_ Hx]%Hfind [_ Hx']%Hfind. by apply (H3 x x' y y').
  - intros x y [_ Hx]%Hfind. by apply H4.
  - intros d Hd'. by apply H5, Hl.
  - intros g Hg. destruct (H6 g Hg) as [Hc Hgm]. split; [|done]. destruct Hc as [(x & y & Hx & Hp & Hc)|Hc].
    + destruct (decide (x = b)) as [->|Hxb]; [right | left; exists x, y; by rewrite Hne]. intros z w m [Hz Hw]%Hfind Hm Hg'. rewrite <- Hp in Hg'. by apply Hz, (H3 z b w y m).
    + right. intros z w m [_ Hw]%Hfind. by apply (Hc z w).
  - intros x Hx. destruct (H7 x Hx) as (d & y & ? & ? & ? & ?). exists d, y. rewrite Hne; [done | congruence].
  - intros x d. unfold posted. rewrite E5, E7, Hl. by apply H8.
  - intros x y [_ Hx]%Hfind Hy. unfold posted. rewrite E5, E7, Hl. by apply H9.
  - intros x. unfold mutter_has. rewrite E12, foldl_app. cbn. change (foldl (mutter_step x) false (events f)) with (mutter_has x f). destruct (Z.eqb_spec b x) as [<-|Hx].
    + split; [done|]. intros (y & Hy & _). congruence.
    + rewrite Hne by done. apply H10.
  - intros x. unfold lent. rewrite E12, foldl_app. cbn. change (foldl (lent_step x) false (events f)) with (lent x f). destruct (Z.eqb_spec b x) as [<-|Hx].
    + split; [done|]. intros (y & Hy). congruence.
    + rewrite Hne by done. apply H11.
  - done.
Qed.
Lemma inv_remove_buffer b f : frames_inv f -> lent b f = true -> frames_inv (event (FRemoved b) (remove_buffer b f)).
Proof.
  intros Hi Hl. apply (fi_lent f Hi) in Hl as (s & Hs). unfold remove_buffer. rewrite Hs. case_bool_decide as Hh.
  - by eapply (inv_remove b {| (let_go f) with held_ := None |}); [by apply inv_let_go | ..].
  - by eapply (inv_remove b f).
Qed.

(** ** Every step *)
Lemma inv_format nf f : frames_inv f -> frames_inv (set_format nf f).
Proof.
  intros Hi. unfold set_format. destruct (_ || _); [done|]. set (f1 := if same_format (format_ f) nf then f else {| (let_go f) with held_ := None; last_shm_ := None |}).
  assert (frames_inv f1) as H1. { unfold f1. destruct (same_format _ _); [done|]. pose proof (inv_let_go f Hi) as H. revert H. apply inv_same. by split. }
  clearbody f1. assert (same_core f1 {| f1 with format_ := nf; caps_ := Some nf |}) as Hs by by split.
  destruct (suspended_ _); [by apply (inv_same f1)|]. apply (inv_same f1); [|done]. etrans; [exact Hs | apply give_caps_same].
Qed.
Lemma copy_in_same slot datas now allocates ok f : same_core f (copy_in slot datas now allocates ok f).1 /\ (copy_in slot datas now allocates ok f).2 <> Held.
Proof.
  unfold copy_in. destruct datas as [|d datas]; [by split|]. destruct (d_chunk d) as [c|]; [|by split]. destruct (copy_shm_locked slot d c (format_ f) allocates) as [| |bytes]; [by split | by split|].
  split; [|done]. etrans; [|apply push_shm_same]. by split.
Qed.
(** A delivery that goes straight back leaves mutter and the slots as they were. *)
Lemma back_same b f h : mutter_has b f = true -> same_core (event (FDelivered b) f) h -> same_core f (event (FBack b) h).
Proof.
  intros Hb [E1 E2 E3 E4 E5 E6 E7 E8 E9 E10 E11 M L]. split; try done; intros x.
  - rewrite mutter_app. cbn. rewrite M, mutter_app. cbn. destruct (Z.eqb_spec b x) as [<-|]; [by rewrite Hb | done].
  - rewrite lent_app. cbn. by rewrite L, lent_app.
Qed.
Lemma inv_buffer b datas now allocates ok f : frames_inv f -> frames_inv (f_step (IBuffer b datas now allocates ok) f).
Proof.
  intros Hi. cbn [f_step]. destruct (mutter_has b f) eqn:Hb; [|done]. destruct (proj1 (fi_mutter f Hi b) Hb) as (s & Hs & Ho). unfold on_buffer.
  destruct (has_pixels datas); cbn [negb]; [|cbn [requeue_now]; apply (inv_same f); [|done]; apply back_same; [done|]; by split].
  cbn [event slots]. rewrite Hs.
  assert (forall slot, frames_inv (let '(f', d) := copy_in slot datas now allocates ok (event (FDelivered b) f) in if requeue_now d then event (FBack b) f' else f')) as Hcopy.
  { intros slot. pose proof (copy_in_same slot datas now allocates ok (event (FDelivered b) f)) as [Hc Hd]. destruct (copy_in _ _ _ _ _ _) as [h d]. cbn [fst snd] in *.
    destruct d; try done; cbn [requeue_now]; (apply (inv_same f); [by apply back_same | done]). }
  destruct (_ && _); [|apply Hcopy]. cbn [requeue_now]. by apply inv_deliver.
Qed.
Lemma step_frames_inv i f : frames_inv f -> frames_inv (f_step i f).
Proof.
  intros Hi. destruct i as [b datas answers|b|b datas now allocates ok|nf|ms now ok|a now ok| |now ok| | | |i|i|i]; [| |by apply inv_buffer|..]; cbn [f_step].
  - destruct (lent b f) eqn:Hl; [done | by apply inv_add_buffer].
  - destruct (lent b f) eqn:Hl; [by apply inv_remove_buffer | done].
  - by apply inv_format.
  - unfold keepalive. destruct (_ <? _); [done | by apply inv_count, inv_repeat].
  - unfold attach. case_bool_decide; [done|]. assert (same_core f {| f with appsrc_ := a |}) as Hs by by split. destruct a; [|by apply (inv_same f)]. cbn [suspended_].
    destruct (suspended_ f); [by apply (inv_same f)|]. apply inv_count, inv_repeat, (inv_same f); [|done]. etrans; [exact Hs | apply give_caps_same].
  - apply (inv_same f); [by split | done].
  - unfold resume. destruct (suspended_ f); [|done]. cbn [negb appsrc_]. assert (same_core f {| f with suspended_ := false |}) as Hs by by split.
    destruct (appsrc_ f) eqn:Ea; [|by apply (inv_same f)]. apply inv_count, inv_repeat, (inv_same f); [|done]. etrans; [exact Hs | apply give_caps_same].
  - destruct Hi as [H1 H2 H3 H4 H5 H6 H7 H8 H9 H10 H11 H12]. unfold drain_swap.
    assert (forall b d, posted {| f with draining := draining f ++ released f; released := []; woken := false |} b d <-> posted f b d) as Hp by (intros b d; unfold posted; cbn; rewrite in_app_iff; tauto).
    split; try done.
    + intros b d Hd. by apply (H8 b), Hp.
    + intros b s Hs Ho. destruct (H9 b s Hs Ho) as [?|?]; [by left | right; by apply Hp].
  - by apply inv_drain.
  - apply (inv_same f); [by split | done].
  - destruct (flying f !! i) as [g|] eqn:E; [|done]. assert (In g (flying f)) as Hg by (apply list_elem_of_In; by eapply list_elem_of_lookup_2).
    destruct (fi_flying f Hi g Hg) as [Hc Hm]. apply inv_fly; try done. right. left. by exists g.
  - destruct (flying f !! i) as [g|] eqn:E; [by apply inv_release | done].
  - destruct (leaving f !! i) as [d|] eqn:E; [by apply inv_leave | done].
Qed.
Lemma run_frames_inv ins : frames_inv (f_run ins).
Proof.
  unfold f_run. induction ins as [|i ins IH] using rev_ind; [|rewrite foldl_app; by apply step_frames_inv].
  split; try done; [apply sm_wf_nil | unfold live; naive_solver | unfold posted; naive_solver | naive_solver | naive_solver].
Qed.
(** C10: Mutter never records into a frame that is still read. However deliveries, renegotiations, new
    pipelines, keepalives and the releases of GStreamer's threads interleave: while mutter has a buffer, no
    frame that is alive anywhere (in the appsrc, in a tier, in an encoder, or a copy of one) is over the
    buffer's memory, and neither is the frame the reader would repeat. *)
Theorem never_recorded_while_read ins b s : let f := f_run ins in
  mutter_has b f = true -> sm_find b (slots f) = Some s ->
  (forall g m, In g (flying f) -> In m (sl_planes s) -> ~ In m (gb_mem g)) /\ held_ f <> Some b.
Proof.
  intros f Hm Hs. pose proof (run_frames_inv ins) as Hi. fold f in Hi. apply (fi_mutter f Hi) in Hm as (s' & Hs' & Ho). assert (s' = s) as -> by congruence. split.
  - intros g m Hg Hin Hmem. destruct (fi_flying f Hi g Hg) as [[(x & y & Hx & Hp & _ & Hyo)|Hr] _]; [|by apply (Hr b s m)].
    rewrite <- Hp in Hmem. assert (b = x) as <- by (by apply (fi_disjoint f Hi b x s y m)). congruence.
  - intros Hh. destruct (fi_held f Hi b Hh) as (d & y & _ & Hy & _ & Hyo). congruence.
Qed.
(** Every buffer goes back to mutter. A buffer the reader has, and has not given back, is the newest
    frame, or under a frame still alive, or its release is posted and the PipeWire thread is woken
    for it (or about to give it back); so once GStreamer holds nothing and the posted releases are
    drained, mutter has every buffer but the newest frame's. *)
Theorem buffers_go_back ins : let f := f_run ins in
  (forall b s, sm_find b (slots f) = Some s -> mutter_has b f = false -> live f (sl_delivery s) \/ posted f b (sl_delivery s))
  /\ (released f <> [] -> woken f = true)
  /\ (flying f = [] -> leaving f = [] -> let f' := f_step IDrainGive (f_step IDrainSwap f) in
      forall b, lent b f' = true -> mutter_has b f' = true \/ held_token_ f' <> None /\ exists s, sm_find b (slots f') = Some s /\ held_token_ f' = Some (sl_delivery s)).
Proof.
  intros f. pose proof (run_frames_inv ins) as Hi. fold f in Hi.
  assert (forall f b s, frames_inv f -> sm_find b (slots f) = Some s -> mutter_has b f = false -> sl_out s = true) as Hout.
  { intros h b s Hh Hs Hm. destruct (sl_out s) eqn:E; [done|]. rewrite (proj2 (fi_mutter h Hh b)) in Hm; by eauto. }
  split_and!; [intros b s Hs Hm; apply (fi_out f Hi b s Hs), (Hout f b s); done | by apply fi_woken|].
  intros Hf Hl f' b Hlent. pose proof (step_frames_inv IDrainGive _ (step_frames_inv IDrainSwap f Hi)) as Hi'. fold f' in Hi'.
  assert (forall l h, flying h = [] -> leaving h = [] -> released h = [] -> draining h = [] ->
    flying (foldl drain_one h l) = [] /\ leaving (foldl drain_one h l) = [] /\ released (foldl drain_one h l) = [] /\ draining (foldl drain_one h l) = []) as Hd.
  { induction l as [|r l IH]; [done|]. intros h ????. cbn. apply IH; unfold drain_one; (destruct (sm_find _ _); [destruct (_ && _)|]; done). }
  destruct (Hd (draining (drain_swap f)) {| (drain_swap f) with draining := [] |}) as (Ef & El & Er & Ed); [done | done | done | done|].
  change (foldl drain_one _ _) with f' in Ef, El, Er, Ed. apply (fi_lent f' Hi') in Hlent as (s & Hs). destruct (mutter_has b f') eqn:Hm; [by left | right].
  destruct (fi_out f' Hi' b s Hs (Hout f' b s Hi' Hs Hm)) as [Hlive|[Hp|Hp]]; [|by rewrite Er in Hp | by rewrite Ed in Hp].
  destruct Hlive as [Ht|[(g & Hg & _)|Hg]]; [|by rewrite Ef in Hg | by rewrite El in Hg]. rewrite Ht. by eauto.
Qed.

(** ** Copies *)
Lemma copy_rows_some mem at_ stride row n : 0 <= at_ -> 0 <= stride -> 0 <= row -> (n <> O -> at_ + stride * (Z.of_nat n - 1) + row <= zlen mem) ->
  exists bytes, copy_rows mem at_ stride row n = Some bytes /\ zlen bytes = row * Z.of_nat n
    /\ forall y, (y < n)%nat -> take (Z.to_nat row) (drop (Z.to_nat (row * Z.of_nat y)) bytes) = take (Z.to_nat row) (drop (Z.to_nat (at_ + stride * Z.of_nat y)) mem).
Proof.
  revert at_. induction n as [|n IH]; intros at_ Ha Hs Hr Hfit; cbn [copy_rows]; [exists []; split_and!; [done | rewrite zlen_nil; lia | intros; lia]|].
  specialize (Hfit ltac:(done)). replace (Z.of_nat (S n) - 1) with (Z.of_nat n) in Hfit by lia. assert (0 <= stride * Z.of_nat n) by nia. unfold copy_row. rewrite (proj2 (Z.leb_le 0 at_)), (proj2 (Z.leb_le (at_ + row) (zlen mem))) by lia. cbn [andb].
  destruct (IH (at_ + stride)) as (bytes & -> & Hlen & Hrows); [lia | done | done | intros; nia|].
  set (r := take (Z.to_nat row) (drop (Z.to_nat at_) mem)). assert (zlen r = row) as Er by (unfold r; rewrite zlen_take, zlen_drop; nia).
  exists (r ++ bytes). split_and!; [done | rewrite zlen_app, Hlen, Er; lia|]. intros y Hy. destruct y as [|y].
  - change (Z.of_nat 0) with 0. rewrite !Z.mul_0_r, Z.add_0_r. change (Z.to_nat 0) with 0%nat. rewrite drop_0, take_app_le by (unfold zlen in Er; lia). unfold r. by rewrite take_take, Nat.min_id.
  - rewrite drop_app_ge by (unfold zlen in Er; nia). replace (Z.to_nat (row * Z.of_nat (S y)) - length r)%nat with (Z.to_nat (row * Z.of_nat y)) by (unfold zlen in Er; nia).
    rewrite Hrows by lia. do 2 f_equal. lia.
Qed.
(** The memory a copy reads. *)
Definition base_of (slot : option Slot) (d : Data) : option (list byte) :=
  match d_data d, slot with Some m, _ => Some m | None, Some s => if sl_map s then Some (drop (Z.to_nat (d_mapoffset d)) (d_file d)) else None | None, None => None end.

(** ** A capture *)
Definition screen_data (c : option Chunk) : list Data := [{| d_type := DmaBuf; d_fd := 7; d_mapoffset := 0; d_maxsize := 64; d_data := None; d_file := []; d_chunk := c |}].
Definition full_chunk : option Chunk := Some {| ck_offset := 0; ck_size := 64; ck_stride := 16; ck_corrupted := false |}.
Definition taken_well : list Taking := [{| dup_fails := None; file_size := 64; wraps := true; maps := true |}].
Definition fixed_format : NegotiatedFormat := {| nf_format := BGRx; nf_width := 4; nf_height := 4; nf_dmabuf := true; nf_fixed := true; nf_modifier := 0 |}.
(** Two buffers, a frame of each in the pipeline, the first one released and given back. *)
Definition capture_ins : list FInput := [IFormat fixed_format; IAttach (Some 0%nat) 0 true; IAdd 100 (screen_data None) taken_well; IAdd 200 (screen_data None) taken_well;
  IBuffer 100 (screen_data full_chunk) 1 true true; IBuffer 200 (screen_data full_chunk) 2 true true; ILeave 0; IRelease 0; IDrainSwap; IDrainGive].
Lemma never_recorded_while_read_witness : let f := f_run capture_ins in
  mutter_has 100 f = true /\ mutter_has 200 f = false /\ length (flying f) = 1%nat /\ (forall g m, In g (flying f) -> In m [0%nat] -> ~ In m (gb_mem g)).
Proof.
  intros f. split_and!; [by vm_compute | by vm_compute | by vm_compute|].
  exact (proj1 (never_recorded_while_read capture_ins 100 {| sl_delivery := 1; sl_out := false; sl_planes := [0%nat]; sl_map := false |} ltac:(by vm_compute) ltac:(by vm_compute))).
Defined.
