(* ===== verification/DesktopSound.v ===== *)
(** * DesktopSound: the desktop's sound, the module's side (modules/common/desktop_sound.cpp)

    The track's source is available while a helper reports an output and nothing pauses the
    sound; the speakers are asked for only while the producer's pipeline runs. Everything is on
    the core loop. The state of the appsrc is the environment's, looked at by [check]; the reader
    of the descriptor is PipeWire's. Log lines have no counterpart.

    Then: the speakers are read only while someone listens and the desktop shares them. *)

From Stdlib Require Import ZArith Lia String.
From stdpp Require Import base list strings relations.
From S2P Require Import Prelude Monad StdMap Json HelperLink.

Inductive SEvent := SSend (body : json) | SAvailable (now : bool) | SReader (name : string) | SNoReader.
(** [made]: the source exists; [reader]: it reads the speakers. *)
Record Sound := {
  made : bool; available : bool; reason : string; reader : bool; running : bool;
  present : bool; speakers : string; paused : bool; paused_why : string; wanted : bool; sid : Z; next_sid : Z; sevents : list SEvent
}.
Definition new_sound : Sound := {|
  made := false; available := false; reason := "waiting for the desktop session"; reader := false; running := false;
  present := false; speakers := ""; paused := false; paused_why := ""; wanted := false; sid := 0; next_sid := 1; sevents := [] |}.
#[local] Abbreviation SP := (Prog Sound).
Definition s_put (e : SEvent) : SP unit := modify (fun s => {| s with sevents := sevents s ++ [e] |}).
Definition set_available (now : bool) (why : string) : SP unit :=
  modify (fun s => {| s with reason := why |}) ;;
  do s <- get; if Bool.eqb now (available s) then ret tt else modify (fun s => {| s with available := now |}) ;; s_put (SAvailable now).
Definition update : SP unit :=
  do s <- get;
  if negb (made s) then ret tt
  else if negb (present s) then set_available false "no desktop session"
  else if String.eqb (speakers s) "" then set_available false "the desktop has no output"
  else if paused s then set_available false (paused_why s)
  else set_available true "".
Definition request : SP unit :=
  do s <- get;
  if negb (made s) || negb (wanted s) || negb (available s) then ret tt
  else modify (fun s => {| s with sid := next_sid s; next_sid := next_sid s + 1 |}) ;; s_put (SSend (msg "start-audio" [("id", JInt (next_sid s))])).
Definition drop_reader : SP unit := do s <- get; when (reader s) (modify (fun s => {| s with reader := false |}) ;; s_put SNoReader).
Definition s_drop : SP unit := do s <- get; when (made s) (drop_reader ;; modify (fun s => {| s with sid := 0 |})).
Definition source : SP unit := do s <- get; if made s then ret tt else modify (fun s => {| s with made := true |}) ;; update.
(** The pipeline starts or stops. *)
Definition check (now : bool) : SP unit :=
  do s <- get;
  if Bool.eqb now (running s) then ret tt
  else
    modify (fun s => {| s with running := now |}) ;;
    when (negb now) drop_reader ;;
    modify (fun s => {| s with wanted := now |}) ;;
    if now then request else modify (fun s => {| s with sid := 0 |}).
Definition helper (here : bool) : SP unit :=
  do s <- get;
  if Bool.eqb here (present s) then ret tt
  else
    modify (fun s => {| s with present := here |}) ;;
    when (negb here) (modify (fun s => {| s with speakers := "" |}) ;; s_drop) ;;
    update.
Definition pause (p : bool) (why : string) : SP unit :=
  do s <- get;
  if Bool.eqb p (paused s) then ret tt
  else modify (fun s => {| s with paused := p; paused_why := why |}) ;; when p s_drop ;; update ;; when (negb p) request.
Definition sink_name (body : json) : result string :=
  let* sink := value_json body "sink" JNull in if is_object sink then value_str sink "name" "" else Ok ""%string.
(** [fds]: how many descriptors came; [starts]: whether a reader starts on the one given. *)
Definition s_handle (body : json) (fds : nat) (starts : bool) : SP bool :=
  do type <- lift (value_str body "type" "");
  if String.eqb type "speakers" then
    do name <- lift (sink_name body);
    do s <- get;
    if String.eqb name (speakers s) then ret true
    else modify (fun s => {| s with speakers := name |}) ;; s_drop ;; update ;; request ;; ret true
  else if String.eqb type "audio-started" then
    do id <- lift (value_int body "id" 0);
    do s <- get;
    if negb (id =? sid s) || negb (made s) || Nat.eqb fds 0 then ret true
    else
      do name <- lift (value_str body "name" "");
      modify (fun s => {| s with reader := starts |}) ;; s_put (if starts then SReader name else SNoReader) ;; ret true
  else if String.eqb type "audio-failed" then
    do id <- lift (value_int body "id" 0);
    do s <- get;
    if negb (id =? sid s) then ret true
    else modify (fun s => {| s with sid := 0 |}) ;; do _ <- lift (value_str body "reason" "?"); ret true
  else ret false.

Inductive SInput := SISource | SICheck (now : bool) | SIHelper (here : bool) | SIPause (p : bool) (why : string) | SIMessage (body : json) (fds : nat) (starts : bool).
Definition s_step (i : SInput) : SP unit :=
  match i with
  | SISource => source
  | SICheck now => do s <- get; when (made s) (check now)
  | SIHelper here => helper here
  | SIPause p why => pause p why
  | SIMessage body fds starts => do s <- get; when (present s) (do _ <- s_handle body fds starts; ret tt)
  end.
Definition s_run (ins : list SInput) : Sound := foldl (fun s i => (s_step i s).1) new_sound ins.

(** ** Who hears the speakers *)
(** A request is out, or a reader runs, only for a listener of shared speakers. [sound_pre]: before the
    availability follows. *)
Definition shared (s : Sound) : Prop := wanted s = true /\ present s = true /\ speakers s <> ""%string /\ paused s = false.
Record sound_pre (s : Sound) : Prop := {
  sp_next : 0 < next_sid s;
  sp_made : made s = false -> available s = false /\ reader s = false /\ sid s = 0;
  sp_asked : sid s <> 0 -> shared s;
  sp_reader : reader s = true -> shared s
}.
Record sound_inv (s : Sound) : Prop := {
  si_pre : sound_pre s;
  si_available : made s = true -> available s = present s && negb (String.eqb (speakers s) "") && negb (paused s)
}.
(** An answer names a request. *)
Definition answers (i : SInput) : Prop :=
  match i with SIMessage body _ _ => value_str body "type" "" = Ok "audio-started"%string -> forall id, value_int body "id" 0 = Ok id -> 0 < id | _ => True end.
Lemma update_inv s : sound_pre s -> exists s', update s = (s', Ok tt) /\ sound_inv s'.
Proof.
  intros [H1 H2 H3 H4]. unfold update, set_available, s_put, bind, get, modify, ret.
  destruct (made s) eqn:Em; cbn [negb]; [|exists s; split; [done|]; split; [by split; auto | congruence]].
  destruct (present s) eqn:Ep, (String.eqb (speakers s) "") eqn:Es, (paused s) eqn:Ea, (available s) eqn:Ev; cbn; rewrite ?Ev; cbn;
    (eexists; split; [reflexivity|]); (split; [split|]; unfold shared in *; cbn; rewrite ?Em, ?Ep, ?Es, ?Ea, ?Ev in *; cbn; done).
Qed.
Lemma request_inv s : sound_inv s -> exists s', request s = (s', Ok tt) /\ sound_inv s'.
Proof.
  intros Hi. pose proof Hi as [[H1 H2 H3 H4] H5]. unfold request, s_put, bind, get, modify, ret. destruct (made s) eqn:Em; cbn [negb orb]; [|by exists s].
  destruct (wanted s) eqn:Ew; cbn [negb orb]; [|by exists s]. destruct (available s) eqn:Ev; cbn [negb orb]; [|by exists s].
  eexists. split; [reflexivity|]. specialize (H5 eq_refl). symmetry in H5. apply andb_prop in H5 as [[Hp Hs]%andb_prop Ha].
  assert (shared s) as Hsh by (split_and!; [done | done | by apply String.eqb_neq, negb_true_iff | by apply negb_true_iff]).
  split; [split|]; cbn; [lia | congruence | by intros _ | by intros _|]. intros _. by rewrite Ev, Hp, Hs, Ha.
Qed.
(** After a drop nothing is read and nothing is asked. *)
Lemma drop_quiet s : (made s = false -> available s = false /\ reader s = false /\ sid s = 0) -> exists ev, s_drop s = ({| s with reader := false; sid := 0; sevents := ev |}, Ok tt).
Proof.
  intros H2. unfold s_drop, drop_reader, s_put, bind, get, modify, ret. destruct (made s) eqn:Em; cbn [when].
  - destruct (reader s) eqn:Er; cbn [when]; destruct s; cbn in *; subst; by eexists.
  - destruct (H2 eq_refl) as (? & ? & ?). destruct s; cbn in *; subst. by eexists.
Qed.
Lemma quiet_pre s ev : 0 < next_sid s -> (made s = false -> available s = false /\ reader s = false /\ sid s = 0) -> sound_pre {| s with reader := false; sid := 0; sevents := ev |}.
Proof. intros H1 H2. split; cbn; [done | intros Hm; by destruct (H2 Hm) | done | done]. Qed.
Lemma check_inv now s : sound_inv s -> sound_inv (check now s).1.
Proof.
  intros Hi. pose proof Hi as [[H1 H2 H3 H4] H5]. unfold check. erewrite bind_ok by reflexivity. destruct (Bool.eqb now (running s)); [done|]. erewrite bind_ok by reflexivity. destruct now; cbn [negb when].
  - do 2 erewrite bind_ok by reflexivity. match goal with |- sound_inv (request ?x).1 => destruct (request_inv x) as (s' & -> & ?) end; [|done].
    split; [split|]; cbn; [done | done | intros Hs; by destruct (H3 Hs) as (_ & ?) | intros Hs; by destruct (H4 Hs) as (_ & ?) | done].
  - unfold drop_reader, s_put, bind, get, modify, ret. cbn. destruct (reader s) eqn:Er; cbn; (split; [split|]; cbn; [done | intros Hm; by destruct (H2 Hm) | done | congruence | done]).
Qed.
Lemma helper_inv here s : sound_inv s -> sound_inv (helper here s).1.
Proof.
  intros Hi. pose proof Hi as [[H1 H2 H3 H4] H5]. unfold helper. erewrite bind_ok by reflexivity. destruct (Bool.eqb here (present s)) eqn:E; [done|]. erewrite bind_ok by reflexivity. destruct here; cbn [negb when].
  - erewrite bind_ok by reflexivity. match goal with |- sound_inv (update ?x).1 => destruct (update_inv x) as (s' & -> & ?) end; [|done].
    split; cbn; [done | done | intros Hs; destruct (H3 Hs) as (? & ? & ? & ?); by split_and! | intros Hs; destruct (H4 Hs) as (? & ? & ? & ?); by split_and!].
  - unfold bind at 1. unfold bind at 1. cbn [modify]. match goal with |- context [s_drop ?x] => destruct (drop_quiet x) as [ev Ed]; [exact H2|]; rewrite Ed end.
    match goal with |- sound_inv (update ?x).1 => destruct (update_inv x) as (s' & -> & ?) end; [|done]. split; cbn; [done | intros Hm; by destruct (H2 Hm) | done | done].
Qed.
Lemma pause_inv p why s : sound_inv s -> sound_inv (pause p why s).1.
Proof.
  intros Hi. pose proof Hi as [[H1 H2 H3 H4] H5]. unfold pause. erewrite bind_ok by reflexivity. destruct (Bool.eqb p (paused s)); [done|]. erewrite bind_ok by reflexivity. destruct p; cbn [negb when].
  - match goal with |- sound_inv (bind s_drop _ ?x).1 => destruct (drop_quiet x) as [ev Ed]; [exact H2|]; rewrite (bind_ok _ _ _ _ _ Ed) end.
    match goal with |- sound_inv (bind update _ ?x).1 => destruct (update_inv x) as (s' & Eu & ?); [|by rewrite (bind_ok _ _ _ _ _ Eu)] end. split; cbn; [done | intros Hm; by destruct (H2 Hm) | done | done].
  - erewrite bind_ok by reflexivity. match goal with |- sound_inv (bind update _ ?x).1 => destruct (update_inv x) as (s' & Eu & Hs); [|rewrite (bind_ok _ _ _ _ _ Eu); by destruct (request_inv s' Hs) as (? & -> & ?)] end.
    split; cbn; [done | done | intros Hs; destruct (H3 Hs) as (? & ? & ? & ?); by split_and! | intros Hs; destruct (H4 Hs) as (? & ? & ? & ?); by split_and!].
Qed.
Lemma speakers_inv name s : sound_inv s -> sound_inv ((modify (fun s => {| s with speakers := name |}) ;; s_drop ;; update ;; request ;; ret true) s).1.
Proof.
  intros [[H1 H2 H3 H4] H5]. erewrite bind_ok by reflexivity. match goal with |- sound_inv (bind s_drop _ ?x).1 => destruct (drop_quiet x) as [ev Ed]; [exact H2|]; rewrite (bind_ok _ _ _ _ _ Ed) end.
  match goal with |- sound_inv (bind update _ ?x).1 => destruct (update_inv x) as (s' & Eu & Hs); [|rewrite (bind_ok _ _ _ _ _ Eu)] end.
  - split; cbn; [done | intros Hm; by destruct (H2 Hm) | done | done].
  - destruct (request_inv s' Hs) as (s2 & Er & ?). by rewrite (bind_ok _ _ _ _ _ Er).
Qed.
Lemma handle_inv_sound body fds starts s : answers (SIMessage body fds starts) -> sound_inv s -> sound_inv (s_handle body fds starts s).1.
Proof.
  intros Ha Hi. pose proof Hi as [[H1 H2 H3 H4] H5]. cbn [answers] in Ha. unfold s_handle, lift. unfold bind at 1. destruct (value_str body "type" "") as [type|]; [|done].
  destruct (String.eqb_spec type "speakers").
  { unfold bind at 1. destruct (sink_name body) as [name|]; [|done]. erewrite bind_ok by reflexivity. destruct (String.eqb name (speakers s)); [done | by apply speakers_inv]. }
  destruct (String.eqb_spec type "audio-started") as [->|].
  { unfold bind at 1. destruct (value_int body "id" 0) as [id|] eqn:Eid; [|done]. erewrite bind_ok by reflexivity. destruct (Z.eqb_spec id (sid s)) as [->|]; cbn [negb orb]; [|done].
    destruct (made s) eqn:Em; cbn [negb orb]; [|done]. destruct (Nat.eqb fds 0); [done|]. unfold bind at 1. destruct (value_str body "name" "") as [name|]; [|done].
    specialize (Ha eq_refl (sid s) eq_refl). do 2 erewrite bind_ok by reflexivity. assert (shared s) as Hs by (apply H3; lia).
    split; [split|]; cbn; rewrite ?Em; [done | done | by intros _ | by intros _ | done]. }
  destruct (String.eqb_spec type "audio-failed"); [|done]. unfold bind at 1. destruct (value_int body "id" 0) as [id|]; [|done]. erewrite bind_ok by reflexivity. destruct (id =? sid s); cbn [negb]; [|done].
  erewrite bind_ok by reflexivity. unfold bind. destruct (value_str body "reason" "?"); (split; [split|]; cbn; [done | intros Hm; destruct (H2 Hm) as (? & ? & ?); by split_and! | done | done | done]).
Qed.
Lemma sound_step_inv i s : answers i -> sound_inv s -> sound_inv (s_step i s).1.
Proof.
  intros Ha Hi. destruct i as [|now|here|p why|body fds starts]; cbn [s_step]; [| |by apply helper_inv | by apply pause_inv|].
  - unfold source. erewrite bind_ok by reflexivity. destruct (made s) eqn:Em; [done|]. erewrite bind_ok by reflexivity. pose proof Hi as [[H1 H2 H3 H4] H5].
    match goal with |- sound_inv (update ?x).1 => destruct (update_inv x) as (s' & -> & ?) end; [|done]. by split.
  - erewrite bind_ok by reflexivity. destruct (made s); [by apply check_inv | done].
  - erewrite bind_ok by reflexivity. destruct (present s); [|done]. cbn [when]. unfold bind. pose proof (handle_inv_sound body fds starts s Ha Hi) as H. by destruct (s_handle body fds starts s) as [s1 [b|e]].
Qed.
(** The speakers are read only for a listener, and only while the desktop shares them. In every run in
    which answers name a request, the sound is being read, or asked for, only while a producer's pipeline
    runs, the helper is there and reports an output, and sharing was not stopped on the robot;
    and the track is offered exactly while the last three hold. *)
Theorem sound_only_shared ins : Forall answers ins -> let s := s_run ins in
  (reader s = true \/ sid s <> 0 -> wanted s = true /\ present s = true /\ speakers s <> ""%string /\ paused s = false)
  /\ (made s = true -> available s = present s && negb (String.eqb (speakers s) "") && negb (paused s)).
Proof.
  intros Ha s. assert (sound_inv s) as [[H1 H2 H3 H4] H5]; [|split; [intros [?|?]; [by apply H4 | by apply H3] | done]]. subst s. unfold s_run. induction ins as [|i ins IH] using rev_ind; [split; [by split | done]|].
  apply Forall_app in Ha as [Ha Hi]. rewrite foldl_app. apply sound_step_inv; [by inversion Hi | by apply IH].
Qed.
Definition speakers_msg (name : string) : json := msg "speakers" [("sink", jobj [("name", JStr name)])].
Definition listen_ins : list SInput := [SISource; SIHelper true; SIMessage (speakers_msg "out") 0 true; SICheck true; SIMessage (msg "audio-started" [("id", JUint 1); ("name", JStr "out")]) 1 true].
Lemma sound_only_shared_witness : reader (s_run listen_ins) = true /\ wanted (s_run listen_ins) = true /\ paused (s_run listen_ins) = false.
Proof.
  assert (Forall answers listen_ins) as Ha by (unfold listen_ins; rewrite !Forall_cons; split_and!; try apply Forall_nil_2; cbn; try done; intros _ id [= <-]; by vm_compute).
  assert (reader (s_run listen_ins) = true) as Hr by by vm_compute. destruct (proj1 (sound_only_shared listen_ins Ha) (or_introl Hr)) as (Hw & _ & _ & Hp). by split_and!.
Defined.
(** Without a request the id is 0, and an answer without an id is taken: the speakers are read
    although sharing was stopped. *)
Theorem unasked_answer_taken : let s := s_run [SISource; SIHelper true; SIMessage (speakers_msg "out") 0 true; SIPause true "stopped"; SIMessage (msg "audio-started" []) 1 true] in
  reader s = true /\ paused s = true /\ wanted s = false.
Proof. by vm_compute. Qed.
