(* ===== verification/MutterBackend.v ===== *)
(** * MutterBackend: the desktop backend for GNOME (modules/desktop-mutter/backend.cpp)

    The backend listens for the session helper, asks it for captures, input, the clipboard and the
    speakers, and gives the desktop capability monitors, sources and events. Handlers are computations
    over the backend and the history of what it did: messages to the helper, callbacks to the
    capability, calls of the input sender. A stream reader (PipeWire) is seen by whether it starts
    and by what it reports; the memory file of a clipboard write, [sendmsg] and the descriptors of
    a clipboard read are the environment's, given with the turn. A callback does not call back
    into the backend. Requests of the clipboard carry a number of the caller's. A JSON type error
    is not caught. The cursor's shapes are [CursorArbiter]'s and have no counterpart here. *)

From Stdlib Require Import ZArith Lia Strings.Byte Ascii String.
From stdpp Require Import base list strings pretty relations.
From S2P Require Import Prelude Monad StdMap Json Floats DesktopTables Screens Desktop HelperLink CaptureOffer DesktopSound.

(** ** A monitor's source *)
Record MonitorSource := { identity : string; ms_reader : bool; ms_memory : option bool; ms_reason : string }.
Definition new_monitor_source (identity : string) : MonitorSource :=
  {| identity := identity; ms_reader := false; ms_memory := None; ms_reason := "waiting for the desktop session to hand the stream over" |}.
Definition src_ready (s : MonitorSource) : bool := ms_reader s && match ms_memory s with Some _ => true | None => false end.
Definition unavailable_reason (s : MonitorSource) : string :=
  if negb (ms_reader s) then ms_reason s
  else match ms_memory s with None => "negotiating the stream's format with the display server"%string | Some _ => ""%string end.

Record BMonitor := { mon : Monitor; mon_virtual : bool }.
Record BCapture := {
  bc_id : Z; bc_x : Z; bc_y : Z; bc_width : Z; bc_height : Z; bc_connector : string; bc_cursor : string; bc_source : MonitorSource;
  restarts : Z; memory_restarts : Z; bc_virtual : bool; want_width : Z; want_height : Z; memory : MemoryRequest
}.
Definition no_request : MemoryRequest := {| imports := []; encoder := ""; virtual_monitor := false; force_shm := false; fallback := "" |}.
Definition new_capture (identity : string) : BCapture := {|
  bc_id := 0; bc_x := 0; bc_y := 0; bc_width := 0; bc_height := 0; bc_connector := ""; bc_cursor := ""; bc_source := new_monitor_source identity;
  restarts := 0; memory_restarts := 0; bc_virtual := false; want_width := 0; want_height := 0; memory := no_request |}.
(** [cr_watches]: sources attached for the request's descriptor; its destructor removes the last. *)
Record ClipRead := { cr_max : Z; cr_bytes : list byte; cr_watches : nat; cr_token : nat }.

Inductive EisCall := EAttach | EDetach | EAbsolute (x y : dbl) | EButton (code : Z) (down : bool) | EScroll (dx dy : dbl) | EKey (code : Z) (down : bool) | EReleaseAll.
Inductive BEvent :=
| BSend (body : json) (content : option (list byte))
| BMonitors (ms : list BMonitor) | BLost (m : Z) (why : CaptureLost) | BSession (here : bool) | BAvailable (m : Z) (now : bool)
| BReader (m node w h : Z) | BClipboard (types : list string)
| BReadAsked (k : nat) | BReadDone (k : nat) (r : option (list byte)) (why : string) | BWriteAsked (k : nat) | BWriteDone (k : nat) (ok : bool) (why : string)
| BEis (c : EisCall).
Record Backend := {
  b_force_shm : bool; conn : bool; b_welcomed : bool; monitors_ : list BMonitor; ids_by_wire : list (string * Z); next_monitor : Z;
  b_captures : list (Z * BCapture); next_id : Z; eis : bool; input_requested : bool; embedded : list Z; virtual_by_connector : list (string * Z);
  b_robot_types : list string; reads : list (Z * ClipRead); writes : list (Z * nat); next_clip_id : Z; sound : Sound; dangling : nat; log : list BEvent
}.
Definition new_backend (force_shm : bool) : Backend := {|
  b_force_shm := force_shm; conn := false; b_welcomed := false; monitors_ := []; ids_by_wire := []; next_monitor := 1; b_captures := []; next_id := 1; eis := false; input_requested := false;
  embedded := []; virtual_by_connector := []; b_robot_types := []; reads := []; writes := []; next_clip_id := 1; sound := new_sound; dangling := 0; log := [] |}.

#[local] Abbreviation B := (Prog Backend).
Definition upd (f : Backend -> Backend) : B unit := modify f.
Definition put (e : BEvent) : B unit := upd (fun b => {| b with log := log b ++ [e] |}).
Definition b_send (body : json) : B unit := do b <- get; when (conn b) (put (BSend body None)).
Definition find_monitor (id : Z) (b : Backend) : option BMonitor := List.find (fun m => m_id (mon m) =? id) (monitors_ b).
Definition set_capture (m : Z) (c : BCapture) : B unit := upd (fun b => {| b with b_captures := sm_set m c (b_captures b) |}).
(** What the sound sends goes to the helper. *)
Definition with_sound {A} (p : Prog Sound A) : B A :=
  fun b => let '(s, r) := p (sound b) in
           let out := drop (length (sevents (sound b))) (sevents s) in
           let '(b', _) := for_each out (fun e => match e with SSend body => b_send body | _ => ret tt end) {| b with sound := s |} in (b', r).

(** ** Sources *)
Definition change_source (m : Z) (f : MonitorSource -> MonitorSource) : B unit :=
  do b <- get;
  match sm_find m (b_captures b) with
  | None => ret tt
  | Some c =>
    let s := f (bc_source c) in
    set_capture m {| c with bc_source := s |} ;;
    when (negb (Bool.eqb (src_ready (bc_source c)) (src_ready s))) (put (BAvailable m (src_ready s)))
  end.
Definition ready (m : Z) : B unit := change_source m (fun s => {| s with ms_reader := true; ms_reason := "" |}).
Definition lost (m : Z) (why : string) : B unit := change_source m (fun s => {| s with ms_reader := false; ms_reason := why |}).
Definition set_memory (m : Z) (dmabuf : bool) : B unit := change_source m (fun s => {| s with ms_memory := Some dmabuf |}).

(** ** Captures *)
Definition send_start (c : BCapture) : B unit :=
  do b <- get; when (b_welcomed b) (b_send (msg "start-capture" [("id", JInt (bc_id c)); ("connector", JStr (bc_connector c)); ("cursor", JStr (bc_cursor c))])).
Definition send_stop (c : BCapture) : B unit := b_send (msg "stop-capture" [("id", JInt (bc_id c))]).
Definition begin_capture (m : Z) (options : CaptureOptions) (mo : BMonitor) (old : option BCapture) : B bool :=
  do b <- get;
  let c := default (new_capture ("desktop:" +:+ wire_id (mon mo))) old in
  let rq := {| imports := map (fun p => {| drm_fourcc := p.1; modifier := p.2 |}) (opt_dmabuf options); encoder := opt_encoder options;
               virtual_monitor := mon_virtual mo; force_shm := b_force_shm b; fallback := "" |} in
  let cursor := if opt_cursor_in_video options || existsb (Z.eqb m) (embedded b) then "embedded"%string else "metadata"%string in
  let c := {| c with bc_id := next_id b; bc_connector := m_connector (mon mo); memory := rq; bc_cursor := cursor |} in
  upd (fun b => {| b with next_id := next_id b + 1 |}) ;; set_capture m c ;; send_start c ;; ret true.
Definition start_capture (m : Z) (options : CaptureOptions) : B bool :=
  do b <- get;
  let old := sm_find m (b_captures b) in
  if match old with Some c => bc_virtual c | None => false end then ret true
  else match find_monitor m b with None => ret false | Some mo => begin_capture m options mo old end.
Definition erase_capture (m : Z) : B unit := upd (fun b => {| b with b_captures := sm_erase m (b_captures b) |}).
Definition stop_capture (m : Z) : B unit :=
  do b <- get;
  match sm_find m (b_captures b) with
  | None => ret tt
  | Some c =>
    if bc_virtual c then ret tt
    else send_stop c ;; lost m "capture stopped" ;; erase_capture m ;; upd (fun b => {| b with embedded := List.filter (fun x => negb (x =? m)) (embedded b) |})
  end.
Definition create_virtual_monitor (w h : Z) : B Z :=
  do b <- get;
  if negb (conn b) || negb (b_welcomed b) || (w <=? 0) || (h <=? 0) then ret INVALID_MONITOR
  else
    let id := next_monitor b in
    let c := {| (new_capture "desktop:virtual") with bc_id := next_id b; bc_cursor := "metadata"; bc_virtual := true; memory := {| no_request with virtual_monitor := true |}; want_width := w; want_height := h |} in
    upd (fun b => {| b with next_monitor := next_monitor b + 1; next_id := next_id b + 1 |}) ;; set_capture id c ;;
    b_send (msg "add-virtual" [("id", JInt (bc_id c)); ("width", JInt w); ("height", JInt h); ("cursor", JStr (bc_cursor c))]) ;; ret id.
Definition destroy_virtual_monitor (m : Z) : B unit :=
  do b <- get;
  match sm_find m (b_captures b) with
  | None => ret tt
  | Some c =>
    if negb (bc_virtual c) then ret tt
    else
      send_stop c ;; lost m "the virtual monitor was removed" ;;
      when (negb (String.eqb (bc_connector c) "")) (upd (fun b => {| b with virtual_by_connector := sm_erase (bc_connector c) (virtual_by_connector b) |})) ;;
      erase_capture m
  end.
(** Another ScreenCast session for the same monitor. *)
Definition ask_again (m : Z) (c : BCapture) : B unit :=
  send_stop c ;;
  do b <- get; upd (fun b => {| b with next_id := next_id b + 1 |}) ;; set_capture m {| c with bc_id := next_id b |} ;; send_start {| c with bc_id := next_id b |}.
Definition restart_capture (m : Z) : B unit :=
  do b <- get;
  match sm_find m (b_captures b) with
  | None => ret tt
  | Some c =>
    if bc_virtual c || (3 <=? restarts c) then ret tt
    else
      let fell_back := negb (String.eqb (bc_cursor c) "embedded") in
      upd (fun b => {| b with embedded := if existsb (Z.eqb m) (embedded b) then embedded b else m :: embedded b |}) ;;
      ask_again m {| c with restarts := restarts c + 1; bc_cursor := "embedded" |} ;;
      when fell_back (
        upd (fun b => {| b with monitors_ := map (fun mo => if m_id (mon mo) =? m then {| mo with mon := {| (mon mo) with cursor_in_video := true |} |} else mo) (monitors_ b) |}) ;;
        do b <- get; put (BMonitors (monitors_ b)))
  end.
(** [false]: the reader adopts the new memory. *)
Definition restart_for_memory (m : Z) : B bool :=
  do b <- get;
  match sm_find m (b_captures b) with
  | None => ret false
  | Some c =>
    if negb (restart_for_memory_change (bc_virtual c) (memory_restarts c)) then ret false
    else ask_again m {| c with memory_restarts := memory_restarts c + 1 |} ;; ret true
  end.
Definition fall_back_to_shm (m : Z) (why : string) : B unit :=
  do b <- get;
  match sm_find m (b_captures b) with
  | None => ret tt
  | Some c => if negb (String.eqb (fallback (memory c)) "") then ret tt else ask_again m {| c with memory := {| (memory c) with fallback := why |} |}
  end.

(** ** Input *)
Definition pointer_motion (m : Z) (nx ny : dbl) : B unit :=
  do b <- get;
  let direct := match sm_find m (b_captures b) with Some c => if 0 <? bc_width c then Some c else None | None => None end in
  match direct, find_monitor m b with
  | Some c, _ => put (BEis (EAbsolute (of_Z (bc_x c) + nx * of_Z (bc_width c)) (of_Z (bc_y c) + ny * of_Z (bc_height c))))%dbl
  | None, Some mo => let mo := mon mo in
                     put (BEis (EAbsolute (of_Z (m_x mo) + nx * of_Z (m_width mo) / m_scale mo) (of_Z (m_y mo) + ny * of_Z (m_height mo) / m_scale mo)))%dbl
  | None, None => ret tt
  end.
(** BTN_LEFT, BTN_MIDDLE, BTN_RIGHT, BTN_SIDE, BTN_EXTRA *)
Definition button_code (b : MouseButton) : Z := match b with BLeft => 0x110 | BMiddle => 0x112 | BRight => 0x111 | BBack => 0x113 | BForward => 0x114 end.
Definition request_input : B unit :=
  do b <- get; if eis b || input_requested b then ret tt else upd (fun b => {| b with input_requested := true |}) ;; b_send (msg "open-input" []).

(** ** The clipboard *)
Definition finish_read (id : Z) (r : option (list byte)) (why : string) : B unit :=
  do b <- get;
  match sm_find id (reads b) with
  | None => ret tt
  | Some c => upd (fun b => {| b with reads := sm_erase id (reads b); dangling := dangling b + pred (cr_watches c) |}) ;; put (BReadDone (cr_token c) r why)
  end.
Definition read (k : nat) (type : string) (max : Z) : B unit :=
  put (BReadAsked k) ;;
  do b <- get;
  let mime := compositor_type_for type (b_robot_types b) in
  if negb (conn b) || negb (b_welcomed b) then put (BReadDone k None "no desktop session")
  else if String.eqb mime "" then put (BReadDone k None ("the robot's clipboard has no " +:+ type))
  else
    let id := next_clip_id b in
    upd (fun b => {| b with next_clip_id := id + 1; reads := sm_set id {| cr_max := max; cr_bytes := []; cr_watches := 0; cr_token := k |} (reads b) |}) ;;
    b_send (msg "clipboard-read" [("id", JInt id); ("mime", JStr mime)]).
(** [memfd]: why the memory file could not be made; [sends]: why the datagram could not be sent. *)
Definition write (k : nat) (type : string) (bytes : list byte) (memfd sends : option string) : B unit :=
  put (BWriteAsked k) ;;
  do b <- get;
  if max_bytes type =? 0 then put (BWriteDone k false "only text/plain and image/png are supported")
  else if negb (conn b) || negb (b_welcomed b) then put (BWriteDone k false "no desktop session")
  else match memfd with
       | Some e => put (BWriteDone k false e)
       | None =>
         let id := next_clip_id b in
         upd (fun b => {| b with next_clip_id := id + 1; writes := sm_set id k (writes b) |}) ;;
         match sends with
         | None => put (BSend (msg "clipboard-set" [("id", JInt id); ("types", JArr [JStr type])]) (Some bytes))
         | Some e => upd (fun b => {| b with writes := sm_erase id (writes b) |}) ;; put (BWriteDone k false ("to the helper: " +:+ e))
         end
       end.
(** What a read of the descriptor gives. *)
Inductive Got := GBytes (bytes : list byte) | GAgain | GIntr | GFailed (err : string) | GEnd.
Fixpoint drain (id : Z) (script : list Got) : B unit :=
  do b <- get;
  match sm_find id (reads b), script with
  | None, _ | _, [] | _, GAgain :: _ => ret tt
  | Some _, GIntr :: script' => drain id script'
  | Some _, GFailed err :: _ => finish_read id None ("reading the clipboard: " +:+ err)
  | Some c, GEnd :: _ => finish_read id (Some (cr_bytes c)) ""
  | Some c, GBytes bytes :: script' =>
    let c := {| c with cr_bytes := cr_bytes c ++ bytes |} in
    upd (fun b => {| b with reads := sm_set id c (reads b) |}) ;;
    if cr_max c <? zlen (cr_bytes c) then finish_read id None "too-large" else drain id script'
  end.

(** ** Monitors *)
Definition elements (j : json) : result (list json) := match j with JArr l => Ok l | JNull | JObj [] => Ok [] | _ => Throw type_error end.
Definition key_of (j : json) : result MonitorKey :=
  match jfind "identity" j with
  | None => Throw type_error
  | Some i =>
    let* v := value_str i "vendor" "" in let* p := value_str i "product" "" in let* s := value_str i "serial" "" in
    let* c := value_str j "connector" "" in let* k := value_str j "kind" "" in
    Ok {| vendor := v; model := p; serial := s; k_connector := c; k_virtual := String.eqb k "virtual" |}
  end.
Fixpoint keys_of (l : list json) : result (list MonitorKey) := match l with [] => Ok [] | j :: l' => let* k := key_of j in let* ks := keys_of l' in Ok (k :: ks) end.
(** The handle of a monitor: ours, known, or new. *)
Definition handle_of (key : MonitorKey) (wire : string) : B Z :=
  do b <- get;
  match (if k_virtual key then sm_find (k_connector key) (virtual_by_connector b) else None), sm_find wire (ids_by_wire b) with
  | Some v, _ => upd (fun b => {| b with ids_by_wire := sm_set wire v (ids_by_wire b) |}) ;; ret v
  | None, Some i => ret i
  | None, None => upd (fun b => {| b with next_monitor := next_monitor b + 1; ids_by_wire := sm_set wire (next_monitor b) (ids_by_wire b) |}) ;; ret (next_monitor b)
  end.
Definition place_monitor (j : json) (key : MonitorKey) (wire : string) : B BMonitor :=
  do id <- handle_of key wire;
  do name <- lift (value_str j "name" ""); do primary <- lift (value_bool j "primary" false);
  do x <- lift (value_int j "x" 0); do y <- lift (value_int j "y" 0); do w <- lift (value_int j "width" 0); do h <- lift (value_int j "height" 0);
  do scale <- lift (value_double j "scale" (of_Z 1));
  do b <- get;
  ret {| mon := {| m_id := id; wire_id := wire; m_connector := k_connector key; m_label := name; m_primary := primary; m_x := x; m_y := y; m_width := w; m_height := h;
                   m_scale := scale; cursor_in_video := existsb (Z.eqb id) (embedded b) |}; mon_virtual := k_virtual key |}.
Fixpoint place_monitors (l : list (json * (MonitorKey * string))) : B (list BMonitor) :=
  match l with [] => ret [] | (j, (k, w)) :: l' => do m <- place_monitor j k w; do ms <- place_monitors l'; ret (m :: ms) end.
Definition set_monitors (list_ : json) : B unit :=
  do l <- lift (elements list_);
  do keys <- lift (keys_of l);
  do next <- place_monitors (combine l (combine keys (wire_ids keys)));
  upd (fun b => {| b with monitors_ := next |}) ;;
  do b <- get;
  for_each (b_captures b) (fun kv => when (match find_monitor kv.1 b with Some _ => negb (src_ready (bc_source kv.2)) | None => false end) (send_start kv.2)) ;;
  put (BMonitors next).

(** ** The helper *)
Definition drop_reads : B unit := do b <- get; for_each (map fst (reads b)) (fun id => finish_read id None "the desktop session ended").
Definition drop_writes : B unit := do b <- get; upd (fun b => {| b with writes := [] |}) ;; for_each (writes b) (fun kv => put (BWriteDone kv.2 false "the desktop session ended")).
Definition drop_helper : B unit :=
  do b <- get;
  if negb (conn b) then ret tt
  else
    let was_running := b_welcomed b in
    upd (fun b => {| b with conn := false; b_welcomed := false; eis := false; b_robot_types := [] |}) ;; put (BEis EDetach) ;;
    drop_reads ;; drop_writes ;;
    upd (fun b => {| b with input_requested := false |}) ;;
    do b <- get;
    for_each (map fst (b_captures b)) (fun m => lost m "the desktop session ended" ;; put (BLost m SessionEnded)) ;;
    upd (fun b => {| b with b_captures := List.filter (fun kv => negb (bc_virtual kv.2)) (b_captures b); virtual_by_connector := [] |}) ;;
    with_sound (helper false) ;;
    upd (fun b => {| b with monitors_ := [] |}) ;; put (BMonitors []) ;;
    when was_running (put (BSession false)).
Definition value_u32 (j : json) (k : string) : result Z := let* z := value_int j k 0 in Ok (u32 z).
Definition captures_with (id : Z) (b : Backend) : list Z := map fst (List.filter (fun kv => bc_id kv.2 =? id) (b_captures b)).
Definition capture_started (body : json) (fds : nat) (starts : bool) : B unit :=
  do id <- lift (value_int body "id" 0);
  do b <- get;
  when (negb (Nat.eqb fds 0)) (for_each (captures_with id b) (fun m =>
    do x <- lift (value_int body "x" 0); do y <- lift (value_int body "y" 0); do w <- lift (value_int body "width" 0); do h <- lift (value_int body "height" 0);
    do b <- get;
    match sm_find m (b_captures b) with
    | None => ret tt
    | Some c =>
      set_capture m {| c with bc_x := x; bc_y := y; bc_width := w; bc_height := h |} ;;
      do node <- lift (value_u32 body "node");
      put (BReader m node (want_width c) (want_height c)) ;;
      if negb starts then lost m "the stream reader could not link to the display server's stream"
      else ready m ;; request_input ;; with_sound (pause false "")
    end)).
Definition hello (body : json) : B unit :=
  do protocol <- lift (value_str body "protocol" "");
  if negb (String.eqb protocol PROTOCOL) then
    b_send (msg "refuse" [("reason", JStr ("this agent speaks " +:+ PROTOCOL))]) ;; do _ <- lift (value_str body "protocol" "nothing"); drop_helper
  else
    upd (fun b => {| b with b_welcomed := true |}) ;; b_send (msg "welcome" [("protocol", JStr PROTOCOL)]) ;;
    with_sound (pause false "") ;; with_sound (helper true) ;;
    do _ <- lift (value_str (at_key body "session") "compositor" "?");
    put (BSession true).
Definition clipboard_data (body : json) (fds : nat) : B unit :=
  do id <- lift (value_int body "id" 0);
  do b <- get;
  match sm_find id (reads b) with
  | None => ret tt
  | Some c => when (negb (Nat.eqb fds 0)) (upd (fun b => {| b with reads := sm_set id {| c with cr_watches := S (cr_watches c) |} (reads b) |}))
  end.
Definition clipboard_answer (type : string) (body : json) : B unit :=
  do id <- lift (value_int body "id" 0);
  do b <- get;
  match sm_find id (writes b) with
  | Some k =>
    upd (fun b => {| b with writes := sm_erase id (writes b) |}) ;;
    do why <- lift (value_str body "reason" ""); put (BWriteDone k (String.eqb type "clipboard-set-done") why)
  | None =>
    if String.eqb type "clipboard-set-done" then ret tt
    else do why <- lift (value_str body "reason" "the helper could not read the clipboard"); finish_read id None why
  end.
Definition handle (body : json) (fds : nat) (starts : bool) : B unit :=
  do type <- lift (value_str body "type" "");
  do b <- get;
  if String.eqb type "hello" then hello body
  else if negb (b_welcomed b) then ret tt
  else if String.eqb type "monitors" then do l <- lift (value_json body "monitors" (JArr [])); set_monitors l
  else
    do sounds <- with_sound (s_handle body fds starts);
    if sounds then ret tt
    else if String.eqb type "capture-started" then capture_started body fds starts
    else if String.eqb type "input-opened" then
      upd (fun b => {| b with input_requested := false |}) ;; when (negb (Nat.eqb fds 0)) (upd (fun b => {| b with eis := true |}) ;; put (BEis EAttach))
    else if String.eqb type "input-failed" then upd (fun b => {| b with input_requested := false |}) ;; do _ <- lift (value_str body "reason" "?"); ret tt
    else if String.eqb type "clipboard-changed" then
      do types <- lift (value_json body "types" (JArr []));
      let names := match types with JArr l => omap (fun t => match t with JStr s => Some s | _ => None end) l | _ => [] end in
      upd (fun b => {| b with b_robot_types := names |}) ;; put (BClipboard (fjarr_types names))
    else if String.eqb type "clipboard-data" then clipboard_data body fds
    else if String.eqb type "clipboard-set-done" || String.eqb type "clipboard-failed" then clipboard_answer type body
    else if String.eqb type "virtual-connector" then
      do id <- lift (value_int body "id" 0);
      for_each (List.filter (fun m => match sm_find m (b_captures b) with Some c => bc_virtual c | None => false end) (captures_with id b)) (fun m =>
        do name <- lift (value_str body "connector" "");
        upd (fun b => {| b with b_captures := match sm_find m (b_captures b) with Some c => sm_set m {| c with bc_connector := name |} (b_captures b) | None => b_captures b end;
                                virtual_by_connector := sm_set name m (virtual_by_connector b) |}))
    else if String.eqb type "capture-failed" then do _ <- lift (value_str body "reason" "?"); ret tt
    else if String.eqb type "sharing-stopped" then
      with_sound (pause true "sharing stopped on the robot") ;;
      for_each (map fst (List.filter (fun kv => negb (bc_virtual kv.2)) (b_captures b))) (fun m => lost m "sharing stopped on the robot" ;; put (BLost m SharingStopped))
    else if String.eqb type "capture-lost" then
      do id <- lift (value_int body "id" 0);
      for_each (captures_with id b) (fun m =>
        lost m "the stream stopped" ;;
        do b <- get;
        do gone <- (if match sm_find m (b_captures b) with Some c => bc_virtual c | None => false end then ret true
                    else do why <- lift (value_str body "reason" ""); ret (String.eqb why "monitor-gone"));
        put (BLost m (if gone then MonitorGone else SourceStopped)))
    else ret tt.
Definition on_readable (r : Received nat) (starts : bool) : B unit :=
  match r with RMessage body fds => handle body (length fds) starts | RWouldBlock | RInvalid _ => ret tt | RClosed | RError _ => drop_helper end.
(** A connection of the desktop account, when there is none; the others are refused ([HelperLink]). *)
Definition accept : B unit := upd (fun b => if conn b then b else {| b with conn := true |}).

(** ** What reaches the backend: the helper's socket, the capability's calls, its own sources and timers,
    the readers' callbacks. A request's watch that outlived the request ([dangling]) finds it freed. *)
Inductive BInput :=
| BIAccept | BIReceive (r : Received nat) (starts : bool)
| BIRead (k : nat) (type : string) (max : Z) | BIWrite (k : nat) (type : string) (bytes : list byte) (memfd sends : option string)
| BIDrain (id : Z) (script : list Got) | BITimeout (id : Z) | BIDangling
| BIStart (m : Z) (options : CaptureOptions) | BIStop (m : Z) | BICreate (w h : Z) | BIDestroy (m : Z)
| BIMotion (m : Z) (nx ny : dbl) | BIButton (b : MouseButton) (down : bool) | BIWheel (dx dy : dbl) | BIKey (code : Z) (down : bool) | BIReleaseAll | BIEisGone
| BIMemory (m : Z) (dmabuf : bool) | BIStalled (m : Z) | BIMemoryChanged (m : Z) | BIFallback (m : Z) (why : string) | BIFailed (m : Z) (why : string)
| BISound (source : bool) (now : bool).
Definition use_after_free : exn := StdException "a freed clipboard request".
Definition b_step (i : BInput) : B unit :=
  match i with
  | BIAccept => accept
  | BIReceive r starts => do b <- get; when (conn b) (on_readable r starts)
  | BIRead k type max => read k type max
  | BIWrite k type bytes memfd sends => write k type bytes memfd sends
  | BIDrain id script => drain id script
  | BITimeout id => finish_read id None "the robot's clipboard did not answer within 5 s"
  | BIDangling => do b <- get; if Nat.eqb (dangling b) 0 then ret tt else throw use_after_free
  | BIStart m options => do _ <- start_capture m options; ret tt
  | BIStop m => stop_capture m
  | BICreate w h => do _ <- create_virtual_monitor w h; ret tt
  | BIDestroy m => destroy_virtual_monitor m
  | BIMotion m nx ny => pointer_motion m nx ny
  | BIButton b down => put (BEis (EButton (button_code b) down))
  | BIWheel dx dy => put (BEis (EScroll dx dy))
  | BIKey code down => put (BEis (EKey code down))
  | BIReleaseAll => put (BEis EReleaseAll)
  | BIEisGone => upd (fun b => {| b with eis := false; input_requested := false |})
  | BIMemory m dmabuf => set_memory m dmabuf
  | BIStalled m => restart_capture m
  | BIMemoryChanged m => do _ <- restart_for_memory m; ret tt
  | BIFallback m why => fall_back_to_shm m why
  | BIFailed m why => lost m why
  | BISound source_ now => with_sound (if source_ then source else do s <- get; when (made s) (check now))
  end.
(** An exception ends the agent, and the run. *)
Definition b_run (force_shm : bool) (ins : list BInput) : Backend * result unit := for_each ins b_step (new_backend force_shm).
