(* ===== verification/MutterBackendProofs.v ===== *)
(** * MutterBackendProofs: what the backend owes

    A clipboard request is answered once: each one asked was answered, or waits. Without a helper
    nothing waits, no stream is read and no monitor is shown. *)

From Stdlib Require Import ZArith Lia Strings.Byte Ascii String.
From stdpp Require Import base list strings pretty relations.
From S2P Require Import Prelude Monad StdMap Json Floats DesktopTables Screens Desktop HelperLink CaptureOffer DesktopSound MutterBackend.

(** ** Clipboard requests *)
Definition tally (f : BEvent -> bool) (l : list BEvent) : Z := foldr (fun e n => (if f e then 1 else 0) + n) 0 l.
Definition read_asked (k : nat) (e : BEvent) : bool := match e with BReadAsked k' => Nat.eqb k' k | _ => false end.
Definition read_done (k : nat) (e : BEvent) : bool := match e with BReadDone k' _ _ => Nat.eqb k' k | _ => false end.
Definition write_asked (k : nat) (e : BEvent) : bool := match e with BWriteAsked k' => Nat.eqb k' k | _ => false end.
Definition write_done (k : nat) (e : BEvent) : bool := match e with BWriteDone k' _ _ => Nat.eqb k' k | _ => false end.
Definition is_token (k k' : nat) : Z := if Nat.eqb k' k then 1 else 0.
Definition reads_waiting (k : nat) (b : Backend) : Z := sm_sum (fun c => is_token k (cr_token c)) (reads b).
Definition writes_waiting (k : nat) (b : Backend) : Z := sm_sum (is_token k) (writes b).
Definition read_owed (k : nat) (b : Backend) : Z := tally (read_asked k) (log b) - tally (read_done k) (log b) - reads_waiting k b.
Definition write_owed (k : nat) (b : Backend) : Z := tally (write_asked k) (log b) - tally (write_done k) (log b) - writes_waiting k b.
Definition clip_wf (b : Backend) : Prop :=
  sm_wf (reads b) /\ sm_wf (writes b) /\ forall id, next_clip_id b <= id -> sm_find id (reads b) = None /\ sm_find id (writes b) = None.
(** From well-formed tables, to well-formed tables, and no request lost or answered twice. *)
Definition settles (b b' : Backend) : Prop := clip_wf b -> clip_wf b' /\ forall k, read_owed k b' = read_owed k b /\ write_owed k b' = write_owed k b.
#[export] Instance settles_preorder : PreOrder settles.
Proof.
  split; [by intros b H|]. intros a b c H1 H2 Hwf. destruct (H1 Hwf) as [Hb E1], (H2 Hb) as [Hc E2]. split; [done|]. intros k. destruct (E1 k), (E2 k). by split; etrans.
Qed.
Lemma tally_app f l l' : tally f (l ++ l') = tally f l + tally f l'.
Proof. unfold tally. induction l as [|e l IH]; cbn; [done|]. rewrite IH. lia. Qed.
Lemma tally_one f e : tally f [e] = if f e then 1 else 0.
Proof. cbn. lia. Qed.
#[local] Arguments tally : simpl never.
#[local] Arguments sm_sum : simpl never.
Ltac owed := unfold read_owed, write_owed, reads_waiting, writes_waiting; cbn; rewrite ?tally_app, ?tally_one; cbn.

Definition clip_event (e : BEvent) : bool := match e with BReadAsked _ | BReadDone _ _ _ | BWriteAsked _ | BWriteDone _ _ _ => true | _ => false end.
Lemma put_settles e : clip_event e = false -> respects settles (put e).
Proof. intros He b Hwf. split; [done|]. intros k. unfold put, upd, modify. owed. destruct e; try done; cbn; split; lia. Qed.
Lemma update_settles f : (forall b, reads (f b) = reads b /\ writes (f b) = writes b /\ next_clip_id (f b) = next_clip_id b /\ log (f b) = log b) -> respects settles (upd f).
Proof.
  intros Hf b Hwf. destruct (Hf b) as (Er & Ew & En & El). unfold clip_wf, read_owed, write_owed, reads_waiting, writes_waiting in *. cbn. by rewrite Er, Ew, En, El.
Qed.
(** A request is made and answered, or made and waits. *)
Lemma read_made k type max : respects settles (read k type max).
Proof.
  intros b (Hr & Hw & Hn). destruct (Hn (next_clip_id b) ltac:(lia)) as [Hr0 Hw0]. unfold read, put, b_send, put. unfold bind, upd, modify, get. cbn.
  assert (forall r why, settles b {| b with log := (log b ++ [BReadAsked k]) ++ [BReadDone k r why] |}) as Himm.
  { intros r why _. split; [done|]. intros k'. owed. split; lia. }
  destruct (negb (conn b) || negb (b_welcomed b)) eqn:Ec; [by apply Himm|]. destruct (String.eqb _ ""); [by apply Himm|].
  assert (conn b = true) as Hc by (destruct (conn b); [done | discriminate]). cbn. rewrite Hc. cbn. split.
  - split_and!; cbn; [by apply sm_wf_set | done|]. intros id Hid. destruct (Hn id ltac:(lia)). rewrite sm_find_set_ne by lia. by split.
  - intros k'. owed. rewrite sm_sum_set_new by done. cbn. unfold is_token. split; lia.
Qed.
Lemma write_made k type bytes memfd sends : respects settles (write k type bytes memfd sends).
Proof.
  intros b (Hr & Hw & Hn). destruct (Hn (next_clip_id b) ltac:(lia)) as [Hr0 Hw0]. unfold write, put. unfold bind, upd, modify, get. cbn.
  assert (forall ok why, settles b {| b with log := (log b ++ [BWriteAsked k]) ++ [BWriteDone k ok why] |}) as Himm.
  { intros ok why _. split; [done|]. intros k'. owed. split; lia. }
  destruct (max_bytes type =? 0); [by apply Himm|]. destruct (negb (conn b) || negb (b_welcomed b)); [by apply Himm|]. destruct memfd as [e|]; [by apply Himm|].
  destruct sends as [e|]; cbn.
  - split.
    + split_and!; cbn; [done | by apply sm_wf_erase, sm_wf_set|]. intros id Hid. destruct (Hn id ltac:(lia)) as [? Hf]. split; [done|]. rewrite sm_find_erase_ne, sm_find_set_ne by lia. done.
    + intros k'. owed. rewrite sm_erase_set, sm_erase_absent by done. split; lia.
  - split.
    + split_and!; cbn; [done | by apply sm_wf_set|]. intros id Hid. destruct (Hn id ltac:(lia)). rewrite sm_find_set_ne by lia. by split.
    + intros k'. owed. rewrite sm_sum_set_new by done. unfold is_token. split; lia.
Qed.
Lemma read_finished id r why : respects settles (finish_read id r why).
Proof.
  intros b (Hr & Hw & Hn). unfold finish_read, put, upd, modify, bind, get. destruct (sm_find id (reads b)) as [c|] eqn:Ec; [|done]. cbn. split.
  - split_and!; cbn; [by apply sm_wf_erase | done|]. intros i Hi. destruct (Hn i Hi). split; [|done]. rewrite sm_find_erase_ne; [done|]. congruence.
  - intros k. owed. rewrite (sm_sum_erase _ id c) by done. unfold is_token. split; lia.
Qed.
Lemma write_finished id k ok why b : sm_find id (writes b) = Some k ->
  settles b {| b with writes := sm_erase id (writes b); log := log b ++ [BWriteDone k ok why] |}.
Proof.
  intros Ef (Hr & Hw & Hn). split.
  - split_and!; cbn; [done | by apply sm_wf_erase|]. intros i Hi. destruct (Hn i Hi). split; [done|]. rewrite sm_find_erase_ne; [done|]. congruence.
  - intros k'. owed. rewrite (sm_sum_erase _ id k) by done. unfold is_token. split; lia.
Qed.
(** Bytes or a descriptor for a request that waits. *)
Lemma read_changed id c c' b : sm_find id (reads b) = Some c -> cr_token c' = cr_token c -> settles b {| b with reads := sm_set id c' (reads b) |}.
Proof.
  intros Ef Et (Hr & Hw & Hn). split.
  - split_and!; cbn; [by apply sm_wf_set | done|]. intros i Hi. destruct (Hn i Hi). split; [|done]. rewrite sm_find_set_ne; [done|]. congruence.
  - intros k. owed. rewrite (sm_sum_set_old _ id c' c) by done. rewrite Et. split; lia.
Qed.
Lemma drain_settles script : forall id, respects settles (drain id script).
Proof.
  induction script as [|g script IH]; intros id b; cbn [drain]; unfold bind at 1, get.
  { by destruct (sm_find id (reads b)). }
  destruct (sm_find id (reads b)) as [c|] eqn:Ec; [|done]. destruct g as [bytes| | |err|]; [|done | apply IH | apply read_finished | apply read_finished].
  erewrite bind_ok by reflexivity. etrans; [apply (read_changed id c); [exact Ec|]; shelve|]. destruct (_ <? _); [apply read_finished | apply IH].
  Unshelve. done.
Qed.

Create HintDb backend.
Ltac settle := repeat first [ solve [auto with backend nocore] | respects_step | by apply put_settles | by apply update_settles ].
Lemma send_settles body : respects settles (b_send body).
Proof. unfold b_send. settle. Qed.
(** What the sound does reaches the rest of the backend as messages only. *)
Lemma respects_sound (R : relation Backend) `{!PreOrder R} {A} (p : Prog Sound A) :
  (forall s, respects R (upd (fun b => {| b with sound := s |}))) -> (forall body, respects R (b_send body)) -> respects R (with_sound p).
Proof.
  intros Hs Hb b. unfold with_sound. destruct (p (sound b)) as [s r]. set (out := drop _ _). assert (respects R (for_each out (fun e => match e with SSend body => b_send body | _ => ret tt end))) as Hr.
  { apply respects_for_each; [apply _|]. intros [] _; try (apply respects_ret; apply _). apply Hb. }
  specialize (Hr {| b with sound := s |}). destruct (for_each _ _ _) as [b' r']. etrans; [exact (Hs s b) | done].
Qed.
Lemma sound_settles {A} (p : Prog Sound A) : respects settles (with_sound p).
Proof. apply respects_sound; [apply _ | intros; by apply update_settles | apply send_settles]. Qed.
Lemma set_capture_settles m c : respects settles (set_capture m c).
Proof. by apply update_settles. Qed.
#[export] Hint Resolve send_settles sound_settles set_capture_settles read_made write_made read_finished drain_settles : backend.
Lemma change_settles m f : respects settles (change_source m f).
Proof. unfold change_source. settle. Qed.
Lemma lost_settles m why : respects settles (lost m why).
Proof. apply change_settles. Qed.
Lemma memory_settles m d : respects settles (set_memory m d).
Proof. apply change_settles. Qed.
Lemma ready_settles m : respects settles (ready m).
Proof. apply change_settles. Qed.
Lemma send_start_settles c : respects settles (send_start c).
Proof. unfold send_start. settle. Qed.
Lemma send_stop_settles c : respects settles (send_stop c).
Proof. unfold send_stop. settle. Qed.
#[export] Hint Resolve lost_settles memory_settles ready_settles send_start_settles send_stop_settles : backend.
Lemma again_settles m c : respects settles (ask_again m c).
Proof. unfold ask_again. settle. Qed.
#[export] Hint Resolve again_settles : backend.
Lemma start_settles m o : respects settles (start_capture m o).
Proof. unfold start_capture, begin_capture. settle. Qed.
Lemma stop_capture_settles m : respects settles (stop_capture m).
Proof. unfold stop_capture, erase_capture. settle. Qed.
Lemma create_settles w h : respects settles (create_virtual_monitor w h).
Proof. unfold create_virtual_monitor. settle. Qed.
Lemma destroy_settles m : respects settles (destroy_virtual_monitor m).
Proof. unfold destroy_virtual_monitor, erase_capture. settle. Qed.
Lemma restart_settles m : respects settles (restart_capture m).
Proof. unfold restart_capture. settle. Qed.
Lemma memory_restart_settles m : respects settles (restart_for_memory m).
Proof. unfold restart_for_memory. settle. Qed.
Lemma fallback_settles m why : respects settles (fall_back_to_shm m why).
Proof. unfold fall_back_to_shm. settle. Qed.
Lemma motion_settles m nx ny : respects settles (pointer_motion m nx ny).
Proof. unfold pointer_motion. settle. Qed.
#[export] Hint Resolve start_settles stop_capture_settles create_settles destroy_settles restart_settles memory_restart_settles fallback_settles motion_settles : backend.
Lemma place_settles l : respects settles (place_monitors l).
Proof. induction l as [|[j [k w]] l IH]; cbn [place_monitors]; unfold place_monitor, handle_of; settle. Qed.
Lemma monitors_settles j : respects settles (set_monitors j).
Proof. pose proof place_settles. unfold set_monitors. settle. Qed.
Lemma started_settles body fds starts : respects settles (capture_started body fds starts).
Proof. unfold capture_started, request_input. settle. Qed.
#[export] Hint Resolve monitors_settles started_settles : backend.
(** The writes that wait are taken out, and then answered. *)
Lemma answers_settle l why b : let done_ := for_each l (fun kv : Z * nat => put (BWriteDone kv.2 false why)) in
  exists out, done_ b = ({| b with log := log b ++ out |}, Ok tt) /\ forall k, tally (read_asked k) out = 0 /\ tally (read_done k) out = 0 /\ tally (write_asked k) out = 0 /\ tally (write_done k) out = sm_sum (is_token k) l.
Proof.
  cbn zeta. revert b. induction l as [|[id t] l IH]; intros b; cbn [for_each].
  - exists []. split; [|done]. destruct b. cbn. by rewrite app_nil_r.
  - destruct (IH {| b with log := log b ++ [BWriteDone t false why] |}) as (out & Eo & Ht). exists (BWriteDone t false why :: out). split.
    + erewrite bind_ok by reflexivity. cbn [snd]. rewrite Eo. cbn. by rewrite <- app_assoc.
    + intros k. destruct (Ht k) as (H1 & H2 & H3 & H4). change (BWriteDone t false why :: out) with ([BWriteDone t false why] ++ out). rewrite !tally_app, !tally_one. cbn. unfold sm_sum in *. cbn. unfold is_token at 1. split_and!; lia.
Qed.
Lemma writes_dropped : respects settles drop_writes.
Proof.
  intros b (Hr & Hw & Hn). unfold drop_writes. do 2 erewrite bind_ok by reflexivity. destruct (answers_settle (writes b) "the desktop session ended" {| b with writes := [] |}) as (out & -> & Ht). cbn. split.
  - split_and!; cbn; [done | constructor|]. intros id Hid. split; [by apply Hn | done].
  - intros k. destruct (Ht k) as (H1 & H2 & H3 & H4). owed. change (sm_sum (is_token k) []) with 0. rewrite H1, H2, H3, H4. split; lia.
Qed.
#[export] Hint Resolve writes_dropped : backend.
Lemma drop_settles : respects settles drop_helper.
Proof. unfold drop_helper, drop_reads. settle. Qed.
#[export] Hint Resolve drop_settles : backend.
Lemma hello_settles body : respects settles (hello body).
Proof. unfold hello. settle. Qed.
Lemma answer_settles type body : respects_ok settles (clipboard_answer type body).
Proof.
  unfold clipboard_answer. apply respects_ok_bind; [apply _ | apply ok_of_respects, respects_lift; apply _|]. intros id b b' a. unfold bind at 1. cbn [get]. destruct (sm_find id (writes b)) as [k|] eqn:Ek.
  - erewrite bind_ok by reflexivity. unfold bind, lift. destruct (value_str body "reason" "") as [why|]; [|done]. intros [= <- _]. by apply write_finished.
  - apply (ok_of_respects settles). settle.
Qed.
Lemma data_settles body fds : respects settles (clipboard_data body fds).
Proof.
  intros b. unfold clipboard_data, bind, lift, get. destruct (value_int body "id" 0) as [id|]; [|done]. destruct (sm_find id (reads b)) as [c|] eqn:Ec; [|done]. destruct (Nat.eqb fds 0); [done|]. by apply (read_changed id c).
Qed.
#[export] Hint Resolve hello_settles data_settles : backend.
Lemma respects_ok_if {A} (c : bool) (m1 m2 : Prog Backend A) : respects_ok settles m1 -> respects_ok settles m2 -> respects_ok settles (if c then m1 else m2).
Proof. by destruct c. Qed.
Lemma handle_settles body fds starts : respects_ok settles (handle body fds starts).
Proof.
  unfold handle. repeat first [ apply answer_settles | apply respects_ok_if | solve [apply ok_of_respects; settle] | apply respects_ok_bind; [apply _| |intros ?] ].
Qed.
Lemma step_settles i : respects_ok settles (b_step i).
Proof.
  destruct i; cbn [b_step]; try solve [apply ok_of_respects; settle].
  - apply ok_of_respects, update_settles. intros b. by destruct (conn b).
  - apply respects_ok_bind; [apply _ | apply ok_of_respects, respects_get; apply _|]. intros b. unfold when. apply respects_ok_if; [|apply ok_of_respects, respects_ret; apply _].
    destruct r; cbn [on_readable]; [apply handle_settles | | | |]; apply ok_of_respects; settle.
Qed.
(** Each clipboard request is answered once. In every run of the backend, for each caller's number, the
    reads asked of the robot's clipboard are those answered and those that wait, and so are the writes: no
    callback is lost or called twice, whether the helper answers, refuses, times out, sends more than
    the limit, or leaves. *)
Theorem clipboard_answered force_shm ins b : b_run force_shm ins = (b, Ok tt) -> forall k,
  tally (read_asked k) (log b) = tally (read_done k) (log b) + reads_waiting k b
  /\ tally (write_asked k) (log b) = tally (write_done k) (log b) + writes_waiting k b.
Proof.
  intros Hr k. assert (settles (new_backend force_shm) b) as Hs by exact (respects_ok_for_each _ ins b_step step_settles _ _ _ Hr).
  destruct Hs as [_ Hs]; [repeat split; constructor|]. destruct (Hs k) as [E1 E2]. change (read_owed k (new_backend force_shm)) with 0 in E1. change (write_owed k (new_backend force_shm)) with 0 in E2. unfold read_owed, write_owed in *. split; lia.
Qed.
Definition hello_msg : json := msg "hello" [("protocol", JStr PROTOCOL); ("session", jobj [("compositor", JStr "mutter")])].
Definition received (body : json) (fds : list nat) : BInput := BIReceive (RMessage body fds) true.
(** A paste out of the robot, a copy into it, and the helper leaving with another read out. *)
Definition clip_ins : list BInput := [
  BIAccept; received hello_msg []; received (msg "clipboard-changed" [("types", JArr [JStr "text/plain;charset=utf-8"])]) [];
  BIRead 1 "text/plain" 100; received (msg "clipboard-data" [("id", JUint 1)]) [7%nat]; BIDrain 1 [GBytes [x61]; GEnd];
  BIWrite 2 "text/plain" [x62] None None; received (msg "clipboard-set-done" [("id", JUint 2)]) []; BIRead 1 "text/plain" 100].
Definition clip_end : Backend := Eval vm_compute in (b_run false clip_ins).1.
Lemma clipboard_answered_witness : b_run false clip_ins = (clip_end, Ok tt) /\ In (BReadDone 1 (Some [x61]) "") (log clip_end) /\ In (BWriteDone 2 true "") (log clip_end) /\
  tally (read_asked 1) (log clip_end) = tally (read_done 1) (log clip_end) + reads_waiting 1 clip_end /\ reads_waiting 1 clip_end = 1.
Proof.
  assert (b_run false clip_ins = (clip_end, Ok tt)) as Hr by (vm_compute; reflexivity).
  split_and!; [exact Hr | cbn; by auto 20 | cbn; by auto 20 | exact (proj1 (clipboard_answered false clip_ins clip_end Hr 1%nat)) | reflexivity].
Defined.

(** ** Without a helper *)
Definition reading (m : Z) (b : Backend) : bool := match sm_find m (b_captures b) with Some c => ms_reader (bc_source c) | None => false end.
Definition virt (m : Z) (b : Backend) : bool := match sm_find m (b_captures b) with Some c => bc_virtual c | None => false end.
Record less (b b' : Backend) : Prop := {
  l_conn : conn b' = conn b; l_welcomed : b_welcomed b' = b_welcomed b; l_wf : sm_wf (b_captures b');
  l_reads : forall id, sm_find id (reads b) = None -> sm_find id (reads b') = None; l_writes : writes b = [] -> writes b' = []; l_monitors : monitors_ b = [] -> monitors_ b' = [];
  l_reading : forall m, reading m b = false -> reading m b' = false; l_virtual : forall m, virt m b = false -> virt m b' = false
}.
(** Nothing new waits, no stream is opened, no virtual monitor is made. *)
Definition winds (b b' : Backend) : Prop := sm_wf (b_captures b) -> less b b'.
#[export] Instance winds_preorder : PreOrder winds.
Proof.
  split; [by intros b ?|]. intros a b c H1 H2 Hwf. destruct (H1 Hwf) as [A1 A2 A3 A4 A5 A6 A7 A8]. destruct (H2 A3) as [B1 B2 B3 B4 B5 B6 B7 B8].
  split; [congruence | congruence | done | | | | |]; by auto.
Qed.
Record quiet_change (f : Backend -> Backend) : Prop := {
  q_change : forall b, conn (f b) = conn b /\ b_welcomed (f b) = b_welcomed b /\ b_captures (f b) = b_captures b /\ reads (f b) = reads b /\ writes (f b) = writes b /\ (monitors_ b = [] -> monitors_ (f b) = []) }.
Lemma upd_winds f : quiet_change f -> respects winds (upd f).
Proof. intros [Hf] b Hwf. destruct (Hf b) as (E1 & E2 & E3 & E4 & E5 & E6). split; cbn; unfold reading, virt; rewrite ?E3, ?E4, ?E5; auto. Qed.
Lemma put_winds e : respects winds (put e).
Proof. apply upd_winds. by split. Qed.
Lemma send_winds body : respects winds (b_send body).
Proof. unfold b_send. repeat first [ respects_step | apply put_winds ]. Qed.
Lemma sound_winds {A} (p : Prog Sound A) : respects winds (with_sound p).
Proof. apply respects_sound; [apply _ | intros; by apply upd_winds; split | apply send_winds]. Qed.
Lemma capture_winds m c b : (ms_reader (bc_source c) = true -> reading m b = true) -> (bc_virtual c = true -> virt m b = true) -> winds b {| b with b_captures := sm_set m c (b_captures b) |}.
Proof.
  intros Hr Hv Hwf. split; cbn; try done; [by apply sm_wf_set | |]; intros m' Hm; unfold reading, virt in *; cbn; (destruct (decide (m' = m)) as [->|]; [rewrite sm_find_set_eq | by rewrite sm_find_set_ne]).
  - destruct (ms_reader _); [by rewrite Hr in Hm | done].
  - destruct (bc_virtual _); [by rewrite Hv in Hm | done].
Qed.
Lemma reads_winds id c b : sm_find id (reads b) <> None -> winds b {| b with reads := sm_set id c (reads b) |}.
Proof. intros Hf Hwf. split; cbn; try done. intros i Hi. by rewrite sm_find_set_ne by congruence. Qed.
Lemma erase_winds m : respects winds (erase_capture m).
Proof.
  intros b Hwf. split; cbn; try done; [by apply sm_wf_erase | |]; intros m' Hm; unfold reading, virt in *; cbn; (destruct (decide (m' = m)) as [->|]; [by rewrite sm_find_erase_eq | by rewrite sm_find_erase_ne]).
Qed.
Lemma finish_winds id r why : respects winds (finish_read id r why).
Proof.
  intros b. unfold finish_read. unfold bind at 1. cbn [get]. destruct (sm_find id (reads b)) as [c|]; [|done]. erewrite bind_ok by reflexivity. etrans; [|apply put_winds]. intros Hwf. split; cbn; try done.
  intros i Hi. destruct (decide (i = id)) as [->|]; [apply sm_find_erase_eq | by rewrite sm_find_erase_ne].
Qed.
(** A source changes, and no reader comes. *)
Lemma change_winds m f : (forall s, ms_reader (f s) = true -> ms_reader s = true) -> respects winds (change_source m f).
Proof.
  intros Hf b. unfold change_source. unfold bind at 1. cbn [get]. destruct (sm_find m (b_captures b)) as [c|] eqn:Ec; [|done]. unfold set_capture. erewrite bind_ok by reflexivity. etrans.
  - apply (capture_winds m {| c with bc_source := f (bc_source c) |}); unfold reading, virt; rewrite Ec; [apply Hf | done].
  - apply (respects_when winds), put_winds.
Qed.
Lemma lost_winds m why : respects winds (lost m why).
Proof. by apply change_winds. Qed.
Lemma memory_winds m d : respects winds (set_memory m d).
Proof. by apply change_winds. Qed.
Create HintDb winds.
#[export] Hint Resolve put_winds send_winds sound_winds erase_winds finish_winds lost_winds memory_winds : winds.
Ltac wind := repeat first [ solve [auto with winds nocore] | respects_step | solve [apply upd_winds; by split] ].
Lemma send_logs body b : exists l, b_send body b = ({| b with log := l |}, Ok tt).
Proof. unfold b_send, bind, get, put, upd, modify. destruct b as [? [] ? ? ? ? ? ? ? ? ? ? ? ? ? ? ? ? l]; cbn; [eexists; reflexivity|]. by exists l. Qed.
Lemma start_logs c : respects winds (send_start c).
Proof. unfold send_start. wind. Qed.
Lemma again_winds m c b : (ms_reader (bc_source c) = true -> reading m b = true) -> (bc_virtual c = true -> virt m b = true) -> winds b (ask_again m c b).1.
Proof.
  intros Hr Hv. unfold ask_again, send_stop. destruct (send_logs (msg "stop-capture" [("id", JInt (bc_id c))]) b) as [l El]. rewrite (bind_ok _ _ _ _ _ El). do 2 erewrite bind_ok by reflexivity. unfold set_capture. erewrite bind_ok by reflexivity. etrans; [|apply start_logs]. cbn.
  set (b1 := {| b with next_id := next_id b + 1; log := l |}). etrans; [apply (upd_winds (fun b => {| b with next_id := next_id b + 1; log := l |})); by split|].
  by apply (capture_winds m _ b1).
Qed.
Lemma restart_winds m : respects winds (restart_capture m).
Proof.
  intros b. unfold restart_capture. unfold bind at 1. cbn [get]. destruct (sm_find m (b_captures b)) as [c|] eqn:Ec; [|done]. destruct (_ || _); [done|]. erewrite bind_ok by reflexivity.
  set (e := if existsb _ _ then _ else _). etrans; [apply (upd_winds (fun b => {| b with embedded := e |})); by split|]. cbn. unfold bind at 1. match goal with |- winds ?x _ => set (b1 := x) end.
  match goal with |- context [ask_again m ?y b1] => pose proof (again_winds m y b1) as Ha; destruct (ask_again m y b1) as [b2 [[]|e2]] end; cbn in Ha.
  - etrans; [apply Ha; unfold reading, virt; cbn; by rewrite Ec|]. match goal with |- winds b2 (?p b2).1 => enough (respects winds p) as Hp by apply Hp end. wind. apply upd_winds. split. intros b0. split_and!; try done. cbn. by intros ->.
  - apply Ha; unfold reading, virt; cbn; by rewrite Ec.
Qed.
Lemma memory_restart_winds m : respects winds (restart_for_memory m).
Proof.
  intros b. unfold restart_for_memory. unfold bind at 1. cbn [get]. destruct (sm_find m (b_captures b)) as [c|] eqn:Ec; [|done]. destruct (negb _); [done|]. unfold bind at 1.
  match goal with |- context [ask_again m ?y b] => pose proof (again_winds m y b) as Ha; destruct (ask_again m y b) as [b2 [[]|e2]] end; apply Ha; unfold reading, virt; cbn; by rewrite Ec.
Qed.
Lemma fallback_winds m why : respects winds (fall_back_to_shm m why).
Proof.
  intros b. unfold fall_back_to_shm. unfold bind at 1. cbn [get]. destruct (sm_find m (b_captures b)) as [c|] eqn:Ec; [|done]. destruct (negb _); [done|]. apply again_winds; unfold reading, virt; cbn; by rewrite Ec.
Qed.
Lemma start_winds m o : respects winds (start_capture m o).
Proof.
  intros b. unfold start_capture. erewrite bind_ok by reflexivity. cbn zeta. destruct (match sm_find m (b_captures b) with Some c => bc_virtual c | None => false end) eqn:Hold; [done|].
  destruct (find_monitor m b) as [mo|]; [|done]. unfold begin_capture. do 2 erewrite bind_ok by reflexivity. unfold set_capture. erewrite bind_ok by reflexivity.
  etrans; [apply (upd_winds (fun b => {| b with next_id := next_id b + 1 |})); by split|]. match goal with |- context [send_start ?c] => set (c' := c); etrans; [apply (capture_winds m c')|] end.
  - unfold reading. subst c'. cbn. by destruct (sm_find m (b_captures b)).
  - subst c'. cbn. destruct (sm_find m (b_captures b)); cbn; [by rewrite Hold | done].
  - cbn. unfold bind. match goal with |- winds _ (match send_start ?c ?x with _ => _ end).1 => pose proof (start_logs c x) as Hs; by destruct (send_start c x) as [b2 [[]|]] end.
Qed.
#[export] Hint Resolve start_logs restart_winds memory_restart_winds fallback_winds start_winds : winds.
Lemma drain_winds script : forall id, respects winds (drain id script).
Proof.
  induction script as [|g script IH]; intros id b; cbn [drain]; unfold bind at 1, get; [by destruct (sm_find id (reads b))|].
  destruct (sm_find id (reads b)) as [c|] eqn:Ec; [|done]. destruct g; [|done | apply IH | apply finish_winds | apply finish_winds].
  erewrite bind_ok by reflexivity. etrans; [apply reads_winds; by rewrite Ec|]. destruct (_ <? _); [apply finish_winds | apply IH].
Qed.
Lemma stop_winds m : respects winds (stop_capture m).
Proof. unfold stop_capture, send_stop. wind. Qed.
Lemma destroy_winds m : respects winds (destroy_virtual_monitor m).
Proof. unfold destroy_virtual_monitor, send_stop. wind. Qed.
Lemma motion_winds m nx ny : respects winds (pointer_motion m nx ny).
Proof. unfold pointer_motion. wind. Qed.
#[export] Hint Resolve drain_winds stop_winds destroy_winds motion_winds : winds.

(** A handler of the helper's messages leaves the connection alone, until it drops it. *)
Definition stays (b b' : Backend) : Prop := conn b' = conn b /\ (sm_wf (b_captures b) -> sm_wf (b_captures b')).
#[export] Instance stays_preorder : PreOrder stays.
Proof. unfold stays. split; [by intros b | intros a b c [] []; split; [congruence | auto]]. Qed.
Lemma upd_stays f : (forall b, conn (f b) = conn b /\ b_captures (f b) = b_captures b) -> respects stays (upd f).
Proof. intros Hf b. destruct (Hf b) as [E1 E2]. split; cbn; [done | by rewrite E2]. Qed.
Lemma put_stays e : respects stays (put e).
Proof. by apply upd_stays. Qed.
Lemma set_stays m c : respects stays (set_capture m c).
Proof. intros b. split; [done | apply sm_wf_set]. Qed.
Lemma send_stays body : respects stays (b_send body).
Proof. unfold b_send. repeat first [ respects_step | apply put_stays ]. Qed.
Lemma sound_stays {A} (p : Prog Sound A) : respects stays (with_sound p).
Proof. apply respects_sound; [apply _ | intros; by apply upd_stays | apply send_stays]. Qed.
Lemma name_stays name m : respects stays (upd (fun b => {| b with
  b_captures := match sm_find m (b_captures b) with Some c => sm_set m {| c with bc_connector := name |} (b_captures b) | None => b_captures b end;
  virtual_by_connector := sm_set name m (virtual_by_connector b) |})).
Proof. intros b. split; [done|]. cbn. destruct (sm_find m (b_captures b)); [apply sm_wf_set | done]. Qed.
Create HintDb stays.
#[export] Hint Resolve put_stays set_stays send_stays sound_stays name_stays : stays.
Ltac stay := unfold lost, ready, change_source; repeat first [ solve [auto with stays nocore] | respects_step | by apply upd_stays ].
Lemma place_stays l : respects stays (place_monitors l).
Proof. induction l as [|[j [k w]] l IH]; cbn [place_monitors]; unfold place_monitor, handle_of; stay. Qed.
Lemma monitors_stay j : respects stays (set_monitors j).
Proof. pose proof place_stays. unfold set_monitors, send_start. stay. Qed.
Lemma started_stays body fds starts : respects stays (capture_started body fds starts).
Proof. unfold capture_started, request_input. stay. Qed.
Lemma data_stays body fds : respects stays (clipboard_data body fds).
Proof. unfold clipboard_data. stay. Qed.
Lemma answer_stays type body : respects stays (clipboard_answer type body).
Proof. unfold clipboard_answer, finish_read. stay. Qed.
#[export] Hint Resolve monitors_stay started_stays data_stays answer_stays : stays.

(** [ends m]: run with a helper, [m] leaves one, or leaves nothing behind. *)
Record idle (b : Backend) : Prop := {
  i_welcomed : b_welcomed b = false; i_reads : reads b = []; i_writes : writes b = []; i_monitors : monitors_ b = [];
  i_captures : forall m, reading m b = false /\ virt m b = false }.
Definition backend_inv (b : Backend) : Prop := sm_wf (b_captures b) /\ (conn b = false -> idle b).
Definition ends {A} (m : Prog Backend A) : Prop := forall b, conn b = true -> sm_wf (b_captures b) -> backend_inv (m b).1.
Lemma ends_stays {A} (m : Prog Backend A) : respects stays m -> ends m.
Proof. intros Hm b Hc Hwf. destruct (Hm b) as [E H]. split; [by apply H|]. congruence. Qed.
Lemma ends_bind {A C} (m : Prog Backend A) (f : A -> Prog Backend C) : respects stays m -> (forall a, ends (f a)) -> ends (bind m f).
Proof.
  intros Hm Hf b Hc Hwf. unfold bind. pose proof (Hm b) as [E H]. destruct (m b) as [b1 [a|e]]; cbn in *; [apply Hf; [congruence | auto] | split; [by apply H|]; cbn; congruence].
Qed.
Lemma ends_if {A} (c : bool) (m1 m2 : Prog Backend A) : ends m1 -> ends m2 -> ends (if c then m1 else m2).
Proof. by destruct c. Qed.

Lemma finish_normal id r why : normal (finish_read id r why).
Proof. unfold finish_read, put, upd. repeat normal_step. Qed.
Lemma lost_normal m why : normal (lost m why).
Proof. unfold lost, change_source, set_capture, put, upd. repeat normal_step. Qed.
(** Run on the elements of a list, and all of them done with. *)
Lemma loop_winds {X} (l : list X) (f : X -> Prog Backend unit) b : (forall x, respects winds (f x)) -> (forall x, normal (f x)) -> exists b', for_each l f b = (b', Ok tt) /\ winds b b' /\
  forall x, In x l -> exists w1 w2, winds b w1 /\ f x w1 = (w2, Ok tt) /\ winds w2 b'.
Proof.
  intros Hw Hn. destruct (normal_for_each l f Hn b) as (b' & [] & E). exists b'. split; [done|]. split; [|by apply (for_each_visits winds l f)].
  pose proof (respects_for_each winds l f (fun x _ => Hw x) b) as H. by rewrite E in H.
Qed.
Lemma reads_gone b : sm_wf (b_captures b) -> exists b', drop_reads b = (b', Ok tt) /\ winds b b' /\ reads b' = [].
Proof.
  intros Hwf. unfold drop_reads. erewrite bind_ok by reflexivity.
  destruct (loop_winds (map fst (reads b)) (fun id => finish_read id None "the desktop session ended") b) as (b' & E & Hw & Hin); [intros; apply finish_winds | intros; apply finish_normal|].
  exists b'. split_and!; [done | done|]. apply sm_find_nil. intros id. destruct (sm_find id (reads b)) as [c|] eqn:Ec; [|by apply (l_reads _ _ (Hw Hwf))].
  destruct (Hin id) as (w1 & w2 & H1 & Ef & H2); [apply in_map_iff; exists (id, c); split; [done | by apply sm_find_In]|].
  pose proof (finish_winds id None "the desktop session ended" w1) as H12. rewrite Ef in H12. apply (l_reads _ _ (H2 (l_wf _ _ (H12 (l_wf _ _ (H1 Hwf)))))).
  revert Ef. unfold finish_read, bind, get, put, upd, modify. destruct (sm_find id (reads w1)) eqn:E1; intros [= <-]; [apply sm_find_erase_eq | done].
Qed.
Lemma writes_gone b : exists b', drop_writes b = (b', Ok tt) /\ winds b b' /\ writes b' = [].
Proof.
  unfold drop_writes. do 2 erewrite bind_ok by reflexivity. destruct (answers_settle (writes b) "the desktop session ended" {| b with writes := [] |}) as (out & -> & _).
  eexists. split; [reflexivity|]. split; [|done]. intros Hwf. by split.
Qed.
Lemma captures_gone b (f := fun m => lost m "the desktop session ended" ;; put (BLost m SessionEnded)) : sm_wf (b_captures b) ->
  exists b', for_each (map fst (b_captures b)) f b = (b', Ok tt) /\ winds b b' /\ forall m, reading m b' = false.
Proof.
  intros Hwf. assert (forall m, respects winds (f m)) as Hf by (intros; unfold f; wind).
  destruct (loop_winds (map fst (b_captures b)) f b) as (b' & E & Hw & Hin); [done | intros m; unfold f; apply normal_bind; [apply lost_normal | intros _; apply normal_modify]|].
  exists b'. split_and!; [done | done|]. intros m. destruct (reading m b) eqn:Er; [|by apply (l_reading _ _ (Hw Hwf))].
  destruct (Hin m) as (w1 & w2 & H1 & Ef & H2).
  { unfold reading in Er. destruct (sm_find m (b_captures b)) as [c|] eqn:Ec; [|done]. apply in_map_iff. exists (m, c). split; [done | by apply sm_find_In]. }
  pose proof (Hf m w1) as H12. rewrite Ef in H12. apply (l_reading _ _ (H2 (l_wf _ _ (H12 (l_wf _ _ (H1 Hwf)))))).
  revert Ef. unfold f, lost, change_source. unfold bind, get, put, upd, modify, set_capture, upd, modify. destruct (sm_find m (b_captures w1)) as [c|] eqn:Ec; cbn.
  - destruct (src_ready _); cbn; intros [= <-]; unfold reading; cbn; by rewrite sm_find_set_eq.
  - intros [= <-]. unfold reading. cbn. by rewrite Ec.
Qed.
Lemma helper_normal here : normal (helper here).
Proof. unfold helper, s_drop, drop_reader, update, set_available, s_put. repeat normal_step. Qed.
Lemma send_normal body : normal (b_send body).
Proof. unfold b_send, put, upd. repeat normal_step. Qed.
Lemma sound_normal {A} (p : Prog Sound A) : normal p -> normal (with_sound p).
Proof. intros Hp b. unfold with_sound. destruct (Hp (sound b)) as (s & a & ->). destruct (for_each _ _ _) as [b' r]. by exists b', a. Qed.
Lemma physical_winds : respects winds (upd (fun b => {| b with b_captures := List.filter (fun kv => negb (bc_virtual kv.2)) (b_captures b); virtual_by_connector := [] |})).
Proof.
  intros b Hwf. split; cbn; try done; [exact (sm_wf_filter (fun _ c => negb (bc_virtual c)) _ Hwf) | |]; intros m; unfold reading, virt; cbn;
    pose proof (sm_filter_find (fun _ c => negb (bc_virtual c)) m _ Hwf) as E; unfold sm_filter in E; rewrite E; destruct (sm_find m (b_captures b)) as [c|]; try done; by destruct (bc_virtual c) eqn:Ev.
Qed.
Lemma physical_only m b : sm_wf (b_captures b) -> virt m {| b with b_captures := List.filter (fun kv => negb (bc_virtual kv.2)) (b_captures b); virtual_by_connector := [] |} = false.
Proof.
  intros Hwf. unfold virt. cbn. pose proof (sm_filter_find (fun _ c => negb (bc_virtual c)) m _ Hwf) as E. unfold sm_filter in E. rewrite E. destruct (sm_find m (b_captures b)) as [c|]; [|done]. by destruct (bc_virtual c) eqn:Ev.
Qed.
Lemma idle_winds b b' : sm_wf (b_captures b) -> winds b b' -> idle b -> idle b'.
Proof.
  intros Hwf Hw [H1 H2 H3 H4 H5]. destruct (Hw Hwf) as [E1 E2 E3 E4 E5 E6 E7 E8]. split; [congruence | apply sm_find_nil; intros id; apply E4; by rewrite H2 | by auto | by auto|]. intros m. destruct (H5 m). by split; auto.
Qed.
Lemma drop_ends : ends drop_helper.
Proof.
  intros b Hc Hwf. unfold drop_helper. erewrite bind_ok by reflexivity. rewrite Hc. cbn [negb]. do 2 erewrite bind_ok by reflexivity. match goal with |- backend_inv (_ ?x).1 => set (b0 := x) end.
  destruct (reads_gone b0 Hwf) as (b1 & E1 & W1 & R1). rewrite (bind_ok _ _ _ _ _ E1). pose proof (W1 Hwf) as L1.
  destruct (writes_gone b1) as (b2 & E2 & W2 & R2). rewrite (bind_ok _ _ _ _ _ E2). pose proof (W2 (l_wf _ _ L1)) as L2. do 2 erewrite bind_ok by reflexivity. cbn [b_captures].
  match goal with |- backend_inv (bind _ _ ?x).1 => set (b3 := x) end.
  destruct (captures_gone b3 (l_wf _ _ L2)) as (b4 & E4 & W4 & R4). rewrite (bind_ok _ _ _ _ _ E4). pose proof (W4 (l_wf _ _ L2)) as L4. erewrite bind_ok by reflexivity. match goal with |- backend_inv (bind _ _ ?x).1 => set (b5 := x) end.
  assert (sm_wf (b_captures b5)) as Hwf5 by exact (l_wf _ _ (physical_winds b4 (l_wf _ _ L4))).
  destruct (sound_normal (helper false) (helper_normal false) b5) as (b6 & [] & E6). rewrite (bind_ok _ _ _ _ _ E6). pose proof (sound_winds (helper false) b5) as W6. rewrite E6 in W6. change (winds b5 b6) in W6. pose proof (W6 Hwf5) as L6.
  do 2 erewrite bind_ok by reflexivity. match goal with |- backend_inv (when _ _ ?x).1 => set (b7 := x) end.
  assert (idle b7) as Hi.
  { pose proof (physical_winds b4 (l_wf _ _ L4)) as L5. change (less b4 b5) in L5. split; cbn.
    - rewrite (l_welcomed _ _ L6), (l_welcomed _ _ L5), (l_welcomed _ _ L4). change (b_welcomed b2 = false). by rewrite (l_welcomed _ _ L2), (l_welcomed _ _ L1).
    - apply sm_find_nil. intros id. apply (l_reads _ _ L6), (l_reads _ _ L5), (l_reads _ _ L4). change (sm_find id (reads b2) = None). apply (l_reads _ _ L2). by rewrite R1.
    - by apply (l_writes _ _ L6), (l_writes _ _ L5), (l_writes _ _ L4).
    - done.
    - intros m. split; [apply (l_reading _ _ L6), (l_reading _ _ L5), R4 | apply (l_virtual _ _ L6), physical_only, (l_wf _ _ L4)]. }
  assert (respects winds (when (b_welcomed b) (put (BSession false)))) as H8 by wind. pose proof (H8 b7) as W8. split; [apply (l_wf _ _ (W8 (l_wf _ _ L6)))|]. intros _. by apply (idle_winds b7); [exact (l_wf _ _ L6)|..].
Qed.
Lemma handle_ends body fds starts : ends (handle body fds starts).
Proof.
  unfold handle, hello. repeat first [ apply drop_ends | apply ends_if | solve [apply ends_stays; stay] | apply ends_bind; [stay|intros ?] ].
Qed.
Lemma inv_winds {A} (m : Prog Backend A) : respects winds m -> forall b, backend_inv b -> backend_inv (m b).1.
Proof.
  intros Hm b [Hwf Hi]. pose proof (Hm b Hwf) as L. split; [apply (l_wf _ _ L)|]. intros Hc. rewrite (l_conn _ _ L) in Hc. apply (idle_winds b); [done | apply Hm | by apply Hi].
Qed.
(** What needs a helper does nothing of note without one. *)
Lemma inv_asks {A} (m : Prog Backend A) : respects stays m -> (forall b, conn b = false -> winds b (m b).1) -> forall b, backend_inv b -> backend_inv (m b).1.
Proof.
  intros Hs Hn b [Hwf Hi]. destruct (conn b) eqn:Ec; [by apply ends_stays|]. pose proof (Hn b Ec Hwf) as L. split; [apply (l_wf _ _ L)|]. intros _. apply (idle_winds b); [done | by apply Hn | by apply Hi].
Qed.
Lemma put_wind_then e (m : Prog Backend unit) b : conn b = false -> (forall b1, conn b1 = false -> winds b1 (m b1).1) -> winds b ((put e ;; m) b).1.
Proof. intros Hc Hm. etrans; [apply (put_winds e)|]. erewrite bind_ok by reflexivity. by apply Hm. Qed.
Lemma backend_step_inv i b : backend_inv b -> backend_inv (b_step i b).1.
Proof.
  intros Hb. destruct i; cbn [b_step]; try solve [revert b Hb; apply inv_winds; wind].
  - destruct Hb as [Hwf Hi]. unfold accept. cbn. destruct (conn b) eqn:Ec; [|split; [done|]; by cbn]. split; [done | congruence].
  - erewrite bind_ok by reflexivity. destruct (conn b) eqn:Ec; [|done]. destruct Hb as [Hwf Hi]. cbn [when]. destruct r; cbn [on_readable]; [by apply handle_ends | by apply drop_ends | split; [done | by cbn; congruence] .. | by apply drop_ends].
  - revert b Hb. apply inv_asks; [unfold read; stay|]. intros b Hc. unfold read. apply (put_wind_then _ _ b Hc). intros b1 Hc1. erewrite bind_ok by reflexivity. cbn zeta. rewrite Hc1. apply put_winds.
  - revert b Hb. apply inv_asks; [unfold write; stay|]. intros b Hc. unfold write. apply (put_wind_then _ _ b Hc). intros b1 Hc1. erewrite bind_ok by reflexivity. rewrite Hc1. destruct (max_bytes type =? 0); apply put_winds.
  - revert b Hb. apply inv_asks; [unfold create_virtual_monitor; stay|]. intros b Hc. unfold create_virtual_monitor. unfold bind, get. rewrite Hc. cbn. intros Hwf. by split.
Qed.
Lemma backend_run_inv ins : forall b, backend_inv b -> backend_inv (for_each ins b_step b).1.
Proof.
  induction ins as [|i ins IH]; intros b Hb; cbn [for_each]; [done|]. unfold bind. pose proof (backend_step_inv i b Hb) as H. destruct (b_step i b) as [b1 [[]|e]]; [by apply IH | done].
Qed.
(** C13: Without a helper the backend shows and reads nothing. In every run, whatever was asked and in
    whichever order, once the helper's connection is gone no session is reported as running, no monitor is
    listed, no clipboard request waits, and of the captures that stay for the next helper none has a
    stream's reader and none is a virtual monitor. *)
Theorem no_helper_no_stream force_shm ins : let b := (b_run force_shm ins).1 in conn b = false ->
  b_welcomed b = false /\ monitors_ b = [] /\ reads b = [] /\ writes b = [] /\
  Forall (fun kv : Z * BCapture => src_ready (bc_source kv.2) = false /\ ms_reader (bc_source kv.2) = false /\ bc_virtual kv.2 = false) (b_captures b).
Proof.
  intros b Hc. assert (backend_inv b) as [Hwf Hi]; [apply backend_run_inv; split; [constructor | done]|]. destruct (Hi Hc) as [H1 H2 H3 H4 H5]. split_and!; try done.
  apply List.Forall_forall. intros [m c] Hin. apply sm_In_find in Hin; [|done]. destruct (H5 m) as [Hr Hv]. unfold reading, virt in Hr, Hv. rewrite Hin in Hr, Hv. cbn. unfold src_ready. by rewrite Hr.
Qed.
Definition monitors_msg : json := msg "monitors" [("monitors", JArr [jobj [("identity", jobj [("vendor", JStr "DEL")]); ("connector", JStr "DP-1"); ("width", JUint 800); ("height", JUint 600)]])].
Definition capture_ins : list BInput := [
  BIAccept; received hello_msg []; received monitors_msg []; BIStart 1 {| opt_cursor_in_video := false; opt_dmabuf := []; opt_encoder := "" |};
  received (msg "capture-started" [("id", JUint 1); ("node", JUint 40); ("width", JUint 800); ("height", JUint 600)]) [7%nat]; BIMemory 1 false].
Definition leave_ins : list BInput := capture_ins ++ [BICreate 640 480; BIReceive RClosed true].
Lemma no_helper_no_stream_witness : existsb (fun kv : Z * BCapture => src_ready (bc_source kv.2)) (b_captures (b_run false capture_ins).1) = true /\
  length (b_captures (b_run false leave_ins).1) = 1%nat /\ monitors_ (b_run false leave_ins).1 = [].
Proof.
  split; [by vm_compute|]. split; [by vm_compute|]. exact (proj1 (proj2 (no_helper_no_stream false leave_ins ltac:(by vm_compute)))).
Defined.
(** A hello without a "session" object: the helper is welcomed, and then a JSON type error leaves
    the handler. *)
Theorem hello_without_session : exists e, (b_run false [BIAccept; received (msg "hello" [("protocol", JStr PROTOCOL)]) []]).2 = Throw e.
Proof. eexists. by vm_compute. Qed.
(** Two clipboard-data for one read: the first descriptor's watch outlives the request. *)
Theorem second_data_dangles : (b_run false [
  BIAccept; received hello_msg []; received (msg "clipboard-changed" [("types", JArr [JStr "text/plain;charset=utf-8"])]) []; BIRead 1 "text/plain" 100;
  received (msg "clipboard-data" [("id", JUint 1)]) [7%nat]; received (msg "clipboard-data" [("id", JUint 1)]) [8%nat]; BITimeout 1; BIDangling]).2 = Throw use_after_free.
Proof. by vm_compute. Qed.
