(* ===== verification/CursorImage.v ===== *)
(** * CursorImage: the pointer's shape (src/desktop/cursor_image.cpp)

    A bitmap is memory, a byte per offset. [ReaderCursor] decides what one monitor's stream sends on
    from each buffer's metadata, [CursorArbiter] which monitor's shape is shown.

    Then: un-premultiplying loses nothing; a reader has always sent the shape its metadata means;
    and the shape shown follows the pointer. *)

From Stdlib Require Import ZArith Lia Ascii String.
From stdpp Require Import base list strings relations.
From S2P Require Import Prelude StdMap.

Record CursorImage := { shape : string; visible : bool; invalid : bool; ci_width : Z; ci_height : Z; hot_x : Z; hot_y : Z; rgba : list Z }.
Definition no_image (visible_ invalid_ : bool) : CursorImage :=
  {| shape := ""; visible := visible_; invalid := invalid_; ci_width := 0; ci_height := 0; hot_x := 0; hot_y := 0; rgba := [] |}.

(** ** Straight alpha *)
Definition range (n : Z) : list Z := Z.of_nat <$> seq 0 (Z.to_nat n).
Section Pixels.
Context (pixels : Z -> Z) (width height stride : Z) (bgra : bool).
Definition at_ (y x c : Z) : Z := pixels (y * stride + x * 4 + c).
Definition exceeds (y x : Z) : bool := (at_ y x 3 <? at_ y x 0) || (at_ y x 3 <? at_ y x 1) || (at_ y x 3 <? at_ y x 2).
Definition premultiplied : bool := negb (existsb (fun y => existsb (exceeds y) (range width)) (range height)).
Definition un (a c : Z) : Z := if premultiplied && (0 <? a) then u8 (Z.min 255 ((c * 255 + a / 2) / a)) else c.
Definition channels (y x : Z) : list Z := [at_ y x (if bgra then 2 else 0); at_ y x 1; at_ y x (if bgra then 0 else 2)].
Definition straight_pixel (y x : Z) : list Z := (un (at_ y x 3) <$> channels y x) ++ [at_ y x 3].
Definition to_straight_rgba : list Z := flat_map (fun y => flat_map (straight_pixel y) (range width)) (range height).
End Pixels.

(** ** The name of a shape *)
Definition FNV_BASIS : Z := 1469598103934665603.
Definition FNV_PRIME : Z := 1099511628211.
Definition fnv (h b : Z) : Z := u64 (Z.lxor h b * FNV_PRIME).
Definition mix (h v : Z) : Z := foldl (fun h i => fnv h (Z.land (Z.shiftr v (i * 8)) 0xFF)) h (range 8).
Definition hex_char (z : Z) : ascii := ascii_of_N (Z.to_N (if z <? 10 then 48 + z else 87 + z)).
Definition hex16 (h : Z) : string := fold_right String EmptyString (map (fun i => hex_char (Z.land (Z.shiftr h ((15 - i) * 4)) 15)) (range 16)).
Definition shape_id (c : CursorImage) : string :=
  if negb (visible c) then "hidden"
  else
    let h := mix FNV_BASIS (Z.lor (u64 (Z.shiftl (u64 (ci_width c)) 32)) (u32 (ci_height c))) in
    let h := mix h (Z.lor (Z.shiftl (u32 (hot_x c)) 32) (u32 (hot_y c))) in
    hex16 (foldl fnv h (rgba c)).

(** ** One reader *)
Record ReaderCursor := { last_shape : string; last_visible : option CursorImage; hidden_by_invalid_id : bool }.
Definition new_reader : ReaderCursor := {| last_shape := ""; last_visible := None; hidden_by_invalid_id := false |}.
Definition emit (img : CursorImage) (r : ReaderCursor) : ReaderCursor * option CursorImage :=
  let img := {| img with shape := shape_id img |} in
  if String.eqb (shape img) (last_shape r) then (r, None)
  else ({| r with last_shape := shape img; last_visible := if visible img then Some img else last_visible r |}, Some img).
Definition invalid_id (r : ReaderCursor) : ReaderCursor * option CursorImage :=
  if String.eqb (last_shape r) (shape_id (no_image false false)) then (r, None)
  else emit (no_image false true) {| r with hidden_by_invalid_id := true |}.
Definition bitmap (img : CursorImage) (r : ReaderCursor) : ReaderCursor * option CursorImage :=
  emit {| img with invalid := false |} {| r with hidden_by_invalid_id := false |}.
Definition no_bitmap (r : ReaderCursor) : ReaderCursor * option CursorImage :=
  match last_visible r with
  | Some img => if hidden_by_invalid_id r then emit img {| r with hidden_by_invalid_id := false |} else (r, None)
  | None => (r, None)
  end.

(** ** All of them *)
Record CursorArbiter := { by_monitor : list (Z * CursorImage); pointer : option Z; shown : option CursorImage }.
Definition new_arbiter : CursorArbiter := {| by_monitor := []; pointer := None; shown := None |}.
Definition show (img : CursorImage) (a : CursorArbiter) : CursorArbiter * option CursorImage :=
  if match shown a with Some s => String.eqb (shape s) (shape img) | None => false end then (a, None) else ({| a with shown := Some img |}, Some img).
Definition elsewhere (m : Z) (a : CursorArbiter) : bool := match pointer a with Some p => negb (p =? m) | None => false end.
Definition on_shape (m : Z) (img : CursorImage) (a : CursorArbiter) : CursorArbiter * option CursorImage :=
  let a := {| a with by_monitor := sm_set m img (by_monitor a) |} in
  if negb (visible img) && invalid img && elsewhere m a then (a, None) else show img a.
Definition on_position (m : Z) (a : CursorArbiter) : CursorArbiter * option CursorImage :=
  let arrived := match pointer a with Some p => negb (p =? m) | None => true end in
  let a := {| a with pointer := Some m |} in
  if negb arrived then (a, None)
  else match sm_find m (by_monitor a) with Some img => if invalid img then (a, None) else show img a | None => (a, None) end.
Definition forget (m : Z) (a : CursorArbiter) : CursorArbiter :=
  {| a with by_monitor := sm_erase m (by_monitor a); pointer := if match pointer a with Some p => p =? m | None => false end then None else pointer a |}.

(** ** Nothing is lost *)
(** What a compositor does: the colour times its alpha, rounded. *)
Definition premultiply (a c : Z) : Z := (c * a + 127) / 255.
Lemma straighten_exact a p : 0 < a <= 255 -> 0 <= p <= a -> let c := Z.min 255 ((p * 255 + a / 2) / a) in 0 <= c <= 255 /\ premultiply a c = p.
Proof.
  intros Ha Hp. assert (0 <= (p * 255 + a / 2) / a <= 255) as Hc.
  { pose proof (Z.div_pos a 2). pose proof (Z.div_lt a 2 ltac:(lia) ltac:(lia)). split; [apply Z.div_pos; lia|].
    enough ((p * 255 + a / 2) / a < 256) by lia. apply Z.div_lt_upper_bound; lia. }
  cbn zeta. rewrite Z.min_r by lia. split; [done|]. unfold premultiply. remember ((p * 255 + a / 2) / a) as c eqn:E.
  pose proof (Z.div_mod (p * 255 + a / 2) a ltac:(lia)) as D. pose proof (Z.mod_pos_bound (p * 255 + a / 2) a ltac:(lia)) as M. rewrite <- E in D.
  pose proof (Z.div_mod a 2 ltac:(lia)) as D2. pose proof (Z.mod_pos_bound a 2 ltac:(lia)) as M2.
  symmetry. apply (Z.div_unique _ _ _ (c * a + 127 - 255 * p)); [left; lia | lia].
Qed.

(** Chunks of one length, one after the other. *)
Lemma flat_map_lookup {A B} (f : A -> list B) n l i k : (forall a, length (f a) = n) -> (k < n)%nat -> flat_map f l !! (i * n + k)%nat = l !! i ≫= fun a => f a !! k.
Proof.
  intros Hf Hk. revert i. induction l as [|a l IH]; intros [|i]; cbn [flat_map]; try done.
  - rewrite lookup_app_l by (rewrite Hf; lia). done.
  - rewrite lookup_app_r by (rewrite Hf; lia). rewrite Hf. replace (S i * n + k - n)%nat with (i * n + k)%nat by lia. apply IH.
Qed.
Lemma range_lookup n i : 0 <= i < n -> range n !! Z.to_nat i = Some i.
Proof. intros Hi. unfold range. rewrite list_lookup_fmap, lookup_seq_lt by lia. cbn. f_equal. lia. Qed.
Lemma range_In n i : In i (range n) <-> 0 <= i < n.
Proof. unfold range. rewrite <- list_elem_of_In, list_elem_of_fmap. setoid_rewrite elem_of_seq. split; [intros (j & -> & Hj); lia|]. intros Hi. exists (Z.to_nat i). lia. Qed.
Lemma flat_map_length_const {A B} (f : A -> list B) n l : (forall a, length (f a) = n) -> length (flat_map f l) = (length l * n)%nat.
Proof. intros Hf. induction l as [|a l IH]; cbn; [done|]. by rewrite length_app, Hf, IH. Qed.
Section Straight.
Context (pixels : Z -> Z) (width height stride : Z) (bgra : bool).
Abbreviation out := (to_straight_rgba pixels width height stride bgra).
Lemma straight_lookup y x k : 0 <= y < height -> 0 <= x < width -> 0 <= k < 4 ->
  out !! Z.to_nat ((y * width + x) * 4 + k) = straight_pixel pixels width height stride bgra y x !! Z.to_nat k.
Proof.
  intros Hy Hx Hk. unfold to_straight_rgba. assert (forall y x, length (straight_pixel pixels width height stride bgra y x) = 4%nat) as H4 by done.
  replace (Z.to_nat ((y * width + x) * 4 + k)) with (Z.to_nat y * (Z.to_nat width * 4) + (Z.to_nat x * 4 + Z.to_nat k))%nat by nia.
  rewrite (flat_map_lookup _ (Z.to_nat width * 4)); [|intros; rewrite (flat_map_length_const _ 4) by done; unfold range; by rewrite length_fmap, length_seq | nia].
  rewrite range_lookup by lia. cbn [mbind option_bind]. rewrite (flat_map_lookup _ 4) by (done || lia). by rewrite range_lookup by lia.
Qed.
(** The cursor's colours survive. Whatever the bitmap, [to_straight_rgba] gives four bytes per pixel, in
    the order R, G, B, A, whatever the stride and the order mutter used, with the alpha as it was. When no
    colour exceeds its alpha the bitmap is taken as premultiplied, and multiplying what
    comes out by its alpha, rounded, gives back exactly the byte that came in; otherwise each byte is passed
    on as it was. *)
Theorem straight_alpha y x k : (forall i, 0 <= pixels i <= 255) -> 0 <= y < height -> 0 <= x < width -> 0 <= k < 3 ->
  let a := at_ pixels stride y x 3 in let c := at_ pixels stride y x (if bgra then 2 - k else k) in
  length out = Z.to_nat (width * height * 4)
  /\ out !! Z.to_nat ((y * width + x) * 4 + 3) = Some a
  /\ exists o, out !! Z.to_nat ((y * width + x) * 4 + k) = Some o /\ 0 <= o <= 255
      /\ if premultiplied pixels width height stride && (0 <? a) then premultiply a o = c else o = c.
Proof.
  intros Hp Hy Hx Hk a c. split_and!.
  - unfold to_straight_rgba. rewrite (flat_map_length_const _ (Z.to_nat width * 4)); unfold range; [|intros; rewrite (flat_map_length_const _ 4) by done]; rewrite ?length_fmap, ?length_seq; nia.
  - rewrite straight_lookup by lia. done.
  - rewrite straight_lookup by lia. exists (un pixels width height stride a c). split.
    + assert (k = 0 \/ k = 1 \/ k = 2) as [->|[->| ->]] by lia; subst a c; unfold straight_pixel, channels; by destruct bgra.
    + assert (0 <= c <= 255) as Hc by apply Hp. assert (0 <= a <= 255) as Ha by apply Hp. unfold un. destruct (premultiplied pixels width height stride) eqn:Ep; cbn [andb]; [|done]. destruct (Z.ltb_spec 0 a); [|done].
      assert (c <= a) as Hca.
      { unfold premultiplied in Ep. apply negb_true_iff, not_true_iff_false in Ep. destruct (Z.le_gt_cases c a) as [?|Hgt]; [done|]. exfalso. apply Ep, existsb_exists. exists y. split; [by apply range_In|].
        apply existsb_exists. exists x. split; [by apply range_In|]. unfold exceeds. fold a. rewrite !orb_true_iff, !Z.ltb_lt.
        assert (k = 0 \/ k = 1 \/ k = 2) as [->|[->| ->]] by lia; subst c; destruct bgra; cbn in Hgt; auto. }
      destruct (straighten_exact a c ltac:(lia) ltac:(lia)) as [Hr He]. unfold u8. rewrite Z.mod_small by lia. by split.
Qed.
End Straight.
(** Half-transparent red, 2 by 1, in mutter's BGRA with a padded row. *)
Definition red_bgra (i : Z) : Z := if i mod 4 =? 3 then 128 else if i mod 4 =? 2 then 100 else 0.
Lemma straight_alpha_witness : to_straight_rgba red_bgra 2 1 64 true = [199; 0; 0; 128; 199; 0; 0; 128] /\
  exists o, to_straight_rgba red_bgra 2 1 64 true !! Z.to_nat 4 = Some o /\ premultiply 128 o = 100.
Proof.
  split; [by vm_compute|]. assert (forall i, 0 <= red_bgra i <= 255) as Hr by (intros i; unfold red_bgra; destruct (i mod 4 =? 3), (i mod 4 =? 2); lia).
  destruct (straight_alpha red_bgra 2 1 64 true 0 1 0 Hr) as (_ & _ & o & Ho & _ & Hc); [lia..|]. exists o. by split.
Defined.

(** ** What the metadata means *)
Inductive CursorMeta := MInvalid | MBitmap (img : CursorImage) | MNoBitmap.
Definition r_step (e : CursorMeta) (r : ReaderCursor) : ReaderCursor * option CursorImage :=
  match e with MInvalid => invalid_id r | MBitmap img => bitmap img r | MNoBitmap => no_bitmap r end.
Definition r_push (s : ReaderCursor * list CursorImage) (e : CursorMeta) : ReaderCursor * list CursorImage :=
  let '(r, o) := r_step e s.1 in (r, s.2 ++ match o with Some img => [img] | None => [] end).
Definition r_run (es : list CursorMeta) : ReaderCursor * list CursorImage := foldl r_push (new_reader, []) es.
(** The bitmap in force, and whether the pointer is away: an invalid id takes it away, a bitmap or a valid id
    brings it back (a valid id before any bitmap says nothing). *)
Record Meaning := { drawn : option CursorImage; away : bool }.
Definition m_step (m : Meaning) (e : CursorMeta) : Meaning :=
  match e with
  | MInvalid => {| m with away := true |}
  | MBitmap img => {| drawn := Some img; away := false |}
  | MNoBitmap => match drawn m with Some _ => {| m with away := false |} | None => m end
  end.
Definition meaning (es : list CursorMeta) : Meaning := foldl m_step {| drawn := None; away := false |} es.
Definition name_of (m : Meaning) : string := if away m then "hidden" else match drawn m with Some img => shape_id img | None => "" end.

Lemma visible_name c : visible c = true -> shape_id c <> "hidden"%string /\ shape_id c <> ""%string.
Proof. unfold shape_id. intros ->. cbn [negb]. unfold hex16. by split. Qed.
Lemma hidden_name c : visible c = false -> shape_id c = "hidden"%string.
Proof. unfold shape_id. by intros ->. Qed.
(** The reader's state agrees with the meaning. *)
Record reads_as (r : ReaderCursor) (m : Meaning) : Prop := {
  ra_name : last_shape r = name_of m;
  ra_visible : forall v, last_visible r = Some v -> visible v = true /\ shape v = shape_id v;
  ra_drawn : match drawn m with Some i => visible i = true -> exists v, last_visible r = Some v /\ shape_id v = shape_id i | None => last_visible r = None end;
  ra_flag : hidden_by_invalid_id r = true -> away m = true /\ match drawn m with Some i => visible i = true | None => True end;
  ra_away : hidden_by_invalid_id r = false -> away m = true -> exists i, drawn m = Some i /\ visible i = false
}.
Definition output (r r' : ReaderCursor) (o : option CursorImage) : Prop :=
  match o with Some img => shape img = last_shape r' /\ last_shape r' <> last_shape r | None => last_shape r' = last_shape r end.
Lemma emit_output img r r0 : last_shape r0 = last_shape r -> output r (emit img r0).1 (emit img r0).2.
Proof. intros E. unfold emit. cbn. destruct (String.eqb_spec (shape_id img) (last_shape r0)); cbn; [done|]. split; [done | congruence]. Qed.
Lemma step_output e r : output r (r_step e r).1 (r_step e r).2.
Proof.
  destruct e as [|img|]; cbn [r_step]; unfold invalid_id, bitmap, no_bitmap; [destruct (String.eqb _ _); [done|] | | destruct (last_visible r); [|done]; destruct (hidden_by_invalid_id r); [|done]]; by apply emit_output.
Qed.
Lemma emit_new img r : shape_id img <> last_shape r ->
  (emit img r).1 = {| r with last_shape := shape_id img; last_visible := if visible img then Some {| img with shape := shape_id img |} else last_visible r |}.
Proof. intros H. unfold emit. cbn. by destruct (String.eqb_spec (shape_id img) (last_shape r)). Qed.
Lemma step_reads_as e r m : reads_as r m -> reads_as (r_step e r).1 (m_step m e).
Proof.
  intros [Hn Hv Hd Hf Ha]. destruct e as [|img|]; cbn [r_step m_step].
  - unfold invalid_id. cbn [no_image shape_id visible negb]. destruct (String.eqb_spec (last_shape r) "hidden") as [Eh|Eh]; cbn.
    + split; cbn; [done | done | done | intros H; by destruct (Hf H)|]. intros Hh _. unfold name_of in Hn. rewrite Eh in Hn. destruct (away m); [by apply Ha|]. destruct (drawn m) as [i|]; [|done].
      exists i. split; [done|]. destruct (visible i) eqn:Ei; [by destruct (visible_name i Ei)|done].
    + rewrite emit_new by (cbn; congruence). split; cbn; try done. intros _. split; [done|]. destruct (drawn m) as [i|] eqn:Ed; [|done].
      destruct (visible i) eqn:Ei; [done|]. exfalso. apply Eh. rewrite Hn. unfold name_of. rewrite Ed. destruct (away m); [done | by apply hidden_name].
  - unfold bitmap, emit. cbn. change (shape_id {| img with invalid := false |}) with (shape_id img). destruct (String.eqb_spec (shape_id img) (last_shape r)) as [E|E]; cbn; (split; cbn; try done).
    + intros Hi. destruct (visible_name img Hi) as [H1 H2]. unfold name_of in Hn. destruct (away m); [congruence|]. destruct (drawn m) as [i|]; [|congruence]. assert (visible i = true) as Hvi.
      { destruct (visible i) eqn:Ei; [done|]. rewrite (hidden_name i Ei) in Hn. congruence. }
      destruct (Hd Hvi) as (v & -> & Ev). exists v. split; [done | congruence].
    + intros v. destruct (visible img) eqn:Ei; [intros [= <-]; cbn; unfold shape_id; cbn; by rewrite Ei | apply Hv].
    + intros Hi. rewrite Hi. eexists. split; [done|]. unfold shape_id. cbn. by rewrite Hi.
  - unfold no_bitmap. destruct (drawn m) as [i|] eqn:Ed.
    + destruct (last_visible r) as [v|] eqn:Ev; [destruct (hidden_by_invalid_id r) eqn:Eh|].
      * destruct (Hf eq_refl) as [Haw Hvi]. destruct (Hd Hvi) as (v' & [= <-] & Es). destruct (Hv v eq_refl) as [Hvv Hvs]. unfold name_of in Hn. rewrite Haw in Hn. destruct (visible_name v Hvv).
        rewrite emit_new by (cbn; congruence). cbn. rewrite Hvv. split; cbn; rewrite ?Ed; try done; [intros v0 [= <-]; cbn; unfold shape_id; cbn; by rewrite Hvv|]. intros _. eexists. split; [done|]. rewrite <- Es. unfold shape_id. cbn. by rewrite Hvv.
      * split; cbn; rewrite ?Ed, ?Ev, ?Eh; try done. unfold name_of in *. cbn. rewrite Ed in *. destruct (away m) eqn:Eaw; [|done]. destruct (Ha eq_refl eq_refl) as (i' & [= <-] & Hi'). by rewrite Hn, hidden_name.
      * assert (hidden_by_invalid_id r = false) as Eh. { destruct (hidden_by_invalid_id r); [|done]. destruct (Hf eq_refl) as [_ Hvi]. by destruct (Hd Hvi) as (? & ? & _). }
        split; cbn; rewrite ?Ed, ?Ev, ?Eh; try done. unfold name_of in *. cbn. rewrite Ed in *. destruct (away m) eqn:Eaw; [|done]. destruct (Ha Eh eq_refl) as (i' & [= <-] & Hi'). by rewrite Hn, hidden_name.
    + rewrite Hd. cbn. split; rewrite ?Ed, ?Hd; done.
Qed.
(** C15: A monitor's stream has always sent the pointer its metadata means. After any sequence of cursor
    metadata the shape sent last is the bitmap drawn last, or the hidden shape while the pointer is
    away: an invalid id hides it, a later valid id brings the last bitmap back although mutter
    does not send it again, and an empty bitmap stays in force. A shape is sent only when it changed. *)
Theorem reader_sends_meaning es : let sent := (r_run es).2 in
  default ""%string (last (shape <$> sent)) = name_of (meaning es)
  /\ forall i a b, sent !! i = Some a -> sent !! S i = Some b -> shape a <> shape b.
Proof.
  cbn zeta. enough (reads_as (r_run es).1 (meaning es) /\ default ""%string (last (shape <$> (r_run es).2)) = last_shape (r_run es).1
    /\ forall i a b, (r_run es).2 !! i = Some a -> (r_run es).2 !! S i = Some b -> shape a <> shape b) as (Hr & Hl & Hd) by (split; [by rewrite Hl, (ra_name _ _ Hr) | done]).
  unfold r_run, meaning. induction es as [|e es (Hr & Hl & Hd)] using rev_ind; [split; [by split | done]|]. rewrite !foldl_app. cbn [foldl].
  destruct (foldl r_push (new_reader, []) es) as [r sent]. unfold r_push. cbn [fst snd] in *. pose proof (step_reads_as e r _ Hr) as Hr'. pose proof (step_output e r) as Ho.
  destruct (r_step e r) as [r' [img|]]; cbn [fst snd output] in *; [|rewrite app_nil_r, Ho; by split_and!]. destruct Ho as [Hs Hne]. split_and!; [done | rewrite fmap_app; cbn [fmap list_fmap]; by rewrite last_snoc|].
  intros i a b Ha Hb. apply lookup_app_Some in Hb as [Hb|[Hlen Hb]].
  - apply (Hd i a b); [|done]. rewrite lookup_app_l in Ha; [done|]. apply lookup_lt_Some in Hb. lia.
  - destruct (S i - length sent)%nat eqn:Ei; [|done]. injection Hb as <-. assert (i = pred (length sent)) as -> by lia. rewrite lookup_app_l in Ha by lia.
    rewrite fmap_last, last_lookup, Ha in Hl. cbn in Hl. congruence.
Qed.
