(* ===== verification/EisInput.v ===== *)
(** * EisInput: the operator's input on GNOME (modules/desktop-mutter/eis_input.cpp)

    A libei sender on the socket the helper handed over. libei is seen through the events it reports,
    given in order, and the calls made of it, kept in order; a device is the number of its pointer with
    the capabilities it has. [std::set]s are kept in key order, which is the order they are released in.

    Then: a text is typed whole, each character by its own keys, or not at all, and leaves no key down. *)

From Stdlib Require Import ZArith Lia String Sorted.
From stdpp Require Import base list strings sorting sets.
From S2P Require Import Prelude Monad StdMap Floats Keymap.

Inductive DeviceCap := CapPointerAbsolute | CapKeyboard | CapButton | CapScroll.
#[global] Instance cap_eq_dec : EqDecision DeviceCap.
Proof. solve_decision. Defined.
(** What a keyboard's keymap came to: no XKB keymap to read, or its text compiled or not. *)
Inductive KeymapRead := KNone | KText (k : option Xkb).
Inductive EiEvent :=
| EvSeatAdded | EvDeviceAdded (d : Z) (caps : list DeviceCap) (keymap : KeymapRead) | EvDeviceResumed (d : Z) | EvDevicePaused (d : Z) | EvDeviceRemoved (d : Z)
| EvModifiers (group : Z) | EvDisconnect | EvOther.
Inductive EiCall :=
| CBind | CStart (d sequence : Z) | CMotion (d : Z) (x y : dbl) | CScroll (d : Z) (dx dy : dbl) | CKey (d code : Z) (down : bool) | CButton (d code : Z) (down : bool) | CDisconnected.
Abbreviation ZSet := (list (Z * unit)).
Record EisInput := {
  ei : bool; devices : list (Z * list DeviceCap); resumed : ZSet; sequence : Z; held_keys : ZSet; held_buttons : ZSet;
  keymap : option Xkb; group : Z; warned_no_device : bool; calls : list EiCall
}.
Definition new_eis : EisInput := {| ei := false; devices := []; resumed := []; sequence := 1; held_keys := []; held_buttons := []; keymap := None; group := 0; warned_no_device := false; calls := [] |}.
#[local] Abbreviation E := (Prog EisInput).
Definition eis_call (c : EiCall) : E unit := modify (fun e => {| e with calls := calls e ++ [c] |}).
Definition detach : E unit :=
  modify (fun e => {| e with devices := []; resumed := []; held_keys := []; held_buttons := []; keymap := None; ei := false |}).
Definition load_keymap (k : KeymapRead) : E unit := match k with KNone => ret tt | KText km => modify (fun e => {| e with keymap := km |}) end.
Fixpoint erase_device (d : Z) (l : list (Z * list DeviceCap)) : list (Z * list DeviceCap) :=
  match l with [] => [] | x :: l' => if x.1 =? d then l' else x :: erase_device d l' end.
Definition handle_event (ev : EiEvent) : E unit :=
  match ev with
  | EvSeatAdded => eis_call CBind
  | EvDeviceAdded d caps km =>
    modify (fun e => {| e with devices := devices e ++ [(d, caps)] |}) ;; when (existsb (fun c => bool_decide (c = CapKeyboard)) caps) (load_keymap km)
  | EvDeviceResumed d =>
    do e <- get; eis_call (CStart d (sequence e)) ;; modify (fun e => {| e with sequence := u32 (sequence e + 1); resumed := sm_set d tt (resumed e) |})
  | EvDevicePaused d => modify (fun e => {| e with resumed := sm_erase d (resumed e) |})
  | EvDeviceRemoved d => modify (fun e => {| e with resumed := sm_erase d (resumed e); devices := erase_device d (devices e) |})
  | EvModifiers g => modify (fun e => {| e with group := g |})
  | EvDisconnect | EvOther => ret tt
  end.
Definition handle_events (evs : list EiEvent) : E unit :=
  for_each evs handle_event ;;
  when (existsb (fun ev => match ev with EvDisconnect => true | _ => false end) evs) (detach ;; eis_call CDisconnected).
Definition dispatch (evs : list EiEvent) : E unit := do e <- get; when (ei e) (handle_events evs).
(** [usable]: libei takes the descriptor; [evs]: what is already readable. *)
Definition attach (usable : bool) (evs : list EiEvent) : E unit := detach ;; when usable (modify (fun e => {| e with ei := true |}) ;; dispatch evs).

Definition device (c : DeviceCap) (e : EisInput) : option Z :=
  if ei e then fst <$> List.find (fun d => sm_count d.1 (resumed e) && existsb (fun c' => bool_decide (c' = c)) d.2) (devices e) else None.
Definition pointer_absolute (x y : dbl) : E unit := do e <- get; match device CapPointerAbsolute e with Some d => eis_call (CMotion d x y) | None => ret tt end.
Definition eis_scroll (dx dy : dbl) : E unit := do e <- get; match device CapScroll e with Some d => eis_call (CScroll d dx dy) | None => ret tt end.
Definition hold (code : Z) (down : bool) (s : ZSet) : ZSet := if down then sm_set code tt s else sm_erase code s.
Definition button (code : Z) (down : bool) : E unit :=
  do e <- get;
  match device CapButton e with
  | None => ret tt
  | Some d =>
    if Bool.eqb down (sm_count code (held_buttons e)) then ret tt
    else eis_call (CButton d code down) ;; modify (fun e => {| e with held_buttons := hold code down (held_buttons e) |})
  end.
Definition eis_key (code : Z) (down : bool) : E unit :=
  do e <- get;
  match device CapKeyboard e with
  | None => modify (fun e => {| e with warned_no_device := true |})
  | Some d =>
    if Bool.eqb down (sm_count code (held_keys e)) then ret tt
    else eis_call (CKey d code down) ;; modify (fun e => {| e with held_keys := hold code down (held_keys e) |})
  end.
Definition release_all : E unit :=
  do e <- get; for_each (held_keys e) (fun k => eis_key k.1 false) ;;
  do e <- get; for_each (held_buttons e) (fun b => button b.1 false) ;;
  modify (fun e => {| e with held_keys := []; held_buttons := [] |}).

(** The strokes of a text, and the characters that have none. *)
Fixpoint strokes_of (K : Xkb) (layout : Z) (cps : list Z) (strokes : list KeyStroke) (untypable : list (list Z)) : list KeyStroke * list (list Z) :=
  match cps with
  | [] => (strokes, untypable)
  | cp :: cps' =>
    match lookup cp layout with
    | Some s => strokes_of K layout cps' (strokes ++ [s]) untypable
    | None => strokes_of K layout cps' strokes (if existsb (fun u => bool_decide (u = encode_utf8 cp)) untypable then untypable else untypable ++ [encode_utf8 cp])
    end
  end.
Definition type_stroke (s : KeyStroke) : E unit :=
  for_each (modifiers s) (fun m => eis_key m true) ;; eis_key (key s) true ;; eis_key (key s) false ;; for_each (rev (modifiers s)) (fun m => eis_key m false).
(** The characters no key types, and the error. *)
Definition type_text (utf8 : list Z) : E (list (list Z) * string) :=
  do e <- get;
  match device CapKeyboard e, keymap e with
  | None, _ => ret ([], "desktop input is not ready"%string)
  | Some _, None => ret ([], "the compositor sent no usable keymap"%string)
  | Some _, Some K =>
    let '(strokes, untypable) := strokes_of K (group e) (decode_utf8 utf8) [] [] in
    if negb (Nat.eqb (length untypable) 0) then ret (untypable, ""%string)
    else release_all ;; for_each strokes type_stroke ;; ret ([], ""%string)
  end.

(** ** What reaches it *)
Inductive EisIn := EIAttach (usable : bool) (evs : list EiEvent) | EIDetach | EIEvents (evs : list EiEvent) | EIKey (code : Z) (down : bool) | EIButton (code : Z) (down : bool)
| EIMotion (x y : dbl) | EIScroll (dx dy : dbl) | EIReleaseAll | EIText (utf8 : list Z).
Definition eis_step (i : EisIn) : E unit :=
  match i with
  | EIAttach usable evs => attach usable evs
  | EIDetach => detach
  | EIEvents evs => dispatch evs
  | EIKey code down => eis_key code down
  | EIButton code down => button code down
  | EIMotion x y => pointer_absolute x y
  | EIScroll dx dy => eis_scroll dx dy
  | EIReleaseAll => release_all
  | EIText utf8 => do _ <- type_text utf8; ret tt
  end.
Definition eis_run (ins : list EisIn) : EisInput := foldl (fun e i => (eis_step i e).1) new_eis ins.

(** ** The held keys are sets *)
Definition held_wf (e : EisInput) : Prop := sm_wf (held_keys e) /\ sm_wf (held_buttons e).
Definition keeps_held (e e' : EisInput) : Prop := held_wf e -> held_wf e'.
#[export] Instance keeps_held_preorder : PreOrder keeps_held.
Proof. unfold keeps_held. split; [by intros e | intros a b c; auto]. Qed.
Lemma wf_hold code down s : sm_wf s -> sm_wf (hold code down s).
Proof. destruct down; [apply sm_wf_set | apply sm_wf_erase]. Qed.
Lemma modify_keeps f : (forall e, held_keys (f e) = held_keys e /\ held_buttons (f e) = held_buttons e) -> respects keeps_held (modify f).
Proof. intros Hf e. destruct (Hf e) as [E1 E2]. unfold keeps_held, held_wf. cbn. by rewrite E1, E2. Qed.
Create HintDb eis.
Ltac held := repeat first [ solve [auto with eis nocore] | respects_step | by apply modify_keeps ].
Lemma detach_keeps : respects keeps_held detach.
Proof. intros e _. split; constructor. Qed.
Lemma key_keeps code down : respects keeps_held (eis_key code down).
Proof. unfold eis_key, eis_call. held. intros e [H1 H2]. split; [by apply wf_hold | done]. Qed.
Lemma button_keeps code down : respects keeps_held (button code down).
Proof. unfold button, eis_call. held. intros e [H1 H2]. split; [done | by apply wf_hold]. Qed.
#[export] Hint Resolve detach_keeps key_keeps button_keeps : eis.
Lemma dispatch_keeps evs : respects keeps_held (dispatch evs).
Proof.
  unfold dispatch, handle_events, eis_call. held. match goal with |- respects _ (handle_event ?ev) => destruct ev; cbn [handle_event] end; unfold eis_call, load_keymap; held.
Qed.
Lemma release_keeps : respects keeps_held release_all.
Proof. unfold release_all. held. Qed.
#[export] Hint Resolve dispatch_keeps release_keeps : eis.
Lemma text_keeps utf8 : respects keeps_held (type_text utf8).
Proof. unfold type_text. held. Qed.
Lemma run_held ins : held_wf (eis_run ins).
Proof.
  unfold eis_run. induction ins as [|i ins IH] using rev_ind; [split; constructor|]. rewrite foldl_app. cbn [foldl]. revert IH. generalize (foldl (fun e i => (eis_step i e).1) new_eis ins). intros e.
  enough (respects keeps_held (eis_step i)) as H by apply H. destruct i; cbn [eis_step]; unfold attach, pointer_absolute, eis_scroll, eis_call; held.
Qed.

(** ** Keys go down and up *)
Lemma keys_loop d down l : forall e, device CapKeyboard e = Some d -> NoDup l -> (forall k, In k l -> sm_count k (held_keys e) = negb down) ->
  exists h, for_each l (fun k => eis_key k down) e = ({| e with calls := calls e ++ map (fun k => CKey d k down) l; held_keys := h |}, Ok tt)
    /\ forall k, sm_count k h = if bool_decide (k ∈ l) then down else sm_count k (held_keys e).
Proof.
  induction l as [|k l IH]; intros e Hd Hnd Hl; cbn [for_each].
  { exists (held_keys e). split; [destruct e; cbn; by rewrite app_nil_r|]. intros k. by rewrite bool_decide_eq_false_2 by apply not_elem_of_nil. }
  apply NoDup_cons in Hnd as [Hk Hnd]. pose proof (Hl k (or_introl eq_refl)) as Hc.
  assert (eis_key k down e = ({| e with calls := calls e ++ [CKey d k down]; held_keys := hold k down (held_keys e) |}, Ok tt)) as Ek.
  { unfold eis_key. erewrite bind_ok by reflexivity. rewrite Hd, Hc. by destruct down. }
  rewrite (bind_ok _ _ _ _ _ Ek). assert (forall k', k' <> k -> sm_count k' (hold k down (held_keys e)) = sm_count k' (held_keys e)) as Hne.
  { intros k' Hne. unfold sm_count, hold. destruct down; [by rewrite sm_find_set_ne | by rewrite sm_find_erase_ne]. }
  assert (sm_count k (hold k down (held_keys e)) = down) as Heq by (unfold sm_count, hold; destruct down; [by rewrite sm_find_set_eq | by rewrite sm_find_erase_eq]).
  match goal with |- context [for_each l _ ?x] => destruct (IH x) as (h & -> & Hh) end; [done | done | |].
  - intros k' Hk'. cbn. rewrite Hne; [apply Hl; by right|]. intros ->. by apply Hk, list_elem_of_In.
  - exists h. split; [cbn; by rewrite <- app_assoc|]. intros k'. rewrite Hh. cbn. destruct (decide (k' = k)) as [->|Hk'].
    + rewrite (bool_decide_eq_false_2 _ Hk), (bool_decide_eq_true_2 (k ∈ k :: l)) by apply list_elem_of_here. done.
    + rewrite Hne by done. destruct (decide (k' ∈ l)) as [Hin|Hin]; [rewrite !bool_decide_eq_true_2 by set_solver | rewrite !bool_decide_eq_false_2 by set_solver]; done.
Qed.

Lemma buttons_loop d l : forall e, device CapButton e = Some d -> NoDup l -> (forall k, In k l -> sm_count k (held_buttons e) = true) ->
  exists h, for_each l (fun k => button k false) e = ({| e with calls := calls e ++ map (fun k => CButton d k false) l; held_buttons := h |}, Ok tt).
Proof.
  induction l as [|k l IH]; intros e Hd Hnd Hl; cbn [for_each]; [exists (held_buttons e); destruct e; cbn; by rewrite app_nil_r|].
  apply NoDup_cons in Hnd as [Hk Hnd]. assert (button k false e = ({| e with calls := calls e ++ [CButton d k false]; held_buttons := sm_erase k (held_buttons e) |}, Ok tt)) as Ek.
  { unfold button. erewrite bind_ok by reflexivity. by rewrite Hd, (Hl k (or_introl eq_refl)). }
  rewrite (bind_ok _ _ _ _ _ Ek). match goal with |- context [for_each l _ ?x] => destruct (IH x) as (h & ->) end; [done | done | |].
  - intros k' Hk'. cbn. unfold sm_count. rewrite sm_find_erase_ne; [apply (Hl k'); by right|]. intros ->. by apply Hk, list_elem_of_In.
  - exists h. cbn. by rewrite <- app_assoc.
Qed.
Lemma buttons_none l e : device CapButton e = None -> for_each l (fun k => button k false) e = (e, Ok tt).
Proof. intros Hd. induction l as [|k l IH]; cbn; [done|]. rewrite (bind_ok _ _ e e tt); [done|]. unfold button. erewrite bind_ok by reflexivity. by rewrite Hd. Qed.
Lemma for_each_map {S A B} (g : A -> B) (f : B -> Prog S unit) l : for_each l (fun a => f (g a)) = for_each (map g l) f.
Proof. induction l as [|a l IH]; cbn; [done | by rewrite IH]. Qed.
Lemma held_count (s : ZSet) k : In k (map fst s) -> sm_count k s = true.
Proof. intros Hk. unfold sm_count. destruct (sm_find k s) eqn:Ef; [done|]. by apply sm_find_None in Ef. Qed.
(** What is down goes up: the keys, then the buttons. *)
Definition released (d : Z) (e : EisInput) : list EiCall :=
  map (fun k => CKey d k false) (map fst (held_keys e)) ++ match device CapButton e with Some b => map (fun k => CButton b k false) (map fst (held_buttons e)) | None => [] end.
Lemma release_all_calls d e : held_wf e -> device CapKeyboard e = Some d -> release_all e = ({| e with calls := calls e ++ released d e; held_keys := []; held_buttons := [] |}, Ok tt).
Proof.
  intros [Hk Hb] Hd. unfold release_all, released. erewrite bind_ok by reflexivity. rewrite (for_each_map fst (fun k => eis_key k false)).
  destruct (keys_loop d false (map fst (held_keys e)) e Hd (sm_wf_nodup _ Hk)) as (h & Eh & _); [intros; by apply held_count|]. rewrite (bind_ok _ _ _ _ _ Eh). erewrite bind_ok by reflexivity. cbn [held_buttons].
  rewrite (for_each_map fst (fun k => button k false)). match goal with |- bind _ _ ?x = _ => set (e1 := x) end. change (device CapButton e) with (device CapButton e1). destruct (device CapButton e1) as [b|] eqn:Eb.
  - destruct (buttons_loop b (map fst (held_buttons e)) e1 Eb (sm_wf_nodup _ Hb)) as (h' & Eh'); [intros; by apply held_count|]. rewrite (bind_ok _ _ _ _ _ Eh'). cbn. by rewrite <- app_assoc.
  - rewrite (bind_ok _ _ _ _ _ (buttons_none _ _ Eb)). cbn. by rewrite app_nil_r.
Qed.
(** A stroke: its modifiers down, the key down and up, the modifiers up in the other order. *)
Definition presses (d : Z) (s : KeyStroke) : list EiCall :=
  map (fun k => CKey d k true) (modifiers s) ++ [CKey d (key s) true; CKey d (key s) false] ++ map (fun k => CKey d k false) (rev (modifiers s)).
Definition distinct_keys (s : KeyStroke) : Prop := NoDup (key s :: modifiers s).
Lemma stroke_typed d s e : device CapKeyboard e = Some d -> held_keys e = [] -> distinct_keys s -> type_stroke s e = ({| e with calls := calls e ++ presses d s; held_keys := [] |}, Ok tt).
Proof.
  intros Hd He [Hk Hm]%NoDup_cons. unfold type_stroke.
  destruct (keys_loop d true (modifiers s) e Hd Hm) as (h1 & E1 & H1); [intros; by rewrite He|]. rewrite (bind_ok _ _ _ _ _ E1). rewrite He in H1. match type of E1 with _ = (?x, _) => set (e1 := x) in * end.
  destruct (keys_loop d true [key s] e1) as (h2 & E2 & H2); [done | apply NoDup_singleton | intros k [<-|[]]; cbn; rewrite H1; by rewrite bool_decide_eq_false_2|].
  assert (forall down x y, for_each [key s] (fun k => eis_key k down) x = (y, Ok tt) -> eis_key (key s) down x = (y, Ok tt)) as Hone.
  { intros down x y. cbn [for_each]. unfold bind. destruct (eis_key (key s) down x) as [w [[]|]]; by cbn; intros [= <-]. }
  rewrite (bind_ok _ _ _ _ _ (Hone _ _ _ E2)). match type of E2 with _ = (?x, _) => set (e2 := x) in * end.
  destruct (keys_loop d false [key s] e2) as (h3 & E3 & H3); [done | apply NoDup_singleton | intros k [<-|[]]; cbn; rewrite H2; by rewrite bool_decide_eq_true_2 by apply list_elem_of_here|].
  rewrite (bind_ok _ _ _ _ _ (Hone _ _ _ E3)). match type of E3 with _ = (?x, _) => set (e3 := x) in * end.
  destruct (keys_loop d false (rev (modifiers s)) e3) as (h4 & E4 & H4); [done | by apply NoDup_ListNoDup, NoDup_rev, NoDup_ListNoDup | |].
  - intros k Hk'%in_rev. apply list_elem_of_In in Hk'. cbn. rewrite H3, H2, H1. cbn. rewrite !(bool_decide_eq_false_2 (k ∈ [key s])) by set_solver. by rewrite bool_decide_eq_true_2.
  - rewrite E4. assert (h4 = []) as ->.
    { apply sm_find_nil. intros k. specialize (H4 k). cbn in H4. rewrite H3 in H4. cbn in H4. rewrite H2 in H4. cbn in H4. rewrite H1 in H4. unfold sm_count in H4. cbn in H4. destruct (sm_find k h4); [|done]. exfalso.
      assert (k ∈ rev (modifiers s) <-> k ∈ modifiers s) as Hrev by (rewrite !list_elem_of_In; symmetry; apply in_rev). destruct (decide (k ∈ modifiers s)) as [Hin|Hin]; [by rewrite bool_decide_eq_true_2 in H4 by (by apply Hrev)|].
      rewrite bool_decide_eq_false_2 in H4 by (by rewrite Hrev). destruct (decide (k ∈ [key s])) as [Hks|Hks]; [by rewrite bool_decide_eq_true_2 in H4|]. by rewrite !bool_decide_eq_false_2 in H4. }
    unfold presses. cbn. by rewrite <- !app_assoc.
Qed.
Lemma strokes_typed d ss : forall e, device CapKeyboard e = Some d -> held_keys e = [] -> Forall distinct_keys ss ->
  for_each ss type_stroke e = ({| e with calls := calls e ++ flat_map (presses d) ss |}, Ok tt).
Proof.
  induction ss as [|s ss IH]; intros e Hd He Hss; cbn [for_each flat_map]; [destruct e; cbn; by rewrite app_nil_r|]. inversion Hss. rewrite (bind_ok _ _ _ _ _ (stroke_typed d s e Hd He ltac:(done))). rewrite IH; [|done..].
  cbn. rewrite <- app_assoc, <- He. by destruct e.
Qed.

(** ** The keys of a stroke are different ones *)
Definition evdev_keymap (K : Xkb) : Prop := 8 <= min_keycode /\ max_keycode < 8 + 65536.
Section Strokes.
Context `{K : Xkb}.
Lemma candidates_sym kc sym : In kc (candidates sym) -> In kc keycodes /\ exists l, syms_by_level kc 0 0 = sym :: l.
Proof.
  unfold candidates. intros Hin. assert (In kc (List.filter (fun kc => match syms_by_level kc 0 0 with s :: _ => s =? sym | [] => false end) keycodes)) as [Hk Hs]%filter_In by (apply in_app_or in Hin as [Hin|Hin]; apply filter_In in Hin as [Hin _]; exact Hin).
  split; [done|]. destruct (syms_by_level kc 0 0) as [|s l]; [done|]. apply Z.eqb_eq in Hs as ->. by eexists.
Qed.
Lemma first_setting_cases kcs : first_setting kcs = [] \/ exists kc, In kc kcs /\ first_setting kcs = [(kc, mods_of_key kc)].
Proof.
  unfold first_setting. match goal with |- context [List.filter ?f kcs] => pose proof (filter_In f) as Hf; destruct (List.filter f kcs) as [|kc l] eqn:E end; [by left|]. right. exists kc. split; [|done].
  apply (Hf kc kcs). rewrite E. by left.
Qed.
Lemma modifier_sym km l : In km (flat_map (fun sym => first_setting (candidates sym)) l) -> In km.1 keycodes /\ exists sym l', In sym l /\ syms_by_level km.1 0 0 = sym :: l'.
Proof.
  rewrite in_flat_map. intros (sym & Hs & Hin). destruct (first_setting_cases (candidates sym)) as [E|(kc & Hkc & E)]; rewrite E in Hin; [done|]. destruct Hin as [<-|[]]. cbn. apply candidates_sym in Hkc as [Hk (l' & Hl)]. split; [done|]. by exists sym, l'.
Qed.
Lemma modifier_keys_nodup : NoDup modifier_keys.*1.
Proof.
  unfold modifier_keys. assert (NoDup wanted) as Hw by (unfold wanted; repeat (constructor; [set_solver|]); constructor). revert Hw. generalize wanted. intros l. induction 1 as [|sym l Hs Hl IH]; cbn [flat_map]; [constructor|].
  rewrite fmap_app. destruct (first_setting_cases (candidates sym)) as [->|(kc & Hkc & ->)]; [done|]. cbn. constructor; [|done]. intros Hin. apply list_elem_of_In, in_map_iff in Hin as ([kc' m] & E & Hin). cbn in E. subst kc'.
  apply modifier_sym in Hin as (_ & sym' & l1 & Hin & E1). apply candidates_sym in Hkc as (_ & l2 & E2). cbn in E1. rewrite E1 in E2. injection E2 as -> _. by apply Hs, list_elem_of_In.
Qed.
Lemma gather_sublist mask l : forall got keys, exists chosen, sublist chosen l /\ (gather mask l got keys).2 = keys ++ ((fun km => u16 (evdev km.1)) <$> chosen).
Proof.
  induction l as [|[kc m] l IH]; intros got keys; cbn [gather]; [exists []; cbn; split; [done | by rewrite app_nil_r]|]. destruct (_ || _).
  - destruct (IH got keys) as (ch & Hs & ->). exists ch. split; [by constructor | done].
  - destruct (IH (Z.lor got m) (keys ++ [u16 (evdev kc)])) as (ch & Hs & ->). exists ((kc, m) :: ch). split; [by constructor | cbn; by rewrite <- app_assoc].
Qed.
Lemma sublist_map {A B} (f : A -> B) l l' : sublist l l' -> sublist (f <$> l) (f <$> l').
Proof. by induction 1; constructor. Qed.
Lemma first_mask_chosen masks mods : first_mask masks = Some mods -> exists chosen, sublist chosen modifier_keys /\ mods = (fun km => u16 (evdev km.1)) <$> chosen.
Proof.
  induction masks as [|m masks IH]; cbn [first_mask]; [done|]. destruct (negb _); [done|]. unfold keys_for. destruct (gather_sublist m modifier_keys 0 []) as (ch & Hs & E). destruct (gather m modifier_keys 0 []) as [got keys]. cbn in E.
  destruct (got =? m); [|done]. intros [= <-]. by exists ch.
Qed.
Lemma code_inj kc kc' : evdev_keymap K -> In kc keycodes -> In kc' keycodes -> u16 (evdev kc) = u16 (evdev kc') -> kc = kc'.
Proof. intros [H1 H2] Hk%keycodes_In Hk'%keycodes_In. unfold u16, evdev, u32, EVDEV_OFFSET. rewrite !(Z.mod_small _ (2 ^ 32)), !Z.mod_small by lia. lia. Qed.
Lemma lookup_distinct cp layout s : evdev_keymap K -> lookup cp layout = Some s -> distinct_keys s.
Proof.
  intros He. unfold lookup. set (c := if cp =? 10 then 13 else cp). set (l := if _ <=? layout then _ else _).
  pose proof (scan_keys_best c l keycodes [] None keycodes_sorted (fun _ _ _ F => match F with end)) as H. cbn [app] in H. destruct (scan_keys c l keycodes None) as [[lv s']|]; [|done]. intros [= <-].
  destruct H as (kc & mods & Hk & (Hm & _ & Hr) & -> & _). unfold reach in Hr. destruct (syms_by_level kc l lv) as [|sy [|]]; try done. destruct (_ =? c); [|done].
  apply first_mask_chosen in Hr as (ch & Hs & ->). unfold distinct_keys, stroke. cbn. assert (forall km, km ∈ ch -> km ∈ modifier_keys) as Hin by (intros km Hx; by eapply elem_of_sublist). assert (forall km, km ∈ ch -> In km.1 keycodes) as Hkm.
  { intros km Hkm%Hin. apply list_elem_of_In, modifier_sym in Hkm. by destruct Hkm. }
  constructor.
  - intros Hx. apply list_elem_of_fmap in Hx as (km & E & Hx). apply code_inj in E; [|done | done | by apply Hkm]. subst kc. apply not_true_iff_false in Hm. apply Hm, existsb_exists. exists km. split; [by apply list_elem_of_In, Hin | apply Z.eqb_refl].
  - assert (NoDup ch.*1) as Hnd by (eapply sublist_NoDup; [apply modifier_keys_nodup|]; by apply sublist_map). revert Hnd Hkm. clear -He. induction ch as [|km ch IH]; cbn; intros Hnd Hkm; [constructor|]. apply NoDup_cons in Hnd as [Hn Hnd]. constructor; [|apply IH; [done | set_solver]].
    intros (km' & E & Hx)%list_elem_of_fmap. apply code_inj in E; [|done | apply Hkm; set_solver | apply Hkm; set_solver]. apply Hn. rewrite E. apply list_elem_of_fmap. by exists km'.
Qed.
End Strokes.

(** ** A text, whole or not at all *)
Definition no_key (K : Xkb) (layout : Z) (cps : list Z) (u : list Z) : Prop := exists cp, In cp cps /\ lookup cp layout = None /\ u = encode_utf8 cp.
Lemma no_key_cons K layout cp cps u : no_key K layout (cp :: cps) u <-> lookup cp layout = None /\ u = encode_utf8 cp \/ no_key K layout cps u.
Proof. unfold no_key. cbn. naive_solver. Qed.
Lemma strokes_spec K layout cps : forall ss un, NoDup un -> let r := strokes_of K layout cps ss un in
  r.1 = ss ++ omap (fun cp => lookup cp layout) cps /\ NoDup r.2 /\ forall u, In u r.2 <-> In u un \/ no_key K layout cps u.
Proof.
  induction cps as [|cp cps IH]; intros ss un Hnd; cbn [strokes_of]; [split_and!; [by rewrite app_nil_r | done | unfold no_key; naive_solver]|]. setoid_rewrite no_key_cons.
  change (omap (fun cp => lookup cp layout) (cp :: cps)) with (match lookup cp layout with Some s => s :: omap (fun cp => lookup cp layout) cps | None => omap (fun cp => lookup cp layout) cps end).
  destruct (lookup cp layout) as [s|] eqn:El.
  - destruct (IH (ss ++ [s]) un Hnd) as (H1 & H2 & H3). split_and!; [by rewrite H1, <- app_assoc | done|]. intros u. rewrite H3. naive_solver.
  - destruct (existsb _ un) eqn:Ex.
    + destruct (IH ss un Hnd) as (H1 & H2 & H3). split_and!; [done | done|]. intros u. rewrite H3. apply existsb_exists in Ex as (x & Hx & Hb). apply bool_decide_eq_true in Hb as ->. naive_solver.
    + assert (~ In (encode_utf8 cp) un) as Hn by (intros Hin; apply not_true_iff_false in Ex; apply Ex, existsb_exists; exists (encode_utf8 cp); split; [done | by apply bool_decide_eq_true]).
      destruct (IH ss (un ++ [encode_utf8 cp])) as (H1 & H2 & H3); [apply NoDup_app; split_and!; [done | intros x Hx ->%list_elem_of_singleton; by apply Hn, list_elem_of_In | apply NoDup_singleton]|]. split_and!; [done | done|].
      intros u. rewrite H3, in_app_iff. cbn. naive_solver.
Qed.
Definition typable (K : Xkb) (layout cp : Z) : bool := match lookup cp layout with Some _ => true | None => false end.
Lemma typable_strokes K layout cps : forallb (typable K layout) cps = true -> Forall2 (fun cp s => lookup cp layout = Some s) cps (omap (fun cp => lookup cp layout) cps).
Proof.
  induction cps as [|cp cps IH]; cbn; [constructor|]. unfold typable at 1. destruct (lookup cp layout) as [s|] eqn:E; [|done]. intros H. constructor; [done | by apply IH].
Qed.
(** C12: A text is typed whole or not at all. In any state the input can be in, with a keyboard [d] and a keymap of
    evdev codes: if every character of the text has a key, first the keys and buttons that are
    down go up, then each character is typed in its turn by the keys found for it, its modifiers
    pressed before and released after in the other order, and nothing is left down; otherwise nothing at
    all is sent, nothing changes, and the characters without a key are reported, each once. *)
Theorem text_typed_whole ins d K utf8 : let e := eis_run ins in device CapKeyboard e = Some d -> keymap e = Some K -> evdev_keymap K ->
  let cps := decode_utf8 utf8 in let '(e', r) := type_text utf8 e in
  if forallb (typable K (group e)) cps then
    exists strokes, Forall2 (fun cp s => lookup cp (group e) = Some s) cps strokes /\ r = Ok ([], ""%string) /\ held_keys e' = [] /\ held_buttons e' = []
      /\ calls e' = calls e ++ released d e ++ flat_map (presses d) strokes
  else e' = e /\ exists un, r = Ok (un, ""%string) /\ NoDup un /\ un <> [] /\ forall u, In u un <-> no_key K (group e) cps u.
Proof.
  intros e Hd Hk Hev cps. pose proof (run_held ins) as Hwf. fold e in Hwf. unfold type_text. erewrite bind_ok by reflexivity. rewrite Hd, Hk. fold cps.
  destruct (strokes_spec K (group e) cps [] []) as (H1 & H2 & H3); [constructor|]. destruct (strokes_of K (group e) cps [] []) as [ss un]. cbn in H1, H2, H3. destruct (forallb (typable K (group e)) cps) eqn:Ef.
  - assert (un = []) as ->.
    { destruct un as [|u un]; [done|]. destruct (proj1 (H3 u)) as [[]|(cp & Hin & Hno & _)]; [by left|]. rewrite forallb_forall in Ef. specialize (Ef cp Hin). unfold typable in Ef. by rewrite Hno in Ef. }
    cbn [length Nat.eqb negb]. rewrite (bind_ok _ _ _ _ _ (release_all_calls d e Hwf Hd)). pose proof (typable_strokes _ _ _ Ef) as Hf2. rewrite <- H1 in Hf2.
    assert (Forall distinct_keys ss) as Hss by (clear -Hf2 Hev; induction Hf2; constructor; [by eapply lookup_distinct | done]).
    match goal with |- context [bind (for_each ss type_stroke) _ ?x] => rewrite (bind_ok _ _ _ _ _ (strokes_typed d ss x Hd eq_refl Hss)) end. cbn. exists ss. split_and!; try done. by rewrite <- app_assoc.
  - assert (exists cp, In cp cps /\ typable K (group e) cp = false) as (cp & Hin & Hno).
    { clear -Ef. induction cps as [|c cps IH]; [done|]. cbn in Ef. destruct (typable K (group e) c) eqn:Ec; [|exists c; split; [by left | done]]. destruct (IH Ef) as (cp & ? & ?). exists cp. split; [by right | done]. }
    assert (In (encode_utf8 cp) un) as Hu by (apply H3; right; exists cp; split_and!; [done | unfold typable in Hno; by destruct (lookup cp (group e)) | done]).
    destruct un as [|u un]; [done|]. cbn [length Nat.eqb negb]. split; [done|]. eexists. split_and!; [done | done | done|]. intros x. rewrite H3. tauto.
Qed.
(** A keyboard with one letter and a shift key. *)
Definition one_letter : Xkb := {|
  min_keycode := 8; max_keycode := 60; num_layouts := 1;
  num_levels := fun kc _ => if kc =? 38 then 2%nat else if kc =? 50 then 1%nat else 0%nat;
  syms_by_level := fun kc _ level => if kc =? 50 then [0xffe1] else if kc =? 38 then match level with O => [97] | _ => [65] end else [];
  keysym_to_utf32 := fun s => if s <? 128 then s else 0;
  mods_for_level := fun kc _ level => if kc =? 38 then match level with O => [0] | _ => [1] end else [0];
  mod_index := fun _ => None;
  mods_of_key := fun kc => if kc =? 50 then 1 else 0 |}.
(** A key is held while "aA" is typed. *)
Definition typing_ins : list EisIn := [EIAttach true [EvSeatAdded; EvDeviceAdded 1 [CapKeyboard; CapButton] (KText (Some one_letter)); EvDeviceResumed 1]; EIKey 29 true].
Lemma text_typed_whole_witness : device CapKeyboard (eis_run typing_ins) = Some 1 /\ exists strokes,
  Forall2 (fun cp s => @lookup one_letter cp 0 = Some s) [97; 65] strokes
  /\ calls (type_text [97; 65] (eis_run typing_ins)).1 = calls (eis_run typing_ins) ++ [CKey 1 29 false] ++ flat_map (presses 1) strokes.
Proof.
  split; [by vm_compute|]. pose proof (text_typed_whole typing_ins 1 one_letter [97; 65] ltac:(by vm_compute) ltac:(by vm_compute)) as H. specialize (H ltac:(split; by vm_compute)). cbn zeta in H.
  change (group (eis_run typing_ins)) with 0 in H. change (decode_utf8 [97; 65]) with [97; 65] in H. change (released 1 (eis_run typing_ins)) with [CKey 1 29 false] in H.
  destruct (type_text [97; 65] (eis_run typing_ins)) as [e' r]. assert (forallb (typable one_letter 0) [97; 65] = true) as Hf by by vm_compute. rewrite Hf in H. destruct H as (ss & H1 & _ & _ & _ & H2). exists ss. by split.
Defined.
