(* ===== verification/X11Clipboard.v ===== *)
(** * X11Clipboard: the CLIPBOARD selection (modules/desktop-x11/clipboard.cpp)

    Reads convert the selection into a property of the module's window, writes own it and answer the
    requests of other clients; large contents go in chunks, both ways (INCR). The X server is the
    environment: atoms are numbers given by [intern], an event carries the value of the property it
    announces, and the requests made of the server are kept in order with the callbacks. Reads and
    writes carry a number of the caller's. A callback does not call back into the clipboard. *)

From Stdlib Require Import ZArith Lia Strings.Byte Ascii String.
From stdpp Require Import base list strings pretty relations.
From S2P Require Import Prelude Monad StdMap DesktopTables.

Definition INCR_THRESHOLD : Z := 256 * 1024.
Definition TARGETS_MAX : Z := 64 * 1024.
(** Atoms, by name and back. *)
Class Atoms := { intern : string -> Z; atom_name : Z -> option string }.
Definition NONE : Z := 0.
Definition XA_ATOM : Z := 4.
Definition XA_INTEGER : Z := 19.

(** ** Properties *)
(** A property's type and items, of one byte, two, or four on the wire. *)
Inductive Items := I8 (l : list byte) | I16 (l : list Z) | I32 (l : list Z).
Record Property := { p_type : Z; p_items : Items }.
Definition wire_bytes (i : Items) : Z := match i with I8 l => zlen l | I16 l => 2 * zlen l | I32 l => 4 * zlen l end.
Definition first_bytes (n : Z) (i : Items) : Items :=
  match i with I8 l => I8 (take (Z.to_nat n) l) | I16 l => I16 (take (Z.to_nat (n / 2)) l) | I32 l => I32 (take (Z.to_nat (n / 4)) l) end.
Fixpoint le_bytes (n : nat) (z : Z) : list byte := match n with O => [] | S n' => Zbyte z :: le_bytes n' (Z.shiftr z 8) end.
(** What Xlib hands over: shorts and longs at their width in memory. *)
Definition in_memory (i : Items) : list byte := match i with I8 l => l | I16 l => flat_map (le_bytes 2) l | I32 l => flat_map (le_bytes 8) l end.
Fixpoint of_le (l : list byte) : Z := match l with [] => 0 | b :: l' => byteZ b + 256 * of_le l' end.
(** The longs of a buffer; what is left at the end is no long. *)
Fixpoint longs (fuel : nat) (l : list byte) : list Z :=
  match fuel with O => [] | S fuel' => if Nat.ltb (length l) 8 then [] else of_le (take 8 l) :: longs fuel' (drop 8 l) end.
Inductive Taken := TFailed | TTooBig | TBytes (type : Z) (bytes : list byte).
(** [None]: the server refused. An absent property has no type and no bytes. *)
Definition take_property (p : option Property) (max : Z) : Taken :=
  match p with
  | None => TFailed
  | Some p =>
    let limit := 4 * (max / 4 + 1) in
    let after := wire_bytes (p_items p) - Z.min (wire_bytes (p_items p)) limit in
    let out := in_memory (first_bytes limit (p_items p)) in
    if (0 <? after) || (match p_items p with I8 _ => true | _ => false end && (max <? zlen out)) then TTooBig else TBytes (p_type p) out
  end.

(** ** The clipboard *)
Record Fetch := { announce : bool; f_type : string; f_max : Z; f_done : option nat; data_phase : bool; f_incr : bool; f_buffer : list byte }.
Record SendOut := { requestor : Z; s_property : Z; s_type : Z; s_data : list byte; s_offset : Z; finished : bool; s_id : Z }.
Inductive XCall :=
| XConvert (target : Z) | XDelete | XChange (w property : Z) (p : Property) | XSelectInput (w : Z) (on : bool) | XNotify (w property : Z) | XOwn (t : Z)
| CChanged (types : list string) | CReadAsked (k : nat) | CReadDone (k : nat) (r : option (list byte)) (why : string) | CWriteDone (k : nat) (ok : bool) (why : string).
Record Clip := {
  dpy : bool; win : Z; fetches : list Fetch; fetch_timer : bool; owning : bool; owned_time : Z; owned_type : string; owned : list (Z * list byte);
  sends : list SendOut; next_send : Z; c_log : list XCall
}.
Definition new_clip : Clip := {| dpy := false; win := 0; fetches := []; fetch_timer := false; owning := false; owned_time := 0; owned_type := ""; owned := []; sends := []; next_send := 0; c_log := [] |}.
#[local] Abbreviation C := (Prog Clip).
Definition c_upd (f : Clip -> Clip) : C unit := modify f.
Definition c_put (c : XCall) : C unit := c_upd (fun s => {| s with c_log := c_log s ++ [c] |}).

Section Clipboard.
Context `{A : Atoms}.
Definition clipboard_ : Z := intern "CLIPBOARD".
Definition targets_ : Z := intern "TARGETS".
Definition timestamp_ : Z := intern "TIMESTAMP".
Definition incr_ : Z := intern "INCR".
Definition utf8_ : Z := intern "UTF8_STRING".
Definition text_ : Z := intern "TEXT".
Definition prop_ : Z := intern "FJARR_CLIPBOARD".

Definition x_attach (w : Z) : C unit := c_upd (fun s => {| s with dpy := true; win := w |}).
Definition x_detach (why : string) (notify : bool) : C unit :=
  do s <- get;
  c_upd (fun s => {| s with dpy := false; win := 0; fetch_timer := false; sends := []; owning := false; owned := []; fetches := [] |}) ;;
  for_each (fetches s) (fun f => match f_done f with Some k => when notify (c_put (CReadDone k None why)) | None => ret tt end).

(** *** Reading *)
Definition arm_timer : C unit := c_upd (fun s => {| s with fetch_timer := true |}).
Definition start_next : C unit :=
  do s <- get; if negb (dpy s) || fetch_timer s || Nat.eqb (length (fetches s)) 0 then ret tt else c_put (XConvert targets_) ;; arm_timer.
Definition finish (bytes : option (list byte)) (error : string) : C unit :=
  c_upd (fun s => {| s with fetch_timer := false |}) ;;
  do s <- get;
  match fetches s with
  | [] => ret tt
  | f :: rest =>
    c_upd (fun s => {| s with fetches := rest |}) ;;
    when (f_incr f && dpy s) (c_put XDelete) ;;
    match f_done f with Some k => c_put (CReadDone k bytes error) | None => ret tt end ;;
    start_next
  end.
Definition x_read (k : nat) (type : string) (max : Z) : C unit :=
  c_put (CReadAsked k) ;;
  do s <- get;
  if negb (dpy s) then c_put (CReadDone k None "the X display is not open")
  else if owning s then
    match (match compositor_names type with [] => None | n :: _ => sm_find (intern n) (owned s) end) with
    | Some data =>
      if negb (String.eqb type (owned_type s)) then c_put (CReadDone k None ("the robot's clipboard offers no '" +:+ type +:+ "'"))
      else if max <? zlen data then c_put (CReadDone k None ("larger than " +:+ pretty max +:+ " bytes"))
      else c_put (CReadDone k (Some data) "")
    | None => c_put (CReadDone k None ("the robot's clipboard offers no '" +:+ type +:+ "'"))
    end
  else
    c_upd (fun s => {| s with fetches := fetches s ++ [{| announce := false; f_type := type; f_max := max; f_done := Some k; data_phase := false; f_incr := false; f_buffer := [] |}] |}) ;; start_next.
Definition set_front (f : Fetch) : C unit := c_upd (fun s => {| s with fetches := match fetches s with [] => [] | _ :: rest => f :: rest end |}).
Definition too_large (f : Fetch) : string := "larger than " +:+ pretty (f_max f) +:+ " bytes".
Definition taking (p : option Property) (max : Z) : C Taken := when (match take_property p max with TTooBig => true | _ => false end) (c_put XDelete) ;; ret (take_property p max).
Definition target_names (t : Taken) : list string :=
  match t with TBytes _ raw => omap (fun a => if a =? NONE then None else atom_name a) (longs (length raw) raw) | _ => [] end.
(** [property]: where the owner says the answer is; [p]: what is there. *)
Definition on_selection_notify (selection property : Z) (p : option Property) : C unit :=
  do s <- get;
  match fetches s with
  | [] => ret tt
  | f :: _ =>
    if negb (selection =? clipboard_) then ret tt
    else if property =? NONE then
      if data_phase f then finish None ("the robot's clipboard owner would not give '" +:+ f_type f +:+ "'")
      else if announce f then c_put (CChanged []) ;; finish None "" else finish None "the robot's clipboard is empty"
    else if negb (data_phase f) then
      do raw <- taking p TARGETS_MAX;
      let names := target_names raw in
      if announce f then c_put (CChanged (fjarr_types names)) ;; finish None ""
      else
        let target := compositor_type_for (f_type f) names in
        if String.eqb target "" then finish None ("the robot's clipboard offers no '" +:+ f_type f +:+ "'")
        else set_front {| f with data_phase := true |} ;; c_put (XConvert (intern target)) ;; arm_timer
    else
      do raw <- taking p (f_max f);
      match raw with
      | TTooBig => finish None (too_large f)
      | TFailed => finish None "the robot's clipboard could not be read"
      | TBytes type raw =>
        if type =? incr_ then set_front {| f with f_incr := true; f_buffer := [] |} ;; arm_timer
        else finish (Some raw) ""
      end
  end.
Definition on_incoming_chunk (p : option Property) : C unit :=
  do s <- get;
  match fetches s with
  | [] => ret tt
  | f :: _ =>
    do raw <- taking p (f_max f - Z.min (f_max f) (zlen (f_buffer f)));
    match raw with
    | TTooBig => finish None (too_large f)
    | TFailed => finish None "the robot's clipboard could not be read"
    | TBytes _ [] => set_front {| f with f_incr := false; f_buffer := [] |} ;; finish (Some (f_buffer f)) ""
    | TBytes _ raw => set_front {| f with f_buffer := f_buffer f ++ raw |} ;; arm_timer
    end
  end.

(** *** Writing and serving *)
(** [t]: the server's time; [took]: the server made us the owner. *)
Definition x_write (k : nat) (type : string) (bytes : list byte) (t : Z) (took : bool) : C unit :=
  do s <- get;
  let names := compositor_names type in
  if negb (dpy s) then c_put (CWriteDone k false "the X display is not open")
  else if Nat.eqb (length names) 0 || (max_bytes type =? 0) then c_put (CWriteDone k false ("the clipboard takes text/plain or image/png, not " +:+ type))
  else if max_bytes type <? zlen bytes then c_put (CWriteDone k false ("larger than " +:+ pretty (max_bytes type) +:+ " bytes"))
  else
    c_put (XOwn t) ;;
    if negb took then c_put (CWriteDone k false "another X client took the clipboard first")
    else
      c_upd (fun s => {| s with owned := foldl (fun m n => sm_set (intern n) bytes m) [] names; owned_type := type; owned_time := t; owning := true |}) ;;
      c_put (CWriteDone k true "").
Definition on_request (r_requestor selection target property time : Z) : C unit :=
  do s <- get;
  let prop := if property =? NONE then target else property in
  let ours := owning s && (selection =? clipboard_) && ((time =? 0) || (owned_time s <=? time)) in
  if ours && (target =? targets_) then
    c_put (XChange r_requestor prop {| p_type := XA_ATOM; p_items := I32 ([targets_; timestamp_] ++ map fst (owned s)) |}) ;; c_put (XNotify r_requestor prop)
  else if ours && (target =? timestamp_) then
    c_put (XChange r_requestor prop {| p_type := XA_INTEGER; p_items := I32 [owned_time s] |}) ;; c_put (XNotify r_requestor prop)
  else match (if ours then sm_find target (owned s) else None) with
       | None => c_put (XNotify r_requestor NONE)
       | Some data =>
         let type := if target =? text_ then utf8_ else target in
         (if zlen data <=? INCR_THRESHOLD then c_put (XChange r_requestor prop {| p_type := type; p_items := I8 data |})
          else
            c_put (XSelectInput r_requestor true) ;;
            c_put (XChange r_requestor prop {| p_type := incr_; p_items := I32 [zlen data] |}) ;;
            c_upd (fun s => {| s with next_send := next_send s + 1;
                                      sends := sends s ++ [{| requestor := r_requestor; s_property := prop; s_type := type; s_data := data; s_offset := 0; finished := false; s_id := next_send s + 1 |}] |})) ;;
         c_put (XNotify r_requestor prop)
       end.
(** The next chunk: at most the threshold, and the last one empty. *)
Definition chunk (s : SendOut) : list byte := take (Z.to_nat (Z.min INCR_THRESHOLD (zlen (s_data s) - s_offset s))) (drop (Z.to_nat (s_offset s)) (s_data s)).
Definition send_chunk (s : SendOut) : SendOut :=
  let n := Z.min INCR_THRESHOLD (zlen (s_data s) - s_offset s) in {| s with s_offset := s_offset s + n; finished := n =? 0 |}.
Definition drop_send (before after : list SendOut) (s : SendOut) : C unit :=
  c_upd (fun c => {| c with sends := before ++ after |}) ;;
  do c <- get; when (dpy c && negb (existsb (fun x => requestor x =? requestor s) (before ++ after))) (c_put (XSelectInput (requestor s) false)).
(** The transfer with a property of a window: the first such. *)
Fixpoint split_send (f : SendOut -> bool) (l : list SendOut) : option (list SendOut * SendOut * list SendOut) :=
  match l with [] => None | s :: l' => if f s then Some ([], s, l') else match split_send f l' with Some (b, x, a) => Some (s :: b, x, a) | None => None end end.
Definition on_property_deleted (w property : Z) : C bool :=
  do c <- get;
  match split_send (fun s => (requestor s =? w) && (s_property s =? property)) (sends c) with
  | None => ret false
  | Some (before, s, after) =>
    c_put (XChange w property {| p_type := s_type s; p_items := I8 (chunk s) |}) ;;
    let s' := send_chunk s in
    (if finished s' then drop_send before after s' else c_upd (fun c => {| c with sends := before ++ s' :: after |})) ;;
    ret true
  end.
(** A requestor that stopped deleting. *)
Definition send_timeout (id : Z) : C unit :=
  do c <- get; match split_send (fun s => s_id s =? id) (sends c) with None => ret tt | Some (before, s, after) => drop_send before after s end.

(** *** Events *)
Inductive XEvent :=
| XFixesOwner (selection owner : Z) | XSelectionNotify (w selection property : Z) (p : option Property) | XSelectionRequest (owner requestor selection target property time : Z)
| XSelectionClear (w selection : Z) | XPropertyNew (w property : Z) (p : option Property) | XPropertyDelete (w property : Z) | XOther.
Definition x_handle (e : XEvent) : C bool :=
  do s <- get;
  if negb (dpy s) then ret false
  else match e with
       | XFixesOwner selection owner =>
         if negb (selection =? clipboard_) || (owner =? win s) then ret true
         else if owner =? NONE then c_put (CChanged []) ;; ret true
         else c_upd (fun s => {| s with fetches := fetches s ++ [{| announce := true; f_type := ""; f_max := 0; f_done := None; data_phase := false; f_incr := false; f_buffer := [] |}] |}) ;; start_next ;; ret true
       | XSelectionNotify w selection property p => if negb (w =? win s) then ret false else on_selection_notify selection property p ;; ret true
       | XSelectionRequest owner r selection target property time => if negb (owner =? win s) then ret false else on_request r selection target property time ;; ret true
       | XSelectionClear w selection =>
         if negb (w =? win s) || negb (selection =? clipboard_) then ret false else c_upd (fun s => {| s with owning := false; owned := [] |}) ;; ret true
       | XPropertyNew w property p =>
         if w =? win s then when ((property =? prop_) && match fetches s with f :: _ => f_incr f | [] => false end) (on_incoming_chunk p) ;; ret true else ret false
       | XPropertyDelete w property => if w =? win s then ret true else on_property_deleted w property
       | XOther => ret false
       end.
Inductive CInput :=
| CIAttach (w : Z) | CIDetach (why : string) (notify : bool) | CIEvent (e : XEvent) | CIRead (k : nat) (type : string) (max : Z)
| CIWrite (k : nat) (type : string) (bytes : list byte) (t : Z) (took : bool) | CIFetchTimeout | CISendTimeout (id : Z).
Definition c_step (i : CInput) : C unit :=
  match i with
  | CIAttach w => x_attach w
  | CIDetach why notify => x_detach why notify
  | CIEvent e => do _ <- x_handle e; ret tt
  | CIRead k type max => x_read k type max
  | CIWrite k type bytes t took => x_write k type bytes t took
  | CIFetchTimeout => do s <- get; when (fetch_timer s) (finish None "the robot's clipboard owner did not answer within 5 s")
  | CISendTimeout id => send_timeout id
  end.
Definition c_run (ins : list CInput) : Clip := foldl (fun s i => (c_step i s).1) new_clip ins.
End Clipboard.
