(* ===== verification/X11ClipboardProofs.v ===== *)
(** * X11ClipboardProofs: nothing waits forever, and what is copied is what is pasted

    Each read of the clipboard is answered once; while one waits, the timer that ends it runs. A content
    served by one side of the module and read by the other arrives whole, in one property or in
    chunks. *)

From Stdlib Require Import ZArith Lia Strings.Byte Ascii String.
From stdpp Require Import base list strings pretty relations.
From S2P Require Import Prelude Monad StdMap DesktopTables X11Clipboard.

(** ** Reads *)
Definition asks (k : nat) (c : XCall) : Z := match c with CReadAsked k' => if Nat.eqb k' k then 1 else 0 | _ => 0 end.
Definition tells (k : nat) (c : XCall) : Z := match c with CReadDone k' _ _ => if Nat.eqb k' k then 1 else 0 | _ => 0 end.
Definition total {X} (f : X -> Z) (l : list X) : Z := foldr (fun x n => f x + n) 0 l.
Definition waits (k : nat) (f : Fetch) : Z := match f_done f with Some k' => if Nat.eqb k' k then 1 else 0 | None => 0 end.
Lemma total_app {X} (f : X -> Z) l l' : total f (l ++ l') = total f l + total f l'.
Proof. unfold total. induction l as [|x l IH]; cbn; [done|]. rewrite IH. lia. Qed.
Lemma total_cons {X} (f : X -> Z) x l : total f (x :: l) = f x + total f l.
Proof. done. Qed.
Lemma total_nil {X} (f : X -> Z) : total f [] = 0.
Proof. done. Qed.
#[local] Arguments total : simpl never.
Definition owes (k : nat) (s : Clip) : Z := total (asks k) (c_log s) - total (tells k) (c_log s) - total (waits k) (fetches s).
Definition level (s s' : Clip) : Prop := forall k, owes k s' = owes k s.
#[export] Instance level_preorder : PreOrder level.
Proof. split; [by intros s k | intros a b c H1 H2 k; by rewrite H2]. Qed.
Definition silent (c : XCall) : bool := match c with CReadAsked _ | CReadDone _ _ _ => false | _ => true end.
Lemma put_level c : silent c = true -> respects level (c_put c).
Proof. intros Hc s k. unfold owes. cbn. rewrite !total_app, !total_cons, !total_nil. destruct c; try done; cbn; lia. Qed.
Lemma upd_level f : (forall s, fetches (f s) = fetches s /\ c_log (f s) = c_log s) -> respects level (c_upd f).
Proof. intros Hf s k. destruct (Hf s) as [E1 E2]. unfold owes. cbn. by rewrite E1, E2. Qed.
(** While a fetch waits, the display is open and the timer runs; and only then. *)
Definition attended (s : Clip) : Prop := fetch_timer s = negb (Nat.eqb (length (fetches s)) 0) /\ (dpy s = false -> fetches s = []).

Section Reads.
Context `{A : Atoms}.
Create HintDb x11.
Ltac lvl := repeat first [ solve [auto with x11 nocore] | respects_step | by apply put_level | by apply upd_level ].
Lemma start_level : respects level start_next.
Proof. unfold start_next, arm_timer. lvl. Qed.
#[local] Hint Resolve start_level : x11.
Lemma finish_level r why : respects level (finish r why).
Proof.
  intros s. unfold finish. erewrite bind_ok by reflexivity. etrans; [apply (upd_level (fun s => {| s with fetch_timer := false |})); by intros|]. cbn [c_upd modify fst]. generalize {| s with fetch_timer := false |}. clear s. intros s.
  erewrite bind_ok by reflexivity. destruct (fetches s) as [|f rest] eqn:Ef; [done|]. erewrite bind_ok by reflexivity. match goal with |- level _ (_ ?x).1 => set (s1 := x) end.
  assert (forall k, owes k s1 = owes k s + waits k f) as Hs1 by (intros k; unfold owes; cbn; rewrite Ef, total_cons; lia).
  assert (exists s2, when (f_incr f && dpy s) (c_put XDelete) s1 = (s2, Ok tt) /\ level s1 s2) as (s2 & E2 & L2).
  { pose proof (respects_when level (f_incr f && dpy s) _ (put_level XDelete eq_refl) s1) as H. destruct (f_incr f && dpy s); eexists; (split; [reflexivity | exact H]). }
  rewrite (bind_ok _ _ _ _ _ E2). intros k. specialize (L2 k). rewrite Hs1 in L2. unfold waits in L2. destruct (f_done f) as [t|] eqn:Ed; erewrite bind_ok by reflexivity; rewrite (start_level _ k).
  - unfold owes in *. cbn. rewrite !total_app, !total_cons, !total_nil. cbn. lia.
  - lia.
Qed.
(** Nothing lost, nothing told twice, nothing left to wait unattended. *)
Definition fair (s s' : Clip) : Prop := level s s' /\ (attended s -> attended s').
#[local] Instance fair_preorder : PreOrder fair.
Proof. split; [by intros s | intros a b c [] []; split; [by etrans | auto]]. Qed.
Lemma put_fair c : silent c = true -> respects fair (c_put c).
Proof. intros Hc s. split; [by apply put_level | done]. Qed.
Lemma upd_fair f : (forall s, fetches (f s) = fetches s /\ c_log (f s) = c_log s /\ fetch_timer (f s) = fetch_timer s /\ dpy (f s) = dpy s) -> respects fair (c_upd f).
Proof. intros Hf s. destruct (Hf s) as (E1 & E2 & E3 & E4). split; [apply upd_level; intros s'; by destruct (Hf s') as (? & ? & _)|]. unfold attended. cbn. by rewrite E1, E3, E4. Qed.
(** [start_next] attends to what waits; [finish] leaves the rest attended. *)
Lemma start_attends s : fetch_timer s = false \/ attended s -> (dpy s = false -> fetches s = []) -> attended (start_next s).1.
Proof.
  intros Ht Hd. unfold start_next, arm_timer. erewrite bind_ok by reflexivity. destruct (dpy s) eqn:Ed; cbn [negb orb]; [|pose proof (Hd eq_refl) as Ef; split; [|done]; cbn; destruct Ht as [Ht|[Ht _]]; rewrite Ht, Ef; done].
  destruct (fetch_timer s) eqn:Et; cbn [orb]; [by destruct Ht as [|Ht]|]. destruct (Nat.eqb (length (fetches s)) 0) eqn:El; [split; cbn; [by rewrite Et, El | congruence]|].
  split; cbn; [by rewrite El | congruence].
Qed.
Lemma finish_attends r why s : (dpy s = false -> fetches s = []) -> attended (finish r why s).1.
Proof.
  intros Hd. unfold finish. do 2 erewrite bind_ok by reflexivity. cbn [fetches]. destruct (fetches s) as [|f rest] eqn:Ef; [by split; cbn; rewrite ?Ef|]. assert (dpy s = true) as Ed by (destruct (dpy s); [done | by discriminate Hd]).
  erewrite bind_ok by reflexivity. unfold when. destruct (f_incr f && dpy _); erewrite bind_ok by reflexivity; (destruct (f_done f); erewrite bind_ok by reflexivity; (apply start_attends; cbn; [by left | congruence])).
Qed.
Lemma finish_fair r why : respects fair (finish r why).
Proof. intros s. split; [apply finish_level|]. intros [_ Hd]. by apply finish_attends. Qed.
Lemma start_fair : respects fair start_next.
Proof. intros s. split; [apply start_level|]. intros Ha. apply start_attends; [by right | apply Ha]. Qed.
(** The fetch in front goes on, with a new lease. *)
Lemma renew_fair f f' rest s : fetches s = f :: rest -> f_done f' = f_done f -> fair s {| s with fetches := f' :: rest; fetch_timer := true |}.
Proof. intros Ef Ed. split; [intros k; unfold owes; cbn; rewrite Ef, !total_cons; unfold waits; by rewrite Ed|]. intros [_ Hd]. split; [done|]. cbn. intros H. by rewrite (Hd H) in Ef. Qed.
(** One more fetch waits. *)
Lemma queued f s : dpy s = true -> let s' := (start_next {| s with fetches := fetches s ++ [f] |}).1 in (forall k, owes k s' = owes k s - waits k f) /\ (attended s -> attended s').
Proof.
  intros Hd. split.
  - intros k. rewrite (start_level _ k). unfold owes. cbn. rewrite total_app, total_cons, total_nil. lia.
  - intros [Ht _]. destruct (fetch_timer s) eqn:Et; [|by apply start_attends; cbn; [left | congruence]].
    unfold start_next. erewrite bind_ok by reflexivity. cbn [dpy fetch_timer fetches]. rewrite Hd, ?Et. cbn [negb orb]. split; cbn; [|congruence]. rewrite ?Et, length_app. cbn. by rewrite Nat.add_comm.
Qed.
Lemma answered k r why s : fair s {| s with c_log := (c_log s ++ [CReadAsked k]) ++ [CReadDone k r why] |}.
Proof. split; [|done]. intros k'. unfold owes. cbn. rewrite !total_app, !total_cons, !total_nil. cbn. lia. Qed.
Lemma read_fair k type max : respects fair (x_read k type max).
Proof.
  intros s. unfold x_read. erewrite bind_ok by reflexivity. set (s0 := {| s with c_log := c_log s ++ [CReadAsked k] |}). erewrite bind_ok by reflexivity.
  destruct (dpy s0) eqn:Ed; cbn [negb]; [|exact (answered k _ _ s)]. destruct (owning s0).
  - destruct (match compositor_names type with [] => _ | _ => _ end) as [data|]; [|exact (answered k _ _ s)]. destruct (negb _); [exact (answered k _ _ s)|]. destruct (_ <? _); exact (answered k _ _ s).
  - erewrite bind_ok by reflexivity. match goal with |- context [fetches s0 ++ [?f]] => destruct (queued f s0 Ed) as [H1 H2] end. split.
    + intros k'. etrans; [apply H1|]. subst s0. unfold owes, waits. cbn. rewrite !total_app, !total_cons, !total_nil. cbn. lia.
    + intros Ha. by apply H2.
Qed.
Ltac fr := repeat first [ solve [auto with x11 nocore] | respects_step | by apply put_fair | by apply upd_fair ].
#[local] Hint Resolve finish_fair start_fair read_fair : x11.
Lemma taking_ok p max s : exists s', taking p max s = (s', Ok (take_property p max)) /\ fair s s' /\ fetches s' = fetches s.
Proof.
  unfold taking, when. destruct (match take_property p max with TTooBig => true | _ => false end); (eexists; split; [reflexivity|]; split; [|done]); [by apply (put_fair XDelete) | done].
Qed.
Lemma renewed f f' rest s : fetches s = f :: rest -> f_done f' = f_done f -> fair s ((set_front f' ;; arm_timer) s).1.
Proof. intros Ef Ed. unfold set_front, arm_timer. cbn. rewrite Ef. by apply (renew_fair f). Qed.
Lemma notify_fair selection property p : respects fair (on_selection_notify selection property p).
Proof.
  intros s. unfold on_selection_notify. erewrite bind_ok by reflexivity. destruct (fetches s) as [|f rest] eqn:Ef; [done|]. destruct (negb (_ =? clipboard_)); [done|]. destruct (property =? NONE).
  { match goal with |- fair s (?m s).1 => enough (respects fair m) as H by apply H end. fr. }
  destruct (data_phase f) eqn:Edp; cbn [negb].
  - destruct (taking_ok p (f_max f) s) as (s1 & E1 & F1 & G1). rewrite (bind_ok _ _ _ _ _ E1). etrans; [exact F1|]. destruct (take_property p (f_max f)) as [| |type raw]; [apply finish_fair | apply finish_fair|].
    destruct (type =? incr_); [by apply (renewed f _ rest); [rewrite G1|] | apply finish_fair].
  - destruct (taking_ok p TARGETS_MAX s) as (s1 & E1 & F1 & G1). rewrite (bind_ok _ _ _ _ _ E1). etrans; [exact F1|]. cbn zeta. destruct (announce f).
    { match goal with |- fair s1 (?m s1).1 => enough (respects fair m) as H by apply H end. fr. }
    destruct (String.eqb _ ""); [apply finish_fair|]. unfold set_front, arm_timer. cbn. rewrite G1, Ef. match goal with |- fair s1 {| fetches := ?f' :: _ |} => etrans; [apply (renew_fair f f' rest); [by rewrite G1 | done]|] end.
    match goal with |- fair ?a {| c_log := _ ++ [?c] |} => exact (put_fair c eq_refl a) end.
Qed.
Lemma chunk_fair p : respects fair (on_incoming_chunk p).
Proof.
  intros s. unfold on_incoming_chunk. erewrite bind_ok by reflexivity. destruct (fetches s) as [|f rest] eqn:Ef; [done|].
  destruct (taking_ok p (f_max f - Z.min (f_max f) (zlen (f_buffer f))) s) as (s1 & E1 & F1 & G1). rewrite (bind_ok _ _ _ _ _ E1). etrans; [exact F1|].
  destruct (take_property p _) as [| |type [|b raw]]; [apply finish_fair | apply finish_fair | | by apply (renewed f _ rest); [rewrite G1|]].
  unfold set_front. erewrite bind_ok by reflexivity. etrans; [|apply finish_fair]. rewrite G1, Ef. split.
  - intros k. unfold owes. cbn. by rewrite G1, Ef.
  - unfold attended. cbn. rewrite G1, Ef. intros [Ht Hd]. split; [done|]. intros H. by discriminate Hd.
Qed.
#[local] Hint Resolve notify_fair chunk_fair : x11.
Lemma request_fair r selection target property time : respects fair (on_request r selection target property time).
Proof. unfold on_request. fr. Qed.
Lemma deleted_fair w property : respects fair (on_property_deleted w property).
Proof. unfold on_property_deleted, drop_send. fr. Qed.
#[local] Hint Resolve request_fair deleted_fair : x11.
Lemma start_normal : normal start_next.
Proof. unfold start_next, arm_timer, c_put, c_upd. repeat normal_step. Qed.
Lemma handle_fair e : respects fair (x_handle e).
Proof.
  intros s. unfold x_handle. erewrite bind_ok by reflexivity. destruct (dpy s) eqn:Ed; cbn [negb]; [|done].
  destruct e as [selection owner| | | | | |]; try solve [match goal with |- fair s (?m s).1 => enough (respects fair m) as H by apply H end; fr].
  destruct (negb (selection =? clipboard_) || (owner =? win s)); [done|]. destruct (owner =? NONE); [exact (put_fair (CChanged []) eq_refl s)|]. erewrite bind_ok by reflexivity.
  match goal with |- context [fetches s ++ [?f]] => destruct (queued f s Ed) as [H1 H2] end. unfold bind. match goal with |- fair s (match start_next ?x with _ => _ end).1 => destruct (start_normal x) as (s1 & [] & E1) end. rewrite E1 in *. split; [|exact H2].
  intros k. cbn. rewrite H1. unfold waits. cbn. lia.
Qed.
#[local] Hint Resolve handle_fair : x11.
Lemma tell_all why l : forall s, exists out, for_each l (fun f => match f_done f with Some k => when true (c_put (CReadDone k None why)) | None => ret tt end) s = ({| s with c_log := c_log s ++ out |}, Ok tt)
  /\ forall k, total (asks k) out = 0 /\ total (tells k) out = total (waits k) l.
Proof.
  induction l as [|f l IH]; intros s; cbn [for_each]; [exists []; split; [destruct s; cbn; by rewrite app_nil_r | done]|]. destruct (f_done f) as [t|] eqn:Ed; erewrite bind_ok by reflexivity.
  - match goal with |- context [for_each l _ ?x] => destruct (IH x) as (out & -> & Ht) end. exists (CReadDone t None why :: out). split; [cbn; by rewrite <- app_assoc|]. intros k. destruct (Ht k). rewrite !total_cons. unfold waits at 1. rewrite Ed. cbn. lia.
  - destruct (IH s) as (out & -> & Ht). exists out. split; [done|]. intros k. destruct (Ht k). rewrite total_cons. unfold waits at 1. rewrite Ed. lia.
Qed.
Lemma detach_fair why : respects fair (x_detach why true).
Proof.
  intros s. unfold x_detach. do 2 erewrite bind_ok by reflexivity. match goal with |- context [for_each (fetches s) _ ?x] => destruct (tell_all why (fetches s) x) as (out & -> & Ht) end. split; [|done].
  intros k. destruct (Ht k) as [H1 H2]. unfold owes. cbn. rewrite !total_app, H1, H2, total_nil. lia.
Qed.
#[local] Hint Resolve detach_fair : x11.
(** A detach that tells no one comes with the backend's end. *)
Definition telling (i : CInput) : Prop := match i with CIDetach _ notify => notify = true | _ => True end.
Lemma c_step_fair i : telling i -> respects fair (c_step i).
Proof.
  intros Hi. destruct i as [w|why notify|e|k type max|k type bytes t took| |id]; cbn [c_step]; [|cbn in Hi; subst notify; fr | fr | fr | unfold x_write; fr | fr | unfold send_timeout, drop_send; fr].
  intros s. split; [done|]. intros [H1 H2]. by split.
Qed.
(** A read of the robot's clipboard is answered once, and never waits unattended. In every run that
    does not end with the backend, for each caller's number, the reads asked are those
    answered and those queued; while any is queued the display is open and the 5 s timer that ends the
    first of them runs, and the queue is empty when the timer does not. *)
Theorem read_attended ins : Forall telling ins -> let s := c_run ins in
  (forall k, total (asks k) (c_log s) = total (tells k) (c_log s) + total (waits k) (fetches s))
  /\ (fetch_timer s = true <-> fetches s <> []) /\ (fetches s <> [] -> dpy s = true).
Proof.
  intros Hi s. assert (fair new_clip s) as [Hl Ha].
  { subst s. unfold c_run. induction ins as [|i ins IH] using rev_ind; [done|]. apply Forall_app in Hi as [Hi Hi']. rewrite foldl_app. etrans; [by apply IH|]. apply c_step_fair. by inversion Hi'. }
  destruct Ha as [Ht Hd]; [done|]. split_and!.
  - intros k. specialize (Hl k). change (owes k new_clip) with 0 in Hl. unfold owes in Hl. lia.
  - rewrite Ht. destruct (fetches s); cbn; naive_solver.
  - destruct (dpy s); [done|]. by rewrite Hd.
Qed.
End Reads.

(** ** A copy, pasted *)
Definition x_names : list string :=
  ["CLIPBOARD"; "TARGETS"; "TIMESTAMP"; "INCR"; "UTF8_STRING"; "TEXT"; "FJARR_CLIPBOARD"; "text/plain;charset=utf-8"; "text/plain"; "STRING"; "image/png"].
Section Paste.
Context `{A : Atoms}.
(** The server's atoms: positive, of 32 bits, and named back as they were. *)
Definition atoms_named : Prop := Forall (fun n => 0 < intern n < 2 ^ 32 /\ atom_name (intern n) = Some n) x_names.
Definition last_property (w property : Z) (l : list XCall) : option Property :=
  last (omap (fun c => match c with XChange w' p' p => if (w' =? w) && (p' =? property) then Some p else None | _ => None end) l).
Definition last_notify (l : list XCall) : Z := default NONE (last (omap (fun c => match c with XNotify _ p => Some p | _ => None end) l)).
Definition last_convert (l : list XCall) : option Z := last (omap (fun c => match c with XConvert t => Some t | _ => None end) l).
(** The reader's conversion reaches the owner [o], and the owner's answer the reader [r]. *)
Definition convert (o r : Clip) : Clip * Clip :=
  match last_convert (c_log r) with
  | None => (o, r)
  | Some t =>
    let o' := (x_handle (XSelectionRequest (win o) (win r) clipboard_ t prop_ 0) o).1 in
    (o', (x_handle (XSelectionNotify (win r) clipboard_ (last_notify (c_log o')) (last_property (win r) prop_ (c_log o'))) r).1)
  end.
(** Reading the property deleted it: the owner puts the next chunk there. *)
Definition next_chunk (o r : Clip) : Clip * Clip :=
  let o' := (x_handle (XPropertyDelete (win r) prop_) o).1 in (o', (x_handle (XPropertyNew (win r) prop_ (last_property (win r) prop_ (c_log o'))) r).1).
Fixpoint chunks (n : nat) (o r : Clip) : Clip * Clip :=
  match n with
  | O => (o, r)
  | S n' => if match fetches r with f :: _ => f_incr f | [] => false end then let '(o', r') := next_chunk o r in chunks n' o' r' else (o, r)
  end.
Definition paste (k : nat) (type : string) (max : Z) (n : nat) (o r : Clip) : Clip * Clip :=
  let '(o1, r1) := convert o (x_read k type max r).1 in let '(o2, r2) := convert o1 r1 in chunks n o2 r2.

(** *** Longs in memory *)
Lemma of_le_bytes n : forall z, 0 <= z < 2 ^ (8 * Z.of_nat n) -> of_le (le_bytes n z) = z.
Proof.
  induction n as [|n IH]; intros z Hz; cbn [le_bytes of_le]; [change (2 ^ (8 * Z.of_nat 0)) with 1 in Hz; lia|]. rewrite byteZ_Zbyte. unfold u8. rewrite Z.shiftr_div_pow2 by lia. rewrite IH.
  - pose proof (Z.div_mod z (2 ^ 8) ltac:(lia)). change 256 with (2 ^ 8). lia.
  - split; [apply Z.div_pos; lia|]. apply Z.div_lt_upper_bound; [lia|]. rewrite <- Z.pow_add_r by lia. replace (8 + 8 * Z.of_nat n) with (8 * Z.of_nat (S n)) by lia. lia.
Qed.
Lemma le_bytes_length n : forall z, length (le_bytes n z) = n.
Proof. induction n as [|n IH]; intros z; cbn; [done | by rewrite IH]. Qed.
Lemma longs_in_memory l : Forall (fun a => 0 <= a < 2 ^ 64) l -> forall fuel, (length l <= fuel)%nat -> longs fuel (flat_map (le_bytes 8) l) = l.
Proof.
  induction 1 as [|a l Ha Hl IH]; intros [|fuel] Hf; cbn [length flat_map longs] in *; try done; try lia. rewrite length_app, le_bytes_length. cbn [Nat.add Nat.ltb Nat.leb].
  rewrite take_app_length', drop_app_length' by (by rewrite le_bytes_length). rewrite of_le_bytes by done. by rewrite IH by lia.
Qed.
Lemma in_memory_length l : (length l <= length (flat_map (le_bytes 8) l))%nat.
Proof. induction l as [|a l IH]; cbn [flat_map length]; [done|]. rewrite length_app, le_bytes_length. lia. Qed.
(** *** A small list of atoms, and bytes within the limit, are taken whole *)
Lemma take_atoms type l : zlen l <= 16 -> Forall (fun a => 0 <= a < 2 ^ 64) l ->
  exists raw, take_property (Some {| p_type := type; p_items := I32 l |}) TARGETS_MAX = TBytes type raw /\ target_names (TBytes type raw) = omap (fun a => if a =? NONE then None else atom_name a) l.
Proof.
  intros Hl Ha. pose proof (zlen_nonneg l) as H0. unfold take_property, TARGETS_MAX. cbn [p_items p_type wire_bytes first_bytes andb orb]. change (4 * (64 * 1024 / 4 + 1)) with 65540. rewrite Z.min_l by lia. rewrite Z.sub_diag. cbn [Z.ltb Z.compare orb].
  eexists. split; [reflexivity|]. unfold target_names. cbn [in_memory]. rewrite take_ge by (unfold zlen in *; change (65540 / 4) with 16385; lia). by rewrite longs_in_memory by (done || apply in_memory_length).
Qed.
Lemma take_bytes type l max : zlen l <= max -> take_property (Some {| p_type := type; p_items := I8 l |}) max = TBytes type l.
Proof.
  intros Hl. pose proof (zlen_nonneg l) as H0. unfold take_property. cbn [p_items p_type wire_bytes first_bytes in_memory andb]. pose proof (Z.mul_succ_div_gt max 4 ltac:(lia)).
  rewrite Z.min_l by lia. rewrite Z.sub_diag. rewrite take_ge by (unfold zlen in *; lia). cbn [Z.ltb Z.compare orb]. by rewrite (proj2 (Z.ltb_ge _ _)) by lia.
Qed.
Lemma take_one type z max : 0 <= max -> exists raw, take_property (Some {| p_type := type; p_items := I32 [z] |}) max = TBytes type raw.
Proof.
  intros Hm. unfold take_property. cbn [p_items p_type wire_bytes andb]. change (4 * zlen [z]) with 4. pose proof (Z.div_pos max 4 Hm ltac:(lia)). rewrite Z.min_l by lia. rewrite Z.sub_diag. cbn [Z.ltb Z.compare orb]. by eexists.
Qed.
Lemma snoc_three {X} (l : list X) a b c : l ++ [a; b; c] = (l ++ [a]) ++ [b; c].
Proof. by rewrite <- app_assoc. Qed.
Lemma last_property_snoc w p l items l' : omap (fun c => match c with XChange w' p' p0 => if (w' =? w) && (p' =? p) then Some p0 else None | _ => None end) l' = [] ->
  last_property w p (l ++ XChange w p items :: l') = Some items.
Proof. intros Hl'. unfold last_property. rewrite omap_app. cbn. rewrite !Z.eqb_refl. cbn. rewrite Hl'. by rewrite last_snoc. Qed.
(** *** The owner *)
Context (Hatoms : atoms_named).
Lemma atom_known n : In n x_names -> 0 < intern n < 2 ^ 32 /\ atom_name (intern n) = Some n.
Proof. intros Hn. unfold atoms_named in Hatoms. rewrite Forall_forall in Hatoms. apply Hatoms. by apply list_elem_of_In. Qed.
Lemma atom_ne n n' : In n x_names -> In n' x_names -> n <> n' -> (intern n =? intern n') = false.
Proof. intros Hn Hn' Hne. apply Z.eqb_neq. intros E. destruct (atom_known n Hn) as [_ H1], (atom_known n' Hn') as [_ H2]. rewrite E in H1. congruence. Qed.
Definition offer (names : list string) (data : list byte) (m : list (Z * list byte)) : list (Z * list byte) := foldl (fun m n => sm_set (intern n) data m) m names.
Lemma offer_find names data n : forall m, In n names \/ sm_find (intern n) m = Some data -> sm_find (intern n) (offer names data m) = Some data.
Proof.
  induction names as [|n' names IH]; intros m Hn; cbn; [by destruct Hn|]. apply IH. destruct (decide (intern n = intern n')) as [E|E]; [right; rewrite E; apply sm_find_set_eq|].
  destruct Hn as [[<-|Hn]|Hn]; [done | by left | right; by rewrite sm_find_set_ne].
Qed.
Lemma offer_keys names data a : forall m, In a (map fst (offer names data m)) -> In a (map fst m) \/ exists n, In n names /\ a = intern n.
Proof.
  induction names as [|n names IH]; intros m Hin; cbn in *; [by left|]. destruct (IH _ Hin) as [H|(n' & H & ->)]; [|right; exists n'; auto]. apply sm_set_keys in H as [->|H]; [right; exists n; auto | by left].
Qed.
Lemma offer_zlen names data : forall m, zlen (offer names data m) <= zlen m + zlen names.
Proof. induction names as [|n names IH]; intros m; cbn; [rewrite zlen_nil; lia|]. specialize (IH (sm_set (intern n) data m)). pose proof (sm_set_zlen (intern n) data m). rewrite zlen_cons. unfold offer in *. lia. Qed.
(** The names of a type: a first one, all known to the server, and few. *)
Lemma type_names type : max_bytes type <> 0 -> exists n0 rest, compositor_names type = n0 :: rest /\ zlen (n0 :: rest) <= 5 /\ (forall n, In n (n0 :: rest) -> In n x_names) /\ In n0 ["text/plain;charset=utf-8"%string; "image/png"%string].
Proof.
  unfold max_bytes, compositor_names. intros H. destruct (String.eqb type TEXT); [|destruct (String.eqb type PNG); [|done]].
  - eexists _, _. split; [reflexivity|]. split; [by vm_compute|]. split; [|by left]. intros n Hn. cbn in Hn. unfold x_names. cbn. naive_solver.
  - eexists _, _. split; [reflexivity|]. split; [by vm_compute|]. split; [|by right; left]. intros n Hn. cbn in Hn. unfold x_names. cbn. naive_solver.
Qed.
Record owner (type : string) (data : list byte) (o : Clip) : Prop := { ow_dpy : dpy o = true; ow_owning : owning o = true; ow_owned : owned o = offer (compositor_names type) data [] }.
Definition noted (o : Clip) (l : list XCall) : Clip := {| o with c_log := c_log o ++ l |}.
Lemma prop_ne : (prop_ =? NONE) = false.
Proof. apply Z.eqb_neq. destruct (atom_known "FJARR_CLIPBOARD") as [? _]; [unfold x_names; cbn; tauto|]. unfold prop_, NONE. lia. Qed.
Lemma serve_targets type data o w : owner type data o ->
  (x_handle (XSelectionRequest (win o) w clipboard_ targets_ prop_ 0) o).1
  = noted o [XChange w prop_ {| p_type := XA_ATOM; p_items := I32 ([targets_; timestamp_] ++ map fst (owned o)) |}; XNotify w prop_].
Proof.
  intros [H1 H2 H3]. unfold x_handle. unfold bind at 1. cbn [get]. rewrite H1, Z.eqb_refl. cbn [negb]. unfold on_request, bind, get, c_put, c_upd, modify, ret, noted. rewrite H2, !Z.eqb_refl, prop_ne. cbn. by rewrite <- app_assoc, H2.
Qed.
(** Its first name is served: whole, or announced as a transfer. *)
Definition transfer (w : Z) (n0 : string) (data : list byte) (id : Z) : SendOut :=
  {| requestor := w; s_property := prop_; s_type := intern n0; s_data := data; s_offset := 0; finished := false; s_id := id |}.
Lemma serve_data type data o w n0 rest : owner type data o -> max_bytes type <> 0 -> compositor_names type = n0 :: rest ->
  (x_handle (XSelectionRequest (win o) w clipboard_ (intern n0) prop_ 0) o).1
  = if zlen data <=? INCR_THRESHOLD then noted o [XChange w prop_ {| p_type := intern n0; p_items := I8 data |}; XNotify w prop_]
    else {| (noted o [XSelectInput w true; XChange w prop_ {| p_type := incr_; p_items := I32 [zlen data] |}; XNotify w prop_]) with
              next_send := next_send o + 1; sends := sends o ++ [transfer w n0 data (next_send o + 1)] |}.
Proof.
  intros [H1 H2 H3] Hm En. destruct (type_names type Hm) as (n1 & r1 & E1 & _ & Hk & Hn0). rewrite En in E1. injection E1 as <- <-. assert (In n0 x_names) as Hx by (apply Hk; by left).
  assert ((intern n0 =? targets_) = false) as Et by (apply atom_ne; [done | unfold x_names; cbn; tauto | by destruct Hn0 as [<-|[<-|[]]]]).
  assert ((intern n0 =? timestamp_) = false) as Es by (apply atom_ne; [done | unfold x_names; cbn; tauto | by destruct Hn0 as [<-|[<-|[]]]]).
  assert ((intern n0 =? text_) = false) as Ex by (apply atom_ne; [done | unfold x_names; cbn; tauto | by destruct Hn0 as [<-|[<-|[]]]]).
  assert (sm_find (intern n0) (owned o) = Some data) as Hf by (rewrite H3, En; apply offer_find; left; by left).
  unfold x_handle. unfold bind at 1. cbn [get]. rewrite H1, Z.eqb_refl. cbn [negb]. unfold on_request, bind, get, c_put, c_upd, modify, ret, noted, transfer. rewrite H2, !Z.eqb_refl, prop_ne, Et, Es, Ex. cbn [andb orb]. rewrite Hf.
  destruct (zlen data <=? INCR_THRESHOLD); cbn; by rewrite <- !app_assoc, H2.
Qed.
(** *** The reader *)
Definition fetch (k : nat) (type : string) (max : Z) : Fetch := {| announce := false; f_type := type; f_max := max; f_done := Some k; data_phase := false; f_incr := false; f_buffer := [] |}.
Definition reading (f : Fetch) (r : Clip) (l : list XCall) : Clip := {| r with fetches := [f]; fetch_timer := true; c_log := c_log r ++ l |}.
Definition told (k : nat) (data : list byte) (r : Clip) : Clip := {| r with fetches := []; fetch_timer := false; c_log := c_log r ++ [CReadDone k (Some data) ""] |}.
Record idle_reader (r : Clip) : Prop := { ir_dpy : dpy r = true; ir_owning : owning r = false; ir_fetches : fetches r = []; ir_timer : fetch_timer r = false }.
Lemma read_starts k type max r : idle_reader r -> (x_read k type max r).1 = reading (fetch k type max) r [CReadAsked k; XConvert targets_].
Proof.
  intros [H1 H2 H3 H4]. unfold x_read, start_next, arm_timer, bind, get, c_put, c_upd, modify, reading, fetch. cbn. rewrite H1, H2. cbn. rewrite ?H1, ?H4, ?H3. cbn. by rewrite <- app_assoc, ?H1, ?H2.
Qed.
Lemma finish_one k data f r : dpy r = true -> fetches r = [f] -> f_done f = Some k -> f_incr f = false -> (finish (Some data) "" r).1 = told k data r.
Proof.
  intros H1 H2 H3 H4. unfold finish, start_next, bind, get, c_put, c_upd, modify, told. cbn. rewrite H2. cbn. rewrite H4. cbn. rewrite H3. cbn. by rewrite orb_true_r.
Qed.
Lemma notify_targets f r p type raw n0 : dpy r = true -> fetches r = [f] -> data_phase f = false -> announce f = false -> take_property (Some p) TARGETS_MAX = TBytes type raw ->
  compositor_type_for (f_type f) (target_names (TBytes type raw)) = n0 -> n0 <> ""%string ->
  (x_handle (XSelectionNotify (win r) clipboard_ prop_ (Some p)) r).1 = reading {| f with data_phase := true |} r [XConvert (intern n0)].
Proof.
  intros H1 H2 H3 H4 H5 H7 H8. unfold x_handle. unfold bind at 1. cbn [get]. rewrite H1, Z.eqb_refl. cbn [negb]. unfold bind at 1. unfold on_selection_notify. unfold bind at 1. cbn [get]. rewrite H2, Z.eqb_refl, prop_ne, H3. cbn [negb].
  unfold bind at 1. unfold taking. rewrite H5. cbn -[compositor_type_for String.eqb target_names]. rewrite H4, H7, (proj2 (String.eqb_neq n0 "") H8). cbn. unfold reading. by rewrite H2, ?H1, ?H4.
Qed.
Lemma notify_data f r p type data : dpy r = true -> fetches r = [f] -> data_phase f = true -> take_property (Some p) (f_max f) = TBytes type data ->
  (x_handle (XSelectionNotify (win r) clipboard_ prop_ (Some p)) r).1
  = if type =? incr_ then reading {| f with f_incr := true; f_buffer := [] |} r [] else (finish (Some data) "" r).1.
Proof.
  intros H1 H2 H3 H5. unfold x_handle. unfold bind at 1. cbn [get]. rewrite H1, Z.eqb_refl. cbn [negb]. unfold bind at 1. unfold on_selection_notify. unfold bind at 1. cbn [get]. rewrite H2, Z.eqb_refl, prop_ne, H3. cbn [negb].
  unfold bind at 1. unfold taking. rewrite H5. cbn [when bind ret]. destruct (type =? incr_); [cbn; unfold reading; rewrite H2; by rewrite app_nil_r|]. by destruct (finish (Some data) "" r) as [r' [[]|]].
Qed.
Lemma chunk_taken f r p data : dpy r = true -> fetches r = [f] -> f_incr f = true -> zlen (f_buffer f) + zlen data <= f_max f ->
  (x_handle (XPropertyNew (win r) prop_ (Some {| p_type := p; p_items := I8 data |})) r).1
  = match data with [] => (finish (Some (f_buffer f)) "" {| r with fetches := [{| f with f_incr := false; f_buffer := [] |}] |}).1 | _ => reading {| f with f_buffer := f_buffer f ++ data |} r [] end.
Proof.
  intros H1 H2 H3 H5. pose proof (zlen_nonneg data). unfold x_handle. unfold bind at 1. cbn [get]. rewrite H1, !Z.eqb_refl, H2, H3. cbn [negb andb when]. unfold bind at 1. unfold on_incoming_chunk. unfold bind at 1. cbn [get]. rewrite H2.
  unfold bind at 1. unfold taking. rewrite take_bytes by lia. cbn [when bind ret]. destruct data as [|b data].
  - unfold bind at 1, set_front, c_upd, modify. cbn -[finish]. rewrite H2, ?H1. match goal with |- context [finish ?a ?b ?c] => by destruct (finish a b c) as [r' [[]|]] end.
  - cbn. unfold reading. rewrite H2. by rewrite app_nil_r, H3.
Qed.
(** *** The transfer *)
Lemma chunk_sent o s w : dpy o = true -> w <> win o -> sends o = [s] -> requestor s = w -> s_property s = prop_ ->
  (x_handle (XPropertyDelete w prop_) o).1
  = if zlen (s_data s) - s_offset s =? 0 then {| (noted o [XChange w prop_ {| p_type := s_type s; p_items := I8 (chunk s) |}; XSelectInput w false]) with sends := [] |}
    else {| (noted o [XChange w prop_ {| p_type := s_type s; p_items := I8 (chunk s) |}]) with sends := [send_chunk s] |}.
Proof.
  intros H1 H2 H3 H4 H5. unfold x_handle. unfold bind at 1. cbn [get]. rewrite H1. cbn [negb]. rewrite (proj2 (Z.eqb_neq w (win o)) H2). unfold on_property_deleted. unfold bind at 1. cbn [get]. rewrite H3. cbn [split_send]. rewrite H4, H5, !Z.eqb_refl. cbn [andb].
  unfold bind, c_put, c_upd, modify, get, ret, drop_send, noted. cbn -[Z.min Z.eqb Z.sub zlen]. assert ((Z.min INCR_THRESHOLD (zlen (s_data s) - s_offset s) =? 0) = (zlen (s_data s) - s_offset s =? 0)) as -> by (unfold INCR_THRESHOLD; destruct (Z.eqb_spec (zlen (s_data s) - s_offset s) 0) as [->|]; [done | apply Z.eqb_neq; lia]).
  destruct (_ =? 0); cbn; [|done]. rewrite H1, H4. cbn. by rewrite <- app_assoc.
Qed.
Lemma chunks_stop n o r : fetches r = [] -> chunks n o r = (o, r).
Proof. intros Hr. destruct n; cbn [chunks]; [done|]. by rewrite Hr. Qed.
Definition pasted (k : nat) (data : list byte) (o r : Clip) : Prop := sends o = [] /\ fetches r = [] /\ last (c_log r) = Some (CReadDone k (Some data) "").
Lemma told_pasted k data o r : sends o = [] -> pasted k data o (told k data r).
Proof. intros Ho. split_and!; [done | done | apply last_snoc]. Qed.
(** The transfer [s] has given what the reader's buffer holds. *)
Record in_step (data : list byte) (s : SendOut) (f : Fetch) (o r : Clip) : Prop := {
  is_dpy : dpy o = true; is_win : win r <> win o; is_sends : sends o = [s]; is_requestor : requestor s = win r; is_property : s_property s = prop_; is_data : s_data s = data;
  is_offset : 0 <= s_offset s <= zlen data; is_open : dpy r = true; is_fetches : fetches r = [f]; is_incr : f_incr f = true; is_buffer : f_buffer f = take (Z.to_nat (s_offset s)) data; is_max : zlen data <= f_max f }.
Lemma chunk_ends data s f o r k : in_step data s f o r -> f_done f = Some k -> s_offset s = zlen data -> pasted k data (next_chunk o r).1 (next_chunk o r).2.
Proof.
  intros [H1 H2 H3 H4 H5 H6 H7 H8 H9 H10 H11 H12] Hk Ho. unfold next_chunk. rewrite (chunk_sent o s (win r)) by done. rewrite H6, Ho, Z.sub_diag. cbn [Z.eqb fst snd]. assert (chunk s = []) as Ec by (unfold chunk; by rewrite H6, Ho, Z.sub_diag).
  rewrite Ec. cbn [noted c_log]. rewrite last_property_snoc by done. rewrite (chunk_taken f) by (done || rewrite H11, zlen_nil, Ho, take_ge by (unfold zlen; lia); lia).
  rewrite (finish_one k (f_buffer f) {| f with f_incr := false; f_buffer := [] |}) by done. rewrite H11, Ho, take_ge by (unfold zlen; lia). by apply told_pasted.
Qed.
Lemma chunk_goes_on data s f o r : in_step data s f o r -> s_offset s < zlen data ->
  exists f', f_done f' = f_done f /\ in_step data (send_chunk s) f' (next_chunk o r).1 (next_chunk o r).2.
Proof.
  intros [H1 H2 H3 H4 H5 H6 H7 H8 H9 H10 H11 H12] Ho. pose proof (zlen_nonneg data) as Hlen. unfold next_chunk. rewrite (chunk_sent o s (win r)) by done. rewrite H6, (proj2 (Z.eqb_neq (zlen data - s_offset s) 0)) by lia. cbn [fst snd noted c_log]. rewrite last_property_snoc by done.
  set (n := Z.min INCR_THRESHOLD (zlen data - s_offset s)). assert (0 < n <= zlen data - s_offset s) as Hn by (unfold n, INCR_THRESHOLD; lia). assert (zlen (chunk s) = n) as Ec by (unfold chunk; rewrite H6; fold n; rewrite zlen_take, zlen_drop; lia).
  assert (f_buffer f ++ chunk s = take (Z.to_nat (s_offset s + n)) data) as Eb by (rewrite H11; unfold chunk; rewrite H6; fold n; rewrite take_take_drop; f_equal; lia).
  rewrite (chunk_taken f) by (done || rewrite H11, Ec, zlen_take; lia). destruct (chunk s) as [|b l] eqn:El; [rewrite zlen_nil in Ec; lia|]. exists {| f with f_buffer := f_buffer f ++ b :: l |}. split; [done|].
  split; cbn; rewrite ?H6; try done; fold n; lia.
Qed.
Lemma transfer_ends k data n : forall s f o r, in_step data s f o r -> f_done f = Some k -> zlen data - s_offset s + INCR_THRESHOLD <= Z.of_nat n * INCR_THRESHOLD ->
  let '(o', r') := chunks n o r in pasted k data o' r'.
Proof.
  induction n as [|n IH]; intros s f o r Hs Hk Hn; pose proof (is_offset _ _ _ _ _ Hs) as Ho; [unfold INCR_THRESHOLD in Hn; lia|].
  cbn [chunks]. rewrite (is_fetches _ _ _ _ _ Hs), (is_incr _ _ _ _ _ Hs). destruct (Z.eq_dec (s_offset s) (zlen data)) as [Ee|Ee].
  - pose proof (chunk_ends data s f o r k Hs Hk Ee) as Hp. destruct (next_chunk o r) as [o' r']. cbn in Hp. rewrite chunks_stop by apply Hp. done.
  - destruct (chunk_goes_on data s f o r Hs) as (f' & Hf' & Hs'); [lia|]. destruct (next_chunk o r) as [o' r']. apply (IH (send_chunk s) f'); [done | congruence|].
    unfold send_chunk. cbn. rewrite (is_data _ _ _ _ _ Hs). unfold INCR_THRESHOLD in *. lia.
Qed.
(** *** From end to end *)
Lemma targets_offered type data o n0 rest : owner type data o -> max_bytes type <> 0 -> compositor_names type = n0 :: rest ->
  exists raw, take_property (Some {| p_type := XA_ATOM; p_items := I32 ([targets_; timestamp_] ++ map fst (owned o)) |}) TARGETS_MAX = TBytes XA_ATOM raw
    /\ compositor_type_for type (target_names (TBytes XA_ATOM raw)) = n0 /\ n0 <> ""%string.
Proof.
  intros [H1 H2 H3] Hm En. destruct (type_names type Hm) as (n1 & r1 & E1 & Hl & Hk & Hn0). rewrite En in E1. injection E1 as <- <-.
  pose proof (offer_zlen (compositor_names type) data []) as Hz. rewrite En, zlen_nil, <- En, <- H3 in Hz. rewrite En in Hz.
  assert (forall a, In a ([targets_; timestamp_] ++ map fst (owned o)) -> exists n, In n x_names /\ a = intern n) as Hin.
  { intros a [<-|[<-|Ha]]; [exists "TARGETS"%string; split; [unfold x_names; cbn; tauto | done] | exists "TIMESTAMP"%string; split; [unfold x_names; cbn; tauto | done]|].
    rewrite H3, En in Ha. apply offer_keys in Ha as [[]|(n & Hn & ->)]. exists n. by split; [apply Hk|]. }
  destruct (take_atoms XA_ATOM ([targets_; timestamp_] ++ map fst (owned o))) as (raw & Er & En').
  - rewrite zlen_app. unfold zlen in *. rewrite length_map. cbn [length]. lia.
  - apply Forall_forall. intros a Ha%list_elem_of_In. destruct (Hin a Ha) as (n & Hn & ->). destruct (atom_known n Hn). lia.
  - exists raw. split_and!; [done | | by destruct Hn0 as [<-|[<-|[]]]]. unfold compositor_type_for. rewrite En. cbn [find]. assert (mem n0 (target_names (TBytes XA_ATOM raw)) = true) as ->; [|done]. apply mem_In. rewrite En'. apply list_elem_of_In, list_elem_of_omap.
    exists (intern n0). destruct (atom_known n0) as [Hr Hn]; [apply Hk; by left|]. split.
    + apply list_elem_of_In, in_or_app. right. rewrite H3, En. apply in_map_iff. exists (intern n0, data). split; [done|]. apply sm_find_In, offer_find. left. by left.
    + unfold NONE. by rewrite (proj2 (Z.eqb_neq (intern n0) 0)) by lia.
Qed.
Lemma last_convert_snoc l t : last_convert (l ++ [XConvert t]) = Some t.
Proof. unfold last_convert. rewrite omap_app. cbn. apply last_snoc. Qed.
Lemma last_notify_snoc l w p : last_notify (l ++ [XNotify w p]) = p.
Proof. unfold last_notify. rewrite omap_app. cbn. by rewrite last_snoc. Qed.
(** The conversion to TARGETS, and the choice of the first name. *)
Lemma convert_targets type data o r k max n0 rest : owner type data o -> max_bytes type <> 0 -> compositor_names type = n0 :: rest -> idle_reader r ->
  exists l, convert o (x_read k type max r).1 = (noted o l, reading {| (fetch k type max) with data_phase := true |} r [CReadAsked k; XConvert targets_; XConvert (intern n0)]).
Proof.
  intros Ho Hm En Hr. rewrite (read_starts k type max r Hr). set (r1 := reading _ r _). unfold convert. assert (last_convert (c_log r1) = Some targets_) as -> by (unfold r1; cbn; change [CReadAsked k; XConvert targets_] with ([CReadAsked k] ++ [XConvert targets_]); rewrite app_assoc; apply last_convert_snoc).
  rewrite (serve_targets type data o (win r1) Ho). eexists. f_equal. cbn [noted c_log]. rewrite (last_property_snoc (win r1) prop_ _ _ [XNotify (win r1) prop_]) by done.
  assert (forall c, last_notify (c_log o ++ [c; XNotify (win r1) prop_]) = prop_) as -> by (intros c; change [c; XNotify (win r1) prop_] with ([c] ++ [XNotify (win r1) prop_]); rewrite app_assoc; apply last_notify_snoc).
  destruct (targets_offered type data o n0 rest Ho Hm En) as (raw & Er & Ec & Hne). rewrite (notify_targets (fetch k type max) r1 _ XA_ATOM raw n0); [| by apply Hr | done | done | done | done | done | done].
  unfold reading. cbn. by rewrite <- app_assoc.
Qed.
(** C11: What is copied is what is pasted. When the module owns the clipboard with a content it was given,
    and a reader on the other side asks for its type with a limit that is no smaller, the exchange of
    conversions, answers, and chunks (each the next 256 KiB, when the content is larger, the last one
    empty) ends after as many chunks as the length needs, with the reader told exactly that content, nothing
    left to fetch and no transfer open. *)
Theorem paste_is_copy type data max k k0 t o0 r n : max_bytes type <> 0 -> zlen data <= max_bytes type -> zlen data <= max ->
  dpy o0 = true -> sends o0 = [] -> idle_reader r -> win r <> win o0 -> zlen data / INCR_THRESHOLD + 2 <= Z.of_nat n ->
  let o := (x_write k0 type data t true o0).1 in let '(o', r') := paste k type max n o r in
  sends o' = [] /\ fetches r' = [] /\ last (c_log r') = Some (CReadDone k (Some data) "").
Proof.
  intros Hm Hl Hmax Hd Hs Hr Hw Hn o. destruct (type_names type Hm) as (n0 & rest & En & _ & Hk & Hn0). pose proof (zlen_nonneg data) as Hnn.
  assert (owner type data o /\ sends o = [] /\ win o = win o0) as (Ho & Hso & Hwo).
  { subst o. unfold x_write, bind, get, c_put, c_upd, modify. rewrite Hd, En. cbn [length Nat.eqb negb orb]. rewrite (proj2 (Z.eqb_neq _ _) Hm), (proj2 (Z.ltb_ge _ _)) by lia. cbn. rewrite ?Hd. split; [|done]. split; cbn; [done | done | by rewrite En]. }
  clearbody o. unfold paste. destruct (convert_targets type data o r k max n0 rest Ho Hm En Hr) as (l & ->). set (o1 := noted o l). set (r1 := reading _ r _).
  assert (owner type data o1) as Ho1 by (destruct Ho; by split). unfold convert. assert (last_convert (c_log r1) = Some (intern n0)) as -> by (unfold r1; cbn; change [CReadAsked k; XConvert targets_; XConvert (intern n0)] with ([CReadAsked k; XConvert targets_] ++ [XConvert (intern n0)]); rewrite app_assoc; apply last_convert_snoc).
  cbn [fst snd]. rewrite (serve_data type data o1 (win r1) n0 rest Ho1 Hm En). assert (dpy r1 = true) as Hd1 by apply Hr. destruct (Z.leb_spec (zlen data) INCR_THRESHOLD) as [Hle|Hgt].
  - cbn [noted c_log]. rewrite (last_property_snoc (win r1) prop_ _ _ [XNotify (win r1) prop_]) by done.
    assert (forall c, last_notify (c_log o1 ++ [c; XNotify (win r1) prop_]) = prop_) as -> by (intros c; change [c; XNotify (win r1) prop_] with ([c] ++ [XNotify (win r1) prop_]); rewrite app_assoc; apply last_notify_snoc).
    rewrite (notify_data {| (fetch k type max) with data_phase := true |} r1 _ (intern n0) data) by (done || by apply take_bytes). assert ((intern n0 =? incr_) = false) as -> by (apply atom_ne; [apply Hk; by left | unfold x_names; cbn; tauto | by destruct Hn0 as [<-|[<-|[]]]]).
    rewrite (finish_one k data {| (fetch k type max) with data_phase := true |}) by done. rewrite chunks_stop by done. by apply told_pasted.
  - cbn [noted c_log]. rewrite (snoc_three (c_log o1)), (last_property_snoc (win r1) prop_ _ _ [XNotify (win r1) prop_]) by done.
    assert (forall l c, last_notify (l ++ [c; XNotify (win r1) prop_]) = prop_) as -> by (intros l' c; change [c; XNotify (win r1) prop_] with ([c] ++ [XNotify (win r1) prop_]); rewrite app_assoc; apply last_notify_snoc).
    destruct (take_one incr_ (zlen data) max ltac:(lia)) as [raw Er]. rewrite (notify_data {| (fetch k type max) with data_phase := true |} r1 _ incr_ raw) by done. rewrite Z.eqb_refl.
    apply (transfer_ends k data n (transfer (win r1) n0 data (next_send o1 + 1)) {| (fetch k type max) with data_phase := true; f_incr := true |}); [|done|].
    + split; try done; cbn; first [by destruct Ho1 | by rewrite Hso | congruence | lia].
    + cbn. pose proof (Z.mul_succ_div_gt (zlen data) INCR_THRESHOLD ltac:(done)). unfold INCR_THRESHOLD in *. lia.
Qed.
End Paste.

(** ** A server *)
Fixpoint index_of (n : string) (l : list string) (i : Z) : Z := match l with [] => 0 | x :: l' => if String.eqb x n then i else index_of n l' (i + 1) end.
#[local] Instance table_atoms : Atoms := {| intern := fun n => index_of n x_names 100; atom_name := fun a => x_names !! Z.to_nat (a - 100) |}.
Lemma table_named : @atoms_named table_atoms.
Proof. unfold atoms_named, x_names. repeat (constructor; [by vm_compute|]). constructor. Qed.
Definition open_clip (w : Z) : Clip := (x_attach w new_clip).1.
Definition many : list byte := replicate (Z.to_nat 300000) x61.
Lemma many_zlen : zlen many = 300000.
Proof. unfold zlen, many. rewrite length_replicate. lia. Qed.
(** 300 000 bytes: two chunks and the empty one. *)
Lemma paste_is_copy_witness : zlen many = 300000 /\ let '(o', r') := paste 1 TEXT 1048576 3 (x_write 0 TEXT many 7 true (open_clip 1)).1 (open_clip 2) in
  fetches r' = [] /\ last (c_log r') = Some (CReadDone 1 (Some many) "").
Proof.
  split; [exact many_zlen|]. assert (zlen many <= max_bytes TEXT) as Hl by (rewrite many_zlen; by vm_compute). assert (zlen many <= 1048576) as Hm by (rewrite many_zlen; lia).
  pose proof (paste_is_copy table_named TEXT many 1048576 1 0 7 (open_clip 1) (open_clip 2) 3 ltac:(done) Hl Hm eq_refl eq_refl ltac:(by split) ltac:(done)) as H.
  assert (zlen many / INCR_THRESHOLD + 2 <= Z.of_nat 3) as Hn by (rewrite many_zlen; by vm_compute). specialize (H Hn). cbn zeta in H. destruct (paste 1 TEXT 1048576 3 _ _) as [o' r']. by destruct H as (_ & ? & ?).
Defined.
(** A read whose owner never answers, behind it another. *)
Definition waiting_ins : list CInput := [CIAttach 1; CIRead 1 TEXT 100; CIRead 2 TEXT 100; CIFetchTimeout].
Lemma read_attended_witness : total (tells 1) (c_log (c_run waiting_ins)) = 1 /\ total (waits 2) (fetches (c_run waiting_ins)) = 1 /\ fetch_timer (c_run waiting_ins) = true.
Proof.
  pose proof (read_attended waiting_ins ltac:(repeat constructor)) as (_ & Ht & _). split; [by vm_compute|]. split; [by vm_compute|]. apply Ht. by vm_compute.
Defined.
(** An answer is taken for the request in front, whichever it answers: after a read that timed out,
    the late list of targets moves the next read on, and that read's own list of targets is taken for
    the content. *)
Definition text_targets : Property := {| p_type := XA_ATOM; p_items := I32 [intern "text/plain"] |}.
Theorem late_targets_pasted : last (c_log (c_run (A := table_atoms) [
  CIAttach 1; CIRead 1 TEXT 100; CIFetchTimeout; CIRead 2 TEXT 100;
  CIEvent (XSelectionNotify 1 clipboard_ prop_ (Some text_targets)); CIEvent (XSelectionNotify 1 clipboard_ prop_ (Some text_targets))]))
  = Some (CReadDone 2 (Some (in_memory (p_items text_targets))) "").
Proof. by vm_compute. Qed.
