(* ===== verification/Edid.v ===== *)
(** * Edid: a monitor's identity from its EDID (desktop/edid.cpp)

    The base block is 128 bytes; letters and texts are bytes of it. Then: what a block's descriptors
    say is read back, so that the X11 backend names a monitor as mutter does. *)

From Stdlib Require Import ZArith Lia Strings.Byte Ascii String.
From stdpp Require Import base list strings.
From S2P Require Import Prelude Screens CursorImage.

Definition eb (e : list byte) (i : Z) : Z := byteZ (nth (Z.to_nat i) e x00).
(** [char('A' - 1 + n)] *)
Definition letter (n : Z) : ascii := ascii_of_N (Z.to_N (64 + n)).
Definition vendor_of (v : Z) : string := of_chars [letter (Z.land (Z.shiftr v 10) 31); letter (Z.land (Z.shiftr v 5) 31); letter (Z.land v 31)].
Definition NL : byte := x0a.
Fixpoint first_line (l : list byte) : list byte := match l with [] => [] | b :: l' => if bool_decide (b = NL) then [] else b :: first_line l' end.
Fixpoint no_leading (l : list byte) : list byte := match l with [] => [] | b :: l' => if bool_decide (b = x20) then no_leading l' else l end.
Definition rstrip (l : list byte) : list byte := rev (no_leading (rev l)).
Definition text_of (l : list byte) : string := of_chars (ascii_of_byte <$> rstrip (first_line l)).
Definition descriptor_text (e : list byte) (d : Z) : string := text_of (take 13 (drop (Z.to_nat (d + 5)) e)).
Definition descriptors : list Z := [54; 72; 90; 108].
Definition read_descriptor (e : list byte) (k : MonitorKey) (d : Z) : MonitorKey :=
  if negb (eb e d =? 0) || negb (eb e (d + 1) =? 0) || negb (eb e (d + 2) =? 0) then k
  else
    let k := if eb e (d + 3) =? 0xfc then {| k with model := descriptor_text e d |} else k in
    if eb e (d + 3) =? 0xff then {| k with serial := descriptor_text e d |} else k.
Definition serial_number (e : list byte) : Z :=
  Z.lor (Z.lor (Z.lor (eb e 12) (Z.shiftl (eb e 13) 8)) (Z.shiftl (eb e 14) 16)) (Z.shiftl (eb e 15) 24).
Definition hex8 (n : Z) : string := of_chars (map (fun i => hex_char (Z.land (Z.shiftr n ((7 - i) * 4)) 15)) (range 8)).
Definition no_identity (connector : string) : MonitorKey := {| vendor := ""; model := ""; serial := ""; k_connector := connector; k_virtual := false |}.
(** [None]: a null pointer. *)
Definition edid_key (e : option (list byte)) (connector : string) : MonitorKey :=
  match e with
  | None => no_identity connector
  | Some e =>
    if (zlen e <? 128) || negb (eb e 0 =? 0) || negb (eb e 1 =? 0xff) || negb (eb e 7 =? 0) then no_identity connector
    else
      let k := {| (no_identity connector) with vendor := vendor_of (Z.lor (Z.shiftl (eb e 8) 8) (eb e 9)) |} in
      let k := foldl (read_descriptor e) k descriptors in
      if String.eqb (serial k) "" && negb (serial_number e =? 0) then {| k with serial := "0x" +:+ hex8 (serial_number e) |} else k
  end.

(** ** What is written is read *)
(** A descriptor block: three zeros, the tag, a zero, and 13 bytes: the text, a line feed, spaces. *)
Definition descriptor (tag : Z) (text : list byte) : list byte :=
  [x00; x00; x00; Zbyte tag; x00] ++ take 13 (text ++ [NL] ++ repeat x20 12).
Definition printable (text : list byte) : Prop := (length text <= 13)%nat /\ Forall (fun b => b <> NL) text /\ last text <> Some x20.
Lemma first_line_stops text rest : Forall (fun b => b <> NL) text -> first_line (text ++ NL :: rest) = text.
Proof. induction 1 as [|b l Hb Hl IH]; cbn; [done|]. by rewrite bool_decide_eq_false_2, IH by done. Qed.
Lemma first_line_all text : Forall (fun b => b <> NL) text -> first_line text = text.
Proof. induction 1 as [|b l Hb Hl IH]; cbn; [done|]. by rewrite bool_decide_eq_false_2, IH by done. Qed.
Lemma rstrip_id l : last l <> Some x20 -> rstrip l = l.
Proof.
  intros Hl. unfold rstrip. destruct l as [|b l] using rev_ind; [done|]. rewrite last_snoc in Hl. rewrite rev_app_distr. cbn. rewrite bool_decide_eq_false_2 by congruence. cbn. by rewrite rev_involutive.
Qed.
Lemma text_read text : printable text -> text_of (take 13 (text ++ [NL] ++ repeat x20 12)) = of_chars (ascii_of_byte <$> text).
Proof.
  intros (Hlen & Hnl & Hsp). unfold text_of. do 2 f_equal. destruct (Nat.eq_dec (length text) 13%nat) as [E|E].
  - rewrite take_app_le, take_ge, first_line_all, rstrip_id by (done || lia). done.
  - rewrite take_app_ge by lia. destruct (13 - length text)%nat as [|n] eqn:En; [lia|]. cbn [app take]. by rewrite first_line_stops, rstrip_id by done.
Qed.
(** Where a descriptor of the block is [tag] with [text], and none after it has that tag. *)
Definition says (e : list byte) (tag : Z) (text : list byte) : Prop :=
  exists before after d, descriptors = before ++ d :: after /\ take 18 (drop (Z.to_nat d) e) = descriptor tag text
    /\ Forall (fun d' => negb (eb e d' =? 0) || negb (eb e (d' + 1) =? 0) || negb (eb e (d' + 2) =? 0) || negb (eb e (d' + 3) =? tag) = true) after.
Lemma eb_at (e : list byte) d i b : 0 <= d -> 0 <= i < 18 -> take 18 (drop (Z.to_nat d) e) !! Z.to_nat i = Some b -> eb e (d + i) = byteZ b.
Proof.
  intros Hd Hi Hb. rewrite lookup_take_Some, lookup_drop in Hb. destruct Hb as [Hb _]. unfold eb. f_equal. apply nth_lookup_Some with (d := x00) in Hb. rewrite <- Hb. f_equal. lia.
Qed.
Lemma descriptor_read e d tag text : 0 <= d -> take 18 (drop (Z.to_nat d) e) = descriptor tag text -> 0 <= tag < 256 -> printable text ->
  eb e d = 0 /\ eb e (d + 1) = 0 /\ eb e (d + 2) = 0 /\ eb e (d + 3) = tag /\ descriptor_text e d = of_chars (ascii_of_byte <$> text).
Proof.
  intros Hd Ht Htag Hp. split_and!.
  - rewrite <- (Z.add_0_r d). apply (eb_at e d 0 x00); [lia | lia | by rewrite Ht].
  - apply (eb_at e d 1 x00); [lia | lia | by rewrite Ht].
  - apply (eb_at e d 2 x00); [lia | lia | by rewrite Ht].
  - rewrite (eb_at e d 3 (Zbyte tag)) by (done || lia || by rewrite Ht). rewrite byteZ_Zbyte. apply Z.mod_small. lia.
  - unfold descriptor_text. rewrite <- (text_read text Hp). f_equal. assert (drop 5 (take 18 (drop (Z.to_nat d) e)) = drop 5 (descriptor tag text)) as E by (by rewrite Ht).
    rewrite skipn_firstn_comm, drop_drop in E. change (drop 5 (descriptor tag text)) with (take 13 (text ++ [NL] ++ repeat x20 12)) in E. rewrite <- E. cbn [Nat.sub]. do 2 f_equal. lia.
Qed.
Lemma descriptors_pos d : In d descriptors -> 0 <= d.
Proof. cbn. lia. Qed.
Lemma passed_over (f : MonitorKey -> string) e tag : (forall k d, negb (eb e d =? 0) || negb (eb e (d + 1) =? 0) || negb (eb e (d + 2) =? 0) || negb (eb e (d + 3) =? tag) = true -> f (read_descriptor e k d) = f k) ->
  forall after k, Forall (fun d' => negb (eb e d' =? 0) || negb (eb e (d' + 1) =? 0) || negb (eb e (d' + 2) =? 0) || negb (eb e (d' + 3) =? tag) = true) after -> f (foldl (read_descriptor e) k after) = f k.
Proof. intros Hf. induction after as [|d after IH]; intros k Ha; cbn; [done|]. apply Forall_cons in Ha as [Hd Ha]. rewrite IH by done. by apply Hf. Qed.
(** A monitor's name and serial are read from its EDID. Of a valid base block whose last name descriptor
    holds [m] and last serial descriptor [s] (texts of up to 13 bytes without a line feed or a
    final space), the key has exactly these, the connector it was read on, and is no virtual monitor. *)
Theorem edid_read_back e connector m s : 128 <= zlen e -> eb e 0 = 0 -> eb e 1 = 0xff -> eb e 7 = 0 -> printable m -> printable s -> s <> [] ->
  says e 0xfc m -> says e 0xff s ->
  let k := edid_key (Some e) connector in
  model k = of_chars (ascii_of_byte <$> m) /\ serial k = of_chars (ascii_of_byte <$> s) /\ k_connector k = connector /\ k_virtual k = false.
Proof.
  intros Hl H0 H1 H7 Hm Hs Hne (b1 & a1 & d1 & E1 & T1 & A1) (b2 & a2 & d2 & E2 & T2 & A2). unfold edid_key. rewrite H0, H1, H7, (proj2 (Z.ltb_ge _ _)) by done. cbn [negb orb Z.eqb Pos.eqb].
  set (k0 := {| vendor := _ |}). set (k1 := foldl (read_descriptor e) k0 descriptors).
  assert (model k1 = of_chars (ascii_of_byte <$> m)) as Em.
  { subst k1. rewrite E1, foldl_app. cbn [foldl]. rewrite (passed_over model e 0xfc); [|intros k d Hd; unfold read_descriptor; destruct (negb _ || negb _ || negb _); [done|]; cbn in Hd; destruct (eb e (d + 3) =? 252); [done|]; by destruct (_ =? 255) | done].
    assert (0 <= d1) as Hd1 by (apply descriptors_pos; rewrite E1; apply in_app_iff; right; by left).
    destruct (descriptor_read e d1 0xfc m Hd1 T1 ltac:(lia) Hm) as (R0 & R1 & R2 & R3 & Et). unfold read_descriptor at 1. by rewrite R0, R1, R2, R3. }
  assert (serial k1 = of_chars (ascii_of_byte <$> s)) as Es.
  { subst k1. rewrite E2, foldl_app. cbn [foldl]. rewrite (passed_over serial e 0xff); [|intros k d Hd; unfold read_descriptor; destruct (negb _ || negb _ || negb _); [done|]; cbn in Hd; destruct (eb e (d + 3) =? 255); [done|]; by destruct (_ =? 252) | done].
    assert (0 <= d2) as Hd2 by (apply descriptors_pos; rewrite E2; apply in_app_iff; right; by left).
    destruct (descriptor_read e d2 0xff s Hd2 T2 ltac:(lia) Hs) as (R0 & R1 & R2 & R3 & Et). unfold read_descriptor at 1. by rewrite R0, R1, R2, R3. }
  assert (k_connector k1 = connector /\ k_virtual k1 = false) as [Ec Ev].
  { subst k1. assert (forall l k, k_connector (foldl (read_descriptor e) k l) = k_connector k /\ k_virtual (foldl (read_descriptor e) k l) = k_virtual k) as Hk; [|by destruct (Hk descriptors k0)].
    induction l as [|d l IH]; intros k; cbn; [done|]. destruct (IH (read_descriptor e k d)) as [-> ->]. unfold read_descriptor. destruct (negb _ || negb _ || negb _); [done|]. by destruct (_ =? 252), (_ =? 255). }
  assert (String.eqb (serial k1) "" = false) as ->; [|done]. rewrite Es. destruct s; [done|]. done.
Qed.

(** A block as a monitor has it: a timing, a name, a serial string, a dummy descriptor. *)
Definition bytes_of (s : string) : list byte := byte_of_ascii <$> chars s.
Definition dell_block : list byte :=
  map Zbyte [0x00; 0xff; 0xff; 0xff; 0xff; 0xff; 0xff; 0x00; 0x10; 0xac] ++ repeat x00 44 ++ map Zbyte [0x02; 0x3a] ++ repeat x00 16
  ++ descriptor 0xff (bytes_of "8XK2N13") ++ descriptor 0xfc (bytes_of "DELL U2422H") ++ descriptor 0x10 [] ++ repeat x00 2.
Example dell_monitor : edid_key (Some dell_block) "DP-1" = {| vendor := "DEL"; model := "DELL U2422H"; serial := "8XK2N13"; k_connector := "DP-1"; k_virtual := false |}
  /\ wire_ids [edid_key (Some dell_block) "DP-1"] = ["del-dell-u2422h-8xk2n13"].
Proof. by vm_compute. Qed.
