(* ===== verification/X11Backend.v ===== *)
(** * X11Backend: the desktop backend for an X11 kiosk (modules/desktop-x11/backend.cpp)

    Everything runs on the core loop. The X server is the environment: what it answers (the display, the
    RandR monitors, the cursor, the pointer, a property) comes with the turn. A lost connection is marked
    by Xlib while any call runs and noticed where the source looks, so a turn carries its [fate]: what
    the next looks will find. XTest events, callbacks to the desktop capability and changes of the
    sources' availability are kept in order. From the callback of a changed monitor set the capability
    stops and starts captures ([react]); no other callback calls back. The clipboard is
    [X11Clipboard]'s, the sound [DesktopSound]'s. Handles are too wide to wrap in a run; log lines and the
    pipeline text of [create_bin] have no counterpart. *)

From Stdlib Require Import ZArith Lia Strings.Byte Ascii String SpecFloat.
From stdpp Require Import base list strings.
From S2P Require Import Prelude Monad StdMap Json Floats Keymap Screens Desktop CursorImage HelperLink DesktopSound EisInput X11Clipboard Edid.

(** ** Sources *)
Record Rect := { r_x : Z; r_y : Z; r_w : Z; r_h : Z }.
#[global] Instance Rect_eq_dec : EqDecision Rect.
Proof. solve_decision. Defined.
(** [s_live]: the rectangle the running [ximagesrc] reads, while a pipeline holds one. *)
Record XSrc := { s_rect : Rect; s_available : bool; s_reason : string; s_live : option Rect }.
Definition new_source : XSrc := {| s_rect := {| r_x := 0; r_y := 0; r_w := 0; r_h := 0 |}; s_available := false; s_reason := "not captured yet"; s_live := None |}.
Definition set_rect (r : Rect) (s : XSrc) : XSrc := {| s with s_rect := r |}.
(** [None]: the size changed. *)
Definition move_to (r : Rect) (s : XSrc) : option XSrc :=
  if negb (r_w r =? r_w (s_rect s)) || negb (r_h r =? r_h (s_rect s)) then None
  else Some {| s with s_rect := {| (s_rect s) with r_x := r_x r; r_y := r_y r |}; s_live := (fun _ => r) <$> s_live s |}.
Definition create_bin (s : XSrc) : XSrc := {| s with s_live := Some (s_rect s) |}.

(** ** The X server's answers *)
Record RandrOutput := { ro_info : option (string * bool); ro_edid : option (Z * list byte) }.
Record RandrMonitor := { rm_name : option string; rm_output : option RandrOutput; rm_rect : Rect; rm_primary : bool }.
Record XCursor := { xc_width : Z; xc_height : Z; xc_hot_x : Z; xc_hot_y : Z; xc_pixels : list Z }.
Record Opening := { op_extensions : bool; op_major : Z; op_minor : Z; op_window : Z; op_monitors : list RandrMonitor; op_cursor : option XCursor }.

Inductive XOut :=
| OOpen | OClose | OMotion (x y : Z) | OButton (b : Z) (down : bool) | OKey (code : Z) (down : bool)
| OMonitors (ms : list Monitor) | OLost (m : Z) (why : CaptureLost) | OSession (here : bool) | OAvailable (m : Z) (now : bool) | OShape (c : CursorImage) | OPosition (m : Z) (x y : dbl).
Record X11 := {
  x_dpy : bool; fate : list bool; reconnect_ticks : Z; x_monitors : list Monitor; x_ids : list (string * Z); x_next : Z;
  x_captures : list (Z * XSrc); x_held_keys : ZSet; x_held_buttons : ZSet; wheel_x : dbl; wheel_y : dbl; x_keymap : option Xkb;
  x_shape : option CursorImage; last_x : Z; last_y : Z; monitors_cb : bool; lost_cb : bool; session_cb : bool; shape_cb : bool; position_cb : bool;
  idles : nat; listener : bool; x_sound : Sound; x_clip : Clip; hung : bool; x_log : list XOut
}.
Definition new_x11 (listener_ : bool) : X11 := {|
  x_dpy := false; fate := []; reconnect_ticks := 0; x_monitors := []; x_ids := []; x_next := 1; x_captures := []; x_held_keys := []; x_held_buttons := []; wheel_x := of_Z 0; wheel_y := of_Z 0;
  x_keymap := None; x_shape := None; last_x := -1; last_y := -1; monitors_cb := false; lost_cb := false; session_cb := false; shape_cb := false; position_cb := false;
  idles := 0; listener := listener_; x_sound := new_sound; x_clip := new_clip; hung := false; x_log := [] |}.
Inductive Reaction := RStop (m : Z) | RStart (m : Z).
(** What the capability does of captures when it is told of a monitor set, and the compilation of
    a keymap by its names. *)
Class X11Env := { react : X11 -> list Monitor -> list Reaction; from_names : string -> string -> option Xkb }.

#[local] Abbreviation X := (Prog X11).
Definition x_upd (f : X11 -> X11) : X unit := modify f.
Definition x_put (e : XOut) : X unit := x_upd (fun s => {| s with x_log := x_log s ++ [e] |}).
Definition with_clip (p : Prog Clip unit) : X unit := x_upd (fun s => {| s with x_clip := (p (x_clip s)).1 |}).
Definition with_sound {A} (p : Prog Sound A) : X A := fun s => let '(d, r) := p (x_sound s) in ({| s with x_sound := d |}, r).
Definition find_mon (id : Z) (l : list Monitor) : option Monitor := List.find (fun m => m_id m =? id) l.
Definition rect_of (m : Monitor) : Rect := {| r_x := m_x m; r_y := m_y m; r_w := m_width m; r_h := m_height m |}.
Definition store (m : Z) (c : XSrc) : X unit := x_upd (fun s => {| s with x_captures := sm_set m c (x_captures s) |}).
(** [set_available] of the source of [m]. *)
Definition avail (m : Z) (now : bool) (why : string) (c : XSrc) : X XSrc :=
  let c' := {| c with s_reason := why; s_available := now |} in
  store m c' ;; when (negb (Bool.eqb now (s_available c))) (x_put (OAvailable m now)) ;; ret c'.

Section Backend.
Context `{V : X11Env} `{A : Atoms}.

(** ** Captures *)
Definition x_start_capture (m : Z) : X bool :=
  do s <- get;
  match find_mon m (x_monitors s) with
  | None => ret false
  | Some mo => do _ <- avail m (x_dpy s) "the X display is not open" (set_rect (rect_of mo) (default new_source (sm_find m (x_captures s)))); ret true
  end.
Definition x_stop_capture (m : Z) : X unit :=
  do s <- get;
  match sm_find m (x_captures s) with
  | None => ret tt
  | Some c => do _ <- avail m false "capture stopped" c; x_upd (fun s => {| s with x_captures := sm_erase m (x_captures s) |})
  end.
(** [monitors_cb_(monitors_)] *)
Definition tell_monitors : X unit :=
  do s <- get;
  when (monitors_cb s) (
    x_put (OMonitors (x_monitors s)) ;;
    for_each (react s (x_monitors s)) (fun r => match r with RStop m => x_stop_capture m | RStart m => do _ <- x_start_capture m; ret tt end)).

(** ** The connection *)
Definition disconnect : X unit :=
  do s <- get;
  when (x_dpy s) (with_clip (x_detach "the X display closed" true) ;; x_put OClose) ;;
  x_upd (fun s => {| s with x_dpy := false |}).
Definition x_lost (why : string) : X unit :=
  do s <- get;
  if negb (x_dpy s) then ret tt
  else
    for_each (x_captures s) (fun kc => do _ <- avail kc.1 false why kc.2; when (lost_cb s) (x_put (OLost kc.1 SessionEnded))) ;;
    disconnect ;;
    x_upd (fun s => {| s with x_monitors := []; x_held_keys := []; x_held_buttons := [] |}) ;;
    tell_monitors ;;
    do s <- get; when (session_cb s) (x_put (OSession false)).
(** [dead_displays().count(dpy_)] *)
Definition looks_dead : X bool :=
  do s <- get;
  match fate s with [] => ret false | d :: rest => x_upd (fun s => {| s with fate := rest |}) ;; ret d end.
Definition usable : X bool :=
  do s <- get;
  if negb (x_dpy s) then ret false
  else do dead <- looks_dead; if dead then x_lost "the X server went away" ;; ret false else ret true.

(** ** Monitors *)
(** An unplugged output is no monitor. *)
Definition monitor_key (r : RandrMonitor) : option MonitorKey :=
  let label := default ""%string (rm_name r) in
  match rm_output r with
  | None => Some (no_identity label)
  | Some o =>
    let '(connector, unplugged) := default (label, false) (ro_info o) in
    if unplugged then None
    else match ro_edid o with
         | Some (format, data) => Some (if format =? 8 then edid_key (Some data) connector else no_identity connector)
         | None => Some (no_identity connector)
         end
  end.
Definition keyed (l : list RandrMonitor) : list (MonitorKey * RandrMonitor) := omap (fun r => (fun k => (k, r)) <$> monitor_key r) l.
Definition handle_of (wire : string) (ids : list (string * Z)) (next : Z) : Z * list (string * Z) * Z :=
  match sm_find wire ids with Some id => (id, ids, next) | None => (next, sm_set wire next ids, next + 1) end.
Fixpoint place_all (l : list (string * (MonitorKey * RandrMonitor))) (ids : list (string * Z)) (next : Z) : list Monitor * list (string * Z) * Z :=
  match l with
  | [] => ([], ids, next)
  | (wire, (k, r)) :: l' =>
    let '(id, ids, next) := handle_of wire ids next in
    let m := {| m_id := id; wire_id := wire; m_connector := k_connector k; m_label := if String.eqb (model k) "" then default ""%string (rm_name r) else model k; m_primary := rm_primary r;
                m_x := r_x (rm_rect r); m_y := r_y (rm_rect r); m_width := r_w (rm_rect r); m_height := r_h (rm_rect r); m_scale := of_Z 1; cursor_in_video := false |} in
    let '(ms, ids, next) := place_all l' ids next in (m :: ms, ids, next)
  end.
Definition sole_is_primary (l : list Monitor) : list Monitor := match l with [m] => [{| m with m_primary := true |}] | _ => l end.
Definition same_monitor (a b : Monitor) : bool := String.eqb (wire_id a) (wire_id b) && bool_decide (rect_of a = rect_of b) && Bool.eqb (m_primary a) (m_primary b).
Fixpoint same_monitors (a b : list Monitor) : bool :=
  match a, b with [], [] => true | x :: a', y :: b' => same_monitor x y && same_monitors a' b' | _, _ => false end.
(** The last of the set with that handle. *)
Definition find_last (id : Z) (l : list Monitor) : option Monitor := foldl (fun now m => if m_id m =? id then Some m else now) None l.
(** The capture of a monitor that moved or resized. *)
Definition follow (before next : list Monitor) (m : Z) (c : XSrc) : X unit :=
  match find_last m next, find_mon m before with
  | Some now, Some was =>
    if bool_decide (rect_of was = rect_of now) then ret tt
    else match move_to (rect_of now) c with
         | Some c' => store m c'
         | None => do c <- avail m false "the monitor changed size" c; do _ <- avail m true "" (set_rect (rect_of now) c); ret tt
         end
  | _, _ => ret tt
  end.
Definition read_monitors (force : bool) (answer : list RandrMonitor) : X unit :=
  do ok <- usable;
  if negb ok then ret tt
  else
    do s <- get;
    let ks := keyed answer in
    let '(next, ids, n) := place_all (zip (wire_ids (map fst ks)) ks) (x_ids s) (x_next s) in
    let next := sole_is_primary next in
    x_upd (fun s => {| s with x_ids := ids; x_next := n |}) ;;
    if negb force && same_monitors (x_monitors s) next then ret tt
    else
      for_each (x_captures s) (fun kc => follow (x_monitors s) next kc.1 kc.2) ;;
      x_upd (fun s => {| s with x_monitors := next |}) ;;
      tell_monitors.

(** ** The cursor *)
(** A pixel is an [unsigned long], ARGB premultiplied. *)
Definition bgra_of (pixels : list Z) (i : Z) : Z := Z.land (Z.shiftr (nth (Z.to_nat (i / 4)) pixels 0) (8 * (i mod 4))) 0xff.
Definition shape_of (c : XCursor) : CursorImage :=
  let img := {| shape := ""; CursorImage.visible := (0 <? xc_width c) && (0 <? xc_height c); invalid := false; ci_width := xc_width c; ci_height := xc_height c;
                CursorImage.hot_x := xc_hot_x c; CursorImage.hot_y := xc_hot_y c; CursorImage.rgba := to_straight_rgba (bgra_of (xc_pixels c)) (xc_width c) (xc_height c) (xc_width c * 4) true |} in
  {| img with shape := CursorImage.shape_id img |}.
Definition read_cursor (answer : option XCursor) : X unit :=
  do ok <- usable;
  match answer with
  | Some c =>
    if negb ok then ret tt
    else
      do s <- get;
      if match x_shape s with Some old => String.eqb (shape (shape_of c)) (shape old) | None => false end then ret tt
      else x_upd (fun s => {| s with x_shape := Some (shape_of c) |}) ;; when (shape_cb s) (x_put (OShape (shape_of c)))
  | None => ret tt
  end.
Definition inside (x y : Z) (m : Monitor) : bool := (m_x m <=? x) && (x <? m_x m + m_width m) && (m_y m <=? y) && (y <? m_y m + m_height m).
Definition fraction (v size : Z) : dbl := (of_Z v / of_Z (Z.max 1 (size - 1)))%dbl.
Definition poll_pointer (answer : option (Z * Z)) : X unit :=
  do s <- get;
  if negb (position_cb s) then ret tt
  else
    do ok <- usable;
    match answer with
    | Some (rx, ry) =>
      do s <- get;
      if negb ok || ((rx =? last_x s) && (ry =? last_y s)) then ret tt
      else
        x_upd (fun s => {| s with last_x := rx; last_y := ry |}) ;;
        match List.find (inside rx ry) (x_monitors s) with
        | Some m => x_put (OPosition (m_id m) (fraction (rx - m_x m) (m_width m)) (fraction (ry - m_y m) (m_height m)))
        | None => ret tt
        end
    | None => ret tt
    end.

(** ** Opening the display *)
(** [None]: it does not open. *)
Definition x_connect (o : option Opening) : X unit :=
  match o with
  | None => ret tt
  | Some o =>
    if negb (op_extensions o) then ret tt
    else if (op_major o <? 1) || (op_major o =? 1) && (op_minor o <? 5) then ret tt
    else
      x_upd (fun s => {| s with x_dpy := true |}) ;; x_put OOpen ;; with_clip (x_attach (op_window o)) ;;
      x_upd (fun s => {| s with x_keymap := None |}) ;;
      read_monitors true (op_monitors o) ;;
      read_cursor (op_cursor o) ;;
      do s <- get;
      for_each (x_captures s) (fun kc => do _ <- avail kc.1 true "" kc.2; ret tt) ;;
      when (session_cb s) (x_put (OSession true))
  end.
Inductive DEvent := DClip (e : XEvent) | DLayout | DCursor (c : option XCursor) | DMapping | DOther.
(** The events in turn, while the display is open; whether one was of the layout. *)
Fixpoint handle_events (evs : list DEvent) (layout : bool) : X bool :=
  match evs with
  | [] => ret layout
  | e :: evs' =>
    do s <- get;
    if negb (x_dpy s) then ret layout
    else
      (match e with
       | DClip e => with_clip (do _ <- x_handle e; ret tt)
       | DCursor c => read_cursor c
       | DMapping => x_upd (fun s => {| s with x_keymap := None |})
       | DLayout | DOther => ret tt
       end) ;;
      handle_events evs' (layout || match e with DLayout => true | _ => false end)
  end.
Definition x_drain (evs : list DEvent) (answer : list RandrMonitor) : X unit :=
  do layout <- handle_events evs false;
  do s <- get;
  do dead <- (if x_dpy s then looks_dead else ret false);
  if dead then x_lost "the X server went away" else when layout (read_monitors false answer).
Definition x_dispatch (hup : bool) (evs : list DEvent) (answer : list RandrMonitor) : X unit :=
  do s <- get;
  if negb (x_dpy s) then ret tt
  else if hup then x_lost "the X server closed the connection" else x_drain evs answer.
Definition x_tick (answer : list RandrMonitor) (o : option Opening) : X unit :=
  do s <- get;
  if x_dpy s then read_monitors false answer
  else x_upd (fun s => {| s with reconnect_ticks := u32 (reconnect_ticks s + 1) |}) ;; when (u32 (reconnect_ticks s + 1) mod 4 =? 0) (x_connect o).

(** ** Input *)
(** [std::lround]: to the nearest integer, halves away from zero; of what is no number, anything. *)
Definition lround (d : dbl) : Z :=
  match d with
  | S754_finite s m e =>
    let r := if 0 <=? e then Z.pos m * 2 ^ e else (2 * Z.pos m / 2 ^ (- e) + 1) / 2 in
    if s then - r else r
  | _ => 0
  end.
Definition x_motion (m : Z) (nx ny : dbl) : X unit :=
  do s <- get;
  let mo := find_mon m (x_monitors s) in
  do ok <- usable;
  match mo with
  | Some mo => when ok (x_put (OMotion (m_x mo + lround (nx * of_Z (m_width mo - 1))%dbl) (m_y mo + lround (ny * of_Z (m_height mo - 1))%dbl)))
  | None => ret tt
  end.
Definition x_button_code (b : MouseButton) : Z := match b with BLeft => 1 | BMiddle => 2 | BRight => 3 | BBack => 8 | BForward => 9 end.
Definition x_button (b : MouseButton) (down : bool) : X unit :=
  do ok <- usable;
  do s <- get;
  let c := x_button_code b in
  if negb ok || Bool.eqb down (sm_count c (x_held_buttons s)) then ret tt
  else x_put (OButton c down) ;; x_upd (fun s => {| s with x_held_buttons := hold c down (x_held_buttons s) |}).
Definition x_key (code : Z) (down : bool) : X unit :=
  do ok <- usable;
  do s <- get;
  if negb ok || Bool.eqb down (sm_count code (x_held_keys s)) then ret tt
  else x_put (OKey (code + 8) down) ;; x_upd (fun s => {| s with x_held_keys := hold code down (x_held_keys s) |}).
Definition WHEEL_STEP : Z := 48.
(** The loop of clicks: whether it ended within [fuel] turns, what is left, the buttons clicked. *)
Fixpoint clicks (fuel : nat) (neg pos : Z) (acc : dbl) : bool * dbl * list Z :=
  if negb (of_Z WHEEL_STEP <=? SFabs acc)%dbl then (true, acc, [])
  else match fuel with
       | O => (false, acc, [])
       | S fuel' =>
         let down := (acc <? of_Z 0)%dbl in
         let '(ended, rest, bs) := clicks fuel' neg pos (acc - of_Z (if down then - WHEEL_STEP else WHEEL_STEP))%dbl in
         (ended, rest, (if down then neg else pos) :: bs)
       end.
Definition click (b : Z) : X unit := x_put (OButton b true) ;; x_put (OButton b false).
(** A loop that does not end keeps the core loop in the handler: nothing happens any more. *)
Definition x_wheel (fuel : nat) (dx dy : dbl) : X unit :=
  do ok <- usable;
  do s <- get;
  if negb ok then ret tt
  else
    let '(ey, y, ys) := clicks fuel 4 5 (wheel_y s + dy)%dbl in
    let '(ex, x, xs) := clicks fuel 6 7 (wheel_x s + dx)%dbl in
    for_each ys click ;;
    if negb ey then x_upd (fun s => {| s with hung := true |})
    else for_each xs click ;; x_upd (fun s => {| s with wheel_x := x; wheel_y := y; hung := negb ex |}).
Definition x_release_all : X unit :=
  do ok <- usable;
  do s <- get;
  when ok (for_each (x_held_keys s) (fun k => x_put (OKey (k.1 + 8) false)) ;; for_each (x_held_buttons s) (fun b => x_put (OButton b.1 false))) ;;
  x_upd (fun s => {| s with x_held_keys := []; x_held_buttons := [] |}).

(** *** Typing *)
Fixpoint split_at_nul (l : list byte) : list (list byte) :=
  match l with
  | [] => [[]]
  | b :: l' => match split_at_nul l' with
               | p :: ps => if bool_decide (b = x00) then [] :: p :: ps else (b :: p) :: ps
               | [] => []
               end
  end.
Fixpoint until_comma (l : list byte) : list byte := match l with [] => [] | b :: l' => if bool_decide (b = x2c) then [] else b :: until_comma l' end.
Definition name_of (l : list byte) : string := of_chars (ascii_of_byte <$> until_comma l).
(** [_XKB_RULES_NAMES]: rules, model, layout, variant, options. *)
Definition layout_names (names : option (list byte)) : string * string :=
  match names with
  | None => ("us", "")%string
  | Some data =>
    let parts := split_at_nul data in
    (match parts !! 2%nat with Some (b :: p) => name_of (b :: p) | _ => "us"%string end, match parts !! 3%nat with Some p => name_of p | None => ""%string end)
  end.
Definition x_load_keymap (names : option (list byte)) : X unit := let '(l, v) := layout_names names in x_upd (fun s => {| s with x_keymap := from_names l v |}).
Definition x_type_stroke (s : KeyStroke) : X unit :=
  for_each (modifiers s) (fun m => x_key m true) ;; x_key (key s) true ;; x_key (key s) false ;; for_each (rev (modifiers s)) (fun m => x_key m false).
Definition x_type_text (utf8 : list Z) (names : option (list byte)) : X (list (list Z) * string) :=
  do ok <- usable;
  if negb ok then ret ([], "the X display is not open"%string)
  else
    do s <- get;
    when (match x_keymap s with None => true | Some _ => false end) (x_load_keymap names) ;;
    do s <- get;
    match x_keymap s with
    | None => ret ([], "the X server's keyboard layout could not be read"%string)
    | Some K =>
      let '(strokes, untypable) := strokes_of K 0 (decode_utf8 utf8) [] [] in
      if negb (Nat.eqb (length untypable) 0) then ret (untypable, ""%string)
      else x_release_all ;; for_each strokes x_type_stroke ;; ret ([], ""%string)
    end.

(** ** What reaches it *)
Inductive XIn :=
| IStart (o : option Opening) | ITick (answer : list RandrMonitor) (o : option Opening) | IIdle | IDispatch (hup : bool) (evs : list DEvent) (answer : list RandrMonitor)
| IPoll (p : option (Z * Z)) | IOnMonitors | IOnLost | IOnSession | IOnShape | IOnPosition
| IStartCapture (m : Z) | IStopCapture (m : Z) | ICreateBin (m : Z) | IBinGone (m : Z)
| IMotion (m : Z) (nx ny : dbl) | IButton (b : MouseButton) (down : bool) | IWheel (fuel : nat) (dx dy : dbl) | IKey (code : Z) (down : bool)
| IText (utf8 : list Z) (names : option (list byte)) | IRelease
| IClipRead (k : nat) (type : string) (max : Z) | IClipWrite (k : nat) (type : string) (bytes : list byte) (t : Z) (took : bool) | IClipTimeout | IClipSendTimeout (id : Z)
| ISound (i : SInput).
Definition at_source (m : Z) (f : XSrc -> XSrc) : X unit := do s <- get; match sm_find m (x_captures s) with Some c => store m (f c) | None => ret tt end.
Definition on_idle : X unit :=
  do s <- get;
  if Nat.eqb (idles s) 0 then ret tt
  else x_upd (fun s => {| s with idles := pred (idles s) |}) ;; when (monitors_cb s && x_dpy s) tell_monitors.
Definition x_handler (i : XIn) : X unit :=
  match i with
  | IStart o => do s <- get; if x_dpy s then ret tt else x_connect o
  | ITick answer o => x_tick answer o
  | IIdle => on_idle
  | IDispatch hup evs answer => x_dispatch hup evs answer
  | IPoll p => poll_pointer p
  | IOnMonitors => x_upd (fun s => {| s with monitors_cb := true; idles := S (idles s) |})
  | IOnLost => x_upd (fun s => {| s with lost_cb := true |})
  | IOnSession => x_upd (fun s => {| s with session_cb := true |})
  | IOnShape => do s <- get; x_upd (fun s => {| s with shape_cb := true |}) ;; match x_shape s with Some c => x_put (OShape c) | None => ret tt end
  | IOnPosition => x_upd (fun s => {| s with position_cb := true |})
  | IStartCapture m => do _ <- x_start_capture m; ret tt
  | IStopCapture m => x_stop_capture m
  | ICreateBin m => at_source m create_bin
  | IBinGone m => at_source m (fun c => {| c with s_live := None |})
  | IMotion m nx ny => x_motion m nx ny
  | IButton b down => x_button b down
  | IWheel fuel dx dy => x_wheel fuel dx dy
  | IKey code down => x_key code down
  | IText utf8 names => do _ <- x_type_text utf8 names; ret tt
  | IRelease => x_release_all
  | IClipRead k type max => with_clip (x_read k type max)
  | IClipWrite k type bytes t took => with_clip (x_write k type bytes t took)
  | IClipTimeout => with_clip (c_step CIFetchTimeout)
  | IClipSendTimeout id => with_clip (send_timeout id)
  | ISound i => do s <- get; when (listener s) (with_sound (s_step i))
  end.
(** A turn of the loop: the fate of the connection in it, and what reaches the backend. *)
Definition x_step (t : list bool * XIn) : X unit :=
  do s <- get; if hung s then ret tt else x_upd (fun s => {| s with fate := t.1 |}) ;; x_handler t.2.
Definition x_run (listener_ : bool) (ts : list (list bool * XIn)) : X11 := foldl (fun s t => (x_step t s).1) (new_x11 listener_) ts.
End Backend.
