(* ===== verification/X11InputProofs.v ===== *)
(** * X11InputProofs: nothing XTest pressed stays down

    What is down on the X server, by the events sent to it since the display opened, is what the backend
    keeps as held, in every run and wherever the connection dies. Whole pixels of the wheel are clicked
    exactly; too many at once never end. *)

From Stdlib Require Import ZArith Lia Strings.Byte Ascii String SpecFloat.
From stdpp Require Import base list strings relations.
From S2P Require Import Prelude Monad StdMap Floats FloatInts Keymap Screens Desktop CursorImage DesktopSound EisInput X11Clipboard X11Backend.

(** ** What is down *)
Definition key_down (c : Z) (l : list XOut) : bool :=
  foldl (fun d e => match e with OKey c' now => if c' =? c then now else d | OClose => false | _ => d end) false l.
Definition button_down (b : Z) (l : list XOut) : bool :=
  foldl (fun d e => match e with OButton b' now => if b' =? b then now else d | OClose => false | _ => d end) false l.
#[global] Arguments key_down : simpl never.
#[global] Arguments button_down : simpl never.
Record down_inv (s : X11) : Prop := {
  di_keys c : key_down (c + 8) (x_log s) = sm_count c (x_held_keys s);
  di_buttons b : button_down b (x_log s) = sm_count b (x_held_buttons s);
  di_wheel b : 4 <= b <= 7 -> sm_count b (x_held_buttons s) = false;
  di_closed : x_dpy s = false -> x_held_keys s = [] /\ x_held_buttons s = []
}.
Definition keeps (s s' : X11) : Prop := down_inv s -> down_inv s'.
#[export] Instance keeps_preorder : PreOrder keeps.
Proof. unfold keeps. split; [by intros s | intros a b c; auto]. Qed.
Definition no_input (e : XOut) : bool := match e with OKey _ _ | OButton _ _ | OClose => false | _ => true end.
Lemma put_keeps e : no_input e = true -> respects keeps (x_put e).
Proof. intros He s [H1 H2 H3 H4]. split; cbn; try done; [intros c; specialize (H1 c) | intros b; specialize (H2 b)]; unfold key_down, button_down; rewrite foldl_snoc; by destruct e. Qed.
Definition same_input (s s' : X11) : Prop := x_log s' = x_log s /\ x_held_keys s' = x_held_keys s /\ x_held_buttons s' = x_held_buttons s.
Lemma same_keeps s s' : same_input s s' -> x_dpy s' = x_dpy s -> keeps s s'.
Proof. intros (E1 & E2 & E3) E4 [H1 H2 H3 H4]. by split; rewrite ?E1, ?E2, ?E3, ?E4. Qed.
Lemma x_upd_keeps f : (forall s, same_input s (f s) /\ x_dpy (f s) = x_dpy s) -> respects keeps (x_upd f).
Proof. intros Hf s. destruct (Hf s). by apply same_keeps. Qed.

Section Down.
Context `{V : X11Env} `{A : Atoms}.
Create HintDb xin.
Ltac xin := repeat first [ solve [auto with xin nocore] | respects_step | by apply put_keeps | by apply x_upd_keeps ].
Lemma clip_keeps p : respects keeps (with_clip p).
Proof. unfold with_clip. xin. Qed.
Lemma avail_keeps m now why c : respects keeps (avail m now why c).
Proof. unfold avail, store. xin. Qed.
#[local] Hint Resolve clip_keeps avail_keeps : xin.
Lemma start_keeps m : respects keeps (x_start_capture m).
Proof. unfold x_start_capture. xin. Qed.
Lemma x_stop_keeps m : respects keeps (x_stop_capture m).
Proof. unfold x_stop_capture. xin. Qed.
#[local] Hint Resolve start_keeps x_stop_keeps : xin.
Lemma tell_keeps : respects keeps tell_monitors.
Proof. unfold tell_monitors. xin. Qed.
#[local] Hint Resolve tell_keeps : xin.
(** With the connection goes what was down on it. *)
Lemma closing_keeps (s : X11) : keeps s {| (disconnect s).1 with x_monitors := []; x_held_keys := []; x_held_buttons := [] |}.
Proof.
  intros [H1 H2 H3 H4]. unfold disconnect. erewrite bind_ok by reflexivity. destruct (x_dpy s) eqn:Ed.
  - erewrite bind_ok by reflexivity. split; cbn; try done; intros; unfold key_down, button_down; by rewrite foldl_snoc.
  - destruct (H4 eq_refl) as [E1 E2]. erewrite bind_ok by reflexivity. split; cbn; try done; [intros c; by rewrite H1, E1 | intros b; by rewrite H2, E2].
Qed.
Lemma disconnect_ok : forall s, exists s', disconnect s = (s', Ok tt).
Proof. enough (normal disconnect) as H by (intros s; destruct (H s) as (s' & [] & E); by exists s'). unfold disconnect, with_clip, x_put, x_upd. repeat normal_step. Qed.
Lemma lost_keeps why : respects keeps (x_lost why).
Proof.
  unfold x_lost. apply respects_bind; [apply _ | xin | intros s]. destruct (negb (x_dpy s)); [xin|]. apply respects_bind; [apply _ | xin | intros _].
  intros s1. destruct (disconnect_ok s1) as [s2 E2]. rewrite (bind_ok _ _ _ _ _ E2). erewrite bind_ok by reflexivity.
  etrans; [apply closing_keeps|]. rewrite E2. match goal with |- keeps _ (?m ?x).1 => enough (respects keeps m) as H by apply H end. xin.
Qed.
#[local] Hint Resolve lost_keeps : xin.
Lemma looks_keeps : respects keeps looks_dead.
Proof. unfold looks_dead. xin. Qed.
#[local] Hint Resolve looks_keeps : xin.
Lemma usable_keeps : respects keeps usable.
Proof. unfold usable. xin. Qed.
#[local] Hint Resolve usable_keeps : xin.
Lemma x_monitors_keeps force answer : respects keeps (read_monitors force answer).
Proof. unfold read_monitors, follow, store. xin. Qed.
Lemma cursor_keeps c : respects keeps (read_cursor c).
Proof. unfold read_cursor. xin. Qed.
#[local] Hint Resolve x_monitors_keeps cursor_keeps : xin.
(** The display opens with nothing down. *)
Lemma open_keeps : respects keeps (x_upd (fun s => {| s with x_dpy := true |})).
Proof. intros s [H1 H2 H3 H4]. by split. Qed.
#[local] Hint Resolve open_keeps : xin.
Lemma connect_keeps o : respects keeps (x_connect o).
Proof. unfold x_connect. xin. Qed.
Lemma events_keeps evs : forall layout, respects keeps (handle_events evs layout).
Proof. induction evs as [|e evs IH]; intros layout; cbn [handle_events]; xin. Qed.
#[local] Hint Resolve connect_keeps events_keeps : xin.

(** *** Keys and buttons *)
(** When a look says no, the display is closed. *)
Definition same_dpy (s s' : X11) : Prop := x_dpy s' = x_dpy s.
#[local] Instance same_dpy_preorder : PreOrder same_dpy.
Proof. split; [by intros s | intros a b c H1 H2; unfold same_dpy in *; congruence]. Qed.
Lemma upd_same_dpy f : (forall s, x_dpy (f s) = x_dpy s) -> respects same_dpy (x_upd f).
Proof. intros Hf s. apply Hf. Qed.
Lemma tell_same_dpy : respects same_dpy tell_monitors.
Proof. unfold tell_monitors, x_start_capture, x_stop_capture, avail, store, x_put. repeat first [respects_step | by apply upd_same_dpy]. Qed.
Lemma lost_closes why s : x_dpy (x_lost why s).1 = false.
Proof.
  unfold x_lost. erewrite bind_ok by reflexivity. destruct (x_dpy s) eqn:Ed; cbn [negb]; [|done].
  match goal with |- x_dpy (bind ?m ?f s).1 = false => enough (forall s, x_dpy (f tt s).1 = false /\ normal m) as H end.
  { destruct (H s) as [_ Hn]. destruct (Hn s) as (s1 & [] & E). rewrite (bind_ok _ _ _ _ _ E). apply H. }
  intros s1. split; [|unfold avail, store, x_put, x_upd; repeat normal_step].
  destruct (disconnect_ok s1) as [s2 E2]. assert (x_dpy s2 = false) as Hs2 by (revert E2; unfold disconnect; erewrite bind_ok by reflexivity; destruct (x_dpy s1); unfold bind; cbn; by intros [= <-]).
  rewrite (bind_ok _ _ _ _ _ E2). erewrite bind_ok by reflexivity. match goal with |- x_dpy (?m ?x).1 = false => assert (respects same_dpy m) as Hm end.
  { apply respects_bind; [apply _ | apply tell_same_dpy|]. intros _. unfold x_put. repeat first [respects_step | by apply upd_same_dpy]. }
  match goal with |- x_dpy (?m ?x).1 = false => specialize (Hm x); unfold same_dpy in Hm; rewrite Hm end. done.
Qed.
Definition with_fate (f : list bool) (s : X11) : X11 := {| s with fate := f |}.
(** A look keeps everything when it says yes, and has closed the display when it says no. *)
Lemma usable_cases s : (exists f, usable s = (with_fate f s, Ok true) /\ x_dpy s = true) \/ (exists s', usable s = (s', Ok false) /\ x_dpy s' = false) \/ (exists s' e, usable s = (s', Throw e)).
Proof.
  unfold usable. erewrite bind_ok by reflexivity. destruct (x_dpy s) eqn:Ed; cbn [negb]; [|right; left; by exists s]. unfold looks_dead, bind, get, ret. destruct (fate s) as [|d rest] eqn:Ef.
  - left. exists []. split; [|done]. unfold with_fate. rewrite <- Ef. by destruct s.
  - cbn [x_upd modify]. destruct d; [|left; by exists rest]. right. match goal with |- context [x_lost ?w ?x] => pose proof (lost_closes w x) as Hc; destruct (x_lost w x) as [s1 [[]|e]] end; [left; by exists s1 | right; by exists s1, e].
Qed.
Lemma count_hold c c' down h : sm_count c (hold c' down h) = if c' =? c then down else sm_count c h.
Proof.
  unfold sm_count, hold. destruct (Z.eqb_spec c' c) as [->|Hne]; destruct down; [by rewrite sm_find_set_eq | by rewrite sm_find_erase_eq | by rewrite sm_find_set_ne | by rewrite sm_find_erase_ne].
Qed.
Lemma after_usable {B} (k : bool -> Prog X11 B) : (forall s, x_dpy s = true -> keeps s (k true s).1) -> respects keeps (k false) -> respects keeps (do ok <- usable; k ok).
Proof.
  intros Ht Hf s. destruct (usable_cases s) as [(f & E & Hd)|[(s' & E & Hd)|(s' & e & E)]].
  - rewrite (bind_ok _ _ _ _ _ E). etrans; [|by apply Ht]. intros [H1 H2 H3 H4]. by split.
  - rewrite (bind_ok _ _ _ _ _ E). etrans; [|apply Hf]. pose proof (usable_keeps s) as Hk. by rewrite E in Hk.
  - unfold bind. rewrite E. pose proof (usable_keeps s) as Hk. by rewrite E in Hk.
Qed.
Lemma x_key_keeps code down : respects keeps (x_key code down).
Proof.
  unfold x_key. apply after_usable; [|xin]. intros s Hd. erewrite bind_ok by reflexivity. cbn [negb orb]. destruct (Bool.eqb down (sm_count code (x_held_keys s))); [done|]. intros [H1 H2 H3 H4]. split; cbn.
  - intros c. unfold key_down. rewrite foldl_snoc, count_hold. destruct (Z.eqb_spec (code + 8) (c + 8)), (Z.eqb_spec code c); try lia; [done | apply H1].
  - intros b. unfold button_down. rewrite foldl_snoc. apply H2.
  - done.
  - congruence.
Qed.
Lemma x_button_keeps b down : respects keeps (x_button b down).
Proof.
  unfold x_button. apply after_usable; [|xin]. intros s Hd. erewrite bind_ok by reflexivity. cbn [negb orb]. destruct (Bool.eqb down _); [done|]. intros [H1 H2 H3 H4]. split; cbn.
  - intros c. unfold key_down. rewrite foldl_snoc. apply H1.
  - intros c. unfold button_down. rewrite foldl_snoc, count_hold. destruct (Z.eqb_spec (x_button_code b) c); [done | apply H2].
  - intros c Hc. rewrite count_hold. destruct (Z.eqb_spec (x_button_code b) c); [destruct b; cbn in *; lia | by apply H3].
  - congruence.
Qed.
Lemma click_keeps b : 4 <= b <= 7 -> respects keeps (click b).
Proof.
  intros Hb s [H1 H2 H3 H4]. split; cbn; try done.
  - intros c. unfold key_down. rewrite !foldl_snoc. apply H1.
  - intros c. unfold button_down. rewrite !foldl_snoc. destruct (Z.eqb_spec b c) as [->|]; [symmetry; by apply H3 | apply H2].
Qed.
Lemma clicks_codes fuel neg pos : forall acc, Forall (fun b => b = neg \/ b = pos) (clicks fuel neg pos acc).2.
Proof.
  induction fuel as [|fuel IH]; intros acc; cbn [clicks]; destruct (negb _); try constructor. match goal with |- context [clicks fuel neg pos ?x] => specialize (IH x); destruct (clicks fuel neg pos x) as [[e r] bs] end.
  constructor; [|done]. destruct (_ <? _)%dbl; auto.
Qed.
Lemma clicks_keep fuel neg pos acc : 4 <= neg <= 7 -> 4 <= pos <= 7 -> respects keeps (for_each (clicks fuel neg pos acc).2 click).
Proof.
  intros Hn Hp. apply respects_for_each; [apply _|]. intros b Hb. apply click_keeps. pose proof (clicks_codes fuel neg pos acc) as Hc. rewrite Forall_forall in Hc. destruct (Hc b) as [->| ->]; [by apply list_elem_of_In | done | done].
Qed.
Lemma wheel_keeps fuel dx dy : respects keeps (x_wheel fuel dx dy).
Proof.
  unfold x_wheel. apply respects_bind; [apply _ | xin | intros ok]. apply respects_bind; [apply _ | xin | intros s]. destruct (negb ok); [xin|].
  pose proof (clicks_keep fuel 4 5 (wheel_y s + dy)%dbl ltac:(lia) ltac:(lia)) as Hy. pose proof (clicks_keep fuel 6 7 (wheel_x s + dx)%dbl ltac:(lia) ltac:(lia)) as Hx.
  destruct (clicks fuel 4 5 _) as [[ey y] ys], (clicks fuel 6 7 _) as [[ex x] xs]. xin.
Qed.
#[local] Hint Resolve x_key_keeps x_button_keeps wheel_keeps : xin.
(** All that is held is let go. *)
Lemma keys_up l : forall s, exists s', for_each l (fun k : Z * unit => x_put (OKey (k.1 + 8) false)) s = (s', Ok tt) /\ x_held_buttons s' = x_held_buttons s
  /\ (forall c, key_down (c + 8) (x_log s') = if sm_count c l then false else key_down (c + 8) (x_log s)) /\ forall b, button_down b (x_log s') = button_down b (x_log s).
Proof.
  induction l as [|[k []] l IH]; intros s; cbn [for_each]; [by exists s|]. erewrite bind_ok by reflexivity. match goal with |- context [for_each l _ ?x] => destruct (IH x) as (s' & E & H1 & H2 & H3) end. exists s'. split_and!; [done | done | |].
  - intros c. rewrite H2. cbn. unfold key_down at 1. rewrite foldl_snoc. unfold sm_count at 2. cbn [sm_find]. fold (sm_count c l). destruct (Z.eqb_spec (k + 8) (c + 8)) as [Ek|Ek].
    + assert (c = k) as -> by lia. rewrite keqb_refl. by destruct (sm_count k l).
    + rewrite keqb_ne by lia. done.
  - intros b. rewrite H3. cbn. unfold button_down. by rewrite foldl_snoc.
Qed.
Lemma buttons_up l : forall s, exists s', for_each l (fun b : Z * unit => x_put (OButton b.1 false)) s = (s', Ok tt)
  /\ (forall c, key_down c (x_log s') = key_down c (x_log s)) /\ forall b, button_down b (x_log s') = if sm_count b l then false else button_down b (x_log s).
Proof.
  induction l as [|[k []] l IH]; intros s; cbn [for_each]; [by exists s|]. erewrite bind_ok by reflexivity. match goal with |- context [for_each l _ ?x] => destruct (IH x) as (s' & E & H1 & H2) end. exists s'. split_and!; [done | |].
  - intros c. rewrite H1. cbn. unfold key_down. by rewrite foldl_snoc.
  - intros b. rewrite H2. cbn. unfold button_down at 1. rewrite foldl_snoc. unfold sm_count at 2. cbn [sm_find]. fold (sm_count b l). destruct (Z.eqb_spec k b) as [->|Ek].
    + rewrite keqb_refl. by destruct (sm_count b l).
    + rewrite keqb_ne by done. done.
Qed.
Definition nothing_down (s : X11) : Prop := (forall c, key_down c (x_log s) = false) /\ forall b, button_down b (x_log s) = false.
Lemma held_none s : down_inv s -> x_held_keys s = [] -> x_held_buttons s = [] -> nothing_down s.
Proof. intros [H1 H2 _ _] E1 E2. split; [intros c; replace c with (c - 8 + 8) by lia; by rewrite H1, E1 | intros b; by rewrite H2, E2]. Qed.

(** *** Letting go *)
Lemma x_lost_normal why : normal (x_lost why).
Proof. unfold x_lost, disconnect, tell_monitors, x_start_capture, x_stop_capture, with_clip, avail, store, x_put, x_upd. repeat normal_step. Qed.
Lemma usable_normal : normal usable.
Proof. unfold usable, looks_dead, x_upd. repeat first [apply x_lost_normal | normal_step]. Qed.
Lemma release_spec s : down_inv s -> exists s', x_release_all s = (s', Ok tt) /\ down_inv s' /\ x_held_keys s' = [] /\ x_held_buttons s' = [].
Proof.
  intros Hs. unfold x_release_all. destruct (usable_cases s) as [(f & E & Hd)|[(s1 & E & Hd)|(s1 & e & E)]].
  - rewrite (bind_ok _ _ _ _ _ E). erewrite bind_ok by reflexivity. unfold when. destruct (keys_up (x_held_keys (with_fate f s)) (with_fate f s)) as (s1 & E1 & B1 & K1 & C1). destruct (buttons_up (x_held_buttons (with_fate f s)) s1) as (s2 & E2 & K2 & C2).
    rewrite (bind_ok _ _ (with_fate f s) s2 tt) by (by rewrite (bind_ok _ _ _ _ _ E1)). eexists. split; [reflexivity|]. destruct Hs as [H1 H2 H3 H4]. split; [|done]. split; cbn; try done.
    + intros c. rewrite K2, K1. cbn. rewrite H1. by destruct (sm_count c (x_held_keys s)).
    + intros b. rewrite C2, C1. cbn. rewrite H2. by destruct (sm_count b (x_held_buttons s)).
  - rewrite (bind_ok _ _ _ _ _ E). erewrite bind_ok by reflexivity. unfold when. erewrite bind_ok by reflexivity. eexists. split; [reflexivity|]. pose proof (usable_keeps s Hs) as Hk. rewrite E in Hk. cbn in Hk. destruct (di_closed _ Hk Hd) as [E1 E2]. split; [|done].
    destruct Hk as [H1 H2 H3 H4]. split; cbn; try done; [intros c; by rewrite H1, E1 | intros b; by rewrite H2, E2].
  - destruct (usable_normal s) as (? & ? & E'). congruence.
Qed.
Lemma x_release_keeps : respects keeps x_release_all.
Proof. intros s Hs. destruct (release_spec s Hs) as (s' & -> & Hs' & _). done. Qed.
#[local] Hint Resolve x_release_keeps : xin.
Lemma x_text_keeps utf8 names : respects keeps (x_type_text utf8 names).
Proof. unfold x_type_text, x_load_keymap, x_type_stroke. destruct (layout_names names). xin. Qed.
#[local] Hint Resolve x_text_keeps : xin.
Lemma handler_keeps i : respects keeps (x_handler i).
Proof.
  destruct i; cbn [x_handler]; unfold x_tick, on_idle, x_dispatch, x_drain, poll_pointer, x_motion, at_source, store; xin.
  intros s [H1 H2 H3 H4]. unfold with_sound. destruct (s_step _ _). by split.
Qed.
Lemma step_keeps t : respects keeps (x_step t).
Proof. unfold x_step. pose proof (handler_keeps t.2). xin. Qed.
Lemma run_down l ts : down_inv (x_run l ts).
Proof. unfold x_run. induction ts as [|t ts IH] using rev_ind; [by split|]. rewrite foldl_app. by apply step_keeps. Qed.

(** *** Typing *)
(** Pressing or releasing a key changes only that key; a lost display lets go of all. *)
Lemma key_held code down s : down_inv s -> exists s', x_key code down s = (s', Ok tt) /\ x_held_buttons s' = (if x_dpy s' then x_held_buttons s else [])
  /\ forall c, sm_count c (x_held_keys s') = true -> (c = code /\ down = true) \/ (c <> code /\ sm_count c (x_held_keys s) = true).
Proof.
  intros Hs. unfold x_key. destruct (usable_cases s) as [(f & E & Hd)|[(s1 & E & Hd)|(s1 & e & E)]].
  - rewrite (bind_ok _ _ _ _ _ E). erewrite bind_ok by reflexivity. cbn [negb orb]. destruct (Bool.eqb down _) eqn:Eb; (eexists; split; [reflexivity|]); (split; [cbn; by rewrite Hd|]); intros c Hc.
    + apply eqb_prop in Eb. cbn in *. destruct (decide (c = code)) as [->|]; [left; by rewrite Eb, Hc | by right].
    + cbn in Hc. rewrite count_hold in Hc. destruct (Z.eqb_spec code c) as [->|]; [by left | right; by split].
  - rewrite (bind_ok _ _ _ _ _ E). erewrite bind_ok by reflexivity. cbn [negb orb]. eexists; split; [reflexivity|]. pose proof (usable_keeps s Hs) as Hk. rewrite E in Hk. cbn in Hk. destruct (di_closed _ Hk Hd) as [E1 E2]. rewrite Hd, E1, E2. by split.
  - destruct (usable_normal s) as (? & ? & E'). congruence.
Qed.
(** What may be held after a loop over keys. *)
Lemma keys_held l down : forall s, down_inv s -> x_held_buttons s = [] -> exists s', for_each l (fun m => x_key m down) s = (s', Ok tt) /\ down_inv s' /\ x_held_buttons s' = []
  /\ forall c, sm_count c (x_held_keys s') = true -> (In c l /\ down = true) \/ (~ In c l /\ sm_count c (x_held_keys s) = true) \/ (down = true /\ sm_count c (x_held_keys s) = true).
Proof.
  induction l as [|k l IH]; intros s Hs Hb; cbn [for_each]; [exists s; split_and!; auto|]. destruct (key_held k down s Hs) as (s1 & E1 & B1 & H1). rewrite (bind_ok _ _ _ _ _ E1).
  pose proof (x_key_keeps k down s Hs) as Hs1. rewrite E1 in Hs1. cbn in Hs1. destruct (IH s1 Hs1) as (s2 & E2 & Hs2 & Hb2 & H2); [rewrite B1, Hb; by destruct (x_dpy s1)|]. exists s2. split_and!; [done | done | done|].
  intros c Hc. destruct (H2 c Hc) as [[? ?]|[[Hn Hc1]|[Hd Hc1]]]; [left; by split; [right|]| |]; destruct (H1 c Hc1) as [[-> Hd']|[Hne Hc0]].
  - left. by split; [left|].
  - right. left. split; [|done]. intros [?|?]; [congruence | done].
  - left. by split; [left|].
  - by do 2 right.
Qed.
Lemma stroke_held st s : down_inv s -> x_held_buttons s = [] -> x_held_keys s = [] -> exists s', x_type_stroke st s = (s', Ok tt) /\ down_inv s' /\ x_held_buttons s' = [] /\ x_held_keys s' = [].
Proof.
  intros Hs Hb Hk. unfold x_type_stroke. destruct (keys_held (modifiers st) true s Hs Hb) as (s1 & E1 & I1 & B1 & H1). rewrite (bind_ok _ _ _ _ _ E1).
  assert (forall down x y, for_each [key st] (fun k => x_key k down) x = (y, Ok tt) -> x_key (key st) down x = (y, Ok tt)) as Hone.
  { intros down x y. cbn [for_each]. unfold bind. destruct (x_key (key st) down x) as [w [[]|]]; by cbn; intros [= <-]. }
  destruct (keys_held [key st] true s1 I1 B1) as (s2 & E2 & I2 & B2 & H2). rewrite (bind_ok _ _ _ _ _ (Hone _ _ _ E2)). destruct (keys_held [key st] false s2 I2 B2) as (s3 & E3 & I3 & B3 & H3). rewrite (bind_ok _ _ _ _ _ (Hone _ _ _ E3)).
  destruct (keys_held (rev (modifiers st)) false s3 I3 B3) as (s4 & E4 & I4 & B4 & H4). exists s4. split_and!; [done | done | done|]. apply sm_find_nil. intros c. destruct (sm_find c (x_held_keys s4)) eqn:Ef; [|done]. exfalso.
  destruct (H4 c) as [[_ ?]|[[Hn4 C3]|[? _]]]; [unfold sm_count; by rewrite Ef | done | | done]. rewrite <- in_rev in Hn4.
  destruct (H3 c C3) as [[_ ?]|[[Hn3 C2]|[? _]]]; [done | | done]. destruct (H2 c C2) as [[? _]|[[_ C1]|[_ C1]]]; [done | |]; (destruct (H1 c C1) as [[? _]|[[_ C0]|[_ C0]]]; [done | |]); rewrite Hk in C0; done.
Qed.
Lemma strokes_held sts : forall s, down_inv s -> x_held_buttons s = [] -> x_held_keys s = [] -> exists s', for_each sts x_type_stroke s = (s', Ok tt) /\ down_inv s' /\ x_held_buttons s' = [] /\ x_held_keys s' = [].
Proof.
  induction sts as [|st sts IH]; intros s Hs Hb Hk; cbn [for_each]; [by exists s|]. destruct (stroke_held st s Hs Hb Hk) as (s1 & E1 & I1 & B1 & K1). rewrite (bind_ok _ _ _ _ _ E1). by apply IH.
Qed.
(** A text that is typed leaves nothing down. *)
Lemma text_held utf8 names s s' : down_inv s -> x_type_text utf8 names s = (s', Ok ([], ""%string)) -> nothing_down s'.
Proof.
  intros Hs. unfold x_type_text. destruct (usable_cases s) as [(f & E & Hd)|[(s1 & E & Hd)|(s1 & e & E)]]; [| |destruct (usable_normal s) as (? & ? & E'); congruence]; rewrite (bind_ok _ _ _ _ _ E); cbn [negb]; [|done].
  erewrite bind_ok by reflexivity. pose proof (usable_keeps s Hs) as I1. rewrite E in I1. cbn [fst] in I1. set (s1 := with_fate f s) in *.
  match goal with |- bind (when ?b ?m) ?k s1 = _ -> _ => assert (exists s2, when b m s1 = (s2, Ok tt) /\ down_inv s2) as (s2 & E2 & I2) end.
  { unfold when, x_load_keymap. destruct (layout_names names) as [ly v]. destruct (match x_keymap s1 with Some _ => false | None => true end); [|by exists s1]. eexists. split; [reflexivity|]. by apply (same_keeps s1). }
  rewrite (bind_ok _ _ _ _ _ E2). erewrite bind_ok by reflexivity. destruct (x_keymap s2) as [K|]; [|done]. destruct (strokes_of K 0 (decode_utf8 utf8) [] []) as [sts un]. destruct (negb (Nat.eqb (length un) 0)) eqn:Eu; [by intros [= <- ->]|].
  destruct (release_spec s2 I2) as (s3 & E3 & I3 & K3 & B3). rewrite (bind_ok _ _ _ _ _ E3). destruct (strokes_held sts s3 I3 B3 K3) as (s4 & E4 & I4 & B4 & K4). rewrite (bind_ok _ _ _ _ _ E4). intros [= <-]. by apply held_none.
Qed.
(** C9: Nothing XTest pressed stays down. In every run of the X11 backend, wherever the connection dies,
    the keys and buttons down on the X server (by the events sent since the display opened) are those the backend keeps as held;
    after [release_all_input], and after a text that was typed, none is down; and none is held without a display. *)
Theorem x11_nothing_stays_down l ts fates : let s := x_run l ts in
  (forall c, key_down (c + 8) (x_log s) = sm_count c (x_held_keys s)) /\ (forall b, button_down b (x_log s) = sm_count b (x_held_buttons s))
  /\ (x_dpy s = false -> nothing_down s)
  /\ (hung s = false -> nothing_down (x_run l (ts ++ [(fates, IRelease)])))
  /\ (forall utf8 names s', x_type_text utf8 names s = (s', Ok ([], ""%string)) -> nothing_down s').
Proof.
  intros s. pose proof (run_down l ts) as Hs. fold s in Hs. destruct Hs as [H1 H2 H3 H4] eqn:Eq. clear Eq. assert (down_inv s) as Hi by by split. split_and!; [done | done | | |].
  - intros Hd. destruct (H4 Hd). by apply held_none.
  - intros Hh. unfold x_run. rewrite foldl_app. cbn [foldl]. fold (x_run l ts). fold s. unfold x_step. erewrite bind_ok by reflexivity. rewrite Hh. erewrite bind_ok by reflexivity. cbn [x_handler snd].
    match goal with |- nothing_down (x_release_all ?x).1 => destruct (release_spec x) as (s' & -> & I & K & B); [by apply (same_keeps s)|] end. by apply held_none.
  - intros utf8 names s'. by apply text_held.
Qed.
End Down.

(** ** The wheel *)
Lemma clicks_whole fuel neg pos : forall z, small z -> Z.abs z / WHEEL_STEP <= Z.of_nat fuel ->
  clicks fuel neg pos (of_Z z) = (true, of_Z (Z.rem z WHEEL_STEP), repeat (if z <? 0 then neg else pos) (Z.to_nat (Z.abs z / WHEEL_STEP))).
Proof.
  unfold WHEEL_STEP, small. induction fuel as [|fuel IH]; intros z Hz Hf; cbn [clicks]; unfold WHEEL_STEP in *; rewrite of_Z_abs, of_Z_leb by (unfold small; lia); destruct (Z.leb_spec 48 (Z.abs z)) as [H48|H48]; cbn [negb].
  - pose proof (Z.div_le_mono 48 (Z.abs z) 48 ltac:(lia) H48). rewrite Z.div_same in *; lia.
  - rewrite Z.div_small by lia. cbn. do 3 f_equal. symmetry. apply Z.rem_small_iff; lia.
  - set (d := if z <? 0 then -48 else 48). assert (Z.abs (z - d) = Z.abs z - 48) as Ha by (subst d; destruct (Z.ltb_spec z 0); lia). assert (Z.abs z / 48 = (Z.abs z - 48) / 48 + 1) as Hq by (replace (Z.abs z) with (Z.abs z - 48 + 1 * 48) at 1 by lia; rewrite Z.div_add; lia).
    assert (0 <= (Z.abs z - 48) / 48) as Hp by (apply Z.div_pos; lia). rewrite of_Z_neg by (unfold small; lia). change (if z <? 0 then - (48) else 48) with d. rewrite of_Z_sub by (unfold small; destruct (Z.ltb_spec z 0); subst d; lia).
    rewrite IH by (rewrite Ha; lia). rewrite Ha, Hq, Z2Nat.inj_add by lia. rewrite Nat.add_comm. cbn [Z.to_nat Pos.to_nat Nat.add repeat]. change (Pos.to_nat 1) with 1%nat. cbn [Nat.add repeat]. f_equal; [f_equal; f_equal|].
    + subst d. destruct (Z.ltb_spec z 0); [replace (z - -48) with (z + 1 * 48) by lia | replace (z - 48) with (z + (-1) * 48) by lia]; apply Z.rem_add; lia.
    + f_equal. destruct (Z.ltb_spec z 0), (Z.ltb_spec (z - d) 0); try done; subst d; rewrite (Z.div_small (Z.abs z - 48)) by lia; done.
  - rewrite Z.div_small by lia. cbn. do 3 f_equal. symmetry. apply Z.rem_small_iff; lia.
Qed.
Lemma clicks_log bs : forall s, exists s', for_each bs click s = (s', Ok tt) /\ s' = {| s with x_log := x_log s ++ flat_map (fun b => [OButton b true; OButton b false]) bs |}.
Proof.
  induction bs as [|b bs IH]; intros s; cbn [for_each flat_map]; [exists s; split; [done|]; destruct s; cbn; by rewrite app_nil_r|].
  erewrite bind_ok by reflexivity. match goal with |- context [for_each bs click ?x] => destruct (IH x) as (s' & E & ->) end. eexists. split; [exact E|]. cbn. by rewrite <- !app_assoc.
Qed.
Definition clicked (neg pos z : Z) : list XOut := flat_map (fun b => [OButton b true; OButton b false]) (repeat (if z <? 0 then neg else pos) (Z.to_nat (Z.abs z / WHEEL_STEP))).
Section Wheel.
Context `{V : X11Env} `{A : Atoms}.
(** The wheel loses nothing. On an open display, with whole pixels left over of what came before,
    a wheel message of whole pixels ends, after one click (a press and a release) for each full
    48 pixels, up or down and then left or right, and leaves exactly the pixels that are not a
    click yet. *)
Theorem wheel_exact s fuel x y dx dy : x_dpy s = true -> fate s = [] -> wheel_x s = of_Z x -> wheel_y s = of_Z y -> small x -> small y -> small dx -> small dy -> small (x + dx) -> small (y + dy) ->
  Z.abs (x + dx) / WHEEL_STEP <= Z.of_nat fuel -> Z.abs (y + dy) / WHEEL_STEP <= Z.of_nat fuel ->
  exists s', x_wheel fuel (of_Z dx) (of_Z dy) s = (s', Ok tt) /\ hung s' = false /\ x_log s' = x_log s ++ clicked 4 5 (y + dy) ++ clicked 6 7 (x + dx)
    /\ wheel_x s' = of_Z (Z.rem (x + dx) WHEEL_STEP) /\ wheel_y s' = of_Z (Z.rem (y + dy) WHEEL_STEP).
Proof.
  intros Hd Hf Hx Hy Sx Sy Sdx Sdy Sx' Sy' Fx Fy. unfold x_wheel. assert (usable s = (s, Ok true)) as E by (unfold usable, looks_dead, bind, get, ret; rewrite Hd; cbn; by rewrite Hf).
  rewrite (bind_ok _ _ _ _ _ E). erewrite bind_ok by reflexivity. cbn [negb]. rewrite Hx, Hy, !of_Z_add, !clicks_whole by done.
  match goal with |- context [bind (for_each ?l click) _ s] => destruct (clicks_log l s) as (s1 & E1 & H1) end. rewrite (bind_ok _ _ _ _ _ E1). cbn [negb].
  match goal with |- context [bind (for_each ?l click) _ s1] => destruct (clicks_log l s1) as (s2 & E2 & H2) end. rewrite (bind_ok _ _ _ _ _ E2). eexists. split; [reflexivity|]. cbn. rewrite H2, H1. cbn. by rewrite <- app_assoc.
Qed.
End Wheel.
(** ** On a kiosk *)
#[local] Instance no_atoms : Atoms := {| intern := fun _ => 1; atom_name := fun _ => None |}.
(** A capability that stops what left and starts what came. *)
Definition listed (m : Z) (ms : list Monitor) : bool := match find_mon m ms with Some _ => true | None => false end.
Definition diff (s : X11) (ms : list Monitor) : list Reaction :=
  map RStop (List.filter (fun m => negb (listed m ms)) (map fst (x_captures s))) ++ map RStart (List.filter (fun m => negb (sm_count m (x_captures s))) (map m_id ms)).
(** A layout of one letter, [a] on the key 30, and Shift on 42. *)
Definition one_letter : Xkb := {|
  min_keycode := 8; max_keycode := 60; num_layouts := 1; num_levels := fun kc _ => if kc =? 38 then 1%nat else 0%nat;
  syms_by_level := fun kc _ _ => if kc =? 38 then [0x61] else if kc =? 50 then [0xffe1] else []; keysym_to_utf32 := fun s => if s =? 0x61 then 0x61 else 0;
  mods_for_level := fun _ _ _ => [0]; mod_index := fun _ => None; mods_of_key := fun kc => if kc =? 50 then 1 else 0 |}.
#[local] Instance kiosk : X11Env := {| react := diff; from_names := fun _ _ => Some one_letter |}.
Definition one_screen : list RandrMonitor := [{| rm_name := Some "HDMI-1"%string; rm_output := None; rm_rect := {| r_x := 0; r_y := 0; r_w := 1920; r_h := 1080 |}; rm_primary := false |}].
Definition opening : Opening := {| op_extensions := true; op_major := 1; op_minor := 6; op_window := 77; op_monitors := one_screen; op_cursor := None |}.
Definition pressing : list (list bool * XIn) := [([], IStart (Some opening)); ([], IKey 29 true); ([], IButton BLeft true)].
Lemma x11_nothing_stays_down_witness :
  key_down 37 (x_log (x_run false pressing)) = true /\ nothing_down (x_run false (pressing ++ [([], IRelease)]))
  /\ (exists s', x_type_text [0x61] None (x_run false pressing) = (s', Ok ([], ""%string)) /\ nothing_down s' /\ last (x_log s') = Some (OKey 38 false))
  /\ nothing_down (x_run false (pressing ++ [([true], IKey 30 true)])).
Proof.
  destruct (x11_nothing_stays_down false pressing []) as (_ & _ & _ & Hr & Ht). split_and!; [by vm_compute | apply Hr; by vm_compute | |].
  - eexists. split; [vm_compute; reflexivity|]. split; [|by vm_compute]. eapply (Ht [0x61] None). by vm_compute.
  - destruct (x11_nothing_stays_down false (pressing ++ [([true], IKey 30 true)]) []) as (_ & _ & Hc & _). apply Hc. by vm_compute.
Defined.
Definition wheeled : X11 := x_run false [([], IStart (Some opening)); ([], IWheel 10 (of_Z 0) (of_Z 100))].
Lemma wheel_exact_witness : wheel_y wheeled = of_Z 4 /\ exists s', x_wheel 10 (of_Z (-50)) (of_Z 48) wheeled = (s', Ok tt) /\ hung s' = false
  /\ x_log s' = x_log wheeled ++ [OButton 5 true; OButton 5 false; OButton 6 true; OButton 6 false] /\ wheel_x s' = of_Z (-2) /\ wheel_y s' = of_Z 4.
Proof.
  split; [by vm_compute|]. destruct (wheel_exact wheeled 10 0 4 (-50) 48) as (s' & E & Hh & Hl & Hx & Hy); try done; try (by vm_compute). exists s'. split_and!; done.
Defined.

(** A wheel message of 10^18 pixels, which the capability passes on as it comes, never ends: taking 48
    off a number of that size gives the same number, and the agent clicks for ever. *)
Theorem wheel_never_ends fuel : hung (x_run false [([], IStart (Some opening)); ([], IWheel fuel (of_Z 0) (of_Z (10 ^ 18)))]) = true.
Proof.
  assert (forall fuel, (clicks fuel 4 5 (of_Z (10 ^ 18))).1.1 = false) as Hc.
  { clear fuel. assert ((of_Z WHEEL_STEP <=? SFabs (of_Z (10 ^ 18)))%dbl = true) as E1 by by vm_compute. assert ((of_Z (10 ^ 18) - of_Z WHEEL_STEP)%dbl = of_Z (10 ^ 18)) as E2 by by vm_compute.
    assert ((of_Z (10 ^ 18) <? of_Z 0)%dbl = false) as E3 by by vm_compute. induction fuel as [|fuel IH]; cbn [clicks]; rewrite E1; cbn [negb]; [done|]. rewrite E3. cbv iota. rewrite E2. by destruct (clicks fuel 4 5 (of_Z (10 ^ 18))) as [[e r] bs]. }
  unfold x_run. cbn [foldl]. set (s := (x_step ([], IStart (Some opening)) (new_x11 false)).1). assert (hung s = false /\ x_dpy s = true /\ wheel_y s = of_Z 0) as (H1 & H2 & H3) by by vm_compute. clearbody s.
  unfold x_step. erewrite bind_ok by reflexivity. rewrite H1. erewrite bind_ok by reflexivity. cbn [x_handler snd fst]. set (s1 := {| s with fate := [] |}). assert (usable s1 = (s1, Ok true)) as Eu by (unfold usable, looks_dead, bind, get, ret; cbn; by rewrite H2).
  unfold x_wheel. rewrite (bind_ok _ _ _ _ _ Eu). erewrite bind_ok by reflexivity. cbn [negb]. replace (wheel_y s1 + of_Z (10 ^ 18))%dbl with (of_Z (10 ^ 18)) by (cbn [wheel_y s1]; rewrite H3; by vm_compute).
  specialize (Hc fuel). destruct (clicks fuel 4 5 _) as [[ey y] ys], (clicks fuel 6 7 _) as [[ex x] xs]. cbn in Hc. subst ey. cbn [negb]. destruct (clicks_log ys s1) as (s2 & E2 & _). by rewrite (bind_ok _ _ _ _ _ E2).
Qed.
(** A display that dies while it is being opened is reported as there: the loss is told, then [connect] goes on
    and tells the capability that the desktop runs. *)
Theorem dies_while_opening : let s := x_run false [([], IOnSession); ([true], IStart (Some opening))] in x_dpy s = false /\ x_log s = [OOpen; OClose; OSession false; OSession true].
Proof. by vm_compute. Qed.
