(* ===== verification/X11CaptureProofs.v ===== *)
(** * X11CaptureProofs: captures follow their monitors

    A monitor keeps its handle for as long as the backend lives. A capture reads the rectangle its
    monitor has now and is available while the display is open, provided the capability stops the captures of monitors
    that left. The clipboard is attached exactly while the display is open, so its reads are
    answered when the display goes. *)

From Stdlib Require Import ZArith Lia Strings.Byte Ascii String.
From stdpp Require Import base list strings relations.
From S2P Require Import Prelude Monad StdMap Floats Keymap Screens Desktop CursorImage DesktopSound EisInput X11Clipboard X11ClipboardProofs Edid X11Backend X11InputProofs.

(** ** Handles *)
Definition ids_ok (ids : list (string * Z)) (next : Z) : Prop :=
  (forall w id, sm_find w ids = Some id -> id < next) /\ forall w w' id, sm_find w ids = Some id -> sm_find w' ids = Some id -> w = w'.
Definition has_handle (ids : list (string * Z)) (m : Monitor) : Prop := sm_find (wire_id m) ids = Some (m_id m).
Definition ids_grow (ids ids' : list (string * Z)) : Prop := forall w id, sm_find w ids = Some id -> sm_find w ids' = Some id.
Lemma handle_spec w ids next : ids_ok ids next -> let '(id, ids', next') := handle_of w ids next in
  ids_ok ids' next' /\ ids_grow ids ids' /\ sm_find w ids' = Some id.
Proof.
  intros [H1 H2]. unfold handle_of. destruct (sm_find w ids) as [id|] eqn:E; [by split; [|split; [intros ?|]]|]. split_and!; [split| |by rewrite sm_find_set_eq].
  - intros w' id. destruct (decide (w' = w)) as [->|Hn]; [rewrite sm_find_set_eq; intros [= <-]; lia|]. rewrite sm_find_set_ne by done. intros Hf. specialize (H1 w' id Hf). lia.
  - intros w1 w2 id. destruct (decide (w1 = w)) as [->|Hn1], (decide (w2 = w)) as [->|Hn2]; [done | | |]; rewrite ?sm_find_set_eq, ?(sm_find_set_ne w) by done.
    + intros [= <-] Hf. specialize (H1 _ _ Hf). lia.
    + intros Hf [= <-]. specialize (H1 _ _ Hf). lia.
    + apply H2.
  - intros w' id Hf. rewrite sm_find_set_ne; [done|]. intros ->. congruence.
Qed.
Lemma grow_trans a b c : ids_grow a b -> ids_grow b c -> ids_grow a c.
Proof. unfold ids_grow. auto. Qed.
Lemma handles_grow ids ids' ms : ids_grow ids ids' -> Forall (has_handle ids) ms -> Forall (has_handle ids') ms.
Proof. intros Hg. induction 1; constructor; [by apply Hg | done]. Qed.
Lemma place_all_spec l : forall ids next, ids_ok ids next -> let '(ms, ids', next') := place_all l ids next in
  ids_ok ids' next' /\ ids_grow ids ids' /\ Forall (has_handle ids') ms /\ map wire_id ms = map fst l.
Proof.
  induction l as [|[w [k r]] l IH]; intros ids next Hok; cbn [place_all]; [by split; [|split; [intros ?|split; [constructor|]]]|]. pose proof (handle_spec w ids next Hok) as Hh. destruct (handle_of w ids next) as [[id ids1] next1]. destruct Hh as (Ok1 & G1 & F1).
  specialize (IH ids1 next1 Ok1). destruct (place_all l ids1 next1) as [[ms ids2] next2]. destruct IH as (Ok2 & G2 & HF & Hw). split_and!; [done | by eapply grow_trans | | by cbn; rewrite Hw].
  constructor; [by apply G2 | done].
Qed.
Lemma sole_wires l : map wire_id (sole_is_primary l) = map wire_id l.
Proof. by destruct l as [|m [|m' l]]. Qed.
Lemma sole_handles ids l : Forall (has_handle ids) l -> Forall (has_handle ids) (sole_is_primary l).
Proof. destruct l as [|m [|m' l]]; cbn; [done | | done]. intros H. inversion H. by constructor. Qed.
(** Every monitor there is or was reported of has the handle of its name. *)
Record handles_inv (s : X11) : Prop := {
  hi_ids : ids_ok (x_ids s) (x_next s);
  hi_now : Forall (has_handle (x_ids s)) (x_monitors s);
  hi_told ms : In (OMonitors ms) (x_log s) -> Forall (has_handle (x_ids s)) ms
}.
Definition named (s s' : X11) : Prop := handles_inv s -> handles_inv s'.
#[export] Instance named_preorder : PreOrder named.
Proof. unfold named. split; [by intros s | intros a b c; auto]. Qed.
Definition no_report (e : XOut) : bool := match e with OMonitors _ => false | _ => true end.
Lemma put_named e : no_report e = true -> respects named (x_put e).
Proof. intros He s [H1 H2 H3]. split; cbn; [done | done|]. intros ms [Hin|[->|[]]]%in_app_iff; [by apply H3 | done]. Qed.
Lemma upd_named f : (forall s, x_ids (f s) = x_ids s /\ x_next (f s) = x_next s /\ (x_monitors (f s) = x_monitors s \/ x_monitors (f s) = []) /\ x_log (f s) = x_log s) -> respects named (x_upd f).
Proof. intros Hf s [H1 H2 H3]. destruct (Hf s) as (E1 & E2 & E3 & E4). split; cbn; rewrite ?E1, ?E2, ?E4; [done | | done]. destruct E3 as [-> | ->]; [done | constructor]. Qed.
Section Handles.
Context `{V : X11Env} `{A : Atoms}.
Create HintDb xcap.
Ltac nm := repeat first [ solve [auto with xcap nocore] | respects_step | by apply put_named | apply upd_named; intros; split_and!; by auto ].
Lemma tell_named : respects named tell_monitors.
Proof.
  unfold tell_monitors. intros s. erewrite bind_ok by reflexivity. destruct (monitors_cb s); cbn [when]; [|done]. erewrite bind_ok by reflexivity.
  etrans; [|match goal with |- named _ (?m ?x).1 => enough (respects named m) as H by apply H end; unfold x_start_capture, x_stop_capture, avail, store; nm].
  intros [H1 H2 H3]. split; cbn; [done | done|]. intros ms [Hin|[[= <-]|[]]]%in_app_iff; [by apply H3 | done].
Qed.
#[local] Hint Resolve tell_named : xcap.
Lemma usable_named : respects named usable.
Proof. unfold usable, looks_dead, x_lost, disconnect, with_clip, avail, store. nm. Qed.
Lemma lost_named why : respects named (x_lost why).
Proof. unfold x_lost, disconnect, with_clip, avail, store. nm. Qed.
#[local] Hint Resolve usable_named lost_named : xcap.
Definition same_ids (s s' : X11) : Prop := x_ids s' = x_ids s.
#[local] Instance same_ids_preorder : PreOrder same_ids.
Proof. unfold same_ids. split; [by intros s | intros a b c; congruence]. Qed.
Lemma upd_same_ids f : (forall s, x_ids (f s) = x_ids s) -> respects same_ids (x_upd f).
Proof. intros Hf s. apply Hf. Qed.
Lemma read_named force answer : respects named (read_monitors force answer).
Proof.
  unfold read_monitors. apply respects_bind; [apply _ | nm | intros ok]. destruct (negb ok); [nm|]. intros s. erewrite bind_ok by reflexivity.
  destruct (place_all _ (x_ids s) (x_next s)) as [[next ids] n] eqn:Ep. erewrite bind_ok by reflexivity. set (s1 := {| s with x_ids := ids; x_next := n |}). assert (named s s1 /\ (handles_inv s -> Forall (has_handle ids) (sole_is_primary next))) as [Hs1 Hn].
  { match type of Ep with place_all ?l _ _ = _ => pose proof (place_all_spec l (x_ids s) (x_next s)) as Hp end. rewrite Ep in Hp. split.
    - intros [H1 H2 H3]. destruct (Hp H1) as (O & G & F & _). assert (forall ms, Forall (has_handle (x_ids s)) ms -> Forall (has_handle ids) ms) as Hg by (intros ms; by apply handles_grow). split; cbn; [done | by apply Hg | intros ms Hms; by apply Hg, H3].
    - intros [H1 _ _]. apply sole_handles. by destruct (Hp H1) as (_ & _ & F & _). }
  intros Hs. specialize (Hn Hs). specialize (Hs1 Hs). revert Hs1.
  destruct (negb force && _); [done|].
  assert (forall s2, ids_grow ids (x_ids s2) -> handles_inv s2 -> handles_inv ((x_upd (fun s => {| s with x_monitors := sole_is_primary next |}) ;; tell_monitors) s2).1) as Hend.
  { intros s2 Hg Hs2. erewrite bind_ok by reflexivity. apply tell_named. destruct Hs2 as [H1 H2 H3]. split; cbn; [done | by eapply handles_grow | done]. }
  intros Hs1. set (loop := for_each (x_captures s) _). assert (respects named loop) as Hl by (subst loop; unfold follow, avail, store; nm).
  assert (respects same_ids loop) as Hi by (subst loop; unfold follow, avail, store, x_put; repeat first [respects_step | by apply upd_same_ids]).
  specialize (Hl s1 Hs1). specialize (Hi s1). unfold bind at 1. destruct (loop s1) as [s2 [[]|e]]; cbn in Hl, Hi |- *; [|done]. apply Hend; [rewrite Hi; by intros ? | done].
Qed.
#[local] Hint Resolve read_named : xcap.
Lemma cursor_named c : respects named (read_cursor c).
Proof. unfold read_cursor. nm. Qed.
#[local] Hint Resolve cursor_named : xcap.
Lemma connect_named o : respects named (x_connect o).
Proof. unfold x_connect, with_clip, avail, store. nm. Qed.
Lemma events_named evs : forall layout, respects named (handle_events evs layout).
Proof. induction evs as [|e evs IH]; intros layout; cbn [handle_events]; unfold with_clip; nm. Qed.
Lemma key_named code down : respects named (x_key code down).
Proof. unfold x_key. nm. Qed.
Lemma release_named : respects named x_release_all.
Proof. unfold x_release_all. nm. Qed.
#[local] Hint Resolve connect_named events_named key_named release_named : xcap.
Lemma wheel_named fuel dx dy : respects named (x_wheel fuel dx dy).
Proof.
  unfold x_wheel. apply respects_bind; [apply _ | nm | intros ok]. apply respects_bind; [apply _ | nm | intros s]. destruct (negb ok); [nm|].
  destruct (clicks fuel 4 5 _) as [[ey y] ys], (clicks fuel 6 7 _) as [[ex x] xs]. unfold click. nm.
Qed.
#[local] Hint Resolve wheel_named : xcap.
Lemma handler_named i : respects named (x_handler i).
Proof.
  destruct i; cbn [x_handler]; unfold x_tick, on_idle, x_dispatch, x_drain, looks_dead, poll_pointer, x_motion, x_button, x_type_text, x_load_keymap, x_type_stroke, at_source, x_start_capture, x_stop_capture, avail, store, with_clip;
    try match goal with names : option (list byte) |- _ => destruct (layout_names names) end; nm.
  intros s [H1 H2 H3]. unfold with_sound. destruct (s_step _ _). by split.
Qed.
Lemma run_named l ts : handles_inv (x_run l ts).
Proof.
  unfold x_run. induction ts as [|t ts IH] using rev_ind; [by repeat split|]. rewrite foldl_app. revert IH. match goal with |- handles_inv ?a -> _ => generalize a end. intros s. unfold foldl, x_step.
  match goal with |- handles_inv s -> handles_inv (?m s).1 => enough (respects named m) as H by apply H end. pose proof (handler_named t.2). nm.
Qed.
(** A monitor keeps its handle. In every run of the X11 backend, of any two monitors ever reported to
    the capability, at whatever times and with whatever was unplugged in between: they have the same wire id
    exactly when they have the same handle. *)
Theorem monitor_handles_stable l ts ms ms' m m' : In (OMonitors ms) (x_log (x_run l ts)) -> In (OMonitors ms') (x_log (x_run l ts)) -> In m ms -> In m' ms' ->
  wire_id m = wire_id m' <-> m_id m = m_id m'.
Proof.
  intros H1 H2 Hm Hm'. destruct (run_named l ts) as [[_ Hi] _ Ht]. pose proof (Ht _ H1) as F1. pose proof (Ht _ H2) as F2. rewrite List.Forall_forall in F1, F2. specialize (F1 m Hm). specialize (F2 m' Hm'). unfold has_handle in *.
  split; intros E; [rewrite E in F1; congruence|]. rewrite E in F1. by eapply Hi.
Qed.
End Handles.

(** ** Captures *)
#[local] Arguments find_mon : simpl never.
Definition set_caps (caps : list (Z * XSrc)) (l : list XOut) (s : X11) : X11 := {| s with x_captures := caps; x_log := l |}.
Lemma avail_spec m now why c s : exists l, avail m now why c s = (set_caps (sm_set m {| c with s_reason := why; s_available := now |} (x_captures s)) l s, Ok {| c with s_reason := why; s_available := now |}).
Proof. unfold avail, store, set_caps. destruct (negb (Bool.eqb now (s_available c))); by eexists. Qed.
(** A loop over the captures that changes each in its turn. *)
Lemma each_capture (f : Z -> XSrc -> Prog X11 unit) (P : X11 -> Prop) (Q : Z -> XSrc -> Prop) l :
  (forall s caps lg, P s -> P (set_caps caps lg s)) ->
  (forall m c s, P s -> sm_wf (x_captures s) -> In (m, c) l -> sm_find m (x_captures s) = Some c -> exists c' lg, f m c s = (set_caps (sm_set m c' (x_captures s)) lg s, Ok tt) /\ Q m c') ->
  NoDup (map fst l) -> forall s, P s -> sm_wf (x_captures s) -> (forall m c, In (m, c) l -> sm_find m (x_captures s) = Some c) ->
  exists caps lg, for_each l (fun kc => f kc.1 kc.2) s = (set_caps caps lg s, Ok tt) /\ sm_wf caps
    /\ (forall m, In m (map fst l) -> exists c', sm_find m caps = Some c' /\ Q m c') /\ forall m, ~ In m (map fst l) -> sm_find m caps = sm_find m (x_captures s).
Proof.
  intros HP. induction l as [|[m c] l IH]; intros Hf Hnd s Hs Hwf Hl; cbn [for_each map fst].
  { exists (x_captures s), (x_log s). split_and!; [by destruct s | done | done | done]. }
  apply NoDup_cons in Hnd as [Hm Hnd]. destruct (Hf m c s Hs Hwf (or_introl eq_refl) (Hl m c (or_introl eq_refl))) as (c' & lg & E & Hq). rewrite (bind_ok _ _ _ _ _ E).
  destruct (IH (fun m c s' Hp Hw Hin => Hf m c s' Hp Hw (or_intror Hin)) Hnd (set_caps (sm_set m c' (x_captures s)) lg s)) as (caps & lg' & E' & Hw' & H1 & H2); [by apply HP | by apply sm_wf_set | |].
  - intros m' c0 Hin. cbn. rewrite sm_find_set_ne; [apply Hl; by right|]. intros ->. apply Hm, list_elem_of_In. apply in_map_iff. by exists (m, c0).
  - exists caps, lg'. split_and!; [done | done | |].
    + intros m' [<-|Hin]; [|by apply H1]. rewrite H2 by (by rewrite <- list_elem_of_In). cbn. rewrite sm_find_set_eq. by exists c'.
    + intros m' Hn. cbn in Hn. rewrite H2 by tauto. cbn. apply sm_find_set_ne. intros ->. tauto.
Qed.
Lemma caps_pairs s : sm_wf (x_captures s) -> NoDup (map fst (x_captures s)) /\ forall m c, In (m, c) (x_captures s) -> sm_find m (x_captures s) = Some c.
Proof. intros Hw. split; [by apply sm_wf_nodup | intros m c; by apply sm_In_find]. Qed.

(** Over all of them: each is as [f] leaves it. *)
Lemma all_captures (f : Z -> XSrc -> Prog X11 unit) (P : X11 -> Prop) (Q : Z -> XSrc -> Prop) s :
  (forall s caps lg, P s -> P (set_caps caps lg s)) -> P s -> sm_wf (x_captures s) ->
  (forall m c s', P s' -> sm_wf (x_captures s') -> sm_find m (x_captures s) = Some c -> sm_find m (x_captures s') = Some c -> exists c' lg, f m c s' = (set_caps (sm_set m c' (x_captures s')) lg s', Ok tt) /\ Q m c') ->
  exists caps lg, for_each (x_captures s) (fun kc => f kc.1 kc.2) s = (set_caps caps lg s, Ok tt) /\ sm_wf caps /\ forall m c, sm_find m caps = Some c -> Q m c.
Proof.
  intros HP Hs Hw Hf. destruct (caps_pairs s Hw) as [Hnd Hin]. destruct (each_capture f P Q (x_captures s)) with (s := s) as (caps & lg & E & Hw' & Hq & Hn); try done; [intros m c s' Hp Hw' Hm; apply Hf; auto|].
  exists caps, lg. split_and!; [done | done|]. intros m c Hc. destruct (in_dec Z.eq_dec m (map fst (x_captures s))) as [Hm|Hm]; [destruct (Hq m Hm) as (c' & Hc' & Hqc); congruence|].
  rewrite Hn in Hc by done. apply sm_find_In in Hc. destruct Hm. apply in_map_iff. by exists (m, c).
Qed.
Lemma wires_ids ids next ms : ids_ok ids next -> Forall (has_handle ids) ms -> NoDup (map wire_id ms) -> NoDup (map m_id ms).
Proof.
  intros [_ Hi] Hf. induction Hf as [|m ms Hm Hms IH]; cbn [map]; [constructor|]. rewrite !NoDup_cons. intros [Hn Hnd]. split; [|by apply IH]. intros (m' & E & Hin)%list_elem_of_In%in_map_iff. apply Hn, list_elem_of_In, in_map_iff. exists m'. split; [|done].
  rewrite List.Forall_forall in Hms. eapply (Hi _ _ (m_id m)); [rewrite <- E; by apply Hms | done].
Qed.
Lemma assign_length seen l : forall n, length (assign_ids seen n l) = length l.
Proof. induction l as [|k l IH]; intros n; cbn; [done|]. by destruct (k_virtual k); cbn; rewrite IH. Qed.
Lemma zip_wires (ks : list (MonitorKey * RandrMonitor)) : map fst (zip (wire_ids (map fst ks)) ks) = wire_ids (map fst ks).
Proof. apply fst_zip. unfold wire_ids. rewrite assign_length, length_map. done. Qed.
Lemma find_mon_cons id m ms : find_mon id (m :: ms) = if m_id m =? id then Some m else find_mon id ms.
Proof. done. Qed.
Lemma find_mon_None id ms : ~ In id (map m_id ms) -> find_mon id ms = None.
Proof. induction ms as [|m ms IH]; cbn; [done|]. intros Hn. rewrite find_mon_cons. destruct (Z.eqb_spec (m_id m) id); [tauto | by apply IH; tauto]. Qed.
Lemma find_last_first id ms : NoDup (map m_id ms) -> find_last id ms = find_mon id ms.
Proof.
  unfold find_last. assert (forall acc, NoDup (map m_id ms) -> foldl (fun now m => if m_id m =? id then Some m else now) acc ms = match find_mon id ms with Some m => Some m | None => acc end) as H.
  - induction ms as [|m ms IH]; intros acc Hnd; [done|]. cbn [map] in Hnd. apply NoDup_cons in Hnd as [Hn Hnd]. cbn [foldl]. rewrite IH, find_mon_cons by done. destruct (Z.eqb_spec (m_id m) id) as [<-|]; [|done].
    rewrite find_mon_None; [done|]. by rewrite <- list_elem_of_In.
  - intros Hnd. rewrite H by done. by destruct (find_mon id ms).
Qed.

Record cap_inv (s : X11) : Prop := {
  ci_handles : handles_inv s;
  ci_cb : monitors_cb s = true;
  ci_nodup : NoDup (map m_id (x_monitors s));
  ci_closed : x_dpy s = false -> x_monitors s = [];
  ci_wf : sm_wf (x_captures s);
  ci_ok m c : sm_find m (x_captures s) = Some c -> s_available c = x_dpy s /\ exists mo, find_mon m (x_monitors s) = Some mo /\ s_rect c = rect_of mo
}.
(** Before the capability is told: some captures may be of monitors that left. *)
Record pre_inv (R : list Reaction) (s : X11) : Prop := {
  pi_cb : monitors_cb s = true;
  pi_nodup : NoDup (map m_id (x_monitors s));
  pi_closed : x_dpy s = false -> x_monitors s = [];
  pi_wf : sm_wf (x_captures s);
  pi_ok m c : sm_find m (x_captures s) = Some c -> s_available c = x_dpy s /\ match find_mon m (x_monitors s) with Some mo => s_rect c = rect_of mo | None => In (RStop m) R end
}.
Section Captures.
Context `{V : X11Env} `{A : Atoms}.
(** The capability stops the captures of monitors that left. *)
Definition prompt : Prop := forall s ms m, sm_count m (x_captures s) = true -> find_mon m ms = None -> In (RStop m) (react s ms).
Definition reacts (r : Reaction) : Prog X11 unit := match r with RStop m => x_stop_capture m | RStart m => do _ <- x_start_capture m; ret tt end.
Lemma stop_pre m R s : pre_inv (RStop m :: R) s -> pre_inv R (x_stop_capture m s).1.
Proof.
  intros [H1 H2 H3 H4 H5]. unfold x_stop_capture. erewrite bind_ok by reflexivity. destruct (sm_find m (x_captures s)) as [c|] eqn:Ec.
  - destruct (avail_spec m false "capture stopped" c s) as (l & E). rewrite (bind_ok _ _ _ _ _ E). split; cbn; [done | done | done | by apply sm_wf_erase, sm_wf_set|].
    intros m' c'. rewrite sm_erase_set. destruct (decide (m' = m)) as [->|Hn]; [by rewrite sm_find_erase_eq|]. rewrite sm_find_erase_ne by done. intros Hf. destruct (H5 m' c' Hf) as [Ha Hr]. split; [done|]. destruct (find_mon m' _); [done|]. destruct Hr as [Hr|]; [congruence | done].
  - split; [done | done | done | done|]. intros m' c' Hf. destruct (H5 m' c' Hf) as [Ha Hr]. split; [done|]. destruct (find_mon m' _); [done|]. destruct Hr as [Hr|]; [|done]. injection Hr as <-. cbn in Hf. by rewrite Hf in Ec.
Qed.
Lemma start_pre m R s : pre_inv (RStart m :: R) s -> pre_inv R (reacts (RStart m) s).1.
Proof.
  intros [H1 H2 H3 H4 H5]. assert (forall m' c', sm_find m' (x_captures s) = Some c' -> s_available c' = x_dpy s /\ match find_mon m' (x_monitors s) with Some mo => s_rect c' = rect_of mo | None => In (RStop m') R end) as H5'.
  { intros m' c' Hf. destruct (H5 m' c' Hf) as [Ha Hr]. split; [done|]. destruct (find_mon m' _); [done|]. by destruct Hr as [Hr|]. }
  unfold reacts, x_start_capture. unfold bind at 1. erewrite bind_ok by reflexivity. destruct (find_mon m (x_monitors s)) as [mo|] eqn:Em; [|by split].
  match goal with |- context [avail m ?n ?w ?c] => destruct (avail_spec m n w c s) as (l & E); rewrite (bind_ok _ _ _ _ _ E) end. cbn. split; cbn; [done | done | done | by apply sm_wf_set|].
  intros m' c'. destruct (decide (m' = m)) as [->|Hn]; [rewrite sm_find_set_eq; intros [= <-]; by rewrite Em|]. rewrite sm_find_set_ne by done. apply H5'.
Qed.
Lemma reacts_pre R : forall s, pre_inv R s -> pre_inv [] (for_each R reacts s).1.
Proof.
  induction R as [|r R IH]; intros s Hs; cbn [for_each]; [done|]. assert (pre_inv R (reacts r s).1) as Hr by (destruct r; [by apply stop_pre | by apply start_pre]).
  assert (normal (reacts r)) as Hn by (destruct r; unfold reacts, x_stop_capture, x_start_capture, avail, store, x_put, x_upd; repeat normal_step). destruct (Hn s) as (s1 & [] & E). rewrite (bind_ok _ _ _ _ _ E). rewrite E in Hr. by apply IH.
Qed.
Lemma pre_done s : handles_inv s -> pre_inv [] s -> cap_inv s.
Proof. intros Hh [H1 H2 H3 H4 H5]. split; try done. intros m c Hf. destruct (H5 m c Hf) as [Ha Hr]. split; [done|]. destruct (find_mon m _) as [mo|]; [by exists mo | done]. Qed.
Hypothesis Hprompt : prompt.
(** Told of the set, the capability has only captures of it. *)
Lemma tell_cap s : handles_inv s -> monitors_cb s = true -> NoDup (map m_id (x_monitors s)) -> (x_dpy s = false -> x_monitors s = []) -> sm_wf (x_captures s) ->
  (forall m c, sm_find m (x_captures s) = Some c -> s_available c = x_dpy s /\ forall mo, find_mon m (x_monitors s) = Some mo -> s_rect c = rect_of mo) -> cap_inv (tell_monitors s).1.
Proof.
  intros Hh Hcb Hnd Hcl Hwf Hok. apply pre_done; [by apply tell_named|]. unfold tell_monitors. erewrite bind_ok by reflexivity. rewrite Hcb. cbn [when]. erewrite bind_ok by reflexivity. apply reacts_pre.
  split; cbn; [done | done | done | done|]. intros m c Hf. destruct (Hok m c Hf) as [Ha Hr]. split; [done|].
  destruct (find_mon m (x_monitors s)) as [mo|] eqn:Em; [by apply Hr|]. apply Hprompt; [unfold sm_count; by rewrite Hf | done].
Qed.

Definition follows (s s' : X11) : Prop := cap_inv s -> cap_inv s'.
#[local] Instance follows_preorder : PreOrder follows.
Proof. unfold follows. split; [by intros s | intros a b c; auto]. Qed.
Definition same_caps (s s' : X11) : Prop :=
  x_ids s' = x_ids s /\ x_next s' = x_next s /\ x_monitors s' = x_monitors s /\ x_captures s' = x_captures s /\ x_dpy s' = x_dpy s /\ x_log s' = x_log s /\ (monitors_cb s = true -> monitors_cb s' = true).
Lemma same_follows s s' : same_caps s s' -> follows s s'.
Proof. intros (E1 & E2 & E3 & E4 & E5 & E6 & E7) [[J1 J2 J3] H1 H2 H3 H4 H5]. split; rewrite ?E3, ?E4, ?E5; auto. split; by rewrite ?E1, ?E2, ?E3, ?E6. Qed.
Lemma upd_follows f : (forall s, same_caps s (f s)) -> respects follows (x_upd f).
Proof. intros Hf s. apply same_follows, Hf. Qed.
Lemma put_follows e : no_report e = true -> respects follows (x_put e).
Proof. intros He s [J H1 H2 H3 H4 H5]. split; [by apply put_named | done..]. Qed.
Create HintDb xfol.
Ltac fol := repeat first [ solve [auto with xfol nocore] | respects_step | by apply put_follows | by apply upd_follows ].
Lemma tell_follows : respects follows tell_monitors.
Proof. intros s [J H1 H2 H3 H4 H5]. apply tell_cap; try done. intros m c Hf. destruct (H5 m c Hf) as (Ha & mo & Em & Hr). split; [done|]. intros mo'. rewrite Em. by intros [= <-]. Qed.
Lemma disconnect_spec s : exists lg cl, disconnect s = ({| s with x_dpy := false; x_clip := cl; x_log := lg |}, Ok tt) /\ (forall ms, In (OMonitors ms) lg -> In (OMonitors ms) (x_log s)).
Proof.
  unfold disconnect. erewrite bind_ok by reflexivity. destruct (x_dpy s) eqn:Ed; cbn [when]; do 2 eexists; (split; [reflexivity|]); cbn; intros ms; [|done]. by intros [?|[[=]|[]]]%in_app_iff.
Qed.
Lemma lost_follows why : respects follows (x_lost why).
Proof.
  intros s [J H1 H2 H3 H4 H5]. unfold x_lost. erewrite bind_ok by reflexivity. destruct (x_dpy s) eqn:Ed; cbn [negb]; [|cbn [fst ret]; split; by rewrite ?Ed].
  destruct (all_captures (fun m c => do _ <- avail m false why c; when (lost_cb s) (x_put (OLost m SessionEnded))) (fun _ => True) (fun _ c => s_available c = false) s) as (caps & lg & E & Hw & Hq); try done.
  { intros m c s1 _ _ _ Hf. destruct (avail_spec m false why c s1) as (l & El). rewrite (bind_ok _ _ _ _ _ El). unfold when. destruct (lost_cb s); eexists _, _; (split; [reflexivity | done]). }
  assert (handles_inv (set_caps caps lg s)) as J1.
  { assert (respects named (for_each (x_captures s) (fun kc => do _ <- avail kc.1 false why kc.2; when (lost_cb s) (x_put (OLost kc.1 SessionEnded))))) as Hl by (unfold avail, store; repeat first [respects_step | by apply put_named | apply upd_named; intros; split_and!; by auto]).
    specialize (Hl s J). by rewrite E in Hl. }
  rewrite (bind_ok _ _ _ _ _ E). destruct (disconnect_spec (set_caps caps lg s)) as (lg' & cl & E2 & Hlg). rewrite (bind_ok _ _ _ _ _ E2). erewrite bind_ok by reflexivity.
  match goal with |- cap_inv (bind tell_monitors _ ?x).1 => set (s2 := x); assert (cap_inv (tell_monitors s2).1) as Hs2 end.
  { apply tell_cap; subst s2; cbn; try done; [|constructor|].
    - destruct J1 as [A1 A2 A3]. split; cbn; [done | constructor|]. intros ms Hms. apply A3. cbn. cbn in Hlg. by apply Hlg.
    - intros m c Hf. split; [by eapply Hq | done]. }
  match goal with |- cap_inv (?mm s2).1 => enough (exists s3 : X11, tell_monitors s2 = (s3, Ok tt)) as (s3 & E3) end.
  { rewrite (bind_ok _ _ _ _ _ E3). rewrite E3 in Hs2. erewrite bind_ok by reflexivity. destruct (session_cb s3); cbn [when]; [by apply put_follows | done]. }
  assert (normal tell_monitors) as Ht by (unfold tell_monitors, x_start_capture, x_stop_capture, avail, store, x_put, x_upd; repeat normal_step). destruct (Ht s2) as (s3 & [] & E3). by exists s3.
Qed.
#[local] Hint Resolve tell_follows lost_follows : xfol.
Lemma usable_follows : respects follows usable.
Proof. unfold usable, looks_dead. fol. Qed.
#[local] Hint Resolve usable_follows : xfol.
(** The monitors of an answer have names of their own. *)
Definition distinct (answer : list RandrMonitor) : Prop := NoDup (wire_ids (map fst (keyed answer))).
Lemma follow_spec before next m c s : x_dpy s = true -> sm_wf (x_captures s) -> sm_find m (x_captures s) = Some c -> s_available c = true -> (exists was, find_mon m before = Some was /\ s_rect c = rect_of was) ->
  exists c' lg, follow before next m c s = (set_caps (sm_set m c' (x_captures s)) lg s, Ok tt) /\ s_available c' = true /\ forall now, find_last m next = Some now -> s_rect c' = rect_of now.
Proof.
  intros Hd Hw Hf Ha (was & Ew & Hr). unfold follow. rewrite Ew. assert (forall lg, set_caps (sm_set m c (x_captures s)) lg s = set_caps (x_captures s) lg s) as Hid by (intros; by rewrite sm_set_id). assert (set_caps (x_captures s) (x_log s) s = s) as Hs by by destruct s.
  destruct (find_last m next) as [now|]; [|exists c, (x_log s); split_and!; [by rewrite Hid, Hs | done | done]]. destruct (bool_decide (rect_of was = rect_of now)) eqn:Eb.
  { apply bool_decide_eq_true in Eb. exists c, (x_log s). split_and!; [by rewrite Hid, Hs | done|]. intros now' [= <-]. congruence. }
  destruct (move_to (rect_of now) c) as [c'|] eqn:Em.
  - exists c', (x_log s). split; [done|]. unfold move_to in Em. destruct (_ || _) eqn:Eo; [done|]. injection Em as <-. split; [done|]. intros now' [= <-]. apply orb_false_iff in Eo as [E1%negb_false_iff%Z.eqb_eq E2%negb_false_iff%Z.eqb_eq]. cbn in *. unfold rect_of in *. by rewrite E1, E2.
  - destruct (avail_spec m false "the monitor changed size" c s) as (l1 & E1). rewrite (bind_ok _ _ _ _ _ E1). match goal with |- context [avail m true ""%string ?x] => destruct (avail_spec m true ""%string x (set_caps (sm_set m {| c with s_reason := "the monitor changed size"; s_available := false |} (x_captures s)) l1 s)) as (l2 & E2) end.
    rewrite (bind_ok _ _ _ _ _ E2). eexists _, l2. split; [unfold ret, set_caps; cbn; rewrite sm_set_set; reflexivity|]. split; [done|]. by intros now' [= <-].
Qed.
Lemma read_follows force answer : distinct answer -> respects follows (read_monitors force answer).
Proof.
  intros Hdi s Hs. unfold read_monitors. destruct (usable_cases s) as [(f & E & Hd)|[(s' & E & Hd)|(s' & e & E)]].
  2: { rewrite (bind_ok _ _ _ _ _ E). cbn. pose proof (usable_follows s Hs) as H. by rewrite E in H. }
  2: { unfold bind at 1. rewrite E. cbn. pose proof (usable_follows s Hs) as H. by rewrite E in H. }
  rewrite (bind_ok _ _ _ _ _ E). cbn [negb]. assert (cap_inv (with_fate f s)) as Hs' by (by apply (same_follows s)). assert (x_dpy (with_fate f s) = true) as Hd' by done. revert Hs' Hd'. generalize (with_fate f s). clear s Hs E Hd. intros s Hs Hd.
  erewrite bind_ok by reflexivity. match goal with |- context [place_all ?l (x_ids s) (x_next s)] => pose proof (place_all_spec l (x_ids s) (x_next s) (hi_ids _ (ci_handles _ Hs))) as Hp; destruct (place_all l (x_ids s) (x_next s)) as [[next0 ids] n] end.
  destruct Hp as (Ho & Hg & Hh & Hw). rewrite zip_wires in Hw. set (next := sole_is_primary next0). apply sole_handles in Hh. fold next in Hh. rewrite <- sole_wires in Hw. fold next in Hw.
  assert (NoDup (map m_id next)) as Hnd by (eapply wires_ids; [done | done | by rewrite Hw]). erewrite bind_ok by reflexivity. set (s1 := {| s with x_ids := ids; x_next := n |}).
  destruct Hs as [[J1 J2 J3] H1 H2 H3 H4 H5]. assert (handles_inv s1) as Hj1 by (split; cbn; [done | by eapply handles_grow | intros ms Hms; eapply handles_grow; [done | by apply J3]]).
  assert (cap_inv s1) as Hs1 by (by split). destruct (negb force && _); [done|].
  destruct (all_captures (follow (x_monitors s) next) (fun s => x_dpy s = true) (fun m c => s_available c = true /\ forall now, find_last m next = Some now -> s_rect c = rect_of now) s1) as (caps & lg & El & Hwf & Hq); try done.
  { intros m c s' Hd' Hw' Hf Hf'. destruct (H5 m c Hf) as (Ha & was & Hm & Hr). apply follow_spec; try done; [congruence | by exists was]. }
  assert (handles_inv (set_caps caps lg s1)) as Hj2.
  { assert (respects named (for_each (x_captures s1) (fun kc => follow (x_monitors s) next kc.1 kc.2))) as Hl by (unfold follow, avail, store; repeat first [respects_step | by apply put_named | apply upd_named; intros; split_and!; by auto]). specialize (Hl s1 Hj1). by rewrite El in Hl. }
  change (x_captures s) with (x_captures s1). rewrite (bind_ok _ _ _ _ _ El). erewrite bind_ok by reflexivity. destruct Hj2 as [K1 K2 K3]. apply tell_cap; cbn; try done; [congruence|].
  intros m c Hf. destruct (Hq m c Hf) as [Ha Hr]. split; [congruence|]. intros mo Hm. apply Hr. by rewrite find_last_first.
Qed.
Lemma cursor_follows c : respects follows (read_cursor c).
Proof. unfold read_cursor. fol. Qed.
#[local] Hint Resolve cursor_follows : xfol.
Lemma none_closed s : cap_inv s -> x_dpy s = false -> x_captures s = [].
Proof. intros [_ _ _ H3 _ H5] Hd. apply sm_find_nil. intros m. destruct (sm_find m (x_captures s)) as [c|] eqn:E; [|done]. destruct (H5 m c E) as (_ & mo & Hm & _). by rewrite H3 in Hm. Qed.
Lemma again_follows s : follows s (for_each (x_captures s) (fun kc => do _ <- avail kc.1 true "" kc.2; ret tt) s).1.
Proof.
  intros Hs. destruct (x_dpy s) eqn:Ed; [|by rewrite (none_closed s)]. pose proof Hs as [J H1 H2 H3 H4 H5].
  destruct (all_captures (fun m c => do _ <- avail m true "" c; ret tt) (fun _ => True) (fun m c => s_available c = true /\ exists mo, find_mon m (x_monitors s) = Some mo /\ s_rect c = rect_of mo) s) as (caps & lg & E & Hw & Hq); try done.
  { intros m c s' _ _ Hf Hf'. destruct (avail_spec m true "" c s') as (l & El). rewrite (bind_ok _ _ _ _ _ El). eexists _, _. split; [reflexivity|]. split; [done|]. by destruct (H5 m c Hf) as (_ & Hr). }
  assert (respects named (for_each (x_captures s) (fun kc => do _ <- avail kc.1 true "" kc.2; ret tt))) as Hl by (unfold avail, store; repeat first [respects_step | by apply put_named | apply upd_named; intros; split_and!; by auto]). specialize (Hl s J). rewrite E in Hl |- *.
  split; cbn; try done. intros m c Hf. destruct (Hq m c Hf) as [Ha Hr]. split; [congruence | done].
Qed.
Lemma connect_follows o s : match o with Some o => distinct (op_monitors o) | None => True end -> x_dpy s = false -> follows s (x_connect o s).1.
Proof.
  intros Hdi Hd Hs. unfold x_connect. destruct o as [o|]; [|done]. destruct (negb _); [done|]. destruct (_ || _); [done|]. erewrite bind_ok by reflexivity.
  assert (cap_inv {| s with x_dpy := true |}) as Hs1. { pose proof (none_closed s Hs Hd) as Hc. destruct Hs as [[J1 J2 J3] H1 H2 H3 H4 H5]. split; cbn; try done; [intros m c; by rewrite Hc]. }
  revert Hs1. generalize {| s with x_dpy := true |}. clear s Hd Hs. intros s. match goal with |- cap_inv s -> cap_inv (?m s).1 => enough (respects follows m) as H by apply H end.
  pose proof (read_follows true (op_monitors o) Hdi). unfold with_clip. do 5 (apply respects_bind; [apply _ | fol | intros _]). intros s1. erewrite bind_ok by reflexivity. etrans; [apply again_follows|].
  assert (normal (for_each (x_captures s1) (fun kc => do _ <- avail kc.1 true "" kc.2; ret tt))) as Hn by (unfold avail, store, x_put, x_upd; repeat normal_step). destruct (Hn s1) as (s2 & [] & E). rewrite (bind_ok _ _ _ _ _ E), E. cbn [fst]. match goal with |- follows _ (?m s2).1 => enough (respects follows m) as H' by apply H' end. fol.
Qed.
Lemma events_follows evs : forall layout, respects follows (handle_events evs layout).
Proof. induction evs as [|e evs IH]; intros layout; cbn [handle_events]; unfold with_clip; fol. Qed.
Lemma start_follows m : respects follows (x_start_capture m).
Proof.
  intros s Hs. pose proof Hs as [J H1 H2 H3 H4 H5]. assert (pre_inv [RStart m] s) as Hp. { split; try done. intros m' c Hf. destruct (H5 m' c Hf) as (Ha & mo & Hm & Hr). split; [done|]. by rewrite Hm. }
  apply pre_done; [|].
  - assert (respects named (x_start_capture m)) as Hl by (unfold x_start_capture, avail, store; repeat first [respects_step | by apply put_named | apply upd_named; intros; split_and!; by auto]). by apply Hl.
  - apply start_pre in Hp. unfold reacts, bind in Hp. by destruct (x_start_capture m s) as [s' [?|?]].
Qed.
Lemma stop_follows m : respects follows (x_stop_capture m).
Proof.
  intros s Hs. pose proof Hs as [J H1 H2 H3 H4 H5]. assert (pre_inv [RStop m] s) as Hp. { split; try done. intros m' c Hf. destruct (H5 m' c Hf) as (Ha & mo & Hm & Hr). split; [done|]. by rewrite Hm. }
  apply pre_done; [|by apply stop_pre].
  assert (respects named (x_stop_capture m)) as Hl by (unfold x_stop_capture, avail, store; repeat first [respects_step | by apply put_named | apply upd_named; intros; split_and!; by auto]). by apply Hl.
Qed.
#[local] Hint Resolve events_follows start_follows stop_follows : xfol.
(** A pipeline comes or goes: the source's rectangle and availability stay. *)
Lemma source_follows m f : (forall c, s_rect (f c) = s_rect c /\ s_available (f c) = s_available c) -> respects follows (at_source m f).
Proof.
  intros Hf s [[J1 J2 J3] H1 H2 H3 H4 H5]. unfold at_source. erewrite bind_ok by reflexivity. destruct (sm_find m (x_captures s)) as [c|] eqn:Ec; [|by split]. split; cbn; try done; [by apply sm_wf_set|].
  intros m' c'. destruct (decide (m' = m)) as [->|Hn]; [|rewrite sm_find_set_ne by done; apply H5]. rewrite sm_find_set_eq. intros [= <-]. destruct (Hf c) as [-> ->]. by apply H5.
Qed.
Lemma wheel_follows fuel dx dy : respects follows (x_wheel fuel dx dy).
Proof.
  unfold x_wheel. apply respects_bind; [apply _ | fol | intros ok]. apply respects_bind; [apply _ | fol | intros s]. destruct (negb ok); [fol|].
  destruct (clicks fuel 4 5 _) as [[ey y] ys], (clicks fuel 6 7 _) as [[ex x] xs]. unfold click. fol.
Qed.
Lemma key_follows code down : respects follows (x_key code down).
Proof. unfold x_key. fol. Qed.
Lemma release_follows : respects follows x_release_all.
Proof. unfold x_release_all. fol. Qed.
#[local] Hint Resolve wheel_follows key_follows release_follows : xfol.
(** Turns in which the X server names monitors apart. *)
Definition apart (i : XIn) : Prop :=
  match i with
  | IStart o => match o with Some o => distinct (op_monitors o) | None => True end
  | ITick answer o => distinct answer /\ match o with Some o => distinct (op_monitors o) | None => True end
  | IDispatch _ _ answer => distinct answer
  | _ => True
  end.
Lemma handler_follows i : apart i -> respects follows (x_handler i).
Proof.
  intros Hi. destruct i as [o|answer o| |hup evs answer| | | | | | | | |m|m| | | | |utf8 names| | | | | |]; cbn [x_handler apart] in *.
  - intros s. erewrite bind_ok by reflexivity. destruct (x_dpy s) eqn:Ed; [done | by apply connect_follows].
  - destruct Hi as [Ha Ho]. intros s. unfold x_tick. erewrite bind_ok by reflexivity. destruct (x_dpy s) eqn:Ed; [by apply read_follows|]. erewrite bind_ok by reflexivity. match goal with |- follows _ (when _ _ ?x).1 => etrans; [by apply (same_follows s x)|]; set (s1 := x) end.
    unfold when. destruct (_ =? 0); [by apply connect_follows | done].
  - unfold on_idle. fol.
  - pose proof (read_follows false answer Hi). unfold x_dispatch, x_drain, looks_dead. fol.
  - unfold poll_pointer. fol.
  - fol.
  - fol.
  - fol.
  - fol.
  - fol.
  - fol.
  - fol.
  - by apply source_follows.
  - by apply source_follows.
  - unfold x_motion. fol.
  - unfold x_button. fol.
  - fol.
  - fol.
  - unfold x_type_text, x_load_keymap, x_type_stroke. destruct (layout_names names). fol.
  - fol.
  - unfold with_clip. fol.
  - unfold with_clip. fol.
  - unfold with_clip. fol.
  - unfold with_clip. fol.
  - fol. intros s [[J1 J2 J3] H1 H2 H3 H4 H5]. unfold with_sound. destruct (s_step _ _). by split.
Qed.
End Captures.

(** ** The clipboard *)
Definition clipped (s : X11) : Prop := dpy (x_clip s) = x_dpy s.
Definition serves (s s' : X11) : Prop := fair (x_clip s) (x_clip s') /\ (clipped s -> clipped s').
#[local] Instance serves_preorder : PreOrder serves.
Proof. pose proof fair_preorder. unfold serves. split; [by intros s | intros a b c [] []; split; [by etrans | auto]]. Qed.
Definition same_open (s s' : Clip) : Prop := dpy s' = dpy s.
#[local] Instance same_open_preorder : PreOrder same_open.
Proof. unfold same_open. split; [by intros s | intros a b c; congruence]. Qed.
Lemma upd_open f : (forall s, dpy (f s) = dpy s) -> respects same_open (c_upd f).
Proof. intros Hf s. apply Hf. Qed.
Section Clip.
Context `{V : X11Env} `{A : Atoms}.
Lemma step_open i : match i with CIAttach _ | CIDetach _ _ => False | _ => True end -> respects same_open (c_step i).
Proof.
  intros Hi. destruct i as [| |e|k type max|k type bytes t took| |id]; [done | done | destruct e|..]; cbn [c_step x_handle];
    unfold on_selection_notify, on_incoming_chunk, on_request, on_property_deleted, x_read, x_write, send_timeout, drop_send, finish, start_next, taking, set_front, arm_timer, c_put;
    repeat first [respects_step | by apply upd_open | progress cbv zeta].
Qed.
Lemma detach_closes why notify c : dpy (x_detach why notify c).1 = false.
Proof.
  unfold x_detach. do 2 erewrite bind_ok by reflexivity. match goal with |- dpy (?m ?x).1 = false => assert (respects same_open m) as Hm; [|specialize (Hm x)] end; [|unfold same_open in Hm; by rewrite Hm].
  unfold when, c_put. repeat first [respects_step | by apply upd_open].
Qed.
Lemma upd_serves f : (forall s, x_clip (f s) = x_clip s /\ x_dpy (f s) = x_dpy s) -> respects serves (x_upd f).
Proof. intros Hf s. destruct (Hf s) as [E1 E2]. pose proof fair_preorder. unfold serves, clipped. cbn. by rewrite E1, E2. Qed.
Lemma put_serves e : respects serves (x_put e).
Proof. by apply upd_serves. Qed.
Lemma clip_serves i : match i with CIAttach _ | CIDetach _ _ => False | _ => True end -> respects serves (with_clip (c_step i)).
Proof. intros Hi s. split; [by apply c_step_fair; destruct i|]. unfold clipped. cbn. by rewrite (step_open i Hi). Qed.
Create HintDb xsrv.
Ltac srv := repeat first [ solve [auto with xsrv nocore] | respects_step | apply put_serves | by apply upd_serves ].
Lemma x_disconnect_serves : respects serves disconnect.
Proof.
  intros s. unfold disconnect. erewrite bind_ok by reflexivity. pose proof fair_preorder. destruct (x_dpy s) eqn:Ed; cbn [when].
  - unfold with_clip, x_put, x_upd. repeat (erewrite bind_ok by reflexivity). split; [by apply (detach_fair "the X display closed")|]. intros _. apply (detach_closes "the X display closed" true (x_clip s)).
  - split; [done|]. unfold clipped. cbn. congruence.
Qed.
Lemma attach_serves w s : serves s ((x_upd (fun s => {| s with x_dpy := true |}) ;; x_put OOpen ;; with_clip (x_attach w)) s).1.
Proof. split; [by apply (c_step_fair (CIAttach w))|]. done. Qed.
#[local] Hint Resolve x_disconnect_serves : xsrv.
Lemma tell_serves : respects serves tell_monitors.
Proof. unfold tell_monitors, x_start_capture, x_stop_capture, avail, store. srv. Qed.
#[local] Hint Resolve tell_serves : xsrv.
Lemma lost_serves why : respects serves (x_lost why).
Proof. unfold x_lost, avail, store. srv. Qed.
#[local] Hint Resolve lost_serves : xsrv.
Lemma usable_serves : respects serves usable.
Proof. unfold usable, looks_dead. srv. Qed.
#[local] Hint Resolve usable_serves : xsrv.
Lemma read_serves force answer : respects serves (read_monitors force answer).
Proof. unfold read_monitors, follow, avail, store. srv. Qed.
Lemma cursor_serves c : respects serves (read_cursor c).
Proof. unfold read_cursor. srv. Qed.
#[local] Hint Resolve read_serves cursor_serves : xsrv.
Lemma connect_serves o : respects serves (x_connect o).
Proof.
  unfold x_connect. destruct o as [o|]; [|srv]. destruct (negb _); [srv|]. destruct (_ || _); [srv|]. intros s. repeat (erewrite bind_ok by reflexivity).
  etrans; [apply (attach_serves (op_window o))|]. unfold with_clip, x_put, x_upd. repeat (erewrite bind_ok by reflexivity). cbn [fst modify]. match goal with |- serves ?x (?m ?y).1 => etrans; [apply (upd_serves (fun s => {| s with x_keymap := None |})); done | enough (respects serves m) as H by apply H] end. unfold avail, store. srv.
Qed.
Lemma events_serves evs : forall layout, respects serves (handle_events evs layout).
Proof. induction evs as [|e evs IH]; intros layout; cbn [handle_events]; srv. by apply (clip_serves (CIEvent _)). Qed.
Lemma key_serves code down : respects serves (x_key code down).
Proof. unfold x_key. srv. Qed.
Lemma release_serves : respects serves x_release_all.
Proof. unfold x_release_all. srv. Qed.
Lemma wheel_serves fuel dx dy : respects serves (x_wheel fuel dx dy).
Proof.
  unfold x_wheel. apply respects_bind; [apply _ | srv | intros ok]. apply respects_bind; [apply _ | srv | intros s]. destruct (negb ok); [srv|].
  destruct (clicks fuel 4 5 _) as [[ey y] ys], (clicks fuel 6 7 _) as [[ex x] xs]. unfold click. srv.
Qed.
#[local] Hint Resolve connect_serves events_serves key_serves release_serves wheel_serves : xsrv.
Lemma handler_serves i : respects serves (x_handler i).
Proof.
  destruct i as [| | | | | | | | | | | | | | | | | |utf8 names| |k type max|k type bytes t took| |id|]; cbn [x_handler];
    [| | | | | | | | | | | | | | | | | | | |by apply (clip_serves (CIRead k type max))|by apply (clip_serves (CIWrite k type bytes t took))|by apply clip_serves|by apply (clip_serves (CISendTimeout id))|];
    unfold x_tick, on_idle, x_dispatch, x_drain, looks_dead, poll_pointer, x_motion, x_button, x_type_text, x_load_keymap, x_type_stroke, at_source, x_start_capture, x_stop_capture, avail, store;
    try destruct (layout_names names); srv.
  intros s. unfold with_sound. pose proof fair_preorder. by destruct (s_step _ _).
Qed.
(** The clipboard of a display that goes answers. In every run of the X11 backend each read of the
    clipboard was answered once or is queued, and while one is queued the display is open and the
    timer that ends it runs: the end of the display answers them all. *)
Theorem x11_reads_end_with_display l ts : let s := x_run l ts in
  (forall k, total (asks k) (c_log (x_clip s)) = total (tells k) (c_log (x_clip s)) + total (waits k) (fetches (x_clip s)))
  /\ (fetches (x_clip s) <> [] -> x_dpy s = true /\ fetch_timer (x_clip s) = true).
Proof.
  intros s. assert (serves (new_x11 l) s) as [[Hl Ha] Hc].
  { subst s. unfold x_run. induction ts as [|t ts IH] using rev_ind; [done|]. rewrite foldl_app. etrans; [exact IH|]. match goal with |- serves ?a _ => generalize a end. intros s. unfold foldl, x_step.
    match goal with |- serves s (?m s).1 => enough (respects serves m) as H by apply H end. pose proof (handler_serves t.2). srv. }
  destruct Ha as [Ht Hd]; [done|]. specialize (Hc eq_refl). unfold clipped in Hc. split.
  - intros k. specialize (Hl k). change (owes k _) with 0 in Hl at 2. unfold owes in Hl. lia.
  - intros Hf. split; [|rewrite Ht; by destruct (fetches (x_clip s))]. rewrite <- Hc. destruct (dpy (x_clip s)); [done|]. by rewrite Hd in Hf.
Qed.
End Clip.

(** ** On a kiosk *)
#[local] Existing Instance kiosk.
#[local] Existing Instance no_atoms.
Lemma kiosk_prompt : prompt.
Proof.
  intros s ms m Hm Hf. cbn [react kiosk]. unfold diff. apply in_app_iff. left. apply in_map, filter_In. split; [|unfold listed; by rewrite Hf]. unfold sm_count in Hm. destruct (sm_find m (x_captures s)) as [c|] eqn:E; [|done].
  apply sm_find_In in E. apply in_map_iff. by exists (m, c).
Qed.
Definition screen_at (name : string) (x w : Z) : RandrMonitor := {| rm_name := Some name; rm_output := None; rm_rect := {| r_x := x; r_y := 0; r_w := w; r_h := 1080 |}; rm_primary := false |}.
(** Two screens; the left one is unplugged, the other moves; then the display goes and comes back. *)
Definition two_screens : list RandrMonitor := [screen_at "HDMI-1" 0 1280; screen_at "HDMI-2" 1280 1920].
Definition hotplug : list (list bool * XIn) :=
  [([], IStart (Some {| opening with op_monitors := two_screens |})); ([], ICreateBin 2); ([], ITick [screen_at "HDMI-2" 0 1920] None)].
Lemma answers_apart : Forall (fun t => apart t.2) hotplug.
Proof. repeat constructor; apply (bool_decide_unpack _); by vm_compute. Qed.
