(* ===== verification/SnapshotStore.v ===== *)
(** * SnapshotStore: the flight recorder of the pipelines (introspect/introspector.cpp, SnapshotStore)

    A ring of snapshots per pipeline, one every 250 ms at most. A trigger inside the window waits for
    its end, and a later one takes its place. Times are nanoseconds of the steady clock, 0 for a ring that took
    none yet; [walk] over a pipeline is GStreamer's, a parameter. Listeners are numbers, a listener does not
    call back into the store, and what they are told, what is written to the DOT directory and when
    each snapshot was taken is kept in order. *)

From Stdlib Require Import ZArith Lia Ascii String Sorted.
From stdpp Require Import base list strings pretty.
From S2P Require Import Prelude Monad StdMap Json.

Definition WINDOW : Z := 250 * 10 ^ 6.
Definition MS : Z := 10 ^ 6.
Definition MAX_RETIRED : Z := 8.
Definition DOT_KEPT : nat := 8.
Record SnapshotMeta := {
  pipeline_id : string; kind : string; session_id : string; robot_id : string; generation : Z; seq : Z; ts : Z; trigger : string; state : string
}.
Record Snapshot := { meta : SnapshotMeta; json_text : string; dot : string; txt : string }.
(** A bin walked: its state, the time, and what is drawn of it. *)
Class Walker := {
  bin_state : Z -> string;
  unix_now : Z -> Z;
  draw : Z -> SnapshotMeta -> string * string * string
}.
Record Ring := {
  items : list Snapshot; r_seq : Z; r_last : Z; retired : bool; retired_at : Z; pending_bin : option Z; pending_meta : option SnapshotMeta;
  pending : bool; pending_timer : option Z
}.
Definition new_ring : Ring := {| items := []; r_seq := 0; r_last := 0; retired := false; retired_at := 0; pending_bin := None; pending_meta := None; pending := false; pending_timer := None |}.
Inductive SnEvent :=
| SnTaken (id : string) (n : Z) (since : option Z) (free : bool)   (* since the last of the ring; [free]: forced or with the ring's end *)
| SnTold (listener : Z) (s : Snapshot) | SnFile (name : string) (content : string).
Record Store := { history_ : Z; dot_dir : string; scheduled : bool; rings : list (string * Ring); listeners : list (Z * unit); next_listener : Z; sn_log : list SnEvent }.
Definition new_store (history : Z) (dir : string) (schedule : bool) : Store :=
  {| history_ := history; dot_dir := dir; scheduled := schedule; rings := []; listeners := []; next_listener := 1; sn_log := [] |}.

Section Store.
Context `{W : Walker}.
#[local] Abbreviation T := (Prog Store).
Definition set_ring (id : string) (r : Ring) : T unit := modify (fun s => {| s with rings := sm_set id r (rings s) |}).
Definition sn_put (e : SnEvent) : T unit := modify (fun s => {| s with sn_log := sn_log s ++ [e] |}).

Definition walk (bin : Z) (now : Z) (m : SnapshotMeta) : Snapshot :=
  let m := {| m with ts := unix_now now; state := bin_state bin |} in
  let '(j, d, t) := draw bin m in {| meta := m; json_text := j; dot := d; txt := t |}.
Definition no_dot (s : Snapshot) : Snapshot := {| s with dot := "" |}.
(** The last [n] of a ring. *)
Definition newest {A} (n : nat) (l : list A) : list A := drop (length l - n) l.
(** DOT stays with the last [n]. *)
Definition trim (n : nat) (l : list Snapshot) : list Snapshot := map no_dot (take (length l - n) l) ++ drop (length l - n) l.
Definition file_name (m : SnapshotMeta) : string :=
  of_chars (map (fun c => if bool_decide (c = "/"%char) || bool_decide (c = ":"%char) then "_"%char else c) (chars (pipeline_id m))) +:+ "-" +:+ pretty (seq m) +:+ "-" +:+ trigger m +:+ ".dot".
Definition take_now (id : string) (now : Z) (free : bool) (r : Ring) (bin : Z) (m : SnapshotMeta) : T unit :=
  let n := u32 (r_seq r + 1) in
  let snap := walk bin now {| m with seq := n |} in
  do s <- get;
  set_ring id {| r with r_last := now; r_seq := n; items := trim DOT_KEPT (newest (Z.to_nat (history_ s)) (items r ++ [snap])) |} ;;
  sn_put (SnTaken id n (if r_last r =? 0 then None else Some (now - r_last r)) free) ;;
  when (negb (String.eqb (dot_dir s) "")) (sn_put (SnFile (dot_dir s +:+ "/" +:+ file_name {| m with seq := n |}) (dot snap))) ;;
  for_each (listeners s) (fun l => sn_put (SnTold l.1 snap)).
Definition ring_of (id : string) (s : Store) : Ring := default new_ring (sm_find id (rings s)).
Definition s_take (now bin : Z) (m : SnapshotMeta) (force : bool) : T unit :=
  do s <- get;
  let id := pipeline_id m in
  let r := ring_of id s in
  let since := now - r_last r in
  if negb force && scheduled s && negb (r_last r =? 0) && (since <? WINDOW) then
    set_ring id {| r with pending_bin := Some bin; pending_meta := Some m; pending := true;
                          pending_timer := if pending r then pending_timer r else Some (now + (WINDOW - since) / MS * MS + MS) |}
  else take_now id now force {| r with pending_bin := None; pending := false |} bin m.
(** The timer of a ring, which is one shot. *)
Definition s_fire (id : string) (now : Z) : T unit :=
  do s <- get;
  match sm_find id (rings s) with
  | None => ret tt
  | Some r =>
    match pending_timer r with
    | None => ret tt
    | Some due =>
      if now <? due then ret tt
      else
        let r := {| r with pending_timer := None |} in
        if negb (pending r) then set_ring id r
        else
          let r' := {| r with pending := false; pending_bin := None |} in
          match pending_bin r, pending_meta r with
          | Some bin, Some m => take_now id now false r' bin m
          | _, _ => set_ring id r'
          end
    end
  end.
Definition count_retired (l : list (string * Ring)) : Z := sm_sum (fun r => if retired r then 1 else 0) l.
(** The first of the retired rings that are longest so. *)
Definition oldest (l : list (string * Ring)) : option (string * Z) :=
  foldl (fun o kr => if retired kr.2 && match o with None => true | Some (_, t) => retired_at kr.2 <? t end then Some (kr.1, retired_at kr.2) else o) None l.
Fixpoint evict (n : nat) (l : list (string * Ring)) : list (string * Ring) :=
  match n with O => l | S n' => match oldest l with None => l | Some (k, _) => evict n' (sm_erase k l) end end.
Definition s_retire (id : string) (now : Z) : T unit :=
  do s <- get;
  match sm_find id (rings s) with
  | None => ret tt
  | Some r =>
    set_ring id {| r with retired := true; retired_at := now; items := trim 1 (newest 8 (items r)) |} ;;
    do s <- get;
    modify (fun s => {| s with rings := evict (Z.to_nat (count_retired (rings s) - MAX_RETIRED)) (rings s) |}) ;;
    do s <- get;
    match sm_find id (rings s) with
    | None => ret tt
    | Some r =>
      let r := {| r with pending_timer := None |} in
      if negb (pending r) then set_ring id r
      else
        let r' := {| r with pending := false; pending_bin := None |} in
        match pending_bin r, pending_meta r with
        | Some bin, Some m => take_now id now true r' bin m
        | _, _ => set_ring id r'
        end
    end
  end.
Definition RETENTION : Z := 10 * 60 * 10 ^ 9.
Definition s_expire (now : Z) : T unit := modify (fun s => {| s with rings := sm_filter (fun _ r => negb (retired r && (RETENTION <? now - retired_at r))) (rings s) |}).
Definition add_listener : T Z := do s <- get; modify (fun s => {| s with listeners := sm_set (next_listener s) tt (listeners s); next_listener := u32 (next_listener s + 1) |}) ;; ret (next_listener s).
Definition remove_listener (id : Z) : T unit := modify (fun s => {| s with listeners := sm_erase id (listeners s) |}).

(** *** Readers *)
Definition s_list (s : Store) : list SnapshotMeta := omap (fun kr => meta <$> last (items kr.2)) (rings s).
Definition s_latest (id : string) (s : Store) : option Snapshot := r ← sm_find id (rings s); last (items r).
Definition s_at (id : string) (n : Z) (s : Store) : option Snapshot := r ← sm_find id (rings s); List.find (fun x => seq (meta x) =? n) (items r).
Definition s_history (id : string) (s : Store) : list SnapshotMeta := match sm_find id (rings s) with Some r => map meta (items r) | None => [] end.

Inductive SnIn := SnTake (now bin : Z) (m : SnapshotMeta) (force : bool) | SnFire (id : string) (now : Z) | SnRetire (id : string) (now : Z) | SnExpire (now : Z) | SnAdd | SnRemove (id : Z).
Definition sn_step (i : SnIn) : T unit :=
  match i with
  | SnTake now bin m force => s_take now bin m force
  | SnFire id now => s_fire id now
  | SnRetire id now => s_retire id now
  | SnExpire now => s_expire now
  | SnAdd => do _ <- add_listener; ret tt
  | SnRemove id => remove_listener id
  end.
Definition sn_run (history : Z) (dir : string) (schedule : bool) (ins : list SnIn) : Store := foldl (fun s i => (sn_step i s).1) (new_store history dir schedule) ins.
End Store.
