(* ===== verification/SnapshotStoreProofs.v ===== *)
(** * SnapshotStoreProofs: the recorder is bounded, spaced, and loses no last word *)

From Stdlib Require Import ZArith Lia Ascii String.
From stdpp Require Import base list strings.
From S2P Require Import Prelude Monad StdMap Json SnapshotStore.

(** ** Rings *)
(** The snapshots of a ring are numbered one after the other up to its counter, and DOT is kept
    with the last eight at most. *)
Definition numbered (n : Z) (l : list Snapshot) : Prop := forall i x, l !! i = Some x -> seq (meta x) = n - zlen l + 1 + Z.of_nat i.
Definition dotted (l : list Snapshot) : Prop := forall i x, l !! i = Some x -> (i + DOT_KEPT < length l)%nat -> dot x = ""%string.
Definition waiting (id : string) (r : Ring) : Prop :=
  pending r = true -> exists bin m due, pending_bin r = Some bin /\ pending_meta r = Some m /\ pipeline_id m = id /\ pending_timer r = Some due /\ r_last r <> 0 /\ r_last r + WINDOW <= due.
Record ring_ok (id : string) (history n : Z) (r : Ring) : Prop := {
  ro_len : zlen (items r) <= history;
  ro_seq : 0 <= r_seq r <= n;
  ro_numbered : numbered (r_seq r) (items r);
  ro_dotted : dotted (items r);
  ro_id x : In x (items r) -> pipeline_id (meta x) = id;
  ro_waiting : waiting id r
}.
Lemma newest_length {A} n (l : list A) : length (newest n l) = Nat.min n (length l).
Proof. unfold newest. rewrite length_drop. lia. Qed.
Lemma newest_lookup {A} n (l : list A) i : newest n l !! i = l !! (length l - n + i)%nat.
Proof. unfold newest. by rewrite lookup_drop. Qed.
Lemma trim_length n l : length (trim n l) = length l.
Proof. unfold trim. rewrite length_app, length_map, length_take, length_drop. lia. Qed.
(** Trimming takes DOT from all but the last [n] and nothing else. *)
Lemma trim_lookup n l i x : trim n l !! i = Some x -> exists y, l !! i = Some y /\ x = if bool_decide (i + n < length l)%nat then no_dot y else y.
Proof.
  unfold trim. intros Hx. destruct (decide (i + n < length l)%nat) as [Hi|Hi].
  - rewrite lookup_app_l in Hx by (rewrite length_map, length_take; lia). change (map no_dot) with (fmap (M := list) no_dot) in Hx. rewrite list_lookup_fmap, lookup_take_lt in Hx by lia. destruct (l !! i) as [y|]; [|done]. exists y. injection Hx as <-. by rewrite bool_decide_eq_true_2.
  - rewrite lookup_app_r, length_map, length_take, lookup_drop in Hx by (rewrite length_map, length_take; lia). exists x. rewrite bool_decide_eq_false_2 by done. split; [|done]. rewrite <- Hx. f_equal. lia.
Qed.
Lemma trim_numbered n k l : numbered k l -> numbered k (trim n l).
Proof. intros H i x Hx. apply trim_lookup in Hx as (y & Hy & ->). unfold zlen. rewrite trim_length. specialize (H i y Hy). unfold zlen in H. by destruct (bool_decide _). Qed.
Lemma trim_dotted n l : (n <= DOT_KEPT)%nat -> dotted (trim n l).
Proof. intros Hn i x Hx. rewrite trim_length. intros Hi. apply trim_lookup in Hx as (y & Hy & ->). by rewrite bool_decide_eq_true_2 by lia. Qed.
Lemma newest_numbered n k l : numbered k l -> numbered k (newest n l).
Proof.
  intros H i x Hx. rewrite newest_lookup in Hx. pose proof (lookup_lt_Some _ _ _ Hx). rewrite (H _ _ Hx). unfold zlen. rewrite newest_length. lia.
Qed.
Lemma trim_In n l x : In x (trim n l) -> exists y, In y l /\ meta x = meta y.
Proof. unfold trim. intros [Hx|Hx]%in_app_iff; [apply in_map_iff in Hx as (y & <- & Hy); exists y; split; [|done] | exists x; split; [|done]]; rewrite <- (take_drop (length l - n) l); apply in_app_iff; auto. Qed.
Lemma newest_In {A} n (l : list A) x : In x (newest n l) -> In x l.
Proof. unfold newest. intros Hx. rewrite <- (take_drop (length l - n) l). apply in_app_iff. by right. Qed.

Section Rings.
Context `{W : Walker}.
Lemma walk_meta bin now m : pipeline_id (meta (walk bin now m)) = pipeline_id m /\ seq (meta (walk bin now m)) = seq m.
Proof. unfold walk. by destruct (draw bin _) as [[j d] t]. Qed.
Definition taken (now bin : Z) (m : SnapshotMeta) (history : Z) (r : Ring) : Ring :=
  {| r with r_last := now; r_seq := u32 (r_seq r + 1); items := trim DOT_KEPT (newest (Z.to_nat history) (items r ++ [walk bin now {| m with seq := u32 (r_seq r + 1) |}])) |}.
Lemma taken_ok id history n now bin m r : 0 <= history -> n + 1 < 2 ^ 32 -> ring_ok id history n r -> pending r = false -> pipeline_id m = id -> ring_ok id history (n + 1) (taken now bin m history r).
Proof.
  intros Hh Hn [H1 H2 H3 H4 H5 H6] Hp Hid. assert (u32 (r_seq r + 1) = r_seq r + 1) as Eu by (apply u32_small; lia). split; cbn; rewrite ?Eu.
  - unfold zlen. rewrite trim_length, newest_length. lia.
  - lia.
  - apply trim_numbered, newest_numbered. intros i x Hx. rewrite zlen_snoc. apply lookup_app_Some in Hx as [Hx|[Hi Hx]]; [rewrite (H3 _ _ Hx); lia|]. apply list_lookup_singleton_Some in Hx as [Hi' <-]. destruct (walk_meta bin now {| m with seq := r_seq r + 1 |}) as [_ ->]. cbn. unfold zlen. lia.
  - by apply trim_dotted.
  - intros x (y & Hy & ->)%trim_In. apply newest_In in Hy. apply in_app_iff in Hy as [Hy|[<-|[]]]; [by apply H5|]. by destruct (walk_meta bin now {| m with seq := r_seq r + 1 |}) as [-> _].
  - intros Hp'. cbn in Hp'. congruence.
Qed.
Lemma taken_last now bin m history r : 0 < history -> last (items (taken now bin m history r)) = Some (walk bin now {| m with seq := u32 (r_seq r + 1) |}).
Proof.
  intros Hh. cbn. unfold trim, newest. rewrite length_app. cbn [length]. set (x := walk _ _ _). set (k := (length (items r) + 1 - Z.to_nat history)%nat). rewrite drop_app_le by lia. rewrite length_app, length_drop. cbn [length].
  rewrite last_app. assert (forall (l : list Snapshot) j, (j <= length l)%nat -> last (drop j (l ++ [x])) = Some x) as Hd by (intros l j Hj; by rewrite drop_app_le, last_snoc). rewrite Hd; [done | rewrite length_drop; unfold DOT_KEPT; lia].
Qed.

(** ** The store *)
Definition spaced (e : SnEvent) : Prop := match e with SnTaken _ _ (Some since) false => WINDOW <= since | _ => True end.
Record store_inv (n : Z) (s : Store) : Prop := {
  si_wf : sm_wf (rings s);
  si_rings id r : sm_find id (rings s) = Some r -> ring_ok id (history_ s) n r;
  si_retired : count_retired (rings s) <= MAX_RETIRED;
  si_spaced : scheduled s = true -> Forall spaced (sn_log s)
}.
Lemma take_now_spec id now free r bin m s : exists more, take_now id now free r bin m s =
  ({| s with rings := sm_set id (taken now bin m (history_ s) r) (rings s); sn_log := sn_log s ++ SnTaken id (u32 (r_seq r + 1)) (if r_last r =? 0 then None else Some (now - r_last r)) free :: more |}, Ok tt) /\ Forall spaced more.
Proof.
  unfold take_now. erewrite bind_ok by reflexivity. erewrite bind_ok by reflexivity. erewrite bind_ok by reflexivity. cbn [rings sn_log].
  assert (forall (l : list (Z * unit)) snap s, exists more, for_each l (fun l => sn_put (SnTold l.1 snap)) s = ({| s with sn_log := sn_log s ++ more |}, Ok tt) /\ Forall spaced more) as Hl.
  { induction l as [|a l IH]; intros snap s0; cbn [for_each]; [exists []; split; [destruct s0; cbn; by rewrite app_nil_r | done]|]. erewrite bind_ok by reflexivity. match goal with |- context [for_each l _ ?x] => destruct (IH snap x) as (more & -> & Hm) end.
    exists (SnTold a.1 snap :: more). split; [cbn; by rewrite <- app_assoc | by constructor]. }
  unfold when. destruct (negb _); erewrite bind_ok by reflexivity; match goal with |- context [for_each ?ls (fun k => sn_put (SnTold k.1 ?snap)) ?x] => destruct (Hl ls snap x) as (more & -> & Hm) end.
  - eexists (_ :: more). split; [cbn; rewrite <- !app_assoc; reflexivity | by constructor].
  - exists more. split; [cbn; by rewrite <- app_assoc | done].
Qed.
Lemma ring_weaken id history n n' r : n <= n' -> ring_ok id history n r -> ring_ok id history n' r.
Proof. intros Hn [H1 H2 H3 H4 H5 H6]. split; try done. lia. Qed.
Lemma new_ring_ok id history n : 0 <= history -> 0 <= n -> ring_ok id history n new_ring.
Proof. intros. split; cbn; [done | lia | by intros i x | by intros i x | done | by intros ?]. Qed.
Lemma count_set id r r' (l : list (string * Ring)) : sm_wf l -> sm_find id l = Some r -> retired r' = retired r -> count_retired (sm_set id r' l) = count_retired l.
Proof. intros Hw Hf Hr. unfold count_retired. rewrite (sm_sum_set_old _ _ _ r) by done. rewrite Hr. lia. Qed.
Lemma count_new id r' (l : list (string * Ring)) : sm_find id l = None -> retired r' = false -> count_retired (sm_set id r' l) = count_retired l.
Proof. intros Hf Hr. unfold count_retired. rewrite sm_sum_set_new by done. rewrite Hr. lia. Qed.

(** A ring that takes one, with nothing pending. *)
Lemma take_now_inv id now free n r r0 bin m s : 0 <= history_ s -> n + 1 < 2 ^ 32 -> store_inv n s -> (sm_find id (rings s) = Some r0 /\ retired r = retired r0 \/ sm_find id (rings s) = None /\ retired r = false) ->
  ring_ok id (history_ s) n r -> pending r = false -> pipeline_id m = id -> (scheduled s = true -> r_last r = 0 \/ free = true \/ WINDOW <= now - r_last r) -> store_inv (n + 1) (take_now id now free r bin m s).1.
Proof.
  intros Hh Hn [H1 H2 H3 H4] Hr Hok Hp Hid Hsp. destruct (take_now_spec id now free r bin m s) as (more & -> & Hm). split; cbn.
  - by apply sm_wf_set.
  - intros id' r'. destruct (decide (id' = id)) as [->|Hne]; [rewrite sm_find_set_eq; intros [= <-]; by apply taken_ok|]. rewrite sm_find_set_ne by done. intros Hf. eapply ring_weaken; [|by apply H2]. lia.
  - destruct Hr as [[Hf Hre]|[Hf Hre]]; [by rewrite (count_set _ r0) | by rewrite count_new].
  - intros Hs. apply Forall_app. split; [by apply H4|]. constructor; [|done]. cbn. destruct (Z.eqb_spec (r_last r) 0); [done|]. destruct free; [done|]. by destruct (Hsp Hs) as [|[|]].
Qed.
(** A ring that is only written. *)
Lemma set_ring_inv id n r r0 s : store_inv n s -> (sm_find id (rings s) = Some r0 /\ retired r = retired r0) -> ring_ok id (history_ s) n r -> store_inv n (set_ring id r s).1.
Proof.
  intros [H1 H2 H3 H4] [Hf Hre] Hok. split; cbn; [by apply sm_wf_set | | by rewrite (count_set _ r0) | done]. intros id' r'. destruct (decide (id' = id)) as [->|Hne]; [rewrite sm_find_set_eq; by intros [= <-]|]. rewrite sm_find_set_ne by done. apply H2.
Qed.
Lemma idle_ok id history n r r' : items r' = items r -> r_seq r' = r_seq r -> pending r' = false -> ring_ok id history n r -> ring_ok id history n r'.
Proof. intros E1 E2 E3 [H1 H2 H3 H4 H5 H6]. split; rewrite ?E1, ?E2; try done. intros Hp. congruence. Qed.
Lemma inv_weaken n n' s : n <= n' -> store_inv n s -> store_inv n' s.
Proof. intros Hn [H1 H2 H3 H4]. split; try done. intros id r Hf. eapply ring_weaken; [done | by apply H2]. Qed.
Lemma take_inv n now bin m force s : 0 <= n -> 0 <= history_ s -> n + 1 < 2 ^ 32 -> store_inv n s -> store_inv (n + 1) (s_take now bin m force s).1.
Proof.
  intros H0 Hh Hn Hs. unfold s_take. erewrite bind_ok by reflexivity. set (id := pipeline_id m). set (r := ring_of id s).
  assert (ring_ok id (history_ s) n r) as Hr by (unfold r, ring_of; destruct (sm_find id (rings s)) eqn:E; [by apply (si_rings n s Hs) | by apply new_ring_ok]).
  destruct (negb force && scheduled s && negb (r_last r =? 0) && (now - r_last r <? WINDOW)) eqn:Eg.
  - rewrite !andb_true_iff in Eg. destruct Eg as [[[Ef Es] El%negb_true_iff%Z.eqb_neq] Ew%Z.ltb_lt]. apply inv_weaken with n; [lia|]. assert (sm_find id (rings s) = Some r) as Hf by (subst r; unfold ring_of in *; by destruct (sm_find id (rings s))).
    apply (set_ring_inv id n _ r); [done | done|]. destruct Hr as [H1 H2 H3 H4 H5 H6]. split; cbn; try done. intros _. destruct (pending r) eqn:Ep.
    + destruct (H6 Ep) as (bin0 & m0 & due & _ & _ & _ & Ht & Hl & Hd). by exists bin, m, due.
    + exists bin, m, (now + (WINDOW - (now - r_last r)) / MS * MS + MS). split_and!; try done. cbn. pose proof (Z.div_mod (WINDOW - (now - r_last r)) MS ltac:(done)). pose proof (Z.mod_pos_bound (WINDOW - (now - r_last r)) MS ltac:(done)). lia.
  - apply (take_now_inv id now force n _ r); try done.
    + subst r. unfold ring_of. destruct (sm_find id (rings s)); [by left | by right].
    + by apply (idle_ok _ _ _ r).
    + intros Hsc. cbn. rewrite Hsc in Eg. destruct force; [by right; left|]. destruct (Z.eqb_spec (r_last r) 0); [by left|]. cbn in Eg. apply Z.ltb_ge in Eg. by do 2 right.
Qed.
Lemma fire_inv n id now s : 0 <= n -> 0 <= history_ s -> n + 1 < 2 ^ 32 -> store_inv n s -> store_inv (n + 1) (s_fire id now s).1.
Proof.
  intros H0 Hh Hn Hs. unfold s_fire. erewrite bind_ok by reflexivity. assert (store_inv (n + 1) s) as Hs1 by (by apply (inv_weaken n); [lia|]). destruct (sm_find id (rings s)) as [r|] eqn:Ef; [|done]. pose proof (si_rings _ _ Hs _ _ Ef) as Hr.
  destruct (pending_timer r) as [due|] eqn:Et; [|done]. destruct (Z.ltb_spec now due); [done|]. cbn [pending]. destruct (pending r) eqn:Ep; cbn [negb].
  - cbn [pending_bin pending_meta]. destruct (ro_waiting _ _ _ _ Hr Ep) as (bin & m & due' & -> & -> & Hid & Ht & Hl & Hd). apply (take_now_inv id now false n _ r); try done; [by left | by apply (idle_ok _ _ _ r)|]. intros _. do 2 right. cbn. assert (due' = due) as -> by congruence. lia.
  - apply (set_ring_inv id (n + 1) _ r); [done | done|]. apply (ring_weaken _ _ n); [lia|]. by apply (idle_ok _ _ _ r).
Qed.
(** Eviction brings the retired rings down to the bound, and takes nothing else. *)
Lemma oldest_spec l : match oldest l with Some (k, t) => exists r, In (k, r) l /\ retired r = true /\ retired_at r = t /\ (forall k' r', In (k', r') l -> retired r' = true -> t <= retired_at r') | None => forall k' r', In (k', r') l -> retired r' = false end.
Proof.
  unfold oldest. induction l as [|[k r] l IH] using rev_ind; [by intros ? ? []|]. rewrite foldl_app. cbn [foldl fst snd]. destruct (foldl _ None l) as [[k0 t0]|].
  - destruct IH as (r0 & Hin & Hr & Ht & Hmin). destruct (retired r) eqn:Er; cbn [andb]; [destruct (Z.ltb_spec (retired_at r) t0)|].
    + exists r. split_and!; [apply in_app_iff; right; by left | done | done|]. intros k' r' [Hi|[[= <- <-]|[]]]%in_app_iff Hr'; [specialize (Hmin _ _ Hi Hr'); lia | lia].
    + exists r0. split_and!; [apply in_app_iff; by left | done | done|]. intros k' r' [Hi|[[= <- <-]|[]]]%in_app_iff Hr'; [by eapply Hmin | lia].
    + exists r0. split_and!; [apply in_app_iff; by left | done | done|]. intros k' r' [Hi|[[= <- <-]|[]]]%in_app_iff Hr'; [by eapply Hmin | congruence].
  - destruct (retired r) eqn:Er; cbn [andb].
    + exists r. split_and!; [apply in_app_iff; right; by left | done | done|]. intros k' r' [Hi|[[= <- <-]|[]]]%in_app_iff Hr'; [by rewrite (IH _ _ Hi) in Hr' | lia].
    + intros k' r' [Hi|[[= <- <-]|[]]]%in_app_iff; [by eapply IH | done].
Qed.
Lemma sn_evict_spec n : forall l, sm_wf l -> sm_wf (evict n l) /\ (forall k r, sm_find k (evict n l) = Some r -> sm_find k l = Some r) /\ count_retired (evict n l) <= Z.max 0 (count_retired l - Z.of_nat n).
Proof.
  assert (forall l, 0 <= count_retired l) as Hpos by (intros l; apply sm_sum_nonneg; intros k r _; by destruct (retired r)). assert (forall l, (forall k' r', In (k', r') l -> retired r' = false) -> count_retired l = 0) as Hzero.
  { unfold count_retired. induction l as [|[k r] l IH]; intros H; cbn; [done|]. rewrite (H k r) by (by left). apply IH. intros k' r' Hi. apply (H k' r'). by right. }
  induction n as [|n IH]; intros l Hw; cbn [evict]; [split_and!; [done | done | specialize (Hpos l); lia]|]. pose proof (oldest_spec l) as Ho. destruct (oldest l) as [[k t]|]; [|split_and!; [done | done | rewrite Hzero by done; lia]].
  destruct Ho as (r & Hin & Hr & _). destruct (IH (sm_erase k l) (sm_wf_erase k l Hw)) as (A1 & A2 & A3). split_and!; [done | |].
  - intros k' r' Hf. apply A2 in Hf. destruct (decide (k' = k)) as [->|Hn]; [by rewrite sm_find_erase_eq in Hf | by rewrite sm_find_erase_ne in Hf].
  - assert (count_retired (sm_erase k l) = count_retired l - 1) as Ec by (unfold count_retired; rewrite (sm_sum_erase _ k r) by (done || by apply sm_In_find); by rewrite Hr). rewrite Ec in A3. lia.
Qed.
Lemma retire_inv n id now s : 0 <= n -> 0 <= history_ s -> n + 1 < 2 ^ 32 -> store_inv n s -> store_inv (n + 1) (s_retire id now s).1.
Proof.
  intros H0 Hh Hn Hs. unfold s_retire. erewrite bind_ok by reflexivity. destruct (sm_find id (rings s)) as [r|] eqn:Ef; [|by apply (inv_weaken n); [lia|]]. do 4 erewrite bind_ok by reflexivity. cbn [rings].
  set (r1 := {| r with retired := true; retired_at := now; items := trim 1 (newest 8 (items r)) |}). set (l := sm_set id r1 (rings s)). destruct Hs as [H1 H2 H3 H4]. pose proof (H2 _ _ Ef) as Hr.
  assert (ring_ok id (history_ s) n r1) as Hr1.
  { destruct Hr as [A1 A2 A3 A4 A5 A6]. split; cbn; [unfold zlen in *; rewrite trim_length, newest_length; lia | done | by apply trim_numbered, newest_numbered | apply trim_dotted; unfold DOT_KEPT; lia | | done].
    intros x (y & Hy & ->)%trim_In. by eapply A5, newest_In. }
  assert (sm_wf l) as Hl by by apply sm_wf_set. destruct (sn_evict_spec (Z.to_nat (count_retired l - MAX_RETIRED)) l Hl) as (B1 & B2 & B3). set (l' := evict _ l) in *. set (s' := {| s with rings := l' |}).
  assert (store_inv n s') as Hs'.
  { split; [done | | change (count_retired l' <= MAX_RETIRED); unfold MAX_RETIRED in *; lia | done]. cbn. intros id' r' Hf. apply B2 in Hf. subst l. destruct (decide (id' = id)) as [->|Hne]; [rewrite sm_find_set_eq in Hf; by injection Hf as <-|]. rewrite sm_find_set_ne in Hf by done. by apply H2. }
  change (store_inv (n + 1) ((match sm_find id (rings s') with None => ret tt | Some r => let r := {| r with pending_timer := None |} in if negb (pending r) then set_ring id r else
    let r' := {| r with pending := false; pending_bin := None |} in match pending_bin r, pending_meta r with Some bin, Some m => take_now id now true r' bin m | _, _ => set_ring id r' end end) s').1).
  assert (history_ s' = history_ s) as Eh by done. clearbody s'. destruct (sm_find id (rings s')) as [r2|] eqn:Ef2; [|by apply (inv_weaken n); [lia|]]. pose proof (si_rings _ _ Hs' _ _ Ef2) as Hr2. cbn [pending pending_bin pending_meta]. destruct (pending r2) eqn:Ep; cbn [negb].
  - destruct (ro_waiting _ _ _ _ Hr2 Ep) as (bin & m & due' & -> & -> & Hid & Ht & Hw & Hd). apply (take_now_inv id now true n _ r2); try done; [by rewrite Eh | by left | by apply (idle_ok _ _ _ r2) | intros _; by right; left].
  - apply (inv_weaken n); [lia|]. apply (set_ring_inv id n _ r2); [done | done|]. by apply (idle_ok _ _ _ r2).
Qed.
Lemma sn_expire_inv n now s : store_inv n s -> store_inv n (s_expire now s).1.
Proof.
  intros [H1 H2 H3 H4]. split; cbn; [by apply sm_wf_filter | | | done].
  - intros id r Hf. apply H2. rewrite sm_filter_find in Hf by done. destruct (sm_find id (rings s)); [|done]. by destruct (negb _); [|done].
  - etrans; [|exact H3]. unfold sm_filter. generalize (fun kv : string * Ring => negb (retired kv.2 && (RETENTION <? now - retired_at kv.2))). clear. intros f. unfold count_retired, sm_sum. induction (rings s) as [|kr l IH]; [done|]. cbn [List.filter]. destruct (f kr); cbn [foldr]; destruct (retired kr.2); lia.
Qed.
Definition begins (history : Z) (dir : string) (schedule : bool) (s : Store) : Prop := history_ s = history /\ dot_dir s = dir /\ scheduled s = schedule.
Lemma step_begins i s : history_ (sn_step i s).1 = history_ s /\ scheduled (sn_step i s).1 = scheduled s.
Proof.
  assert (forall (p : Prog Store unit), respects (fun a b => history_ b = history_ a /\ scheduled b = scheduled a) p -> history_ (p s).1 = history_ s /\ scheduled (p s).1 = scheduled s) as H by (intros p Hp; by destruct (Hp s)).
  assert (PreOrder (fun a b : Store => history_ b = history_ a /\ scheduled b = scheduled a)) by (split; [by intros x | intros x y z [] []; split; congruence]).
  apply H. destruct i; cbn [sn_step]; unfold s_take, s_fire, s_retire, s_expire, add_listener, remove_listener, take_now, set_ring, sn_put; repeat first [respects_step | apply respects_modify; by intros | progress cbv zeta].
Qed.
Lemma sn_run_inv history dir schedule ins : 0 <= history -> zlen ins < 2 ^ 32 -> let s := sn_run history dir schedule ins in store_inv (zlen ins) s /\ history_ s = history /\ scheduled s = schedule.
Proof.
  intros Hh. induction ins as [|i ins IH] using rev_ind; intros Hz.
  { split_and!; try done. split; cbn; [constructor | done | done | by intros]. }
  rewrite zlen_snoc in Hz |- *. pose proof (zlen_nonneg ins). destruct IH as (IH & E1 & E2); [lia|]. cbv zeta. unfold sn_run in *. rewrite foldl_app. cbn [foldl]. set (s := foldl _ _ ins) in *. destruct (step_begins i s) as [-> ->]. split; [|done].
  destruct i; cbn [sn_step].
  - apply take_inv; [done | lia | lia | done].
  - apply fire_inv; [done | lia | lia | done].
  - apply retire_inv; [done | lia | lia | done].
  - apply (inv_weaken (zlen ins)); [lia|]. by apply sn_expire_inv.
  - apply (inv_weaken (zlen ins)); [lia|]. by destruct IH as [A1 A2 A3 A4].
  - apply (inv_weaken (zlen ins)); [lia|]. by destruct IH as [A1 A2 A3 A4].
Qed.

(** ** What the recorder promises *)
Lemma numbered_find n l x : numbered n l -> In x l -> List.find (fun y => seq (meta y) =? seq (meta x)) l = Some x.
Proof.
  intros Hn Hin. apply list_elem_of_In, list_elem_of_lookup in Hin as [i Hi]. destruct (List.find _ l) as [y|] eqn:Ef.
  - apply find_some in Ef as [Hy E%Z.eqb_eq]. apply list_elem_of_In, list_elem_of_lookup in Hy as [j Hj]. rewrite (Hn _ _ Hi), (Hn _ _ Hj) in E. assert (i = j) as -> by lia. congruence.
  - exfalso. assert (In x l) as Hin' by (apply list_elem_of_In, list_elem_of_lookup; by exists i). apply (find_none _ _ Ef) in Hin'. by rewrite Z.eqb_refl in Hin'.
Qed.
(** C19: The flight recorder is bounded and numbers what it holds. In every run of fewer than 2^32 operations: a
    pipeline's ring holds at most the configured number of snapshots, all of that pipeline, with DOT in the last
    eight at most; their numbers are consecutive and each is found under its own; at most eight
    closed pipelines are kept; and with a scheduler two snapshots of a ring are 250 ms apart unless the later
    was forced or taken as the pipeline closed. *)
Theorem recorder_bounded history dir schedule ins : 0 <= history -> zlen ins < 2 ^ 32 -> let s := sn_run history dir schedule ins in
  (forall id r, sm_find id (rings s) = Some r -> zlen (items r) <= history
     /\ (forall i x, items r !! i = Some x -> pipeline_id (meta x) = id /\ seq (meta x) = r_seq r - zlen (items r) + 1 + Z.of_nat i /\ s_at id (seq (meta x)) s = Some x /\ ((i + 8 < length (items r))%nat -> dot x = ""%string)))
  /\ count_retired (rings s) <= 8
  /\ (schedule = true -> forall id n since, In (SnTaken id n (Some since) false) (sn_log s) -> WINDOW <= since).
Proof.
  intros Hh Hz s. destruct (sn_run_inv history dir schedule ins Hh Hz) as ([H1 H2 H3 H4] & E1 & E2). fold s in H1, H2, H3, H4, E1, E2. split_and!; [|done|].
  - intros id r Hf. destruct (H2 id r Hf) as [A1 A2 A3 A4 A5 A6]. rewrite E1 in A1. split; [done|]. intros i x Hi. assert (In x (items r)) as Hin by (apply list_elem_of_In, list_elem_of_lookup; by exists i).
    split_and!; [by apply A5 | by apply A3 | | by eapply A4]. unfold s_at. rewrite Hf. cbn. by eapply numbered_find.
  - intros Es id n since Hin. specialize (H4 ltac:(congruence)). rewrite List.Forall_forall in H4. by specialize (H4 _ Hin).
Qed.
(** C20: The last trigger lands. In every run of a recorder with room, a trigger is recorded at once, as the pipeline's newest
    snapshot, or it is the pipeline's pending one with a timer at most 251 ms away; and when that timer
    fires, or the pipeline closes while its ring is still there, what is pending is recorded as it was asked for. *)
Theorem last_trigger_lands history dir schedule ins now bin m force : 0 < history -> zlen ins < 2 ^ 32 - 1 -> let s := sn_run history dir schedule ins in
  let s1 := (s_take now bin m force s).1 in let r := ring_of (pipeline_id m) s1 in
  (s_latest (pipeline_id m) s1 = Some (walk bin now {| m with seq := r_seq r |}) /\ pending r = false)
  \/ (pending r = true /\ pending_bin r = Some bin /\ pending_meta r = Some m /\ exists due, pending_timer r = Some due
      /\ forall later, due <= later -> let s2 := (s_fire (pipeline_id m) later s1).1 in s_latest (pipeline_id m) s2 = Some (walk bin later {| m with seq := u32 (r_seq r + 1) |})).
Proof.
  intros Hh Hz s. destruct (sn_run_inv history dir schedule ins ltac:(lia) ltac:(lia)) as (Hs & E1 & E2). fold s in Hs, E1, E2. pose proof (take_inv (zlen ins) now bin m force s (zlen_nonneg _) ltac:(lia) ltac:(lia) Hs) as Hs1. cbv zeta. set (s1 := (s_take now bin m force s).1) in *. set (id := pipeline_id m) in *.
  assert (history_ s1 = history) as E3 by (subst s1; destruct (step_begins (SnTake now bin m force) s) as [E _]; cbn [sn_step] in E; congruence).
  destruct (negb force && scheduled s && negb (r_last (ring_of id s) =? 0) && (now - r_last (ring_of id s) <? WINDOW)) eqn:Eg.
  - right. set (r0 := ring_of id s) in *. set (r1 := {| r0 with pending_bin := Some bin; pending_meta := Some m; pending := true; pending_timer := if pending r0 then pending_timer r0 else Some (now + (WINDOW - (now - r_last r0)) / MS * MS + MS) |}).
    assert (sm_find id (rings s1) = Some r1) as Ef by (subst s1; unfold s_take; erewrite bind_ok by reflexivity; fold id; cbv zeta; fold r0; rewrite Eg; cbn; by rewrite sm_find_set_eq).
    assert (ring_of id s1 = r1) as Er by (unfold ring_of; by rewrite Ef). rewrite <- Er in Ef.
    assert (pending (ring_of id s1) = true) as Ep by (by rewrite Er). pose proof (si_rings _ _ Hs1 _ _ Ef) as Hr. destruct (ro_waiting _ _ _ _ Hr Ep) as (bin0 & m0 & due & Hb & Hm & _ & Ht & _).
    assert (pending_bin (ring_of id s1) = Some bin /\ pending_meta (ring_of id s1) = Some m) as [Hb' Hm'] by (by rewrite Er). split_and!; [done | done | done|]. exists due. split; [done|].
    intros later Hl. unfold s_fire. erewrite bind_ok by reflexivity. rewrite Ef, Ht. rewrite (proj2 (Z.ltb_ge later due)) by done. cbn [pending pending_bin pending_meta]. rewrite Ep, Hb', Hm'. cbn [negb].
    match goal with |- context [take_now id later false ?x bin m s1] => destruct (take_now_spec id later false x bin m s1) as (more & -> & _) end. unfold s_latest. cbn [fst rings]. rewrite sm_find_set_eq. cbn [mbind option_bind]. rewrite taken_last by lia. done.
  - left. subst s1. unfold s_take in *. erewrite bind_ok by reflexivity. fold id. cbv zeta. rewrite Eg. match goal with |- context [take_now id now force ?x bin m s] => destruct (take_now_spec id now force x bin m s) as (more & -> & _) end.
    unfold s_latest, ring_of. cbn [fst rings]. rewrite sm_find_set_eq. cbn [mbind option_bind default]. rewrite taken_last by lia. done.
Qed.
End Rings.

(** ** A recorder at work *)
#[local] Instance drawing : Walker := {| bin_state := fun _ => "playing"; unix_now := fun now => now / MS; draw := fun bin m => ("{}", "digraph", "txt")%string |}.
Definition about (id trig : string) : SnapshotMeta := {| pipeline_id := id; kind := "session"; session_id := "s1"; robot_id := "r1"; generation := 0; seq := 0; ts := 0; trigger := trig; state := "" |}.
Definition at_ms (ms : Z) : Z := (ms + 1) * MS.
Definition burst : list SnIn := [SnTake (at_ms 0) 7 (about "session:s1" "created") false; SnTake (at_ms 10) 7 (about "session:s1" "offer") false; SnTake (at_ms 40) 7 (about "session:s1" "answer") false; SnFire "session:s1" (at_ms 251)].
Lemma recorder_bounded_witness : let s := sn_run 64 "" true burst in
  map (fun x => (seq (meta x), trigger (meta x))) (items (ring_of "session:s1" s)) = [(1, "created"); (2, "answer")]%string
  /\ forall id r, sm_find id (rings s) = Some r -> zlen (items r) <= 64.
Proof.
  intros s. split; [by vm_compute|]. destruct (recorder_bounded 64 "" true burst) as [H _]; [done | done|]. intros id r Hf. by destruct (H id r Hf).
Defined.
Lemma last_trigger_lands_witness : let s1 := (s_take (at_ms 300) 7 (about "session:s1" "track") false (sn_run 64 "" true burst)).1 in
  exists due, pending_timer (ring_of "session:s1" s1) = Some due /\ s_latest "session:s1" (s_fire "session:s1" due s1).1 = Some (walk 7 due {| (about "session:s1" "track") with seq := 3 |}).
Proof.
  intros s1. destruct (last_trigger_lands 64 "" true burst (at_ms 300) 7 (about "session:s1" "track") false) as [[_ Hp]|(_ & _ & _ & due & Ht & Hl)]; [done | done | by vm_compute in Hp|]. assert (due = at_ms 502) as -> by (vm_compute in Ht; by injection Ht as <-). exists (at_ms 502). split; [exact Ht|]. etrans; [exact (Hl (at_ms 502) ltac:(done))|]. by vm_compute.
Defined.
(** A closed pipeline keeps nine snapshots, two with DOT, when one was pending: it is added
    after the ring was cut to eight. *)
Definition nine_then_close : list SnIn :=
  map (fun i => SnTake (at_ms (300 * Z.of_nat i)) 7 (about "session:s1" "tick") true) (List.seq 0 9) ++ [SnTake (at_ms 2500) 7 (about "session:s1" "closing") false; SnRetire "session:s1" (at_ms 2600)].
Theorem closed_ring_keeps_nine : let r := ring_of "session:s1" (sn_run 64 "" true nine_then_close) in
  retired r = true /\ length (items r) = 9%nat /\ length (List.filter (fun x => negb (String.eqb (dot x) "")) (items r)) = 2%nat.
Proof. by vm_compute. Qed.
