(* ===== verification/Tar.v ===== *)
(** * Tar: the diagnostics archive (introspect/bundle.cpp)

    A ustar writer and the reader of the member names. Names and bodies are bytes; gzip is GLib's and not
    here. The header is written over 512 zero bytes as the source does.

    Then: the names of an archive are the names that were put in it, in order. *)

From Stdlib Require Import ZArith Lia Strings.Byte.
From stdpp Require Import base list.
From S2P Require Import Prelude.

(** ** Writing *)
Definition SLASH : byte := x2f.
Fixpoint oct_digits (n : nat) (v : Z) : list byte := match n with O => [] | S n' => oct_digits n' (Z.shiftr v 3) ++ [Zbyte (48 + Z.land v 7)] end.
Definition octal (width : nat) (v : Z) : list byte := oct_digits (pred width) v ++ [x00].
(** [memcpy(h + off, l)] *)
Definition write_at (off : nat) (l h : list byte) : list byte := take off h ++ l ++ drop (off + length l) h.
(** [rfind('/', 155)] *)
Fixpoint last_slash (i : nat) (l : list byte) (found : option nat) : option nat :=
  match l with [] => found | b :: l' => if Nat.leb i 155 then last_slash (S i) l' (if bool_decide (b = SLASH) then Some i else found) else found end.
(** The name and its prefix; [None]: too long. *)
Definition split_name (path : list byte) : option (list byte * list byte) :=
  if Nat.leb (length path) 100 then Some (path, [])
  else match last_slash 0 path None with
       | Some slash => if Nat.leb (length path - slash - 1) 100 then Some (drop (S slash) path, take slash path) else None
       | None => None
       end.
Definition ustar : list byte := [x75; x73; x74; x61; x72; x00].
Definition owner : list byte := [x66; x6a; x61; x72; x72].
Definition checksum (h : list byte) : Z := foldr (fun b n => byteZ b + n) 0 h.
(** The fields of a header, in the order they are written. *)
Definition fields (mtime size : Z) (name prefix : list byte) : list (nat * list byte) :=
  [(0%nat, name); (100%nat, octal 8 420); (108%nat, octal 8 0); (116%nat, octal 8 0); (124%nat, octal 12 size); (136%nat, octal 12 mtime); (148%nat, replicate 8 x20); (156%nat, [x30]);
   (257%nat, ustar); (263%nat, [x30; x30]); (265%nat, owner); (297%nat, owner); (345%nat, prefix)].
Definition write_all (ws : list (nat * list byte)) (h : list byte) : list byte := foldl (fun h w => write_at w.1 w.2 h) h ws.
Definition header (mtime size : Z) (name prefix : list byte) : list byte :=
  let h := write_all (fields mtime size name prefix) (replicate 512 x00) in write_all [(148%nat, octal 7 (checksum h)); (155%nat, [x20])] h.
Definition padding (size : Z) : nat := Z.to_nat ((512 - size mod 512) mod 512).
Definition member (mtime : Z) (path body : list byte) : option (list byte) :=
  match split_name path with
  | Some (name, prefix) => Some (header mtime (zlen body) name prefix ++ body ++ replicate (padding (zlen body)) x00)
  | None => None
  end.
(** [None]: the runtime error of a name that is too long. *)
Fixpoint members (mtime : Z) (files : list (list byte * list byte)) : option (list byte) :=
  match files with
  | [] => Some []
  | (path, body) :: files' => match member mtime path body with Some m => match members mtime files' with Some ms => Some (m ++ ms) | None => None end | None => None end
  end.
Definition tar (mtime : Z) (files : list (list byte * list byte)) : option (list byte) :=
  match members mtime files with Some ms => Some (ms ++ replicate 1024 x00) | None => None end.

(** ** Reading *)
(** [std::string(p, strnlen(p, n))] *)
Fixpoint until_nul (l : list byte) : list byte := match l with [] => [] | b :: l' => if bool_decide (b = x00) then [] else b :: until_nul l' end.
Definition field (off len : nat) (h : list byte) : list byte := take len (drop off h).
Definition is_space (b : byte) : bool := let z := byteZ b in (z =? 32) || (9 <=? z) && (z <=? 13).
Fixpoint skip_spaces (l : list byte) : list byte := match l with b :: l' => if is_space b then skip_spaces l' else l | [] => [] end.
Definition oct_value (b : byte) : option Z := let z := byteZ b in if (48 <=? z) && (z <=? 55) then Some (z - 48) else None.
Fixpoint oct_loop (acc : Z) (l : list byte) : Z := match l with b :: l' => match oct_value b with Some d => oct_loop (8 * acc + d) l' | None => acc end | [] => acc end.
(** [strtoull(s, nullptr, 8)] of twelve characters at most, which cannot overflow. *)
Definition strtoull8 (l : list byte) : Z :=
  match skip_spaces l with
  | x2b%byte :: l' => oct_loop 0 l'
  | x2d%byte :: l' => u64 (- oct_loop 0 l')
  | l' => oct_loop 0 l'
  end.
Definition member_name (h : list byte) : list byte :=
  let name := until_nul (field 0 100 h) in
  match until_nul (field 345 155 h) with [] => name | prefix => prefix ++ [SLASH] ++ name end.
(** Each turn passes a header at least: the archive's length is enough turns. *)
Fixpoint names_loop (fuel : nat) (archive : list byte) (off : Z) : list (list byte) :=
  match fuel with
  | O => []
  | S fuel' =>
    if zlen archive <? off + 512 then []
    else
      let h := drop (Z.to_nat off) archive in
      if match h with x00%byte :: _ => true | _ => false end then []
      else member_name h :: names_loop fuel' archive (u64 (off + (512 + (strtoull8 (field 124 12 h) + 511) / 512 * 512)))
  end.
Definition tar_names (archive : list byte) : list (list byte) := names_loop (S (length archive)) archive 0.

(** ** What is written is read *)
Lemma write_length off l h : (off + length l <= length h)%nat -> length (write_at off l h) = length h.
Proof. intros H. unfold write_at. rewrite !length_app, length_take, length_drop. lia. Qed.
Lemma field_same off l h : (off + length l <= length h)%nat -> field off (length l) (write_at off l h) = l.
Proof. intros H. unfold field, write_at. rewrite drop_app_ge by (rewrite length_take; lia). rewrite length_take. replace (off - off `min` length h)%nat with 0%nat by lia. rewrite drop_0. by rewrite take_app_length. Qed.
(** A write leaves the fields before and behind it. *)
Lemma field_before a n off l h : (a + n <= off)%nat -> (off + length l <= length h)%nat -> field a n (write_at off l h) = field a n h.
Proof. intros H1 H2. unfold field, write_at. rewrite drop_app_le by (rewrite length_take; lia). rewrite take_app_le by (rewrite length_drop, length_take; lia). rewrite skipn_firstn_comm, take_take. f_equal. lia. Qed.
Lemma field_behind a n off l h : (off + length l <= a)%nat -> (off + length l <= length h)%nat -> field a n (write_at off l h) = field a n h.
Proof.
  intros H1 H2. unfold field, write_at. f_equal. rewrite app_assoc, drop_app_ge by (rewrite length_app, length_take; lia). rewrite length_app, length_take, drop_drop. f_equal. lia.
Qed.
Lemma oct_length n : forall v, length (oct_digits n v) = n.
Proof. induction n as [|n IH]; intros v; cbn; [done|]. rewrite length_app, IH. cbn. lia. Qed.
Lemma octal_length w v : (0 < w)%nat -> length (octal w v) = w.
Proof. intros H. unfold octal. rewrite length_app, oct_length. cbn. lia. Qed.
Lemma land7 v : 0 <= v -> Z.land v 7 = v mod 8.
Proof. intros. change 7 with (Z.ones 3). by rewrite Z.land_ones by lia. Qed.
Lemma digit_value v : 0 <= v -> oct_value (Zbyte (48 + Z.land v 7)) = Some (v mod 8).
Proof.
  intros Hv. rewrite land7 by done. pose proof (Z.mod_pos_bound v 8 ltac:(lia)). unfold oct_value. rewrite byteZ_Zbyte. unfold u8. rewrite Z.mod_small by lia. rewrite (proj2 (Z.leb_le _ _)), (proj2 (Z.leb_le _ _)) by lia. cbn [andb]. f_equal. lia.
Qed.
Lemma oct_loop_digits n : forall acc v l, 0 <= v -> oct_loop acc (oct_digits n v ++ l) = oct_loop (8 ^ Z.of_nat n * acc + v mod 8 ^ Z.of_nat n) l.
Proof.
  induction n as [|n IH]; intros acc v l Hv; [cbn [oct_digits app]; f_equal; rewrite Z.mod_1_r; lia|]. cbn [oct_digits]. rewrite <- app_assoc, IH by (apply Z.shiftr_nonneg; lia). cbn [app oct_loop]. rewrite digit_value by done. f_equal.
  rewrite Z.shiftr_div_pow2 by lia. change (2 ^ 3) with 8. rewrite Nat2Z.inj_succ, Z.pow_succ_r by lia. set (k := 8 ^ Z.of_nat n). assert (0 < k) by (subst k; apply Z.pow_pos_nonneg; lia). rewrite (Z.rem_mul_r v 8 k) by lia. lia.
Qed.
Lemma size_read size : 0 <= size < 8 ^ 11 -> strtoull8 (octal 12 size) = size.
Proof.
  intros Hs. unfold octal. cbn [pred]. assert (strtoull8 (oct_digits 11 size ++ [x00]) = oct_loop 0 (oct_digits 11 size ++ [x00])) as ->.
  - assert (forall n v, 0 <= v -> match oct_digits (S n) v with b :: _ => 48 <= byteZ b <= 55 | [] => False end) as Hd.
    { induction n as [|n IH]; intros v Hv; [cbn [oct_digits app]|]; [|cbn [oct_digits] in *; specialize (IH (Z.shiftr v 3) ltac:(apply Z.shiftr_nonneg; lia)); destruct (oct_digits n (Z.shiftr (Z.shiftr v 3) 3) ++ _) as [|b l]; [done|]; exact IH].
      pose proof (digit_value v Hv) as H. unfold oct_value in H. destruct (_ && _) eqn:E; [|done]. apply andb_true_iff in E as [E1%Z.leb_le E2%Z.leb_le]. lia. }
    specialize (Hd 10%nat size ltac:(lia)). destruct (oct_digits 11 size) as [|b l]; [done|]. cbn [app]. unfold strtoull8. cbn [skip_spaces]. assert (is_space b = false) as -> by (unfold is_space; lia).
    destruct b; try reflexivity; exfalso; vm_compute in Hd; by destruct Hd.
  - rewrite oct_loop_digits by lia. cbn [oct_loop]. change (oct_value x00) with (@None Z). change (Z.of_nat 11) with 11. rewrite Z.mod_small by lia. lia.
Qed.
Lemma until_nul_stops l r : Forall (fun b => b <> x00) l -> until_nul (l ++ x00 :: r) = l.
Proof. induction 1 as [|b l Hb Hl IH]; cbn; [done|]. by rewrite bool_decide_eq_false_2, IH by done. Qed.
Lemma until_nul_all l : Forall (fun b => b <> x00) l -> until_nul l = l.
Proof. induction 1 as [|b l Hb Hl IH]; cbn; [done|]. by rewrite bool_decide_eq_false_2, IH by done. Qed.
Lemma padded_read l n : Forall (fun b => b <> x00) l -> until_nul (l ++ replicate n x00) = l.
Proof. intros H. destruct n as [|n]; cbn; [rewrite app_nil_r; by apply until_nul_all | by apply until_nul_stops]. Qed.
Lemma field_zeros a n k : (a + n <= k)%nat -> field a n (replicate k x00) = replicate n x00.
Proof. intros H. unfold field. rewrite drop_replicate, take_replicate. f_equal. lia. Qed.
(** A short text written over zeros, in a field of [n]. *)
Lemma field_text off n l h : (length l <= n)%nat -> (off + n <= length h)%nat -> field (off + length l) (n - length l) h = replicate (n - length l) x00 -> field off n (write_at off l h) = l ++ replicate (n - length l) x00.
Proof.
  intros H1 H2 H3. unfold field in *. unfold write_at. rewrite drop_app_ge by (rewrite length_take; lia). rewrite length_take. replace (off - off `min` length h)%nat with 0%nat by lia. rewrite drop_0, take_app_ge by lia. by rewrite H3.
Qed.

(** Writes elsewhere leave a field alone. *)
Definition apart_from (a n : nat) (k : nat) (w : nat * list byte) : Prop := (w.1 + length w.2 <= k /\ (a + n <= w.1 \/ w.1 + length w.2 <= a))%nat.
Lemma write_all_length ws : forall h, Forall (fun w => (w.1 + length w.2 <= length h)%nat) ws -> length (write_all ws h) = length h.
Proof.
  induction ws as [|w ws IH]; intros h Hw; [done|]. apply Forall_cons in Hw as [Hw Hws]. cbn [write_all foldl]. fold (write_all ws (write_at w.1 w.2 h)). rewrite IH; rewrite write_length by done; done.
Qed.
Lemma field_kept a n ws : forall h, Forall (apart_from a n (length h)) ws -> field a n (write_all ws h) = field a n h.
Proof.
  induction ws as [|w ws IH]; intros h Hw; [done|]. apply Forall_cons in Hw as [[Hk Hw] Hws]. cbn [write_all foldl]. fold (write_all ws (write_at w.1 w.2 h)). rewrite IH by (by rewrite write_length). destruct Hw; [by apply field_before | by apply field_behind].
Qed.
Lemma write_all_app ws ws' h : write_all (ws ++ ws') h = write_all ws' (write_all ws h).
Proof. unfold write_all. by rewrite foldl_app. Qed.

Section Header.
Context (mtime size : Z) (name prefix : list byte).
Hypothesis Hname : (length name <= 100)%nat.
Hypothesis Hprefix : (length prefix <= 155)%nat.
Ltac sizes := repeat first [apply Forall_nil_2 | apply Forall_cons_2]; unfold apart_from; cbn [fst snd]; rewrite ?octal_length, ?length_replicate by lia; cbn [length ustar owner]; lia.
Definition all_fields : list (nat * list byte) := let h := write_all (fields mtime size name prefix) (replicate 512 x00) in fields mtime size name prefix ++ [(148%nat, octal 7 (checksum h)); (155%nat, [x20])].
Lemma header_all : header mtime size name prefix = write_all all_fields (replicate 512 x00).
Proof. unfold all_fields, header. by rewrite write_all_app. Qed.
Lemma header_length : length (header mtime size name prefix) = 512%nat.
Proof. rewrite header_all, write_all_length; [by rewrite length_replicate|]. rewrite length_replicate. unfold all_fields, fields. cbn [app]. sizes. Qed.
(** One field among the others. *)
Lemma header_field before off l after n : all_fields = before ++ (off, l) :: after -> (length l <= n)%nat -> (off + n <= 512)%nat ->
  Forall (apart_from off n 512) before -> Forall (apart_from off n 512) after -> field off n (header mtime size name prefix) = l ++ replicate (n - length l) x00.
Proof.
  intros E Hl Hn Hb Ha. rewrite header_all, E, write_all_app. cbn [write_all foldl fst snd]. fold (write_all after (write_at off l (write_all before (replicate 512 x00)))).
  assert (length (write_all before (replicate 512 x00)) = 512%nat) as L by (rewrite write_all_length; rewrite length_replicate; [done|]; eapply Forall_impl; [exact Hb|]; by intros w [? _]).
  rewrite field_kept by (rewrite write_length, L by lia; done). apply field_text; [done | lia|]. rewrite field_kept; [apply field_zeros; lia|]. rewrite length_replicate. eapply Forall_impl; [exact Hb|]. intros w [Hw Hx]. split; [done|]. lia.
Qed.
Ltac apart := cbn [fields take]; repeat first [apply Forall_nil_2 | apply Forall_cons_2]; unfold apart_from; cbn [fst snd]; rewrite ?octal_length, ?length_replicate by lia; cbn [length ustar owner]; lia.
Lemma header_name : field 0 100 (header mtime size name prefix) = name ++ replicate (100 - length name) x00.
Proof. eapply (header_field []); [reflexivity | done | lia | done | apart]. Qed.
Lemma header_size : field 124 12 (header mtime size name prefix) = octal 12 size.
Proof. erewrite (header_field (take 4 (fields mtime size name prefix))); [|reflexivity | by rewrite octal_length by lia | lia | apart | apart]. rewrite octal_length by lia. by rewrite app_nil_r. Qed.
Lemma header_prefix : field 345 155 (header mtime size name prefix) = prefix ++ replicate (155 - length prefix) x00.
Proof. eapply (header_field (take 12 (fields mtime size name prefix))); [reflexivity | done | lia | apart | apart]. Qed.
End Header.

(** ** The round trip *)
(** What a member needs: a name that does not begin with a slash or end in one, without zero bytes, and a size that has eleven octal digits. *)
Definition storable (f : list byte * list byte) : Prop :=
  f.1 <> [] /\ Forall (fun b => b <> x00) f.1 /\ head f.1 <> Some SLASH /\ last f.1 <> Some SLASH /\ zlen f.2 < 8 ^ 11 /\ split_name f.1 <> None.
Lemma last_slash_spec l : forall i found k, last_slash i l found = Some k -> found = Some k \/ (i <= k <= 155)%nat /\ l !! (k - i)%nat = Some SLASH.
Proof.
  induction l as [|b l IH]; intros i found k; cbn [last_slash]; [by left|]. destruct (Nat.leb_spec i 155); [|by left]. intros Hk. apply IH in Hk as [Hk|[Hk Hl]].
  - destruct (bool_decide (b = SLASH)) eqn:Eb; [|by left]. apply bool_decide_eq_true in Eb as ->. injection Hk as <-. right. split; [lia|]. by rewrite Nat.sub_diag.
  - right. split; [lia|]. replace (k - i)%nat with (S (k - S i)) by lia. done.
Qed.
Lemma split_spec path name prefix : path <> [] -> Forall (fun b => b <> x00) path -> head path <> Some SLASH -> last path <> Some SLASH -> split_name path = Some (name, prefix) ->
  (length name <= 100)%nat /\ (length prefix <= 155)%nat /\ Forall (fun b => b <> x00) name /\ Forall (fun b => b <> x00) prefix /\ name <> [] /\ path = match prefix with [] => name | _ => prefix ++ [SLASH] ++ name end.
Proof.
  intros Hne Hz Hh Hla. unfold split_name. destruct (Nat.leb_spec (length path) 100); [intros [= <- <-]; split_and!; try done; cbn; lia|].
  destruct (last_slash 0 path None) as [k|] eqn:Ek; [|done]. destruct (Nat.leb_spec (length path - k - 1) 100); [|done]. intros [= <- <-]. apply last_slash_spec in Ek as [|[Hk Hl]]; [done|]. rewrite Nat.sub_0_r in Hl. pose proof (lookup_lt_Some _ _ _ Hl).
  assert (path = take k path ++ SLASH :: drop (S k) path) as Ep by by rewrite take_drop_middle.
  assert (take k path <> []) as Hp. { destruct k; [destruct path; [done|]; cbn in Hl; injection Hl as ->; done|]. by destruct path. }
  split_and!; [rewrite length_drop; lia | rewrite length_take; lia | by apply Forall_drop | by apply Forall_take | | destruct (take k path); done].
  intros E. rewrite E in Ep. rewrite Ep, last_snoc in Hla. done.
Qed.
Lemma member_length mtime path body m : path <> [] -> Forall (fun b => b <> x00) path -> head path <> Some SLASH -> last path <> Some SLASH -> member mtime path body = Some m -> zlen m = 512 + (zlen body + 511) / 512 * 512.
Proof.
  intros H1 H2 H3 H4. unfold member. destruct (split_name path) as [[name prefix]|] eqn:E; [|done]. destruct (split_spec _ _ _ H1 H2 H3 H4 E) as (L1 & L2 & _). intros [= <-]. rewrite !zlen_app. unfold zlen at 1. rewrite header_length by done. unfold zlen at 2. rewrite length_replicate. unfold padding.
  pose proof (zlen_nonneg body). rewrite Z2Nat.id by (apply Z.mod_pos_bound; lia). pose proof (Z.div_mod (zlen body) 512). pose proof (Z.mod_pos_bound (zlen body) 512). set (q := zlen body / 512) in *. set (r := zlen body mod 512) in *.
  destruct (Z.eq_dec r 0) as [E0|E0].
  - rewrite E0. replace ((512 - 0) mod 512) with 0 by done. replace ((zlen body + 511) / 512) with q; [lia|]. apply (Z.div_unique _ _ _ 511); lia.
  - rewrite (Z.mod_small (512 - r)) by lia. replace ((zlen body + 511) / 512) with (q + 1); [lia|]. apply (Z.div_unique _ _ _ (r - 1)); lia.
Qed.
Lemma members_cons mtime f files ms : members mtime (f :: files) = Some ms -> exists m ms', member mtime f.1 f.2 = Some m /\ members mtime files = Some ms' /\ ms = m ++ ms'.
Proof. destruct f as [path body]. cbn [members fst snd]. destruct (member mtime path body) as [m|]; [|done]. destruct (members mtime files) as [ms'|]; [|done]. intros [= <-]. by exists m, ms'. Qed.
Lemma field_app a n h t : (a + n <= length h)%nat -> field a n (h ++ t) = field a n h.
Proof. intros H. unfold field. rewrite drop_app_le by lia. by rewrite take_app_le by (rewrite length_drop; lia). Qed.
(** A member at the front of what is left to read. *)
Lemma member_read mtime f m rest : storable f -> member mtime f.1 f.2 = Some m ->
  member_name (m ++ rest) = f.1 /\ strtoull8 (field 124 12 (m ++ rest)) = zlen f.2 /\ match m ++ rest with x00%byte :: _ => false | _ => true end = true.
Proof.
  destruct f as [path body]. cbn [fst snd]. intros (H1 & H2 & H3 & H4 & H5 & _). unfold member. cbn [fst snd] in *. destruct (split_name path) as [[name prefix]|] eqn:E; [|done]. destruct (split_spec _ _ _ H1 H2 H3 H4 E) as (L1 & L2 & N1 & N2 & Nn & Ep). intros [= <-].
  pose proof (header_length mtime (zlen body) name prefix L1 L2) as Hl. rewrite <- !app_assoc. split_and!.
  - unfold member_name. rewrite !field_app by lia. rewrite header_name, header_prefix, !padded_read by done. symmetry. by destruct prefix.
  - rewrite field_app by lia. rewrite header_size by done. apply size_read. pose proof (zlen_nonneg body). lia.
  - pose proof (header_name mtime (zlen body) name prefix L1 L2) as Hn. unfold field in Hn. rewrite drop_0 in Hn. destruct (header mtime (zlen body) name prefix) as [|b h]; [done|]. destruct name as [|c name]; [done|]. cbn in Hn. injection Hn as -> _. apply Forall_cons in N1 as [N1 _]. cbn. by destruct c.
Qed.
Lemma names_members mtime files : forall ms pre fuel, Forall storable files -> members mtime files = Some ms -> zlen pre + zlen ms + 1024 < 2 ^ 64 -> (length files < fuel)%nat -> zlen pre mod 512 = 0 ->
  names_loop fuel (pre ++ ms ++ replicate 1024 x00) (zlen pre) = map fst files.
Proof.
  induction files as [|f files IH]; intros ms pre fuel Hs Hm Hz Hf Ha; (destruct fuel as [|fuel]; [cbn in Hf; lia|]); cbn [names_loop].
  - injection Hm as <-. cbn [app]. rewrite (proj2 (Z.ltb_ge _ _)) by (rewrite zlen_app; unfold zlen at 3; rewrite length_replicate; lia). unfold zlen. rewrite Nat2Z.id, drop_app_length. done.
  - apply Forall_cons in Hs as [Hs Hfs]. apply members_cons in Hm as (m & ms' & Em & Ems & ->). pose proof Hs as (H1 & H2 & H3 & H4 & H5 & _). pose proof (member_length _ _ _ _ H1 H2 H3 H4 Em) as Hl. destruct (member_read mtime f m (ms' ++ replicate 1024 x00) Hs Em) as (R1 & R2 & R3).
    pose proof (zlen_nonneg f.2). pose proof (zlen_nonneg pre). pose proof (zlen_nonneg ms'). rewrite !zlen_app in Hz. assert (0 <= (zlen f.2 + 511) / 512) by (apply Z.div_pos; lia).
    rewrite (proj2 (Z.ltb_ge _ _)) by (rewrite !zlen_app; unfold zlen at 5; rewrite length_replicate; lia). assert (drop (Z.to_nat (zlen pre)) (pre ++ (m ++ ms') ++ replicate 1024 x00) = m ++ ms' ++ replicate 1024 x00) as -> by (unfold zlen; by rewrite Nat2Z.id, drop_app_length, <- app_assoc). rewrite R1, R2.
    destruct (m ++ ms' ++ replicate 1024 x00) as [|b h] eqn:Eh; [destruct m; [|done]; rewrite zlen_nil in Hl; lia|]. cbn [map]. assert (match b with x00%byte => true | _ => false end = false) as -> by (by destruct b). f_equal.
    rewrite u64_small by lia. specialize (IH ms' (pre ++ m) fuel Hfs Ems). rewrite zlen_app, Hl, <- app_assoc in IH. rewrite <- IH; [by rewrite <- app_assoc | lia | cbn in Hf; lia|].
    rewrite Z.add_mod, Ha by lia. replace (512 + (zlen f.2 + 511) / 512 * 512) with ((1 + (zlen f.2 + 511) / 512) * 512) by lia. by rewrite Z.mod_mul.
Qed.
Lemma members_short mtime files : forall ms, Forall storable files -> members mtime files = Some ms -> (length files <= length ms)%nat.
Proof.
  induction files as [|f files IH]; intros ms Hs Hm; cbn; [lia|]. apply Forall_cons in Hs as [(H1 & H2 & H3 & H4 & _) Hfs]. apply members_cons in Hm as (m & ms' & Em & Ems & ->). specialize (IH ms' Hfs Ems). pose proof (member_length _ _ _ _ H1 H2 H3 H4 Em) as Hl.
  assert (0 <= (zlen f.2 + 511) / 512) by (apply Z.div_pos; [pose proof (zlen_nonneg f.2) |]; lia). unfold zlen in Hl at 1. rewrite length_app. lia.
Qed.
Lemma members_some mtime files : Forall storable files -> exists ms, members mtime files = Some ms.
Proof.
  induction 1 as [|[path body] files (_ & _ & _ & _ & _ & Hs) Hfs [ms Hms]]; [by exists []|]. cbn [members]. unfold member. cbn [fst] in Hs. destruct (split_name path) as [[n p]|]; [|done]. rewrite Hms. by eexists.
Qed.
(** What is archived is found in the archive. Files with ordinary names (no zero byte, no slash at either end, short enough
    to be split) and sizes of eleven octal digits always make an archive, and reading its member names
    gives exactly theirs, in order, whatever the bodies hold. *)
Theorem tar_names_roundtrip mtime files : Forall storable files -> exists archive, tar mtime files = Some archive /\ (zlen archive < 2 ^ 64 -> tar_names archive = map fst files).
Proof.
  intros Hs. destruct (members_some mtime files Hs) as [ms Hms]. unfold tar. rewrite Hms. eexists. split; [done|]. intros Hz. unfold tar_names. rewrite zlen_app in Hz. unfold zlen in Hz at 2. rewrite length_replicate in Hz.
  apply (names_members mtime files ms []); [done | done | cbn; unfold zlen at 1; cbn [length]; lia | | done]. pose proof (members_short mtime files ms Hs Hms). rewrite length_app. lia.
Qed.
Definition two_files : list (list byte * list byte) := [([x61; x2f; x62], [x00; x01]); (replicate 90 x61 ++ [x2f] ++ replicate 60 x62, replicate 600 x00)].
Lemma tar_names_roundtrip_witness : exists archive, tar 0 two_files = Some archive /\ length archive = 3584%nat /\ tar_names archive = map fst two_files.
Proof.
  destruct (tar_names_roundtrip 0 two_files) as (a & Ha & Hn).
  - assert (forall p, p <> [] -> bool_decide (Forall (fun b => b <> x00) p) = true -> head p <> Some SLASH -> last p <> Some SLASH -> split_name p <> None -> forall b, zlen b < 8 ^ 11 -> storable (p, b)) as H by (intros p ? ?%bool_decide_eq_true ? ? ? b ?; by split_and!).
    repeat apply Forall_cons_2; [apply H; by vm_compute | apply H; by vm_compute | apply Forall_nil_2].
  - exists a. assert (length a = 3584%nat) as L by (vm_compute in Ha; injection Ha as <-; by vm_compute). split_and!; [done | done|]. apply Hn. unfold zlen. rewrite L. done.
Defined.
