(* ===== verification/MemoryCensus.v ===== *)
(** * MemoryCensus: GET /memory and its checkpoints (introspect/memory.cpp)

    What a report reads of the process (the clock, its pages, the live objects counted by the RAII kit, the
    counts the agent adds) is the [Reading] a call is given; so is the window of GStreamer's leaks tracer,
    the objects created and removed since it was last read, when that tracer is loaded. The ledger is
    one for the process, and is kept here with the census that uses it.

    Then: a checkpoint can be read back until sixteen newer ones exist, with the differences of every
    number both reports have; and reading consumes nothing: what counts as leaked does not depend on
    how often the tracer was read. *)

From Stdlib Require Import ZArith Lia String.
From stdpp Require Import base list strings pretty.
From S2P Require Import Prelude Monad StdMap Json.

Definition get_i64 (j : json) : Z := match j with JInt z | JUint z => s64 z | _ => 0 end.
Fixpoint diff_numbers (before after : json) : json :=
  match after, before with
  | JObj m, JObj _ =>
    JObj ((fix go (l : list (string * json)) (out : list (string * json)) : list (string * json) :=
             match l with
             | [] => out
             | (k, v) :: l' =>
               go l' (if contains before k then let d := diff_numbers (at_key before k) v in if is_null d then out else sm_set k d out else out)
             end) m [])
  | _, _ => if is_number_integer after && is_number_integer before then JInt (s64 (get_i64 after - get_i64 before)) else JNull
  end.

(** ** The tracer's ledger *)
(** [std::multiset<std::string>]: in order, with repetitions. *)
Fixpoint ms_insert (o : string) (l : list string) : list string :=
  match l with [] => [o] | x :: l' => match kcmp o x with Lt => o :: l | _ => x :: ms_insert o l' end end.
Fixpoint ms_erase (o : string) (l : list string) : list string :=
  match l with [] => [] | x :: l' => if String.eqb o x then l' else x :: ms_erase o l' end.
Definition ms_find (o : string) (l : list string) : bool := existsb (String.eqb o) l.
Record Window := { w_created : list string; w_removed : list string }.
Record TracerLedger := { started : bool; alive : list string; at_checkpoint : list (string * list string); order : list string }.
Definition ledger_sync (w : Window) (l : TracerLedger) : TracerLedger :=
  let a := foldl (fun a o => ms_insert o a) (alive l) (w_created w) in
  {| l with started := true; alive := foldl (fun a o => if ms_find o a then ms_erase o a else a) a (w_removed w) |}.
(** Alive now and not then. *)
Fixpoint created_since (now_ before : list string) : list string :=
  match now_ with [] => [] | o :: l => if ms_find o before then created_since l (ms_erase o before) else o :: created_since l before end.

(** ** The census *)
Definition census_fields : list string := ["elements"; "pads"; "samples"; "buffers"; "promises"; "sources"; "signals"; "probes"; "sessions"; "pipelines"].
Record Reading := { rd_ts : Z; rd_rss : Z; rd_counts : string -> Z; rd_tracer : option Window; rd_extra : option (result json) }.
Record Memory := { next_token : Z; checkpoints : list (string * json); ledger : TracerLedger }.
Definition new_memory : Memory := {| next_token := 1; checkpoints := []; ledger := {| started := false; alive := []; at_checkpoint := []; order := [] |} |}.
Definition KEPT : Z := 16.
Fixpoint set_all (l : list (string * json)) (j : json) : json := match l with [] => j | (k, v) :: l' => set_all l' (jset k v j) end.
(** Each member of [e] over those of [j]; an iterator over anything but an object has no key. *)
Definition add_members (e j : json) : result json :=
  match e with JObj m => Ok (set_all m j) | JNull | JArr [] => Ok j | _ => Throw (StdException "[json.exception.invalid_iterator.207]") end.
Definition mem_now (rd : Reading) : result json :=
  let j := jobj [("ts", JInt (rd_ts rd)); ("rss_bytes", JUint (rd_rss rd)); ("census", jobj (map (fun k => (k, JInt (rd_counts rd k))) census_fields));
                 ("leaks_tracer", JBool (match rd_tracer rd with Some _ => true | None => false end))] in
  match rd_extra rd with None => Ok j | Some r => let* e := r in add_members e j end.
(** [pop_front] while longer than [n]. *)
Definition bounded {A} (n : Z) (l : list A) : list A := drop (Z.to_nat (zlen l - n)) l.

#[local] Abbreviation T := (Prog Memory).
Definition in_ledger (f : TracerLedger -> TracerLedger) : T unit := modify (fun s => {| s with ledger := f (ledger s) |}).
Definition mark (token : string) (l : TracerLedger) : TracerLedger :=
  let order' := order l ++ [token] in
  {| l with at_checkpoint := foldl (fun m t => sm_erase t m) (sm_set token (alive l) (at_checkpoint l)) (take (Z.to_nat (zlen order' - KEPT)) order'); order := bounded KEPT order' |}.
Definition mem_checkpoint (rd : Reading) : T json :=
  do report <- lift (mem_now rd);
  do s <- get;
  let token := "cp-" +:+ pretty (next_token s) in
  modify (fun s => {| s with next_token := u32 (next_token s + 1) |}) ;;
  let report := jset "checkpoint" (JStr token) report in
  match rd_tracer rd with
  | Some w => in_ledger (ledger_sync w) ;; in_ledger (mark token)
  | None => ret tt
  end ;;
  modify (fun s => {| s with checkpoints := bounded KEPT (checkpoints s ++ [(token, report)]) |}) ;;
  do _ <- lift (value_u64 report "rss_bytes" 0);   (* for the log line *)
  ret report.
Definition kept_report (token : string) (l : list (string * json)) : option json :=
  foldl (fun o tr => if String.eqb tr.1 token then Some tr.2 else o) None l.
Definition mem_since (token : string) (rd : Reading) : T json :=
  do s <- get;
  match kept_report token (checkpoints s) with
  | None => ret (jobj [("error", JStr "unknown checkpoint"); ("since", JStr token)])
  | Some before =>
    do current <- lift (mem_now rd);
    let out := jobj [("since", JStr token); ("then", before); ("now", current); ("diff", diff_numbers before current)] in
    match rd_tracer rd with
    | None => ret out
    | Some w =>
      in_ledger (ledger_sync w) ;;
      do s <- get;
      let l := ledger s in
      let at_ := sm_find token (at_checkpoint l) in
      let created := match at_ with Some before => created_since (alive l) before | None => [] end in
      ret (jset "leaks" (jobj [("created", JArr (map JStr created)); ("alive", JUint (zlen (alive l)));
                               ("at_checkpoint", match at_ with Some b => JUint (zlen b) | None => JUint 0 end)]) out)
    end
  end.
Inductive MemIn := MNow (rd : Reading) | MCheckpoint (rd : Reading) | MSince (token : string) (rd : Reading).
Definition mem_step (i : MemIn) (s : Memory) : Memory :=
  match i with MNow _ => s | MCheckpoint rd => (mem_checkpoint rd s).1 | MSince token rd => (mem_since token rd s).1 end.
Definition mem_run (ins : list MemIn) (s : Memory) : Memory := foldl (fun s i => mem_step i s) s ins.

(** ** The differences *)
Definition diff_members (before : json) : list (string * json) -> list (string * json) -> list (string * json) :=
  fix go l out := match l with
                  | [] => out
                  | (k, v) :: l' => go l' (if contains before k then let d := diff_numbers (at_key before k) v in if is_null d then out else sm_set k d out else out)
                  end.
Lemma diff_object m m0 : diff_numbers (JObj m0) (JObj m) = JObj (diff_members (JObj m0) m []).
Proof. done. Qed.
Lemma diff_members_find before k l : forall out, sm_wf l -> sm_find k (diff_members before l out) =
  match sm_find k l, jfind k before with
  | Some v, Some v0 => if is_null (diff_numbers v0 v) then sm_find k out else Some (diff_numbers v0 v)
  | _, _ => sm_find k out
  end.
Proof.
  induction l as [|[k0 v] l IH]; intros out Hl; [done|]. apply sm_wf_cons in Hl as [Hl Hn]. cbn [diff_members]. fold (diff_members before). rewrite IH by done. cbn [sm_find].
  destruct (keqb_spec k k0) as [->|Hk].
  - rewrite Hn. unfold contains, at_key. destruct (jfind k0 before) as [v0|]; [|done]. cbv zeta. destruct (is_null _); [done | by rewrite sm_find_set_eq].
  - assert (forall d, sm_find k (if contains before k0 then if is_null d then out else sm_set k0 d out else out) = sm_find k out) as E; [|cbv zeta; by rewrite E].
    intros d. destruct (contains before k0); [|done]. destruct (is_null d); [done | by rewrite sm_find_set_ne].
Qed.
(** Every member of both, and no other. *)
Lemma diff_find m0 m k : sm_wf m -> jfind k (diff_numbers (JObj m0) (JObj m)) =
  match sm_find k m, sm_find k m0 with Some v, Some v0 => if is_null (diff_numbers v0 v) then None else Some (diff_numbers v0 v) | _, _ => None end.
Proof. intros Hm. rewrite diff_object. cbn [jfind]. by rewrite diff_members_find. Qed.

(** ** The ledger counts *)
Definition count (o : string) (l : list string) : Z := zlen (List.filter (String.eqb o) l).
Lemma count_cons o x l : count o (x :: l) = (if String.eqb o x then 1 else 0) + count o l.
Proof. unfold count. cbn [List.filter]. destruct (String.eqb o x); [rewrite zlen_cons|]; lia. Qed.
Lemma count_nil o : count o [] = 0.
Proof. done. Qed.
Lemma count_nonneg o l : 0 <= count o l.
Proof. apply zlen_nonneg. Qed.
Lemma count_insert o x l : count o (ms_insert x l) = (if String.eqb o x then 1 else 0) + count o l.
Proof. induction l as [|y l IH]; cbn [ms_insert]; [apply count_cons|]. destruct (kcmp x y); rewrite !count_cons; try rewrite IH; rewrite ?count_cons; lia. Qed.
Lemma ms_find_count o l : ms_find o l = (0 <? count o l).
Proof.
  induction l as [|y l IH]; [done|]. unfold ms_find in *. cbn [existsb]. rewrite count_cons, IH. pose proof (count_nonneg o l). destruct (String.eqb o y); cbn [orb]; case_bools; done.
Qed.
Lemma count_erase o x l : count o (ms_erase x l) = if String.eqb o x then Z.max 0 (count o l - 1) else count o l.
Proof.
  induction l as [|y l IH]; cbn [ms_erase]; [by destruct (String.eqb o x)|]. rewrite count_cons. pose proof (count_nonneg o l). destruct (String.eqb_spec x y) as [<-|Hxy].
  - destruct (String.eqb o x); lia.
  - rewrite count_cons, IH. destruct (String.eqb_spec o x) as [->|]; [|lia]. apply String.eqb_neq in Hxy. rewrite Hxy. lia.
Qed.
Lemma insert_all o l a : count o (foldl (fun a x => ms_insert x a) a l) = count o a + count o l.
Proof. revert a. induction l as [|x l IH]; intros a; cbn [foldl]; [rewrite count_nil; lia|]. rewrite IH, count_insert, count_cons. lia. Qed.
Lemma erase_all o l a : count o (foldl (fun a x => if ms_find x a then ms_erase x a else a) a l) = Z.max 0 (count o a - count o l).
Proof.
  revert a. induction l as [|x l IH]; intros a; cbn [foldl]; [pose proof (count_nonneg o a); rewrite count_nil; lia|]. rewrite IH, count_cons. pose proof (count_nonneg o l). pose proof (count_nonneg o a).
  rewrite ms_find_count. destruct (Z.ltb_spec 0 (count x a)); [rewrite count_erase|]; destruct (String.eqb_spec o x) as [->|]; lia.
Qed.
Lemma created_count o l : forall before, count o (created_since l before) = Z.max 0 (count o l - count o before).
Proof.
  induction l as [|x l IH]; intros before; cbn [created_since]; [pose proof (count_nonneg o before); rewrite count_nil; lia|]. rewrite ms_find_count. pose proof (count_nonneg o before). pose proof (count_nonneg o l).
  destruct (Z.ltb_spec 0 (count x before)); rewrite ?count_cons, IH, ?count_erase; destruct (String.eqb_spec o x) as [->|]; lia.
Qed.
Definition sync_all (ws : list Window) (l : TracerLedger) : TracerLedger := foldl (fun l w => ledger_sync w l) l ws.
Definition total (f : Window -> list string) (o : string) (ws : list Window) : Z := foldr (fun w n => count o (f w) + n) 0 ws.
Lemma window_total_cons f o w ws : total f o (w :: ws) = count o (f w) + total f o ws.
Proof. done. Qed.
(** No object is removed that was not seen: at every read, the removals so far are at most what was there and created. *)
Definition seen (l : TracerLedger) (ws : list Window) : Prop :=
  forall o n, total w_removed o (take n ws) <= count o (alive l) + total w_created o (take n ws).
Lemma sync_count o w l : count o (alive (ledger_sync w l)) = Z.max 0 (count o (alive l) + count o (w_created w) - count o (w_removed w)).
Proof. unfold ledger_sync. cbn. by rewrite erase_all, insert_all. Qed.
Lemma sync_all_count o ws : forall l, seen l ws -> count o (alive (sync_all ws l)) = count o (alive l) + total w_created o ws - total w_removed o ws.
Proof.
  induction ws as [|w ws IH]; intros l Hs; [unfold sync_all, total; cbn [foldl foldr]; lia|]. rewrite !window_total_cons. assert (forall x, count x (alive (ledger_sync w l)) = count x (alive l) + count x (w_created w) - count x (w_removed w)) as E.
  { intros x. rewrite sync_count. pose proof (Hs x 1%nat) as H1. unfold total in H1. cbn [take foldr] in H1. rewrite take_0 in H1. cbn [foldr] in H1. lia. }
  change (sync_all (w :: ws) l) with (sync_all ws (ledger_sync w l)). rewrite IH; [rewrite E; lia|]. intros x n. rewrite E. specialize (Hs x (S n)). unfold total in *. cbn [take foldr] in Hs. lia.
Qed.
(** What is reported as leaked since a checkpoint is what was created and not removed since, object by
    object, however often the tracer was read in between. *)
Theorem leaks_are_growth o ws l : seen l ws ->
  count o (created_since (alive (sync_all ws l)) (alive l)) = Z.max 0 (total w_created o ws - total w_removed o ws).
Proof. intros Hs. rewrite created_count, sync_all_count by done. lia. Qed.

(** ** Checkpoints *)
Definition token_of (n : Z) : string := "cp-" +:+ pretty n.
Lemma token_of_inj a b : token_of a = token_of b -> a = b.
Proof. intros H. apply (inj (String.append "cp-")) in H. by apply (inj pretty) in H. Qed.
(** The kept checkpoints carry the last tokens, in order. *)
Record mem_ok (n : Z) (s : Memory) : Prop := {
  mo_next : 1 <= next_token s <= n + 1;
  mo_len : zlen (checkpoints s) <= KEPT;
  mo_tokens i tr : checkpoints s !! i = Some tr -> tr.1 = token_of (next_token s - zlen (checkpoints s) + Z.of_nat i)
}.
Lemma bounded_length {A} n (l : list A) : 0 <= n -> zlen (bounded n l) = Z.min n (zlen l).
Proof. intros. unfold bounded. rewrite zlen_drop. pose proof (zlen_nonneg l). lia. Qed.
Lemma bounded_lookup {A} n (l : list A) i : bounded n l !! i = l !! (Z.to_nat (zlen l - n) + i)%nat.
Proof. unfold bounded. by rewrite lookup_drop. Qed.
(** What a checkpoint does to what is kept. *)
Lemma checkpoint_spec rd s : let s1 := (mem_checkpoint rd s).1 in
  match mem_now rd with
  | Throw _ => s1 = s
  | Ok j => let rep := jset "checkpoint" (JStr (token_of (next_token s))) j in
            next_token s1 = u32 (next_token s + 1) /\ checkpoints s1 = bounded KEPT (checkpoints s ++ [(token_of (next_token s), rep)]) /\
            (forall out, (mem_checkpoint rd s).2 = Ok out -> out = rep)
  end.
Proof.
  cbv zeta. unfold mem_checkpoint, bind, lift. destruct (mem_now rd) as [j|e]; [|done]. cbn [get modify]. unfold token_of. set (rep := jset _ _ j).
  destruct (rd_tracer rd) as [w|]; cbn [in_ledger modify ret next_token checkpoints]; destruct (value_u64 rep "rss_bytes" 0); cbn [fst snd ret next_token checkpoints]; split_and!; try done; by intros out [= <-].
Qed.
Lemma since_keeps token rd s : let s1 := (mem_since token rd s).1 in next_token s1 = next_token s /\ checkpoints s1 = checkpoints s.
Proof.
  unfold mem_since, bind. cbn [get]. destruct (kept_report token _) as [b|]; [|done]. unfold lift. destruct (mem_now rd); [|done]. by destruct (rd_tracer rd).
Qed.
Lemma push_ok n s s1 rep : n + 2 < 2 ^ 32 -> mem_ok n s -> next_token s1 = u32 (next_token s + 1) -> checkpoints s1 = bounded KEPT (checkpoints s ++ [(token_of (next_token s), rep)]) -> mem_ok (n + 1) s1.
Proof.
  intros Hn [H1 H2 H3] E1 E2. rewrite u32_small in E1 by lia. split; rewrite ?E1, ?E2; [lia | rewrite bounded_length by done; lia|].
  intros i tr Hi. rewrite bounded_lookup in Hi. rewrite bounded_length, zlen_snoc in * by done. unfold KEPT in *. apply lookup_app_Some in Hi as [Hi|[Hl Hi]].
  - rewrite (H3 _ _ Hi). f_equal. lia.
  - apply list_lookup_singleton_Some in Hi as [Hi <-]. cbn. f_equal. unfold zlen in *. lia.
Qed.
Lemma step_ok n i s : n + 2 < 2 ^ 32 -> mem_ok n s -> mem_ok (n + 1) (mem_step i s).
Proof.
  intros Hn Hs. assert (forall s1, next_token s1 = next_token s -> checkpoints s1 = checkpoints s -> mem_ok (n + 1) s1) as Hk.
  { intros s1 E1 E2. destruct Hs as [H1 H2 H3]. split; rewrite ?E1, ?E2; [lia | done..]. }
  destruct i as [rd|rd|token rd]; cbn [mem_step]; [by apply Hk | | apply Hk; apply since_keeps].
  pose proof (checkpoint_spec rd s) as H. cbv zeta in H. destruct (mem_now rd) as [j|e]; [|rewrite H; by apply Hk]. destruct H as (E1 & E2 & _). by eapply push_ok.
Qed.
Lemma mem_run_ok ins : forall n s, n + 1 + zlen ins < 2 ^ 32 -> mem_ok n s -> mem_ok (n + zlen ins) (mem_run ins s).
Proof.
  induction ins as [|i ins IH]; intros n s Hn Hs; [by rewrite zlen_nil, Z.add_0_r|]. rewrite zlen_cons in *. pose proof (zlen_nonneg ins). unfold mem_run. cbn [foldl]. replace (n + (1 + zlen ins)) with (n + 1 + zlen ins) by lia. apply IH; [lia|]. apply step_ok; [lia | done].
Qed.
Lemma new_memory_ok : mem_ok 0 new_memory.
Proof. by split. Qed.

(** A report is found by its token. *)
Lemma kept_report_none token l : (forall tr, In tr l -> tr.1 <> token) -> forall o, foldl (fun o tr => if String.eqb tr.1 token then Some tr.2 else o) o l = o :> option json.
Proof.
  induction l as [|tr l IH]; intros Hl o; [done|]. cbn [foldl]. destruct (String.eqb_spec tr.1 token) as [E|]; [by destruct (Hl tr (or_introl eq_refl))|]. apply IH. intros x Hx. apply Hl. by right.
Qed.
Lemma kept_report_at n s i token rep : mem_ok n s -> checkpoints s !! i = Some (token, rep) -> kept_report token (checkpoints s) = Some rep.
Proof.
  intros [_ _ Ht] Hi. pose proof (Ht _ _ Hi) as Et. cbn in Et. assert (forall j tr, checkpoints s !! j = Some tr -> tr.1 = token -> j = i) as Hu.
  { intros j tr Hj <-. rewrite (Ht _ _ Hj) in Et. apply token_of_inj in Et. lia. }
  clear Ht Et. destruct (list_elem_of_split_length _ _ _ Hi) as (l1 & l2 & E & ->). rewrite E in *. unfold kept_report. rewrite foldl_app. cbn [foldl fst snd]. rewrite String.eqb_refl.
  apply kept_report_none. intros tr Htr <-. apply list_elem_of_In, list_elem_of_lookup in Htr as [k Hk]. assert (length l1 + S k = length l1)%nat; [|lia]. apply (Hu _ tr); [|done]. rewrite lookup_app_r by lia. by replace (length l1 + S k - length l1)%nat with (S k) by lia.
Qed.
(** It stays for the next [k] checkpoints. *)
Definition kept_for (k : Z) (token : string) (rep : json) (s : Memory) : Prop := exists i, checkpoints s !! i = Some (token, rep) /\ zlen (checkpoints s) + k <= Z.of_nat i + KEPT.
Definition checkpoints_of (ins : list MemIn) : Z := zlen (List.filter (fun i => match i with MCheckpoint _ => true | _ => false end) ins).
Lemma kept_step k token rep i s : kept_for k token rep s -> (k <= 0 -> checkpoints_of [i] = 0) -> kept_for (k - checkpoints_of [i]) token rep (mem_step i s).
Proof.
  intros (p & Hp & Hk) Hi. assert (forall s1, checkpoints s1 = checkpoints s -> kept_for k token rep s1) as Hsame by (intros s1 E; exists p; by rewrite E).
  destruct i as [rd|rd|t rd]; cbn [mem_step]; unfold checkpoints_of in *; cbn [List.filter] in *; rewrite ?zlen_cons, zlen_nil in *; rewrite ?Z.sub_0_r; [by apply Hsame | | apply Hsame, since_keeps].
  pose proof (checkpoint_spec rd s) as H. cbv zeta in H. destruct (mem_now rd) as [j|e]; [|rewrite H; exists p; split; [done | lia]]. destruct H as (_ & E & _). assert (0 < k) by lia. pose proof (lookup_lt_Some _ _ _ Hp) as Hlt.
  exists (p - Z.to_nat (zlen (checkpoints s) + 1 - KEPT))%nat. rewrite E, bounded_lookup, bounded_length, zlen_snoc by done. unfold KEPT, zlen in *. split; [|lia].
  rewrite lookup_app_l by lia. rewrite <- Hp. f_equal. lia.
Qed.
Lemma kept_run ins : forall k token rep s, kept_for k token rep s -> checkpoints_of ins <= k -> kept_for (k - checkpoints_of ins) token rep (mem_run ins s).
Proof.
  induction ins as [|i ins IH]; intros k token rep s Hs Hk; [by rewrite Z.sub_0_r|].
  assert (checkpoints_of (i :: ins) = checkpoints_of [i] + checkpoints_of ins) as E by (unfold checkpoints_of; cbn [List.filter]; destruct i; rewrite ?zlen_cons, ?zlen_nil; lia).
  rewrite E in *. pose proof (zlen_nonneg (List.filter (fun i => match i with MCheckpoint _ => true | _ => false end) ins)) as Hz. fold (checkpoints_of ins) in Hz.
  replace (k - (checkpoints_of [i] + checkpoints_of ins)) with (k - checkpoints_of [i] - checkpoints_of ins) by lia. unfold mem_run. cbn [foldl]. apply IH; [|lia]. apply kept_step; [done|]. intros. pose proof (zlen_nonneg (List.filter (fun i => match i with MCheckpoint _ => true | _ => false end) [i])) as H0. fold (checkpoints_of [i]) in H0. lia.
Qed.
(** A checkpoint can be read back: whatever is asked in between, as long as at most fifteen further
    checkpoints are taken, GET /memory?since=<token> answers with the report that was taken under that token,
    with the present one, and with the difference of every number they share; and it leaves the kept
    checkpoints as they are. *)
Theorem checkpoint_read_back before rd rep more rd' cur :
  let s := mem_run before new_memory in let s1 := (mem_checkpoint rd s).1 in let s2 := mem_run more s1 in let out := mem_since (token_of (next_token s)) rd' s2 in
  zlen before + zlen more < 2 ^ 32 - 3 -> checkpoints_of more <= 15 -> (mem_checkpoint rd s).2 = Ok rep -> mem_now rd' = Ok cur ->
  exists j, out.2 = Ok j /\ jfind "then" j = Some rep /\ jfind "now" j = Some cur /\ jfind "diff" j = Some (diff_numbers rep cur) /\ checkpoints out.1 = checkpoints s2.
Proof.
  intros s s1 s2 out Hz Hm Hrep Hcur. pose proof (zlen_nonneg before). pose proof (zlen_nonneg more). pose proof (mem_run_ok before 0 new_memory ltac:(lia) new_memory_ok) as Hs. fold s in Hs.
  assert (mem_ok (zlen before + 1) s1) as Hs1 by (apply (step_ok (zlen before) (MCheckpoint rd)); [lia | done]).
  assert (mem_ok (zlen before + 1 + zlen more) s2) as Hs2 by (apply mem_run_ok; [lia | done]).
  pose proof (checkpoint_spec rd s) as Hc. cbv zeta in Hc. destruct (mem_now rd) as [j0|e] eqn:E0.
  2: { exfalso. unfold mem_checkpoint, bind, lift in Hrep. by rewrite E0 in Hrep. }
  destruct Hc as (_ & E2 & E3). specialize (E3 _ Hrep). rewrite <- E3 in E2. fold s1 in E2.
  assert (kept_for 15 (token_of (next_token s)) rep s1) as Hk.
  { exists (Nat.pred (length (checkpoints s1))). destruct Hs as [_ Hl _]. rewrite E2. pose proof (bounded_length KEPT (checkpoints s ++ [(token_of (next_token s), rep)]) ltac:(done)) as El. rewrite zlen_snoc in El. pose proof (zlen_nonneg (checkpoints s)). split; [|unfold KEPT, zlen in *; lia].
    rewrite bounded_lookup, zlen_snoc. unfold KEPT, zlen in *. rewrite lookup_app_r by lia. by replace (_ - _)%nat with 0%nat by lia. }
  apply (kept_run more) in Hk as (p & Hp & _); [|done]. fold s2 in Hp. pose proof (kept_report_at _ _ _ _ _ Hs2 Hp) as Ek. pose proof (since_keeps (token_of (next_token s)) rd' s2) as [_ Hkeep]. fold out in Hkeep.
  unfold out, mem_since, bind in *. cbn [get] in *. rewrite Ek in *. unfold lift in *. rewrite Hcur in *. destruct (rd_tracer rd') as [w|]; (eexists; split; [reflexivity|]); split_and!; done.
Qed.
Definition quiet : Reading := {| rd_ts := 1; rd_rss := 4096; rd_counts := fun _ => 2; rd_tracer := Some {| w_created := ["GstPad@0x1"]; w_removed := [] |}; rd_extra := None |}.
Definition grown : Reading := {| rd_ts := 9; rd_rss := 8192; rd_counts := fun _ => 3; rd_tracer := Some {| w_created := ["GstPad@0x2"; "GstPad@0x1"]; w_removed := ["GstPad@0x1"] |}; rd_extra := Some (Ok (jobj [("hub_buffers", JInt 3)])) |}.
Lemma checkpoint_read_back_witness : exists rep cur j, (mem_checkpoint quiet (mem_run [] new_memory)).2 = Ok rep /\
  (mem_since "cp-1" grown (mem_run [MSince "cp-1" quiet; MCheckpoint quiet] (mem_checkpoint quiet (mem_run [] new_memory)).1)).2 = Ok j /\ jfind "then" j = Some rep /\ jfind "diff" j = Some (diff_numbers rep cur) /\
  jfind "rss_bytes" (diff_numbers rep cur) = Some (JInt 4096).
Proof.
  assert ((mem_checkpoint quiet (mem_run [] new_memory)).2 = Ok (jset "checkpoint" (JStr "cp-1") (match mem_now quiet with Ok j => j | Throw _ => JNull end))) as H1 by (vm_compute; reflexivity).
  assert (mem_now grown = Ok (match mem_now grown with Ok j => j | Throw _ => JNull end)) as H2 by (vm_compute; reflexivity).
  destruct (checkpoint_read_back [] quiet _ [MSince "cp-1" quiet; MCheckpoint quiet] grown _ ltac:(vm_compute; reflexivity) ltac:(vm_compute; discriminate) H1 H2) as (j & E1 & E2 & _ & E3 & _).
  eexists _, _, j. split; [exact H1|]. split; [exact E1|]. split; [exact E2|]. split; [exact E3|]. vm_compute. reflexivity.
Defined.
Example one_leak : exists l, (mem_since "cp-1" grown (mem_checkpoint quiet new_memory).1).2 = Ok l /\ (jfind "leaks" l ≫= jfind "created") = Some (JArr [JStr "GstPad@0x2"]).
Proof. eexists. split; vm_compute; reflexivity. Qed.
