(* ===== verification/IntrospectServer.v ===== *)
(** * IntrospectServer: the local introspection endpoint (introspect/server.cpp)

    Requests of the HTTP server against the flight recorder and the memory census, and the /events
    streams. libsoup is the environment: a request comes with its message, and what is told to the message is
    kept in order. What the providers, the log ring and the file system answer is the [World] of a
    request; text with indentation, gzip and [std::sort] are parameters. A request has a message of its
    own, so a client is known by its message. *)

From Stdlib Require Import ZArith Lia Ascii String Strings.Byte Sorted Permutation.
From stdpp Require Import base list strings pretty.
From S2P Require Import Prelude Monad StdMap Json Tar Config SnapshotStore MemoryCensus.

Definition SSE_MAX_PENDING : Z := 1024 * 1024.
Definition LF : string := String "010" EmptyString.
Definition escape_newlines (s : string) : string :=
  of_chars (flat_map (fun c => if chr c =? 10 then ["\"%char; "n"%char] else if chr c =? 13 then [] else [c]) (chars s)).
Class Endpoint := {
  dump2 : json -> result string;              (* [dump(2)] *)
  gzip : list byte -> result string;
  sort_ts : list Snapshot -> list Snapshot    (* [std::sort] by time *)
}.
Class EndpointLaws `{Endpoint} := {
  sort_ts_perm l : sort_ts l ≡ₚ l;
  sort_ts_sorted l : StronglySorted (fun a b => ts (meta a) <= ts (meta b)) (sort_ts l)
}.

Record SseClient := { c_msg : Z; c_body : string; c_pending : Z; c_closing : bool }.
Inductive HttpEvent :=
| HReply (msg status : Z) (content_type body : string)
| HHeader (msg : Z) (name value : string)
| HAppend (msg : Z) (frame : string)        (* onto a chunked response *)
| HShut (msg : Z)                           (* its socket is closed *)
| HComplete (msg : Z)
| HOpened (msg : Z) (body first : string)   (* the marks below are the model's: a stream opened, *)
| HFrame (s : Snapshot)                     (* a snapshot broadcast, *)
| HTick.                                    (* a keep-alive *)
Record Server := { config : IntrospectSection; store : Store; memory : option Memory; clients : list SseClient; keepalive : bool; listener_ : Z; http : list HttpEvent }.
Record Request := { r_msg : Z; r_path : option string; r_method : string; r_query : option (list (string * string)); r_authorization : option string; r_last_event_id : option string }.
Record World := {
  w_sources : option (result json); w_stats : option (result json); w_bundle_extra : option (result json);
  w_snapshot_now : option (string -> list SnIn);
  w_reading : Reading; w_recent : Z -> list string; w_time : Z;
  w_canonical : string -> option string; w_regular : string -> bool; w_contents : string -> string
}.

Definition meta_json (m : SnapshotMeta) : json :=
  jobj [("pipeline_id", JStr (pipeline_id m)); ("kind", JStr (kind m)); ("session_id", JStr (session_id m)); ("seq", JUint (seq m));
        ("trigger", JStr (trigger m)); ("state", JStr (state m)); ("ts", JInt (ts m)); ("generation", JUint (generation m))].
Definition event_id (m : SnapshotMeta) : string := pipeline_id m +:+ "@" +:+ pretty (seq m).
(** [atoi]; the cast to [unsigned] is the caller's. *)
Definition atoi (l : list ascii) : Z := s32 (strtol l).1.
(** [rfind(c)]: what is before and after the last one. *)
Fixpoint rsplit (c : ascii) (l : list ascii) : option (list ascii * list ascii) :=
  match l with
  | [] => None
  | x :: l' => match rsplit c l' with Some (a, b) => Some (x :: a, b) | None => if Ascii.eqb x c then Some ([], l') else None end
  end.
Definition parse_event_id (id : string) : option (string * Z) := match rsplit "@" (chars id) with Some (a, b) => Some (of_chars a, u32 (atoi b)) | None => None end.

Section Server.
Context `{W : Walker} `{JT : JsonText} `{EP : Endpoint}.
#[local] Abbreviation T := (Prog Server).
Definition h_put (e : HttpEvent) : T unit := modify (fun s => {| s with http := http s ++ [e] |}).
Definition respond (msg status : Z) (content_type body : string) : T unit := h_put (HReply msg status content_type body).
Definition q (query : option (list (string * string))) (key : string) : option string := l ← query; sm_find key l.

(** ** Frames *)
Definition sse_frame (snap : Snapshot) (body : string) : result string :=
  let m := meta snap in
  let* d := json_dump (meta_json m) in
  Ok ("id: " +:+ event_id m +:+ LF +:+ "event: snapshot" +:+ LF +:+ "data: " +:+ d +:+
      (if String.eqb body "json" then LF +:+ "data: " +:+ json_text snap
       else if String.eqb body "dot" then LF +:+ "data: " +:+ escape_newlines (dot snap)
       else if String.eqb body "txt" then LF +:+ "data: " +:+ escape_newlines (txt snap)
       else "") +:+ LF +:+ LF).
Definition find_client (msg : Z) (l : list SseClient) : option SseClient := List.find (fun c => c_msg c =? msg) l.
Definition set_client (c : SseClient) (l : list SseClient) : list SseClient := map (fun x => if c_msg x =? c_msg c then c else x) l.
Definition put_client (c : SseClient) : T unit := modify (fun s => {| s with clients := set_client c (clients s) |}).
Definition send_sse (msg : Z) (frame : string) : T unit :=
  do s <- get;
  match find_client msg (clients s) with
  | None => ret tt
  | Some c =>
    if c_closing c then ret tt
    else if SSE_MAX_PENDING <? c_pending c + ssize frame then put_client {| c with c_closing := true |} ;; h_put (HShut msg)
    else put_client {| c with c_pending := c_pending c + ssize frame |} ;; h_put (HAppend msg frame)
  end.
Definition broadcast (snap : Snapshot) : T unit :=
  h_put (HFrame snap) ;;
  do s <- get; for_each (clients s) (fun c => do f <- lift (sse_frame snap (c_body c)); send_sse (c_msg c) f).
Definition drop_client (msg : Z) : T unit :=
  modify (fun s => {| s with clients := List.filter (fun c => negb (c_msg c =? msg)) (clients s) |}) ;;
  do s <- get; match clients s with [] => modify (fun s => {| s with keepalive := false |}) | _ => ret tt end.
Definition wrote (msg chunk : Z) : T unit :=
  do s <- get;
  match find_client msg (clients s) with
  | None => ret tt
  | Some c => put_client {| c with c_pending := if c_pending c <=? chunk then 0 else c_pending c - chunk |}
  end.
Definition KEEP_ALIVE : string := ": keep-alive" +:+ LF +:+ LF.
Definition tick : T unit :=
  do s <- get; when (keepalive s) (h_put HTick ;; for_each (clients s) (fun c => send_sse (c_msg c) KEEP_ALIVE)).

(** What the rings still hold from after snapshot [n] of [pipeline], of every pipeline. *)
Definition missed (pipeline : string) (n : Z) (st : Store) : list Snapshot :=
  let since_ts := match s_at pipeline n st with Some r => ts (meta r) | None => -1 end in
  flat_map (fun m => flat_map (fun h =>
      if String.eqb (pipeline_id m) pipeline && (n <? seq h) || negb (String.eqb (pipeline_id m) pipeline) && (0 <=? since_ts) && (since_ts <? ts h)
      then match s_at (pipeline_id m) (seq h) st with Some x => [x] | None => [] end else []) (s_history (pipeline_id m) st)) (s_list st).
Fixpoint frames (l : list Snapshot) (body : string) : result string :=
  match l with [] => Ok "" | x :: l' => let* f := sse_frame x body in let* r := frames l' body in Ok (f +:+ r) end.
Definition RETRY : string := "retry: 1000" +:+ LF +:+ LF.
Definition first_frame (last_id : option string) (body : string) (st : Store) : result string :=
  match last_id ≫= parse_event_id with
  | None => Ok RETRY
  | Some (pipeline, n) => let* r := frames (sort_ts (missed pipeline n st)) body in Ok (RETRY +:+ r)
  end.
Definition open_events (req : Request) : T unit :=
  let msg := r_msg req in
  let body := match q (r_query req) "body" with Some b => if one_of b ["json"; "dot"; "txt"] then b else ""%string | None => ""%string end in
  h_put (HHeader msg "Content-Type" "text/event-stream") ;; h_put (HHeader msg "Cache-Control" "no-cache") ;; h_put (HHeader msg "X-Accel-Buffering" "no") ;;
  do s <- get;
  do first <- lift (first_frame (r_last_event_id req) body (store s));
  modify (fun s => {| s with clients := clients s ++ [{| c_msg := msg; c_body := body; c_pending := 0; c_closing := false |}] |}) ;;
  h_put (HOpened msg body first) ;;
  send_sse msg first ;;
  modify (fun s => {| s with keepalive := true |}).

(** ** The recorder: what it takes is broadcast as it is taken *)
Definition told (id : Z) (l : list SnEvent) : list Snapshot := omap (fun e => match e with SnTold k x => if k =? id then Some x else None | _ => None end) l.
Definition record (i : SnIn) : T unit :=
  do s <- get;
  let st := (sn_step i (store s)).1 in
  modify (fun s => {| s with store := st |}) ;;
  for_each (told (listener_ s) (drop (length (sn_log (store s))) (sn_log st))) broadcast.

(** ** Static files *)
Definition is_api (p : string) : bool :=
  one_of p ["/pipelines"; "/sources"; "/stats"; "/memory"; "/snapshot"; "/log"; "/events"; "/diagnostics.tar.gz"] || has_prefix "/pipelines/" p || has_prefix "/memory/" p.
Definition content_type_for (name : string) : string :=
  let ext := match rsplit "." (chars name) with Some (_, e) => of_chars e | None => ""%string end in
  if String.eqb ext "html" then "text/html; charset=utf-8"
  else if one_of ext ["js"; "mjs"] then "text/javascript; charset=utf-8"
  else if String.eqb ext "css" then "text/css; charset=utf-8"
  else if String.eqb ext "wasm" then "application/wasm"
  else if one_of ext ["json"; "map"] then "application/json"
  else if String.eqb ext "svg" then "image/svg+xml"
  else if String.eqb ext "png" then "image/png"
  else if String.eqb ext "ico" then "image/x-icon"
  else if String.eqb ext "woff2" then "font/woff2"
  else if String.eqb ext "txt" then "text/plain; charset=utf-8"
  else "application/octet-stream".
Definition is_alpha (c : ascii) : bool := (65 <=? chr c) && (chr c <=? 90) || (97 <=? chr c) && (chr c <=? 122).
Definition is_alnum (c : ascii) : bool := is_alpha c || is_digit c.
Definition is_word (c : ascii) : bool := is_alnum c || (chr c =? 95) || (chr c =? 45).
(** [^assets/.*-[A-Za-z0-9_-]{8,}\.[A-Za-z0-9]+$]: the extension has no dot, so it starts after the last. *)
Definition hashed (rel : string) : bool :=
  match rsplit "." (chars rel) with
  | None => false
  | Some (stem, ext) =>
    starts_with (chars "assets/") stem && negb (bool_decide (ext = [])) && forallb is_alnum ext &&
    let r := drop 7 stem in
    existsb (fun i => match r !! i with
                      | Some c => (chr c =? 45) && forallb (fun c => negb (chr c =? 10) && negb (chr c =? 13)) (take i r) && Nat.leb 8 (length (drop (S i) r)) && forallb is_word (drop (S i) r)
                      | None => false
                      end) (List.seq 0 (length r))
  end.
Fixpoint contains_text (p l : list ascii) : bool := starts_with p l || match l with [] => false | _ :: l' => contains_text p l' end.
(** [root / rel]: an absolute [rel] replaces the root. *)
Definition path_join (root rel : string) : string :=
  if has_prefix "/" rel then rel else match last (chars root) with None => rel | Some c => if Ascii.eqb c "/" then root +:+ rel else root +:+ "/" +:+ rel end.
Definition JSON : string := "application/json".
Definition TEXT : string := "text/plain; charset=utf-8".
Definition QUOTE : string := String "034" EmptyString.
Definition error_json (what : string) : string := "{" +:+ QUOTE +:+ "error" +:+ QUOTE +:+ ":" +:+ QUOTE +:+ what +:+ QUOTE +:+ "}".
Definition index_text : string := "fjarr introspection endpoint (docs/24)" +:+ LF +:+
  "/pipelines  /pipelines/<id>.{json,txt,dot}[?seq=n]  /pipelines/<id>/history  /sources  /stats" +:+ LF +:+
  "/memory[?since=<checkpoint>]  POST /memory/checkpoint  /log[?minutes=n]  /events[?body=json|dot|txt]" +:+ LF +:+
  "/diagnostics.tar.gz  POST /snapshot?pipeline=<id>" +:+ LF +:+
  "viewer: not served — set introspect.viewer_dir (FJARR_INTROSPECT_VIEWER_DIR) to the viewer's build directory; the fjarr-agent package installs it under /usr/share/fjarr/viewer (docs/24)" +:+ LF.
(** The file a path names, when it may be served. *)
Definition static_file (w : World) (viewer_dir rel : string) : option string :=
  let? root := w_canonical w viewer_dir in
  let? file := w_canonical w (path_join root rel) in
  if String.eqb rel "" || contains_text (chars "..") (chars rel) || contains_text ["\"%char] (chars rel) || negb (has_prefix (root +:+ "/") file) || negb (w_regular w file)
  then None else Some file.
Definition serve_static (w : World) (req : Request) (p : string) : T unit :=
  let msg := r_msg req in
  do s <- get;
  if negb (one_of (r_method req) ["GET"; "HEAD"]) then respond msg 405 JSON (error_json "method")
  else if String.eqb (viewer_dir (config s)) "" then
    if String.eqb p "/" then respond msg 200 TEXT index_text else respond msg 404 JSON (error_json "not found")
  else
    let rel := if String.eqb p "/" then "index.html"%string else of_chars (drop 1 (chars p)) in
    match static_file w (viewer_dir (config s)) rel with
    | None => respond msg 404 JSON (error_json "not found")
    | Some file =>
      h_put (HHeader msg "Cache-Control" (if hashed rel then "public, max-age=31536000, immutable" else "no-cache")) ;;
      respond msg 200 (content_type_for rel) (w_contents w file)
    end.

(** ** The diagnostics bundle *)
Definition provided (o : option (result json)) : result json := match o with Some r => r | None => Ok (JObj []) end.
Definition text_lines (l : list string) : string := foldr (fun x r => x +:+ LF +:+ r) ""%string l.
Definition TEN_MINUTES : Z := 10.
Definition readme_text : string := "fjarr diagnostics bundle (docs/24)" +:+ LF +:+
  "config.json: config with secrets redacted · check.txt: encoder/versions · pipelines/: every snapshot the ring holds (json/txt/dot) · stats.json · sources.json · memory.json · log.txt: the last 10 minutes" +:+ LF.
Definition pretty_file (name : string) (j : json) : result (string * string) := let* d := dump2 j in Ok ("fjarr-diagnostics/" +:+ name, d +:+ LF).
Definition snapshot_files (st : Store) : list (string * string) :=
  flat_map (fun m => flat_map (fun h => match s_at (pipeline_id m) (seq h) st with
                                        | None => []
                                        | Some x => let base := "fjarr-diagnostics/pipelines/" +:+ pipeline_id m +:+ "-" +:+ pretty (seq h) +:+ "-" +:+ trigger h in
                                                    [(base +:+ ".json", json_text x +:+ LF); (base +:+ ".txt", txt x +:+ LF)] ++ (if String.eqb (dot x) "" then [] else [(base +:+ ".dot", dot x)])
                                        end) (s_history (pipeline_id m) st)) (s_list st).
Definition bundle_files (w : World) (s : Server) : result (list (string * string)) :=
  let* extra := provided (w_bundle_extra w) in
  let* config_ := value_json extra "config" (JObj []) in
  let* config_f := pretty_file "config.json" config_ in
  let* check := value_str extra "check" "" in
  let* versions := value_json extra "versions" (JObj []) in
  let* versions_f := pretty_file "versions.json" versions in
  let* stats := provided (w_stats w) in
  let* stats_f := pretty_file "stats.json" stats in
  let* sources := provided (w_sources w) in
  let* sources_f := pretty_file "sources.json" sources in
  let* mem := match memory s with Some _ => mem_now (w_reading w) | None => Ok (JObj []) end in
  let* mem_f := pretty_file "memory.json" mem in
  Ok ([("fjarr-diagnostics/README.txt"%string, readme_text); config_f; ("fjarr-diagnostics/check.txt"%string, check); versions_f] ++ snapshot_files (store s) ++
      [stats_f; sources_f; mem_f; ("fjarr-diagnostics/log.txt"%string, text_lines (w_recent w TEN_MINUTES))]).
Definition bytes_of (s : string) : list byte := String.list_byte_of_string s.
Definition bundle (w : World) (s : Server) : result string :=
  let* files := bundle_files w s in
  match tar (w_time w) (map (fun f => (bytes_of f.1, bytes_of f.2)) files) with
  | Some b => gzip b
  | None => Throw (StdException "tar: member name too long")
  end.

(** ** The routes *)
Definition reply_json (msg : Z) (j : json) : T unit := do d <- lift (dump2 j); respond msg 200 JSON d.
(** [j[k] = v]: [null] becomes an object, anything else throws. *)
Definition set_member (k : string) (v j : json) : result json := match j with JObj _ => Ok (jset k v j) | JNull => Ok (jobj [(k, v)]) | _ => Throw type_error end.
Definition list_row (m : SnapshotMeta) : json :=
  jobj [("id", JStr (pipeline_id m)); ("kind", JStr (kind m)); ("state", JStr (state m)); ("session_id", JStr (session_id m)); ("seq", JUint (seq m)); ("last_trigger", JStr (trigger m)); ("ts", JInt (ts m))].
Definition history_row (m : SnapshotMeta) : json := jobj [("seq", JUint (seq m)); ("trigger", JStr (trigger m)); ("ts", JInt (ts m)); ("state", JStr (state m))].
(** [rest] without [suffix], when it is longer and ends so. *)
Definition strip_suffix (suffix rest : string) : option string :=
  let n := (length (chars rest) - length (chars suffix))%nat in
  if Nat.ltb (length (chars suffix)) (length (chars rest)) && bool_decide (drop n (chars rest) = chars suffix) then Some (of_chars (take n (chars rest))) else None.
Fixpoint split_format (fs : list string) (rest : string) : string * string :=
  match fs with [] => (""%string, rest) | f :: fs' => match strip_suffix ("." +:+ f) rest with Some r => (f, r) | None => split_format fs' rest end end.
Definition no_dot_text : string := error_json "DOT is kept for a ring's most recent snapshots only (docs/24); the JSON and summary are".
Definition pipeline_route (req : Request) (rest : string) : T unit :=
  let msg := r_msg req in
  do s <- get;
  match strip_suffix "/history" rest with
  | Some id => reply_json msg (jobj [("pipeline_id", JStr id); ("history", JArr (map history_row (s_history id (store s))))])
  | None =>
    let '(fmt, id) := split_format ["json"; "txt"; "dot"] rest in
    let snap := match q (r_query req) "seq" with Some n => s_at id (u32 (atoi (chars n))) (store s) | None => s_latest id (store s) end in
    match snap with
    | None => respond msg 404 JSON (error_json "no such pipeline or seq")
    | Some x =>
      if String.eqb fmt "dot" then if String.eqb (dot x) "" then respond msg 404 JSON no_dot_text else respond msg 200 "text/vnd.graphviz" (dot x)
      else if String.eqb fmt "txt" then respond msg 200 TEXT (txt x +:+ LF)
      else respond msg 200 JSON (json_text x)
    end
  end.
Definition with_memory (msg : Z) (f : Prog Memory json) : T unit :=
  do s <- get;
  match memory s with
  | None => respond msg 404 JSON (error_json "no memory census")
  | Some m => let '(m', r) := f m in modify (fun s => {| s with memory := Some m' |}) ;; do j <- lift r; reply_json msg j
  end.
Definition handle (w : World) (req : Request) : T unit :=
  let p := default "/" (r_path req) in
  let msg := r_msg req in
  do s <- get;
  if negb (is_api p) then serve_static w req p
  else if negb (String.eqb (token (config s)) "") && negb (bool_decide (r_authorization req = Some ("Bearer " +:+ token (config s)))) then respond msg 401 JSON (error_json "token")
  else if one_of p ["/pipelines"; "/pipelines/"] then reply_json msg (jobj [("pipelines", JArr (map list_row (s_list (store s))))])
  else if String.eqb p "/sources" then do j <- lift (provided (w_sources w)); reply_json msg j
  else if String.eqb p "/stats" then do j <- lift (provided (w_stats w)); do j <- lift (set_member "events_clients" (JUint (zlen (clients s))) j); reply_json msg j
  else if one_of p ["/memory"; "/memory/"] then
    with_memory msg (match q (r_query req) "since" with Some t => mem_since t (w_reading w) | None => lift (mem_now (w_reading w)) end)
  else if String.eqb p "/memory/checkpoint" && String.eqb (r_method req) "POST" then with_memory msg (mem_checkpoint (w_reading w))
  else if String.eqb p "/log" then
    respond msg 200 TEXT (text_lines (w_recent w (match q (r_query req) "minutes" with Some n => Z.max 1 (atoi (chars n)) | None => 10 end)))
  else if String.eqb p "/events" then open_events req
  else if String.eqb p "/diagnostics.tar.gz" then
    do b <- lift (bundle w s);
    h_put (HHeader msg "Content-Disposition" ("attachment; filename=" +:+ QUOTE +:+ "fjarr-diagnostics.tar.gz" +:+ QUOTE)) ;; respond msg 200 "application/gzip" b
  else if String.eqb p "/snapshot" && String.eqb (r_method req) "POST" then
    match w_snapshot_now w with Some f => for_each (f (default ""%string (q (r_query req) "pipeline"))) record | None => ret tt end ;;
    respond msg 200 JSON ("{" +:+ QUOTE +:+ "ok" +:+ QUOTE +:+ ":true}")
  else if has_prefix "/pipelines/" p then pipeline_route req (of_chars (drop 11 (chars p)))
  else respond msg 404 JSON (error_json "not found").
Definition what_of (e : exn) : string := match e with FjarrError _ m => m | StdException m => m end.
Definition handler (w : World) (req : Request) : T unit :=
  catch (handle w req) (fun e =>
    do d <- lift (json_dump (jobj [("error", JStr "internal"); ("message", JStr (of_chars (take 256 (chars (what_of e)))))]));
    respond (r_msg req) 500 JSON d).

(** ** Its life *)
Definition new_server (c : IntrospectSection) (st : Store) (m : option Memory) : Server :=
  match add_listener st with (st', Ok id) => {| config := c; store := st'; memory := m; clients := []; keepalive := false; listener_ := id; http := [] |} | (st', Throw _) => {| config := c; store := st'; memory := m; clients := []; keepalive := false; listener_ := 0; http := [] |} end.
Definition end_server : T unit :=
  modify (fun s => {| s with store := (remove_listener (listener_ s) (store s)).1; keepalive := false |}) ;;
  do s <- get; for_each (clients s) (fun c => h_put (HComplete (c_msg c))) ;;
  modify (fun s => {| s with clients := [] |}).
Inductive Listen := ListenUnix (path : string) | ListenLocal (port : Z) | ListenAll (port : Z).
Definition listen_on (c : IntrospectSection) : Listen :=
  if negb (String.eqb (socket c) "") then ListenUnix (socket c)
  else if one_of (bind_ c) ["127.0.0.1"; "localhost"] then ListenLocal (port c)
  else ListenAll (port c).

Inductive HttpIn := HRequest (w : World) (r : Request) | HRecord (i : SnIn) | HWrote (msg chunk : Z) | HGone (msg : Z) | HTimer.
Definition http_step (i : HttpIn) : T unit :=
  match i with
  | HRequest w r => handler w r
  | HRecord i => record i
  | HWrote msg chunk => wrote msg chunk
  | HGone msg => drop_client msg
  | HTimer => tick
  end.
Definition http_run (ins : list HttpIn) (s : Server) : Server := foldl (fun s i => (http_step i s).1) s ins.
End Server.
