(* ===== verification/IntrospectServerProofs.v ===== *)
(** * IntrospectServerProofs: the endpoint is gated, its streams have no gaps, and a reader that returns misses nothing *)

From Stdlib Require Import ZArith Lia Ascii String Sorted Permutation.
From stdpp Require Import base list strings pretty.
From S2P Require Import Prelude Monad StdMap Json Tar Config ConfigProofs SnapshotStore SnapshotStoreProofs MemoryCensus IntrospectServer.

(** ** Event ids *)
Lemma pretty_digit d : (d < 10)%N -> is_digit (pretty_N_char d) = true /\ chr (pretty_N_char d) - 48 = Z.of_N d.
Proof. intros H. assert (In d (map N.of_nat (List.seq 0 10))) as Hd by (apply in_map_iff; exists (N.to_nat d); split; [lia | apply in_seq; lia]). cbn in Hd. by repeat destruct Hd as [<-|Hd]. Qed.
(** The digits of a number, and what reading them gives. *)
Lemma pretty_digits x : forall s, exists ds, chars (pretty_N_go x s) = ds ++ chars s /\ forallb is_digit ds = true /\ (0 < x -> ds <> [])%N /\
  (forall acc any rest, take_digits acc any (ds ++ rest) = take_digits (acc * 10 ^ zlen ds + Z.of_N x) (any || negb (bool_decide (ds = []))) rest).
Proof.
  induction (N.lt_wf_0 x) as [x _ IH]. intros s. destruct (decide (x = 0)%N) as [->|Hx].
  { exists []. rewrite pretty_N_go_0. split_and!; [done | done | done|]. intros acc any rest. rewrite zlen_nil. cbn [app]. f_equal; [lia | cbn; by rewrite orb_false_r]. }
  rewrite pretty_N_go_step by lia. destruct (IH (x `div` 10)%N ltac:(apply N.div_lt; lia) (String (pretty_N_char (x `mod` 10)) s)) as (ds & E1 & E2 & _ & E4).
  destruct (pretty_digit (x `mod` 10)) as [Hd Hc]; [apply N.mod_lt; lia|]. exists (ds ++ [pretty_N_char (x `mod` 10)]). split_and!.
  - rewrite E1, <- app_assoc. done.
  - rewrite forallb_app, E2. cbn. by rewrite Hd.
  - intros _ H. by destruct ds.
  - intros acc any rest. rewrite <- app_assoc, E4. cbn [app take_digits]. rewrite Hd, Hc, zlen_snoc. rewrite (bool_decide_eq_false_2 (ds ++ _ = [])) by (by destruct ds). rewrite orb_true_r. f_equal.
    rewrite Z.pow_add_r by (pose proof (zlen_nonneg ds); lia). pose proof (N.div_mod x 10 ltac:(lia)). lia.
Qed.
Lemma pretty_strtol n : 0 <= n < 2 ^ 63 -> exists c ds, chars (pretty n) = c :: ds /\ forallb is_digit (c :: ds) = true /\ strtol (c :: ds) = (n, []).
Proof.
  intros Hn. destruct (decide (n = 0)) as [->|Hn0]; [exists "0"%char, []; done|].
  assert (pretty n = pretty_N_go (Z.to_N n) "") as -> by (destruct n; [done | | lia]; reflexivity).
  destruct (pretty_digits (Z.to_N n) "") as (ds & E1 & E2 & E3 & E4). rewrite app_nil_r in E1. destruct ds as [|c ds]; [by destruct E3; [lia|]|]. exists c, ds. rewrite E1. split_and!; [done.. |].
  specialize (E4 0 false []). rewrite app_nil_r in E4. cbn [forallb] in E2. apply andb_prop in E2 as [Hc _].
  assert (is_space c = false /\ (chr c =? 45) = false /\ (chr c =? 43) = false) as (H1 & H2 & H3). { unfold is_digit, is_space in *. split_and!; case_bools. }
  unfold strtol. cbn [skip_spaces]. rewrite H1, H2, H3, E4. cbn [take_digits]. rewrite bool_decide_eq_false_2 by done. cbn [orb negb]. rewrite Z2N.id by lia. f_equal. unfold saturate. lia.
Qed.
Lemma rsplit_none c l : Forall (fun x => x <> c) l -> rsplit c l = None.
Proof. induction 1 as [|x l Hx Hl IH]; [done|]. cbn. rewrite IH. by destruct (Ascii.eqb_spec x c). Qed.
Lemma rsplit_last c a b : Forall (fun x => x <> c) b -> rsplit c (a ++ c :: b) = Some (a, b).
Proof. intros Hb. induction a as [|x a IH]; cbn; [by rewrite rsplit_none, Ascii.eqb_refl | by rewrite IH]. Qed.
(** The id of an event names its snapshot, also when the pipeline's name has an @. *)
Lemma event_id_roundtrip m : 0 <= seq m < 2 ^ 32 -> parse_event_id (event_id m) = Some (pipeline_id m, seq m).
Proof.
  intros Hm. destruct (pretty_strtol (seq m) ltac:(lia)) as (c & ds & E1 & E2 & E3). unfold parse_event_id, event_id. rewrite !chars_app, E1. cbn [chars String.list_ascii_of_string app].
  rewrite rsplit_last.
  - rewrite of_chars_chars. unfold atoi. rewrite E3. cbn [fst]. f_equal. f_equal. unfold u32, s32. rewrite Zminus_mod_idemp_l. replace (seq m + 2 ^ 31 - 2 ^ 31) with (seq m) by lia. by apply Z.mod_small.
  - apply Forall_forall. intros x Hx ->. rewrite forallb_forall in E2. apply list_elem_of_In in Hx. discriminate (E2 _ Hx).
Qed.

Create HintDb answers.
Section Proofs.
Context `{W : Walker} `{JT : JsonText} `{EP : Endpoint}.

(** ** What requests leave alone *)
Definition neutral (e : HttpEvent) : Prop := match e with HReply _ _ _ _ | HHeader _ _ _ => True | _ => False end.
(** Answers only: no stream and no client changed. *)
Definition answers (s s' : Server) : Prop :=
  config s' = config s /\ clients s' = clients s /\ keepalive s' = keepalive s /\ exists l, http s' = http s ++ l /\ Forall neutral l.
#[local] Instance answers_preorder : PreOrder answers.
Proof.
  split.
  - intros s. split_and!; [done..|]. exists []. by rewrite app_nil_r.
  - intros a b c (A1 & A2 & A3 & l & A4 & A5) (B1 & B2 & B3 & k & B4 & B5). split_and!; [congruence..|]. exists (l ++ k). rewrite B4, A4, app_assoc. split; [done | by apply Forall_app].
Qed.
Lemma put_answers e : neutral e -> respects answers (h_put e).
Proof. intros He s. split_and!; [done..|]. exists [e]. auto. Qed.
Lemma respond_answers msg status ct b : respects answers (respond msg status ct b).
Proof. by apply put_answers. Qed.
Lemma reply_answers msg j : respects answers (reply_json msg j).
Proof. unfold reply_json. repeat respects_step. apply respond_answers. Qed.
Lemma memory_answers m : respects answers (modify (fun s => {| s with memory := Some m |})).
Proof. intros s. split_and!; [done..|]. exists []. by rewrite app_nil_r. Qed.
#[local] Hint Resolve respond_answers reply_answers memory_answers : answers.
Lemma with_memory_answers msg f : respects answers (with_memory msg f).
Proof. unfold with_memory. repeat respects_step; auto with answers. Qed.
Lemma static_answers w req p : respects answers (serve_static w req p).
Proof. unfold serve_static. repeat respects_step; try (apply put_answers; exact I); auto with answers. Qed.
Lemma pipeline_answers req rest : respects answers (pipeline_route req rest).
Proof. unfold pipeline_route. repeat respects_step; auto with answers. Qed.
#[local] Hint Resolve with_memory_answers static_answers pipeline_answers : answers.
(** Every route but two. *)
Lemma handle_answers w req : default "/"%string (r_path req) <> "/events"%string -> default "/"%string (r_path req) <> "/snapshot"%string -> respects answers (handle w req).
Proof.
  intros H1%String.eqb_neq H2%String.eqb_neq. unfold handle. cbv zeta. rewrite H1, H2. cbn [andb]. repeat first [solve [auto 1 with answers nocore] | respects_step | apply put_answers; exact I].
Qed.

(** ** Streams *)
Definition sent (msg : Z) (l : list HttpEvent) : list string := omap (fun e => match e with HAppend m f => if m =? msg then Some f else None | _ => None end) l.
(** What a reader of [msg] should get: the first chunk, then every snapshot and every keep-alive from then on. *)
Definition due_step (msg : Z) (o : option (string * list string)) (e : HttpEvent) : option (string * list string) :=
  match e, o with
  | HOpened m b f, _ => if m =? msg then Some (b, [f]) else o
  | HFrame x, Some (b, l) => match sse_frame x b with Ok f => Some (b, l ++ [f]) | Throw _ => o end
  | HTick, Some (b, l) => Some (b, l ++ [KEEP_ALIVE])
  | _, _ => o
  end.
Definition due (msg : Z) (l : list HttpEvent) : option (string * list string) := foldl (due_step msg) None l.
Definition untouched (msg : Z) (l : list HttpEvent) : Prop := forall e, In e l -> match e with HAppend m _ | HOpened m _ _ => m <> msg | _ => True end.
Record streams_ok (used : list Z) (s : Server) : Prop := {
  so_nodup : NoDup (map c_msg (clients s));
  so_used c : In c (clients s) -> In (c_msg c) used;
  so_fresh msg : ~ In msg used -> untouched msg (http s);
  so_pending c : In c (clients s) -> 0 <= c_pending c <= SSE_MAX_PENDING;
  so_sent c : In c (clients s) -> c_closing c = false -> due (c_msg c) (http s) = Some (c_body c, sent (c_msg c) (http s));
  so_keepalive : keepalive s = negb (bool_decide (clients s = []))
}.
Lemma http_sent_app msg l k : sent msg (l ++ k) = sent msg l ++ sent msg k.
Proof. apply omap_app. Qed.
Lemma due_app msg l k : due msg (l ++ k) = foldl (due_step msg) (due msg l) k.
Proof. apply foldl_app. Qed.
Lemma neutral_sent msg l : Forall neutral l -> sent msg l = [].
Proof. induction 1 as [|e l He Hl IH]; [done|]. by destruct e. Qed.
Lemma neutral_due msg l : Forall neutral l -> forall o, foldl (due_step msg) o l = o.
Proof. induction 1 as [|e l He Hl IH]; intros o; [done|]. cbn. rewrite IH. by destruct e. Qed.
Lemma untouched_sent msg l : untouched msg l -> sent msg l = [].
Proof.
  induction l as [|e l IH]; intros Hl; [done|]. pose proof (Hl e (or_introl eq_refl)) as He. change (e :: l) with ([e] ++ l). rewrite http_sent_app, IH by (intros x Hx; apply Hl; by right). destruct e as [| |m f| | | | |]; try done. cbn. by rewrite (proj2 (Z.eqb_neq _ _) He).
Qed.
Lemma untouched_app msg l k : untouched msg (l ++ k) <-> untouched msg l /\ untouched msg k.
Proof. unfold untouched. setoid_rewrite in_app_iff. naive_solver. Qed.
Lemma neutral_untouched msg l : Forall neutral l -> untouched msg l.
Proof. intros Hl e He. rewrite Forall_forall in Hl. specialize (Hl e (proj2 (list_elem_of_In _ _) He)). by destruct e. Qed.
Lemma answers_streams used s s' : answers s s' -> streams_ok used s -> streams_ok used s'.
Proof.
  intros (_ & E2 & E3 & l & E4 & Hl) [H1 H2 H3 H4 H5 H6]. split; rewrite ?E2, ?E3, ?E4; try done.
  - intros msg Hm. apply untouched_app. split; [by apply H3 | by apply neutral_untouched].
  - intros c Hc Ho. rewrite due_app, http_sent_app, neutral_due, (neutral_sent _ l), app_nil_r by done. by apply H5.
Qed.
Lemma streams_used used msg s : streams_ok used s -> streams_ok (msg :: used) s.
Proof. intros [H1 H2 H3 H4 H5 H6]. split; try done; [intros c Hc; right; by apply H2 | intros m Hm; apply H3; intros ?; apply Hm; by right]. Qed.

(** One frame to one client. *)
Definition deliver (f : string) (c : SseClient) : SseClient :=
  if c_closing c then c else if SSE_MAX_PENDING <? c_pending c + ssize f then {| c with c_closing := true |} else {| c with c_pending := c_pending c + ssize f |}.
Definition delivery (f : string) (c : SseClient) : list HttpEvent :=
  if c_closing c then [] else if SSE_MAX_PENDING <? c_pending c + ssize f then [HShut (c_msg c)] else [HAppend (c_msg c) f].
Lemma deliver_same f c : c_msg (deliver f c) = c_msg c /\ c_body (deliver f c) = c_body c.
Proof. unfold deliver. destruct (c_closing c); [done|]. by destruct (SSE_MAX_PENDING <? _). Qed.
Lemma set_client_at c' done_ c l : NoDup (map c_msg (done_ ++ c :: l)) -> c_msg c' = c_msg c -> set_client c' (done_ ++ c :: l) = done_ ++ c' :: l.
Proof.
  intros Hn E. rewrite map_app in Hn. cbn in Hn. apply NoDup_app in Hn as (_ & Hd & Hl). apply NoDup_cons in Hl as [Hc _]. unfold set_client. rewrite map_app. cbn. rewrite E, Z.eqb_refl. f_equal; [|f_equal].
  - rewrite <- (map_id done_) at 2. apply map_ext_in. intros x Hx. destruct (Z.eqb_spec (c_msg x) (c_msg c)) as [Ex|]; [|done]. exfalso. apply (Hd (c_msg c)); [rewrite <- Ex; by apply list_elem_of_In, in_map | by left].
  - rewrite <- (map_id l) at 2. apply map_ext_in. intros x Hx. destruct (Z.eqb_spec (c_msg x) (c_msg c)) as [Ex|]; [|done]. exfalso. apply Hc. rewrite <- Ex. by apply list_elem_of_In, in_map.
Qed.
Lemma find_client_at done_ c l : NoDup (map c_msg (done_ ++ c :: l)) -> find_client (c_msg c) (done_ ++ c :: l) = Some c.
Proof.
  intros Hn. induction done_ as [|x d IH]; cbn; [by rewrite Z.eqb_refl|]. cbn in Hn. apply NoDup_cons in Hn as [Hx Hn]. destruct (Z.eqb_spec (c_msg x) (c_msg c)) as [E|]; [|by apply IH].
  exfalso. apply Hx. rewrite E, map_app. apply list_elem_of_In, in_app_iff. right. by left.
Qed.
Lemma send_at f done_ c l s : NoDup (map c_msg (clients s)) -> clients s = done_ ++ c :: l ->
  send_sse (c_msg c) f s = ({| s with clients := done_ ++ deliver f c :: l; http := http s ++ delivery f c |}, Ok tt).
Proof.
  intros Hn E. unfold send_sse, bind. cbn [get]. rewrite E in *. rewrite find_client_at by done. unfold deliver, delivery. destruct (c_closing c).
  - rewrite <- E, app_nil_r. by destruct s.
  - destruct (SSE_MAX_PENDING <? _); unfold put_client, h_put, modify; cbn; rewrite E, set_client_at by done; done.
Qed.
(** A frame for each client, in turn. *)
Lemma send_all (g : SseClient -> string) l : forall done_ s, NoDup (map c_msg (clients s)) -> clients s = done_ ++ l ->
  for_each l (fun c => send_sse (c_msg c) (g c)) s = ({| s with clients := done_ ++ map (fun c => deliver (g c) c) l; http := http s ++ flat_map (fun c => delivery (g c) c) l |}, Ok tt).
Proof.
  induction l as [|c l IH]; intros done_ s Hn E; cbn [for_each map flat_map].
  - rewrite !app_nil_r. rewrite app_nil_r in E. rewrite <- E. by destruct s.
  - rewrite (bind_ok _ _ _ _ _ (send_at (g c) done_ c l s Hn E)). rewrite (IH (done_ ++ [deliver (g c) c])); cbn; rewrite ?(cons_app _ (map _ l)), ?app_assoc, <- ?app_assoc; [done | | done].
    rewrite E, map_app in Hn. rewrite map_app. cbn in *. by destruct (deliver_same (g c) c) as [-> _].
Qed.
Lemma delivery_due msg o f c : foldl (due_step msg) o (delivery f c) = o.
Proof. unfold delivery. destruct (c_closing c); [done|]. by destruct (SSE_MAX_PENDING <? _). Qed.
Lemma deliveries_due g l msg o : foldl (due_step msg) o (flat_map (fun c => delivery (g c) c) l) = o.
Proof. revert o. induction l as [|c l IH]; intros o; [done|]. cbn [flat_map]. by rewrite foldl_app, delivery_due. Qed.
Lemma delivery_untouched msg f c : c_msg c <> msg -> untouched msg (delivery f c).
Proof. intros Hc e He. unfold delivery in He. destruct (c_closing c); [done|]. destruct (SSE_MAX_PENDING <? _); by destruct He as [<-|[]]. Qed.
Lemma deliveries_untouched g l msg : ~ In msg (map c_msg l) -> untouched msg (flat_map (fun c => delivery (g c) c) l).
Proof.
  induction l as [|c l IH]; intros Hm; [by intros e []|]. cbn [flat_map]. cbn [map] in Hm. apply untouched_app. split; [apply delivery_untouched; intros E; apply Hm; by left | apply IH; intros ?; apply Hm; by right].
Qed.
Lemma deliveries_sent g l c : NoDup (map c_msg l) -> In c l -> sent (c_msg c) (flat_map (fun c => delivery (g c) c) l) = sent (c_msg c) (delivery (g c) c).
Proof.
  induction l as [|x l IH]; intros Hn Hc; [done|]. cbn [flat_map]. cbn [map] in Hn. apply NoDup_cons in Hn as [Hx Hn]. rewrite list_elem_of_In in Hx. rewrite http_sent_app. destruct Hc as [->|Hc].
  - by rewrite (untouched_sent _ (flat_map _ l)), app_nil_r by (by apply deliveries_untouched).
  - rewrite IH by done. rewrite (untouched_sent _ (delivery (g x) x)); [done|]. apply delivery_untouched. intros E. apply Hx. rewrite E. by apply in_map.
Qed.
(** A mark, and its frame to everyone. *)
Lemma all_sent used s e (g : SseClient -> string) :
  (forall c l, due_step (c_msg c) (Some (c_body c, l)) e = Some (c_body c, l ++ [g c])) -> match e with HAppend _ _ | HOpened _ _ _ => False | _ => True end ->
  streams_ok used s -> streams_ok used {| s with clients := map (fun c => deliver (g c) c) (clients s); http := http s ++ [e] ++ flat_map (fun c => delivery (g c) c) (clients s) |}.
Proof.
  intros Hd He [H1 H2 H3 H4 H5 H6]. assert (map c_msg (map (fun c => deliver (g c) c) (clients s)) = map c_msg (clients s)) as Em by (rewrite map_map; apply map_ext; intros c; apply deliver_same).
  split; cbn [clients http keepalive].
  - by rewrite Em.
  - intros c (x & <- & Hx)%in_map_iff. destruct (deliver_same (g x) x) as [-> _]. by apply H2.
  - intros msg Hm. rewrite !untouched_app. split_and!; [by apply H3 | |].
    + intros y [<-|[]]. by destruct e.
    + apply deliveries_untouched. intros (x & <- & Hx)%in_map_iff. by apply Hm, H2.
  - intros c (x & <- & Hx)%in_map_iff. specialize (H4 _ Hx). unfold deliver. destruct (c_closing x); [done|]. pose proof (zlen_nonneg (chars (g x))). fold (ssize (g x)) in *. destruct (Z.ltb_spec SSE_MAX_PENDING (c_pending x + ssize (g x))); cbn; lia.
  - intros c (x & <- & Hx)%in_map_iff. destruct (deliver_same (g x) x) as [-> ->]. intros Hc. rewrite due_app, foldl_app, !http_sent_app, deliveries_due, deliveries_sent by done.
    assert (c_closing x = false /\ delivery (g x) x = [HAppend (c_msg x) (g x)]) as [Hx0 ->].
    { unfold deliver, delivery in *. destruct (c_closing x) eqn:E; [by rewrite E in Hc|]. by destruct (SSE_MAX_PENDING <? _). }
    rewrite (H5 x Hx Hx0). cbn [foldl]. rewrite Hd. f_equal. f_equal. f_equal. cbn. rewrite Z.eqb_refl. by destruct e.
  - rewrite H6. by destruct (clients s).
Qed.
Lemma for_each_ext {A} (l : list A) (f g : A -> Prog Server unit) : (forall a s, f a s = g a s) -> forall s, for_each l f s = for_each l g s.
Proof. intros H. induction l as [|a l IH]; intros s; [done|]. cbn. unfold bind. rewrite H. destruct (g a s) as [s1 [[]|e]]; [apply IH | done]. Qed.
(** The text of a frame exists for every reader or for none. *)
Lemma frame_for_all x : (exists g, forall b, sse_frame x b = Ok (g b)) \/ (exists e, forall b, sse_frame x b = Throw e).
Proof. unfold sse_frame. destruct (json_dump _) as [d|e]; [left; by eexists (fun b => _) | right; by exists e]. Qed.
Lemma broadcast_streams used x : respects (fun s s' => streams_ok used s -> streams_ok used s') (broadcast x).
Proof.
  intros s Hs. unfold broadcast. rewrite (bind_ok _ _ s {| s with http := http s ++ [HFrame x] |} tt) by done. cbn. destruct (frame_for_all x) as [[g Hg]|[e He]].
  - rewrite (for_each_ext _ _ (fun c => send_sse (c_msg c) (g (c_body c)))) by (intros c s0; unfold bind, lift; by rewrite Hg).
    rewrite (send_all (fun c => g (c_body c)) (clients s) []) by (try done; apply Hs). cbn. rewrite <- app_assoc. apply (all_sent used s (HFrame x) (fun c => g (c_body c))); [|done..]. intros c l. cbn. by rewrite Hg.
  - assert (streams_ok used {| s with http := http s ++ [HFrame x] |}) as Hs'.
    { destruct Hs as [H1 H2 H3 H4 H5 H6]. split; cbn [clients http keepalive]; try done.
      - intros msg Hm. apply untouched_app. split; [by apply H3|]. by intros y [<-|[]].
      - intros c Hc Ho. rewrite due_app, http_sent_app, app_nil_r, (H5 c Hc Ho). cbn. by rewrite He. }
    destruct (clients s) as [|c l]; [done|]. cbn. unfold bind, lift. by rewrite He.
Qed.
Lemma tick_streams used : respects (fun s s' => streams_ok used s -> streams_ok used s') tick.
Proof.
  intros s Hs. unfold tick, bind. cbn [get]. destruct (keepalive s); [|done]. cbn. rewrite (send_all (fun _ => KEEP_ALIVE) (clients s) []) by (try done; apply Hs). cbn. rewrite <- app_assoc. by apply (all_sent used s HTick (fun _ => KEEP_ALIVE)).
Qed.
Lemma set_client_In c x l : In x (set_client c l) -> In x l \/ x = c.
Proof. unfold set_client. intros (y & <- & Hy)%in_map_iff. destruct (c_msg y =? c_msg c); auto. Qed.
Lemma set_client_msgs c l : map c_msg (set_client c l) = map c_msg l.
Proof. unfold set_client. rewrite map_map. apply map_ext. intros x. destruct (Z.eqb_spec (c_msg x) (c_msg c)); done. Qed.
Lemma wrote_streams used msg chunk : 0 <= chunk -> respects (fun s s' => streams_ok used s -> streams_ok used s') (wrote msg chunk).
Proof.
  intros Hk s Hs. unfold wrote, bind. cbn [get]. destruct (find_client msg (clients s)) as [c|] eqn:Ec; [|done]. apply find_some in Ec as [Hc _]. cbn [put_client modify fst].
  set (c' := {| c with c_pending := _ |}). destruct Hs as [H1 H2 H3 H4 H5 H6]. split; cbn [clients http keepalive]; try done.
  - by rewrite set_client_msgs.
  - intros x [Hx| ->]%set_client_In; [by apply H2 | by apply (H2 c)].
  - intros x [Hx| ->]%set_client_In; [by apply H4|]. specialize (H4 c Hc). cbn. destruct (Z.leb_spec (c_pending c) chunk); lia.
  - intros x [Hx| ->]%set_client_In; [by apply H5 | by apply (H5 c)].
  - rewrite H6. by destruct (clients s).
Qed.
Lemma drop_streams used msg : respects (fun s s' => streams_ok used s -> streams_ok used s') (drop_client msg).
Proof.
  intros s [H1 H2 H3 H4 H5 H6]. unfold drop_client, bind. cbn [modify get clients fst]. set (l := List.filter _ (clients s)). assert (forall c, In c l -> In c (clients s)) as Hl by (by intros c [? _]%filter_In).
  assert (NoDup (map c_msg l)) as Hn. { subst l. clear -H1. induction (clients s) as [|c k IH]; [done|]. cbn in *. apply NoDup_cons in H1 as [Hc Hk]. destruct (negb _); [|by apply IH]. cbn. apply NoDup_cons. split; [|by apply IH]. rewrite list_elem_of_In in *. intros (x & Ex & [Hx _]%filter_In)%in_map_iff. apply Hc. rewrite <- Ex. by apply in_map. }
  assert (l <> [] -> clients s <> []) as Hne by (intros Hx Ey; apply Hx; subst l; by rewrite Ey).
  destruct l as [|c l]; (split; cbn [clients http keepalive]; try done; eauto). rewrite H6. by rewrite !bool_decide_eq_false_2 by (by try apply Hne).
Qed.
(** A stream is opened on a message of its own. *)
Lemma open_streams used req s : ~ In (r_msg req) used -> streams_ok used s -> streams_ok (r_msg req :: used) (open_events req s).1.
Proof.
  intros Hm Hs0. unfold open_events. set (body := match q _ _ with Some _ => _ | None => _ end). set (msg := r_msg req) in *.
  assert (exists s1, answers s s1 /\ forall k, (h_put (HHeader msg "Content-Type" "text/event-stream") ;; h_put (HHeader msg "Cache-Control" "no-cache") ;; h_put (HHeader msg "X-Accel-Buffering" "no") ;; k) s = k s1) as (s1 & Ha & ->).
  { eexists. split; [|intros k; reflexivity]. split_and!; [done..|]. eexists. cbn. rewrite <- !app_assoc. split; [reflexivity|]. by repeat constructor. }
  apply (answers_streams used) in Ha; [|done]. clear Hs0 s. rename s1 into s. unfold bind at 1. cbn [get]. unfold bind at 1, lift. destruct (first_frame _ body (store s)) as [first|e]; [|by apply streams_used].
  set (c := {| c_msg := msg; c_body := body; c_pending := 0; c_closing := false |}). cbn [bind modify h_put].
  destruct Ha as [H1 H2 H3 H4 H5 H6]. assert (~ In msg (map c_msg (clients s))) as Hc by (intros (x & Ex & Hx)%in_map_iff; apply Hm; rewrite <- Ex; by apply H2).
  assert (NoDup (map c_msg (clients s ++ [c]))) as Hn. { rewrite map_app. apply NoDup_app. split_and!; [done | | apply NoDup_singleton]. intros x Hx1 Hx2%list_elem_of_singleton. subst x. by apply Hc, list_elem_of_In. }
  unfold bind. cbn [modify h_put fst snd]. rewrite (send_at first (clients s) c []) by done. cbn [modify fst snd clients http keepalive].
  pose proof (deliver_same first c) as [Em Eb]. split; cbn [clients http keepalive].
  - rewrite map_app in *. cbn [map] in *. by rewrite Em.
  - intros x [Hx|[<-|[]]]%in_app_iff; [right; by apply H2 | left; by rewrite Em].
  - intros m Hm'. rewrite !untouched_app. assert (c_msg c <> m) by (intros <-; apply Hm'; by left). split_and!; [apply H3; intros ?; apply Hm'; by right | by intros e [<-|[]] | by apply delivery_untouched].
  - intros x [Hx|[<-|[]]]%in_app_iff; [by apply H4|]. unfold deliver. cbn [c_closing c]. pose proof (zlen_nonneg (chars first)). fold (ssize first) in *. destruct (Z.ltb_spec SSE_MAX_PENDING (c_pending c + ssize first)); cbn; [done|]. cbn in *. lia.
  - intros x Hx Ho. rewrite !due_app, !http_sent_app, delivery_due. apply in_app_iff in Hx as [Hx|[<-|[]]].
    + assert (msg <> c_msg x) as Hne by (intros E; apply Hc; rewrite E; by apply in_map). cbn [foldl due_step]. rewrite (proj2 (Z.eqb_neq _ _) Hne), (H5 x Hx Ho), (untouched_sent (c_msg x) (delivery first c)) by (by apply delivery_untouched). cbn [sent omap list_omap]. by rewrite !app_nil_r.
    + rewrite Em, Eb. cbn [c_msg c c_body foldl due_step]. rewrite Z.eqb_refl, (untouched_sent msg (http s)) by (by apply H3). unfold deliver, delivery in *. cbn [c_closing c] in *. destruct (SSE_MAX_PENDING <? _); [done|]. cbn. by rewrite Z.eqb_refl.
  - by rewrite bool_decide_eq_false_2 by (by destruct (clients s)).
Qed.
#[local] Abbreviation keeps_streams used := (fun s s' => streams_ok used s -> streams_ok used s').
#[local] Instance keeps_streams_preorder used : PreOrder (keeps_streams used).
Proof. split; [by intros s | intros a b c Hab Hbc Ha; auto]. Qed.
Lemma record_streams used i : respects (keeps_streams used) (record i).
Proof.
  unfold record. repeat first [apply broadcast_streams | respects_step]. apply respects_modify. intros s [H1 H2 H3 H4 H5 H6]. by split.
Qed.
Lemma answers_keep {A} used (m : Prog Server A) : respects answers m -> respects (keeps_streams used) m.
Proof. intros Hm s. by apply answers_streams. Qed.
(** The route of a path that is known. *)
Ltac known_route :=
  repeat match goal with
         | |- context [if ?b then _ else _] => let v := eval vm_compute in b in match v with true => change b with true | false => change b with false end; cbv iota
         end.
Lemma handle_streams used w req s : ~ In (r_msg req) used -> streams_ok used s -> streams_ok (r_msg req :: used) (handle w req s).1.
Proof.
  intros Hm Hs. pose proof (streams_used used (r_msg req) s Hs) as Hs'. destruct (decide (default "/"%string (r_path req) = "/events"%string)) as [E|E1]; [|destruct (decide (default "/"%string (r_path req) = "/snapshot"%string)) as [E|E2]].
  - unfold handle. rewrite E. cbv zeta. unfold bind at 1. cbn [get]. known_route. case_match; [by apply (answers_keep _ _ (respond_answers _ _ _ _)) | by apply open_streams].
  - unfold handle. rewrite E. cbv zeta. unfold bind at 1. cbn [get]. known_route. case_match; [by apply (answers_keep _ _ (respond_answers _ _ _ _))|]. change ("/snapshot" =? "/snapshot")%string with true. cbn [andb]. case_match; [|by apply (answers_keep _ _ (respond_answers _ _ _ _))].
    revert Hs'. generalize (r_msg req :: used). intros u. match goal with |- _ -> streams_ok _ (?m s).1 => cut (respects (keeps_streams u) m); [intros Hr; apply Hr|] end. respects_step; [|apply answers_keep, respond_answers]. destruct (w_snapshot_now w); repeat first [apply record_streams | respects_step].
  - revert Hs'. by apply answers_streams, handle_answers.
Qed.
Lemma handler_streams used w req s : ~ In (r_msg req) used -> streams_ok used s -> streams_ok (r_msg req :: used) (handler w req s).1.
Proof.
  intros Hm Hs. pose proof (handle_streams used w req s Hm Hs) as H. unfold handler, catch. destruct (handle w req s) as [s1 [[]|e]]; [done|]. cbn [fst] in H. revert H. apply (answers_keep _ (do d <- lift _; respond _ 500 JSON d)). repeat respects_step. apply respond_answers.
Qed.
Definition messages (ins : list HttpIn) : list Z := omap (fun i => match i with HRequest _ r => Some (r_msg r) | _ => None end) ins.
(** Requests come with messages of their own, and no write has a negative size. *)
Definition http_ok (ins : list HttpIn) : Prop := NoDup (messages ins) /\ forall m k, In (HWrote m k) ins -> 0 <= k.
Lemma run_streams ins : forall used s, NoDup (messages ins) -> (forall m, In m (messages ins) -> ~ In m used) -> (forall m k, In (HWrote m k) ins -> 0 <= k) -> streams_ok used s ->
  streams_ok (rev (messages ins) ++ used) (http_run ins s).
Proof.
  induction ins as [|i ins IH]; intros used s Hn Hf Hk Hs; [done|]. unfold http_run. cbn [foldl]. assert (forall m k, In (HWrote m k) ins -> 0 <= k) as Hk' by (intros m k Hx; apply (Hk m k); by right).
  destruct i as [w r|i|m k|m|]; cbn [http_step].
  - change (messages (HRequest w r :: ins)) with (r_msg r :: messages ins) in *. apply NoDup_cons in Hn as [Hr Hn]. rewrite list_elem_of_In in Hr. cbn [rev]. rewrite <- app_assoc. apply IH; [done | | done | apply handler_streams; [apply Hf; by left | done]].
    intros m Hm [<-|Hu]; [done|]. by apply (Hf m); [right|].
  - apply IH; try done. by apply record_streams.
  - apply IH; try done. apply wrote_streams; [apply (Hk m k); by left | done].
  - apply IH; try done. by apply drop_streams.
  - apply IH; try done. by apply tick_streams.
Qed.
Lemma new_server_ok c st m : streams_ok [] (new_server c st m).
Proof. unfold new_server. destruct (add_listener st) as [st' [id|e]]; split; cbn [clients http keepalive]; try apply NoDup_nil; try done; by intros msg Hm ev []. Qed.
(** C16: The event streams are bounded and have no gaps: after any requests, snapshots, writes, disconnects
    and timer ticks, each open stream has at most 1 MiB unwritten, belongs to a message of its own, and, unless it was closed for falling
    behind, was sent exactly its first chunk and then the frame of every snapshot taken and every keep-alive
    since it was opened, once and in order; the keep-alive timer runs while a stream is open and only then. *)
Theorem streams_without_gaps c st m ins : http_ok ins -> let s := http_run ins (new_server c st m) in
  NoDup (map c_msg (clients s)) /\ keepalive s = negb (bool_decide (clients s = [])) /\
  forall k, In k (clients s) -> 0 <= c_pending k <= SSE_MAX_PENDING /\ (c_closing k = false -> due (c_msg k) (http s) = Some (c_body k, sent (c_msg k) (http s))).
Proof.
  intros [Hn Hk] s. destruct (run_streams ins [] (new_server c st m) Hn ltac:(auto) Hk (new_server_ok c st m)) as [H1 _ _ H4 H5 H6]. fold s in H1, H4, H5, H6. auto.
Qed.

(** ** The gate *)
#[local] Abbreviation same_config := (fun s s' => config s' = config s).
#[local] Instance same_config_preorder : PreOrder same_config.
Proof. split; [by intros s | intros a b c Hab Hbc; congruence]. Qed.
Lemma answers_config {A} (m : Prog Server A) : respects answers m -> respects same_config m.
Proof. intros Hm s. by destruct (Hm s). Qed.
Lemma put_config e : respects same_config (h_put e).
Proof. by intros s. Qed.
Lemma modify_config f : (forall s, config (f s) = config s) -> respects same_config (modify f).
Proof. intros H s. apply H. Qed.
Ltac config_steps := repeat first [apply put_config | respects_step | apply modify_config; done].
Lemma send_config msg f : respects same_config (send_sse msg f).
Proof. unfold send_sse, put_client. config_steps. Qed.
Lemma record_config i : respects same_config (record i).
Proof. unfold record, broadcast. repeat first [apply send_config | apply put_config | respects_step | apply modify_config; done]. Qed.
Lemma open_config req : respects same_config (open_events req).
Proof. unfold open_events. repeat first [apply send_config | apply put_config | respects_step | apply modify_config; done]. Qed.
Lemma handle_config w req : respects same_config (handle w req).
Proof.
  destruct (decide (default "/"%string (r_path req) = "/events"%string)) as [E|E1]; [|destruct (decide (default "/"%string (r_path req) = "/snapshot"%string)) as [E|E2]].
  - unfold handle. rewrite E. cbv zeta. respects_step; [apply respects_get; apply _|]. known_route. case_match; [by apply answers_config, respond_answers | apply open_config].
  - unfold handle. rewrite E. cbv zeta. respects_step; [apply respects_get; apply _|]. known_route. repeat first [apply record_config | apply answers_config, respond_answers | respects_step].
  - by apply answers_config, handle_answers.
Qed.
Lemma step_config i : respects same_config (http_step i).
Proof.
  destruct i as [w r|i|m k|m|]; cbn [http_step].
  - unfold handler. respects_step; [apply handle_config|]. apply answers_config. repeat respects_step. apply respond_answers.
  - apply record_config.
  - unfold wrote, put_client. config_steps.
  - unfold drop_client. config_steps.
  - unfold tick. repeat first [apply send_config | apply put_config | respects_step].
Qed.
Lemma run_config ins : forall s, config (http_run ins s) = config s.
Proof. induction ins as [|i ins IH]; intros s; [done|]. unfold http_run. cbn [foldl]. etrans; [apply IH | apply step_config]. Qed.
(** C8: An endpoint that listens beyond the loopback is gated. When the configuration the daemon validated
    makes the endpoint listen on every interface, there is a token; and, whatever happened before, an API
    request that does not carry exactly that token is answered 401 and changes nothing else: no stream is
    opened, no snapshot or checkpoint taken, and nothing of the robot is in the answer. *)
Theorem exposed_endpoint_gated c st m ins w req : validate c = Ok tt -> enabled (introspect c) = true -> listen_on (introspect c) = ListenAll (port (introspect c)) ->
  is_api (default "/"%string (r_path req)) = true -> r_authorization req <> Some ("Bearer " +:+ token (introspect c)) ->
  let s := http_run ins (new_server (introspect c) st m) in
  token (introspect c) <> ""%string /\ handler w req s = ({| s with http := http s ++ [HReply (r_msg req) 401 JSON (error_json "token")] |}, Ok tt).
Proof.
  intros Hv He Hl Hp Ha s. assert (token (introspect c) <> ""%string) as Ht.
  { unfold listen_on in Hl. destruct (String.eqb_spec (socket (introspect c)) "") as [Es|]; [|done]. cbn [negb] in Hl. destruct (one_of _ _) eqn:Eo; [done|]. cbn in Eo. apply orb_false_elim in Eo as [E1 [E2 _]%orb_false_elim].
    intros Et. unfold validate in Hv. rewrite He, E1, E2, Es, Et in Hv. cbn in Hv. repeat case_match; done. }
  split; [done|]. assert (config s = introspect c) as Ec by (unfold s; rewrite run_config; unfold new_server; by destruct (add_listener st) as [st' [id|e]]).
  unfold handler, catch, handle. cbv zeta. erewrite bind_ok by reflexivity. rewrite Hp, Ec. cbn [negb]. destruct (String.eqb_spec (token (introspect c)) ""); [done|]. rewrite bool_decide_eq_false_2 by done. by rewrite <- Ec.
Qed.

(** ** A reader that returns *)
(** What the rings hold that a reader who last saw snapshot [n] of [p] has not seen: what is newer in [p], and
    of the other pipelines what is later than that snapshot, when it is still known. *)
Definition unseen (p : string) (n : Z) (st : Store) (id : string) (x : Snapshot) : bool :=
  if String.eqb id p then n <? seq (meta x) else match s_at p n st with Some ref => (0 <=? ts (meta ref)) && (ts (meta ref) <? ts (meta x)) | None => false end.
Definition held_after (p : string) (n : Z) (st : Store) : list Snapshot := flat_map (fun kr => List.filter (unseen p n st kr.1) (items kr.2)) (rings st).
Lemma flat_map_map {A B C} (f : B -> list C) (g : A -> B) l : flat_map f (map g l) = flat_map (fun x => f (g x)) l.
Proof. induction l as [|x l IH]; [done|]. cbn. by rewrite IH. Qed.
Lemma flat_map_filter {A} (p : A -> bool) (f : A -> list A) l : (forall x, In x l -> f x = if p x then [x] else []) -> flat_map f l = List.filter p l.
Proof. induction l as [|x l IH]; intros H; [done|]. cbn. rewrite H by (by left). rewrite IH by (intros y Hy; apply H; by right). by destruct (p x). Qed.
Lemma flat_map_omap {A B C} (f : B -> list C) (g : A -> option B) (h : A -> list C) l : (forall x, In x l -> match g x with Some b => f b | None => [] end = h x) -> flat_map f (omap g l) = flat_map h l.
Proof. induction l as [|x l IH]; intros H; [done|]. cbn. rewrite <- (H x) by (by left). rewrite <- IH by (intros y Hy; apply H; by right). by destruct (g x). Qed.
Lemma missed_held k p n st : store_inv k st -> missed p n st = held_after p n st.
Proof.
  intros [Hw Hr _ _]. unfold missed, held_after, s_list. cbv zeta. apply flat_map_omap. intros [id r] Hin. cbn [fst snd]. pose proof (sm_In_find _ _ _ Hw Hin) as Hf. destruct (Hr _ _ Hf) as [_ _ A3 _ A5 _].
  destruct (last (items r)) as [y|] eqn:El; cbn [fmap option_fmap option_map]; [|by apply last_None in El as ->]. rewrite (A5 y) by (apply list_elem_of_In; by apply last_Some_elem_of in El).
  unfold s_history at 1. rewrite Hf, flat_map_map. apply flat_map_filter. intros x Hx. assert (s_at id (seq (meta x)) st = Some x) as -> by (unfold s_at; rewrite Hf; by apply (numbered_find _ _ _ A3)). unfold unseen.
  destruct (String.eqb id p); cbn [andb negb orb]; [by rewrite orb_false_r|]. by destruct (s_at p n st).
Qed.
(** What opening a stream does. *)
Definition stream_headers (msg : Z) : list HttpEvent := [HHeader msg "Content-Type" "text/event-stream"; HHeader msg "Cache-Control" "no-cache"; HHeader msg "X-Accel-Buffering" "no"].
Definition asked_body (req : Request) : string := match q (r_query req) "body" with Some b => if one_of b ["json"; "dot"; "txt"] then b else ""%string | None => ""%string end.
Lemma open_spec req s first : NoDup (map c_msg (clients s)) -> ~ In (r_msg req) (map c_msg (clients s)) -> first_frame (r_last_event_id req) (asked_body req) (store s) = Ok first ->
  let c := {| c_msg := r_msg req; c_body := asked_body req; c_pending := 0; c_closing := false |} in
  open_events req s = ({| s with clients := clients s ++ [deliver first c]; keepalive := true; http := http s ++ stream_headers (r_msg req) ++ [HOpened (r_msg req) (asked_body req) first] ++ delivery first c |}, Ok tt).
Proof.
  intros Hn Hc Hf c. unfold open_events. fold (asked_body req).
  erewrite bind_ok by reflexivity. erewrite bind_ok by reflexivity. erewrite bind_ok by reflexivity. erewrite bind_ok by reflexivity. cbn [store]. unfold bind at 1. unfold lift at 1. rewrite Hf.
  erewrite bind_ok by reflexivity. erewrite bind_ok by reflexivity. cbn [clients http keepalive config store memory listener_].
  assert (NoDup (map c_msg (clients s ++ [c]))) as Hn'. { rewrite map_app. apply NoDup_app. split_and!; [done | | apply NoDup_singleton]. intros x Hx1 Hx2%list_elem_of_singleton. subst x. by apply Hc, list_elem_of_In. }
  erewrite bind_ok by (apply (send_at first (clients s) c []); [exact Hn' | reflexivity]). unfold modify. cbn [clients http keepalive config store memory listener_]. rewrite <- !app_assoc. reflexivity.
Qed.
(** But when those frames are more than 1 MiB together, the stream is closed before anything is sent, and will be
    again each time the reader returns with that id. *)
Theorem large_replay_shuts used req s first : streams_ok used s -> ~ In (r_msg req) used ->
  first_frame (r_last_event_id req) (asked_body req) (store s) = Ok first -> SSE_MAX_PENDING < ssize first ->
  let s' := (open_events req s).1 in In (HShut (r_msg req)) (http s') /\ sent (r_msg req) (http s') = [] /\ (exists c, In c (clients s') /\ c_msg c = r_msg req /\ c_closing c = true) /\ store s' = store s.
Proof.
  intros Hs Hm Hf Hl. pose proof (so_fresh _ _ Hs _ Hm) as Hu. destruct Hs as [H1 H2 _ _ _ _]. assert (~ In (r_msg req) (map c_msg (clients s))) as Hc by (intros (x & Ex & Hx)%in_map_iff; apply Hm; rewrite <- Ex; by apply H2).
  rewrite (open_spec req s first H1 Hc Hf). cbn [fst clients http store]. unfold deliver, delivery. cbn [c_closing c_pending c_msg]. rewrite (proj2 (Z.ltb_lt SSE_MAX_PENDING (0 + ssize first))) by lia. split_and!; [| |eexists; split_and!|done].
  - rewrite !in_app_iff. right. right. right. by left.
  - rewrite !http_sent_app, (untouched_sent _ (http s)) by done. done.
  - rewrite in_app_iff. right. by left.
  - done.
  - done.
Qed.
End Proofs.

(** ** An endpoint at work *)
#[local] Instance drawing : Walker := {| bin_state := fun _ => "playing"; unix_now := fun now => now / MS; draw := fun bin m => ("{}", "digraph", "txt")%string |}.
#[local] Instance plain : JsonText := {| json_parse := fun _ => None; json_dump := fun _ => Ok "{}"%string |}.
Fixpoint insert_ts (x : Snapshot) (l : list Snapshot) : list Snapshot := match l with [] => [x] | y :: l' => if ts (meta x) <=? ts (meta y) then x :: l else y :: insert_ts x l' end.
#[local] Instance simple : Endpoint := {| dump2 := fun _ => Ok "{}"%string; gzip := fun _ => Ok ""%string; sort_ts := foldr insert_ts [] |}.
Lemma insert_perm x l : insert_ts x l ≡ₚ x :: l.
Proof. induction l as [|y l IH]; [done|]. cbn. destruct (ts (meta x) <=? ts (meta y)); [done|]. rewrite IH. apply perm_swap. Qed.
#[local] Instance simple_laws : EndpointLaws.
Proof.
  split.
  - induction l as [|x l IH]; [done|]. cbn. rewrite insert_perm. by constructor.
  - induction l as [|x l IH]; cbn; [constructor|]. change (foldr insert_ts [] l) with (sort_ts l). generalize dependent (sort_ts l). intros k Hk. induction Hk as [|y k Hk IHk Hy]; cbn; [by repeat constructor|]. destruct (Z.leb_spec (ts (meta x)) (ts (meta y))).
    + constructor; [by constructor|]. constructor; [done|]. eapply List.Forall_impl; [|exact Hy]. cbn. intros. lia.
    + constructor; [done|]. rewrite insert_perm. constructor; [lia | done].
Qed.
Definition no_world : World := {| w_sources := None; w_stats := None; w_bundle_extra := None; w_snapshot_now := None; w_reading := {| rd_ts := 0; rd_rss := 0; rd_counts := fun _ => 0; rd_tracer := None; rd_extra := None |}; w_recent := fun _ => []; w_time := 0; w_canonical := Some; w_regular := fun _ => false; w_contents := fun _ => ""%string |}.
Definition ask (msg : Z) (path : string) : Request := {| r_msg := msg; r_path := Some path; r_method := "GET"; r_query := None; r_authorization := None; r_last_event_id := None |}.
Definition lan : AgentConfig := in_agent (fun a => {| a with Config.robot_id := "r1" |}) (in_intro (fun i => {| i with bind_ := "0.0.0.0"; token := "secret" |}) default_config).
Definition visit : list HttpIn := [HRequest no_world (ask 1 "/events"); HRecord (SnTake (at_ms 0) 7 (about "session:s1" "created") false); HTimer; HRequest no_world (ask 2 "/events"); HRecord (SnTake (at_ms 300) 7 (about "session:s1" "answer") false); HWrote 1 20; HGone 9].
Lemma streams_without_gaps_witness : let s := http_run visit (new_server (introspect default_config) (new_store 64 "" true) None) in
  map (fun k => (c_msg k, length (sent (c_msg k) (http s)))) (clients s) = [(1, 4%nat); (2, 2%nat)] /\ forall k, In k (clients s) -> c_pending k <= 1048576 /\ due (c_msg k) (http s) = Some (c_body k, sent (c_msg k) (http s)).
Proof.
  intros s. split; [by vm_compute|]. destruct (streams_without_gaps (introspect default_config) (new_store 64 "" true) None visit) as (_ & _ & H).
  - split; [apply (bool_decide_unpack _); by vm_compute | intros m k Hx; repeat (destruct Hx as [Hx|Hx]; [try done; by injection Hx as <- <-|]); done].
  - intros k Hk. destruct (H k Hk) as [H1 H2]. split; [apply H1 | apply H2]. revert k Hk H1 H2. assert (forallb (fun k => negb (c_closing k)) (clients s) = true) as Hall by (by vm_compute). rewrite forallb_forall in Hall. intros k Hk _ _. specialize (Hall k Hk). by destruct (c_closing k).
Defined.
Lemma exposed_endpoint_gated_witness : let s := http_run visit (new_server (introspect lan) (new_store 64 "" true) None) in
  handler no_world (ask 3 "/diagnostics.tar.gz") s = ({| s with http := http s ++ [HReply 3 401 JSON (error_json "token")] |}, Ok tt).
Proof. apply (exposed_endpoint_gated lan (new_store 64 "" true) None visit no_world (ask 3 "/diagnostics.tar.gz")); [by vm_compute | by vm_compute | by vm_compute | by vm_compute | discriminate]. Defined.
Definition two_pipelines : list SnIn := [SnTake (at_ms 0) 7 (about "session:s1" "created") false; SnTake (at_ms 50) 8 (about "producer:cam" "created") false; SnTake (at_ms 300) 7 (about "session:s1" "answer") false].
