(* ===== verification/IntrospectCapability.v ===== *)
(** * IntrospectCapability: snapshots over a session (capabilities/introspect_capability.cpp)

    The flight recorder for operators: lists, histories, single snapshots and a subscription whose
    snapshots are events with their large forms as blobs. While blobs of a pipeline are on their way to a session the newest
    snapshot waits. The blobs that have not reported completion are kept with whom they are for, as the
    closures passed to [send_blob] do; the recorder is the agent's, there or not.

    Then: with a session that takes what is sent, the newest snapshot offered to a subscriber has been shown or waits for a
    blob that is under way; and when none is under way it has been shown. *)

From Stdlib Require Import ZArith Lia Ascii String.
From stdpp Require Import base list strings pretty.
From S2P Require Import Prelude Monad StdMap Json Tar Blob Protocol Config SessionState SessionOps Capability SnapshotStore MemoryCensus IntrospectServer.

Definition media_type (form : string) : string := if String.eqb form "dot" then "text/vnd.graphviz" else "application/json".
(** Marks of the model: a subscription begins, a snapshot is offered to it, and has been sent. *)
Inductive ICall := IBegun | IOffered (x : Snapshot) | IShown (x : Snapshot).
Abbreviation IOut := (Out ICall).
Record Subscription := { filter_ : string; forms : list string }.
Definition sub_matches (s : Subscription) (id : string) : bool := String.eqb (filter_ s) "*" || String.eqb (filter_ s) id.
Record Attached := { sub : option Subscription; in_flight : list (string * Z); held : list (string * Snapshot) }.
Record IState := { i_sessions : list (string * Attached); i_listener : Z; coalesced : Z; transfers : list (nat * (string * string)); i_next : nat; i_store : option Store }.
Definition new_introspect (st : option Store) : IState := {| i_sessions := []; i_listener := 0; coalesced := 0; transfers := []; i_next := 0%nat; i_store := st |}.
Abbreviation ICap := (Cap IState ICall).
Definition internal : string := "internal".

Section Handlers.
Context `{W : Walker} `{E : CtxEnv ICall}.
Abbreviation P := (Prog ICap).
Definition with_session (sid : string) (f : Attached -> Attached) : P unit :=
  update (fun s => match sm_find sid (i_sessions s) with Some a => {| s with i_sessions := sm_set sid (f a) (i_sessions s) |} | None => s end).
Definition with_store (f : Prog Store unit) : P unit := update (fun s => match i_store s with Some st => {| s with i_store := Some (f st).1 |} | None => s end).

Definition ensure_listening : P unit :=
  do s <- self;
  match i_store s with
  | Some st => when (i_listener s =? 0) (match add_listener st with (st', Ok id) => update (fun s => {| s with i_store := Some st'; i_listener := id |}) | (st', Throw e) => throw e end)
  | None => ret tt
  end.
Definition session_attached (sid : string) : P unit :=
  ensure_listening ;; update (fun s => {| s with i_sessions := sm_set sid {| sub := None; in_flight := []; held := [] |} (i_sessions s) |}).
Definition session_detached (sid : string) : P unit := update (fun s => {| s with i_sessions := sm_erase sid (i_sessions s) |}).
Definition shutdown : P unit :=
  do s <- self;
  when (negb (i_listener s =? 0)) (with_store (remove_listener (i_listener s))) ;;
  update (fun s => {| s with i_listener := 0; i_sessions := [] |}).

Fixpoint forms_of (l : list json) : result (list string) :=
  match l with
  | [] => Ok []
  | f :: l' =>
    let s := default ""%string (get_str f) in
    if one_of s ["txt"; "json"; "dot"] then let* r := forms_of l' in Ok (s :: r) else Throw (FjarrError payload_invalid ("unknown form: " +:+ s))
  end.
Definition parse_forms (p : json) : result (list string) :=
  if negb (contains p "forms") then Ok ["txt"; "json"; "dot"]
  else match at_key p "forms" with JArr l => forms_of l | _ => Throw (FjarrError payload_invalid "forms must be an array of txt|json|dot") end.

(** One form as a blob; the transfer is known by its number. *)
Definition send_form (sid id form body : string) : P BlobRef :=
  do s <- self;
  let n := i_next s in
  with_session sid (fun a => {| a with in_flight := sm_set id (default 0 (sm_find id (in_flight a)) + 1) (in_flight a) |}) ;;
  do h <- history;
  ctx sid (CSendBlob (bytes_of body) (media_type form) (Some n)) ;;
  update (fun s => {| s with transfers := transfers s ++ [(n, (sid, id))]; i_next := S n |}) ;;
  ret {| ref_id := blob_name h; ref_len := zlen (bytes_of body); ref_type := media_type form |}.
Definition add_form (sid id form body : string) (fs : list string) (payload : json) : P json :=
  if one_of form fs && negb (String.eqb body "") then do ref <- send_form sid id form body; ret (jset form (Blob.to_json ref) payload) else ret payload.
Definition snapshot_payload (sid : string) (x : Snapshot) (fs : list string) (id : string) : P json :=
  let p := meta_json (meta x) in
  let p := if one_of "txt" fs then jset "txt" (JStr (txt x)) p else p in
  do p <- add_form sid id "json" (json_text x) fs p; add_form sid id "dot" (dot x) fs p.
Definition deliver (sid : string) (x : Snapshot) : P unit :=
  do s <- self;
  match sm_find sid (i_sessions s) with
  | None => ret tt
  | Some a =>
    match sub a with
    | None => ret tt
    | Some su =>
      let id := pipeline_id (meta x) in
      dev sid (IOffered x) ;;
      if sm_count id (in_flight a) then
        update (fun s => if sm_count id (held a) then {| s with coalesced := u64 (coalesced s + 1) |} else s) ;;
        with_session sid (fun a => {| a with held := sm_set id x (held a) |})
      else swallow (do p <- snapshot_payload sid x (forms su) id; ctx sid (CEvent "snapshot" p) ;; dev sid (IShown x))
    end
  end.
(** A blob's report. *)
Definition on_done (n : nat) (ok : bool) : P unit :=
  do s <- self;
  match List.find (fun t => Nat.eqb t.1 n) (transfers s) with
  | None => ret tt
  | Some (_, (sid, id)) =>
    update (fun s => {| s with transfers := List.filter (fun t => negb (Nat.eqb t.1 n)) (transfers s) |}) ;;
    match sm_find sid (i_sessions s) with
    | None => ret tt
    | Some a =>
      let left := default 0 (sm_find id (in_flight a)) - 1 in
      if 0 <? left then with_session sid (fun a => {| a with in_flight := sm_set id left (in_flight a) |})
      else
        with_session sid (fun a => {| a with in_flight := sm_erase id (in_flight a) |}) ;;
        match sm_find id (held a) with
        | None => ret tt
        | Some next => with_session sid (fun a => {| a with held := sm_erase id (held a) |}) ;; when ok (deliver sid next)
        end
    end
  end.
Definition on_snapshot (x : Snapshot) : P unit :=
  do s <- self;
  match i_store s with
  | None => ret tt
  | Some st =>
    match s_at (pipeline_id (meta x)) (seq (meta x)) st with
    | None => ret tt
    | Some latest =>
      for_each (List.filter (fun ka => match sub ka.2 with Some su => sub_matches su (pipeline_id (meta x)) | None => false end) (i_sessions s)) (fun ka => deliver ka.1 latest)
    end
  end.

(** ** Requests *)
Definition pipelines_json (st : Store) : json := JArr (map meta_json (s_list st)).
Definition unknown_pipeline (id : string) : exn := FjarrError payload_invalid ("unknown pipeline: " +:+ id).
(** [value(k, 0u)]: any number, and a boolean. *)
Definition value_uint (j : json) (k : string) : result Z := match jfind k j with Some (JBool b) => Ok (if b then 1 else 0) | _ => let* z := value_u64 j k 0 in Ok (u32 z) end.
Definition on_subscribe (sid : string) (msg : Envelope) (st : Store) : P unit :=
  let p := e_payload msg in
  do fs <- lift (parse_forms p);
  let f := match at_key p "pipeline_id" with JStr s => if String.eqb s "" then "*"%string else s | _ => "*"%string end in
  let su := {| filter_ := f; forms := fs |} in
  with_session sid (fun a => {| a with sub := Some su; held := [] |}) ;; dev sid IBegun ;;
  ctx sid (CResult msg (jobj [("ok", JBool true); ("pipelines", pipelines_json st)])) ;;
  do replay <- lift (value_bool p "replay" true);
  when replay (for_each (List.filter (fun m => sub_matches su (pipeline_id m)) (s_list st)) (fun m => match s_latest (pipeline_id m) st with Some x => deliver sid x | None => ret tt end)).
Definition on_history (sid : string) (msg : Envelope) (st : Store) : P unit :=
  let p := e_payload msg in
  do id <- lift (value_str p "pipeline_id" "");
  do from <- lift (value_uint p "seq_from");
  let l := List.filter (fun m => from <=? seq m) (s_history id st) in
  if bool_decide (l = []) && match s_latest id st with None => true | Some _ => false end then throw (unknown_pipeline id)
  else ctx sid (CResult msg (jobj [("ok", JBool true); ("snapshots", JArr (map meta_json l))])).
Definition on_snapshot_request (sid : string) (msg : Envelope) (st : Store) : P unit :=
  let p := e_payload msg in
  do id <- lift (value_str p "pipeline_id" "");
  do x <- (if contains p "seq" then do n <- lift (value_uint p "seq"); ret (s_at id n st) else ret (s_latest id st));
  match x with
  | None => do n <- lift (value_uint p "seq"); throw (FjarrError payload_invalid ("no such snapshot: " +:+ id +:+ "@" +:+ pretty n))
  | Some x =>
    do fs <- lift (parse_forms p);
    do payload <- snapshot_payload sid x fs id;
    ctx sid (CResult msg (jobj [("ok", JBool true); ("snapshot", payload)]))
  end.
Definition on_message (sid : string) (msg : Envelope) (stats : option (result json)) : P unit :=
  if negb (String.eqb (Protocol.kind msg) "request") then ret tt
  else
    do s <- self;
    match i_store s with
    | None => throw (FjarrError internal "introspection is disabled on this agent")
    | Some st =>
      if negb (sm_count sid (i_sessions s)) then throw (FjarrError internal "session not attached")
      else if String.eqb (type_ msg) "pipelines/list" then ctx sid (CResult msg (jobj [("ok", JBool true); ("pipelines", pipelines_json st)]))
      else if String.eqb (type_ msg) "pipelines/subscribe" then on_subscribe sid msg st
      else if String.eqb (type_ msg) "pipelines/unsubscribe" then
        with_session sid (fun a => {| a with sub := None; held := [] |}) ;; ctx sid (CResult msg (jobj [("ok", JBool true)]))
      else if String.eqb (type_ msg) "pipelines/history" then on_history sid msg st
      else if String.eqb (type_ msg) "pipelines/snapshot" then on_snapshot_request sid msg st
      else if String.eqb (type_ msg) "stats" then do j <- lift (provided stats); ctx sid (CResult msg (jobj [("ok", JBool true); ("stats", j)]))
      else throw (FjarrError payload_invalid ("unknown fjarr.introspect request: " +:+ type_ msg))
    end.
(** The recorder takes a step, and tells its listener what it took. *)
Definition on_record (i : SnIn) : P unit :=
  do s <- self;
  match i_store s with
  | None => ret tt
  | Some st =>
    let st' := (sn_step i st).1 in
    update (fun s => {| s with i_store := Some st' |}) ;;
    when (negb (i_listener s =? 0)) (for_each (told (i_listener s) (drop (length (sn_log st)) (sn_log st'))) on_snapshot)
  end.
Inductive IOp := IAttach (sid : string) | IDetach (sid : string) | IMessage (sid : string) (msg : Envelope) (stats : option (result json)) | IRecord (i : SnIn) | IDone (n : nat) (ok : bool) | IShutdown.
Definition introspect_op (o : IOp) : P unit :=
  match o with
  | IAttach sid => session_attached sid
  | IDetach sid => session_detached sid
  | IMessage sid msg stats => on_message sid msg stats
  | IRecord i => on_record i
  | IDone n ok => on_done n ok
  | IShutdown => shutdown
  end.
End Handlers.
Definition introspect_step `{W : Walker} (k : ICap) (t : CtxEnv ICall * IOp) : ICap := (@introspect_op W t.1 t.2 k).1.
Definition introspect_run `{W : Walker} (ts : list (CtxEnv ICall * IOp)) (k : ICap) : ICap := foldl introspect_step k ts.

(** ** The books *)
Definition get_a (sid : string) (k : ICap) : option Attached := sm_find sid (i_sessions (st k)).
Definition for_pair (sid id : string) (t : nat * (string * string)) : bool := String.eqb t.2.1 sid && String.eqb t.2.2 id.
(** The blobs of a pipeline under way to a session. *)
Definition under_way (sid id : string) (k : ICap) : Z := zlen (List.filter (for_pair sid id) (transfers (st k))).
Definition flights (a : Attached) (id : string) (n : Z) : Prop := match sm_find id (in_flight a) with Some m => m = n /\ 0 < n | None => n = 0 end.
Record booked (used : list string) (k : ICap) : Prop := {
  bo_nodup : NoDup (map fst (transfers (st k)));
  bo_next t : In t (transfers (st k)) -> (t.1 < i_next (st k))%nat;
  bo_used t : In t (transfers (st k)) -> In t.2.1 used;
  bo_known sid a : get_a sid k = Some a -> In sid used;
  bo_flights sid a id : get_a sid k = Some a -> flights a id (under_way sid id k)
}.
(** The newest snapshot of a pipeline offered to a session's subscription, and the one shown last. *)
Definition offered_step (sid id : string) (o : option Snapshot) (e : IOut) : option Snapshot :=
  match e with
  | ODev s IBegun => if String.eqb s sid then None else o
  | ODev s (IOffered x) => if String.eqb s sid && String.eqb (pipeline_id (meta x)) id then Some x else o
  | _ => o
  end.
Definition offered (sid id : string) (h : list IOut) : option Snapshot := foldl (offered_step sid id) None h.
Definition shown_step (sid id : string) (o : option Snapshot) (e : IOut) : option Snapshot :=
  match e with ODev s (IShown x) => if String.eqb s sid && String.eqb (pipeline_id (meta x)) id then Some x else o | _ => o end.
Definition shown (sid id : string) (h : list IOut) : option Snapshot := foldl (shown_step sid id) None h.
(** What waits is the newest, with a blob under way; what does not wait was shown. *)
Definition current (a : Attached) (sid id : string) (h : list IOut) : Prop :=
  match sm_find id (held a) with Some x => offered sid id h = Some x /\ sm_count id (in_flight a) = true | None => forall x, offered sid id h = Some x -> shown sid id h = Some x end.
Definition all_current (k : ICap) : Prop := forall sid a id, get_a sid k = Some a -> sub a <> None -> current a sid id (out k).
Definition inv (used : list string) (k : ICap) : Prop := booked used k /\ all_current k.

Lemma offered_app sid id h l : offered sid id (h ++ l) = foldl (offered_step sid id) (offered sid id h) l.
Proof. apply foldl_app. Qed.
Lemma shown_app sid id h l : shown sid id (h ++ l) = foldl (shown_step sid id) (shown sid id h) l.
Proof. apply foldl_app. Qed.
Lemma get_set sid sid' a (s : list (string * Attached)) : sm_find sid' (sm_set sid a s) = if decide (sid' = sid) then Some a else sm_find sid' s.
Proof. destruct (decide (sid' = sid)) as [->|Hn]; [apply sm_find_set_eq | by apply sm_find_set_ne]. Qed.

Section Calm.
Context `{W : Walker} `{E : CtxEnv ICall}.
(** The session takes what it is given. *)
Definition calm : Prop := forall h sid c, ctx_throws h sid c = None.
Hypothesis Hcalm : calm.
#[local] Abbreviation P := (Prog ICap).
Lemma ctx_calm sid c (k : ICap) : ctx sid c k = ({| k with out := out k ++ [OCtx sid c] |}, Ok tt).
Proof. unfold ctx, bind. cbn. by rewrite Hcalm. Qed.
(** A call of the context is in no account. *)
Lemma inv_ctx used k sid c : inv used k -> inv used {| k with out := out k ++ [OCtx sid c] |}.
Proof.
  intros [[H1 H2 H3 H4 H5] HC]. split; [by split|]. intros s a id Ha Hs. specialize (HC s a id Ha Hs). unfold current in *. cbn [out]. by rewrite offered_app, shown_app.
Qed.
(** What sending a form does: one more blob under way, and one more in the session's count. *)
Definition sent_form (sid id : string) (a : Attached) (c : CtxCall) (k : ICap) : ICap :=
  {| st := {| (st k) with i_sessions := sm_set sid {| a with in_flight := sm_set id (default 0 (sm_find id (in_flight a)) + 1) (in_flight a) |} (i_sessions (st k));
                          transfers := transfers (st k) ++ [(i_next (st k), (sid, id))]; i_next := S (i_next (st k)) |}; out := out k ++ [OCtx sid c] |}.
Lemma send_form_spec sid id form body a (k : ICap) : get_a sid k = Some a -> exists r, send_form sid id form body k = (sent_form sid id a (CSendBlob (bytes_of body) (media_type form) (Some (i_next (st k)))) k, Ok r).
Proof.
  intros Ha. unfold send_form, with_session, update. erewrite bind_ok by reflexivity. erewrite bind_ok by reflexivity. unfold get_a in Ha. rewrite Ha. erewrite bind_ok by reflexivity. erewrite bind_ok by apply ctx_calm. eexists. reflexivity.
Qed.
Lemma under_way_snoc sid id k n p : zlen (List.filter (for_pair sid id) (transfers (st k) ++ [(n, p)])) = under_way sid id k + if String.eqb p.1 sid && String.eqb p.2 id then 1 else 0.
Proof. unfold under_way. rewrite List.filter_app, zlen_app. cbn [List.filter]. unfold for_pair at 2. cbn [snd]. by destruct (_ && _). Qed.
Lemma sent_booked used sid id a c k : booked used k -> get_a sid k = Some a -> booked used (sent_form sid id a c k).
Proof.
  intros [H1 H2 H3 H4 H5] Ha. split; cbn [sent_form st transfers i_next i_sessions].
  - rewrite map_app. apply NoDup_app. split_and!; [done | | apply NoDup_singleton]. intros n (t & <- & Ht)%list_elem_of_In%in_map_iff Hn%list_elem_of_singleton. specialize (H2 t Ht). cbn in Hn. lia.
  - intros t [Ht|[<-|[]]]%in_app_iff; [specialize (H2 t Ht); lia | cbn; lia].
  - intros t [Ht|[<-|[]]]%in_app_iff; [by apply H3 | cbn; by eapply H4].
  - intros s b. unfold get_a. cbn. rewrite get_set. case_decide as Hs; [subst s; intros _; by eapply H4 | apply H4].
  - intros s b i. unfold get_a. cbn [st i_sessions sent_form]. rewrite get_set. unfold under_way at 1. cbn [st transfers sent_form]. rewrite under_way_snoc. cbn [fst snd]. case_decide as Hs.
    + subst s. intros [= <-]. rewrite String.eqb_refl. cbn [andb]. specialize (H5 sid a i Ha). unfold flights in *. cbn [in_flight]. destruct (String.eqb_spec id i) as [<-|Hi].
      * rewrite sm_find_set_eq. pose proof (zlen_nonneg (List.filter (for_pair sid id) (transfers (st k)))) as Hz. fold (under_way sid id k) in Hz. destruct (sm_find id (in_flight a)); cbn; lia.
      * rewrite sm_find_set_ne by done. by rewrite Z.add_0_r.
    + intros Hb. specialize (H5 s b i Hb). apply not_eq_sym in Hs. apply String.eqb_neq in Hs. rewrite Hs. cbn [andb]. by rewrite Z.add_0_r.
Qed.
(** Blobs are added, and nothing else of the sessions changes. *)
Definition is_ctx (o : IOut) : Prop := match o with OCtx _ _ => True | ODev _ _ => False end.
Definition more (a a' : Attached) : Prop := sub a' = sub a /\ held a' = held a /\ forall id, sm_count id (in_flight a) = true -> sm_count id (in_flight a') = true.
Record grows (used : list string) (k k' : ICap) : Prop := {
  gr_booked : booked used k -> booked used k';
  gr_get sid a' : get_a sid k' = Some a' -> exists a, get_a sid k = Some a /\ more a a';
  gr_back sid a : get_a sid k = Some a -> exists a', get_a sid k' = Some a' /\ more a a';
  gr_out : exists l, out k' = out k ++ l /\ Forall is_ctx l
}.
#[local] Instance grows_preorder used : PreOrder (grows used).
Proof.
  split.
  - intros k. split; [done | intros s a Ha; exists a; done.. | exists []; by rewrite app_nil_r].
  - intros x y z [A1 A2 A3 (l & A4 & A5)] [B1 B2 B3 (m & B4 & B5)]. split; [auto | | | exists (l ++ m); rewrite B4, A4, app_assoc; split; [done | by apply Forall_app]].
    + intros s c Hc. destruct (B2 s c Hc) as (b & Hb & M1 & M2 & M3). destruct (A2 s b Hb) as (a & Ha & N1 & N2 & N3). exists a. split; [done|]. split_and!; [congruence | congruence | auto].
    + intros s a Ha. destruct (A3 s a Ha) as (b & Hb & N1 & N2 & N3). destruct (B3 s b Hb) as (c & Hc & M1 & M2 & M3). exists c. split; [done|]. split_and!; [congruence | congruence | auto].
Qed.
Lemma ctx_only sid id h l : Forall is_ctx l -> offered sid id (h ++ l) = offered sid id h /\ shown sid id (h ++ l) = shown sid id h.
Proof.
  rewrite offered_app, shown_app. intros Hl. revert Hl. generalize (offered sid id h) (shown sid id h). induction l as [|e l IH]; intros o p Hl; [done|]. apply Forall_cons in Hl as [He Hl]. destruct e; [|done]. by apply IH.
Qed.
Lemma grows_current used k k' sid id : grows used k k' -> (forall a, get_a sid k = Some a -> sub a <> None -> current a sid id (out k)) -> forall a', get_a sid k' = Some a' -> sub a' <> None -> current a' sid id (out k').
Proof.
  intros [_ G2 _ (l & G4 & G5)] HC a' Ha' Hs. destruct (G2 _ _ Ha') as (a & Ha & M1 & M2 & M3). specialize (HC a Ha ltac:(congruence)). unfold current in *. destruct (ctx_only sid id (out k) l G5) as [E1 E2]. rewrite M2, G4, E1, E2. destruct (sm_find id (held a)); [|done]. destruct HC. auto.
Qed.
Lemma grows_inv used k k' : grows used k k' -> inv used k -> inv used k'.
Proof. intros G [HB HC]. split; [by apply (gr_booked _ _ _ G)|]. intros s a id Ha Hs. eapply grows_current; [exact G | | exact Ha | exact Hs]. intros b Hb Hs'. by apply HC. Qed.
Lemma ctx_grows used sid c : respects (grows used) (ctx sid c).
Proof.
  intros k. rewrite ctx_calm. split; cbn [fst].
  - intros [H1 H2 H3 H4 H5]. by split.
  - intros s a Ha. exists a. done.
  - intros s a Ha. exists a. done.
  - exists [OCtx sid c]. split; [done | by repeat constructor].
Qed.
Lemma send_form_grows used sid id form body : In sid used -> respects (grows used) (send_form sid id form body).
Proof.
  intros Hu k. destruct (get_a sid k) as [a|] eqn:Ha.
  - destruct (send_form_spec sid id form body a k Ha) as (r & ->). cbn [fst]. set (c := CSendBlob _ _ _). set (a1 := {| a with in_flight := sm_set id (default 0 (sm_find id (in_flight a)) + 1) (in_flight a) |}).
    assert (more a a1) as Hm. { split_and!; [done | done|]. intros i. unfold sm_count. cbn [in_flight a1]. destruct (decide (i = id)) as [->|Hi]; [by rewrite sm_find_set_eq | by rewrite sm_find_set_ne]. }
    split; [intros HB; by apply sent_booked | | | exists [OCtx sid c]; split; [done | by repeat constructor]].
    + intros s b. unfold get_a. cbn [st i_sessions sent_form]. rewrite get_set. case_decide as Hs; [subst s; intros [= <-]; by exists a | intros Hb; by exists b].
    + intros s b Hb. unfold get_a. cbn [st i_sessions sent_form]. rewrite get_set. case_decide as Hs; [subst s; exists a1; replace b with a by congruence; done | by exists b].
  - unfold send_form, with_session, update. erewrite bind_ok by reflexivity. erewrite bind_ok by reflexivity. unfold get_a in Ha. rewrite Ha. erewrite bind_ok by reflexivity. erewrite bind_ok by apply ctx_calm. cbn [bind modify fst ret st]. split; cbn [st transfers i_next i_sessions].
    + intros [H1 H2 H3 H4 H5]. split; cbn [st transfers i_next i_sessions].
      * rewrite map_app. apply NoDup_app. split_and!; [done | | apply NoDup_singleton]. intros n (t & <- & Ht)%list_elem_of_In%in_map_iff Hn%list_elem_of_singleton. specialize (H2 t Ht). cbn in Hn. lia.
      * intros t [Ht|[<-|[]]]%in_app_iff; [specialize (H2 t Ht); lia | cbn; lia].
      * intros t [Ht|[<-|[]]]%in_app_iff; [by apply H3 | done].
      * done.
      * intros s b i Hb. specialize (H5 s b i Hb). unfold under_way at 1. cbn [st transfers]. rewrite under_way_snoc. cbn [fst snd]. destruct (String.eqb_spec sid s) as [<-|]; [unfold get_a in Hb; cbn [st i_sessions] in Hb; congruence|]. cbn [andb]. by rewrite Z.add_0_r.
    + intros s b Hb. by exists b.
    + intros s b Hb. by exists b.
    + eexists [_]. split; [reflexivity | by repeat constructor].
Qed.
Lemma form_grows used sid id form body fs p : In sid used -> respects (grows used) (add_form sid id form body fs p).
Proof. intros Hu. unfold add_form. destruct (_ && _); [|respects_step]. respects_step; [by apply send_form_grows | respects_step]. Qed.
Lemma payload_grows used sid x fs id : In sid used -> respects (grows used) (snapshot_payload sid x fs id).
Proof. intros Hu. unfold snapshot_payload. respects_step; by apply form_grows. Qed.
Lemma ctx_normal sid c : normal (@ctx IState ICall E sid c).
Proof. intros k. rewrite ctx_calm. by eexists _, _. Qed.
Lemma form_normal sid id form body fs p : normal (add_form sid id form body fs p).
Proof.
  unfold add_form, send_form, with_session. repeat first [apply ctx_normal | normal_step | intros k; eexists _, _; reflexivity].
Qed.
Lemma payload_normal sid x fs id : normal (snapshot_payload sid x fs id).
Proof. unfold snapshot_payload. apply normal_bind; [apply form_normal|]. intros p. apply form_normal. Qed.
(** Steps that leave the blobs and the counts alone. *)
Lemma booked_same used k k' : transfers (st k') = transfers (st k) -> i_next (st k') = i_next (st k) ->
  (forall s a', get_a s k' = Some a' -> exists a, get_a s k = Some a /\ in_flight a' = in_flight a) -> booked used k -> booked used k'.
Proof.
  intros E1 E2 Hg [H1 H2 H3 H4 H5]. split; rewrite ?E1, ?E2; [done.. | |].
  - intros s a' Ha. destruct (Hg _ _ Ha) as (a & Ha' & _). by eapply H4.
  - intros s a' id Ha. destruct (Hg _ _ Ha) as (a & Ha' & Ef). unfold flights, under_way. rewrite Ef, E1. by apply H5.
Qed.
Definition upd_session (sid : string) (f : Attached -> Attached) (k : ICap) : ICap :=
  {| k with st := match sm_find sid (i_sessions (st k)) with Some a => {| (st k) with i_sessions := sm_set sid (f a) (i_sessions (st k)) |} | None => st k end |}.
Lemma with_session_spec sid f (k : ICap) : with_session sid f k = (upd_session sid f k, Ok tt).
Proof. done. Qed.
Lemma upd_get sid f k s : get_a s (upd_session sid f k) = if decide (s = sid) then f <$> get_a sid k else get_a s k.
Proof.
  unfold upd_session, get_a. destruct (sm_find sid (i_sessions (st k))) as [a|] eqn:Ea; cbn [st i_sessions]; [rewrite get_set|]; case_decide as Hs; try done. subst s. by rewrite Ea.
Qed.
Lemma upd_rest sid f k : transfers (st (upd_session sid f k)) = transfers (st k) /\ i_next (st (upd_session sid f k)) = i_next (st k) /\ out (upd_session sid f k) = out k.
Proof. unfold upd_session. by destruct (sm_find sid (i_sessions (st k))). Qed.
Lemma upd_booked used sid f k : (forall a, in_flight (f a) = in_flight a) -> booked used k -> booked used (upd_session sid f k).
Proof.
  intros Hf. destruct (upd_rest sid f k) as (E1 & E2 & _). apply booked_same; [done | done|]. intros s a'. rewrite upd_get. case_decide as Hs; [subst s|by exists a']. destruct (get_a sid k) as [a|]; [|done]. cbn. intros [= <-]. by exists a.
Qed.
(** Marks only concern their own session and pipeline. *)
Lemma offered_other sid id s x h : ~ (s = sid /\ pipeline_id (meta x) = id) -> offered sid id (h ++ [ODev s (IOffered x)]) = offered sid id h /\ shown sid id (h ++ [ODev s (IOffered x)]) = shown sid id h.
Proof. intros Hn. rewrite offered_app, shown_app. cbn. destruct (String.eqb_spec s sid), (String.eqb_spec (pipeline_id (meta x)) id); naive_solver. Qed.
Lemma shown_other sid id s x h : ~ (s = sid /\ pipeline_id (meta x) = id) -> shown sid id (h ++ [ODev s (IShown x)]) = shown sid id h.
Proof. intros Hn. rewrite shown_app. cbn. destruct (String.eqb_spec s sid), (String.eqb_spec (pipeline_id (meta x)) id); naive_solver. Qed.
Lemma current_ext a a' s id h h' : sm_find id (held a') = sm_find id (held a) -> sm_find id (in_flight a') = sm_find id (in_flight a) -> offered s id h' = offered s id h -> shown s id h' = shown s id h -> current a s id h -> current a' s id h'.
Proof. intros E1 E2 E3 E4. unfold current, sm_count. by rewrite E1, E2, E3, E4. Qed.
(** A delivery restores the pair it is for. *)
Lemma ic_deliver_inv used sid x k : let id := pipeline_id (meta x) in booked used k ->
  (forall s a i, get_a s k = Some a -> sub a <> None -> ~ (s = sid /\ i = id) -> current a s i (out k)) ->
  (forall a, get_a sid k = Some a -> sub a <> None -> sm_find id (held a) <> None -> sm_count id (in_flight a) = true) -> inv used (deliver sid x k).1.
Proof.
  intros id HB HC Hh. unfold deliver. erewrite bind_ok by reflexivity. change (sm_find sid (i_sessions (st k))) with (get_a sid k).
  assert (forall a, get_a sid k = Some a -> sub a = None -> inv used k) as Hidle. { intros a Ha Hs. split; [done|]. intros s b i Hb Hsb. apply HC; [done | done|]. intros [-> _]. congruence. }
  destruct (get_a sid k) as [a|] eqn:Ha; [|split; [done|]; intros s b i Hb Hsb; change (get_a s k = Some b) in Hb; apply HC; [done | done|]; intros [-> _]; congruence]. destruct (sub a) as [su|] eqn:Esu; [|by apply (Hidle a)]. fold id. unfold dev, put. erewrite bind_ok by reflexivity. set (k1 := {| k with out := out k ++ [ODev sid (IOffered x)] |}).
  assert (forall s b i, get_a s k1 = Some b -> sub b <> None -> ~ (s = sid /\ i = id) -> current b s i (out k1)) as HC1.
  { intros s b i Hb Hs Hn. destruct (offered_other s i sid x (out k)) as [E1 E2]; [naive_solver|]. by apply (current_ext b b s i (out k)); try done; apply HC. }
  assert (offered sid id (out k1) = Some x) as Ho by (cbn [out k1]; rewrite offered_app; cbn; by rewrite !String.eqb_refl).
  assert (booked used k1) as HB1 by (destruct HB; by split). assert (get_a sid k1 = Some a) as Ha1 by done. clearbody k1. destruct (sm_count id (in_flight a)) eqn:Ef.
  - unfold update, bind, modify. rewrite with_session_spec. cbn [fst]. set (k2 := {| k1 with st := _ |}). assert (forall s, get_a s k2 = get_a s k1) as Eg by (intros s; unfold get_a, k2; cbn [st]; by destruct (sm_count id (held a))).
    assert (booked used k2) as HB2 by (revert HB1; apply booked_same; [unfold k2; cbn [st]; by destruct (sm_count id (held a)).. | intros s b; rewrite Eg; intros; by exists b]). split; [by apply upd_booked|].
    intros s b i Hb Hs. destruct (upd_rest sid (fun a => {| a with held := sm_set id x (held a) |}) k2) as (_ & _ & ->). cbn [out k2]. rewrite upd_get, !Eg in Hb. case_decide as Hs'; [subst s|apply HC1; [done | done | naive_solver]].
    rewrite Ha1 in Hb. cbn in Hb. injection Hb as <-. destruct (decide (i = id)) as [->|Hi].
    + unfold current. cbn [held in_flight]. by rewrite sm_find_set_eq.
    + apply (current_ext a _ sid i (out k1)); [cbn [held]; by rewrite sm_find_set_ne | done.. |]. apply HC1; [done | by rewrite Esu | naive_solver].
  - unfold swallow, catch. destruct (payload_normal sid x (forms su) id k1) as (k2 & p & E2). rewrite (bind_ok _ _ _ _ _ E2). rewrite (bind_ok _ _ _ _ _ (ctx_calm sid _ k2)). cbn [modify fst]. set (k3 := {| k2 with out := _ |}).
    assert (grows used k1 k3) as G. { etrans; [pose proof (payload_grows used sid x (forms su) id (bo_known _ _ HB1 _ _ Ha1) k1) as G; rewrite E2 in G; exact G|]. pose proof (ctx_grows used sid (CEvent "snapshot" p) k2) as G. by rewrite ctx_calm in G. }
    clearbody k3. clear E2 k2 p. split; [destruct (gr_booked _ _ _ G HB1); by split|]. intros s b i Hb Hs. cbn [out]. change (get_a s k3 = Some b) in Hb. destruct (decide (s = sid /\ i = id)) as [[-> ->]|Hn].
    + destruct (gr_get _ _ _ G _ _ Hb) as (b0 & Hb0 & M1 & M2 & M3). replace b0 with a in * by congruence. destruct (gr_out _ _ _ G) as (l & El & Hl). unfold current. rewrite M2. destruct (sm_find id (held a)) as [y|] eqn:Ey; [exfalso; specialize (Hh a eq_refl ltac:(congruence) ltac:(congruence)); congruence|].
      intros y Hy. rewrite shown_app. cbn. rewrite !String.eqb_refl. cbn. rewrite <- Ho, <- Hy, offered_app, El. cbn. by destruct (ctx_only sid id (out k1) l Hl) as [-> _].
    + apply (current_ext b b s i (out k3)); [done | done | by rewrite offered_app | by apply shown_other; naive_solver|]. eapply grows_current; [exact G | | exact Hb | exact Hs]. intros c Hc Hsc. by apply HC1.
Qed.
#[local] Abbreviation keeps_inv used := (fun k k' => inv used k -> inv used k').
#[local] Instance keeps_inv_preorder used : PreOrder (keeps_inv used).
Proof. split; [by intros k | intros a b c Hab Hbc Ha; auto]. Qed.
Lemma deliver_keeps used sid x : respects (keeps_inv used) (deliver sid x).
Proof.
  intros k [HB HC]. apply ic_deliver_inv; [done | by intros; apply HC|]. intros a Ha Hs Hh. specialize (HC sid a (pipeline_id (meta x)) Ha Hs). unfold current in HC. destruct (sm_find _ (held a)); [by destruct HC | done].
Qed.
Lemma snapshot_keeps used x : respects (keeps_inv used) (on_snapshot x).
Proof. unfold on_snapshot. repeat first [apply deliver_keeps | by intros k Hk | respects_step]. Qed.
Lemma store_keeps used (f : IState -> IState) : (forall s, i_sessions (f s) = i_sessions s /\ transfers (f s) = transfers s /\ i_next (f s) = i_next s) -> respects (keeps_inv used) (update f).
Proof.
  intros Hf k [HB HC]. unfold update, modify. cbn [fst]. destruct (Hf (st k)) as (E1 & E2 & E3). assert (forall s, get_a s {| k with st := f (st k) |} = get_a s k) as Eg by (intros s; unfold get_a; cbn [st]; by rewrite E1).
  split; [revert HB; apply booked_same; [done | done | intros s a; rewrite Eg; intros; by exists a]|]. intros s a id. rewrite Eg. apply HC.
Qed.
Lemma record_keeps used i : respects (keeps_inv used) (on_record i).
Proof. unfold on_record. repeat first [apply snapshot_keeps | apply store_keeps; done | by intros k Hk | respects_step]. Qed.
Lemma ctx_keeps used sid c : respects (keeps_inv used) (ctx sid c).
Proof. intros k. apply grows_inv, ctx_grows. Qed.
Lemma payload_keeps used sid x fs id : In sid used -> respects (keeps_inv used) (snapshot_payload sid x fs id).
Proof. intros Hu k. by apply grows_inv, payload_grows. Qed.
(** A subscription starts with nothing offered. *)
Lemma begin_keeps used sid su : respects (keeps_inv used) (with_session sid (fun a => {| a with sub := Some su; held := [] |}) ;; dev sid IBegun).
Proof.
  intros k [HB HC]. erewrite bind_ok by apply with_session_spec. unfold dev, put, modify. cbn [fst]. set (f := fun a : Attached => _). assert (booked used (upd_session sid f k)) as HB' by by apply upd_booked. split; [destruct HB'; by split|].
  intros s a id Ha Hs. change (get_a s (upd_session sid f k) = Some a) in Ha. cbn [out]. destruct (upd_rest sid f k) as (_ & _ & ->). rewrite upd_get in Ha. case_decide as Hs'.
  - subst s. destruct (get_a sid k) as [b|]; [|done]. cbn in Ha. injection Ha as <-. unfold current. cbn [held f sm_find]. rewrite offered_app. cbn. rewrite String.eqb_refl. done.
  - apply (current_ext a a s id (out k)); [done | done | rewrite offered_app; cbn; by destruct (String.eqb_spec sid s); [congruence|] | by rewrite shown_app | by apply HC].
Qed.
Lemma end_keeps used sid : respects (keeps_inv used) (with_session sid (fun a => {| a with sub := None; held := [] |})).
Proof.
  intros k [HB HC]. rewrite with_session_spec. cbn [fst]. split; [by apply upd_booked|]. intros s a id Ha Hs. destruct (upd_rest sid (fun a => {| a with sub := None; held := [] |}) k) as (_ & _ & ->). rewrite upd_get in Ha. case_decide as Hs'; [|by apply HC]. subst s. destruct (get_a sid k); [|done]. cbn in Ha. by injection Ha as <-.
Qed.
Lemma ic_detach_keeps used sid : respects (keeps_inv used) (session_detached sid).
Proof.
  intros k [HB HC]. unfold session_detached, update, modify. cbn [fst]. assert (forall s a, get_a s {| k with st := {| (st k) with i_sessions := sm_erase sid (i_sessions (st k)) |} |} = Some a -> get_a s k = Some a) as Eg.
  { intros s a. unfold get_a. cbn [st i_sessions]. destruct (decide (s = sid)) as [->|Hn]; [by rewrite sm_find_erase_eq | by rewrite sm_find_erase_ne]. }
  split; [revert HB; apply booked_same; [done | done | intros s a Ha; exists a; split; [by apply Eg | done]]|]. intros s a id Ha. by apply HC, Eg.
Qed.
Lemma attach_inv used sid k : ~ In sid used -> inv used k -> inv (sid :: used) (session_attached sid k).1.
Proof.
  intros Hn Hk. unfold session_attached. assert (respects (keeps_inv used) ensure_listening) as Hl by (unfold ensure_listening; repeat first [apply store_keeps; done | by intros k' Hk' | respects_step]). specialize (Hl k Hk). unfold bind. destruct (ensure_listening k) as [k1 [[]|e]] eqn:El.
  2: { exfalso. unfold ensure_listening, bind in El. cbn in El. destruct (i_store (st k)); [|done]. by destruct (i_listener (st k) =? 0). }
  clear El. cbn [fst] in Hl. destruct Hl as [[H1 H2 H3 H4 H5] HC]. unfold update, modify. cbn [fst]. assert (forall s, get_a s {| k1 with st := {| (st k1) with i_sessions := sm_set sid {| sub := None; in_flight := []; held := [] |} (i_sessions (st k1)) |} |} = if decide (s = sid) then Some {| sub := None; in_flight := []; held := [] |} else get_a s k1) as Eg by (intros s; unfold get_a; cbn [st i_sessions]; apply get_set).
  split.
  - split; cbn [st transfers i_next]; [done | done | intros t Ht; right; by apply H3 | |].
    + intros s a. rewrite Eg. case_decide as Hs; [subst s; by left | intros Ha; right; by eapply H4].
    + intros s a id. rewrite Eg. case_decide as Hs; [|by apply H5]. subst s. intros [= <-]. unfold flights, under_way. cbn. assert (List.filter (for_pair sid id) (transfers (st k1)) = []) as ->; [|done]. destruct (List.filter _ _) as [|t l] eqn:Et; [done|]. exfalso. assert (In t (List.filter (for_pair sid id) (transfers (st k1)))) as Ht by (rewrite Et; by left). apply filter_In in Ht as [Ht Hp]. unfold for_pair in Hp. apply andb_prop in Hp as [Hp%String.eqb_eq _]. apply Hn. rewrite <- Hp. by apply H3.
  - intros s a id. rewrite Eg. case_decide as Hs; [intros [= <-]; done | apply HC].
Qed.
(** One blob less. *)
Lemma filter_one (l : list (nat * (string * string))) n p : NoDup (map fst l) -> List.find (fun t => Nat.eqb t.1 n) l = Some (n, p) ->
  forall sid id, zlen (List.filter (for_pair sid id) (List.filter (fun t => negb (Nat.eqb t.1 n)) l)) = zlen (List.filter (for_pair sid id) l) - if String.eqb p.1 sid && String.eqb p.2 id then 1 else 0.
Proof.
  induction l as [|[m q] l IH]; intros Hn Hf sid id; [done|]. cbn [map] in Hn. apply NoDup_cons in Hn as [Hm Hn]. cbn [List.find fst] in Hf. destruct (Nat.eqb_spec m n) as [->|Hne].
  - injection Hf as ->. cbn [List.filter fst]. rewrite Nat.eqb_refl. cbn [negb]. assert (List.filter (fun t => negb (Nat.eqb t.1 n)) l = l) as ->.
    { clear IH. induction l as [|t l IHl]; [done|]. cbn [map] in Hm. cbn [List.filter]. destruct (Nat.eqb_spec t.1 n) as [Et|]; [exfalso; apply Hm; rewrite Et; by left|]. cbn [negb]. f_equal. apply NoDup_cons in Hn as [_ Hn]. apply IHl; [intros ?; apply Hm; by right | done]. }
    unfold for_pair at 2. cbn [snd]. destruct (_ && _); [rewrite zlen_cons|]; lia.
  - cbn [List.filter fst]. rewrite (proj2 (Nat.eqb_neq m n) Hne). cbn [negb List.filter]. destruct (for_pair sid id (m, q)); rewrite ?zlen_cons, IH by done; lia.
Qed.
Lemma filter_nodup (l : list (nat * (string * string))) f : NoDup (map fst l) -> NoDup (map fst (List.filter f l)).
Proof.
  induction l as [|t l IH]; intros Hn; [done|]. cbn in *. apply NoDup_cons in Hn as [Ht Hn]. destruct (f t); [|by apply IH]. cbn. apply NoDup_cons. split; [|by apply IH]. rewrite list_elem_of_In in *. intros (x & Ex & [Hx _]%filter_In)%in_map_iff. apply Ht. rewrite <- Ex. by apply in_map.
Qed.
Lemma offered_pipeline sid id h x : offered sid id h = Some x -> pipeline_id (meta x) = id.
Proof.
  induction h as [|e h IH] using rev_ind; [done|]. rewrite offered_app. cbn. destruct e as [s c|s [|y|y]]; cbn; try done.
  - by destruct (String.eqb s sid).
  - destruct (String.eqb s sid), (String.eqb_spec (pipeline_id (meta y)) id); cbn; try done. intros [= <-]. done.
Qed.
Definition done_blob (n : nat) (k : ICap) : ICap := {| k with st := {| (st k) with transfers := List.filter (fun t => negb (Nat.eqb t.1 n)) (transfers (st k)) |} |}.
(** The books after a blob's report, with the session's count set to match. *)
Lemma done_booked used n sid id f k : booked used k -> List.find (fun t => Nat.eqb t.1 n) (transfers (st k)) = Some (n, (sid, id)) ->
  (forall a, get_a sid k = Some a -> flights (f a) id (under_way sid id k - 1) /\ forall i, i <> id -> sm_find i (in_flight (f a)) = sm_find i (in_flight a)) -> booked used (upd_session sid f (done_blob n k)).
Proof.
  intros [H1 H2 H3 H4 H5] Hf Ha. pose proof (filter_one _ _ _ H1 Hf) as Hc. destruct (upd_rest sid f (done_blob n k)) as (E1 & E2 & _). split; rewrite ?E1, ?E2; cbn [done_blob st transfers i_next].
  - by apply filter_nodup.
  - intros t [Ht _]%filter_In. by apply H2.
  - intros t [Ht _]%filter_In. by apply H3.
  - intros s a. rewrite upd_get. case_decide as Hs; [subst s; unfold fmap, option_fmap, option_map; change (get_a sid (done_blob n k)) with (get_a sid k); destruct (get_a sid k) as [b|] eqn:Eb; [intros _; by eapply H4 | done] | apply H4].
  - intros s a i. rewrite upd_get. unfold under_way. rewrite E1. cbn [done_blob st transfers]. rewrite Hc. cbn [fst snd]. fold (under_way s i k). case_decide as Hs.
    + subst s. change (get_a sid (done_blob n k)) with (get_a sid k). destruct (get_a sid k) as [b|] eqn:Eb; [|done]. cbn. intros [= <-]. rewrite String.eqb_refl. cbn [andb]. destruct (Ha b eq_refl) as [F1 F2]. destruct (String.eqb_spec id i) as [<-|Hi]; [done|]. rewrite Z.sub_0_r. unfold flights. rewrite F2 by done. by apply H5.
    + intros Hg. apply not_eq_sym in Hs. apply String.eqb_neq in Hs. rewrite Hs. cbn [andb]. rewrite Z.sub_0_r. by apply H5.
Qed.
Lemma done_inv used n ok k : (ok = false -> forall sid id, In (n, (sid, id)) (transfers (st k)) -> get_a sid k = None) -> inv used k -> inv used (on_done n ok k).1.
Proof.
  intros Hok [HB HC]. unfold on_done. erewrite bind_ok by reflexivity. destruct (List.find _ (transfers (st k))) as [[m [sid id]]|] eqn:Ef; [|done]. pose proof (find_some _ _ Ef) as [Hin Em]. cbn in Em. apply Nat.eqb_eq in Em as ->. unfold update. erewrite bind_ok by reflexivity. fold (done_blob n k).
  assert (0 < under_way sid id k) as Hpos. { unfold under_way. assert (In (n, (sid, id)) (List.filter (for_pair sid id) (transfers (st k)))) as Hx by (apply filter_In; split; [done|]; unfold for_pair; cbn; by rewrite !String.eqb_refl). destruct (List.filter _ _); [done|]. rewrite zlen_cons. pose proof (zlen_nonneg l). lia. }
  change (sm_find sid (i_sessions (st k))) with (get_a sid k). destruct (get_a sid k) as [a|] eqn:Ha.
  2: { cbn [ret fst]. assert (inv used (upd_session sid (fun a => a) (done_blob n k))) as [B C]. { split; [apply (done_booked used n sid id); [done | done | congruence]|]. intros s b i Hb Hs. destruct (upd_rest sid (fun a => a) (done_blob n k)) as (_ & _ & ->). rewrite upd_get in Hb. case_decide as Hx; [subst s; change (get_a sid (done_blob n k)) with (get_a sid k) in Hb; by rewrite Ha in Hb | by apply HC]. }
       assert (upd_session sid (fun a => a) (done_blob n k) = done_blob n k) as <-; [|done]. unfold upd_session. change (sm_find sid (i_sessions (st (done_blob n k)))) with (get_a sid k). rewrite Ha. reflexivity. }
  destruct ok; [|by specialize (Hok eq_refl sid id Hin); congruence]. pose proof (bo_flights _ _ HB sid a id Ha) as Hfl. unfold flights in Hfl. destruct (sm_find id (in_flight a)) as [c|] eqn:Ec; [|lia]. destruct Hfl as [-> _]. cbv zeta. change (default 0 (Some (under_way sid id k))) with (under_way sid id k). destruct (Z.ltb_spec 0 (under_way sid id k - 1)).
  - rewrite with_session_spec. cbn [fst]. set (f := fun a : Attached => _). split; [apply (done_booked used n sid id); [done | done|]; intros b Hb; unfold flights, f; cbn [in_flight]; rewrite sm_find_set_eq; split; [lia | intros i Hi; by rewrite sm_find_set_ne]|].
    intros s b i Hb Hs. destruct (upd_rest sid f (done_blob n k)) as (_ & _ & ->). rewrite upd_get in Hb. case_decide as Hx; [|by apply HC]. subst s. change (get_a sid (done_blob n k)) with (get_a sid k) in Hb. rewrite Ha in Hb. cbn in Hb. injection Hb as <-. specialize (HC sid a i Ha Hs). unfold current in *. cbn [held f in_flight]. destruct (sm_find i (held a)); [|done]. destruct HC as [C1 C2]. split; [done|]. unfold sm_count in *. destruct (decide (i = id)) as [->|Hi]; [by rewrite sm_find_set_eq | by rewrite sm_find_set_ne].
  - erewrite bind_ok by apply with_session_spec. set (f := fun a : Attached => {| a with in_flight := sm_erase id (in_flight a) |}). set (k1 := upd_session sid f (done_blob n k)).
    assert (booked used k1) as HB1. { apply (done_booked used n sid id); [done | done|]. intros b Hb. unfold flights, f. cbn [in_flight]. rewrite sm_find_erase_eq. split; [lia | intros i Hi; by rewrite sm_find_erase_ne]. }
    assert (get_a sid k1 = Some (f a)) as Ha1 by (unfold k1; rewrite upd_get; case_decide; [|done]; change (get_a sid (done_blob n k)) with (get_a sid k); by rewrite Ha).
    assert (forall s, s <> sid -> get_a s k1 = get_a s k) as Hoth by (intros s Hs; unfold k1; rewrite upd_get; by case_decide).
    assert (out k1 = out k) as Eo by (unfold k1; by destruct (upd_rest sid f (done_blob n k)) as (_ & _ & ->)).
    assert (forall i, i <> id -> sub a <> None -> current (f a) sid i (out k1)) as Hrest. { intros i Hi Hs. rewrite Eo. apply (current_ext a _ sid i (out k)); [done | cbn [f in_flight]; by rewrite sm_find_erase_ne | done | done | by apply HC]. }
    clearbody k1. clear Ef Hin. destruct (sm_find id (held a)) as [next|] eqn:Eh.
    + erewrite bind_ok by apply with_session_spec. cbn [when]. set (g := fun a : Attached => {| a with held := sm_erase id (held a) |}). assert (forall s, get_a s (upd_session sid g k1) = if decide (s = sid) then Some (g (f a)) else get_a s k1) as Eg by (intros s; rewrite upd_get; case_decide; [by rewrite Ha1 | done]).
      destruct (upd_rest sid g k1) as (_ & _ & Eo'). destruct (sub a) as [su|] eqn:Esu.
      * pose proof (HC sid a id Ha ltac:(congruence)) as Hcur. unfold current in Hcur. rewrite Eh in Hcur. destruct Hcur as [Hoff _]. pose proof (offered_pipeline _ _ _ _ Hoff) as Hpid. apply ic_deliver_inv; rewrite ?Hpid.
        -- by apply upd_booked.
        -- intros s b i Hb Hs Hn. rewrite Eg in Hb. rewrite Eo'. case_decide as Hx; [subst s; injection Hb as <- | rewrite Eo; apply HC; [by rewrite <- Hoth | done]].
           apply (current_ext (f a) _ sid i (out k1)); [cbn [g held]; rewrite sm_find_erase_ne by naive_solver; done | done | done | done|]. apply Hrest; [naive_solver | done].
        -- intros b Hb _ Hh. rewrite Eg in Hb. case_decide; [|done]. injection Hb as <-. cbn [g held] in Hh. by rewrite sm_find_erase_eq in Hh.
      * assert (inv used (upd_session sid g k1)) as Hi; [|by apply (deliver_keeps used sid next)]. split; [by apply upd_booked|]. intros s b i Hb Hs. rewrite Eg in Hb. rewrite Eo'. case_decide as Hx; [subst s; injection Hb as <-; cbn in Hs; congruence | rewrite Eo; apply HC; [by rewrite <- Hoth | done]].
    + cbn [ret fst]. split; [done|]. intros s b i Hb Hs. destruct (decide (s = sid)) as [->|Hx]; [|rewrite Eo; apply HC; [by rewrite <- Hoth | done]]. rewrite Ha1 in Hb. injection Hb as <-. destruct (decide (i = id)) as [->|Hi]; [|by apply Hrest]. specialize (HC sid a id Ha Hs). unfold current in *. cbn [f held]. rewrite Eh in *. by rewrite Eo.
Qed.
Lemma respects_assoc {A B C} (R : relation ICap) (m : P A) (f : A -> P B) (g : B -> P C) : respects R (bind (bind m f) g) -> respects R (bind m (fun a => bind (f a) g)).
Proof. intros H k. specialize (H k). unfold bind in *. destruct (m k) as [k1 [a|e]]; done. Qed.
Lemma subscribe_keeps used sid msg recorder : respects (keeps_inv used) (on_subscribe sid msg recorder).
Proof.
  unfold on_subscribe. respects_step; [respects_step|]. cbv zeta. apply respects_assoc. respects_step; [apply begin_keeps|]. repeat first [apply ctx_keeps | apply deliver_keeps | respects_step].
Qed.
Lemma request_keeps used sid msg recorder : In sid used -> respects (keeps_inv used) (on_snapshot_request sid msg recorder).
Proof. intros Hu. unfold on_snapshot_request. repeat first [apply ctx_keeps | by apply payload_keeps | respects_step]. Qed.
Lemma history_keeps used sid msg recorder : respects (keeps_inv used) (on_history sid msg recorder).
Proof. unfold on_history. repeat first [apply ctx_keeps | respects_step]. Qed.
Lemma message_keeps used sid msg stats : respects (keeps_inv used) (on_message sid msg stats).
Proof.
  intros k Hk. unfold on_message. destruct (negb _); [done|]. erewrite bind_ok by reflexivity. destruct (i_store (st k)) as [recorder|]; [|done]. destruct (sm_count sid (i_sessions (st k))) eqn:Ec; [|done]. cbn [negb].
  assert (In sid used) as Hu. { unfold sm_count in Ec. destruct (sm_find sid (i_sessions (st k))) as [a|] eqn:Ea; [|done]. destruct Hk as [HB _]. by eapply (bo_known _ _ HB). }
  revert k Hk Ec. match goal with |- forall k, _ -> _ -> inv used (?m k).1 => cut (respects (keeps_inv used) m); [intros Hr k Hk _; by apply Hr|] end.
  repeat first [apply ctx_keeps | apply subscribe_keeps | apply end_keeps | by apply request_keeps | apply history_keeps | respects_step].
Qed.
Lemma shutdown_keeps used : respects (keeps_inv used) shutdown.
Proof.
  unfold shutdown. respects_step; [by intros k Hk|]. respects_step; [respects_step; apply store_keeps; intros s; by destruct (i_store s)|]. intros k [[H1 H2 H3 H4 H5] HC]. split; [split; try done; by intros s b | by intros s b id].
Qed.
End Calm.

(** ** Runs *)
Definition op_used (used : list string) (o : IOp) : list string := match o with IAttach sid => sid :: used | _ => used end.
(** Sessions take what they are sent and have ids of their own, and a blob fails only after its session has left. *)
Definition op_fair (used : list string) (k : ICap) (o : IOp) : Prop :=
  match o with
  | IAttach sid => ~ In sid used
  | IDone n false => forall sid id, In (n, (sid, id)) (transfers (st k)) -> get_a sid k = None
  | _ => True
  end.
Fixpoint fair `{W : Walker} (used : list string) (ts : list (CtxEnv ICall * IOp)) (k : ICap) : Prop :=
  match ts with [] => True | t :: ts' => @calm t.1 /\ op_fair used k t.2 /\ fair (op_used used t.2) ts' (introspect_step k t) end.
Lemma ic_step_inv `{W : Walker} used k t : @calm t.1 -> op_fair used k t.2 -> inv used k -> inv (op_used used t.2) (introspect_step k t).
Proof.
  intros Hc Hf Hk. unfold introspect_step. destruct t as [E o]. cbn [fst snd] in *. destruct o as [sid|sid|sid msg stats|i|n ok|]; cbn [introspect_op op_used].
  - by apply attach_inv.
  - by apply ic_detach_keeps.
  - by apply message_keeps.
  - by apply record_keeps.
  - apply done_inv; [done | | done]. intros ->. apply Hf.
  - by apply shutdown_keeps.
Qed.
Lemma introspect_run_inv `{W : Walker} ts : forall used k, fair used ts k -> inv used k -> exists used', inv used' (introspect_run ts k).
Proof. induction ts as [|t ts IH]; intros used k Hf Hk; [by exists used|]. destruct Hf as (Hc & Ho & Hf). apply (IH (op_used used t.2)); [done | by apply ic_step_inv]. Qed.
Lemma new_inv recorder : inv [] {| st := new_introspect recorder; out := [] |}.
Proof. split; [split; try done; apply NoDup_nil_2 || constructor | by intros s a id]. Qed.

(** ** A subscriber at work *)
#[local] Instance drawing : Walker := {| bin_state := fun _ => "playing"; unix_now := fun now => now / MS; draw := fun bin m => ("{}", "digraph", "txt")%string |}.
Definition willing : CtxEnv ICall := {| ctx_throws := fun _ _ _ => None; fresh_event := fun _ => "e"%string; blob_name := fun _ => "b"%string; clock := fun _ => 0 |}.
Definition asks (t : string) (p : json) : Envelope := {| cap := "fjarr.introspect"; type_ := t; Protocol.event_id := "q"; Protocol.kind := "request"; e_payload := p |}.
Definition shot (ms : Z) (t : string) : IOp := IRecord (SnTake ((ms + 1) * MS) 7 {| pipeline_id := "session:s1"; kind := "session"; session_id := "s1"; SnapshotStore.robot_id := "r1"; generation := 0; seq := 0; ts := 0; trigger := t; state := "" |} false).
Definition watching : list (CtxEnv ICall * IOp) := map (pair willing) [IAttach "o1"; shot 0 "created"; IMessage "o1" (asks "pipelines/subscribe" (JObj [])) None; shot 300 "offer"; shot 600 "answer"; IDone 0 true].
(** When the last blob is done, what waited is shown. *)
Example waited_then_shown : let k := introspect_run (watching ++ [(willing, IDone 1 true)]) {| st := new_introspect (Some (new_store 64 "" true)); out := [] |} in
  (fun x => trigger (meta x)) <$> shown "o1" "session:s1" (out k) = Some "answer"%string /\ coalesced (st k) = 1.
Proof. by vm_compute. Qed.
(** A subscription with a [replay] that is no boolean is taken and answered, and then refused. *)
Theorem bad_replay_answered_twice : let k := introspect_run (map (pair willing) [IAttach "o1"]) {| st := new_introspect (Some (new_store 64 "" true)); out := [] |} in
  let msg := asks "pipelines/subscribe" (jobj [("replay", JStr "no")]) in let r := @on_message willing "o1" msg None k in
  r.2 = Throw type_error /\ (exists p, In (OCtx "o1" (CResult msg p)) (out r.1)) /\ (exists a, get_a "o1" r.1 = Some a /\ sub a <> None).
Proof. split_and!; [done | eexists; right; left; reflexivity | eexists; split; [vm_compute; reflexivity | done]]. Qed.
