(* ===== verification/LogRing.v ===== *)
(** * LogRing: the agent's log and its ring (core/log.cpp)

    A line goes to stderr when it is at the level or above, and into the ring when it is [Info] or above, whatever the
    level. The clocks and the text of a line in JSON form (nlohmann's [dump]) are arguments. Times are nanoseconds of the steady clock. Every function takes the lock, so they run
    one after the other.

    Then: the ring never has more than 4000 lines nor one that was ten minutes old when the last was written,
    and it loses no line that is younger unless 4000 newer ones came. *)

From Stdlib Require Import ZArith Lia Ascii String Sorted.
From stdpp Require Import base list strings.
From S2P Require Import Prelude.

Inductive Level := Trace | Debug | Info | Warn | Error.
Definition rank (l : Level) : Z := match l with Trace => 0 | Debug => 1 | Info => 2 | Warn => 3 | Error => 4 end.
Definition name_of (l : Level) : string := match l with Trace => "TRACE" | Debug => "DEBUG" | Info => "INFO" | Warn => "WARN" | Error => "ERROR" end.
Definition level_of (name : string) : option Level :=
  if String.eqb name "trace" then Some Trace else if String.eqb name "debug" then Some Debug else if String.eqb name "info" then Some Info
  else if String.eqb name "warn" then Some Warn else if String.eqb name "error" then Some Error else None.
Definition RING_MAX_LINES : Z := 4000.
Definition RING_MAX_AGE : Z := 10 * 60 * 10 ^ 9.
Record RingEntry := { at_ : Z; line : string }.
Record Log := { level : Level; json_form : bool; ring : list RingEntry; written : list string }.
Definition new_log : Log := {| level := Info; json_form := false; ring := []; written := [] |}.

Fixpoint trim_front (now : Z) (l : list RingEntry) : list RingEntry :=
  match l with [] => [] | e :: l' => if (RING_MAX_LINES <? zlen l) || (RING_MAX_AGE <? now - at_ e) then trim_front now l' else l end.
Definition ring_push (now : Z) (s : string) (l : list RingEntry) : list RingEntry := trim_front now (l ++ [{| at_ := now; line := s |}]).
Definition SPACE : string := " ".
Definition QUOTE : string := String "034" EmptyString.
Definition has_space (v : string) : bool := existsb (fun c => Ascii.eqb c " ") (chars v).
Definition field_text (kv : string * string) : string :=
  SPACE +:+ kv.1 +:+ "=" +:+ (if has_space kv.2 || String.eqb kv.2 "" then QUOTE +:+ kv.2 +:+ QUOTE else kv.2).
Definition text_line (timestamp : string) (l : Level) (component message : string) (fields : list (string * string)) : string :=
  timestamp +:+ SPACE +:+ name_of l +:+ SPACE +:+ component +:+ SPACE +:+ message +:+ foldr (fun kv r => field_text kv +:+ r) ""%string fields.
(** [as_json]: the line in JSON form, its text being the library's. *)
Definition write (now : Z) (timestamp : string) (as_json : string) (l : Level) (component message : string) (fields : list (string * string)) (g : Log) : Log :=
  let emit := rank (level g) <=? rank l in
  let keep := rank Info <=? rank l in
  let s := if json_form g then as_json else text_line timestamp l component message fields in
  {| g with ring := if keep then ring_push now s (ring g) else ring g; written := if emit then written g ++ [s] else written g |}.
Definition set_level (name : string) (g : Log) : Log * bool := match level_of name with Some l => ({| g with level := l |}, true) | None => (g, false) end.
Definition recent (now max_age : Z) (g : Log) : list string := map line (List.filter (fun e => now - at_ e <=? max_age) (ring g)).
Definition clear_ring (g : Log) : Log := {| g with ring := [] |}.
Definition short_id (id : string) : string := if 8 <? ssize id then of_chars (drop (length (chars id) - 8) (chars id)) else id.

Inductive LogIn := LWrite (now : Z) (timestamp as_json : string) (l : Level) (component message : string) (fields : list (string * string)) | LLevel (name : string) | LJson (b : bool) | LClear.
Definition log_step (g : Log) (i : LogIn) : Log :=
  match i with
  | LWrite now ts j l c m f => write now ts j l c m f g
  | LLevel name => (set_level name g).1
  | LJson b => {| g with json_form := b |}
  | LClear => clear_ring g
  end.
Definition log_run (ins : list LogIn) : Log := foldl log_step new_log ins.

(** ** Bounds *)
Definition times (ins : list LogIn) : list Z := omap (fun i => match i with LWrite now _ _ _ _ _ _ => Some now | _ => None end) ins.
Lemma trim_spec now l : exists n, trim_front now l = drop n l /\ zlen (trim_front now l) <= RING_MAX_LINES /\ (forall e, head (trim_front now l) = Some e -> now - at_ e <= RING_MAX_AGE) /\
  (forall i e, (i < n)%nat -> l !! i = Some e -> RING_MAX_LINES < zlen l - Z.of_nat i \/ RING_MAX_AGE < now - at_ e).
Proof.
  induction l as [|e l IH]; [exists 0%nat; split_and!; done|]. cbn [trim_front]. destruct ((RING_MAX_LINES <? zlen (e :: l)) || (RING_MAX_AGE <? now - at_ e)) eqn:Eb.
  - destruct IH as (n & E1 & E2 & E3 & E4). exists (S n). split_and!; [done | done | done|]. intros [|i] x Hi Hx; cbn in Hx; [injection Hx as ->; apply orb_prop in Eb as [?%Z.ltb_lt|?%Z.ltb_lt]; [left | right]; lia|]. destruct (E4 i x ltac:(lia) Hx); [left; rewrite zlen_cons; lia | by right].
  - apply orb_false_elim in Eb as [H1%Z.ltb_ge H2%Z.ltb_ge]. exists 0%nat. split_and!; [done | done | intros x [= <-]; done | lia].
Qed.
(** In the order they were written. *)
Definition in_order (l : list RingEntry) : Prop := forall i j e f, (i <= j)%nat -> l !! i = Some e -> l !! j = Some f -> at_ e <= at_ f.
Record ring_ok (now : Z) (l : list RingEntry) : Prop := { rk_len : zlen l <= RING_MAX_LINES; rk_order : in_order l; rk_before e : In e l -> at_ e <= now }.
Lemma ring_push_ok now last s l : last <= now -> ring_ok last l -> ring_ok now (ring_push now s l) /\ (forall e, In e (ring_push now s l) -> now - at_ e <= RING_MAX_AGE).
Proof.
  intros Hn [H1 H2 H3]. unfold ring_push. set (k := l ++ _). assert (in_order k /\ forall e, In e k -> at_ e <= now) as [Ho Hb].
  { assert (forall e, In e k -> at_ e <= now) as Hb by (intros e [He|[<-|[]]]%in_app_iff; [specialize (H3 e He); lia | done]). split; [|done]. intros i j e f Hij Hi Hj. apply lookup_app_Some in Hj as [Hj|[Hlen Hj]].
    - apply lookup_app_Some in Hi as [Hi|[Hl _]]; [by eapply H2 | apply lookup_lt_Some in Hj; lia].
    - apply list_lookup_singleton_Some in Hj as [_ <-]. cbn. apply Hb, list_elem_of_In, list_elem_of_lookup. by exists i. }
  destruct (trim_spec now k) as (n & E1 & E2 & E3 & _). assert (in_order (trim_front now k)) as Ho' by (rewrite E1; intros i j e f Hij Hi Hj; rewrite !lookup_drop in *; eapply Ho; [|exact Hi | exact Hj]; lia).
  split; [split; [done | done|]|].
  - intros e He. apply Hb. rewrite E1 in He. rewrite <- (take_drop n k). apply in_app_iff. by right.
  - intros e He. apply list_elem_of_In, list_elem_of_lookup in He as [i Hi]. destruct (trim_front now k) as [|h t] eqn:Et; [done|]. specialize (E3 h eq_refl). specialize (Ho' 0%nat i h e ltac:(lia) eq_refl Hi). lia.
Qed.
Lemma ring_weaken_time a b l : a <= b -> ring_ok a l -> ring_ok b l.
Proof. intros Hab [H1 H2 H3]. split; [done | done|]. intros e He. specialize (H3 e He). lia. Qed.
Lemma empty_ok t : ring_ok t [].
Proof. split; [done | by intros i j e f _ Hi | done]. Qed.
Lemma run_ring ins now : forall g t, StronglySorted Z.le (t :: times ins ++ [now]) -> ring_ok t (ring g) -> exists last, last <= now /\ ring_ok last (ring (foldl log_step g ins)).
Proof.
  induction ins as [|i ins IH]; intros g t Hs Hg.
  - exists t. split; [|done]. apply StronglySorted_inv in Hs as [_ Ht]. by apply Forall_cons in Ht as [Ht _].
  - cbn [foldl]. destruct i as [u ts j l c m f|name|b|]; cbn [log_step].
    + change (times (LWrite u ts j l c m f :: ins)) with (u :: times ins) in Hs. cbn [app] in Hs. apply StronglySorted_inv in Hs as [Hs Ht]. apply Forall_cons in Ht as [Hle _]. apply (IH _ u); [done|]. unfold write. cbn [ring]. destruct (rank Info <=? rank l); [by apply (ring_push_ok u t) | by apply (ring_weaken_time t)].
    + apply (IH _ t); [done|]. unfold set_level. by destruct (level_of name).
    + by apply (IH _ t).
    + apply (IH _ t); [done | apply empty_ok].
Qed.
(** The log ring is bounded and loses nothing else. With a clock that does not go back: it never holds more than 4000
    lines; after a line at [Info] or above is written none in it is more than ten minutes old, the new line is the
    last one, and every line that was dropped for it was older than that or had 4000 newer ones. *)
Theorem log_ring_bounded ins now timestamp as_json l component message fields : StronglySorted Z.le (0 :: times ins ++ [now]) -> rank Info <= rank l ->
  let g := log_run ins in let g' := write now timestamp as_json l component message fields g in
  zlen (ring g') <= 4000 /\ (forall e, In e (ring g') -> now - at_ e <= RING_MAX_AGE) /\ (exists n, ring g' = drop n (ring g ++ [{| at_ := now; line := if json_form g then as_json else text_line timestamp l component message fields |}]) /\
  forall i e, (i < n)%nat -> ring g !! i = Some e -> 4000 < zlen (ring g) + 1 - Z.of_nat i \/ RING_MAX_AGE < now - at_ e).
Proof.
  intros Hs Hl g g'. destruct (run_ring ins now new_log 0 Hs (empty_ok 0)) as (last & Hle & Hok). fold (log_run ins) g in Hok.
  assert (ring g' = ring_push now (if json_form g then as_json else text_line timestamp l component message fields) (ring g)) as ->.
  { unfold g', write. cbn [ring]. by rewrite (proj2 (Z.leb_le _ _) Hl). }
  destruct (ring_push_ok now last (if json_form g then as_json else text_line timestamp l component message fields) (ring g) Hle Hok) as [[H1 _ _] H2]. split_and!; [done | done|].
  unfold ring_push. destruct (trim_spec now (ring g ++ [{| at_ := now; line := if json_form g then as_json else text_line timestamp l component message fields |}])) as (n & E1 & _ & _ & E4). exists n. split; [done|]. intros i e Hi He. specialize (E4 i e Hi (lookup_app_l_Some _ _ _ _ He)). by rewrite zlen_snoc in E4.
Qed.
Definition some_lines : list LogIn := [LWrite 5 "t0" "" Info "core" "started" [("robot", "r 1")]; LLevel "error"; LWrite 7 "t1" "" Debug "core" "detail" []; LWrite 9 "t2" "" Warn "net" "slow" []].
Definition later : Z := 12 * 60 * 10 ^ 9.
Lemma log_ring_bounded_witness : let g' := write later "t3" "" Error "net" "gone" [] (log_run some_lines) in
  map line (ring g') = ["t3 ERROR net gone"%string] /\ written g' = ["t0 INFO core started robot=" +:+ QUOTE +:+ "r 1" +:+ QUOTE; "t3 ERROR net gone"]%string /\ forall e, In e (ring g') -> later - at_ e <= RING_MAX_AGE.
Proof.
  intros g'. split; [by vm_compute|]. split; [by vm_compute|]. destruct (log_ring_bounded some_lines later "t3" "" Error "net" "gone" []) as (_ & H & _); [|done|done]. cbn [times some_lines omap list_omap app]. repeat constructor; unfold later; lia.
Defined.
